(* ===== verification/_CoqProject ===== *)
-Q . S2P
Prelude.v
Buffer.v
Bytes.v
Types.v
F64.v
Source.v
ChunkState.v
Control.v
ChunkWriter.v
ChunkReader.v
ReadLoop.v
ChunkView.v
RoundTrip.v
MediaOut.v
Amf0.v
Amf3.v
SharedObject.v
Sha256.v
Handshake.v
Ertmp.v
Modex.v
Multitrack.v
CodecConfig.v
InitCache.v
ColorInfo.v
Delivery.v
Caps.v
Command.v
ConnectWire.v
Session.v
ConnRelay.v
ConnSend.v
ConnMedia.v
ConnAuth.v
ConnCommand.v
ConnRecv.v
SessionTotal.v
SessionInv.v
SessionStep.v
SessionRecv.v
SessionCalls.v
SessionLoop.v
SessionMedia.v
SessionHandshake.v
SessionSend.v
RelayQueue.v
StreamCache.v
CacheInv.v
Staging.v
Server.v
ServerRelay.v
ServerInv.v
ServerStep.v
ServerFan.v
ServerTick.v
ServerClose.v
ServerPoll.v
ServerRun.v
