(* ===== verification/Prelude.v ===== *)
(** * librtmp2: a verification of the RTMP protocol library

    The library (src/) speaks RTMP with the Enhanced RTMP extensions. Bytes of a
    peer enter a byte buffer; after the handshake the chunk reader reassembles
    messages from interleaved chunk streams; the session interprets control,
    command, data and media messages; the chunk writer fragments what is sent
    back. Media payloads carry FLV-style tag headers, which the media modules
    classify for the relay. The server owns the connections: on each tick it
    receives, merges the frames of all publishers into one batch, keeps the init
    frames of every route in a cache, fans the batch out to the players under
    flow control, and removes the connections that closed.

    ** Files

    Codecs and transport of messages:
    - Prelude, Bytes (src/bytes.rs), Types (src/types.rs), F64: errors and
      panics, the state monad with its invariants ([keeps], [settles]), machine
      integers, indexed lists, record update, big-endian integers, IEEE doubles
      by their bit pattern.
    - Buffer (src/buffer.rs): the buffer, refined to a bounded FIFO queue.
    - Source: a decoder is written once over the class [Source]; at [Buffer] it
      is the code, at the list of unread bytes its own reference, and [sim]
      relates the two and excludes panics. [sim_out] adds an out parameter.
      [emits] says what an encoder appends.
    - ChunkState, ChunkWriter, ChunkReader, MediaOut (src/chunk/): the registry
      of chunk streams with its memory accounting, fragmentation, reassembly,
      header compression. ReadLoop is [Conn::recv] of src/session/conn.rs and
      its loops over them, past the handshake and with the message handler as a
      parameter; ChunkView is the protocol state machine of one chunk stream;
      RoundTrip composes writer and reader.
    - Amf0, Amf3 (src/amf/), Control, Command, SharedObject (src/message/): the
      payload codecs. ConnectWire is the connect request on the wire.
    - Sha256, Handshake (src/sha256.rs, src/handshake.rs).
    - Ertmp, Modex, Multitrack, Caps (src/ertmp/), CodecConfig, InitCache,
      ColorInfo, Delivery (src/media/): Enhanced RTMP headers, descriptors,
      capabilities, and the classification of media for caching and delivery.

    The session (src/session/):
    - Session: the record [Conn], streams, the state machine, the publish route
      registry, the callbacks ([Hooks]) and the [World] a call works on.
    - ConnRelay, ConnSend, ConnMedia, ConnAuth, ConnCommand, ConnRecv: the
      methods of [Conn] by subject, up to [Conn::recv].
    - SessionTotal, SessionInv, SessionStep, SessionRecv, SessionSend: the
      invariant of a connection and that every method keeps it. SessionCalls:
      sessions as sequences of calls. SessionLoop, SessionMedia,
      SessionHandshake: termination of the message loop, the exact outcome for a
      media message, progress of the handshake.

    The server (src/server/mod.rs):
    - RelayQueue, StreamCache, Staging, Server: the queues and the fair merge,
      the init cache, the staging of a fan-out, and the connection table with
      every phase of a tick.
    - CacheInv, ServerRelay: bounds and coherence of the cache, fairness of the
      batch and flow control. ServerInv, ServerStep, ServerFan, ServerTick,
      ServerClose, ServerPoll: the invariant of a server through the phases of a
      tick. ServerRun: servers as sequences of operations.

    ** How code is rendered

    A Rust call is a function into [Res]: a value, an [ErrorCode], or [Panic]
    where Rust would panic (an index or slice out of range, a length mismatch of
    [copy_from_slice]). A method is an [ST], which keeps the state on every
    outcome; an out parameter is part of that state. Integers are [Z], wrapped
    where the code casts or shifts; [f64] is its [u64] bit pattern; a byte array
    or [Vec] is the list of its elements. Loops the code bounds by a counter run
    on fuel one above the bound (257 for 256 object keys, 33 for 32 levels of
    nesting), and the message loop on one more than there are unread bytes;
    running out of fuel is [Panic], so that the absence of panics also says the
    fuel was enough. (In ReadLoop, which has no panics to exclude, the proof that
    the fuel is enough is part of its lemmas.) The clock, the random seeds, the
    callbacks of an application and what a socket takes or returns are arguments
    of the calls that use them; a tick reads the clock once. The order in which a
    [HashMap] is iterated is a parameter (the class [Iteration]), any order of
    the entries of the map.

    ** What the theorems show

    - Transport of messages: what the writer fragments and the media path
      compresses, [recv] delivers, over any segmentation of the byte stream, any
      budget stops and changes of the chunk size; the reader never panics, keeps
      its memory budget, and refines the chunk stream state machine.
    - Codecs: encoders and decoders are inverse to each other; [skip_value]
      recognises exactly the grammar of AMF0 values; the incremental hash is the
      hash of the whole message; every decoder is total on arbitrary bytes.
    - Media: the classification of frames for the init cache, the delivery
      hints, the ModEx and multitrack walks and the record validators are each
      equal to a declarative specification of the payload.
    - Negotiation: of what a connect request offers, a server grants exactly
      what it implements.
    - Sessions: no bytes of a peer and no order of calls make a connection
      panic, run a loop without end or exceed its limits; a role appears only in
      a call whose callbacks allow it or that completes a pending request; a
      client that sends its handshake gets through it.
    - Servers: no operation panics over the life of a server; limits hold; a
      route has one publisher; the batch of a tick is fair, and what exceeds its
      budget of sends stays queued in order; a slow player loses whole stretches
      between frames it can resume on; the init cache is bounded and replays a
      keyframe only with the headers it was received under.

    ** Not modelled

    The sockets and TLS (src/transport.rs, src/net/), the listeners of a server
    with their rotation and pending TLS handshakes (a tick is given the sockets
    they hand over), the client (src/client/), the C interface (src/lib.rs), the
    allocator hooks and the log: they are calls of the operating system or
    wrappers over modelled operations. The FLV tag helpers (src/flv/) and the
    dispatch of src/message/message.rs are not on the path of a session. Threads,
    close reasons and the contents of log lines are not represented; a mutex is
    the value it protects. *)
From stdpp Require Export base tactics list numbers option gmap.
From Stdlib Require Export ZArith Lia.

#[global] Open Scope Z_scope.

(** * Errors, results and the state monad *)

(** [ErrorCode] of types.rs, the error half of the crate's [Result]. *)
Inductive ErrorCode : Type :=
  | EOk | Io | Timeout | Protocol | Handshake | Chunk | Amf
  | Unsupported | Auth | Internal.

#[global] Instance ErrorCode_eq_dec : EqDecision ErrorCode.
Proof. solve_decision. Defined.

(** Outcome of a Rust call: a value, a returned error, or a panic (index or
    slice out of range, [copy_from_slice] length mismatch). *)
Inductive Res (A : Type) : Type :=
  | Ok (a : A)
  | Err (e : ErrorCode)
  | Panic.
Arguments Ok {A} a.
Arguments Err {A} e.
Arguments Panic {A}.

#[global] Instance Res_ret : MRet Res := λ A a, Ok a.
#[global] Instance Res_bind : MBind Res := λ A B f m,
  match m with Ok a => f a | Err e => Err e | Panic => Panic end.

(** A call on a value borrowed mutably: the state is returned on every
    outcome, because a Rust callee that fails keeps the mutations it made. *)
Definition ST (S A : Type) : Type := S → Res A * S.

#[global] Instance ST_ret {S} : MRet (ST S) := λ A a s, (Ok a, s).
#[global] Instance ST_bind {S} : MBind (ST S) := λ A B f m s,
  match m s with
  | (Ok a, s') => f a s'
  | (Err e, s') => (Err e, s')
  | (Panic, s') => (Panic, s')
  end.

Definition fail {S A} (e : ErrorCode) : ST S A := λ s, (Err e, s).
Definition get_st {S} : ST S S := λ s, (Ok s, s).
Definition put_st {S} (s : S) : ST S unit := λ _, (Ok tt, s).
Definition modify {S} (f : S → S) : ST S unit := λ s, (Ok tt, f s).
Definition lift {S A} (r : Res A) : ST S A := λ s, (r, s).

(** [.map_err(|_| e)]. *)
Definition map_err {S A} (e : ErrorCode) (m : ST S A) : ST S A := λ s,
  match m s with
  | (Err _, s') => (Err e, s')
  | r => r
  end.

(** [let _ = m;]. *)
Definition ignore {S A} (m : ST S A) : ST S unit := λ s,
  match m s with
  | (Panic, s') => (Panic, s')
  | (_, s') => (Ok tt, s')
  end.

(** [if c { return Err(e) }]. *)
Definition guard_st {S} (c : bool) (e : ErrorCode) : ST S unit :=
  if c then fail e else mret tt.

(** A panicking access: [None] is the out-of-range case. *)
Definition or_panic {A} (o : option A) : Res A :=
  match o with Some a => Ok a | None => Panic end.

Definition is_ok {A} (r : Res A) : bool :=
  match r with Ok _ => true | _ => false end.

Lemma Ok_bind {A B} (a : A) (f : A → Res B) : (Ok a ≫= f) = f a.
Proof. done. Qed.

Lemma Ok_inj {A} (a b : A) : Ok a = Ok b → a = b.
Proof. by intros [= ->]. Qed.

Lemma bind_ok {S A B} (m : ST S A) (k : A → ST S B) s a s' :
  m s = (Ok a, s') → (m ≫= k) s = k a s'.
Proof. intros H. unfold mbind, ST_bind. by rewrite H. Qed.

Lemma bind_err {S A B} (m : ST S A) (k : A → ST S B) s e s' :
  m s = (Err e, s') → (m ≫= k) s = (Err e, s').
Proof. intros H. unfold mbind, ST_bind. by rewrite H. Qed.

Lemma bind_inv {S A B} (m : ST S A) (k : A → ST S B) s b s' :
  (m ≫= k) s = (Ok b, s') → ∃ a s1, m s = (Ok a, s1) ∧ k a s1 = (Ok b, s').
Proof.
  unfold mbind, ST_bind. destruct (m s) as [[a|e|] s1] eqn:E; intros H; try done.
  by exists a, s1.
Qed.

Lemma lift_ok {S A B} (a : A) (k : A → ST S B) s : (lift (Ok a) ≫= k) s = k a s.
Proof. done. Qed.

Lemma lift_eq {S A B} (r : Res A) a (k : A → ST S B) s : r = Ok a → (lift r ≫= k) s = k a s.
Proof. by intros ->. Qed.

Lemma lift_inv {S A B} (r : Res A) (k : A → ST S B) s b s' :
  (lift r ≫= k) s = (Ok b, s') → ∃ a, r = Ok a ∧ k a s = (Ok b, s').
Proof. destruct r as [a|e|]; [|done..]. by exists a. Qed.

Lemma guard_pass {S A} c e (m : ST S A) s : c = false → (guard_st c e;; m) s = m s.
Proof. by intros ->. Qed.

Lemma mret_tt {S} (s : S) : (mret tt : ST S unit) s = (Ok tt, s).
Proof. done. Qed.

Lemma guard_inv {S A} c e (m : ST S A) s a s' :
  (guard_st c e;; m) s = (Ok a, s') → c = false ∧ m s = (Ok a, s').
Proof. by destruct c. Qed.

Lemma guard_refuse {S A} c e (m : ST S A) s : c = true → (guard_st c e;; m) s = (Err e, s).
Proof. by intros ->. Qed.

Lemma guard_false {S} e (s : S) : guard_st false e s = (Ok tt, s).
Proof. done. Qed.

Lemma map_err_ok {S A} e (m : ST S A) s a s' :
  m s = (Ok a, s') → map_err e m s = (Ok a, s').
Proof. intros H. unfold map_err. by rewrite H. Qed.

Lemma map_err_inv {S A} e (m : ST S A) s a s' :
  map_err e m s = (Ok a, s') → m s = (Ok a, s').
Proof. unfold map_err. destruct (m s) as [[?|?|] ?]; congruence. Qed.

(** * Invariants of state-passing code *)

(** What a result may be: a value in [Q] or an error, not a panic. *)
Definition returns {A} (Q : A → Prop) (r : Res A) : Prop :=
  match r with Ok a => Q a | Err _ => True | Panic => False end.

(** [m] keeps the invariant [I] of its state, whichever way it returns. *)
Definition keeps {S A} (I : S → Prop) (Q : A → Prop) (m : ST S A) : Prop := ∀ s, I s →
  I (snd (m s)) ∧ returns Q (fst (m s)).

Create HintDb keeps.

Section keeps.
Context {S A B : Type} (I : S → Prop).
Implicit Types (Q : A → Prop) (R : B → Prop).

Lemma keeps_ret Q a : Q a → keeps I Q (mret a).
Proof. by intros H s Hs. Qed.

Lemma keeps_bind Q R m k : keeps I Q m → (∀ a, Q a → keeps I R (k a)) → keeps I R (m ≫= k).
Proof.
  intros Hm Hk s Hs. specialize (Hm s Hs). unfold mbind, ST_bind.
  destruct (m s) as [[a|e|] s']; destruct Hm as [Hi Hr]; [by apply Hk|done..].
Qed.

Lemma keeps_fail Q e : keeps I Q (fail e).
Proof. by intros s Hs. Qed.

Lemma keeps_lift Q r : returns Q r → keeps I Q (lift r).
Proof. by intros H s Hs. Qed.

Lemma keeps_guard (R : unit → Prop) c e : (c = false → R tt) → keeps I R (guard_st c e).
Proof. intros H s Hs. destruct c; simpl; auto. Qed.

Lemma keeps_get : keeps I I get_st.
Proof. by intros s Hs. Qed.

Lemma keeps_put (R : unit → Prop) s : I s → R tt → keeps I R (put_st s).
Proof. by intros ?? s' Hs. Qed.

Lemma keeps_modify (R : unit → Prop) f : (∀ s, I s → I (f s)) → R tt → keeps I R (modify f).
Proof. intros ?? s' Hs. simpl. auto. Qed.

Lemma keeps_map_err Q e m : keeps I Q m → keeps I Q (map_err e m).
Proof.
  intros Hm s Hs. specialize (Hm s Hs). unfold map_err. by destruct (m s) as [[a|?|] s'].
Qed.

Lemma keeps_ignore Q (R : unit → Prop) m : keeps I Q m → R tt → keeps I R (ignore m).
Proof.
  intros Hm HR s Hs. specialize (Hm s Hs). unfold ignore. destruct (m s) as [[a|?|] s'], Hm; by simpl in *.
Qed.

Lemma keeps_weaken Q Q' m : keeps I Q m → (∀ a, Q a → Q' a) → keeps I Q' m.
Proof.
  intros Hm HQ s Hs. specialize (Hm s Hs). destruct (m s) as [[a|?|] s']; destruct Hm; split; simpl; auto.
Qed.
End keeps.

(** [m] keeps [I] and returns a value in [Q]: neither an error nor a panic. *)
Definition settles {S A} (I : S → Prop) (Q : A → Prop) (m : ST S A) : Prop := ∀ s, I s →
  I (snd (m s)) ∧ ∃ a, fst (m s) = Ok a ∧ Q a.

Section settles.
Context {S A B : Type} (I : S → Prop).
Implicit Types (Q : A → Prop) (R : B → Prop).

Lemma settles_ret Q a : Q a → settles I Q (mret a).
Proof. intros H s Hs. split; [done|by exists a]. Qed.

Lemma settles_bind Q R m k : settles I Q m → (∀ a, Q a → settles I R (k a)) → settles I R (m ≫= k).
Proof.
  intros Hm Hk s Hs. destruct (Hm s Hs) as [Hi (a&E&Ha)]. unfold mbind, ST_bind.
  destruct (m s) as [r s']. cbn in *. subst r. by apply Hk.
Qed.

Lemma settles_get : settles I I get_st.
Proof. intros s Hs. split; [done|by exists s]. Qed.

Lemma settles_modify (R : unit → Prop) f : (∀ s, I s → I (f s)) → R tt → settles I R (modify f).
Proof. intros ?? s' Hs. split; [simpl; auto|by exists tt]. Qed.

Lemma settles_ignore Q (R : unit → Prop) m : keeps I Q m → R tt → settles I R (ignore m).
Proof.
  intros Hm HR s Hs. specialize (Hm s Hs). unfold ignore. destruct (m s) as [[a|?|] s'], Hm; simpl in *; eauto; done.
Qed.

Lemma settles_weaken Q Q' m : settles I Q m → (∀ a, Q a → Q' a) → settles I Q' m.
Proof. intros Hm HQ s Hs. destruct (Hm s Hs) as [Hi (a&E&Ha)]. eauto. Qed.

Lemma settles_keeps Q m : settles I Q m → keeps I Q m.
Proof. intros Hm s Hs. destruct (Hm s Hs) as [Hi (a&E&Ha)]. by rewrite E. Qed.
End settles.

(** * Machine integers

    Unsigned integers are [Z] values kept in range by their operations;
    [as_uN] is Rust's truncating cast, the shifts drop the bits that leave
    the width. *)

Definition as_u8 (x : Z) : Z := x mod 256.
Definition as_u16 (x : Z) : Z := x mod 65536.
Definition as_u32 (x : Z) : Z := x mod 4294967296.
Definition as_u64 (x : Z) : Z := x mod 18446744073709551616.
(** A [u32] reinterpreted as [i32], and back by [as_u32]. *)
Definition as_i32 (x : Z) : Z :=
  let y := x mod 4294967296 in if y <? 2147483648 then y else y - 4294967296.

Definition wrapping_add32 (x y : Z) : Z := as_u32 (x + y).
Definition wrapping_sub32 (x y : Z) : Z := as_u32 (x - y).
Definition saturating_sub (x y : Z) : Z := Z.max 0 (x - y).
(** [usize::saturating_add] on a 64-bit target. *)
(** No allocation is larger than [isize::MAX]. *)
Definition ISIZE_MAX : Z := 9223372036854775807.
Definition USIZE_MAX : Z := 18446744073709551615.
Definition saturating_add (x y : Z) : Z := Z.min USIZE_MAX (x + y).

Declare Scope rust_scope.
Delimit Scope rust_scope with rust.
Notation "x <<32 n" := (as_u32 (Z.shiftl x n)) (at level 43, left associativity) : rust_scope.
Notation "x <<16 n" := (as_u16 (Z.shiftl x n)) (at level 43, left associativity) : rust_scope.
Notation "x >> n" := (Z.shiftr x n) (at level 43, left associativity) : rust_scope.
Notation "x '.|' y" := (Z.lor x y) (at level 48, left associativity) : rust_scope.
Notation "x '.&' y" := (Z.land x y) (at level 46, left associativity) : rust_scope.
Open Scope rust_scope.

Definition is_u8 (x : Z) : Prop := 0 ≤ x < 256.
Definition is_u16 (x : Z) : Prop := 0 ≤ x < 65536.
Definition is_u24 (x : Z) : Prop := 0 ≤ x < 16777216.
Definition is_u32 (x : Z) : Prop := 0 ≤ x < 4294967296.
Definition is_u64 (x : Z) : Prop := 0 ≤ x < 18446744073709551616.
Create HintDb ints.
#[export] Hint Unfold is_u8 is_u16 is_u24 is_u32 is_u64 : ints.

Abbreviation bytes := (list Z).
Definition bytes_ok (l : bytes) : Prop := Forall is_u8 l.

Lemma as_u8_id x : is_u8 x → as_u8 x = x.
Proof. intros. by apply Z.mod_small. Qed.
Lemma as_u16_id x : is_u16 x → as_u16 x = x.
Proof. intros. by apply Z.mod_small. Qed.
Lemma as_u32_id x : is_u32 x → as_u32 x = x.
Proof. intros. by apply Z.mod_small. Qed.
Lemma as_u8_range x : is_u8 (as_u8 x).
Proof. by apply Z.mod_pos_bound. Qed.
Lemma as_u16_range x : is_u16 (as_u16 x).
Proof. by apply Z.mod_pos_bound. Qed.
Lemma as_u32_range x : is_u32 (as_u32 x).
Proof. by apply Z.mod_pos_bound. Qed.
#[export] Hint Resolve as_u8_range as_u16_range as_u32_range : ints.

(** Concatenating bit fields is addition. *)
Lemma lor_shiftl_add a b n : 0 ≤ n → 0 ≤ b < 2 ^ n →
  Z.lor (Z.shiftl a n) b = a * 2 ^ n + b.
Proof.
  intros Hn Hb. rewrite Z.shiftl_mul_pow2 by done. symmetry.
  rewrite <- Z.add_lor_land.
  replace (Z.land (a * 2 ^ n) b) with 0; [by rewrite Z.add_0_r|].
  symmetry. apply Z.bits_inj'. intros i Hi. rewrite Z.bits_0, Z.land_spec.
  destruct (decide (i < n)).
  - by rewrite Z.mul_pow2_bits_low.
  - rewrite <- (Z.mod_small b (2 ^ n)), Z.mod_pow2_bits_high, andb_false_r by lia.
    done.
Qed.

Lemma lor_add_shiftl a b n : 0 ≤ n → 0 ≤ b < 2 ^ n →
  Z.lor b (Z.shiftl a n) = a * 2 ^ n + b.
Proof. intros. rewrite Z.lor_comm. by apply lor_shiftl_add. Qed.

Lemma land_ones' a n : 0 ≤ n → Z.land a (Z.ones n) = a mod 2 ^ n.
Proof. apply Z.land_ones. Qed.

Lemma land_255 a : Z.land a 255 = a mod 256.
Proof. apply (Z.land_ones a 8). lia. Qed.
Lemma land_127 a : Z.land a 127 = a mod 128.
Proof. apply (Z.land_ones a 7). lia. Qed.
Lemma land_63 a : Z.land a 63 = a mod 64.
Proof. apply (Z.land_ones a 6). lia. Qed.
Lemma land_31 a : Z.land a 31 = a mod 32.
Proof. apply (Z.land_ones a 5). lia. Qed.
Lemma land_15 a : Z.land a 15 = a mod 16.
Proof. apply (Z.land_ones a 4). lia. Qed.
Lemma land_7 a : Z.land a 7 = a mod 8.
Proof. apply (Z.land_ones a 3). lia. Qed.
Lemma land_3 a : Z.land a 3 = a mod 4.
Proof. apply (Z.land_ones a 2). lia. Qed.
Lemma land_1 a : Z.land a 1 = a mod 2.
Proof. apply (Z.land_ones a 1). lia. Qed.

Lemma shiftr_div a n : 0 ≤ n → Z.shiftr a n = a / 2 ^ n.
Proof. apply Z.shiftr_div_pow2. Qed.

Create Rewrite HintDb bits.
#[export] Hint Rewrite land_255 land_127 land_63 land_31 land_15 land_7 land_3 land_1 : bits.
#[export] Hint Rewrite shiftr_div Z.shiftl_mul_pow2 using lia : bits.

(** Evaluate the powers of two with a literal exponent. *)
Ltac eval_pow2 :=
  repeat match goal with
  | |- context [Z.pow 2 (Zpos ?n)] =>
      let v := eval compute in (Z.pow 2 (Zpos n)) in change (Z.pow 2 (Zpos n)) with v
  | H : context [Z.pow 2 (Zpos ?n)] |- _ =>
      let v := eval compute in (Z.pow 2 (Zpos n)) in change (Z.pow 2 (Zpos n)) with v in H
  end.
(** Linear arithmetic with [/] and [mod] by constants. *)
Ltac divlia := eval_pow2; Z.to_euclidean_division_equations; lia.
(** Open the range predicates everywhere, then [lia]. *)
Ltac ulia := unfold is_u8, is_u16, is_u24, is_u32, is_u64 in *; eval_pow2; lia.
Ltac udivlia := unfold is_u8, is_u16, is_u24, is_u32, is_u64, as_u8, as_u16, as_u32 in *; divlia.

(** * Slices

    Rust's [usize] lengths and offsets are [Z]; the list operations below are
    the slice operations of the source at such offsets. *)

Definition zlen {A} (l : list A) : Z := Z.of_nat (length l).
Definition ztake {A} (n : Z) (l : list A) : list A := take (Z.to_nat n) l.
Definition zdrop {A} (n : Z) (l : list A) : list A := drop (Z.to_nat n) l.
Definition zrepeat {A} (x : A) (n : Z) : list A := replicate (Z.to_nat n) x.
(** [l.get(i)]. *)
Definition zget {A} (l : list A) (i : Z) : option A :=
  if i <? 0 then None else l !! Z.to_nat i.
(** [l[i]]. *)
Definition zidx {A} (l : list A) (i : Z) : Res A := or_panic (zget l i).
(** [&l[a..b]]: panics unless [a <= b <= l.len()]. *)
Definition slice {A} (l : list A) (a b : Z) : Res (list A) :=
  if (0 <=? a) && (a <=? b) && (b <=? zlen l)
  then Ok (ztake (b - a) (zdrop a l)) else Panic.
(** [l[a..a + d.len()].copy_from_slice(d)]. *)
Definition copy_at {A} (l : list A) (a : Z) (d : list A) : Res (list A) :=
  if (0 <=? a) && (a + zlen d <=? zlen l)
  then Ok (ztake a l ++ d ++ zdrop (a + zlen d) l) else Panic.

#[global] Arguments zlen : simpl never.
#[global] Arguments ztake : simpl never.
#[global] Arguments zdrop : simpl never.
#[global] Arguments zrepeat : simpl never.
#[global] Arguments zget : simpl never.
#[global] Arguments slice : simpl never.
#[global] Arguments copy_at : simpl never.
#[global] Arguments as_u8 : simpl never.
#[global] Arguments as_u16 : simpl never.
#[global] Arguments as_u32 : simpl never.

Section slices.
Context {A : Type}.
Implicit Types (l k : list A) (n m : Z).

Lemma zlen_nonneg l : 0 ≤ zlen l.
Proof. unfold zlen. lia. Qed.
Lemma zlen_nil : zlen (@nil A) = 0.
Proof. done. Qed.
Lemma zlen_cons x l : zlen (x :: l) = 1 + zlen l.
Proof. unfold zlen. simpl. lia. Qed.
Lemma zlen_app l k : zlen (l ++ k) = zlen l + zlen k.
Proof. unfold zlen. rewrite length_app. lia. Qed.
Lemma zlen_ztake n l : zlen (ztake n l) = Z.min (Z.max 0 n) (zlen l).
Proof. unfold zlen, ztake. rewrite length_take. lia. Qed.
Lemma zlen_zdrop n l : zlen (zdrop n l) = Z.max 0 (zlen l - Z.max 0 n).
Proof. unfold zlen, zdrop. rewrite length_drop. lia. Qed.
Lemma zlen_zrepeat (x : A) n : zlen (zrepeat x n) = Z.max 0 n.
Proof. unfold zlen, zrepeat. rewrite length_replicate. lia. Qed.
Lemma zlen_0_nil l : zlen l = 0 → l = [].
Proof. destruct l; [done|]. rewrite zlen_cons. pose proof (zlen_nonneg l). lia. Qed.

Lemma ztake_all n l : zlen l ≤ n → ztake n l = l.
Proof. unfold zlen, ztake. intros. apply take_ge. lia. Qed.
Lemma ztake_nonpos n l : n ≤ 0 → ztake n l = [].
Proof. intros. unfold ztake. by replace (Z.to_nat n) with 0%nat by lia. Qed.
Lemma zdrop_nonpos n l : n ≤ 0 → zdrop n l = l.
Proof. intros. unfold zdrop. by replace (Z.to_nat n) with 0%nat by lia. Qed.
Lemma zdrop_all n l : zlen l ≤ n → zdrop n l = [].
Proof. unfold zlen, zdrop. intros. apply drop_ge. lia. Qed.
Lemma ztake_zdrop_app n l : ztake n l ++ zdrop n l = l.
Proof. apply take_drop. Qed.
Lemma ztake_app_l n l k : n ≤ zlen l → ztake n (l ++ k) = ztake n l.
Proof. unfold zlen, ztake. intros. apply take_app_le. lia. Qed.
Lemma ztake_app_r n l k : zlen l ≤ n → ztake n (l ++ k) = l ++ ztake (n - zlen l) k.
Proof.
  unfold zlen, ztake. intros. rewrite take_app_ge by lia. do 2 f_equal. lia.
Qed.
Lemma zdrop_app_l n l k : n ≤ zlen l → zdrop n (l ++ k) = zdrop n l ++ k.
Proof. unfold zlen, zdrop. intros. apply drop_app_le. lia. Qed.
Lemma zdrop_app_r n l k : zlen l ≤ n → zdrop n (l ++ k) = zdrop (n - zlen l) k.
Proof.
  unfold zlen, zdrop. intros. rewrite drop_app_ge by lia. f_equal. lia.
Qed.
Lemma ztake_app_exact l k : ztake (zlen l) (l ++ k) = l.
Proof. rewrite ztake_app_l by lia. by apply ztake_all. Qed.
Lemma zdrop_app_exact l k : zdrop (zlen l) (l ++ k) = k.
Proof. rewrite zdrop_app_r by lia. apply zdrop_nonpos. lia. Qed.
Lemma zdrop_zdrop n m l : 0 ≤ n → 0 ≤ m → zdrop n (zdrop m l) = zdrop (m + n) l.
Proof. intros. unfold zdrop. rewrite drop_drop. f_equal. lia. Qed.
Lemma ztake_ztake n m l : ztake n (ztake m l) = ztake (Z.min n m) l.
Proof. unfold ztake. rewrite take_take. f_equal. lia. Qed.
Lemma zdrop_ztake n m l : 0 ≤ n → zdrop n (ztake m l) = ztake (m - n) (zdrop n l).
Proof.
  intros. unfold zdrop, ztake. rewrite skipn_firstn_comm. f_equal. lia.
Qed.
Lemma ztake_zdrop_split n m l : 0 ≤ n → 0 ≤ m →
  ztake n l ++ ztake m (zdrop n l) = ztake (n + m) l.
Proof.
  intros. unfold ztake, zdrop. rewrite take_take_drop. f_equal. lia.
Qed.

Lemma zget_cons_0 x l : zget (x :: l) 0 = Some x.
Proof. done. Qed.
Lemma zget_cons_S x l n : 0 < n → zget (x :: l) n = zget l (n - 1).
Proof.
  intros. unfold zget.
  destruct (Z.ltb_spec n 0), (Z.ltb_spec (n - 1) 0); try lia.
  replace (Z.to_nat n) with (S (Z.to_nat (n - 1))) by lia. done.
Qed.
Lemma zget_app_l l k n : n < zlen l → zget (l ++ k) n = zget l n.
Proof.
  unfold zget, zlen. intros. destruct (Z.ltb_spec n 0); [done|].
  apply lookup_app_l. lia.
Qed.
Lemma zget_app_r l k n : zlen l ≤ n → zget (l ++ k) n = zget k (n - zlen l).
Proof.
  unfold zget. intros. pose proof (zlen_nonneg l).
  destruct (Z.ltb_spec n 0), (Z.ltb_spec (n - zlen l) 0); try lia.
  unfold zlen in *. rewrite lookup_app_r by lia. f_equal. lia.
Qed.
Lemma zget_Some_lt l n x : zget l n = Some x → 0 ≤ n < zlen l.
Proof.
  unfold zget, zlen. destruct (Z.ltb_spec n 0); [done|].
  intros ?%lookup_lt_Some. lia.
Qed.
Lemma zget_lt_Some l n : 0 ≤ n < zlen l → ∃ x, zget l n = Some x.
Proof.
  unfold zget, zlen. intros. destruct (Z.ltb_spec n 0); [lia|].
  apply lookup_lt_is_Some_2. lia.
Qed.
Lemma zget_None l n : zlen l ≤ n → zget l n = None.
Proof.
  unfold zget, zlen. intros. destruct (Z.ltb_spec n 0); [done|].
  apply lookup_ge_None_2. lia.
Qed.
Lemma zget_zdrop l n m : 0 ≤ n → 0 ≤ m → zget (zdrop n l) m = zget l (n + m).
Proof.
  unfold zget, zdrop. intros.
  destruct (Z.ltb_spec m 0), (Z.ltb_spec (n + m) 0); try lia.
  rewrite lookup_drop. f_equal. lia.
Qed.
Lemma zget_ztake l n m : m < n → zget (ztake n l) m = zget l m.
Proof.
  unfold zget, ztake. intros. destruct (Z.ltb_spec m 0); [done|].
  apply lookup_take_lt. lia.
Qed.
Lemma zidx_slice l n w m : 0 ≤ n → 0 ≤ m < w → zidx (ztake w (zdrop n l)) m = zidx l (n + m).
Proof. intros. unfold zidx. by rewrite zget_ztake, zget_zdrop by lia. Qed.
Lemma zidx_app l k n x : zidx l n = Ok x → zidx (l ++ k) n = Ok x.
Proof.
  unfold zidx. destruct (zget l n) as [y|] eqn:E; [|done]. intros [= ->].
  pose proof (zget_Some_lt l n x E). by rewrite zget_app_l, E by lia.
Qed.
Lemma slice_app_l n m l k : 0 ≤ m → n + m ≤ zlen l →
  ztake n (zdrop m (l ++ k)) = ztake n (zdrop m l).
Proof.
  intros. destruct (decide (m ≤ zlen l)).
  - rewrite zdrop_app_l by lia. apply ztake_app_l. rewrite zlen_zdrop. lia.
  - by rewrite !ztake_nonpos by lia.
Qed.
Lemma zidx_ok l n x : zget l n = Some x → zidx l n = Ok x.
Proof. unfold zidx. by intros ->. Qed.

Lemma slice_ok l a b : 0 ≤ a ≤ b → b ≤ zlen l →
  slice l a b = Ok (ztake (b - a) (zdrop a l)).
Proof.
  intros. unfold slice.
  destruct (Z.leb_spec 0 a), (Z.leb_spec a b), (Z.leb_spec b (zlen l)); try lia; done.
Qed.
Lemma slice_app_exact l k r : slice (l ++ k ++ r) (zlen l) (zlen l + zlen k) = Ok k.
Proof.
  pose proof (zlen_nonneg l). pose proof (zlen_nonneg k). pose proof (zlen_nonneg r).
  rewrite slice_ok by (rewrite ?zlen_app; lia).
  rewrite zdrop_app_exact. replace (_ + _ - _) with (zlen k) by lia.
  by rewrite ztake_app_exact.
Qed.
Lemma copy_at_ok l a d : 0 ≤ a → a + zlen d ≤ zlen l →
  copy_at l a d = Ok (ztake a l ++ d ++ zdrop (a + zlen d) l).
Proof.
  intros. unfold copy_at.
  destruct (Z.leb_spec 0 a), (Z.leb_spec (a + zlen d) (zlen l)); try lia; done.
Qed.
Lemma Forall_ztake (P : A → Prop) n l : Forall P l → Forall P (ztake n l).
Proof. apply Forall_take. Qed.
Lemma Forall_zdrop (P : A → Prop) n l : Forall P l → Forall P (zdrop n l).
Proof. apply Forall_drop. Qed.
Lemma Forall_zrepeat (P : A → Prop) x n : P x → Forall P (zrepeat x n).
Proof. intros. by apply Forall_replicate. Qed.
Lemma Forall_zget (P : A → Prop) l n x : Forall P l → zget l n = Some x → P x.
Proof.
  unfold zget. destruct (n <? 0); [done|]. intros. by eapply Forall_lookup_1.
Qed.
End slices.

Create Rewrite HintDb zlen.
#[export] Hint Rewrite @zlen_nil @zlen_cons @zlen_app @zlen_ztake @zlen_zdrop @zlen_zrepeat : zlen.

(** Record non-negativity of every [zlen] in sight. *)
Ltac zlen_facts :=
  repeat match goal with
  | |- context [zlen ?l] =>
      lazymatch goal with H : 0 ≤ zlen l |- _ => fail | _ => pose proof (zlen_nonneg l) end
  | _ : context [zlen ?l] |- _ =>
      lazymatch goal with H : 0 ≤ zlen l |- _ => fail | _ => pose proof (zlen_nonneg l) end
  end.
(** [lia] for goals about lengths of list expressions. *)
Ltac zlia := autorewrite with zlen in *; zlen_facts; lia.

(** Case on a boolean integer comparison of the goal. *)
Ltac zcase :=
  match goal with
  | |- context [Z.leb ?a ?b] => destruct (Z.leb_spec a b)
  | |- context [Z.ltb ?a ?b] => destruct (Z.ltb_spec a b)
  | |- context [Z.eqb ?a ?b] => destruct (Z.eqb_spec a b)
  end.
Ltac zcases := repeat (zcase; try lia; simpl).

(** * Sums over a list, for the accounting invariants *)

Fixpoint sumZ {A} (f : A → Z) (l : list A) : Z :=
  match l with [] => 0 | x :: l => f x + sumZ f l end.

Section sums.
Context {A : Type} (f : A → Z).
Implicit Types l : list A.

Lemma sumZ_app l k : sumZ f (l ++ k) = sumZ f l + sumZ f k.
Proof. induction l; simpl; lia. Qed.

Lemma sumZ_insert l i x y : l !! i = Some x →
  sumZ f (<[i := y]> l) = sumZ f l - f x + f y.
Proof.
  revert i. induction l as [|z l IH]; intros [|i] H; simplify_eq/=; [lia|].
  rewrite (IH i) by done. lia.
Qed.

Lemma sumZ_nonneg l : Forall (λ x, 0 ≤ f x) l → 0 ≤ sumZ f l.
Proof. induction 1; simpl; lia. Qed.

Lemma sumZ_lookup_le l i x : Forall (λ x, 0 ≤ f x) l → l !! i = Some x → f x ≤ sumZ f l.
Proof.
  intros H. revert i. induction H as [|z l Hz Hl IH]; intros [|i] Hi; simplify_eq/=.
  - pose proof (sumZ_nonneg l Hl). lia.
  - pose proof (IH _ Hi). lia.
Qed.

Lemma sumZ_fmap (g : A → A) l : (∀ x, f (g x) = f x) → sumZ f (g <$> l) = sumZ f l.
Proof. intros E. induction l as [|x l IH]; simpl; [done|]. rewrite E. by f_equal. Qed.
End sums.

(** * Sums over a map *)

Section map_sums.
Context `{Countable K} {V : Type} (f : K → V → Z).
Definition msum (m : gmap K V) : Z := map_fold (λ k v n, f k v + n) 0 m.

Lemma msum_empty : msum ∅ = 0.
Proof. apply map_fold_empty. Qed.

Lemma msum_insert m k v : m !! k = None → msum (<[k := v]> m) = f k v + msum m.
Proof. intros E. apply (map_fold_insert_L (λ k v n, f k v + n)); [intros; lia|done]. Qed.

Lemma msum_delete m k v : m !! k = Some v → msum m = f k v + msum (delete k m).
Proof. intros E. apply (map_fold_delete_L (λ k v n, f k v + n)); [intros; lia|done]. Qed.

Lemma msum_replace m k v v' : m !! k = Some v → msum (<[k := v']> m) = msum m - f k v + f k v'.
Proof.
  intros E. rewrite (msum_delete m k v) by done. rewrite <- insert_delete_eq, msum_insert by apply lookup_delete_eq. lia.
Qed.

Hypothesis f_nonneg : ∀ k v, 0 ≤ f k v.

Lemma msum_nonneg m : 0 ≤ msum m.
Proof.
  induction m as [|k v m E IH] using map_ind; [by rewrite msum_empty|].
  rewrite msum_insert by done. pose proof (f_nonneg k v). lia.
Qed.

Lemma msum_lookup m k v : m !! k = Some v → f k v ≤ msum m.
Proof. intros E. rewrite (msum_delete m k v) by done. pose proof (msum_nonneg (delete k m)). lia. Qed.

Lemma msum_subseteq m m' : m ⊆ m' → msum m ≤ msum m'.
Proof.
  revert m'. induction m as [|k v m E IH] using map_ind; intros m' Hs.
  - rewrite msum_empty. apply msum_nonneg.
  - rewrite msum_insert by done. rewrite (msum_delete m' k v).
    + assert (msum m ≤ msum (delete k m')); [|lia]. apply IH. rewrite <- (delete_insert_id m k v) by done. by apply delete_mono.
    + eapply lookup_weaken; [|done]. apply lookup_insert_eq.
Qed.
End map_sums.

(** * Record update *)

(** [r <| field := v |>] is the assignment [r.field = v]. An instance of [Eta]
    spells a record out as its constructor applied to its fields; the setter of
    a field is read off it. *)
Class Eta (R : Type) : Type := eta : R → R.
Class Setter {R T : Type} (proj : R → T) : Type := set_field : (T → T) → R → R.
Arguments set_field {R T} proj {_} f r.

Ltac solve_setter :=
  lazymatch goal with
  | |- @Setter ?R ?T ?proj =>
      let e := eval hnf in (@eta R _) in
      match eval pattern proj in e with
      | ?s _ => let t := eval cbv beta in (λ (f : T → T) (r : R), s (λ x, f (proj x)) r) in exact t
      end
  end.
#[export] Hint Extern 0 (Setter _) => solve_setter : typeclass_instances.

Notation "r <| f := v |>" := (set_field f (λ _, v) r)
  (at level 1, left associativity, format "r  <|  f  :=  v  |>") : stdpp_scope.
