(* ===== verification/Buffer.v ===== *)
(** The growable byte buffer of src/buffer.rs: the record with its two
    cursors, every operation with its panics, the invariant, and the
    refinement of a bounded FIFO byte queue. *)
From S2P Require Import Prelude.

Definition BUFFER_MAX_SIZE : Z := 64 * 1024 * 1024.
Definition BUFFER_INITIAL_SIZE : Z := 4096.
Definition BUFFER_RESET_CAPACITY : Z := BUFFER_INITIAL_SIZE.
Definition RECV_BUFFER_KEEP_CAPACITY : Z := 512 * 1024.
Definition BUFFER_GROW_FACTOR : Z := 2.

Record Buffer : Type := mkBuffer {
  data : bytes;      (* the backing vector, [data.len()] is the capacity *)
  size : Z;          (* bytes written *)
  read_pos : Z;      (* read cursor *)
  owned : bool;
}.

Module Buffer.

(** [Buffer::new]. *)
Definition new : Buffer := mkBuffer (zrepeat 0 BUFFER_INITIAL_SIZE) 0 0 true.

Definition with_capacity (capacity : Z) : Buffer := mkBuffer (zrepeat 0 capacity) 0 0 true.

Definition from_slice (d : bytes) : Buffer := mkBuffer d (zlen d) 0 true.

Definition from_static (d : bytes) : Buffer := mkBuffer d (zlen d) 0 false.

Definition available (b : Buffer) : Z := saturating_sub (size b) (read_pos b).

Definition space (b : Buffer) : Z := saturating_sub (zlen (data b)) (size b).

Definition capacity (b : Buffer) : Z := zlen (data b).

(** [peek]: the slice [data[read_pos..size]]. *)
Definition peek (b : Buffer) : Res bytes := slice (data b) (read_pos b) (size b).

Definition as_slice (b : Buffer) : Res bytes := slice (data b) 0 (size b).

Definition write_pos (b : Buffer) : Z := size b.

Definition set_size (n : Z) (b : Buffer) : Buffer :=
  mkBuffer (data b) (Z.min n (zlen (data b))) (read_pos b) (owned b).

Definition set_read_pos (pos : Z) (b : Buffer) : Buffer :=
  mkBuffer (data b) (size b) (Z.min pos (size b)) (owned b).

Definition clone (b : Buffer) : Buffer := mkBuffer (data b) (size b) (read_pos b) true.

(** [compact]: move the unread bytes to the front with [copy_within]. *)
Definition compact (b : Buffer) : Res Buffer :=
  if read_pos b =? 0 then Ok b
  else if size b <=? read_pos b then Ok (mkBuffer (data b) 0 0 (owned b))
  else
    let avail := size b - read_pos b in
    unread ← slice (data b) (read_pos b) (size b);
    d ← copy_at (data b) 0 unread;
    Ok (mkBuffer d avail 0 (owned b)).

(** The doubling loop of [ensure_capacity]; it leaves the loop at the cap, and
    [grow_fuel] doublings of a capacity of at least 4096 reach it. *)
Fixpoint grow_loop (fuel : nat) (new_cap needed : Z) : Z :=
  match fuel with
  | O => new_cap
  | S fuel =>
      if new_cap <? needed then
        let c := new_cap * BUFFER_GROW_FACTOR in
        if BUFFER_MAX_SIZE <? c then BUFFER_MAX_SIZE else grow_loop fuel c needed
      else new_cap
  end.
Definition grow_fuel : nat := 16.

Definition resize (d : bytes) (n : Z) : bytes := ztake n d ++ zrepeat 0 (n - zlen d).

Definition ensure_capacity (needed : Z) : ST Buffer unit := λ b,
  if needed <=? zlen (data b) then (Ok tt, b)
  else if negb (owned b) then (Err Internal, b)
  else if BUFFER_MAX_SIZE <? needed then (Err Internal, b)
  else
    let new_cap := grow_loop grow_fuel (Z.max (zlen (data b)) BUFFER_INITIAL_SIZE) needed in
    (Ok tt, mkBuffer (resize (data b) new_cap) (size b) (read_pos b) (owned b)).

(** The free rewind at the head of [make_room]. *)
Definition rewind (b : Buffer) : Buffer :=
  if (0 <? read_pos b) && (size b <=? read_pos b)
  then mkBuffer (data b) 0 0 (owned b) else b.

Definition make_room (additional : Z) : ST Buffer unit := λ b,
  let b := rewind b in
  if (BUFFER_MAX_SIZE <? additional)
     || (BUFFER_MAX_SIZE - additional <? available b) then (Err Internal, b)
  else if additional <=? space b then (Ok tt, b)
  else match compact b with
       | Ok b' => ensure_capacity (size b' + additional) b'
       | Err e => (Err e, b)
       | Panic => (Panic, b)
       end.

Definition write (d : bytes) : ST Buffer Z := λ b,
  if zlen d =? 0 then (Ok 0, b)
  else match make_room (zlen d) b with
       | (Ok _, b') =>
           match copy_at (data b') (size b') d with
           | Ok dat => (Ok (zlen d), mkBuffer dat (size b' + zlen d) (read_pos b') (owned b'))
           | Err e => (Err e, b')
           | Panic => (Panic, b')
           end
       | (Err e, b') => (Err e, b')
       | (Panic, b') => (Panic, b')
       end.

Definition reserve (additional : Z) : ST Buffer unit := make_room additional.

(** [read]: fill an output slice of [n] bytes; the bytes are the result. *)
Definition read (n : Z) : ST Buffer bytes := λ b,
  if size b <? read_pos b + n then (Err Io, b)
  else match slice (data b) (read_pos b) (read_pos b + n) with
       | Ok out => (Ok out, mkBuffer (data b) (size b) (read_pos b + n) (owned b))
       | Err e => (Err e, b)
       | Panic => (Panic, b)
       end.

Definition reset (b : Buffer) : Buffer :=
  mkBuffer (if owned b && (BUFFER_RESET_CAPACITY <? zlen (data b))
            then ztake BUFFER_RESET_CAPACITY (data b) else data b) 0 0 (owned b).

Definition release_excess (keep : Z) (b : Buffer) : Res Buffer :=
  if negb (owned b) || (zlen (data b) <=? keep) || (keep / 2 <? available b) then Ok b
  else
    b ← compact b;
    Ok (mkBuffer (ztake (Z.max (size b) BUFFER_INITIAL_SIZE) (data b))
                 (size b) (read_pos b) (owned b)).

Definition drain (n : Z) (b : Buffer) : Buffer :=
  mkBuffer (data b) (size b) (read_pos b + Z.min n (available b)) (owned b).

(** [take]: move the unread bytes out; an unowned buffer gets its fixed
    capacity back, an owned one is left with no allocation. *)
Definition take (b : Buffer) : bytes * Buffer :=
  let fixed_capacity := zlen (data b) in
  let out := ztake (size b) (data b) in
  let out := if 0 <? read_pos b then zdrop (Z.min (read_pos b) (zlen out)) out else out in
  (out, mkBuffer (if owned b then [] else zrepeat 0 fixed_capacity) 0 0 (owned b)).

(** * Invariant and view *)

(** Cursor order, the type invariant of the record. *)
Definition wf (b : Buffer) : Prop :=
  0 ≤ read_pos b ≤ size b ∧ size b ≤ zlen (data b).

(** The unread bytes: the abstract value of a buffer. *)
Definition contents (b : Buffer) : bytes :=
  ztake (size b - read_pos b) (zdrop (read_pos b) (data b)).

(** * Basic facts *)

Lemma wf_new : wf new.
Proof. unfold wf. simpl. autorewrite with zlen. lia. Qed.

Lemma wf_from_slice d : wf (from_slice d).
Proof. unfold wf. simpl. zlia. Qed.

Lemma contents_new : contents new = [].
Proof. done. Qed.

Lemma contents_from_slice d : contents (from_slice d) = d.
Proof.
  unfold contents. simpl. rewrite zdrop_nonpos by lia. apply ztake_all. lia.
Qed.

Lemma zlen_contents b : wf b → zlen (contents b) = size b - read_pos b.
Proof. unfold wf, contents. intros. autorewrite with zlen. lia. Qed.

Lemma available_contents b : wf b → available b = zlen (contents b).
Proof.
  intros Hb. rewrite zlen_contents by done. unfold available, saturating_sub, wf in *. lia.
Qed.

Lemma peek_contents b : wf b → peek b = Ok (contents b).
Proof. unfold wf, peek, contents. intros. by rewrite slice_ok by lia. Qed.

Lemma contents_ok b : bytes_ok (data b) → bytes_ok (contents b).
Proof. intros. by apply Forall_ztake, Forall_zdrop. Qed.

Lemma rewind_wf b : wf b → wf (rewind b) ∧ contents (rewind b) = contents b
  ∧ data (rewind b) = data b ∧ owned (rewind b) = owned b.
Proof.
  intros Hb. unfold rewind.
  destruct (Z.ltb_spec 0 (read_pos b)), (Z.leb_spec (size b) (read_pos b)); try done.
  unfold wf, contents in *. simpl. split_and!; try done; try zlia.
  rewrite !ztake_nonpos by lia. done.
Qed.

Lemma compact_spec b : wf b → ∃ b', compact b = Ok b' ∧ wf b' ∧ read_pos b' = 0
  ∧ contents b' = contents b ∧ zlen (data b') = zlen (data b) ∧ owned b' = owned b.
Proof.
  intros Hb. unfold compact. pose proof Hb as [Hp Hs].
  destruct (Z.eqb_spec (read_pos b) 0); [by eauto 10|].
  destruct (Z.leb_spec (size b) (read_pos b)).
  - eexists; split_and!; try done; unfold wf, contents; simpl; try zlia.
    by rewrite !ztake_nonpos by lia.
  - rewrite slice_ok by lia. simpl.
    set (u := ztake _ _). assert (zlen u = size b - read_pos b) as Hu by (subst u; zlia).
    rewrite copy_at_ok by lia. simpl.
    eexists; split_and!; try done; unfold wf, contents; simpl;
      rewrite ?(ztake_nonpos 0) by lia; simpl; try zlia.
    rewrite zdrop_nonpos by lia. rewrite ztake_app_l by lia. by rewrite ztake_all by lia.
Qed.

(** The doubling loop reaches any request up to the cap. *)
Lemma grow_loop_enough fuel cap needed :
  BUFFER_MAX_SIZE ≤ cap * 2 ^ Z.of_nat fuel → 0 < cap → needed ≤ BUFFER_MAX_SIZE →
  needed ≤ grow_loop fuel cap needed.
Proof.
  unfold BUFFER_GROW_FACTOR. revert cap. induction fuel as [|fuel IH]; intros cap Hcap Hpos Hn.
  - simpl in *. rewrite Z.mul_1_r in Hcap. lia.
  - simpl. rewrite Nat2Z.inj_succ, Z.pow_succ_r in Hcap by lia.
    destruct (Z.ltb_spec cap needed); [|lia].
    unfold BUFFER_GROW_FACTOR.
    destruct (Z.ltb_spec BUFFER_MAX_SIZE (cap * 2)); [lia|].
    apply IH; lia.
Qed.

Lemma ensure_capacity_owned needed b :
  wf b → owned b = true → needed ≤ BUFFER_MAX_SIZE →
  ∃ b', ensure_capacity needed b = (Ok tt, b') ∧ wf b' ∧ contents b' = contents b
    ∧ size b' = size b ∧ needed ≤ zlen (data b') ∧ owned b' = owned b
    ∧ read_pos b' = read_pos b.
Proof.
  intros Hb Ho Hn. unfold ensure_capacity. rewrite Ho.
  change (negb true) with false. cbv iota.
  destruct (Z.leb_spec needed (zlen (data b))); [by eauto 10|].
  destruct (Z.ltb_spec BUFFER_MAX_SIZE needed); [lia|].
  set (cap := grow_loop grow_fuel _ _).
  assert (needed ≤ cap) as Hcap.
  { apply grow_loop_enough; [|unfold BUFFER_INITIAL_SIZE; zlia|done].
    transitivity (BUFFER_INITIAL_SIZE * 2 ^ Z.of_nat grow_fuel); [done|].
    apply Z.mul_le_mono_nonneg_r; [|lia]. by apply Z.pow_nonneg. }
  eexists; split; [done|]. unfold wf, contents, resize in *. simpl.
  split_and!; try lia.
  - zlia.
  - rewrite (ztake_all cap) by lia. rewrite zdrop_app_l by lia.
    rewrite ztake_app_l by zlia. done.
  - zlia.
Qed.

(** What a buffer can hold: the global cap, and for an unowned buffer also
    its fixed allocation. *)
Definition limit (b : Buffer) : Z :=
  if owned b then BUFFER_MAX_SIZE else Z.min BUFFER_MAX_SIZE (zlen (data b)).

(** [b'] holds the same bytes under the same limit. *)
Definition same (b b' : Buffer) : Prop :=
  wf b' ∧ contents b' = contents b ∧ owned b' = owned b ∧ limit b' = limit b.

(** [b'] is [b] after reads: well formed, with the same limit. *)
Definition after (b b' : Buffer) : Prop := wf b' ∧ limit b' = limit b.

Lemma after_trans a b c : after a b → after b c → after a c.
Proof. intros [??] [??]. split; [done|congruence]. Qed.

Lemma same_refl b : wf b → same b b.
Proof. by unfold same. Qed.

Lemma same_trans a b c : same a b → same b c → same a c.
Proof. intros (?&?&?&?) (?&?&?&?). unfold same. split_and!; congruence || done. Qed.

Lemma rewind_same b : wf b → same b (rewind b).
Proof.
  intros Hb. destruct (rewind_wf b Hb) as (?&?&Hd&Ho).
  unfold same, limit. by rewrite Hd, Ho.
Qed.

Lemma compact_same b : wf b → ∃ b', compact b = Ok b' ∧ same b b' ∧ read_pos b' = 0
  ∧ zlen (data b') = zlen (data b).
Proof.
  intros Hb. destruct (compact_spec b Hb) as (b'&?&?&?&?&Hl&Ho).
  exists b'. unfold same, limit. by rewrite Hl, Ho.
Qed.

Lemma make_room_spec n b : wf b → 0 ≤ n →
  ∃ b', same b b' ∧
    if available b + n <=? limit b
    then make_room n b = (Ok tt, b') ∧ n ≤ space b'
    else make_room n b = (Err Internal, b').
Proof.
  intros Hb Hn. unfold make_room.
  pose proof (rewind_same b Hb) as Hr. set (r := rewind b) in *. clearbody r.
  assert (available r = available b) as <-.
  { destruct Hr as (?&Hc&_). rewrite !available_contents by done. by rewrite Hc. }
  replace (limit b) with (limit r) by apply Hr.
  assert (wf r) as Hwr by apply Hr.
  assert (limit r ≤ BUFFER_MAX_SIZE) by (unfold limit; case_match; lia).
  destruct (Z.ltb_spec BUFFER_MAX_SIZE n) as [|Hcap1].
  { exists r. split; [done|]. pose proof (zlen_nonneg (contents r)).
    rewrite available_contents by done. zcases; done. }
  destruct (Z.ltb_spec (BUFFER_MAX_SIZE - n) (available r)) as [|Hcap2]; simpl.
  { exists r. split; [done|]. zcases; done. }
  destruct (Z.leb_spec n (space r)) as [Hsp|Hsp].
  { exists r. split; [done|]. unfold limit, space, available, saturating_sub, wf in *.
    destruct (owned r); zcases; done. }
  destruct (compact_same r Hwr) as (c&->&Hc&Hp&Hl).
  assert (wf c) as Hwc by apply Hc.
  assert (size c = available r) as Hsz.
  { pose proof (zlen_contents c Hwc) as E. rewrite Hp in E.
    destruct Hc as (_&Hcc&_). rewrite Hcc in E. rewrite available_contents by done. lia. }
  rewrite Hsz. unfold limit. destruct (owned r) eqn:Ho.
  - destruct (ensure_capacity_owned (available r + n) c) as (e&->&Hwe&Hce&Hse&Hne&Hoe&_);
      [done|by destruct Hc as (_&_&->&_)|lia|].
    exists e. zcases. split_and!; [|done|unfold space, saturating_sub; lia].
    assert (owned e = true) as Ho' by (rewrite Hoe; destruct Hc as (_&_&->&_); done).
    eapply same_trans; [exact Hr|]. destruct Hc as (?&?&?&?).
    unfold same. split_and!; [done|congruence|congruence|]. unfold limit. by rewrite Ho, Ho'.
  - unfold ensure_capacity. assert (owned c = false) as -> by (by destruct Hc as (_&_&->&_)).
    exists c. split; [by eapply same_trans|].
    rewrite Hl. simpl. unfold space, saturating_sub.
    destruct (Z.leb_spec (available r + n) (zlen (data r))); zcases; try done.
    split; [done|]. rewrite Hsz, Hl. lia.
Qed.

(** [write] appends all of [d], or fails with [Internal] and keeps the bytes;
    it succeeds exactly when the result fits the limit. *)
Lemma write_spec d b : wf b →
  ∃ b', wf b' ∧ owned b' = owned b ∧ limit b' = limit b ∧
    if bool_decide (d = []) || (zlen (contents b) + zlen d <=? limit b)
    then write d b = (Ok (zlen d), b') ∧ contents b' = contents b ++ d
    else write d b = (Err Internal, b') ∧ contents b' = contents b.
Proof.
  intros Hb. unfold write. destruct (Z.eqb_spec (zlen d) 0) as [H0|H0].
  { apply zlen_0_nil in H0 as ->. exists b. rewrite bool_decide_true by done. simpl.
    by rewrite app_nil_r. }
  rewrite bool_decide_false by (by intros ->). simpl.
  destruct (make_room_spec (zlen d) b Hb ltac:(zlia)) as (m&(Hwm&Hcm&Hom&Hlm)&Hm).
  rewrite available_contents in Hm by done.
  destruct (zlen (contents b) + zlen d <=? limit b).
  - destruct Hm as [-> Hs]. unfold space, saturating_sub in Hs.
    rewrite copy_at_ok by (unfold wf in Hwm; zlia).
    exists (mkBuffer (ztake (size m) (data m) ++ d ++ zdrop (size m + zlen d) (data m))
                (size m + zlen d) (read_pos m) (owned m)).
    unfold wf, limit, contents in *. simpl. split_and!; try done; try zlia.
    + rewrite Hom in *. destruct (owned b); zlia.
    + rewrite <- Hcm. rewrite zdrop_app_l, zdrop_ztake by zlia.
      rewrite ztake_app_r by zlia. f_equal.
      rewrite ztake_app_l by zlia. apply ztake_all. zlia.
  - rewrite Hm. exists m. by split_and!.
Qed.

(** Moving the read cursor forward by [n] drops [n] bytes of the view. *)
Lemma advance_spec n b : wf b → 0 ≤ n ≤ zlen (contents b) →
  let b' := mkBuffer (data b) (size b) (read_pos b + n) (owned b) in
  wf b' ∧ limit b' = limit b ∧ contents b' = zdrop n (contents b).
Proof.
  intros Hb Hn. rewrite zlen_contents in Hn by done. unfold wf, limit, contents in *. simpl.
  split_and!; try done; try lia.
  rewrite zdrop_ztake, zdrop_zdrop by lia. f_equal. lia.
Qed.

Lemma read_spec n b : wf b → 0 ≤ n →
  if n <=? zlen (contents b)
  then ∃ b', read n b = (Ok (ztake n (contents b)), b') ∧ wf b' ∧ limit b' = limit b
         ∧ owned b' = owned b ∧ data b' = data b ∧ contents b' = zdrop n (contents b)
  else read n b = (Err Io, b).
Proof.
  intros Hb Hn. unfold read. pose proof (zlen_contents b Hb) as Hl.
  destruct (Z.leb_spec n (zlen (contents b))).
  - destruct (Z.ltb_spec (size b) (read_pos b + n)); [lia|].
    rewrite slice_ok by (unfold wf in Hb; lia).
    destruct (advance_spec n b Hb) as (?&?&?); [lia|].
    eexists; split_and!; try done. f_equal.
    unfold contents. rewrite ztake_ztake. do 2 f_equal. lia.
  - destruct (Z.ltb_spec (size b) (read_pos b + n)); [done|lia].
Qed.

Lemma read_some n b : wf b → 0 ≤ n ≤ zlen (contents b) →
  ∃ b', read n b = (Ok (ztake n (contents b)), b') ∧ after b b'
    ∧ contents b' = zdrop n (contents b).
Proof.
  intros Hb Hn. pose proof (read_spec n b Hb ltac:(lia)) as R.
  rewrite (proj2 (Z.leb_le _ _)) in R by lia.
  destruct R as (b'&?&?&?&_&_&?). by exists b'.
Qed.

Lemma read_app d r b : wf b → contents b = d ++ r →
  ∃ b', read (zlen d) b = (Ok d, b') ∧ wf b' ∧ contents b' = r ∧ owned b' = owned b
    ∧ limit b' = limit b ∧ data b' = data b.
Proof.
  intros Hb Hc. pose proof (read_spec (zlen d) b Hb ltac:(zlia)) as H.
  rewrite Hc, ztake_app_exact, zdrop_app_exact in H.
  destruct (Z.leb_spec (zlen d) (zlen (d ++ r))); [|zlia].
  destruct H as (b'&?&?&?&?&?&?). by eauto 10.
Qed.

Lemma drain_spec n b : wf b → 0 ≤ n →
  wf (drain n b) ∧ limit (drain n b) = limit b ∧ owned (drain n b) = owned b
  ∧ data (drain n b) = data b ∧ contents (drain n b) = zdrop n (contents b).
Proof.
  intros Hb Hn. unfold drain. rewrite available_contents by done.
  destruct (advance_spec (Z.min n (zlen (contents b))) b Hb) as (?&?&Hc); [zlia|].
  split_and!; try done. rewrite Hc.
  destruct (decide (n ≤ zlen (contents b))); [f_equal; lia|].
  rewrite !zdrop_all by lia. done.
Qed.

Lemma drain_after n b : wf b → 0 ≤ n →
  after b (drain n b) ∧ contents (drain n b) = zdrop n (contents b).
Proof. intros Hb Hn. by destruct (drain_spec n b Hb Hn) as (?&?&_&_&?). Qed.

Lemma reset_spec b : wf b → wf (reset b) ∧ contents (reset b) = []
  ∧ owned (reset b) = owned b ∧ limit (reset b) = limit b.
Proof.
  intros Hb. unfold reset, wf, contents, limit. simpl. split_and!; try done; try zlia.
  destruct (owned b); done.
Qed.

Lemma take_spec b : wf b → ∃ b', take b = (contents b, b') ∧ wf b' ∧ contents b' = []
  ∧ owned b' = owned b ∧ limit b' = limit b.
Proof.
  intros Hb. eexists (snd (take b)). unfold take, wf, limit, contents in *. simpl.
  split_and!; try done; try zlia.
  - f_equal. destruct (Z.ltb_spec 0 (read_pos b)).
    + rewrite zdrop_ztake by zlia. f_equal; [zlia|f_equal; zlia].
    + rewrite zdrop_nonpos by lia. f_equal. lia.
  - destruct (owned b); [done|]. zlia.
Qed.

Lemma set_read_pos_spec pos b : wf b → 0 ≤ pos → wf (set_read_pos pos b).
Proof. unfold wf, set_read_pos. simpl. lia. Qed.

Lemma release_excess_spec keep b : wf b → 0 ≤ keep →
  ∃ b', release_excess keep b = Ok b' ∧ same b b'.
Proof.
  intros Hb Hk. unfold release_excess.
  destruct (owned b) eqn:Ho; simpl; [|by eauto using same_refl].
  case_match; [by eauto using same_refl|].
  destruct (compact_same b Hb) as (c&->&(Hw&Hc&Hoc&Hlc)&Hp&_). simpl.
  eexists; split; [done|]. unfold same, limit, wf, contents in *. simpl.
  rewrite Hp, Hoc, Ho in *. split_and!; try done; try zlia.
  rewrite <- Hc. rewrite !zdrop_nonpos by lia. rewrite ztake_ztake. f_equal. lia.
Qed.

(** * Refinement of a bounded FIFO queue *)

(** Buffer calls, as a client issues them. *)
Inductive op : Type :=
  | OWrite (d : bytes) | OReserve (n : Z) | ORead (n : Z) | OPeek | ODrain (n : Z)
  | OTake | OReset | OReleaseExcess (keep : Z).

Definition op_ok (o : op) : Prop :=
  match o with
  | OReserve n | ORead n | ODrain n | OReleaseExcess n => 0 ≤ n
  | _ => True
  end.

(** What a call returns, with bytes where the call yields bytes. *)
Definition run_op (o : op) (b : Buffer) : Res bytes * Buffer :=
  match o with
  | OWrite d => match write d b with
                | (Ok _, b') => (Ok [], b') | (Err e, b') => (Err e, b')
                | (Panic, b') => (Panic, b') end
  | OReserve n => match reserve n b with
                  | (Ok _, b') => (Ok [], b') | (Err e, b') => (Err e, b')
                  | (Panic, b') => (Panic, b') end
  | ORead n => read n b
  | OPeek => (peek b, b)
  | ODrain n => (Ok [], drain n b)
  | OTake => let '(out, b') := take b in (Ok out, b')
  | OReset => (Ok [], reset b)
  | OReleaseExcess k => match release_excess k b with
                        | Ok b' => (Ok [], b') | Err e => (Err e, b) | Panic => (Panic, b) end
  end.

(** The specification: a queue of bytes that never holds more than [lim]. *)
Definition spec_op (lim : Z) (o : op) (q : bytes) : Res bytes * bytes :=
  match o with
  | OWrite d => if bool_decide (d = []) || (zlen q + zlen d <=? lim)
                then (Ok [], q ++ d) else (Err Internal, q)
  | OReserve n => if zlen q + n <=? lim then (Ok [], q) else (Err Internal, q)
  | ORead n => if n <=? zlen q then (Ok (ztake n q), zdrop n q) else (Err Io, q)
  | OPeek => (Ok q, q)
  | ODrain n => (Ok [], zdrop n q)
  | OTake => (Ok q, [])
  | OReset => (Ok [], [])
  | OReleaseExcess _ => (Ok [], q)
  end.

Fixpoint run_ops (os : list op) (b : Buffer) : list (Res bytes) * Buffer :=
  match os with
  | [] => ([], b)
  | o :: os => let '(r, b) := run_op o b in
               let '(rs, b) := run_ops os b in (r :: rs, b)
  end.

Fixpoint spec_ops (lim : Z) (os : list op) (q : bytes) : list (Res bytes) * bytes :=
  match os with
  | [] => ([], q)
  | o :: os => let '(r, q) := spec_op lim o q in
               let '(rs, q) := spec_ops lim os q in (r :: rs, q)
  end.

Lemma run_op_refines o b : wf b → op_ok o →
  ∃ r b', run_op o b = (r, b') ∧ wf b' ∧ limit b' = limit b
    ∧ spec_op (limit b) o (contents b) = (r, contents b').
Proof.
  intros Hb Ho. destruct o; cbn [run_op spec_op op_ok] in *.
  - destruct (write_spec d b Hb) as (b'&?&?&?&H).
    case_match; destruct H as [-> <-]; by do 2 eexists.
  - destruct (make_room_spec n b Hb Ho) as (b'&(?&Hc&_&?)&H). unfold reserve.
    rewrite available_contents in H by done. rewrite <- Hc in H |- *.
    case_match; [destruct H as [-> _]|rewrite H]; by do 2 eexists.
  - pose proof (read_spec n b Hb Ho) as H. case_match; [|rewrite H; by do 2 eexists].
    destruct H as (b'&->&?&?&_&_&<-). by do 2 eexists.
  - rewrite peek_contents by done. by do 2 eexists.
  - destruct (drain_spec n b Hb Ho) as (?&?&_&_&<-). by do 2 eexists.
  - destruct (take_spec b Hb) as (b'&->&?&E&_&?). do 2 eexists. by rewrite E.
  - destruct (reset_spec b Hb) as (?&E&_&?). do 2 eexists. by rewrite E.
  - destruct (release_excess_spec keep b Hb Ho) as (b'&->&?&<-&_&?). by do 2 eexists.
Qed.

(** C11. Any sequence of calls on a well-formed buffer ([write], [reserve],
    [read], [peek], [drain], [take], [reset], [release_excess]) never panics,
    returns exactly what a FIFO byte queue bounded by the buffer's limit
    returns, and ends in a well-formed buffer holding that queue. *)
Theorem buffer_refines_queue os b : wf b → Forall op_ok os →
  ∃ b', run_ops os b = ((spec_ops (limit b) os (contents b)).1, b')
    ∧ wf b' ∧ contents b' = (spec_ops (limit b) os (contents b)).2.
Proof.
  intros Hb Hos. revert b Hb. induction Hos as [|o os Ho Hos IH]; intros b Hb; simpl.
  { by eauto. }
  destruct (run_op_refines o b Hb Ho) as (r&b1&->&Hb1&Hl&->).
  destruct (IH b1 Hb1) as (b2&E&Hb2&Hc2). rewrite Hl in *. rewrite E.
  destruct (spec_ops (limit b) os (contents b1)) as [rs q] eqn:Es. simpl in *.
  by eauto.
Qed.

Lemma buffer_refines_queue_witness :
  ∃ b', run_ops [OWrite [1; 2; 3]; ORead 2; OWrite [4]; OPeek; ORead 5] new
        = ([Ok []; Ok [1; 2]; Ok []; Ok [3; 4]; Err Io], b')
    ∧ contents b' = [3; 4].
Proof.
  destruct (buffer_refines_queue [OWrite [1; 2; 3]; ORead 2; OWrite [4]; OPeek; ORead 5] new
    wf_new ltac:(repeat constructor; simpl; lia)) as (b'&E&_&C).
  exists b'. split; [rewrite E|rewrite C]; by vm_compute.
Defined.

End Buffer.

#[global] Arguments Buffer.contents : simpl never.
#[global] Arguments Buffer.take : simpl never.
#[global] Arguments Buffer.write : simpl never.
#[global] Arguments Buffer.read : simpl never.
#[global] Arguments Buffer.drain : simpl never.
#[global] Arguments Buffer.reset : simpl never.
#[global] Arguments Buffer.available : simpl never.
#[global] Arguments Buffer.with_capacity : simpl never.
