(* ===== verification/Bytes.v ===== *)
(** Big- and little-endian conversions: src/bytes.rs and the
    [to_be_bytes]/[from_be_bytes] family the crate uses, with the round trips
    the codecs rest on. *)
From S2P Require Import Prelude.

(** * Standard-library conversions *)

Definition to_be_bytes16 (v : Z) : bytes := [as_u8 (v >> 8); as_u8 v].
Definition to_be_bytes32 (v : Z) : bytes :=
  [as_u8 (v >> 24); as_u8 (v >> 16); as_u8 (v >> 8); as_u8 v].
Definition to_le_bytes32 (v : Z) : bytes :=
  [as_u8 v; as_u8 (v >> 8); as_u8 (v >> 16); as_u8 (v >> 24)].
Definition to_be_bytes64 (v : Z) : bytes :=
  [as_u8 (v >> 56); as_u8 (v >> 48); as_u8 (v >> 40); as_u8 (v >> 32);
   as_u8 (v >> 24); as_u8 (v >> 16); as_u8 (v >> 8); as_u8 v].

Definition from_be_bytes16 (b0 b1 : Z) : Z := b0 * 256 + b1.
Definition from_be_bytes32 (b0 b1 b2 b3 : Z) : Z :=
  ((b0 * 256 + b1) * 256 + b2) * 256 + b3.

(** [uN::swap_bytes], the composition of the two byte orders. *)
Definition swap_bytes16 (v : Z) : Z := from_be_bytes16 (as_u8 v) (as_u8 (v >> 8)).
Definition swap_bytes32 (v : Z) : Z :=
  from_be_bytes32 (as_u8 v) (as_u8 (v >> 8)) (as_u8 (v >> 16)) (as_u8 (v >> 24)).
Definition swap_bytes64 (v : Z) : Z :=
  swap_bytes32 (as_u32 v) * 4294967296 + swap_bytes32 (v >> 32).

(** * src/bytes.rs *)

Definition byteswap16 (val : Z) : Z := swap_bytes16 val.

Definition byteswap32 (val : Z) : Z := swap_bytes32 val.

Definition byteswap64 (val : Z) : Z := swap_bytes64 val.

(** The expression [(b0 << 16) | (b1 << 8) | b2] on [u32] operands, written out
    wherever the crate reads a 24-bit field. *)
Definition u24 (b0 b1 b2 : Z) : Z := (b0 <<32 16) .| (b1 <<32 8) .| b2.

(** [u24] of three bytes of a slice, at [off]. *)
Definition u24_at (l : bytes) (off : Z) : Res Z :=
  b0 ← zidx l off; b1 ← zidx l (off + 1); b2 ← zidx l (off + 2);
  Ok (u24 b0 b1 b2).

Definition ntoh24 (buf : bytes) : Res Z := u24_at buf 0.

(** The three bytes [hton24] stores. *)
Definition hton24_bytes (val : Z) : bytes :=
  [as_u8 ((val >> 16) .& 255); as_u8 ((val >> 8) .& 255); as_u8 (val .& 255)].

(** [hton24]: overwrites the first three bytes of [buf]. *)
Definition hton24 (buf : bytes) (val : Z) : Res bytes := copy_at buf 0 (hton24_bytes val).

Definition ntoh32 (buf : bytes) : Res Z :=
  b0 ← zidx buf 0; b1 ← zidx buf 1; b2 ← zidx buf 2; b3 ← zidx buf 3;
  Ok (from_be_bytes32 b0 b1 b2 b3).

Definition ntoh16 (buf : bytes) : Res Z :=
  b0 ← zidx buf 0; b1 ← zidx buf 1; Ok (from_be_bytes16 b0 b1).

(** [to_be] on a little-endian host. *)
Definition hton32 (val : Z) : Z := swap_bytes32 val.
Definition hton16 (val : Z) : Z := swap_bytes16 val.

(** The expression [(b0 << 8) | b1] on [u16] operands. *)
Definition u16_be (b0 b1 : Z) : Z := (b0 <<16 8) .| b1.

(** The loop [for i in 0..8 { bits |= (b[i] as u64) << ((7 - i) * 8) }]. *)
Definition u64_be (b : bytes) : Res Z :=
  foldl (λ acc i, bits ← acc; x ← zidx b i; Ok (bits .| as_u64 (Z.shiftl x ((7 - i) * 8))))
    (Ok 0) [0; 1; 2; 3; 4; 5; 6; 7].

(** The expression [(b0 << 24) | (b1 << 16) | (b2 << 8) | b3] on [u32]. *)
Definition u32_be (b0 b1 b2 b3 : Z) : Z :=
  (b0 <<32 24) .| (b1 <<32 16) .| (b2 <<32 8) .| b3.
(** The same with the least significant byte first. *)
Definition u32_le (b0 b1 b2 b3 : Z) : Z :=
  b0 .| (b1 <<32 8) .| (b2 <<32 16) .| (b3 <<32 24).

(** * Values of the bit expressions *)

Lemma shl32_mul x n : 0 ≤ n → 0 ≤ x * 2 ^ n < 4294967296 → x <<32 n = x * 2 ^ n.
Proof. intros. rewrite Z.shiftl_mul_pow2 by done. by apply as_u32_id. Qed.

(** [lor] of a multiple of [2^n] and a value below it. *)
Lemma lor_low a b n : 0 ≤ n → 0 ≤ b < 2 ^ n → a mod 2 ^ n = 0 → Z.lor a b = a + b.
Proof.
  intros Hn Hb Ha. assert (a = Z.shiftl (a / 2 ^ n) n) as E.
  { rewrite Z.shiftl_mul_pow2 by done. pose proof (Z.div_mod a (2 ^ n)). lia. }
  rewrite E at 1. rewrite lor_shiftl_add by done. rewrite Z.shiftl_mul_pow2 in E by done. lia.
Qed.

Lemma u24_val b0 b1 b2 : is_u8 b0 → is_u8 b1 → is_u8 b2 →
  u24 b0 b1 b2 = b0 * 65536 + b1 * 256 + b2.
Proof.
  intros. unfold u24. rewrite !shl32_mul by ulia.
  rewrite (lor_low (b0 * _) _ 16) by udivlia. rewrite (lor_low _ b2 8) by udivlia. lia.
Qed.

Lemma u32_be_val b0 b1 b2 b3 : is_u8 b0 → is_u8 b1 → is_u8 b2 → is_u8 b3 →
  u32_be b0 b1 b2 b3 = from_be_bytes32 b0 b1 b2 b3.
Proof.
  intros. unfold u32_be, from_be_bytes32. rewrite !shl32_mul by ulia.
  rewrite (lor_low (b0 * _) _ 24) by udivlia.
  rewrite (lor_low (b0 * _ + _) _ 16) by udivlia. rewrite (lor_low _ b3 8) by udivlia. lia.
Qed.

Lemma u16_be_val b0 b1 : is_u8 b0 → is_u8 b1 → u16_be b0 b1 = from_be_bytes16 b0 b1.
Proof.
  intros. unfold u16_be, from_be_bytes16. rewrite Z.shiftl_mul_pow2, as_u16_id by ulia.
  rewrite (lor_low _ b1 8) by udivlia. lia.
Qed.

Definition from_be_bytes64 (b0 b1 b2 b3 b4 b5 b6 b7 : Z) : Z :=
  from_be_bytes32 b0 b1 b2 b3 * 4294967296 + from_be_bytes32 b4 b5 b6 b7.

(** The value of the loop, at any byte list of length eight. *)
Lemma u64_be_val b0 b1 b2 b3 b4 b5 b6 b7 : bytes_ok [b0; b1; b2; b3; b4; b5; b6; b7] →
  u64_be [b0; b1; b2; b3; b4; b5; b6; b7] = Ok (from_be_bytes64 b0 b1 b2 b3 b4 b5 b6 b7).
Proof.
  intros H. unfold bytes_ok in H. rewrite !Forall_cons in H. destruct_and! H.
  trans (Ok (as_u64 (Z.shiftl b0 56) .| as_u64 (Z.shiftl b1 48) .| as_u64 (Z.shiftl b2 40)
    .| as_u64 (Z.shiftl b3 32) .| as_u64 (Z.shiftl b4 24) .| as_u64 (Z.shiftl b5 16)
    .| as_u64 (Z.shiftl b6 8) .| as_u64 (Z.shiftl b7 0))); [done|].
  unfold from_be_bytes64, from_be_bytes32. f_equal.
  assert (∀ x n, is_u8 x → 0 ≤ n → 0 ≤ x * 2 ^ n < 18446744073709551616 →
    as_u64 (Z.shiftl x n) = x * 2 ^ n) as E.
  { intros x n Hx Hn ?. rewrite Z.shiftl_mul_pow2 by done. by apply Z.mod_small. }
  rewrite (E b0), (E b1), (E b2), (E b3), (E b4), (E b5), (E b6), (E b7) by ulia. clear E.
  rewrite (lor_low _ (b1 * _) 56) by udivlia. rewrite (lor_low _ (b2 * _) 48) by udivlia.
  rewrite (lor_low _ (b3 * _) 40) by udivlia. rewrite (lor_low _ (b4 * _) 32) by udivlia.
  rewrite (lor_low _ (b5 * _) 24) by udivlia. rewrite (lor_low _ (b6 * _) 16) by udivlia.
  rewrite (lor_low _ (b7 * _) 8) by udivlia. ulia.
Qed.

Lemma u32_le_val b0 b1 b2 b3 : is_u8 b0 → is_u8 b1 → is_u8 b2 → is_u8 b3 →
  u32_le b0 b1 b2 b3 = from_be_bytes32 b3 b2 b1 b0.
Proof.
  intros. unfold u32_le, from_be_bytes32. rewrite !shl32_mul by ulia.
  rewrite (Z.lor_comm b0), (lor_low _ b0 8) by udivlia.
  rewrite (Z.lor_comm (b1 * _ + _)), (lor_low _ (b1 * _ + _) 16) by udivlia.
  rewrite (Z.lor_comm (b2 * _ + _)), (lor_low _ (b2 * _ + _) 24) by udivlia. lia.
Qed.

Lemma hton24_bytes_val v : hton24_bytes v = [v / 65536 mod 256; v / 256 mod 256; v mod 256].
Proof.
  unfold hton24_bytes, as_u8. rewrite !land_255, !shiftr_div by lia.
  rewrite !Zmod_mod. done.
Qed.

Lemma bytes_ok_hton24 v : bytes_ok (hton24_bytes v).
Proof. repeat constructor; apply as_u8_range. Qed.
Lemma bytes_ok_be32 v : bytes_ok (to_be_bytes32 v).
Proof. repeat constructor; apply as_u8_range. Qed.
Lemma bytes_ok_be16 v : bytes_ok (to_be_bytes16 v).
Proof. repeat constructor; apply as_u8_range. Qed.
Lemma bytes_ok_be64 v : bytes_ok (to_be_bytes64 v).
Proof. repeat constructor; apply as_u8_range. Qed.
Lemma bytes_ok_le32 v : bytes_ok (to_le_bytes32 v).
Proof. repeat constructor; apply as_u8_range. Qed.

(** The check of a concrete byte string. *)
Definition bytes_okb (l : bytes) : bool := forallb (λ b, (0 <=? b) && (b <? 256)) l.

Lemma bytes_okb_ok l : bytes_okb l = true → bytes_ok l.
Proof.
  unfold bytes_okb. intros H. apply Forall_forall. intros b Hb%list_elem_of_In.
  apply (proj1 (forallb_forall _ _) H) in Hb as [H1%Z.leb_le H2%Z.ltb_lt]%andb_true_iff. done.
Qed.

Lemma zidx_byte l i : bytes_ok l → 0 ≤ i < zlen l → ∃ b, zidx l i = Ok b ∧ is_u8 b.
Proof.
  intros Hl Hi. destruct (zget_lt_Some l i Hi) as [b Hb]. exists b.
  split; [by apply zidx_ok|]. by eapply Forall_zget.
Qed.

Lemma u24_at_ok l off : bytes_ok l → 0 ≤ off → off + 3 ≤ zlen l →
  ∃ v, u24_at l off = Ok v ∧ is_u24 v.
Proof.
  intros Hl Ho Hz. unfold u24_at.
  destruct (zidx_byte l off Hl ltac:(lia)) as (b0&->&?).
  destruct (zidx_byte l (off + 1) Hl ltac:(lia)) as (b1&->&?).
  destruct (zidx_byte l (off + 2) Hl ltac:(lia)) as (b2&->&?).
  cbn. eexists. split; [done|]. rewrite u24_val by done. ulia.
Qed.

Lemma u24_at_slice l n k off : 0 ≤ n → 0 ≤ off → off + 3 ≤ k →
  u24_at (ztake k (zdrop n l)) off = u24_at l (n + off).
Proof. intros. unfold u24_at. rewrite !zidx_slice by lia. by rewrite !Z.add_assoc. Qed.

Lemma ntoh32_ok l : bytes_ok l → 4 ≤ zlen l → ∃ v, ntoh32 l = Ok v ∧ is_u32 v.
Proof.
  intros Hl Hz. unfold ntoh32.
  destruct (zidx_byte l 0 Hl ltac:(lia)) as (b0&->&?).
  destruct (zidx_byte l 1 Hl ltac:(lia)) as (b1&->&?).
  destruct (zidx_byte l 2 Hl ltac:(lia)) as (b2&->&?).
  destruct (zidx_byte l 3 Hl ltac:(lia)) as (b3&->&?).
  cbn. eexists. split; [done|]. unfold from_be_bytes32. ulia.
Qed.

Lemma zlen_hton24 v : zlen (hton24_bytes v) = 3.
Proof. done. Qed.
Lemma zlen_be16 v : zlen (to_be_bytes16 v) = 2.
Proof. done. Qed.
Lemma zlen_be32 v : zlen (to_be_bytes32 v) = 4.
Proof. done. Qed.
Lemma zlen_le32 v : zlen (to_le_bytes32 v) = 4.
Proof. done. Qed.
Lemma zlen_be64 v : zlen (to_be_bytes64 v) = 8.
Proof. done. Qed.
#[export] Hint Rewrite zlen_hton24 zlen_be16 zlen_be32 zlen_le32 zlen_be64 : zlen.

(** * Round trips *)

Lemma u24_roundtrip v : is_u24 v →
  u24 (v / 65536 mod 256) (v / 256 mod 256) (v mod 256) = v.
Proof. intros. rewrite u24_val by udivlia. udivlia. Qed.

Lemma be32_roundtrip v : is_u32 v →
  from_be_bytes32 (as_u8 (v >> 24)) (as_u8 (v >> 16)) (as_u8 (v >> 8)) (as_u8 v) = v.
Proof. intros. unfold from_be_bytes32. rewrite !shiftr_div by lia. udivlia. Qed.

Lemma be16_roundtrip v : is_u16 v →
  from_be_bytes16 (as_u8 (v >> 8)) (as_u8 v) = v.
Proof. intros. unfold from_be_bytes16. rewrite !shiftr_div by lia. udivlia. Qed.

Lemma ntoh32_to_be v r : is_u32 v → ntoh32 (to_be_bytes32 v ++ r) = Ok v.
Proof. intros H. exact (f_equal Ok (be32_roundtrip v H)). Qed.

Lemma ntoh16_to_be v r : is_u16 v → ntoh16 (to_be_bytes16 v ++ r) = Ok v.
Proof. intros H. exact (f_equal Ok (be16_roundtrip v H)). Qed.

Lemma from_be_bytes32_range b0 b1 b2 b3 :
  is_u8 b0 → is_u8 b1 → is_u8 b2 → is_u8 b3 → is_u32 (from_be_bytes32 b0 b1 b2 b3).
Proof. unfold from_be_bytes32. ulia. Qed.

Lemma to_be_from_be32 b0 b1 b2 b3 : is_u8 b0 → is_u8 b1 → is_u8 b2 → is_u8 b3 →
  to_be_bytes32 (from_be_bytes32 b0 b1 b2 b3) = [b0; b1; b2; b3].
Proof.
  intros. unfold to_be_bytes32, from_be_bytes32. rewrite !shiftr_div by lia.
  repeat f_equal; udivlia.
Qed.

Lemma to_be_from_be16 b0 b1 : is_u8 b0 → is_u8 b1 →
  to_be_bytes16 (from_be_bytes16 b0 b1) = [b0; b1].
Proof.
  intros. unfold to_be_bytes16, from_be_bytes16. rewrite !shiftr_div by lia.
  repeat f_equal; udivlia.
Qed.

Lemma be64_roundtrip v : is_u64 v → u64_be (to_be_bytes64 v) = Ok v.
Proof.
  intros H. unfold to_be_bytes64. rewrite u64_be_val by (repeat constructor; apply as_u8_range).
  f_equal. unfold from_be_bytes64, from_be_bytes32. rewrite !shiftr_div by lia. udivlia.
Qed.

Lemma list8 {A} (l : list A) : zlen l = 8 →
  ∃ a b c d e f g h, l = [a; b; c; d; e; f; g; h].
Proof.
  unfold zlen. intros H. do 8 (destruct l as [|? l]; [simpl in H; lia|]).
  destruct l; [by repeat eexists|simpl in H; lia].
Qed.

Lemma u64_be_ok d : bytes_ok d → zlen d = 8 → ∃ v, u64_be d = Ok v ∧ is_u64 v.
Proof.
  intros Hd Hl. destruct (list8 d Hl) as (a&b&c&e&f&g&h&i&->). rewrite u64_be_val by done.
  eexists. split; [done|]. unfold bytes_ok in Hd. rewrite !Forall_cons in Hd. destruct_and! Hd.
  unfold from_be_bytes64, from_be_bytes32. ulia.
Qed.

Lemma zeros_ok n : bytes_ok (zrepeat 0 n).
Proof. apply Forall_zrepeat. ulia. Qed.

Lemma bytes_ok_cons x l : is_u8 x → bytes_ok l → bytes_ok (x :: l).
Proof. by constructor. Qed.

(** A fact about one byte, by going through all of them. *)
Lemma byte_forall (P : Z → bool) : forallb P (seqZ 0 256) = true → ∀ b, is_u8 b → P b = true.
Proof.
  intros H b Hb. rewrite forallb_forall in H. apply H. apply list_elem_of_In, elem_of_seqZ. ulia.
Qed.

Lemma land_128 b : is_u8 b → (b .& 128 =? 0) = (b <? 128).
Proof.
  intros Hb. apply eqb_prop. revert b Hb. apply byte_forall. by vm_compute.
Qed.

Lemma lor_128 x : 0 ≤ x < 128 → as_u8 (x .| 128) = x + 128.
Proof.
  intros Hx. apply Z.eqb_eq. assert (is_u8 x) as Hb by ulia.
  pose proof (byte_forall (λ x, (128 <=? x) || (as_u8 (x .| 128) =? x + 128)) eq_refl x Hb) as H.
  cbv beta in H. rewrite (proj2 (Z.leb_gt _ _)) in H by lia. exact H.
Qed.

(** A NUL-terminated copy into a slice with room for it. *)
Lemma store_nul out d : zlen d < zlen out → ∃ out1 out2,
  copy_at out 0 d = Ok out1 ∧ copy_at out1 (zlen d) [0] = Ok out2 ∧ ztake (zlen d) out2 = d
  ∧ zlen out2 = zlen out.
Proof.
  intros Hl. pose proof (zlen_nonneg d). rewrite copy_at_ok by lia.
  rewrite (ztake_nonpos 0) by lia. simpl app. eexists (d ++ zdrop (0 + zlen d) out), _.
  split_and!; [done| | |].
  - rewrite copy_at_ok; [done|lia|]. rewrite zlen_app, zlen_zdrop. change (zlen [0]) with 1. lia.
  - rewrite ztake_app_exact. apply ztake_app_exact.
  - rewrite !zlen_app, !zlen_ztake, !zlen_zdrop, !zlen_app, !zlen_zdrop. change (zlen [0]) with 1. lia.
Qed.

(** Masking one bit. *)
Lemma land_pow2 n k : 0 ≤ k → n .& (2 ^ k) = Z.b2z (Z.testbit n k) * 2 ^ k.
Proof.
  intros Hk. apply Z.bits_inj'. intros i Hi. rewrite Z.land_spec, Z.pow2_bits_eqb by done.
  destruct (Z.testbit n k) eqn:E; simpl Z.b2z.
  - rewrite Z.mul_1_l, Z.pow2_bits_eqb by done. destruct (Z.eqb_spec k i); [|by rewrite andb_false_r].
    subst. by rewrite E.
  - rewrite Z.mul_0_l, Z.bits_0. destruct (Z.eqb_spec k i); [|by rewrite andb_false_r].
    subst. by rewrite E.
Qed.

Lemma land_pow2_zero n k : 0 ≤ k → 0 ≤ n < 2 * 2 ^ k → (n .& (2 ^ k) =? 0) = (n <? 2 ^ k).
Proof.
  intros Hk Hn. rewrite land_pow2 by done. pose proof (Z.pow_pos_nonneg 2 k).
  pose proof (Z.testbit_spec' n k Hk) as Ht.
  destruct (Z.ltb_spec n (2 ^ k)).
  - rewrite (Z.div_small n) in Ht by lia. change (0 mod 2) with 0 in Ht.
    apply Z.eqb_eq. rewrite Ht. lia.
  - replace (n / 2 ^ k) with 1 in Ht by (apply (Z.div_unique n _ 1 (n - 2 ^ k)); lia).
    change (1 mod 2) with 1 in Ht. apply Z.eqb_neq. rewrite Ht. lia.
Qed.

(** Prefix and suffix slices. *)
Lemma slice_prefix {A} (l : list A) n : 0 ≤ n ≤ zlen l → slice l 0 n = Ok (ztake n l).
Proof. intros. rewrite slice_ok by lia. by rewrite Z.sub_0_r. Qed.

Lemma slice_suffix {A} (l : list A) n : 0 ≤ n ≤ zlen l → slice l n (zlen l) = Ok (zdrop n l).
Proof. intros. rewrite slice_ok by lia. f_equal. apply ztake_all. rewrite zlen_zdrop. lia. Qed.

(** What [copy_from_slice] into a range changes and what it keeps. *)
Record copied {A} (l : list A) (a : Z) (d l' : list A) : Prop := {
  cp_len : zlen l' = zlen l;
  cp_before : ztake a l' = ztake a l;
  cp_after : zdrop (a + zlen d) l' = zdrop (a + zlen d) l;
  cp_slice : slice l' a (a + zlen d) = Ok d;
}.

Lemma copy_at_copied {A} (l : list A) a d : 0 ≤ a → a + zlen d ≤ zlen l →
  ∃ l', copy_at l a d = Ok l' ∧ copied l a d l'.
Proof.
  intros Ha Hl. pose proof (zlen_nonneg d). rewrite copy_at_ok by lia. eexists. split; [done|].
  assert (zlen (ztake a l) = a) as E by (rewrite zlen_ztake; lia).
  set (r := zdrop (a + zlen d) l).
  assert (zlen (ztake a l ++ d ++ r) = zlen l) as El.
  { unfold r. rewrite !zlen_app, zlen_zdrop. lia. }
  constructor; [done| | |].
  - rewrite <- E at 1. by rewrite ztake_app_exact.
  - replace (a + zlen d) with (zlen (ztake a l ++ d)) at 1 by (rewrite zlen_app; lia).
    by rewrite app_assoc, zdrop_app_exact.
  - rewrite slice_ok by lia. f_equal. rewrite zdrop_app_r, E, Z.sub_diag, zdrop_nonpos by lia.
    replace (a + zlen d - a) with (zlen d) by lia. by rewrite ztake_app_exact.
Qed.

Lemma slice_before {A} (l l' : list A) a i j : zlen l' = zlen l → ztake a l' = ztake a l →
  0 ≤ i ≤ j → j ≤ a → slice l' i j = slice l i j.
Proof.
  intros El Et Hi Hj. destruct (decide (j ≤ zlen l)) as [Hl|Hl].
  - rewrite !slice_ok by lia. f_equal.
    assert (∀ k : list A, ztake (j - i) (zdrop i k) = ztake (j - i) (zdrop i (ztake a k))) as Hk.
    { intros k. rewrite zdrop_ztake, ztake_ztake by lia. f_equal. lia. }
    by rewrite Hk, Et, <- Hk.
  - unfold slice. rewrite El. by rewrite (proj2 (Z.leb_gt j (zlen l))), !andb_false_r by lia.
Qed.

(** Slices of a list given by its first elements. *)
Lemma slice_head {A} (k r : list A) n : n = zlen k → slice (k ++ r) 0 n = Ok k.
Proof. intros ->. apply (slice_app_exact [] k r). Qed.

Lemma slice_tail {A} (x : A) l a b : 1 ≤ a → slice (x :: l) a b = slice l (a - 1) (b - 1).
Proof.
  intros Ha. unfold slice. rewrite zlen_cons.
  replace (0 <=? a) with true by lia. replace (0 <=? a - 1) with true by lia.
  replace (a - 1 <=? b - 1) with (a <=? b) by lia.
  replace (b - 1 <=? zlen l) with (b <=? 1 + zlen l) by lia.
  destruct (_ && _); [|done]. f_equal. replace (b - 1 - (a - 1)) with (b - a) by lia.
  f_equal. unfold zdrop. replace (Z.to_nat a) with (S (Z.to_nat (a - 1))) by lia. done.
Qed.

Lemma zlen_split {A} (l : list A) n : 0 ≤ n ≤ zlen l → ∃ k r, l = k ++ r ∧ zlen k = n.
Proof.
  intros Hn. exists (ztake n l), (zdrop n l). split; [by rewrite ztake_zdrop_app|zlia].
Qed.

(** Overwriting the front of a slice. *)
Lemma copy_at_front {A} (d l r : list A) : zlen d = zlen l → copy_at (l ++ r) 0 d = Ok (d ++ r).
Proof.
  intros E. rewrite copy_at_ok; [|lia|zlia]. rewrite ztake_nonpos by lia. simpl. f_equal. f_equal.
  rewrite E. apply zdrop_app_exact.
Qed.

Lemma copy_at_middle {A} (k d l r : list A) n : n = zlen k → zlen d = zlen l →
  copy_at (k ++ l ++ r) n d = Ok (k ++ d ++ r).
Proof.
  intros -> E. rewrite copy_at_ok; [|zlia|zlia]. rewrite ztake_app_exact. do 2 f_equal. f_equal.
  rewrite <- (zdrop_zdrop (zlen d) (zlen k)) by zlia.
  rewrite zdrop_app_exact, E. apply zdrop_app_exact.
Qed.

Lemma zdrop_app_len {A} (k r : list A) n : n = zlen k → zdrop n (k ++ r) = r.
Proof. intros ->. apply zdrop_app_exact. Qed.

Lemma ztake_app_len {A} (k r : list A) n : n = zlen k → ztake n (k ++ r) = k.
Proof. intros ->. apply ztake_app_exact. Qed.

Lemma set_head {A} (x y : A) l : copy_at (x :: l) 0 [y] = Ok (y :: l).
Proof. exact (copy_at_front [y] [x] l eq_refl). Qed.

Lemma set_second {A} (x y z : A) l : copy_at (x :: y :: l) 1 [z] = Ok (x :: z :: l).
Proof. exact (copy_at_middle [x] [z] [y] l 1 eq_refl eq_refl). Qed.

Lemma zidx_app_at {A} (k l : list A) n m : m = zlen k + n → 0 ≤ n → zidx (k ++ l) m = zidx l n.
Proof. intros -> Hn. unfold zidx. rewrite zget_app_r by lia. do 2 f_equal. lia. Qed.

Lemma zget_at {A} (k : list A) x r n : n = zlen k → zget (k ++ x :: r) n = Some x.
Proof. intros ->. rewrite zget_app_r, Z.sub_diag by lia. done. Qed.

(** A closed list of bytes. *)
Ltac bytes_lit :=
  match goal with
  | |- bytes_ok ?l => let v := eval vm_compute in l in change (bytes_ok v)
  | |- Forall is_u8 ?l => let v := eval vm_compute in l in change (bytes_ok v)
  end;
  repeat (apply bytes_ok_cons; [unfold is_u8; lia|]); apply List.Forall_nil.
