(* ===== verification/Types.v ===== *)
(** The data types of src/types.rs that the media and session components share,
    with their defaults. An array of bytes is the list of its elements. *)
From S2P Require Import Prelude Bytes.
From Stdlib Require Strings.String Strings.Ascii.
Export (notations) Strings.String.

(** A byte string literal. *)
Definition text (s : Strings.String.string) : bytes :=
  (λ a, Z.of_N (Strings.Ascii.N_of_ascii a)) <$> Strings.String.list_ascii_of_string s.
#[global] Arguments text s%_string.

Inductive ConnState : Type :=
  | TcpAccepted | StHandshake | Connected | CapsNegotiated | AppConnected | StreamCreated
  | Publishing | Playing | Closing | StClosed.

Inductive FrameType : Type := Audio | Video | Script | Metadata.

Inductive AudioCodec : Type :=
  | Pcm | Adpcm | Mp3 | PcmLe | Nelly16k | Nelly8k | Nelly | G711A | G711U | Aac | Speex | Opus.

Inductive VideoCodec : Type :=
  | Jpeg | Sorenson | Screen | Vp6 | Vp6a | Screen2 | H264 | H265 | Av1 | Vp9.

Inductive MultitrackType : Type := MtAudio | MtVideo | MtMetadata.

Inductive ModexType : Type := TimestampOffsetNano | Nop.

#[global] Instance ConnState_eq_dec : EqDecision ConnState.
Proof. solve_decision. Defined.
#[global] Instance FrameType_eq_dec : EqDecision FrameType.
Proof. solve_decision. Defined.
#[global] Instance AudioCodec_eq_dec : EqDecision AudioCodec.
Proof. solve_decision. Defined.
#[global] Instance VideoCodec_eq_dec : EqDecision VideoCodec.
Proof. solve_decision. Defined.
#[global] Instance MultitrackType_eq_dec : EqDecision MultitrackType.
Proof. solve_decision. Defined.
#[global] Instance ModexType_eq_dec : EqDecision ModexType.
Proof. solve_decision. Defined.

Definition audio_codec_default : AudioCodec := Pcm.
Definition video_codec_default : VideoCodec := Jpeg.

(** [FourCc]: four bytes and a NUL. *)
Definition fourcc_default : bytes := zrepeat 0 5.

Record VideoHeader : Type := mkVideoHeader {
  v_is_ex_header : Z;
  v_packet_type : Z;
  v_fourcc : bytes;
  v_frame_type : Z;
  v_composition_time : Z;
  v_header_size : Z;
}.

Definition video_header_default : VideoHeader := mkVideoHeader 0 0 fourcc_default 0 0 0.

Record AudioHeader : Type := mkAudioHeader {
  a_is_ex_header : Z;
  a_packet_type : Z;
  a_fourcc : bytes;
  a_audio_codec : AudioCodec;
  a_sample_rate : Z;
  a_sample_size : Z;
  a_channels : Z;
  a_aac_packet_type : Z;
  a_header_size : Z;
}.

Definition audio_header_default : AudioHeader :=
  mkAudioHeader 0 0 fourcc_default audio_codec_default 0 0 0 0 0.

(** [Frame]; [f_data] is what the pointer [data] points at. *)
Record Frame : Type := mkFrame {
  f_frame_type : FrameType;
  f_timestamp : Z;
  f_composition_time : Z;
  f_size : Z;
  f_data : bytes;
  f_audio_codec : AudioCodec;
  f_audio_sample_rate : Z;
  f_audio_channels : Z;
  f_audio_bit_depth : Z;
  f_audio_fourcc : bytes;
  f_video_codec : VideoCodec;
  f_video_fourcc : bytes;
  f_video_frame_type : Z;
  f_is_metadata : Z;
  f_track_id : Z;
}.

Record HdrInfo : Type := mkHdr {
  color_primaries : Z;
  transfer_chars : Z;
  matrix_coeffs : Z;
}.

Record Reconnect : Type := mkReconnect { rc_replay : Z; rc_limit : Z }.

Record Multitrack : Type := mkMultitrack { mt_track_type : MultitrackType; mt_track_name : bytes }.

Definition multitrack_default : Multitrack := mkMultitrack MtAudio (zrepeat 0 64).

Record Modex : Type := mkModex {
  mx_modex_type : ModexType;
  mx_offset : Z;
  mx_next_packet_type : Z;
}.

Definition ERTMP_PACKET_TYPE_METADATA : Z := 4.
Definition ERTMP_AUDIO_PACKET_TYPE_METADATA : Z := 3.
Definition ERTMP_AUDIO_PACKET_TYPE_MULTICHANNEL : Z := 4.
Definition CAPS_EX_MASK_MODEX : Z := 4.

(** An array whose elements are bytes. *)
Definition is_array (n : Z) (l : bytes) : Prop := zlen l = n ∧ bytes_ok l.
