(* ===== verification/F64.v ===== *)
(** IEEE 754 double precision numbers as Rust's [f64], by their bit pattern (a
    [u64]): the tests and conversions the AMF0 readers and writers apply to
    them. A finite value is a multiple of 2^-1074, so [scaled] is exact. *)
From S2P Require Import Prelude Bytes.

Module F64.

Definition sign (x : Z) : Z := x >> 63.
Definition exponent (x : Z) : Z := (x >> 52) .& 2047.
Definition fraction (x : Z) : Z := x .& 4503599627370495.

Definition is_finite (x : Z) : bool := negb (exponent x =? 2047).
Definition is_nan (x : Z) : bool := (exponent x =? 2047) && negb (fraction x =? 0).

(** [value * 2^1074] of a finite number; an infinity is larger than any. *)
Definition magnitude (x : Z) : Z :=
  if exponent x =? 0 then fraction x
  else Z.shiftl (4503599627370496 + fraction x) (exponent x - 1).
Definition scaled (x : Z) : Z := if sign x =? 0 then magnitude x else - magnitude x.

(** [a as f64 <= x] and [x <= b as f64] for integers. *)
Definition ge_int (x a : Z) : bool := negb (is_nan x) && (Z.shiftl a 1074 <=? scaled x).
Definition le_int (x b : Z) : bool := negb (is_nan x) && (scaled x <=? Z.shiftl b 1074).

(** [x as uN]: truncation towards zero, saturating at the type's bounds. *)
Definition as_uint (max x : Z) : Z :=
  if is_nan x then 0 else Z.max 0 (Z.min max (Z.quot (scaled x) (Z.shiftl 1 1074))).

(** [n as f64] for an integer below 2^53, which is exact. *)
Definition of_int (n : Z) : Z :=
  if n =? 0 then 0
  else
    let k := Z.log2 n in
    Z.shiftl (k + 1023) 52 + Z.shiftl (n - Z.shiftl 1 k) (52 - k).

(** [n as f64] for a signed integer, and [x as iN]. *)
Definition of_signed (n : Z) : Z := if n <? 0 then 9223372036854775808 + of_int (- n) else of_int n.
Definition as_int (min max x : Z) : Z :=
  if is_nan x then 0 else Z.max min (Z.min max (Z.quot (scaled x) (Z.shiftl 1 1074))).

(** [x == 0.0]. *)
Definition is_zero (x : Z) : bool := negb (is_nan x) && (scaled x =? 0).

(** * Integers are represented exactly *)

Lemma fields s e m : 0 ≤ s < 2 → 0 ≤ e < 2048 → 0 ≤ m < 4503599627370496 →
  let x := s * 9223372036854775808 + e * 4503599627370496 + m in
  sign x = s ∧ exponent x = e ∧ fraction x = m.
Proof.
  intros Hs He Hm x. unfold sign, exponent, fraction. rewrite !shiftr_div by lia.
  change 4503599627370495 with (Z.ones 52). change 2047 with (Z.ones 11).
  rewrite !land_ones' by lia. eval_pow2. unfold x. split_and!; divlia.
Qed.

Lemma of_int_positive n : 0 ≤ n < 9007199254740992 → 0 ≤ of_int n < 9223372036854775808.
Proof.
  intros Hn. unfold of_int. destruct (Z.eqb_spec n 0); [lia|]. cbv zeta.
  pose proof (Z.log2_spec n ltac:(lia)) as Hl. pose proof (Z.log2_nonneg n).
  assert (Z.log2 n < 53) as Hk by (apply Z.log2_lt_pow2; eval_pow2; lia).
  rewrite !Z.shiftl_mul_pow2, Z.mul_1_l by lia.
  rewrite Z.pow_succ_r in Hl by lia.
  assert (2 ^ Z.log2 n * 2 ^ (52 - Z.log2 n) = 2 ^ 52) as Hp by (rewrite <- Z.pow_add_r by lia; f_equal; lia).
  pose proof (Z.pow_pos_nonneg 2 (52 - Z.log2 n) ltac:(lia) ltac:(lia)).
  assert (0 ≤ (n - 2 ^ Z.log2 n) * 2 ^ (52 - Z.log2 n) < 2 ^ 52) by nia.
  eval_pow2. lia.
Qed.

Lemma of_int_range n : 0 ≤ n < 9007199254740992 → is_u64 (of_int n).
Proof. intros Hn. pose proof (of_int_positive n Hn). ulia. Qed.

Lemma scaled_of_int n : 0 ≤ n < 9007199254740992 →
  is_finite (of_int n) = true ∧ scaled (of_int n) = Z.shiftl n 1074.
Proof.
  intros Hn. destruct (Z.eqb_spec n 0) as [->|H0]; [done|]. unfold of_int.
  rewrite (proj2 (Z.eqb_neq n 0)) by done. cbv zeta.
  pose proof (Z.log2_spec n ltac:(lia)) as Hl. pose proof (Z.log2_nonneg n).
  assert (Z.log2 n < 53) as Hk by (apply Z.log2_lt_pow2; eval_pow2; lia).
  set (k := Z.log2 n) in *. rewrite !Z.shiftl_mul_pow2, Z.mul_1_l by lia.
  rewrite Z.pow_succ_r in Hl by lia.
  assert (2 ^ k * 2 ^ (52 - k) = 2 ^ 52) as Hp by (rewrite <- Z.pow_add_r by lia; f_equal; lia).
  pose proof (Z.pow_pos_nonneg 2 (52 - k) ltac:(lia) ltac:(lia)).
  set (m := (n - 2 ^ k) * 2 ^ (52 - k)). assert (0 ≤ m < 2 ^ 52) as Hm by (unfold m; nia).
  replace ((k + 1023) * 2 ^ 52 + m) with (0 * 9223372036854775808 + (k + 1023) * 4503599627370496 + m)
    by (eval_pow2; lia).
  destruct (fields 0 (k + 1023) m) as (E1&E2&E3); [lia..|eval_pow2; lia|].
  unfold is_finite, scaled, magnitude. rewrite E1, E2, E3.
  rewrite (proj2 (Z.eqb_neq _ 2047)), (proj2 (Z.eqb_neq (k + 1023) 0)) by lia. split; [done|].
  change (0 =? 0) with true. cbv iota. rewrite !Z.shiftl_mul_pow2 by lia.
  replace (k + 1023 - 1) with (k + 1022) by lia.
  replace (4503599627370496 + m) with (n * 2 ^ (52 - k)) by (unfold m; eval_pow2; nia).
  rewrite <- Z.mul_assoc, <- Z.pow_add_r by lia. do 2 f_equal. lia.
Qed.

(** An exact integer passes the range test and converts back. *)
Lemma of_int_back n max : 0 ≤ n ≤ max → max < 9007199254740992 →
  ge_int (of_int n) 0 = true ∧ le_int (of_int n) max = true ∧ as_uint max (of_int n) = n.
Proof.
  intros Hn Hm. destruct (scaled_of_int n ltac:(lia)) as [Hf Hs].
  assert (is_nan (of_int n) = false) as Hna.
  { unfold is_nan. unfold is_finite in Hf. apply negb_true_iff in Hf. by rewrite Hf. }
  unfold ge_int, le_int, as_uint. rewrite Hna, Hs. rewrite !Z.shiftl_mul_pow2, Z.mul_1_l by lia.
  assert (0 < 2 ^ 1074) as Hp by (apply Z.pow_pos_nonneg; lia).
  rewrite Z.quot_mul by lia. set (q := 2 ^ 1074) in *. clearbody q. simpl.
  split_and!; [nia|nia|lia].
Qed.

(** The sign bit negates. *)
Lemma scaled_neg x : 0 ≤ x < 9223372036854775808 →
  is_nan (9223372036854775808 + x) = is_nan x ∧ scaled (9223372036854775808 + x) = - scaled x.
Proof.
  intros Hx. set (e := x / 4503599627370496). set (m := x mod 4503599627370496).
  assert (0 ≤ e < 2048 ∧ 0 ≤ m < 4503599627370496) as [He Hm] by (unfold e, m; split; divlia).
  assert (x = 0 * 9223372036854775808 + e * 4503599627370496 + m) as Ex by (unfold e, m; divlia).
  destruct (fields 0 e m) as (S0&E0&F0); [lia..|]. destruct (fields 1 e m) as (S1&E1&F1); [lia..|].
  rewrite <- Ex in S0, E0, F0.
  replace (1 * 9223372036854775808 + e * 4503599627370496 + m) with (9223372036854775808 + x) in * by lia.
  unfold is_nan, scaled, magnitude. by rewrite S0, S1, E0, E1, F0, F1.
Qed.

Lemma of_signed_range n : -9007199254740992 < n < 9007199254740992 → is_u64 (of_signed n).
Proof.
  intros Hn. unfold of_signed. destruct (Z.ltb_spec n 0).
  - pose proof (of_int_positive (- n) ltac:(lia)). ulia.
  - apply of_int_range. lia.
Qed.

Lemma of_signed_back min max n : min ≤ n ≤ max → -9007199254740992 < min → max < 9007199254740992 →
  as_int min max (of_signed n) = n.
Proof.
  intros Hn Hmin Hmax. assert (0 < 2 ^ 1074) as Hp by (apply Z.pow_pos_nonneg; lia).
  assert (∀ k, 0 ≤ k < 9007199254740992 → is_nan (of_int k) = false) as Hnan.
  { intros k Hk. destruct (scaled_of_int k Hk) as [Hf _]. unfold is_nan, is_finite in *.
    apply negb_true_iff in Hf. by rewrite Hf. }
  unfold as_int, of_signed. destruct (Z.ltb_spec n 0).
  - destruct (scaled_neg (of_int (- n))) as [-> ->]; [apply of_int_positive; lia|].
    rewrite Hnan by lia. destruct (scaled_of_int (- n) ltac:(lia)) as [_ ->].
    rewrite !Z.shiftl_mul_pow2, Z.mul_1_l by lia. set (q := 2 ^ 1074) in *. clearbody q.
    replace (- (- n * q)) with (n * q) by lia. rewrite Z.quot_mul by lia. lia.
  - rewrite Hnan by lia. destruct (scaled_of_int n ltac:(lia)) as [_ ->].
    rewrite !Z.shiftl_mul_pow2, Z.mul_1_l by lia. set (q := 2 ^ 1074) in *. clearbody q.
    rewrite Z.quot_mul by lia. lia.
Qed.

(** An exact integer has no fractional part. *)
Lemma of_int_fract n : 0 ≤ n < 9007199254740992 → scaled (of_int n) mod Z.shiftl 1 1074 = 0.
Proof.
  intros Hn. destruct (scaled_of_int n Hn) as [_ ->]. rewrite !Z.shiftl_mul_pow2, Z.mul_1_l by lia.
  apply Z.mod_mul. apply Z.pow_nonzero; lia.
Qed.
End F64.
