(* ===== verification/Source.v ===== *)
(** Reading from and writing to a byte buffer, as the codecs of src/amf,
    src/message and src/session use src/buffer.rs.

    [Source] is what a decoder asks of its input.  A decoder is written once
    against it; at [Buffer] it is the code, at the list of unread bytes it is
    its own reference.  [sim] relates the two, and its rules carry the relation
    (with the absence of panics) through a decoder.  [emits] is the dual for
    encoders: what a call appends to the output. *)
From S2P Require Import Prelude Bytes Buffer.

Class Source (S : Type) : Type := {
  src_read : Z → ST S bytes;
  src_available : S → Z;
  src_drain : Z → S → S;
  src_peek : S → Res bytes;
  src_rewind : S → S → S;
}.

#[global] Instance buffer_source : Source Buffer := {
  src_read := Buffer.read;
  src_available := Buffer.available;
  src_drain := Buffer.drain;
  src_peek := Buffer.peek;
  src_rewind saved b := Buffer.set_read_pos (read_pos saved) b;
}.

#[global] Instance list_source : Source bytes := {
  src_read n l := if zlen l <? n then (Err Io, l) else (Ok (ztake n l), zdrop n l);
  src_available := zlen;
  src_drain := zdrop;
  src_peek l := Ok l;
  src_rewind saved _ := saved;
}.

(** The same as calls of the state monad. *)
Definition available_st {S} `{Source S} : ST S Z := λ s, (Ok (src_available s), s).
Definition drain_st {S} `{Source S} (n : Z) : ST S unit := λ s, (Ok tt, src_drain n s).
Definition peek_st {S} `{Source S} : ST S bytes := λ s, (src_peek s, s).

(** [let pos = buf.read_pos(); let r = m; buf.set_read_pos(pos); r], and the same
    when only a failure is rewound. *)
Definition rewound {S A} `{Source S} (m : ST S A) : ST S A := λ s,
  let '(r, s') := m s in (r, match r with Panic => s' | _ => src_rewind s s' end).
Definition or_rewind {S A} `{Source S} (m k : ST S A) : ST S A := λ s,
  match m s with
  | (Err _, s') => k (src_rewind s s')
  | r => r
  end.

(** The same when a result that satisfies [c] is put back. *)
Definition unread_if {S A} `{Source S} (c : A → bool) (m : ST S A) : ST S A := λ s,
  let '(r, s') := m s in
  (r, match r with Ok a => if c a then src_rewind s s' else s' | _ => s' end).

(** [let x = m.ok()?;] in a function that returns an [Option], and a call whose
    error the caller looks at. *)
Definition ok_or_none {S A B} (m : ST S A) (k : A → ST S (option B)) : ST S (option B) := λ s,
  match m s with
  | (Ok a, s') => k a s'
  | (Err _, s') => (Ok None, s')
  | (Panic, s') => (Panic, s')
  end.

Notation "x ←? m ; k" := (ok_or_none m (λ x, k))
  (at level 20, m at level 100, k at level 200, right associativity) : stdpp_scope.
Notation "' p ←? m ; k" := (ok_or_none m (λ p, k))
  (at level 20, p pattern, m at level 100, k at level 200, right associativity) : stdpp_scope.

(** * Decoders: the buffer against the list *)

(** Reading moves the cursor only. *)
Record advanced (b b' : Buffer) : Prop := {
  adv_after : Buffer.after b b';
  adv_data : data b' = data b;
  adv_size : size b' = size b;
  adv_owned : owned b' = owned b;
}.

Lemma advanced_refl b : Buffer.wf b → advanced b b.
Proof. by split. Qed.

Lemma advanced_trans a b c : advanced a b → advanced b c → advanced a c.
Proof. intros [] []. split; [by eapply Buffer.after_trans|congruence..]. Qed.

Lemma read_advanced n b d b' : Buffer.wf b → 0 ≤ n → Buffer.read n b = (Ok d, b') → advanced b b'.
Proof.
  intros Hb Hn E. pose proof (Buffer.read_spec n b Hb Hn) as H. rewrite E in H.
  destruct (_ <=? _); [|done]. destruct H as (b2&[= _ <-]&?&?&?&?&_). split; try done.
  unfold Buffer.read in E. destruct (_ <? _); [done|]. by destruct (slice _ _ _); simplify_eq.
Qed.

(** Rewinding restores the unread bytes. *)
Lemma rewind_advanced b b' : Buffer.wf b → advanced b b' →
  Buffer.contents (src_rewind b b') = Buffer.contents b ∧ advanced b (src_rewind b b').
Proof.
  intros Hb [[Hw Hl] Hd Hs Ho]. simpl. unfold Buffer.set_read_pos.
  assert (Z.min (read_pos b) (size b') = read_pos b) as E by (unfold Buffer.wf in Hb; lia).
  rewrite E, Hd, Hs, Ho. split; [done|]. by split.
Qed.

(** [m] on a buffer does what [p] does on its unread bytes, without a panic and
    with results in [Q]. *)
Definition sim {A} (Q : A → Prop) (m : ST Buffer A) (p : ST bytes A) : Prop := ∀ b,
  Buffer.wf b → bytes_ok (Buffer.contents b) →
  let '(r, l) := p (Buffer.contents b) in
  ∃ b', m b = (r, b') ∧ advanced b b' ∧ Buffer.contents b' = l ∧ bytes_ok l
    ∧ match r with Ok a => Q a | Err _ => True | Panic => False end.

Create HintDb sim.

Section sim.
Context {A B : Type}.
Implicit Types (Q : A → Prop) (R : B → Prop).

Lemma sim_weaken Q Q' m p : sim Q m p → (∀ a, Q a → Q' a) → sim Q' m p.
Proof.
  intros H HQ b Hb Ho. specialize (H b Hb Ho). destruct (p _) as [r l].
  destruct H as (b'&?&?&?&?&?). exists b'. split_and!; try done. destruct r; auto.
Qed.

Lemma sim_ret Q a : Q a → sim Q (mret a) (mret a).
Proof. intros H b Hb Ho. exists b. split_and!; eauto using advanced_refl. Qed.

Lemma sim_bind Q R m p k q : sim Q m p → (∀ a, Q a → sim R (k a) (q a)) →
  sim R (m ≫= k) (p ≫= q).
Proof.
  intros H Hk b Hb Ho. specialize (H b Hb Ho). unfold mbind, ST_bind.
  destruct (p (Buffer.contents b)) as [[a|e|] l]; destruct H as (b'&->&Hadv&<-&Hl&Ha); [|by exists b'..].
  specialize (Hk a Ha b' (proj1 (adv_after _ _ Hadv)) Hl). destruct (q a _) as [r l']. destruct Hk as (b2&?&?&?&?&?).
  exists b2. split_and!; eauto using advanced_trans.
Qed.

Lemma sim_fail Q e : sim Q (fail e) (fail e).
Proof. intros b Hb Ho. exists b. split_and!; eauto using advanced_refl. Qed.

Lemma sim_guard (R : unit → Prop) c e : (c = false → R tt) → sim R (guard_st c e) (guard_st c e).
Proof. intros H. destruct c; intros b Hb Ho; exists b; split_and!; eauto using advanced_refl. Qed.

Lemma sim_lift Q r : match r with Ok a => Q a | Err _ => True | Panic => False end →
  sim Q (lift r) (lift r).
Proof. intros H b Hb Ho. exists b. split_and!; eauto using advanced_refl. Qed.

Lemma sim_map_err Q e m p : sim Q m p → sim Q (map_err e m) (map_err e p).
Proof.
  intros H b Hb Ho. specialize (H b Hb Ho). unfold map_err.
  destruct (p _) as [[a|e'|] l]; destruct H as (b'&->&?&?&?&?); by exists b'.
Qed.
End sim.

Lemma sim_ok_or_none {A B} (Q : A → Prop) (R : option B → Prop) m p k q : R None →
  sim Q m p → (∀ a, Q a → sim R (k a) (q a)) → sim R (ok_or_none m k) (ok_or_none p q).
Proof.
  intros HN H Hk b Hb Ho. specialize (H b Hb Ho). unfold ok_or_none.
  destruct (p (Buffer.contents b)) as [[a|e|] l]; destruct H as (b'&->&Hadv&<-&Hl&Ha);
    [|by exists b'..].
  specialize (Hk a Ha b' (proj1 (adv_after _ _ Hadv)) Hl). destruct (q a _) as [r l']. destruct Hk as (b2&?&?&?&?&?).
  exists b2. split_and!; eauto using advanced_trans.
Qed.

Lemma sim_read n : 0 ≤ n → sim (λ d, zlen d = n ∧ bytes_ok d) (src_read n) (src_read n).
Proof.
  intros Hn b Hb Ho. simpl. pose proof (Buffer.read_spec n b Hb Hn) as H.
  rewrite Z.ltb_antisym. destruct (Z.leb_spec n (zlen (Buffer.contents b))); simpl.
  - destruct H as (b'&?&?&?&_&_&?). exists b'. split_and!; try done.
    + by eapply read_advanced.
    + by apply Forall_zdrop.
    + zlia.
    + by apply Forall_ztake.
  - exists b. split_and!; eauto using advanced_refl.
Qed.

Lemma sim_available : sim (λ n, 0 ≤ n) available_st available_st.
Proof.
  intros b Hb Ho. exists b. split_and!; try done; [|apply zlen_nonneg].
  unfold available_st. simpl. by rewrite Buffer.available_contents.
Qed.

Lemma sim_drain n : 0 ≤ n → sim (λ _, True) (drain_st n) (drain_st n).
Proof.
  intros Hn b Hb Ho. destruct (Buffer.drain_after n b Hb Hn) as [? ?].
  exists (Buffer.drain n b). split_and!; try done. by apply Forall_zdrop.
Qed.

Lemma sim_peek : sim bytes_ok peek_st peek_st.
Proof.
  intros b Hb Ho. exists b. split_and!; try done. unfold peek_st. simpl.
  by rewrite Buffer.peek_contents.
Qed.

Lemma sim_zidx d i : bytes_ok d → 0 ≤ i < zlen d → sim is_u8 (lift (zidx d i)) (lift (zidx d i)).
Proof. intros Hd Hi. apply sim_lift. by destruct (zidx_byte d i Hd Hi) as (x&->&?). Qed.

Lemma sim_rewound {A} (Q : A → Prop) m p : sim Q m p → sim Q (rewound m) (rewound p).
Proof.
  intros H b Hb Ho. specialize (H b Hb Ho). unfold rewound.
  destruct (p (Buffer.contents b)) as [r l]. destruct H as (b'&->&Ha&<-&Hl&Hr).
  destruct (rewind_advanced b b' Hb Ha) as [Ec Har].
  destruct r as [a|e|]; [exists (src_rewind b b')|exists (src_rewind b b')|done]; by split_and!.
Qed.

Lemma sim_unread_if {A} (Q : A → Prop) c m p : sim Q m p → sim Q (unread_if c m) (unread_if c p).
Proof.
  intros H b Hb Ho. specialize (H b Hb Ho). unfold unread_if.
  destruct (p (Buffer.contents b)) as [r l]. destruct H as (b'&->&Ha&<-&Hl&Hr).
  destruct (rewind_advanced b b' Hb Ha) as [Ec Har].
  destruct r as [a|e|]; [destruct (c a); [exists (src_rewind b b')|exists b']|exists b'|done]; by split_and!.
Qed.

Lemma sim_or_rewind {A} (Q : A → Prop) m p k q : sim Q m p → sim Q k q →
  sim Q (or_rewind m k) (or_rewind p q).
Proof.
  intros H Hk b Hb Ho. specialize (H b Hb Ho). unfold or_rewind.
  destruct (p (Buffer.contents b)) as [r l]. destruct H as (b'&->&Ha&<-&Hl&Hr).
  destruct r as [a|e|]; [by exists b'| |done]. destruct (rewind_advanced b b' Hb Ha) as [Ec Har].
  specialize (Hk (src_rewind b b') (proj1 (adv_after _ _ Har))). rewrite Ec in Hk. specialize (Hk Ho).
  change (src_rewind (Buffer.contents b) (Buffer.contents b')) with (Buffer.contents b).
  destruct (q (Buffer.contents b)) as [r l]. destruct Hk as (b2&?&?&?&?&?).
  exists b2. split_and!; eauto using advanced_trans.
Qed.

(** The result on a buffer holding [d] is the result on [d], and not a panic. *)
Lemma sim_from_slice {A} (Q : A → Prop) m p d : sim Q m p → bytes_ok d →
  fst (m (Buffer.from_slice d)) = fst (p d) ∧ fst (p d) ≠ Panic.
Proof.
  intros Hs Ho. specialize (Hs (Buffer.from_slice d) (Buffer.wf_from_slice d)).
  rewrite Buffer.contents_from_slice in Hs. specialize (Hs Ho). destruct (p d) as [r l].
  destruct Hs as (b'&->&_&_&_&Hr). split; [done|]. by destruct r.
Qed.

(** * Decoders with an out parameter *)

(** A decoder that also fills in [o : O], a [&mut] argument: a failure leaves
    behind what had been stored. [src] is a read, [out] a store. *)
Definition src {S O A} (m : ST S A) : ST (S * O) A := λ '(s, o),
  let '(r, s') := m s in (r, (s', o)).
Definition out {S O A} (m : ST O A) : ST (S * O) A := λ '(s, o),
  let '(r, o') := m o in (r, (s, o')).

(** The same on one field of a larger out parameter. *)
Definition zoom {S O P A} (get : O → P) (set : P → O → O) (m : ST (S * P) A) : ST (S * O) A :=
  λ '(s, o), let '(r, (s', p)) := m (s, get o) in (r, (s', set p o)).

(** The call [m(buf, &mut o)], whose result and [o] the caller goes on with. *)
Definition with_out {S O A} (m : ST (S * O) A) (o : O) : ST S (Res A * O) := λ s,
  match m (s, o) with
  | (Panic, (s', _)) => (Panic, s')
  | (r, (s', o')) => (Ok (r, o'), s')
  end.

Definition sim_out {O A} (I : O → Prop) (Q : A → Prop)
    (m : ST (Buffer * O) A) (p : ST (bytes * O) A) : Prop := ∀ o, I o →
  sim (λ '(r, o'), I o' ∧ returns Q r) (with_out m o) (with_out p o).

Section sim_out.
Context {O : Type} (I : O → Prop).

(** The relation, with the pairs taken apart. *)
Lemma sim_out_iff {A} (Q : A → Prop) m p : sim_out I Q m p ↔ ∀ b o, Buffer.wf b → bytes_ok (Buffer.contents b) → I o →
  ∃ r b' o', m (b, o) = (r, (b', o')) ∧ p (Buffer.contents b, o) = (r, (Buffer.contents b', o'))
    ∧ advanced b b' ∧ bytes_ok (Buffer.contents b') ∧ I o'
    ∧ returns Q r.
Proof.
  split.
  - intros H b o Hb Ho Hi. specialize (H o Hi b Hb Ho). unfold with_out in H.
    destruct (p (Buffer.contents b, o)) as [[a|e|] [l o']], (m (b, o)) as [[a2|e2|] [b2 o2]];
      destruct H as (b'&Eb&?&<-&?&Hr); simplify_eq; try done; destruct Hr as [??];
      eexists _, b', o'; by split_and!.
  - intros H o Hi b Hb Ho. destruct (H b o Hb Ho Hi) as (r&b'&o'&Em&Ep&?&?&?&?).
    unfold with_out. rewrite Em, Ep. by destruct r; exists b'; split_and!.
Qed.

Lemma sim_out_ret {A} (Q : A → Prop) a : Q a → sim_out I Q (mret a) (mret a).
Proof. intros H. apply sim_out_iff. intros b o ???. exists (Ok a), b, o. split_and!; eauto using advanced_refl. Qed.

Lemma sim_out_bind {A B} (Q : A → Prop) (R : B → Prop) m p k q : sim_out I Q m p → (∀ a, Q a → sim_out I R (k a) (q a)) →
  sim_out I R (m ≫= k) (p ≫= q).
Proof.
  rewrite !sim_out_iff. intros H Hk b o Hb Ho Hi. unfold mbind, ST_bind.
  destruct (H b o Hb Ho Hi) as (r&b'&o'&->&->&Ha&?&?&Hr).
  destruct r as [a|e|]; [|by exists (Err e), b', o'|done].
  specialize (Hk a Hr). rewrite sim_out_iff in Hk. destruct (Hk b' o') as (r&b2&o2&->&->&?&?&?&?);
    [by apply Ha|done..|]. exists r, b2, o2. split_and!; eauto using advanced_trans.
Qed.

Lemma sim_out_src {A} (Q : A → Prop) m p : sim Q m p → sim_out I Q (src m) (src p).
Proof.
  intros H. apply sim_out_iff. intros b o Hb Ho Hi. specialize (H b Hb Ho). unfold src.
  destruct (p (Buffer.contents b)) as [r l]. destruct H as (b'&->&?&<-&?&?).
  exists r, b', o. by split_and!.
Qed.

Lemma sim_out_out {A} (Q : A → Prop) m : keeps I Q m → sim_out I Q (out m) (out m).
Proof.
  intros H. apply sim_out_iff. intros b o Hb Ho Hi. specialize (H o Hi). unfold out.
  destruct (m o) as [r o']. destruct H as [??]. exists r, b, o'. split_and!; eauto using advanced_refl.
Qed.

Lemma sim_out_ignore {A} (Q : A → Prop) (R : unit → Prop) m p :
  sim_out I Q m p → R tt → sim_out I R (ignore m) (ignore p).
Proof.
  rewrite !sim_out_iff. intros H HR b o Hb Ho Hi.
  destruct (H b o Hb Ho Hi) as (r&b'&o'&Em&Ep&?&?&?&?). unfold ignore. rewrite Em, Ep.
  destruct r as [a|e|]; [exists (Ok tt), b', o'..|done]; by split_and!.
Qed.

Lemma sim_out_fail {A} (Q : A → Prop) e : sim_out I Q (fail e) (fail e).
Proof. apply sim_out_iff. intros b o ???. exists (Err e), b, o. split_and!; by eauto using advanced_refl. Qed.

Lemma sim_out_guard (R : unit → Prop) c e : (c = false → R tt) →
  sim_out I R (guard_st c e) (guard_st c e).
Proof. intros H. destruct c; [apply sim_out_fail|by apply (sim_out_ret R tt), H]. Qed.
End sim_out.

Lemma sim_out_zoom {O P A} (I : O → Prop) (J : P → Prop) (get : O → P) set (Q : A → Prop) m p :
  (∀ o, I o → J (get o)) → (∀ o v, I o → J v → I (set v o)) →
  sim_out J Q m p → sim_out I Q (zoom get set m) (zoom get set p).
Proof.
  intros Hg Hs H. apply sim_out_iff. intros b o Hb Ho Hi. rewrite sim_out_iff in H.
  destruct (H b (get o) Hb Ho (Hg o Hi)) as (r&b'&o'&Em&Ep&?&?&?&?). unfold zoom.
  rewrite Em, Ep. exists r, b', (set o' o). split_and!; auto.
Qed.

Lemma sim_out_read {O A} (I : O → Prop) (Q : A → Prop) {B} (R : B → Prop) m p k q :
  sim Q m p → (∀ a, Q a → sim_out I R (k a) (q a)) → sim_out I R (src m ≫= k) (src p ≫= q).
Proof. intros. eapply sim_out_bind; [by apply sim_out_src|done]. Qed.

Lemma sim_out_check {O B} (I : O → Prop) (R : B → Prop) c e k q :
  (c = false → sim_out I R k q) → sim_out I R (guard_st c e;; k) (guard_st c e;; q).
Proof. intros H. eapply (sim_out_bind _ (λ _, c = false)); [by apply sim_out_guard|]. auto. Qed.

Lemma sim_out_store {O B} (I : O → Prop) (R : B → Prop) {A} (Q : A → Prop) m k q :
  keeps I Q m → (∀ a, Q a → sim_out I R (k a) (q a)) → sim_out I R (out m ≫= k) (out m ≫= q).
Proof. intros. eapply sim_out_bind; [by apply sim_out_out|done]. Qed.

Lemma sim_out_lift {O B} (I : O → Prop) (R : B → Prop) {A} (r : Res A) a k q :
  r = Ok a → sim_out I R (k a) (q a) → sim_out I R (lift r ≫= k) (lift r ≫= q).
Proof. intros -> H. exact H. Qed.

Lemma src_ok {S O A B} (m : ST S A) (k : A → ST (S * O) B) s (o : O) a s' :
  m s = (Ok a, s') → (src m ≫= k) (s, o) = k a (s', o).
Proof. intros E. unfold src, mbind, ST_bind. by rewrite E. Qed.

Lemma src_err {S O A B} (m : ST S A) (k : A → ST (S * O) B) s (o : O) e s' :
  m s = (Err e, s') → (src m ≫= k) (s, o) = (Err e, (s', o)).
Proof. intros E. unfold src, mbind, ST_bind. by rewrite E. Qed.

Lemma out_ok {S O A B} (m : ST O A) (k : A → ST (S * O) B) (s : S) o a o' :
  m o = (Ok a, o') → (out m ≫= k) (s, o) = k a (s, o').
Proof. intros E. unfold out, mbind, ST_bind. by rewrite E. Qed.

Lemma src_inv {S O A B} (m : ST S A) (k : A → ST (S * O) B) s (o : O) b z :
  (src m ≫= k) (s, o) = (Ok b, z) → ∃ a s', m s = (Ok a, s') ∧ k a (s', o) = (Ok b, z).
Proof.
  unfold src, mbind, ST_bind. destruct (m s) as [[a|e|] s'] eqn:E; intros H; try done. by exists a, s'.
Qed.

(** * Decoders on lists *)

Lemma src_read_app n (d l : bytes) : zlen d = n → src_read n (d ++ l) = (Ok d, l).
Proof.
  intros <-. simpl. rewrite (proj2 (Z.ltb_ge _ _)) by zlia.
  by rewrite ztake_app_exact, zdrop_app_exact.
Qed.

Lemma src_read_inv n (l d l' : bytes) : 0 ≤ n → src_read n l = (Ok d, l') →
  l = d ++ l' ∧ zlen d = n.
Proof.
  intros Hn. simpl. destruct (Z.ltb_spec (zlen l) n); intros [= <- <-].
  split; [by rewrite ztake_zdrop_app|zlia].
Qed.

Lemma peek_list (l : bytes) : peek_st l = (Ok l, l).
Proof. done. Qed.

Lemma ok_or_none_ok {S A B} (m : ST S A) (k : A → ST S (option B)) s a s' :
  m s = (Ok a, s') → ok_or_none m k s = k a s'.
Proof. unfold ok_or_none. by intros ->. Qed.

Lemma ok_or_none_err {S A B} (m : ST S A) (k : A → ST S (option B)) s e s' :
  m s = (Err e, s') → ok_or_none m k s = (Ok None, s').
Proof. unfold ok_or_none. by intros ->. Qed.

(** * Encoders *)

(** [m] appends exactly [d] to any buffer with room for it. *)
Definition emits (m : ST Buffer unit) (d : bytes) : Prop := ∀ b,
  Buffer.wf b → zlen (Buffer.contents b) + zlen d ≤ Buffer.limit b →
  ∃ b', m b = (Ok tt, b') ∧ Buffer.wf b' ∧ Buffer.contents b' = Buffer.contents b ++ d
    ∧ owned b' = owned b ∧ Buffer.limit b' = Buffer.limit b.

Lemma emits_nil : emits (mret tt) [].
Proof. intros b Hb _. exists b. by rewrite app_nil_r. Qed.

Lemma emits_bind m d k e : emits m d → emits k e → emits (m;; k) (d ++ e).
Proof.
  intros Hm Hk b Hb Hl. rewrite zlen_app in Hl.
  destruct (Hm b Hb) as (b1&E1&W1&C1&O1&L1); [zlia|].
  destruct (Hk b1 W1) as (b2&E2&W2&C2&O2&L2); [rewrite C1, L1; zlia|].
  exists b2. rewrite (bind_ok _ _ _ _ _ E1). split_and!; try done; try congruence.
  by rewrite C2, C1, app_assoc.
Qed.

Lemma emits_write d : emits (map_err Internal (Buffer.write d);; mret tt) d.
Proof.
  intros b Hb Hl. destruct (Buffer.write_spec d b Hb) as (b'&W&O&L&H).
  rewrite (proj2 (Z.leb_le _ _) Hl), orb_true_r in H. destruct H as [E C].
  exists b'. split_and!; try done. by rewrite (bind_ok _ _ _ _ _ (map_err_ok _ _ _ _ _ E)).
Qed.

Lemma emits_reserve n m d : n = zlen d → emits m d →
  emits (map_err Internal (Buffer.reserve n);; m) d.
Proof.
  intros -> Hm b Hb Hl.
  destruct (Buffer.make_room_spec (zlen d) b Hb ltac:(zlia)) as (b1&(W1&C1&O1&L1)&H).
  rewrite Buffer.available_contents in H by done.
  rewrite (proj2 (Z.leb_le _ _) Hl) in H. destruct H as [E _].
  destruct (Hm b1 W1) as (b2&E2&W2&C2&O2&L2); [by rewrite C1, L1|].
  exists b2. rewrite (bind_ok _ _ _ _ _ (map_err_ok _ _ _ _ _ E)).
  split_and!; try done; congruence.
Qed.

Lemma emits_ext m m' d : (∀ b, m b = m' b) → emits m' d → emits m d.
Proof. intros E H b ??. rewrite E. by apply H. Qed.

Lemma emits_guard c e m d : c = false → emits m d → emits (guard_st c e;; m) d.
Proof. intros -> H b ??. rewrite (bind_ok _ _ _ _ _ (guard_false e b)). by apply H. Qed.

Lemma emits_lift {A} (r : Res A) a k d : r = Ok a → emits (k a) d → emits (lift r ≫= k) d.
Proof. intros -> H b ??. by apply H. Qed.

(** [buf.write(d).map_err(|_| ErrorCode::Internal)?]. *)
Definition put (d : bytes) : ST Buffer unit := map_err Internal (Buffer.write d);; mret tt.

Lemma emits_put d : emits (put d) d.
Proof. apply emits_write. Qed.

(** * Encoder against decoder *)

(** [m] reads exactly [d] off the front of its input, as the value [a]. *)
Definition reads {A} (m : ST bytes A) (d : bytes) (a : A) : Prop := ∀ l, m (d ++ l) = (Ok a, l).

Section reads.
Context {A B : Type}.
Implicit Types (m : ST bytes A) (k : A → ST bytes B).

Lemma reads_ret (a : A) : reads (mret a) [] a.
Proof. done. Qed.

Lemma reads_bind m d a k e b : reads m d a → reads (k a) e b → reads (m ≫= k) (d ++ e) b.
Proof. intros Hm Hk l. rewrite <- app_assoc, (bind_ok _ _ _ _ _ (Hm _)). apply Hk. Qed.

(** A continuation that consumes nothing. *)
Lemma reads_then m d a k b : reads m d a → reads (k a) [] b → reads (m ≫= k) d b.
Proof. intros Hm Hk. rewrite <- (app_nil_r d). by eapply reads_bind. Qed.

Lemma reads_map_err m e d a : reads m d a → reads (map_err e m) d a.
Proof. intros H l. apply map_err_ok, H. Qed.

Lemma reads_guard c e m d a : c = false → reads m d a → reads (guard_st c e;; m) d a.
Proof. intros Hc H l. rewrite guard_pass by done. apply H. Qed.

Lemma reads_lift (r : Res A) a k d b : r = Ok a → reads (k a) d b → reads (lift r ≫= k) d b.
Proof. intros -> H l. apply H. Qed.

(** What [w] wrote into an empty buffer, [r] reads back. *)
Lemma reads_back (w : ST Buffer unit) d Q (r : ST Buffer A) (p : ST bytes A) a b :
  emits w d → sim Q r p → reads p d a → bytes_ok d →
  Buffer.wf b → Buffer.contents b = [] → zlen d ≤ Buffer.limit b →
  ∃ b1 b2, w b = (Ok tt, b1) ∧ Buffer.contents b1 = d ∧ r b1 = (Ok a, b2)
    ∧ Buffer.contents b2 = [].
Proof.
  intros Hw Hs Hr Hd Hb Hc Hl. destruct (Hw b Hb) as (b1&E1&W1&C1&_); [rewrite Hc; zlia|].
  rewrite Hc in C1. simpl in C1. specialize (Hs b1 W1). rewrite C1 in Hs. specialize (Hs Hd).
  specialize (Hr []). rewrite app_nil_r in Hr. rewrite Hr in Hs. destruct Hs as (b2&?&_&?&_).
  by exists b1, b2.
Qed.
End reads.

Lemma reads_read n d : zlen d = n → reads (src_read n) d d.
Proof. intros H l. by apply src_read_app. Qed.
