(* ===== verification/ChunkState.v ===== *)
(** Per-connection chunk-stream registry, src/chunk/state.rs: the per-CSID
    reassembly state, the registry with its O(1) accounting, all operations,
    and the accounting invariant that every operation preserves. *)
From S2P Require Import Prelude Buffer.

Definition DEFAULT_CHUNK_SIZE : Z := 128.
Definition MAX_CHUNK_STREAMS : Z := 4096.
Definition MAX_REASSEMBLY_BYTES_PER_CONN : Z := 32 * 1024 * 1024.
Definition DEFAULT_MAX_MSG_LENGTH : Z := 4 * 1024 * 1024.
Definition RTMP_WIRE_MAX_MSG_LENGTH : Z := 16777215.
Definition DEFAULT_MAX_ACTIVE_CSIDS : Z := 256.
(** [MAX_PEER_CHUNK_SIZE] of message/control.rs. *)
Definition MAX_PEER_CHUNK_SIZE : Z := 16777215.

Record ChunkStream : Type := mkStream {
  csid : Z;
  chunk_size : Z;
  has_message_header : bool;
  type0_timestamp : Z;
  type0_msg_length : Z;
  type0_msg_type_id : Z;
  type0_msg_stream_id : Z;
  type0_ext_ts : bool;
  last_delta : Z;
  reassembly_bytes_read : Z;
  reassembly_buf : Buffer;
  chunk_read_scratch : bytes;
  last_payload : bytes;
  reassembling : bool;
  in_use : bool;
}.

Record ChunkRegistry : Type := mkRegistry {
  streams : list ChunkStream;
  csid_index : gmap Z nat;
  reassembly_bytes_in_use : Z;
  reassembling_count : Z;
  default_chunk_size : Z;
  max_msg_length : Z;
  max_active_csids : Z;
  max_reassembly_bytes : Z;
  initialized : bool;
}.

(** * Field updates *)

Module ChunkStream.

Definition default : ChunkStream :=
  mkStream 0 DEFAULT_CHUNK_SIZE false 0 0 0 0 false 0 0 (Buffer.with_capacity 0) [] [] false false.

Definition set_header (hd : bool) (ts len ty sid : Z) (ext : bool) (delta : Z)
    (s : ChunkStream) : ChunkStream :=
  mkStream (csid s) (chunk_size s) hd ts len ty sid ext delta
    (reassembly_bytes_read s) (reassembly_buf s) (chunk_read_scratch s) (last_payload s)
    (reassembling s) (in_use s).

Definition set_timestamp (ts : Z) (s : ChunkStream) : ChunkStream :=
  set_header (has_message_header s) ts (type0_msg_length s) (type0_msg_type_id s)
    (type0_msg_stream_id s) (type0_ext_ts s) (last_delta s) s.

Definition set_reassembly (n : Z) (b : Buffer) (s : ChunkStream) : ChunkStream :=
  mkStream (csid s) (chunk_size s) (has_message_header s) (type0_timestamp s)
    (type0_msg_length s) (type0_msg_type_id s) (type0_msg_stream_id s) (type0_ext_ts s)
    (last_delta s) n b (chunk_read_scratch s) (last_payload s) (reassembling s) (in_use s).

Definition set_scratch (sc : bytes) (s : ChunkStream) : ChunkStream :=
  mkStream (csid s) (chunk_size s) (has_message_header s) (type0_timestamp s)
    (type0_msg_length s) (type0_msg_type_id s) (type0_msg_stream_id s) (type0_ext_ts s)
    (last_delta s) (reassembly_bytes_read s) (reassembly_buf s) sc (last_payload s)
    (reassembling s) (in_use s).

Definition set_last_payload (p : bytes) (s : ChunkStream) : ChunkStream :=
  mkStream (csid s) (chunk_size s) (has_message_header s) (type0_timestamp s)
    (type0_msg_length s) (type0_msg_type_id s) (type0_msg_stream_id s) (type0_ext_ts s)
    (last_delta s) (reassembly_bytes_read s) (reassembly_buf s) (chunk_read_scratch s) p
    (reassembling s) (in_use s).

Definition set_reassembling (r : bool) (s : ChunkStream) : ChunkStream :=
  mkStream (csid s) (chunk_size s) (has_message_header s) (type0_timestamp s)
    (type0_msg_length s) (type0_msg_type_id s) (type0_msg_stream_id s) (type0_ext_ts s)
    (last_delta s) (reassembly_bytes_read s) (reassembly_buf s) (chunk_read_scratch s)
    (last_payload s) r (in_use s).

Definition set_chunk_size (n : Z) (s : ChunkStream) : ChunkStream :=
  mkStream (csid s) n (has_message_header s) (type0_timestamp s)
    (type0_msg_length s) (type0_msg_type_id s) (type0_msg_stream_id s) (type0_ext_ts s)
    (last_delta s) (reassembly_bytes_read s) (reassembly_buf s) (chunk_read_scratch s)
    (last_payload s) (reassembling s) (in_use s).

(** The stream [get_or_create_index] pushes for a new CSID. *)
Definition opened (c size : Z) : ChunkStream :=
  mkStream c size false 0 0 0 0 false 0 0 (Buffer.with_capacity 0) [] [] false true.

(** [ChunkStream::reset]. *)
Definition reset (default_chunk_size : Z) (s : ChunkStream) : ChunkStream :=
  mkStream (csid s) default_chunk_size false 0 0 0 0 false 0 0
    (snd (Buffer.take (reassembly_buf s))) [] [] false (in_use s).

End ChunkStream.

Module Registry.

Definition new : ChunkRegistry :=
  mkRegistry [] ∅ 0 0 DEFAULT_CHUNK_SIZE DEFAULT_MAX_MSG_LENGTH DEFAULT_MAX_ACTIVE_CSIDS
    MAX_REASSEMBLY_BYTES_PER_CONN true.

Definition set_streams (ss : list ChunkStream) (r : ChunkRegistry) : ChunkRegistry :=
  mkRegistry ss (csid_index r) (reassembly_bytes_in_use r) (reassembling_count r)
    (default_chunk_size r) (max_msg_length r) (max_active_csids r)
    (max_reassembly_bytes r) (initialized r).

Definition set_bytes_in_use (n : Z) (r : ChunkRegistry) : ChunkRegistry :=
  mkRegistry (streams r) (csid_index r) n (reassembling_count r)
    (default_chunk_size r) (max_msg_length r) (max_active_csids r)
    (max_reassembly_bytes r) (initialized r).

Definition set_count (n : Z) (r : ChunkRegistry) : ChunkRegistry :=
  mkRegistry (streams r) (csid_index r) (reassembly_bytes_in_use r) n
    (default_chunk_size r) (max_msg_length r) (max_active_csids r)
    (max_reassembly_bytes r) (initialized r).

Definition set_max_reassembly_bytes (n : Z) (r : ChunkRegistry) : ChunkRegistry :=
  mkRegistry (streams r) (csid_index r) (reassembly_bytes_in_use r) (reassembling_count r)
    (default_chunk_size r) (max_msg_length r) (max_active_csids r) n (initialized r).

(** [&mut self.streams[idx]] updated by [f]. *)
Definition update_stream (idx : nat) (f : ChunkStream → ChunkStream)
    (r : ChunkRegistry) : Res ChunkRegistry :=
  s ← or_panic (streams r !! idx);
  Ok (set_streams (<[idx := f s]> (streams r)) r).

(** * Operations *)

Definition init (r : ChunkRegistry) : ChunkRegistry :=
  mkRegistry (streams r) (csid_index r) (reassembly_bytes_in_use r) (reassembling_count r)
    DEFAULT_CHUNK_SIZE (max_msg_length r) (max_active_csids r)
    (max_reassembly_bytes r) true.

Definition active_reassembling (r : ChunkRegistry) : Z := reassembling_count r.

(** Opening a slot for a CSID with no live slot. *)
Definition open_slot (c : Z) : ST ChunkRegistry nat := λ r,
  if max_active_csids r <=? active_reassembling r then (Err Chunk, r)
  else if MAX_CHUNK_STREAMS <=? zlen (streams r) then (Err Chunk, r)
  else
    let idx := length (streams r) in
    (Ok idx,
     mkRegistry (streams r ++ [ChunkStream.opened c (default_chunk_size r)])
       (<[c := idx]> (csid_index r)) (reassembly_bytes_in_use r) (reassembling_count r)
       (default_chunk_size r) (max_msg_length r) (max_active_csids r)
       (max_reassembly_bytes r) (initialized r)).

Definition get_or_create_index (c : Z) : ST ChunkRegistry nat := λ r,
  match csid_index r !! c with
  | Some idx =>
      match streams r !! idx with
      | Some s =>
          if in_use s && (csid s =? c) then
            if negb (reassembling s) && (max_active_csids r <=? active_reassembling r)
            then (Err Chunk, r) else (Ok idx, r)
          else open_slot c r
      | None => (Panic, r)
      end
  | None => open_slot c r
  end.

(** [get]: [None] when the CSID has no live slot; indexing may panic. *)
Definition get (c : Z) (r : ChunkRegistry) : Res (option ChunkStream) :=
  match csid_index r !! c with
  | None => Ok None
  | Some idx =>
      s ← or_panic (streams r !! idx);
      Ok (if in_use s && (csid s =? c) then Some s else None)
  end.

Definition can_get_or_create (c : Z) (r : ChunkRegistry) : Res bool :=
  let fresh := if max_active_csids r <=? active_reassembling r then false
               else zlen (streams r) <? MAX_CHUNK_STREAMS in
  match csid_index r !! c with
  | Some idx =>
      s ← or_panic (streams r !! idx);
      Ok (if in_use s && (csid s =? c)
          then reassembling s || (active_reassembling r <? max_active_csids r)
          else fresh)
  | None => Ok fresh
  end.

Definition release_reassembly_bytes (released : Z) (r : ChunkRegistry) : ChunkRegistry :=
  set_bytes_in_use (saturating_sub (reassembly_bytes_in_use r) released) r.

Definition release_stream_reassembly (idx : nat) (r : ChunkRegistry) : Res (Z * ChunkRegistry) :=
  s ← or_panic (streams r !! idx);
  let released := Buffer.available (reassembly_buf s) in
  Ok (released, release_reassembly_bytes released r).

Definition release_stream_reassembly_by_csid (c : Z) (r : ChunkRegistry) : Res (Z * ChunkRegistry) :=
  match csid_index r !! c with
  | None => Ok (0, r)
  | Some idx => release_stream_reassembly idx r
  end.

Definition note_reassembly_growth (nbytes : Z) (r : ChunkRegistry) : ChunkRegistry :=
  set_bytes_in_use (saturating_add (reassembly_bytes_in_use r) nbytes) r.

Definition set_stream_reassembling (idx : nat) (v : bool) (r : ChunkRegistry) : Res ChunkRegistry :=
  s ← or_panic (streams r !! idx);
  if Bool.eqb (reassembling s) v then Ok r
  else
    r ← update_stream idx (ChunkStream.set_reassembling v) r;
    Ok (set_count (if v then reassembling_count r + 1
                   else saturating_sub (reassembling_count r) 1) r).

Definition set_all_chunk_size (n : Z) (r : ChunkRegistry) : ChunkRegistry :=
  if (n <? DEFAULT_CHUNK_SIZE) || (MAX_PEER_CHUNK_SIZE <? n) then r
  else
    mkRegistry
      ((λ s, if in_use s then ChunkStream.set_chunk_size n s else s) <$> streams r)
      (csid_index r) (reassembly_bytes_in_use r) (reassembling_count r)
      n (max_msg_length r) (max_active_csids r) (max_reassembly_bytes r) (initialized r).

Definition can_grow_reassembly (additional : Z) (r : ChunkRegistry) : Res unit :=
  if max_reassembly_bytes r <? reassembly_bytes_in_use r + additional then Err Chunk else Ok tt.

(** The live slot of a CSID, as the two discard operations look it up. *)
Definition live_index (c : Z) (r : ChunkRegistry) : Res (option nat) :=
  match csid_index r !! c with
  | None => Ok None
  | Some idx =>
      s ← or_panic (streams r !! idx);
      Ok (if in_use s && (csid s =? c) then Some idx else None)
  end.

Definition reset_stream (c : Z) (r : ChunkRegistry) : Res ChunkRegistry :=
  o ← live_index c r;
  match o with
  | None => Ok r
  | Some idx =>
      '(_, r) ← release_stream_reassembly idx r;
      r ← set_stream_reassembling idx false r;
      update_stream idx (ChunkStream.reset (default_chunk_size r)) r
  end.

(** The partial message dropped by [abort_stream]; the header context stays. *)
Definition drop_partial (s : ChunkStream) : ChunkStream :=
  ChunkStream.set_scratch []
    (ChunkStream.set_reassembly 0 (snd (Buffer.take (reassembly_buf s))) s).

Definition abort_stream (c : Z) (r : ChunkRegistry) : Res ChunkRegistry :=
  o ← live_index c r;
  match o with
  | None => Ok r
  | Some idx =>
      '(_, r) ← release_stream_reassembly idx r;
      r ← set_stream_reassembling idx false r;
      update_stream idx drop_partial r
  end.

Definition destroy (r : ChunkRegistry) : ChunkRegistry :=
  mkRegistry [] ∅ 0 0 (default_chunk_size r) (max_msg_length r) (max_active_csids r)
    (max_reassembly_bytes r) false.

(** * Invariant *)

(** One stream: its integers are in range, the reassembly counter counts the
    bytes of the owned reassembly buffer, and a message is in flight exactly
    when some but not all of its bytes are there. *)
Record stream_wf (s : ChunkStream) : Prop := {
  s_in_use : in_use s = true;
  s_csid : is_u32 (csid s);
  s_chunk_size : DEFAULT_CHUNK_SIZE ≤ chunk_size s ≤ MAX_PEER_CHUNK_SIZE;
  s_timestamp : is_u32 (type0_timestamp s);
  s_delta : is_u32 (last_delta s);
  s_length : is_u24 (type0_msg_length s);
  s_type : is_u8 (type0_msg_type_id s);
  s_stream_id : is_u32 (type0_msg_stream_id s);
  s_buf : Buffer.wf (reassembly_buf s);
  s_owned : owned (reassembly_buf s) = true;
  s_bytes : bytes_ok (Buffer.contents (reassembly_buf s));
  s_read : reassembly_bytes_read s = zlen (Buffer.contents (reassembly_buf s));
  s_flight : if reassembling s
             then has_message_header s = true
                  ∧ 0 < reassembly_bytes_read s < type0_msg_length s
             else reassembly_bytes_read s = 0;
}.

(** Bytes a stream holds for reassembly, and its share of the active count. *)
Definition held (s : ChunkStream) : Z := zlen (Buffer.contents (reassembly_buf s)).
Definition active (s : ChunkStream) : Z := Z.b2z (reassembling s).

(** The registry: the index is a bijection between CSIDs and slots, the two
    O(1) counters are the sums they cache, and no cap is exceeded. *)
Record wf (r : ChunkRegistry) : Prop := {
  r_sound : ∀ c i, csid_index r !! c = Some i → ∃ s, streams r !! i = Some s ∧ csid s = c;
  r_complete : ∀ i s, streams r !! i = Some s → csid_index r !! csid s = Some i;
  r_streams : Forall stream_wf (streams r);
  r_bytes : reassembly_bytes_in_use r = sumZ held (streams r);
  r_count : reassembling_count r = sumZ active (streams r);
  r_slots : zlen (streams r) ≤ MAX_CHUNK_STREAMS;
  r_default : DEFAULT_CHUNK_SIZE ≤ default_chunk_size r ≤ MAX_PEER_CHUNK_SIZE;
  r_cap_bytes : reassembly_bytes_in_use r ≤ max_reassembly_bytes r ≤ USIZE_MAX;
  r_cap_count : reassembling_count r ≤ max_active_csids r;
}.

(** An empty registry with limits set by the embedding application. *)
Definition configured (msg_len csids nbytes : Z) : ChunkRegistry :=
  mkRegistry [] ∅ 0 0 DEFAULT_CHUNK_SIZE msg_len csids nbytes true.

Lemma wf_configured ml cs nb : 0 ≤ cs → 0 ≤ nb ≤ USIZE_MAX → wf (configured ml cs nb).
Proof. intros. constructor; simpl; try done; lia. Qed.

Lemma registry_wf_new : wf new.
Proof. apply (wf_configured DEFAULT_MAX_MSG_LENGTH); done. Qed.

Lemma held_nonneg ss : Forall (λ s, 0 ≤ held s) ss.
Proof. apply Forall_true. intros. apply zlen_nonneg. Qed.
Lemma active_nonneg ss : Forall (λ s, 0 ≤ active s) ss.
Proof. apply Forall_true. intros s. unfold active. by destruct (reassembling s). Qed.

Lemma wf_lookup r i s : wf r → streams r !! i = Some s → stream_wf s.
Proof. intros H ?. eapply Forall_lookup_1; [apply H|done]. Qed.

Lemma wf_held_le r i s : wf r → streams r !! i = Some s → held s ≤ reassembly_bytes_in_use r.
Proof.
  intros H Hi. rewrite (r_bytes r H). eapply sumZ_lookup_le; [apply held_nonneg|done].
Qed.

Lemma wf_active_le r i s : wf r → streams r !! i = Some s → active s ≤ reassembling_count r.
Proof.
  intros H Hi. rewrite (r_count r H). eapply sumZ_lookup_le; [apply active_nonneg|done].
Qed.

(** A registry whose slot [i] is replaced by [t], with both counters moved by
    the difference: the shape every operation on a live stream produces. *)
Definition replaced (i : nat) (s t : ChunkStream) (r : ChunkRegistry) : ChunkRegistry :=
  set_count (reassembling_count r - active s + active t)
    (set_bytes_in_use (reassembly_bytes_in_use r - held s + held t)
      (set_streams (<[i := t]> (streams r)) r)).

Lemma wf_replaced r i s t :
  wf r → streams r !! i = Some s → stream_wf t → csid t = csid s →
  reassembly_bytes_in_use r - held s + held t ≤ max_reassembly_bytes r →
  reassembling_count r - active s + active t ≤ max_active_csids r →
  wf (replaced i s t r).
Proof.
  intros H Hi Ht Hc Hb Hn.
  assert (∀ j u, <[i := t]> (streams r) !! j = Some u →
    ∃ v, streams r !! j = Some v ∧ csid v = csid u) as Hback.
  { intros j u. destruct (decide (i = j)) as [<-|].
    - rewrite list_lookup_insert_eq by (by eapply lookup_lt_Some).
      intros [= <-]. by exists s.
    - rewrite list_lookup_insert_ne by done. by exists u. }
  destruct H. constructor; simpl; try done.
  - intros c j Hj. destruct (r_sound0 c j Hj) as (u&Hu&<-).
    destruct (decide (i = j)) as [<-|].
    + rewrite list_lookup_insert_eq by (by eapply lookup_lt_Some).
      eexists. split; [done|]. congruence.
    + rewrite list_lookup_insert_ne by done. by exists u.
  - intros j u (v&Hv&<-)%Hback. by apply r_complete0.
  - by apply Forall_insert.
  - rewrite (sumZ_insert held _ _ _ t Hi). lia.
  - rewrite (sumZ_insert active _ _ _ t Hi). lia.
  - unfold zlen in *. by rewrite length_insert.
  - lia.
Qed.

(** * Behaviour of the operations *)

Lemma wf_index r c i : wf r → csid_index r !! c = Some i →
  ∃ s, streams r !! i = Some s ∧ csid s = c ∧ stream_wf s
    ∧ in_use s && (csid s =? c) = true.
Proof.
  intros H Hi. destruct (r_sound r H c i Hi) as (s&Hs&<-). exists s.
  pose proof (wf_lookup r i s H Hs) as Hw. split_and!; try done.
  by rewrite (s_in_use s Hw), Z.eqb_refl.
Qed.

Lemma stream_wf_opened c n : is_u32 c → DEFAULT_CHUNK_SIZE ≤ n ≤ MAX_PEER_CHUNK_SIZE →
  stream_wf (ChunkStream.opened c n).
Proof. intros. constructor; simpl; first [done|apply List.Forall_nil]. Qed.

Lemma wf_open_slot c r : wf r → is_u32 c → csid_index r !! c = None →
  zlen (streams r) < MAX_CHUNK_STREAMS →
  wf (mkRegistry (streams r ++ [ChunkStream.opened c (default_chunk_size r)])
       (<[c := length (streams r)]> (csid_index r)) (reassembly_bytes_in_use r)
       (reassembling_count r) (default_chunk_size r) (max_msg_length r) (max_active_csids r)
       (max_reassembly_bytes r) (initialized r)).
Proof.
  intros H Hc Hn Hs. destruct H. constructor; simpl; try done.
  - intros c' i. destruct (decide (c = c')) as [<-|].
    + rewrite lookup_insert_eq. intros [= <-]. eexists.
      split; [by apply list_lookup_middle|done].
    + rewrite lookup_insert_ne by done. intros (s&?&?)%r_sound0. exists s.
      split; [by apply lookup_app_l_Some|done].
  - intros i s [Hi|[Hi Hx]]%lookup_app_Some.
    + pose proof (r_complete0 i s Hi). rewrite lookup_insert_ne; [done|congruence].
    + apply list_lookup_singleton_Some in Hx as [Hx <-]. simpl.
      rewrite lookup_insert_eq. f_equal. lia.
  - apply Forall_app; split; [done|]. constructor; [by apply stream_wf_opened|done].
  - rewrite sumZ_app. simpl. unfold held at 2. simpl. change (zlen _) with 0. lia.
  - rewrite sumZ_app. simpl. unfold active at 2. simpl. lia.
  - rewrite zlen_app. change (zlen [_]) with 1. lia.
Qed.

(** [get_or_create_index]: it never panics; a success yields the CSID's slot,
    leaves room for one more active message on it, and either changes nothing
    or appends one fresh slot; an error changes nothing. *)
Lemma get_or_create_index_spec c r : wf r → is_u32 c →
  match get_or_create_index c r with
  | (Ok i, r') => wf r' ∧ ∃ s, streams r' !! i = Some s ∧ csid s = c ∧ stream_wf s
      ∧ (reassembling s = false → reassembling_count r' < max_active_csids r')
      ∧ (r' = r ∧ streams r !! i = Some s ∧ csid_index r !! c = Some i
         ∨ csid_index r !! c = None ∧ s = ChunkStream.opened c (default_chunk_size r)
           ∧ i = length (streams r) ∧ streams r' = streams r ++ [s]
           ∧ reassembly_bytes_in_use r' = reassembly_bytes_in_use r
           ∧ reassembling_count r' = reassembling_count r
           ∧ max_msg_length r' = max_msg_length r
           ∧ default_chunk_size r' = default_chunk_size r
           ∧ max_active_csids r' = max_active_csids r
           ∧ max_reassembly_bytes r' = max_reassembly_bytes r)
  | (Err e, r') => e = Chunk ∧ r' = r
  | (Panic, _) => False
  end.
Proof.
  intros H Hc. unfold get_or_create_index, open_slot, active_reassembling.
  destruct (csid_index r !! c) as [i|] eqn:Hi.
  - destruct (wf_index r c i H Hi) as (s&Hs&Hcs&Hw&Hl). rewrite Hs, Hl.
    destruct (Z.leb_spec (max_active_csids r) (reassembling_count r)).
    + destruct (reassembling s) eqn:Hr; simpl; [|done].
      split; [done|]. exists s. split_and!; try done; [congruence|by left].
    + rewrite andb_false_r. split; [done|]. exists s. split_and!; try done; by left.
  - zcase; [done|]. zcase; [done|].
    split; [by apply wf_open_slot|].
    eexists. split; [by apply list_lookup_middle|].
    split_and!; try done; [apply stream_wf_opened; [done|apply H]|right].
    by split_and!.
Qed.

(** The dry run of phase 1 agrees with the mutating lookup. *)
Lemma can_get_or_create_agrees c r : wf r →
  can_get_or_create c r = Ok (is_ok (get_or_create_index c r).1).
Proof.
  intros H. unfold can_get_or_create, get_or_create_index, open_slot, active_reassembling.
  destruct (csid_index r !! c) as [i|] eqn:Hi.
  - destruct (wf_index r c i H Hi) as (s&Hs&_&_&Hl). rewrite Hs. cbn. rewrite Hl.
    destruct (Z.leb_spec (max_active_csids r) (reassembling_count r)), (reassembling s);
      simpl; zcases; done.
  - zcases; done.
Qed.

Lemma get_spec c r : wf r →
  get c r = Ok (csid_index r !! c ≫= λ i, streams r !! i).
Proof.
  intros H. unfold get. destruct (csid_index r !! c) as [i|] eqn:Hi; [|done].
  destruct (wf_index r c i H Hi) as (s&Hs&_&_&Hl). rewrite Hs. cbn. by rewrite Hl, Hs.
Qed.

Lemma live_index_spec c r : wf r → live_index c r = Ok (csid_index r !! c).
Proof.
  intros H. unfold live_index. destruct (csid_index r !! c) as [i|] eqn:Hi; [|done].
  destruct (wf_index r c i H Hi) as (s&Hs&_&_&Hl). rewrite Hs. cbn. by rewrite Hl.
Qed.

(** Releasing a stream's bytes, clearing its flag and then rewriting the slot
    with a stream that holds nothing is a replacement of the slot. *)
Lemma discard_replaced r i s t f :
  wf r → streams r !! i = Some s →
  f (ChunkStream.set_reassembling false s) = t → held t = 0 → reassembling t = false →
  ('(_, r) ← release_stream_reassembly i r;
   r ← set_stream_reassembling i false r;
   update_stream i f r) = Ok (replaced i s t r).
Proof.
  intros H Hi Hf H0 Hre. pose proof (wf_lookup r i s H Hi) as Hw.
  pose proof (wf_held_le r i s H Hi) as Hle. pose proof (wf_active_le r i s H Hi) as Hal.
  pose proof (lookup_lt_Some _ _ _ Hi) as Hlt.
  unfold release_stream_reassembly, release_reassembly_bytes. rewrite Hi. cbn.
  rewrite Buffer.available_contents by apply Hw. fold (held s).
  unfold set_stream_reassembling, replaced, active, saturating_sub in *. cbn. rewrite Hi. cbn.
  rewrite H0, Hre, Z.max_r, !Z.add_0_r by lia.
  destruct (reassembling s) eqn:Hr; simpl in *.
  - unfold update_stream. cbn. rewrite Hi. cbn.
    rewrite list_lookup_insert_eq by done. cbn. rewrite Hf, list_insert_insert_eq.
    by rewrite Z.max_r by lia.
  - unfold update_stream. cbn. rewrite Hi. cbn. rewrite Z.sub_0_r.
    replace (f s) with t; [by destruct r|]. rewrite <- Hf. f_equal.
    destruct s. simpl in Hr. by subst.
Qed.

(** The stream registered for a CSID. *)
Definition find (c : Z) (r : ChunkRegistry) : option ChunkStream :=
  csid_index r !! c ≫= λ i, streams r !! i.

Lemma find_replaced r i s t c : wf r → streams r !! i = Some s →
  find c (replaced i s t r) = if bool_decide (c = csid s) then Some t else find c r.
Proof.
  intros H Hi. unfold find. simpl. pose proof (lookup_lt_Some _ _ _ Hi).
  case_bool_decide as E.
  - subst. rewrite (r_complete r H i s Hi). simpl. by rewrite list_lookup_insert_eq.
  - destruct (csid_index r !! c) as [j|] eqn:Hj; [|done]. simpl.
    destruct (r_sound r H c j Hj) as (u&Hu&<-).
    rewrite list_lookup_insert_ne; [done|]. intros ->. congruence.
Qed.

(** What an Abort Message leaves of a stream: the header context. *)
Definition aborted (s : ChunkStream) : ChunkStream :=
  ChunkStream.set_reassembling false (drop_partial s).

Lemma held_take s f : Buffer.wf (reassembly_buf s) →
  reassembly_buf (f s) = snd (Buffer.take (reassembly_buf s)) → held (f s) = 0.
Proof.
  intros Hb E. unfold held. rewrite E.
  destruct (Buffer.take_spec _ Hb) as (b&->&_&Hc&_). simpl. by rewrite Hc.
Qed.

Lemma stream_wf_aborted s : stream_wf s → stream_wf (aborted s).
Proof.
  intros []. destruct (Buffer.take_spec _ s_buf0) as (b&Hb&?&Hc&Ho&_).
  unfold aborted, drop_partial. rewrite Hb.
  constructor; simpl; rewrite ?Hc, ?Ho; first [done|apply List.Forall_nil].
Qed.

Lemma stream_wf_reset s n : stream_wf s → DEFAULT_CHUNK_SIZE ≤ n ≤ MAX_PEER_CHUNK_SIZE →
  stream_wf (ChunkStream.reset n s).
Proof.
  intros [] ?. destruct (Buffer.take_spec _ s_buf0) as (b&Hb&?&Hc&Ho&_).
  unfold ChunkStream.reset. rewrite Hb. constructor; simpl; rewrite ?Hc, ?Ho; first [done|apply List.Forall_nil].
Qed.

(** A slot that stops being active and holds nothing only frees resources. *)
Lemma wf_discarded r i s t : wf r → streams r !! i = Some s → stream_wf t →
  csid t = csid s → held t = 0 → reassembling t = false → wf (replaced i s t r).
Proof.
  intros H Hi Ht Hc H0 Hr. pose proof (zlen_nonneg (Buffer.contents (reassembly_buf s))).
  pose proof (r_cap_bytes r H). pose proof (r_cap_count r H).
  apply wf_replaced; try done.
  - rewrite H0. unfold held. lia.
  - unfold active. rewrite Hr. destruct (reassembling s); simpl; lia.
Qed.

Lemma abort_stream_spec c r : wf r →
  ∃ r', abort_stream c r = Ok r' ∧ wf r'
    ∧ (∀ c', find c' r' = if bool_decide (c' = c) then aborted <$> find c r else find c' r)
    ∧ reassembly_bytes_in_use r' = reassembly_bytes_in_use r - default 0 (held <$> find c r)
    ∧ reassembling_count r' = reassembling_count r - default 0 (active <$> find c r).
Proof.
  intros H. unfold abort_stream. rewrite live_index_spec by done. cbn.
  destruct (csid_index r !! c) as [i|] eqn:Hi.
  - destruct (wf_index r c i H Hi) as (s&Hs&Hcs&Hw&_).
    assert (find c r = Some s) as -> by (unfold find; by rewrite Hi).
    assert (held (drop_partial s) = 0) by (apply held_take; [apply Hw|done]).
    rewrite (discard_replaced r i s (aborted s)) by done. eexists. split; [done|]. split_and!.
    + apply wf_discarded; try done. by apply stream_wf_aborted.
    + intros c'. rewrite find_replaced by done. by rewrite Hcs.
    + simpl. change (held (aborted s)) with (held (drop_partial s)). lia.
    + simpl. unfold active at 2. simpl. lia.
  - assert (find c r = None) as Hf by (unfold find; by rewrite Hi). rewrite Hf.
    exists r. split_and!; try done; simpl; try lia.
    intros c'. case_bool_decide; by subst.
Qed.

(** C13. An Abort Message on a well-formed registry never panics and keeps the
    registry invariant.  It touches the addressed chunk stream only: the stream
    keeps its header-compression context, loses its partial message, stops
    counting as active, and gives its bytes back to the connection budget. *)
Theorem abort_stream_correct c r : wf r →
  ∃ r', abort_stream c r = Ok r' ∧ wf r'
    ∧ (∀ c', find c' r' = if bool_decide (c' = c) then aborted <$> find c r else find c' r)
    ∧ reassembly_bytes_in_use r' = reassembly_bytes_in_use r - default 0 (held <$> find c r)
    ∧ reassembling_count r' = reassembling_count r - default 0 (active <$> find c r).
Proof. apply abort_stream_spec. Qed.

Lemma abort_stream_correct_witness :
  let r := (get_or_create_index 3 new).2 in
  ∃ r', abort_stream 3 r = Ok r' ∧ wf r'
    ∧ find 3 r' = Some (aborted (ChunkStream.opened 3 128)).
Proof.
  intros r. assert (wf r) as Hr.
  { pose proof (get_or_create_index_spec 3 new registry_wf_new ltac:(done)) as H. apply H. }
  destruct (abort_stream_correct 3 r Hr) as (r'&E&W&F&_). exists r'. split; [done|].
  split; [done|]. rewrite F. by vm_compute.
Defined.

Lemma reset_stream_wf c r : wf r → ∃ r', reset_stream c r = Ok r' ∧ wf r'.
Proof.
  intros H. unfold reset_stream. rewrite live_index_spec by done. cbn.
  destruct (csid_index r !! c) as [i|] eqn:Hi; [|by eauto].
  destruct (wf_index r c i H Hi) as (s&Hs&Hcs&Hw&_).
  set (t := ChunkStream.reset (default_chunk_size r) s).
  assert (held t = 0) by (apply (held_take s (ChunkStream.reset _)); [apply Hw|done]).
  exists (replaced i s t r). split.
  - rewrite <- (discard_replaced r i s t (ChunkStream.reset (default_chunk_size r))) by done.
    unfold release_stream_reassembly, set_stream_reassembling, update_stream.
    rewrite Hs. cbn. rewrite Hs. cbn. by destruct (reassembling s).
  - apply wf_discarded; try done. by apply stream_wf_reset, H.
Qed.

Lemma wf_set_all_chunk_size n r : wf r → wf (set_all_chunk_size n r).
Proof.
  intros H. unfold set_all_chunk_size. zcase; [done|]. zcase; [done|]. simpl.
  set (g := λ s, _).
  assert (∀ s, csid (g s) = csid s ∧ held (g s) = held s ∧ active (g s) = active s) as Hg.
  { intros s. unfold g. by destruct (in_use s). }
  destruct H. constructor; simpl; try done.
  - intros c i (s&Hs&<-)%r_sound0. exists (g s). rewrite list_lookup_fmap, Hs.
    split; [done|apply Hg].
  - intros i s. rewrite list_lookup_fmap. intros (u&Hu&->)%fmap_Some.
    destruct (Hg u) as (->&_). by apply r_complete0.
  - apply Forall_fmap. eapply Forall_impl; [done|]. intros s Hw. unfold compose, g.
    destruct (in_use s); [|done]. destruct Hw. by constructor.
  - rewrite sumZ_fmap; [done|apply Hg].
  - rewrite sumZ_fmap; [done|apply Hg].
  - unfold zlen. by rewrite length_fmap.
Qed.

Lemma wf_destroy r : wf r → wf (destroy r).
Proof.
  intros []. pose proof (sumZ_nonneg held (streams r) (held_nonneg _)).
  pose proof (sumZ_nonneg active (streams r) (active_nonneg _)).
  constructor; simpl; try done; lia.
Qed.

Lemma wf_init r : wf r → wf (init r).
Proof. intros []. by constructor. Qed.

End Registry.
