(* ===== verification/Control.v ===== *)
(** Protocol control messages, src/message/control.rs: the payload encoders and
    decoders, the limits the decoders enforce on what a peer announces, and the
    round trips. *)
From S2P Require Import Prelude Bytes Buffer Source ChunkState.

Module Control.

Definition UCTRL_STREAM_BEGIN : Z := 0.
Definition UCTRL_STREAM_EOF : Z := 1.
Definition UCTRL_SET_BUFFER_LENGTH : Z := 3.
Definition UCTRL_PING_REQUEST : Z := 6.
Definition UCTRL_PING_RESPONSE : Z := 7.

Definition MIN_CHUNK_SIZE : Z := 128.
Definition MIN_WINDOW_ACK_SIZE : Z := 1024.

(** * Encoder *)

Definition write_set_chunk_size (chunk_size : Z) : ST Buffer unit := put (to_be_bytes32 chunk_size).

Definition write_abort_message (csid : Z) : ST Buffer unit := put (to_be_bytes32 csid).

Definition write_acknowledgement (sequence_number : Z) : ST Buffer unit :=
  put (to_be_bytes32 sequence_number).

Definition write_window_ack_size (window_size : Z) : ST Buffer unit :=
  put (to_be_bytes32 window_size).

Definition write_set_peer_bandwidth (window_size limit_type : Z) : ST Buffer unit :=
  put (to_be_bytes32 window_size);; put [limit_type].

Definition write_user_control_stream_begin (stream_id : Z) : ST Buffer unit :=
  put (to_be_bytes16 UCTRL_STREAM_BEGIN);; put (to_be_bytes32 stream_id).

Definition write_user_control_stream_eof (stream_id : Z) : ST Buffer unit :=
  put (to_be_bytes16 UCTRL_STREAM_EOF);; put (to_be_bytes32 stream_id).

Definition write_user_control_set_buffer_length (stream_id ms : Z) : ST Buffer unit :=
  put (to_be_bytes16 UCTRL_SET_BUFFER_LENGTH);; put (to_be_bytes32 stream_id);;
  put (to_be_bytes32 ms).

Definition write_user_control_ping_request (timestamp : Z) : ST Buffer unit :=
  put (to_be_bytes16 UCTRL_PING_REQUEST);; put (to_be_bytes32 timestamp).

Definition write_user_control_ping_response (timestamp : Z) : ST Buffer unit :=
  put (to_be_bytes16 UCTRL_PING_RESPONSE);; put (to_be_bytes32 timestamp).

(** * Decoder *)

Definition read_set_chunk_size (data : bytes) : Res Z :=
  if zlen data <? 4 then Err Protocol else
  cs ← ntoh32 data;
  if (cs <? MIN_CHUNK_SIZE) || negb (cs .& 2147483648 =? 0) then Err Protocol
  else Ok (Z.min cs MAX_PEER_CHUNK_SIZE).

Definition read_abort_message (data : bytes) : Res Z :=
  if zlen data <? 4 then Err Protocol else ntoh32 data.

Definition read_acknowledgement_size (data : bytes) : Res Z :=
  if zlen data <? 4 then Err Protocol else ntoh32 data.

Definition read_window_ack_size (data : bytes) : Res Z :=
  if zlen data <? 4 then Err Protocol else
  win ← ntoh32 data;
  if (0 <? win) && (win <? MIN_WINDOW_ACK_SIZE) then Err Protocol else Ok win.

Definition read_set_peer_bandwidth (data : bytes) : Res (Z * Z) :=
  if zlen data <? 5 then Err Protocol else
  w ← ntoh32 data; t ← zidx data 4; Ok (w, t).

Definition read_user_control (data : bytes) (param2 : bool) : Res (Z * Z * option Z) :=
  if zlen data <? 6 then Err Protocol else
  b0 ← zidx data 0; b1 ← zidx data 1;
  tail ← slice data 2 (zlen data);
  param1 ← ntoh32 tail;
  p2 ← (if param2 && (10 <=? zlen data)
        then tail ← slice data 6 (zlen data); v ← ntoh32 tail; Ok (Some v) else Ok None);
  Ok (u16_be b0 b1, param1, p2).

(** * Control messages as values *)

Inductive ctrl : Type :=
  | SetChunkSize (n : Z)
  | Abort (csid : Z)
  | Acknowledgement (n : Z)
  | WindowAckSize (n : Z)
  | SetPeerBandwidth (n limit : Z)
  | StreamBegin (sid : Z)
  | StreamEof (sid : Z)
  | SetBufferLength (sid ms : Z)
  | PingRequest (ts : Z)
  | PingResponse (ts : Z).

Definition write_ctrl (c : ctrl) : ST Buffer unit :=
  match c with
  | SetChunkSize n => write_set_chunk_size n
  | Abort csid => write_abort_message csid
  | Acknowledgement n => write_acknowledgement n
  | WindowAckSize n => write_window_ack_size n
  | SetPeerBandwidth n limit => write_set_peer_bandwidth n limit
  | StreamBegin sid => write_user_control_stream_begin sid
  | StreamEof sid => write_user_control_stream_eof sid
  | SetBufferLength sid ms => write_user_control_set_buffer_length sid ms
  | PingRequest ts => write_user_control_ping_request ts
  | PingResponse ts => write_user_control_ping_response ts
  end.

(** The decoder of the message type of [c] applied to [data]. *)
Definition read_ctrl (c : ctrl) (data : bytes) : Res ctrl :=
  match c with
  | SetChunkSize _ => n ← read_set_chunk_size data; Ok (SetChunkSize n)
  | Abort _ => n ← read_abort_message data; Ok (Abort n)
  | Acknowledgement _ => n ← read_acknowledgement_size data; Ok (Acknowledgement n)
  | WindowAckSize _ => n ← read_window_ack_size data; Ok (WindowAckSize n)
  | SetPeerBandwidth _ _ => '(n, l) ← read_set_peer_bandwidth data; Ok (SetPeerBandwidth n l)
  | _ =>
      '(event, p1, p2) ← read_user_control data (10 <=? zlen data);
      if event =? UCTRL_STREAM_BEGIN then Ok (StreamBegin p1)
      else if event =? UCTRL_STREAM_EOF then Ok (StreamEof p1)
      else if event =? UCTRL_PING_REQUEST then Ok (PingRequest p1)
      else if event =? UCTRL_PING_RESPONSE then Ok (PingResponse p1)
      else match p2 with
           | Some ms => if event =? UCTRL_SET_BUFFER_LENGTH then Ok (SetBufferLength p1 ms)
                        else Err Protocol
           | None => Err Protocol
           end
  end.

(** What a receiver makes of [c]: the announced sizes are clamped or refused. *)
Definition admitted (c : ctrl) : Res ctrl :=
  match c with
  | SetChunkSize n =>
      if (MIN_CHUNK_SIZE <=? n) && (n <? 2147483648)
      then Ok (SetChunkSize (Z.min n 16777215)) else Err Protocol
  | WindowAckSize n =>
      if (n =? 0) || (MIN_WINDOW_ACK_SIZE <=? n) then Ok c else Err Protocol
  | _ => Ok c
  end.

Definition ctrl_bytes (c : ctrl) : bytes :=
  match c with
  | SetChunkSize n | Abort n | Acknowledgement n | WindowAckSize n => to_be_bytes32 n
  | SetPeerBandwidth n limit => to_be_bytes32 n ++ [limit]
  | StreamBegin sid => [0; 0] ++ to_be_bytes32 sid
  | StreamEof sid => [0; 1] ++ to_be_bytes32 sid
  | SetBufferLength sid ms => [0; 3] ++ to_be_bytes32 sid ++ to_be_bytes32 ms
  | PingRequest ts => [0; 6] ++ to_be_bytes32 ts
  | PingResponse ts => [0; 7] ++ to_be_bytes32 ts
  end.

Definition ctrl_ok (c : ctrl) : Prop :=
  match c with
  | SetChunkSize n | Abort n | Acknowledgement n | WindowAckSize n
  | StreamBegin n | StreamEof n | PingRequest n | PingResponse n => is_u32 n
  | SetPeerBandwidth n limit => is_u32 n ∧ is_u8 limit
  | SetBufferLength sid ms => is_u32 sid ∧ is_u32 ms
  end.

Lemma emits_ctrl c : emits (write_ctrl c) (ctrl_bytes c).
Proof. destruct c; repeat apply emits_bind; apply emits_put. Qed.

(** Bit 31 of a [u32]. *)
Lemma top_bit n : is_u32 n → (n .& 2147483648 =? 0) = (n <? 2147483648).
Proof. intros Hn. apply (land_pow2_zero n 31); ulia. Qed.

Lemma read_chunk_size_val n r : is_u32 n →
  read_set_chunk_size (to_be_bytes32 n ++ r)
  = if (MIN_CHUNK_SIZE <=? n) && (n <? 2147483648) then Ok (Z.min n 16777215) else Err Protocol.
Proof.
  intros Hn. unfold read_set_chunk_size.
  rewrite (proj2 (Z.ltb_ge _ _)) by (rewrite zlen_app; change (zlen (to_be_bytes32 n)) with 4; zlia).
  rewrite ntoh32_to_be by done. cbn [mbind Res_bind]. rewrite top_bit by done.
  rewrite Z.ltb_antisym. by destruct (MIN_CHUNK_SIZE <=? n), (n <? 2147483648).
Qed.

(** The decoders on the bytes of a message, before the word is put together. *)
Definition word (n : Z) : Z :=
  from_be_bytes32 (as_u8 (n >> 24)) (as_u8 (n >> 16)) (as_u8 (n >> 8)) (as_u8 n).

Lemma read_ctrl_words c :
  match c with SetChunkSize _ | WindowAckSize _ => True | _ =>
    read_ctrl c (ctrl_bytes c) = Ok match c with
      | Abort n => Abort (word n)
      | Acknowledgement n => Acknowledgement (word n)
      | SetPeerBandwidth n l => SetPeerBandwidth (word n) l
      | StreamBegin n => StreamBegin (word n)
      | StreamEof n => StreamEof (word n)
      | SetBufferLength n ms => SetBufferLength (word n) (word ms)
      | PingRequest n => PingRequest (word n)
      | PingResponse n => PingResponse (word n)
      | _ => c
      end
  end.
Proof. by destruct c. Qed.

(** C19. Control messages: what one peer writes, the other reads as the same
    message, except that an announced chunk size is clamped to [0xFFFFFF] and
    refused below 128 or with its reserved bit set, and a non-zero window
    below 1024 is refused. *)
Theorem control_roundtrip c b : ctrl_ok c → Buffer.wf b → Buffer.contents b = [] →
  10 ≤ Buffer.limit b →
  ∃ b', write_ctrl c b = (Ok tt, b') ∧ read_ctrl c (Buffer.contents b') = admitted c.
Proof.
  intros Hc Hb He Hl. destruct (emits_ctrl c b Hb) as (b'&E&_&C&_).
  { rewrite He. destruct c; change (zlen []) with 0; cbn; unfold zlen; simpl; lia. }
  exists b'. split; [done|]. rewrite C, He. simpl app. clear E C He Hl.
  pose proof (read_ctrl_words c) as Hw. destruct c; cbv beta iota in Hw;
    try (rewrite Hw; cbn [admitted]; unfold word; by rewrite !be32_roundtrip by apply Hc);
    cbn [read_ctrl ctrl_bytes admitted].
  - pose proof (read_chunk_size_val n [] Hc) as E. rewrite app_nil_r in E. rewrite E. by case_match.
  - unfold read_window_ack_size. change (zlen _ <? 4) with false. cbv iota.
    pose proof (ntoh32_to_be n [] Hc) as E. rewrite app_nil_r in E. rewrite E.
    cbn [mbind Res_bind]. unfold ctrl_ok in Hc.
    destruct (Z.ltb_spec 0 n), (Z.ltb_spec n MIN_WINDOW_ACK_SIZE), (Z.eqb_spec n 0),
      (Z.leb_spec MIN_WINDOW_ACK_SIZE n); simpl; (done || ulia).
Qed.

Lemma control_roundtrip_witness :
  ∃ b', write_ctrl (SetChunkSize 33554432) Buffer.new = (Ok tt, b')
    ∧ read_ctrl (SetChunkSize 33554432) (Buffer.contents b') = Ok (SetChunkSize 16777215).
Proof.
  apply (control_roundtrip (SetChunkSize 33554432) Buffer.new);
    [change (is_u32 33554432); ulia|apply Buffer.wf_new|done|by vm_compute].
Defined.

(** Every Set Chunk Size payload is accepted or rejected as [Protocol], and
    an accepted chunk size is always one the chunk registry applies: it becomes
    the default and the size of every stream in use, so reader and peer agree. *)
Theorem set_chunk_size_applied data r : bytes_ok data → Registry.wf r →
  match read_set_chunk_size data with
  | Ok n => 128 ≤ n ≤ 16777215
      ∧ default_chunk_size (Registry.set_all_chunk_size n r) = n
      ∧ Forall (λ s, in_use s = true → chunk_size s = n) (streams (Registry.set_all_chunk_size n r))
      ∧ Registry.wf (Registry.set_all_chunk_size n r)
  | Err e => e = Protocol
  | Panic => False
  end.
Proof.
  intros Hd Hr. unfold read_set_chunk_size. destruct (Z.ltb_spec (zlen data) 4); [done|].
  destruct (ntoh32_ok data Hd ltac:(lia)) as (v&->&Hv). cbn [mbind Res_bind].
  rewrite top_bit by done. destruct (Z.ltb_spec v MIN_CHUNK_SIZE); [done|].
  destruct (Z.ltb_spec v 2147483648); simpl; [|done].
  unfold MIN_CHUNK_SIZE, MAX_PEER_CHUNK_SIZE in *. split; [lia|].
  split_and!; [| |by apply Registry.wf_set_all_chunk_size]; unfold Registry.set_all_chunk_size,
    DEFAULT_CHUNK_SIZE, MAX_PEER_CHUNK_SIZE;
    rewrite (proj2 (Z.ltb_ge _ _)), (proj2 (Z.ltb_ge _ _)) by lia; simpl; [done|].
  apply Forall_fmap, Forall_true. intros s Hs. simpl in Hs |- *. destruct (in_use s) eqn:E; [done|congruence].
Qed.

Lemma set_chunk_size_applied_witness :
  default_chunk_size (Registry.set_all_chunk_size 256 Registry.new) = 256.
Proof.
  pose proof (set_chunk_size_applied [0; 0; 1; 0] Registry.new ltac:(repeat constructor; ulia)
    Registry.registry_wf_new) as H.
  vm_compute in H. apply H.
Defined.
End Control.
