(* ===== verification/ChunkWriter.v ===== *)
(** The chunk writer, src/chunk/writer.rs: header construction in fixed arrays,
    payload fragmentation, and the exact bytes a message becomes on the wire. *)
From S2P Require Import Prelude Bytes Buffer Source ChunkState.

(** [ChunkMessage] of src/chunk/reader.rs. *)
Record ChunkMessage : Type := mkMsg {
  m_csid : Z;
  fmt : Z;
  timestamp : Z;
  msg_length : Z;
  msg_type_id : Z;
  msg_stream_id : Z;
  is_complete : bool;
}.

Definition EXTENDED_TIMESTAMP_MARKER : Z := 16777215.
Definition RTMP_MAX_CSID : Z := 65599.
Definition RTMP_MIN_CSID : Z := 2.

Module Writer.

(** The three-byte array and the number of its leading valid bytes. *)
Definition basic_header (csid fmt : Z) : bytes * Z :=
  if csid <? 64 then ([as_u8 (Z.shiftl fmt 6) .| as_u8 csid; 0; 0], 1)
  else if csid <? 320 then ([as_u8 (Z.shiftl fmt 6); as_u8 (csid - 64); 0], 2)
  else ([as_u8 (Z.shiftl fmt 6) .| 1;
         as_u8 ((csid - 64) .& 255);
         as_u8 (((csid - 64) >> 8) .& 255)], 3).

Definition first_header_len (csid fmt ts_field : Z) : Z :=
  let '(_, basic_len) := basic_header csid fmt in
  let msg_hdr := if fmt =? 0 then 11 else if fmt =? 1 then 7 else if fmt =? 2 then 3 else 0 in
  let ext := if (fmt <? 3) && (EXTENDED_TIMESTAMP_MARKER <=? ts_field) then 4 else 0 in
  basic_len + msg_hdr + ext.

(** The stack array of [write_first_header], filled field by field, with the
    running offset [n]. *)
Definition fill_first_header (csid fmt ts_field msg_length msg_type_id msg_stream_id : Z)
    : Res (bytes * Z) :=
  let ext_ts := EXTENDED_TIMESTAMP_MARKER <=? ts_field in
  let hdr := zrepeat 0 (3 + 11 + 4) in
  let '(basic, basic_len) := basic_header csid fmt in
  b ← slice basic 0 basic_len;
  hdr ← copy_at hdr 0 b;
  let n := basic_len in
  let field := hton24_bytes (if ext_ts then EXTENDED_TIMESTAMP_MARKER else ts_field) in
  hdr ← copy_at hdr n field;
  let n := n + 3 in
  '(hdr, n) ← (if fmt <=? 1 then
                 hdr ← copy_at hdr n (hton24_bytes msg_length);
                 hdr ← copy_at hdr (n + 3) [msg_type_id];
                 Ok (hdr, n + 3 + 1)
               else Ok (hdr, n));
  '(hdr, n) ← (if fmt =? 0 then
                 hdr ← copy_at hdr n (to_le_bytes32 msg_stream_id);
                 Ok (hdr, n + 4)
               else Ok (hdr, n));
  if ext_ts then
    hdr ← copy_at hdr n (to_be_bytes32 ts_field);
    Ok (hdr, n + 4)
  else Ok (hdr, n).

Definition write_first_header (csid fmt ts_field msg_length msg_type_id msg_stream_id : Z)
    : ST Buffer unit :=
  guard_st (2 <? fmt) Internal;;
  guard_st (RTMP_MAX_CSID <? csid) Chunk;;
  guard_st (csid <? RTMP_MIN_CSID) Chunk;;
  '(hdr, n) ← lift (fill_first_header csid fmt ts_field msg_length msg_type_id msg_stream_id);
  d ← lift (slice hdr 0 n);
  map_err Internal (Buffer.write d);;
  mret tt.

Definition eff_chunk_size (chunk_size : Z) : Z := if chunk_size =? 0 then 128 else chunk_size.

Definition chunk_body_len (csid payload_len chunk_size : Z) (ext_ts : bool) : Z :=
  let chunk_size := eff_chunk_size chunk_size in
  let '(_, cont_len) := basic_header csid 3 in
  let continuation_chunks := saturating_sub payload_len 1 / chunk_size in
  payload_len + continuation_chunks * (cont_len + if ext_ts then 4 else 0).

(** [slice::chunks(n)], the pieces of at most [n] bytes; one per byte suffices
    as fuel because every piece is non-empty. *)
Fixpoint chunks_fuel (fuel : nat) (n : Z) (l : bytes) : list bytes :=
  match fuel, l with
  | S fuel, _ :: _ => ztake n l :: chunks_fuel fuel n (zdrop n l)
  | _, _ => []
  end.
Definition chunks (n : Z) (l : bytes) : list bytes := chunks_fuel (length l) n l.

(** The continuation header: basic header with fmt=3, then the repeated
    extended timestamp. *)
Definition fill_cont_header (csid : Z) (ext_ts : option Z) : Res (bytes * Z) :=
  let chdr := zrepeat 0 (3 + 4) in
  let '(cont, cont_len) := basic_header csid 3 in
  b ← slice cont 0 cont_len;
  chdr ← copy_at chdr 0 b;
  match ext_ts with
  | Some ts => chdr ← copy_at chdr cont_len (to_be_bytes32 ts); Ok (chdr, cont_len + 4)
  | None => Ok (chdr, cont_len)
  end.

(** The loop of [write_chunk_body] over the peekable pieces. *)
Fixpoint write_pieces (chdr : bytes) (ps : list bytes) : ST Buffer unit :=
  match ps with
  | [] => mret tt
  | p :: ps =>
      map_err Internal (Buffer.write p);;
      (match ps with [] => mret tt | _ => map_err Internal (Buffer.write chdr);; mret tt end);;
      write_pieces chdr ps
  end.

Definition write_chunk_body (csid : Z) (payload : bytes) (chunk_size : Z) (ext_ts : option Z)
    : ST Buffer unit :=
  guard_st (RTMP_MAX_CSID <? csid) Chunk;;
  guard_st (csid <? RTMP_MIN_CSID) Chunk;;
  let chunk_size := eff_chunk_size chunk_size in
  map_err Internal (Buffer.reserve
    (chunk_body_len csid (zlen payload) chunk_size (bool_decide (is_Some ext_ts))));;
  '(chdr, chdr_len) ← lift (fill_cont_header csid ext_ts);
  h ← lift (slice chdr 0 chdr_len);
  write_pieces h (chunks chunk_size payload).

(** [chunk_write]; its self-call with 128 for a zero chunk size is the first
    line. *)
Definition chunk_write (msg : ChunkMessage) (payload : bytes) (payload_len chunk_size : Z)
    : ST Buffer unit :=
  let chunk_size := eff_chunk_size chunk_size in
  guard_st (RTMP_MAX_CSID <? m_csid msg) Chunk;;
  guard_st (m_csid msg <? RTMP_MIN_CSID) Chunk;;
  guard_st (negb (fmt msg =? 0)) Internal;;
  guard_st (RTMP_WIRE_MAX_MSG_LENGTH <? msg_length msg) Internal;;
  guard_st (negb (payload_len =? msg_length msg)) Internal;;
  guard_st (zlen payload <? payload_len) Internal;;
  let ext_ts := EXTENDED_TIMESTAMP_MARKER <=? timestamp msg in
  map_err Internal (Buffer.reserve
    (first_header_len (m_csid msg) 0 (timestamp msg)
     + chunk_body_len (m_csid msg) payload_len chunk_size ext_ts));;
  write_first_header (m_csid msg) 0 (timestamp msg) (msg_length msg) (msg_type_id msg)
    (msg_stream_id msg);;
  body ← lift (slice payload 0 payload_len);
  write_chunk_body (m_csid msg) body chunk_size
    (if ext_ts then Some (timestamp msg) else None).

(** [3u8 << 6 | 2] and the timestamp. *)
Definition chunk_write_extended_timestamp (timestamp : Z) : ST Buffer unit :=
  map_err Internal (Buffer.write [as_u8 (Z.shiftl 3 6) .| 2]);;
  map_err Internal (Buffer.write (to_be_bytes32 timestamp));;
  mret tt.

(** * The wire format *)

Definition basic_bytes (csid fmt : Z) : bytes :=
  if csid <? 64 then [fmt * 64 + csid]
  else if csid <? 320 then [fmt * 64; csid - 64]
  else [fmt * 64 + 1; (csid - 64) mod 256; (csid - 64) / 256].

(** The fields of a first-chunk header as the protocol orders them. *)
Definition header_bytes (csid fmt ts len ty sid : Z) : bytes :=
  basic_bytes csid fmt
  ++ hton24_bytes (Z.min ts EXTENDED_TIMESTAMP_MARKER)
  ++ (if fmt <=? 1 then hton24_bytes len ++ [ty] else [])
  ++ (if fmt =? 0 then to_le_bytes32 sid else [])
  ++ (if EXTENDED_TIMESTAMP_MARKER <=? ts then to_be_bytes32 ts else []).

Definition cont_bytes (csid : Z) (ext_ts : option Z) : bytes :=
  basic_bytes csid 3 ++ match ext_ts with Some ts => to_be_bytes32 ts | None => [] end.

(** Pieces separated by the continuation header. *)
Fixpoint joined (sep : bytes) (ps : list bytes) : bytes :=
  match ps with
  | [] => []
  | [p] => p
  | p :: ps => p ++ sep ++ joined sep ps
  end.

Definition body_bytes (csid : Z) (payload : bytes) (chunk_size : Z) (ext_ts : option Z) : bytes :=
  joined (cont_bytes csid ext_ts) (chunks (eff_chunk_size chunk_size) payload).

Definition ext_field (ts : Z) : option Z :=
  if EXTENDED_TIMESTAMP_MARKER <=? ts then Some ts else None.

Definition message_bytes (msg : ChunkMessage) (payload : bytes) (chunk_size : Z) : bytes :=
  header_bytes (m_csid msg) 0 (timestamp msg) (msg_length msg) (msg_type_id msg)
    (msg_stream_id msg)
  ++ body_bytes (m_csid msg) payload chunk_size (ext_field (timestamp msg)).

(** * The header arrays hold the wire format *)

Definition csid_ok (csid : Z) : Prop := RTMP_MIN_CSID ≤ csid ≤ RTMP_MAX_CSID.

Lemma basic_header_spec csid fmt : csid_ok csid → 0 ≤ fmt ≤ 3 →
  (basic_header csid fmt).2 = zlen (basic_bytes csid fmt)
  ∧ slice (basic_header csid fmt).1 0 (basic_header csid fmt).2 = Ok (basic_bytes csid fmt)
  ∧ 1 ≤ zlen (basic_bytes csid fmt) ≤ 3.
Proof.
  unfold csid_ok, RTMP_MIN_CSID, RTMP_MAX_CSID. intros Hc Hf.
  assert (as_u8 (Z.shiftl fmt 6) = Z.shiftl fmt 6) as E.
  { apply as_u8_id. rewrite Z.shiftl_mul_pow2 by lia. ulia. }
  unfold basic_header, basic_bytes. rewrite !E. zcases; (split_and!; [done| |done..]).
  - rewrite as_u8_id by ulia. by rewrite lor_shiftl_add by lia.
  - rewrite Z.shiftl_mul_pow2, as_u8_id by ulia. done.
  - rewrite lor_shiftl_add by lia. rewrite !land_255, shiftr_div by lia.
    unfold as_u8. rewrite !Zmod_mod. rewrite (Z.mod_small (_ / _)) by divlia. done.
Qed.

Lemma bytes_ok_basic csid fmt : csid_ok csid → 0 ≤ fmt ≤ 3 → bytes_ok (basic_bytes csid fmt).
Proof.
  unfold csid_ok, RTMP_MIN_CSID, RTMP_MAX_CSID, basic_bytes. intros.
  zcases; repeat constructor; udivlia.
Qed.

(** Writing at the end of the filled prefix extends it. *)
Lemma copy_at_prefix (h pre d : bytes) n : ztake n h = pre → zlen pre = n →
  n + zlen d ≤ zlen h →
  ∃ h', copy_at h n d = Ok h' ∧ zlen h' = zlen h ∧ ztake (n + zlen d) h' = pre ++ d.
Proof.
  intros Hp Hn Hle. assert (0 ≤ n) by zlia.
  rewrite copy_at_ok by lia. eexists. split; [done|]. split; [zlia|].
  rewrite app_assoc, Hp. replace (n + zlen d) with (zlen (pre ++ d)) by zlia.
  apply ztake_app_exact.
Qed.

Lemma prefix_done (h pre : bytes) n : ztake n h = pre → zlen pre = n → n ≤ zlen h →
  ∃ hdr, Ok (h, n) = Ok (hdr, zlen pre) ∧ slice hdr 0 (zlen pre) = Ok pre.
Proof.
  intros Hp Hn Hle. exists h. rewrite Hn. split; [done|].
  rewrite slice_ok by zlia. by rewrite Z.sub_0_r, zdrop_nonpos, Hp by lia.
Qed.

(** One field of the array: use [copy_at_prefix] and name the new array. *)
Ltac fill_field H :=
  let h := fresh "h" in let E := fresh "E" in let L := fresh "L" in
  let Q := fresh "Q" in
  match type of H with
  | ztake ?n ?a = ?pre =>
      match goal with |- context [copy_at a ?m ?d] =>
        destruct (copy_at_prefix a pre d m H) as (h&E&L&Q);
        [zlia|zlia|rewrite E; cbn [mbind Res_bind]; clear E H; rename Q into H]
      end
  end.

Lemma fill_first_header_spec csid fmt ts len ty sid :
  csid_ok csid → 0 ≤ fmt ≤ 2 →
  ∃ hdr, fill_first_header csid fmt ts len ty sid
         = Ok (hdr, zlen (header_bytes csid fmt ts len ty sid))
    ∧ slice hdr 0 (zlen (header_bytes csid fmt ts len ty sid))
      = Ok (header_bytes csid fmt ts len ty sid).
Proof.
  intros Hc Hf. destruct (basic_header_spec csid fmt Hc ltac:(lia)) as (Hl&Hs&Hb).
  unfold fill_first_header. destruct (basic_header csid fmt) as [basic bl]. simpl in Hl, Hs.
  rewrite Hs. cbn [mbind Res_bind]. subst bl. unfold header_bytes.
  set (ext := EXTENDED_TIMESTAMP_MARKER <=? ts).
  replace (Z.min ts EXTENDED_TIMESTAMP_MARKER)
    with (if ext then EXTENDED_TIMESTAMP_MARKER else ts) by (unfold ext; zcases; lia).
  set (f := hton24_bytes (if ext then _ else _)).
  assert (zlen f = 3) by done.
  destruct (copy_at_prefix (zrepeat 0 (3 + 11 + 4)) [] (basic_bytes csid fmt) 0)
    as (h0&->&L0&P); [done..|zlia|]. cbn [mbind Res_bind]. rewrite Z.add_0_l in P.
  rewrite zlen_zrepeat in L0. simpl in P.
  fill_field P.
  destruct (Z.leb_spec fmt 1); [fill_field P; fill_field P|]; cbn [mbind Res_bind];
  (destruct (Z.eqb_spec fmt 0); [try lia; fill_field P|]); cbn [mbind Res_bind];
  (destruct ext; [fill_field P|]).
  all: rewrite <- ?app_assoc, ?app_nil_l, ?app_nil_r; rewrite <- ?app_assoc in P.
  all: apply (prefix_done _ _ _ P); zlia.
Qed.

Lemma fill_cont_header_spec csid ext_ts : csid_ok csid →
  ∃ hdr, fill_cont_header csid ext_ts = Ok (hdr, zlen (cont_bytes csid ext_ts))
    ∧ slice hdr 0 (zlen (cont_bytes csid ext_ts)) = Ok (cont_bytes csid ext_ts).
Proof.
  intros Hc. destruct (basic_header_spec csid 3 Hc ltac:(lia)) as (Hl&Hs&Hb).
  unfold fill_cont_header. destruct (basic_header csid 3) as [basic bl]. simpl in Hl, Hs.
  rewrite Hs. cbn [mbind Res_bind]. subst bl. unfold cont_bytes.
  destruct (copy_at_prefix (zrepeat 0 (3 + 4)) [] (basic_bytes csid 3) 0)
    as (h0&->&L0&P); [done..|zlia|]. cbn [mbind Res_bind]. rewrite Z.add_0_l in P.
  rewrite zlen_zrepeat in L0. simpl in P.
  destruct ext_ts; [fill_field P|rewrite app_nil_r]; apply (prefix_done _ _ _ P); zlia.
Qed.

(** * Fragmentation *)

Lemma chunks_fuel_enough f g n l : 0 < n → (length l ≤ f)%nat → (length l ≤ g)%nat →
  chunks_fuel f n l = chunks_fuel g n l.
Proof.
  intros Hn. revert g l. induction f as [|f IH]; intros [|g] [|x l] Hf Hg; simpl in *; try lia;
    try done.
  assert (length (zdrop n (x :: l)) ≤ length l)%nat.
  { unfold zdrop. rewrite length_drop. simpl. lia. }
  f_equal. apply IH; lia.
Qed.

Lemma chunks_nil n : chunks n [] = [].
Proof. done. Qed.

Lemma chunks_cons n l : 0 < n → l ≠ [] →
  chunks n l = ztake n l :: chunks n (zdrop n l).
Proof.
  intros Hn Hl. unfold chunks. destruct l as [|x l]; [done|]. simpl length. simpl.
  f_equal. apply chunks_fuel_enough; try done; unfold zdrop; rewrite length_drop; simpl; lia.
Qed.

Lemma chunks_nil_inv n l : 0 < n → chunks n l = [] → l = [].
Proof. intros Hn H. destruct l; [done|]. by rewrite chunks_cons in H. Qed.

(** Cutting [k] bytes at a time off a slice of [l]. *)
Lemma chunks_ind (n : Z) (P : bytes → Prop) : 0 < n →
  P [] → (∀ l, l ≠ [] → P (zdrop n l) → P l) → ∀ l, P l.
Proof.
  intros Hn H0 HS l. remember (length l) as k eqn:Hk.
  revert l Hk. induction (lt_wf k) as [k _ IH]. intros l ->.
  destruct l as [|x l]; [done|]. apply HS; [done|]. eapply IH; [|done].
  unfold zdrop. rewrite length_drop. simpl. lia.
Qed.

Lemma chunks_concat n l : 0 < n → concat (chunks n l) = l.
Proof.
  intros Hn. revert l. refine (chunks_ind n _ Hn _ _); [done|]. intros l Hl IH.
  rewrite chunks_cons by done. simpl. rewrite IH. apply ztake_zdrop_app.
Qed.

(** A payload that needs more than one chunk, unfolded once. *)
Lemma joined_chunks sep n l : 0 < n → l ≠ [] →
  joined sep (chunks n l)
  = ztake n l ++ (if zlen l <=? n then [] else sep ++ joined sep (chunks n (zdrop n l))).
Proof.
  intros Hn Hl. rewrite chunks_cons by done. simpl.
  destruct (Z.leb_spec (zlen l) n).
  - rewrite zdrop_all, chunks_nil, app_nil_r by lia. done.
  - destruct (chunks n (zdrop n l)) eqn:E; [|done].
    apply chunks_nil_inv in E; [|done]. apply (f_equal zlen) in E. zlia.
Qed.

(** The predicted size is the encoded size. *)
Lemma zlen_joined sep n l : 0 < n →
  zlen (joined sep (chunks n l)) = zlen l + saturating_sub (zlen l) 1 / n * zlen sep.
Proof.
  intros Hn. revert l. refine (chunks_ind n _ Hn _ _); [done|]. intros l Hl IH.
  assert (0 < zlen l) by (destruct l; [done|]; zlia).
  rewrite joined_chunks by done. unfold saturating_sub in *.
  destruct (Z.leb_spec (zlen l) n).
  - rewrite (Z.div_small (_ `max` _)) by lia. zlia.
  - rewrite !zlen_app, IH. autorewrite with zlen.
    replace (0 `max` (zlen l - 1)) with (0 `max` (0 `max` (zlen l - 0 `max` n) - 1) + 1 * n)
      by lia.
    rewrite Z.div_add by lia. lia.
Qed.

Lemma eff_chunk_size_pos cs : 0 ≤ cs → 0 < eff_chunk_size cs.
Proof. unfold eff_chunk_size. zcases; lia. Qed.

Lemma eff_chunk_size_idem cs : eff_chunk_size (eff_chunk_size cs) = eff_chunk_size cs.
Proof. unfold eff_chunk_size. repeat zcase; congruence || lia. Qed.

Lemma body_bytes_eff csid payload cs ext :
  body_bytes csid payload (eff_chunk_size cs) ext = body_bytes csid payload cs ext.
Proof. unfold body_bytes. by rewrite eff_chunk_size_idem. Qed.

Lemma zlen_header_bytes csid fmt ts len ty sid : csid_ok csid → 0 ≤ fmt ≤ 2 →
  zlen (header_bytes csid fmt ts len ty sid) = first_header_len csid fmt ts.
Proof.
  intros Hc Hf. destruct (basic_header_spec csid fmt Hc ltac:(lia)) as (Hl&_).
  unfold first_header_len, header_bytes. destruct (basic_header csid fmt) as [basic bl].
  simpl in Hl. subst bl. zcases; zlia.
Qed.

Lemma zlen_body_bytes csid payload cs ext : csid_ok csid → 0 ≤ cs →
  zlen (body_bytes csid payload cs ext)
  = chunk_body_len csid (zlen payload) cs (bool_decide (is_Some ext)).
Proof.
  intros Hc Hs. destruct (basic_header_spec csid 3 Hc ltac:(lia)) as (Hl&_).
  unfold body_bytes, chunk_body_len. rewrite zlen_joined by (by apply eff_chunk_size_pos).
  destruct (basic_header csid 3) as [basic bl]. simpl in Hl. subst bl. unfold cont_bytes.
  rewrite zlen_app. by destruct ext.
Qed.

(** * Effects on the output buffer *)

Lemma emits_write_pieces h ps : emits (write_pieces h ps) (joined h ps).
Proof.
  induction ps as [|p ps IH]; [apply emits_nil|]. simpl.
  pose proof (emits_write p) as Hp.
  eapply (emits_ext _ ((map_err Internal (Buffer.write p);; mret tt);;
    (match ps with [] => mret tt | _ => map_err Internal (Buffer.write h);; mret tt end);;
    write_pieces h ps)).
  { intros b. unfold mbind, ST_bind. by destruct (map_err _ _ b) as [[?|?|] ?]. }
  destruct ps as [|q ps].
  - pose proof (emits_bind _ _ _ _ Hp (emits_bind _ _ _ _ emits_nil emits_nil)) as H.
    by rewrite !app_nil_r in H.
  - apply emits_bind; [done|]. apply emits_bind; [apply emits_write|exact IH].
Qed.

Lemma emits_first_header csid fmt ts len ty sid : csid_ok csid → 0 ≤ fmt ≤ 2 →
  emits (write_first_header csid fmt ts len ty sid) (header_bytes csid fmt ts len ty sid).
Proof.
  intros Hc Hf. destruct (fill_first_header_spec csid fmt ts len ty sid Hc Hf) as (hdr&E&Es).
  unfold write_first_header. unfold csid_ok in Hc.
  do 3 (apply emits_guard; [zcases; done|]).
  eapply emits_lift; [exact E|]. eapply emits_lift; [exact Es|]. apply emits_write.
Qed.

Lemma emits_chunk_body csid payload cs ext : csid_ok csid → 0 ≤ cs →
  emits (write_chunk_body csid payload cs ext) (body_bytes csid payload cs ext).
Proof.
  intros Hc Hs. destruct (fill_cont_header_spec csid ext Hc) as (hdr&E&Es).
  unfold write_chunk_body. pose proof Hc as Hc'. unfold csid_ok in Hc'.
  do 2 (apply emits_guard; [zcases; done|]).
  apply emits_reserve.
  { rewrite zlen_body_bytes by done. unfold chunk_body_len. by rewrite eff_chunk_size_idem. }
  eapply emits_lift; [exact E|]. eapply emits_lift; [exact Es|]. apply emits_write_pieces.
Qed.

(** A successful [write_chunk_body] appended exactly the chunked payload. *)
Lemma write_chunk_body_ok csid payload cs ext b b' : csid_ok csid → 0 ≤ cs → Buffer.wf b →
  write_chunk_body csid payload cs ext b = (Ok tt, b') →
  Buffer.contents b' = Buffer.contents b ++ body_bytes csid payload cs ext.
Proof.
  intros Hc Hs Hb E. destruct (Z.leb_spec (zlen (Buffer.contents b)
    + zlen (body_bytes csid payload cs ext)) (Buffer.limit b)) as [Hf|Hf].
  - destruct (emits_chunk_body csid payload cs ext Hc Hs b Hb Hf) as (b1&E1&_&C1&_). congruence.
  - exfalso. unfold write_chunk_body in E. unfold csid_ok in Hc.
    apply bind_inv in E as ([]&s1&E1&E). apply bind_inv in E as ([]&s2&E2&E).
    rewrite (proj2 (Z.ltb_ge _ _)) in E1 by lia. rewrite (proj2 (Z.ltb_ge _ _)) in E2 by lia.
    injection E1 as <-. injection E2 as <-. apply bind_inv in E as ([]&s3&E3%map_err_inv&_).
    destruct (Buffer.make_room_spec (zlen (body_bytes csid payload cs ext)) b Hb ltac:(zlia))
      as (b1&_&H).
    rewrite Buffer.available_contents, (proj2 (Z.leb_gt _ _) Hf) in H by done.
    rewrite zlen_body_bytes in H by done. unfold Buffer.reserve, chunk_body_len in *.
    rewrite eff_chunk_size_idem in E3. congruence.
Qed.

(** Why [chunk_write] refuses a message, if it does. *)
Definition refusal (msg : ChunkMessage) (payload : bytes) (payload_len : Z) : option ErrorCode :=
  if (RTMP_MAX_CSID <? m_csid msg) || (m_csid msg <? RTMP_MIN_CSID) then Some Chunk
  else if negb (fmt msg =? 0) || (RTMP_WIRE_MAX_MSG_LENGTH <? msg_length msg)
       || negb (payload_len =? msg_length msg) || (zlen payload <? payload_len)
  then Some Internal else None.

Lemma zlen_message_bytes msg payload cs : csid_ok (m_csid msg) → 0 ≤ cs →
  zlen (message_bytes msg payload cs)
  = first_header_len (m_csid msg) 0 (timestamp msg)
    + chunk_body_len (m_csid msg) (zlen payload) (eff_chunk_size cs)
        (EXTENDED_TIMESTAMP_MARKER <=? timestamp msg).
Proof.
  intros Hc Hs. unfold message_bytes. rewrite zlen_app, zlen_header_bytes by done.
  rewrite zlen_body_bytes by done. unfold chunk_body_len. rewrite eff_chunk_size_idem.
  unfold ext_field. by destruct (_ <=? timestamp msg).
Qed.

(** The complete behaviour of [chunk_write]. *)
Lemma chunk_write_spec msg payload plen cs b :
  Buffer.wf b → 0 ≤ cs → 0 ≤ plen →
  ∃ b', Buffer.wf b' ∧ Buffer.limit b' = Buffer.limit b ∧
    match refusal msg payload plen with
    | Some e => chunk_write msg payload plen cs b = (Err e, b') ∧ b' = b
    | None =>
        let d := message_bytes msg (ztake plen payload) cs in
        if zlen (Buffer.contents b) + zlen d <=? Buffer.limit b
        then chunk_write msg payload plen cs b = (Ok tt, b')
             ∧ Buffer.contents b' = Buffer.contents b ++ d
        else chunk_write msg payload plen cs b = (Err Internal, b')
             ∧ Buffer.contents b' = Buffer.contents b
    end.
Proof.
  intros Hb Hs Hp. unfold refusal, chunk_write.
  destruct (RTMP_MAX_CSID <? m_csid msg) eqn:G1; [by exists b|].
  destruct (m_csid msg <? RTMP_MIN_CSID) eqn:G2; [by exists b|].
  destruct (negb (fmt msg =? 0)) eqn:G3; [by exists b|].
  destruct (RTMP_WIRE_MAX_MSG_LENGTH <? msg_length msg) eqn:G4; [by exists b|].
  destruct (negb (plen =? msg_length msg)) eqn:G5; [by exists b|].
  destruct (zlen payload <? plen) eqn:G6; [by exists b|].
  cbn [orb]. apply Z.ltb_ge in G1, G2, G4, G6. set (d := message_bytes _ _ _). cbv zeta.
  assert (csid_ok (m_csid msg)) as Hc by done.
  assert (zlen (ztake plen payload) = plen) as Hlen by zlia.
  assert (first_header_len (m_csid msg) 0 (timestamp msg)
    + chunk_body_len (m_csid msg) plen (eff_chunk_size cs)
        (EXTENDED_TIMESTAMP_MARKER <=? timestamp msg) = zlen d) as ->.
  { unfold d. by rewrite zlen_message_bytes, Hlen. }
  do 6 rewrite (bind_ok _ _ _ _ _ (guard_false _ _)).
  destruct (Z.leb_spec (zlen (Buffer.contents b) + zlen d) (Buffer.limit b)) as [Hf|Hf].
  - match goal with |- context [(?m ≫= ?k) b] => assert (emits (m ≫= k) d) as He end.
    2: { destruct (He b Hb Hf) as (b'&E&?&?&?&?). exists b'. by split_and!. }
    apply emits_reserve; [done|]. apply emits_bind; [by apply emits_first_header|].
    eapply emits_lift.
    { rewrite slice_ok by lia. by rewrite Z.sub_0_r, zdrop_nonpos by lia. }
    unfold ext_field. rewrite <- body_bytes_eff.
    apply emits_chunk_body; [done|]. pose proof (eff_chunk_size_pos cs Hs). lia.
  - destruct (Buffer.make_room_spec (zlen d) b Hb ltac:(zlia)) as (b'&(W&C&O&L)&H).
    rewrite Buffer.available_contents, (proj2 (Z.leb_gt _ _) Hf) in H by done.
    exists b'. split_and!; try done.
    apply bind_err. unfold map_err, Buffer.reserve. by rewrite H.
Qed.

(** C10. [chunk_write] is total and all-or-nothing.  It refuses exactly the
    messages with a CSID outside the encodable range (with [Chunk]) and those
    with a compressed fmt, a length above the 24 bits of the length field, a
    length other than the given payload length, or a payload length beyond the
    payload (with [Internal]), leaving the buffer as it was.  Any other message
    it appends, as exactly its wire image, when that fits the buffer; when it
    does not, it returns [Internal] with the unread bytes unchanged. *)
Theorem chunk_write_correct msg payload plen cs b :
  Buffer.wf b → 0 ≤ cs → 0 ≤ plen →
  ∃ b', Buffer.wf b' ∧ Buffer.limit b' = Buffer.limit b ∧
    match refusal msg payload plen with
    | Some e => chunk_write msg payload plen cs b = (Err e, b') ∧ b' = b
    | None =>
        let d := message_bytes msg (ztake plen payload) cs in
        if zlen (Buffer.contents b) + zlen d <=? Buffer.limit b
        then chunk_write msg payload plen cs b = (Ok tt, b')
             ∧ Buffer.contents b' = Buffer.contents b ++ d
        else chunk_write msg payload plen cs b = (Err Internal, b')
             ∧ Buffer.contents b' = Buffer.contents b
    end.
Proof. apply chunk_write_spec. Qed.

Lemma chunk_write_correct_witness :
  ∃ b', chunk_write (mkMsg 3 0 16777216 3 9 1 false) [7; 8; 9] 3 2 Buffer.new = (Ok tt, b')
    ∧ Buffer.contents b'
      = [3; 255; 255; 255; 0; 0; 3; 9; 1; 0; 0; 0; 1; 0; 0; 0; 7; 8; 195; 1; 0; 0; 0; 9].
Proof.
  destruct (chunk_write_correct (mkMsg 3 0 16777216 3 9 1 false) [7; 8; 9] 3 2 Buffer.new
    Buffer.wf_new ltac:(lia) ltac:(lia)) as (b'&_&_&H).
  assert (refusal (mkMsg 3 0 16777216 3 9 1 false) [7; 8; 9] 3 = None) as R by done.
  rewrite R in H. cbv zeta in H.
  match type of H with context [if ?c then _ else _] => change c with true in H end.
  destruct H as [E C].
  exists b'. split; [exact E|]. rewrite C. by vm_compute.
Defined.

End Writer.
