(* ===== verification/ChunkReader.v ===== *)
(** The chunk reader, src/chunk/reader.rs: the peek-first parse, the consuming
    phase and the reassembly phase, composed as the source composes them, and
    its correctness: no panic, the registry invariant, no consumption on an
    error, and agreement with a reference parser on the unread bytes. *)
From S2P Require Import Prelude Bytes Buffer ChunkState ChunkWriter.

Module Reader.

(** What [chunk_read] borrows mutably: the input buffer, the registry, and the
    out-parameters.  The payload pointer is the slot whose [last_payload] it
    points into. *)
Record RState : Type := mkR {
  r_buf : Buffer;
  r_reg : ChunkRegistry;
  r_msg : ChunkMessage;
  r_payload : option nat;
  r_payload_len : Z;
}.

(** * Phase 1: parse by peeking *)

(** The chunk phase 1 found complete in the buffer. *)
Record Plan : Type := mkPlan {
  p_fmt : Z;
  p_csid : Z;
  p_header_size : Z;
  p_ext_ts : bool;
  p_to_read : Z;
}.

(** Basic header: [None] when more bytes are needed, else CSID and size. *)
Definition parse_basic (available : Z) (peek : bytes) (csid_low : Z) : Res (option (Z * Z)) :=
  if csid_low =? 0 then
    if available <? 2 then Ok None
    else b1 ← zidx peek 1; Ok (Some (b1 + 64, 2))
  else if csid_low =? 1 then
    if available <? 3 then Ok None
    else b1 ← zidx peek 1; b2 ← zidx peek 2; Ok (Some ((b1 .| (b2 <<32 8)) + 64, 3))
  else Ok (Some (csid_low, 1)).

Definition msg_field_size (fmt : Z) : Res Z :=
  if fmt =? 0 then Ok 11 else if fmt =? 1 then Ok 7
  else if fmt =? 2 then Ok 3 else if fmt =? 3 then Ok 0 else Err Chunk.

(** [reg.get(csid).map(f).ok_or(Chunk)]. *)
Definition get_field {A} (reg : ChunkRegistry) (csid : Z) (f : ChunkStream → A) : Res A :=
  o ← Registry.get csid reg;
  match o with Some s => Ok (f s) | None => Err Chunk end.

(** [reg.get(csid).is_some_and(f)]. *)
Definition get_is (reg : ChunkRegistry) (csid : Z) (f : ChunkStream → bool) : Res bool :=
  o ← Registry.get csid reg;
  Ok (match o with Some s => f s | None => false end).

(** The per-connection reassembly budget test made in phases 1 and 3. *)
Definition over_budget (reg : ChunkRegistry) (csid fmt to_read : Z) : Res bool :=
  if 0 <? to_read then
    replaced ← (if fmt <=? 1 then
                  o ← Registry.get csid reg;
                  Ok (match o with Some s => Buffer.available (reassembly_buf s) | None => 0 end)
                else Ok 0);
    Ok (max_reassembly_bytes reg
        <? saturating_sub (reassembly_bytes_in_use reg) replaced + to_read)
  else Ok false.

(** The message length that governs this chunk. *)
Definition eff_len_for_avail (reg : ChunkRegistry) (peek : bytes) (csid fmt header_size : Z)
    : Res Z :=
  if (fmt =? 0) || (fmt =? 1) then u24_at peek (header_size + 3)
  else get_field reg csid type0_msg_length.

(** The checks from the length limit to the payload availability. *)
Definition plan_payload (reg : ChunkRegistry) (available : Z) (peek : bytes)
    (csid fmt header_size : Z) (ext_ts : bool) (total_header_needed : Z) : Res (option Plan) :=
  eff_len ← eff_len_for_avail reg peek csid fmt header_size;
  if max_msg_length reg <? eff_len then Err Chunk else
  o ← Registry.get csid reg;
  let '(chunk_sz, reassembly_read) :=
    match o with
    | Some s => (chunk_size s, if fmt <=? 1 then 0 else reassembly_bytes_read s)
    | None => (default_chunk_size reg, 0)
    end in
  let to_read := Z.min (saturating_sub eff_len reassembly_read) chunk_sz in
  over ← over_budget reg csid fmt to_read;
  if over : bool then Err Chunk else
  headerless ← (if (fmt =? 2) || (fmt =? 3)
                then get_is reg csid (λ s, negb (has_message_header s)) else Ok false);
  if headerless : bool then Err Chunk else
  room ← Registry.can_get_or_create csid reg;
  if negb room then Err Chunk else
  if available <? total_header_needed + to_read then Ok None
  else Ok (Some (mkPlan fmt csid header_size ext_ts to_read)).

(** Phase 1 on the unread bytes [peek]: an error, [None] for [Ok(0)], or the
    plan of the chunk to consume. *)
Definition phase1 (reg : ChunkRegistry) (available : Z) (peek : bytes) : Res (option Plan) :=
  first ← zidx peek 0;
  let fmt := first >> 6 in
  let csid_low := first .& 63 in
  basic ← parse_basic available peek csid_low;
  match basic with
  | None => Ok None
  | Some (csid, header_size) =>
      field_size ← msg_field_size fmt;
      let base_needed := header_size + field_size in
      if available <? base_needed then Ok None else
      unknown ← (if 2 <=? fmt
                 then o ← Registry.get csid reg; Ok (match o with None => true | Some _ => false end) else Ok false);
      if unknown : bool then Err Chunk else
      midway ← (if fmt =? 2
                then get_is reg csid (λ s, negb (reassembly_bytes_read s =? 0)) else Ok false);
      if midway : bool then Err Chunk else
      ext_ts_from_header ← (if fmt <=? 2
                            then ts_raw ← u24_at peek header_size; Ok (16777215 <=? ts_raw)
                            else Ok false);
      ext_ts_from_stream ← (if fmt =? 3 then get_field reg csid type0_ext_ts else Ok false);
      let ext_ts := ext_ts_from_header || ext_ts_from_stream in
      let total_header_needed := base_needed + if ext_ts then 4 else 0 in
      if available <? total_header_needed then Ok None else
      plan_payload reg available peek csid fmt header_size ext_ts total_header_needed
  end.
(** * Phase 2: consume the header *)

Definition set_buf (b : Buffer) (s : RState) : RState :=
  mkR b (r_reg s) (r_msg s) (r_payload s) (r_payload_len s).
Definition set_reg (r : ChunkRegistry) (s : RState) : RState :=
  mkR (r_buf s) r (r_msg s) (r_payload s) (r_payload_len s).

(** Calls on the borrowed buffer and registry. *)
Definition on_buf {A} (m : ST Buffer A) : ST RState A := λ s,
  let '(r, b) := m (r_buf s) in (r, set_buf b s).
Definition on_reg {A} (m : ST ChunkRegistry A) : ST RState A := λ s,
  let '(r, g) := m (r_reg s) in (r, set_reg g s).
Definition upd_reg (f : ChunkRegistry → Res ChunkRegistry) : ST RState unit := λ s,
  match f (r_reg s) with
  | Ok g => (Ok tt, set_reg g s)
  | Err e => (Err e, s)
  | Panic => (Panic, s)
  end.
Definition upd_stream (idx : nat) (f : ChunkStream → ChunkStream) : ST RState unit :=
  upd_reg (Registry.update_stream idx f).
Definition the_stream (idx : nat) : ST RState ChunkStream := λ s,
  (or_panic (streams (r_reg s) !! idx), s).

Record Fields : Type := mkFields {
  f_timestamp : Z;
  f_length : Z;
  f_type_id : Z;
  f_stream_id : Z;
}.

(** The message-header fields of the [mh] array. *)
Definition parse_fields (fmt : Z) (mh : bytes) : Res Fields :=
  if fmt =? 0 then
    ts ← u24_at mh 0; len ← u24_at mh 3; ty ← zidx mh 6;
    b0 ← zidx mh 7; b1 ← zidx mh 8; b2 ← zidx mh 9; b3 ← zidx mh 10;
    Ok (mkFields ts len ty (u32_le b0 b1 b2 b3))
  else if fmt =? 1 then
    ts ← u24_at mh 0; len ← u24_at mh 3; ty ← zidx mh 6;
    Ok (mkFields ts len ty 0)
  else if fmt =? 2 then
    ts ← u24_at mh 0; Ok (mkFields ts 0 0 0)
  else if fmt =? 3 then Ok (mkFields 0 0 0 0)
  else Err Chunk.

(** The [match fmt] of phase 2. *)
Definition read_fields (fmt : Z) : ST RState Fields :=
  if fmt <=? 2 then
    n ← lift (msg_field_size fmt);
    mh ← map_err Io (on_buf (Buffer.read n));
    lift (parse_fields fmt mh)
  else lift (parse_fields fmt []).

(** Phase 2: drain the basic header, read the message header and the extended
    timestamp; the timestamp returned is the final one. *)
Definition phase2 (p : Plan) : ST RState Fields :=
  on_buf (λ b, (Ok tt, Buffer.drain (p_header_size p) b));;
  f ← read_fields (p_fmt p);
  if p_ext_ts p then
    ts_buf ← map_err Io (on_buf (Buffer.read 4));
    ts ← lift (ntoh32 ts_buf);
    mret (mkFields ts (f_length f) (f_type_id f) (f_stream_id f))
  else mret f.

(** * Phase 3: update the stream and reassemble *)

(** [fmt 0/1]: the partial reassembly of an abandoned message is dropped. *)
Definition restart (idx : nat) : ST RState unit :=
  upd_reg (λ r, '(_, r) ← Registry.release_stream_reassembly idx r; Ok r);;
  upd_stream idx (λ s, ChunkStream.set_reassembly 0 (Buffer.reset (reassembly_buf s)) s).

(** The header match: which stored fields each fmt replaces. *)
Definition apply_header (fmt : Z) (f : Fields) (ext_ts : bool) (s : ChunkStream) : ChunkStream :=
  let fmt3_starts_new_message := (fmt =? 3) && (reassembly_bytes_read s =? 0) in
  let ts := f_timestamp f in
  if fmt =? 0 then
    ChunkStream.set_header true ts (f_length f) (f_type_id f) (f_stream_id f) ext_ts ts s
  else if fmt =? 1 then
    ChunkStream.set_header true (wrapping_add32 (type0_timestamp s) ts) (f_length f)
      (f_type_id f) (type0_msg_stream_id s) ext_ts ts s
  else if fmt =? 2 then
    ChunkStream.set_header (has_message_header s) (wrapping_add32 (type0_timestamp s) ts)
      (type0_msg_length s) (type0_msg_type_id s) (type0_msg_stream_id s) ext_ts ts s
  else if fmt3_starts_new_message then
    ChunkStream.set_timestamp (wrapping_add32 (type0_timestamp s) (last_delta s)) s
  else s.

(** [reassembly_buf.write(d)] on the stream, [Chunk] on failure. *)
Definition append_reassembly (idx : nat) (d : bytes) : ST RState unit :=
  s ← the_stream idx;
  match Buffer.write d (reassembly_buf s) with
  | (Ok _, b) => upd_stream idx (ChunkStream.set_reassembly (reassembly_bytes_read s) b)
  | (Err _, b) => upd_stream idx (ChunkStream.set_reassembly (reassembly_bytes_read s) b);;
                  fail Chunk
  | (Panic, _) => lift Panic
  end.

(** Read [to_read] payload bytes through the scratch buffer into the
    reassembly buffer. *)
Definition read_payload (idx : nat) (to_read : Z) : ST RState unit :=
  upd_stream idx (λ s, ChunkStream.set_scratch (Buffer.resize (chunk_read_scratch s) to_read) s);;
  d ← map_err Io (on_buf (Buffer.read to_read));
  upd_stream idx (ChunkStream.set_scratch d);;
  append_reassembly idx d;;
  upd_stream idx (λ s, ChunkStream.set_reassembly
    (wrapping_add32 (reassembly_bytes_read s) (as_u32 to_read)) (reassembly_buf s) s);;
  upd_reg (λ r, Ok (Registry.note_reassembly_growth to_read r)).

(** Deliver the message: its header in [msg], its bytes in [last_payload]. *)
Definition deliver (idx : nat) (fmt csid : Z) (h : ChunkStream) : ST RState Z :=
  modify (λ s, mkR (r_buf s) (r_reg s)
    (mkMsg csid fmt (type0_timestamp h) (type0_msg_length h) (type0_msg_type_id h)
       (type0_msg_stream_id h) true) (r_payload s) (r_payload_len s));;
  s ← the_stream idx;
  let released_len := Buffer.available (reassembly_buf s) in
  let '(payload, b) := Buffer.take (reassembly_buf s) in
  upd_stream idx (λ s, ChunkStream.set_last_payload payload (ChunkStream.set_reassembly 0 b s));;
  modify (λ s, mkR (r_buf s) (r_reg s) (r_msg s) (Some idx) (zlen payload));;
  upd_reg (λ r, Ok (Registry.release_reassembly_bytes released_len r));;
  mret 1.

Definition set_incomplete (m : ChunkMessage) : ChunkMessage :=
  mkMsg (m_csid m) (fmt m) (timestamp m) (msg_length m) (msg_type_id m) (msg_stream_id m) false.

(** From the restart to the effective header values, which are those of the
    stream returned. *)
Definition update_header (p : Plan) (f : Fields) (idx : nat) : ST RState ChunkStream :=
  (if (p_fmt p =? 0) || (p_fmt p =? 1) then restart idx else mret tt);;
  st ← the_stream idx;
  guard_st (((p_fmt p =? 2) || (p_fmt p =? 3)) && (reassembly_bytes_read st =? 0)
            && negb (has_message_header st)) Chunk;;
  upd_stream idx (apply_header (p_fmt p) f (p_ext_ts p));;
  the_stream idx.

(** From the payload read to the return value; [h] has the effective header. *)
Definition reassemble (p : Plan) (idx : nat) (h : ChunkStream) : ST RState Z :=
  let remaining := saturating_sub (type0_msg_length h) (reassembly_bytes_read h) in
  let to_read := Z.min remaining (chunk_size h) in
  read_payload idx to_read;;
  upd_stream idx (ChunkStream.set_scratch []);;
  st ← the_stream idx;
  let message_complete := type0_msg_length h <=? reassembly_bytes_read st in
  upd_reg (Registry.set_stream_reassembling idx (negb message_complete));;
  if message_complete then deliver idx (p_fmt p) (p_csid p) h
  else
    modify (λ s, mkR (r_buf s) (r_reg s) (set_incomplete (r_msg s)) (r_payload s)
                   (r_payload_len s));;
    mret 0.

Definition phase3 (p : Plan) (f : Fields) : ST RState Z :=
  s ← get_st;
  over ← lift (over_budget (r_reg s) (p_csid p) (p_fmt p) (p_to_read p));
  guard_st over Chunk;;
  idx ← on_reg (Registry.get_or_create_index (p_csid p));
  h ← update_header p f idx;
  reassemble p idx h.

(** * [chunk_read] and [chunk_read_owned] *)

Definition chunk_read : ST RState Z :=
  s ← get_st;
  let available := Buffer.available (r_buf s) in
  if available <? 1 then mret 0 else
  peek ← lift (Buffer.peek (r_buf s));
  plan ← lift (phase1 (r_reg s) available peek);
  match plan with
  | None => mret 0
  | Some p => f ← phase2 p; phase3 p f
  end.

(** [chunk_read_owned]: move the delivered payload out of its slot. *)
Definition chunk_read_owned : ST RState (Z * bytes) :=
  rc ← chunk_read;
  s ← get_st;
  if (rc =? 1) && is_complete (r_msg s) then
    o ← lift (Registry.live_index (m_csid (r_msg s)) (r_reg s));
    match o with
    | None => mret (rc, [])
    | Some idx =>
        st ← the_stream idx;
        upd_stream idx (ChunkStream.set_last_payload []);;
        mret (rc, last_payload st)
    end
  else mret (rc, []).

(** * The reference reader

    One chunk, read from the list of unread bytes: the number of bytes it
    takes, the next registry and the message it completes. *)

Definition field_size (fmt : Z) : Z :=
  if fmt =? 0 then 11 else if fmt =? 1 then 7 else if fmt =? 2 then 3 else 0.

Definition header_len (p : Plan) : Z :=
  p_header_size p + field_size (p_fmt p) + if p_ext_ts p then 4 else 0.

Definition spec_fields (p : Plan) (l : bytes) : Res Fields :=
  let l := zdrop (p_header_size p) l in
  f ← parse_fields (p_fmt p) (ztake (field_size (p_fmt p)) l);
  if p_ext_ts p then
    ts ← ntoh32 (ztake 4 (zdrop (field_size (p_fmt p)) l));
    Ok (mkFields ts (f_length f) (f_type_id f) (f_stream_id f))
  else Ok f.

(** The stream after its chunk payload [d], and the message that completes. *)
Definition advance (p : Plan) (f : Fields) (d : bytes) (s : ChunkStream)
    : ChunkStream * option (ChunkMessage * bytes) :=
  let s := if p_fmt p <=? 1
           then ChunkStream.set_reassembly 0 (Buffer.reset (reassembly_buf s)) s else s in
  let s := apply_header (p_fmt p) f (p_ext_ts p) s in
  let s := ChunkStream.set_scratch [] (ChunkStream.set_reassembly
             (reassembly_bytes_read s + zlen d) (Buffer.write d (reassembly_buf s)).2 s) in
  if type0_msg_length s <=? reassembly_bytes_read s then
    let '(payload, b) := Buffer.take (reassembly_buf s) in
    (ChunkStream.set_last_payload payload
       (ChunkStream.set_reassembly 0 b (ChunkStream.set_reassembling false s)),
     Some (mkMsg (p_csid p) (p_fmt p) (type0_timestamp s) (type0_msg_length s)
             (type0_msg_type_id s) (type0_msg_stream_id s) true, payload))
  else (ChunkStream.set_reassembling true s, None).

Definition spec_chunk (r : ChunkRegistry) (l : bytes)
    : Res (option (Z * ChunkRegistry * option (ChunkMessage * bytes))) :=
  if zlen l <? 1 then Ok None else
  plan ← phase1 r (zlen l) l;
  match plan with
  | None => Ok None
  | Some p =>
      f ← spec_fields p l;
      match Registry.get_or_create_index (p_csid p) r with
      | (Ok i, r1) =>
          s ← or_panic (streams r1 !! i);
          let '(t, out) := advance p f (ztake (p_to_read p) (zdrop (header_len p) l)) s in
          Ok (Some (header_len p + p_to_read p, Registry.replaced i s t r1, out))
      | (Err e, _) => Err e
      | (Panic, _) => Panic
      end
  end.

(** * Facts phase 1 establishes *)

Record plan_ok (r : ChunkRegistry) (l : bytes) (p : Plan) : Prop := {
  pk_fmt : 0 ≤ p_fmt p ≤ 3;
  pk_csid : Writer.csid_ok (p_csid p);
  pk_hs : 1 ≤ p_header_size p ≤ 3;
  pk_avail : header_len p + p_to_read p ≤ zlen l;
  pk_budget : over_budget r (p_csid p) (p_fmt p) (p_to_read p) = Ok false;
  pk_room : Registry.can_get_or_create (p_csid p) r = Ok true;
  pk_known : 2 ≤ p_fmt p → ∃ s, Registry.find (p_csid p) r = Some s
    ∧ has_message_header s = true ∧ (p_fmt p = 2 → reassembly_bytes_read s = 0);
  pk_len : ∃ len, eff_len_for_avail r l (p_csid p) (p_fmt p) (p_header_size p) = Ok len
    ∧ is_u24 len ∧ len ≤ max_msg_length r
    ∧ p_to_read p = match Registry.find (p_csid p) r with
        | Some s => Z.min (saturating_sub len (if p_fmt p <=? 1 then 0
                                               else reassembly_bytes_read s)) (chunk_size s)
        | None => Z.min (saturating_sub len 0) (default_chunk_size r)
        end;
}.

Lemma get_find c r : Registry.wf r → Registry.get c r = Ok (Registry.find c r).
Proof. apply Registry.get_spec. Qed.

Lemma find_inv c r s : Registry.wf r → Registry.find c r = Some s →
  ∃ i, csid_index r !! c = Some i ∧ streams r !! i = Some s ∧ csid s = c
    ∧ Registry.stream_wf s.
Proof.
  intros H. unfold Registry.find. destruct (csid_index r !! c) as [i|] eqn:Hi; [|done]. simpl.
  intros Hs. exists i. destruct (Registry.wf_index r c i H Hi) as (s'&Hs'&?&?&_).
  simplify_eq. by split_and!.
Qed.

Lemma msg_field_size_ok fmt : 0 ≤ fmt ≤ 3 → msg_field_size fmt = Ok (field_size fmt).
Proof. intros. unfold msg_field_size, field_size. zcases; done || lia. Qed.

Lemma field_size_bounds fmt : 0 ≤ field_size fmt ≤ 11.
Proof. unfold field_size. repeat zcase; lia. Qed.

Lemma parse_basic_ok l low : bytes_ok l → 0 ≤ low < 64 → 0 < zlen l →
  match parse_basic (zlen l) l low with
  | Ok None => True
  | Ok (Some (c, h)) => Writer.csid_ok c ∧ 1 ≤ h ≤ 3
  | _ => False
  end.
Proof.
  intros Hl Hlow Hn. unfold parse_basic, Writer.csid_ok, RTMP_MIN_CSID, RTMP_MAX_CSID.
  destruct (Z.eqb_spec low 0); [|destruct (Z.eqb_spec low 1)]; simpl; try lia.
  - zcase; [done|]. destruct (zidx_byte l 1 Hl ltac:(lia)) as (b1&->&?). cbn. ulia.
  - zcase; [done|]. destruct (zidx_byte l 1 Hl ltac:(lia)) as (b1&->&?).
    destruct (zidx_byte l 2 Hl ltac:(lia)) as (b2&->&?). cbn.
    rewrite shl32_mul by ulia. rewrite Z.lor_comm, (lor_low _ b1 8) by udivlia. ulia.
Qed.

Lemma over_budget_total r c fmt n : Registry.wf r → ∃ o, over_budget r c fmt n = Ok o.
Proof.
  intros Hr. unfold over_budget. rewrite get_find by done.
  repeat (case_match; cbn [mbind Res_bind]); eauto.
Qed.

Lemma headerless_total r c fmt : Registry.wf r →
  ∃ o, (if (fmt =? 2) || (fmt =? 3)
        then get_is r c (λ s, negb (has_message_header s)) else Ok false) = Ok o
    ∧ (o = false → 2 ≤ fmt ≤ 3 → ∀ s, Registry.find c r = Some s → has_message_header s = true).
Proof.
  intros Hr. unfold get_is. rewrite get_find by done. cbn [mbind Res_bind].
  destruct (Z.eqb_spec fmt 2), (Z.eqb_spec fmt 3); simpl;
    (eexists; split; [done|]); intros E ? s Hs; try lia; rewrite Hs in E;
    by destruct (has_message_header s).
Qed.

Lemma plan_payload_ok r l c fmt hs (ext : bool) :
  Registry.wf r → bytes_ok l → 0 ≤ fmt ≤ 3 → Writer.csid_ok c → 1 ≤ hs ≤ 3 →
  hs + field_size fmt ≤ zlen l →
  (2 ≤ fmt → ∃ s, Registry.find c r = Some s ∧ (fmt = 2 → reassembly_bytes_read s = 0)) →
  match plan_payload r (zlen l) l c fmt hs ext (hs + field_size fmt + if ext then 4 else 0) with
  | Ok (Some p) => plan_ok r l p ∧ p_csid p = c ∧ p_fmt p = fmt ∧ p_header_size p = hs
                   ∧ p_ext_ts p = ext
  | Ok None => True
  | Err e => e = Chunk
  | Panic => False
  end.
Proof.
  intros Hr Hl Hf Hc Hh Hn Hk. unfold plan_payload.
  assert (∃ len, eff_len_for_avail r l c fmt hs = Ok len ∧ is_u24 len) as (len&Hlen&Hu).
  { unfold eff_len_for_avail, get_field. rewrite get_find by done.
    destruct (Z.eqb_spec fmt 0); [|destruct (Z.eqb_spec fmt 1)]; simpl.
    - subst. apply u24_at_ok; [done|lia|]. unfold field_size in Hn. simpl in Hn. lia.
    - subst. apply u24_at_ok; [done|lia|]. unfold field_size in Hn. simpl in Hn. lia.
    - destruct (Hk ltac:(lia)) as (s&Hs&_). rewrite Hs.
      destruct (find_inv c r s Hr Hs) as (_&_&_&_&Hw). eexists. split; [done|apply Hw]. }
  rewrite Hlen. cbn [mbind Res_bind]. destruct (Z.ltb_spec (max_msg_length r) len) as [|Hmax]; [done|].
  rewrite get_find by done. cbn [mbind Res_bind].
  pose proof (over_budget_total r c fmt) as Ho.
  pose proof (headerless_total r c fmt Hr) as Hhd.
  pose proof (Registry.can_get_or_create_agrees c r Hr) as Hroom.
  set (room := is_ok _) in Hroom. clearbody room.
  destruct (Registry.find c r) as [s|] eqn:Hs.
  - set (n := Z.min _ _).
    destruct (Ho n Hr) as (over&Eo). rewrite Eo. cbn [mbind Res_bind]. destruct over; [done|].
    destruct Hhd as (hd&Eh&Hhd). rewrite Eh. cbn [mbind Res_bind]. destruct hd; [done|].
    rewrite Hroom. cbn [mbind Res_bind]. destruct room; [|done]. simpl.
    match goal with |- context [Z.ltb ?a ?b] => destruct (Z.ltb_spec a b); [done|] end.
    split; [|done]. constructor; simpl; try done.
    + intros H2. destruct (Hk H2) as (s'&[= <-]&?). rewrite Hs. exists s.
      split_and!; try done. apply Hhd; [done|lia|done].
    + exists len. by rewrite Hs.
  - set (n := Z.min _ _).
    destruct (Ho n Hr) as (over&Eo). rewrite Eo. cbn [mbind Res_bind]. destruct over; [done|].
    destruct Hhd as (hd&Eh&Hhd). rewrite Eh. cbn [mbind Res_bind]. destruct hd; [done|].
    rewrite Hroom. cbn [mbind Res_bind]. destruct room; [|done]. simpl.
    match goal with |- context [Z.ltb ?a ?b] => destruct (Z.ltb_spec a b); [done|] end.
    split; [|done]. constructor; simpl; try done.
    + intros H2. by destruct (Hk H2) as (?&?&?).
    + exists len. by rewrite Hs.
Qed.

(** Phase 1 never panics, fails only with [Chunk], and a plan it returns is
    backed by the bytes and the registry. *)
Lemma phase1_ok r l : Registry.wf r → bytes_ok l → 0 < zlen l →
  match phase1 r (zlen l) l with
  | Ok (Some p) => plan_ok r l p
  | Ok None => True
  | Err e => e = Chunk
  | Panic => False
  end.
Proof.
  intros Hr Hl Hn. unfold phase1.
  destruct (zidx_byte l 0 Hl ltac:(lia)) as (first&->&Hf). cbn [mbind Res_bind].
  rewrite shiftr_div, land_63 by lia.
  set (fmt := first / 2 ^ 6). assert (0 ≤ fmt ≤ 3) as Hfmt by (unfold fmt; udivlia).
  pose proof (parse_basic_ok l (first mod 64) Hl ltac:(udivlia) Hn) as Hb.
  destruct (parse_basic _ _ _) as [[[c hs]|]|e|]; try done. destruct Hb as [Hc Hh].
  cbn [mbind Res_bind]. rewrite msg_field_size_ok by done. cbn [mbind Res_bind].
  destruct (Z.ltb_spec (zlen l) (hs + field_size fmt)) as [|Hz]; [done|].
  rewrite get_find by done. unfold get_is, get_field. rewrite get_find by done.
  cbn [mbind Res_bind]. destruct (Z.leb_spec 2 fmt) as [H2|H2]; cbn [mbind Res_bind].
  - destruct (Registry.find c r) as [s|] eqn:Hs; [|done].
    destruct (find_inv c r s Hr Hs) as (_&_&_&_&Hw).
    assert (∃ h, (if fmt <=? 2 then ts_raw ← u24_at l hs; Ok (16777215 <=? ts_raw)
                  else Ok false) = Ok h) as (h&Eh).
    { destruct (Z.leb_spec fmt 2); [|by eauto].
      destruct (u24_at_ok l hs Hl) as (v&->&_); [lia| |by eexists].
      unfold field_size in Hz. revert Hz. zcases; lia. }
    destruct (Z.eqb_spec fmt 2) as [F2|F2]; cbn [mbind Res_bind].
    + destruct (Z.eqb_spec (reassembly_bytes_read s) 0); simpl; [|done].
      rewrite Eh. cbn [mbind Res_bind].
      destruct (Z.eqb_spec fmt 3) as [F3|F3]; [lia|]. cbn [mbind Res_bind].
      match goal with |- context [Z.ltb ?a ?b] => destruct (Z.ltb_spec a b); [done|] end.
      pose proof (plan_payload_ok r l c fmt hs (h || false) Hr Hl Hfmt Hc Hh Hz) as Hp.
      specialize (Hp ltac:(intros; exists s; by split_and!)).
      destruct (plan_payload _ _ _ _ _ _ _ _) as [[p|]|?|]; try done. apply Hp.
    + rewrite Eh. cbn [mbind Res_bind].
      destruct (Z.eqb_spec fmt 3) as [F3|F3]; [|lia]. cbn [mbind Res_bind].
      match goal with |- context [Z.ltb ?a ?b] => destruct (Z.ltb_spec a b); [done|] end.
      pose proof (plan_payload_ok r l c fmt hs (h || type0_ext_ts s) Hr Hl Hfmt Hc Hh Hz) as Hp.
      specialize (Hp ltac:(intros; exists s; by split_and!)).
      destruct (plan_payload _ _ _ _ _ _ _ _) as [[p|]|?|]; try done. apply Hp.
  - destruct (Z.eqb_spec fmt 2); [lia|]. cbn [mbind Res_bind].
    destruct (Z.leb_spec fmt 2); [|lia].
    destruct (u24_at_ok l hs Hl) as (v&->&_); [lia| |].
    { unfold field_size in Hz. revert Hz. zcases; lia. }
    cbn [mbind Res_bind]. destruct (Z.eqb_spec fmt 3); [lia|]. cbn [mbind Res_bind].
    match goal with |- context [Z.ltb ?a ?b] => destruct (Z.ltb_spec a b); [done|] end.
    pose proof (plan_payload_ok r l c fmt hs ((16777215 <=? v) || false) Hr Hl Hfmt Hc Hh Hz) as Hp.
    specialize (Hp ltac:(lia)).
    destruct (plan_payload _ _ _ _ _ _ _ _) as [[p|]|?|]; try done. apply Hp.
Qed.

(** * Phase 2 *)

Record fields_ok (f : Fields) : Prop := {
  fk_ts : is_u32 (f_timestamp f);
  fk_len : is_u24 (f_length f);
  fk_ty : is_u8 (f_type_id f);
  fk_sid : is_u32 (f_stream_id f);
}.

Lemma parse_fields_ok fmt mh : 0 ≤ fmt ≤ 3 → bytes_ok mh → zlen mh = field_size fmt →
  ∃ f, parse_fields fmt mh = Ok f ∧ fields_ok f
    ∧ (fmt ≤ 1 → u24_at mh 3 = Ok (f_length f)).
Proof.
  intros Hf Hb Hz. unfold parse_fields, field_size in *.
  assert (∀ off, 0 ≤ off → off + 3 ≤ zlen mh → ∃ v, u24_at mh off = Ok v ∧ is_u24 v) as Hu
    by (intros; by apply u24_at_ok).
  destruct (Z.eqb_spec fmt 0); [|destruct (Z.eqb_spec fmt 1); [|destruct (Z.eqb_spec fmt 2)]].
  - destruct (Hu 0) as (ts&->&?); [lia..|]. destruct (Hu 3) as (len&->&?); [lia..|].
    destruct (zidx_byte mh 6 Hb ltac:(lia)) as (ty&->&?).
    destruct (zidx_byte mh 7 Hb ltac:(lia)) as (b0&->&?).
    destruct (zidx_byte mh 8 Hb ltac:(lia)) as (b1&->&?).
    destruct (zidx_byte mh 9 Hb ltac:(lia)) as (b2&->&?).
    destruct (zidx_byte mh 10 Hb ltac:(lia)) as (b3&->&?).
    cbn. eexists. split_and!; [done| |done]. constructor; simpl; try ulia.
    rewrite u32_le_val by done. by apply from_be_bytes32_range.
  - destruct (Hu 0) as (ts&->&?); [lia..|]. destruct (Hu 3) as (len&->&?); [lia..|].
    destruct (zidx_byte mh 6 Hb ltac:(lia)) as (ty&->&?).
    cbn. eexists. split_and!; [done| |done]. constructor; simpl; ulia.
  - destruct (Hu 0) as (ts&->&?); [lia..|].
    cbn. eexists. split_and!; [done| |lia]. constructor; simpl; ulia.
  - destruct (Z.eqb_spec fmt 3); [|lia].
    eexists. split_and!; [done| |lia]. constructor; simpl; ulia.
Qed.

Lemma map_on_buf {A} e (m : ST Buffer A) s a b :
  m (r_buf s) = (Ok a, b) → map_err e (on_buf m) s = (Ok a, set_buf b s).
Proof. intros E. apply map_err_ok. unfold on_buf. by rewrite E. Qed.

Lemma bytes_ok_slice l n k : bytes_ok l → bytes_ok (ztake n (zdrop k l)).
Proof. intros. by apply Forall_ztake, Forall_zdrop. Qed.

Lemma read_fields_ok fmt s : 0 ≤ fmt ≤ 3 → Buffer.wf (r_buf s) →
  bytes_ok (Buffer.contents (r_buf s)) → field_size fmt ≤ zlen (Buffer.contents (r_buf s)) →
  let mh := ztake (field_size fmt) (Buffer.contents (r_buf s)) in
  ∃ f b', parse_fields fmt mh = Ok f ∧ fields_ok f
    ∧ (fmt ≤ 1 → u24_at mh 3 = Ok (f_length f))
    ∧ read_fields fmt s = (Ok f, set_buf b' s) ∧ Buffer.after (r_buf s) b'
    ∧ Buffer.contents b' = zdrop (field_size fmt) (Buffer.contents (r_buf s)).
Proof.
  intros Hf Hb Hl Hn mh. pose proof (field_size_bounds fmt).
  destruct (parse_fields_ok fmt mh Hf) as (f&Ef&Hfk&Hfl);
    [by apply Forall_ztake|unfold mh; zlia|].
  unfold read_fields. destruct (Z.leb_spec fmt 2).
  - destruct (Buffer.read_some (field_size fmt) (r_buf s) Hb ltac:(lia)) as (b'&R&W&C).
    exists f, b'. split_and!; try done. rewrite msg_field_size_ok by done.
    etrans; [by apply (bind_ok _ _ _ (field_size fmt))|].
    etrans; [apply bind_ok, map_on_buf, R|]. unfold lift. by rewrite <- Ef.
  - assert (field_size fmt = 0) as N0 by (unfold field_size; zcases; lia).
    exists f, (r_buf s). rewrite N0, zdrop_nonpos by lia. split_and!; try done.
    unfold mh in Ef. rewrite N0, ztake_nonpos in Ef by lia.
    unfold lift. rewrite Ef. by destruct s.
Qed.

(** Phase 2 decodes the fields of the planned chunk and leaves its payload as
    the first unread byte. *)
Lemma phase2_ok p s : Buffer.wf (r_buf s) → bytes_ok (Buffer.contents (r_buf s)) →
  plan_ok (r_reg s) (Buffer.contents (r_buf s)) p → 0 ≤ p_to_read p →
  ∃ f b', spec_fields p (Buffer.contents (r_buf s)) = Ok f ∧ fields_ok f
    ∧ phase2 p s = (Ok f, set_buf b' s) ∧ Buffer.after (r_buf s) b'
    ∧ Buffer.contents b' = zdrop (header_len p) (Buffer.contents (r_buf s))
    ∧ (p_fmt p ≤ 1 → u24_at (Buffer.contents (r_buf s)) (p_header_size p + 3)
                     = Ok (f_length f)).
Proof.
  intros Hb Hl Hp Ht. set (l := Buffer.contents (r_buf s)) in *.
  pose proof (pk_fmt _ _ _ Hp) as Hf. pose proof (pk_hs _ _ _ Hp) as Hh.
  pose proof (pk_avail _ _ _ Hp) as Ha. unfold header_len in *.
  pose proof (field_size_bounds (p_fmt p)) as Hfs. set (n := field_size (p_fmt p)) in *.
  assert (0 ≤ (if p_ext_ts p then 4 else 0)) by (by destruct (p_ext_ts p)).
  destruct (Buffer.drain_after (p_header_size p) (r_buf s) Hb ltac:(lia)) as (W1&C1).
  fold l in C1.
  destruct (read_fields_ok (p_fmt p) (set_buf (Buffer.drain (p_header_size p) (r_buf s)) s))
    as (f&b2&Ef&Hfk&Hfl&E2&W2&C2); simpl in *; rewrite ?C1; try done;
    [apply W1|by apply Forall_zdrop|fold n; zlia|].
  rewrite C1 in Ef, Hfl, C2. fold n in Ef, Hfl, C2. rewrite zdrop_zdrop in C2 by lia.
  pose proof (Buffer.after_trans _ _ _ W1 W2) as W3.
  unfold phase2, spec_fields. fold l n. rewrite Ef. cbn [mbind Res_bind].
  fold (mbind (M:=ST RState) (A:=Fields) (B:=Fields)).
  rewrite (bind_ok _ _ s tt (set_buf (Buffer.drain (p_header_size p) (r_buf s)) s)) by done.
  rewrite (bind_ok _ _ _ _ _ E2).
  assert (p_fmt p ≤ 1 → u24_at l (p_header_size p + 3) = Ok (f_length f)) as Hlen.
  { intros H1. rewrite <- (Hfl H1). symmetry. apply u24_at_slice; try lia.
    unfold n, field_size. zcases; lia. }
  destruct (p_ext_ts p).
  - destruct (Buffer.read_some 4 b2 (proj1 W2)) as (b3&R&W4&C3); [rewrite C2; zlia|].
    rewrite C2 in R, C3.
    destruct (ntoh32_ok (ztake 4 (zdrop (p_header_size p + n) l))) as (ts&Ets&Hts);
      [by apply bytes_ok_slice|zlia|].
    rewrite zdrop_zdrop by lia. rewrite Ets. cbn [mbind Res_bind].
    eexists _, b3. split_and!; try done.
    + destruct Hfk. by constructor.
    + etrans; [apply bind_ok, map_on_buf, R|]. unfold lift. by rewrite Ets.
    + by eapply Buffer.after_trans.
    + rewrite C3, zdrop_zdrop by lia. done.
  - eexists _, b2. split_and!; try done. by rewrite Z.add_0_r.
Qed.

(** * Phase 3, on one stream *)

(** The bytes a chunk continues and the length it runs to. *)
Definition base (p : Plan) (s : ChunkStream) : bytes :=
  if p_fmt p <=? 1 then [] else Buffer.contents (reassembly_buf s).
Definition run_length (p : Plan) (f : Fields) (s : ChunkStream) : Z :=
  if p_fmt p <=? 1 then f_length f else type0_msg_length s.

(** What phase 1 guarantees about the stream the chunk goes to. *)
Record fits (p : Plan) (f : Fields) (s : ChunkStream) : Prop := {
  ft_fmt : 0 ≤ p_fmt p ≤ 3;
  ft_fields : fields_ok f;
  ft_known : 2 ≤ p_fmt p → has_message_header s = true;
  ft_new : p_fmt p = 2 → reassembly_bytes_read s = 0;
  ft_to_read : p_to_read p
    = Z.min (saturating_sub (run_length p f s) (zlen (base p s))) (chunk_size s);
}.

(** The stream after the restart and the header update. *)
Definition headed (p : Plan) (f : Fields) (s : ChunkStream) : ChunkStream :=
  apply_header (p_fmt p) f (p_ext_ts p)
    (if p_fmt p <=? 1
     then ChunkStream.set_reassembly 0 (Buffer.reset (reassembly_buf s)) s else s).

Lemma apply_header_frame fmt f ext s :
  let t := apply_header fmt f ext s in
  csid t = csid s ∧ chunk_size t = chunk_size s ∧ reassembly_buf t = reassembly_buf s
  ∧ reassembly_bytes_read t = reassembly_bytes_read s ∧ in_use t = in_use s
  ∧ reassembling t = reassembling s.
Proof. unfold apply_header. by repeat case_match. Qed.

Lemma wrapping_add32_range x y : is_u32 (wrapping_add32 x y).
Proof. apply as_u32_range. Qed.

Lemma headed_ok p f s : Registry.stream_wf s → fits p f s →
  let h := headed p f s in
  csid h = csid s ∧ chunk_size h = chunk_size s ∧ in_use h = true
  ∧ Buffer.wf (reassembly_buf h) ∧ owned (reassembly_buf h) = true
  ∧ Buffer.contents (reassembly_buf h) = base p s
  ∧ reassembly_bytes_read h = zlen (base p s)
  ∧ type0_msg_length h = run_length p f s ∧ is_u24 (run_length p f s)
  ∧ has_message_header h = true ∧ reassembling h = reassembling s
  ∧ is_u32 (type0_timestamp h) ∧ is_u32 (last_delta h) ∧ is_u8 (type0_msg_type_id h)
  ∧ is_u32 (type0_msg_stream_id h).
Proof.
  intros Hs []. unfold headed, base, run_length.
  pose proof (apply_header_frame (p_fmt p) f (p_ext_ts p)) as Hfr. destruct ft_fields0.
  destruct (Z.leb_spec (p_fmt p) 1).
  - destruct (Buffer.reset_spec (reassembly_buf s) (Registry.s_buf s Hs)) as (Rw&Rc&Ro&_).
    set (s1 := ChunkStream.set_reassembly _ _ s).
    destruct (Hfr s1) as (->&->&->&->&->&->). destruct Hs. unfold apply_header.
    destruct (Z.eqb_spec (p_fmt p) 0); [|destruct (Z.eqb_spec (p_fmt p) 1); [|lia]];
      split_and!; simpl; try done; try congruence; apply wrapping_add32_range.
  - destruct (Hfr s) as (->&->&->&->&->&->). destruct Hs. unfold apply_header.
    destruct (Z.eqb_spec (p_fmt p) 0); [lia|]. destruct (Z.eqb_spec (p_fmt p) 1); [lia|].
    repeat case_match; split_and!; simpl; try done; try apply wrapping_add32_range;
      apply ft_known0; lia.
Qed.

(** Payload bytes of a planned chunk stay within the message. *)
Lemma fits_bounds p f s : Registry.stream_wf s → fits p f s →
  0 ≤ p_to_read p ∧ zlen (base p s) ≤ run_length p f s
  ∧ zlen (base p s) + p_to_read p ≤ run_length p f s
  ∧ (zlen (base p s) + p_to_read p < run_length p f s → 0 < p_to_read p).
Proof.
  intros Hs Hf. pose proof (headed_ok p f s Hs Hf) as (_&_&_&_&_&_&_&_&Hu&_).
  destruct Hf. destruct Hs. unfold DEFAULT_CHUNK_SIZE in *.
  assert (zlen (base p s) ≤ run_length p f s) as Hb.
  { revert Hu. unfold base, run_length. destruct (p_fmt p <=? 1); intros Hu.
    { rewrite zlen_nil. ulia. }
    rewrite <- s_read. destruct (reassembling s); ulia. }
  unfold saturating_sub in *. zlia.
Qed.

(** The completed message, as phase 3 reports it. *)
Definition report (p : Plan) (h : ChunkStream) : ChunkMessage :=
  mkMsg (p_csid p) (p_fmt p) (type0_timestamp h) (type0_msg_length h)
    (type0_msg_type_id h) (type0_msg_stream_id h) true.

(** The stream once its payload bytes are in the reassembly buffer. *)
Definition appended (h : ChunkStream) (d : bytes) : ChunkStream :=
  ChunkStream.set_scratch [] (ChunkStream.set_reassembly
    (reassembly_bytes_read h + zlen d) (Buffer.write d (reassembly_buf h)).2 h).

Lemma append_ok p f s d : Registry.stream_wf s → fits p f s → zlen d = p_to_read p →
  let h := headed p f s in
  ∃ b, Buffer.write d (reassembly_buf h) = (Ok (zlen d), b) ∧ Buffer.wf b
    ∧ owned b = true ∧ Buffer.contents b = base p s ++ d.
Proof.
  intros Hs Hf Hd h. destruct (headed_ok p f s Hs Hf) as (_&_&_&W&O&C&_&_&Hu&_).
  destruct (fits_bounds p f s Hs Hf) as (?&?&?&_). fold h in W, O, C.
  destruct (Buffer.write_spec d (reassembly_buf h) W) as (b&Wb&Ob&_&E).
  unfold Buffer.limit in E. rewrite O, C in *.
  rewrite (proj2 (Z.leb_le _ _)), orb_true_r in E by (unfold BUFFER_MAX_SIZE; ulia).
  destruct E as [E Cb]. exists b. by split_and!.
Qed.

Lemma base_bytes p s : Registry.stream_wf s → bytes_ok (base p s).
Proof. intros []. unfold base. by destruct (p_fmt p <=? 1); [apply List.Forall_nil|]. Qed.

(** One chunk keeps the stream invariant; it delivers the accumulated bytes
    exactly when they reach the message length, and keeps them otherwise. *)
Lemma advance_ok p f s d : Registry.stream_wf s → fits p f s → zlen d = p_to_read p → bytes_ok d →
  let '(t, out) := advance p f d s in
  let h := headed p f s in
  Registry.stream_wf t ∧ csid t = csid s
  ∧ type0_timestamp t = type0_timestamp h ∧ type0_msg_length t = type0_msg_length h
  ∧ type0_msg_type_id t = type0_msg_type_id h
  ∧ type0_msg_stream_id t = type0_msg_stream_id h
  ∧ type0_ext_ts t = type0_ext_ts h ∧ last_delta t = last_delta h
  ∧ has_message_header t = true ∧ chunk_size t = chunk_size s
  ∧ if run_length p f s <=? zlen (base p s) + zlen d
    then out = Some (report p h, base p s ++ d) ∧ Registry.held t = 0 ∧ reassembling t = false
    else out = None ∧ Buffer.contents (reassembly_buf t) = base p s ++ d
         ∧ reassembling t = true.
Proof.
  intros Hs Hf Hd Hy. pose proof (append_ok p f s d Hs Hf Hd) as (b&Eb&Wb&Ob&Cb).
  pose proof (base_bytes p s Hs) as Hbase.
  pose proof (headed_ok p f s Hs Hf) as (Hc&Hz&Hi&_&_&_&Hr&Hl&Hu&Hh&_&Ht&Hdl&Hty&Hsid).
  pose proof (fits_bounds p f s Hs Hf) as (?&_&?&?).
  unfold advance. fold (headed p f s). set (h := headed p f s) in *. fold (appended h d).
  destruct (Buffer.take_spec b Wb) as (b'&Tb&Wb'&Cb'&Ob'&_).
  change (reassembly_buf (appended h d)) with (Buffer.write d (reassembly_buf h)).2.
  change (reassembly_bytes_read (appended h d)) with (reassembly_bytes_read h + zlen d).
  change (type0_msg_length (appended h d)) with (type0_msg_length h).
  rewrite Eb, Hl, Hr, Hd. cbn [snd]. unfold appended. rewrite Eb. cbn [snd].
  destruct Hs.
  destruct (Z.leb_spec (run_length p f s) (zlen (base p s) + p_to_read p)).
  - rewrite Tb. split_and!; try done;
      [|unfold report; by rewrite Cb, Hl|unfold Registry.held; simpl; by rewrite Cb'].
    constructor; simpl; rewrite ?Cb'; try done; try congruence. apply List.Forall_nil.
  - split_and!; try done.
    assert (zlen (Buffer.contents b) = zlen (base p s) + p_to_read p) by (rewrite Cb; zlia).
    constructor; simpl; try done; try congruence; [rewrite Cb; by apply Forall_app|].
    split; [done|]. pose proof (zlen_nonneg (base p s)). rewrite Hr, Hl. lia.
Qed.

(** * Phase 3, on the registry *)

(** The registry in the middle of phase 3: slot [i] holds [x], the counters
    are [n] and [c]. *)
Definition slot (i : nat) (x : ChunkStream) (n c : Z) (r : ChunkRegistry) : ChunkRegistry :=
  Registry.set_count c (Registry.set_bytes_in_use n
    (Registry.set_streams (<[i := x]> (streams r)) r)).

Section slot.
Context (i : nat) (r : ChunkRegistry) (Hi : (i < length (streams r))%nat).
Implicit Types (x : ChunkStream) (n c : Z) (b : Buffer).

Lemma slot_init x : streams r !! i = Some x →
  slot i x (reassembly_bytes_in_use r) (reassembling_count r) r = r.
Proof. intros E. unfold slot. rewrite list_insert_id by done. by destruct r. Qed.

Lemma lookup_slot x n c : streams (slot i x n c r) !! i = Some x.
Proof. simpl. by rewrite list_lookup_insert_eq. Qed.

Lemma update_slot f x n c :
  Registry.update_stream i f (slot i x n c r) = Ok (slot i (f x) n c r).
Proof.
  unfold Registry.update_stream. rewrite lookup_slot. cbn.
  unfold slot. simpl. unfold Registry.set_streams, Registry.set_count, Registry.set_bytes_in_use.
  simpl. by rewrite list_insert_insert_eq.
Qed.

Lemma upd_slot f x n c b m pl ln :
  upd_stream i f (mkR b (slot i x n c r) m pl ln) = (Ok tt, mkR b (slot i (f x) n c r) m pl ln).
Proof. unfold upd_stream, upd_reg. simpl. by rewrite update_slot. Qed.

Lemma the_slot x n c b m pl ln :
  the_stream i (mkR b (slot i x n c r) m pl ln) = (Ok x, mkR b (slot i x n c r) m pl ln).
Proof. unfold the_stream. simpl. by rewrite list_lookup_insert_eq. Qed.

Lemma restart_slot x n c b m pl ln :
  restart i (mkR b (slot i x n c r) m pl ln)
  = (Ok tt, mkR b (slot i (ChunkStream.set_reassembly 0 (Buffer.reset (reassembly_buf x)) x)
       (saturating_sub n (Buffer.available (reassembly_buf x))) c r) m pl ln).
Proof.
  unfold restart. etrans.
  { apply (bind_ok _ _ _ tt
      (mkR b (slot i x (saturating_sub n (Buffer.available (reassembly_buf x))) c r) m pl ln)).
    unfold upd_reg, Registry.release_stream_reassembly. simpl.
    by rewrite list_lookup_insert_eq. }
  by rewrite upd_slot.
Qed.

Lemma set_reassembling_slot v x n c :
  Registry.active x ≤ c →
  Registry.set_stream_reassembling i v (slot i x n c r)
  = Ok (slot i (ChunkStream.set_reassembling v x) n (c - Registry.active x + Z.b2z v) r).
Proof.
  intros Hc. unfold Registry.set_stream_reassembling. rewrite lookup_slot. cbn.
  unfold Registry.active in *. destruct (Bool.eqb (reassembling x) v) eqn:E.
  - apply eqb_prop in E. subst v. rewrite Z.sub_add. by destruct x.
  - rewrite update_slot. cbn. apply eqb_false_iff in E. unfold saturating_sub.
    destruct v, (reassembling x); try done; simpl in *; unfold Registry.set_count; simpl;
      f_equal; unfold slot, Registry.set_count; simpl; f_equal; lia.
Qed.

Lemma read_payload_slot x n c b m pl ln d rest wb :
  Buffer.wf b → Buffer.contents b = d ++ rest →
  Buffer.write d (reassembly_buf x) = (Ok (zlen d), wb) →
  ∃ b', Buffer.after b b' ∧ Buffer.contents b' = rest ∧
    read_payload i (zlen d) (mkR b (slot i x n c r) m pl ln)
    = (Ok tt, mkR b' (slot i (ChunkStream.set_scratch d (ChunkStream.set_reassembly
         (wrapping_add32 (reassembly_bytes_read x) (as_u32 (zlen d))) wb x))
         (saturating_add n (zlen d)) c r) m pl ln).
Proof.
  intros Hb Hc Hw. destruct (Buffer.read_app d rest b Hb Hc) as (b'&Er&?&?&_&?&_).
  exists b'. split_and!; try done. unfold read_payload.
  etrans; [apply bind_ok, upd_slot|].
  etrans; [apply bind_ok, map_on_buf, Er|]. unfold set_buf. simpl.
  etrans; [apply bind_ok, upd_slot|].
  etrans; [apply bind_ok|].
  { unfold append_reassembly. etrans; [apply bind_ok, the_slot|]. simpl. rewrite Hw.
    apply upd_slot. }
  etrans; [apply bind_ok, upd_slot|]. done.
Qed.

Lemma deliver_slot fmt cs h x n c b m pl ln : Buffer.wf (reassembly_buf x) →
  ∃ wb, Buffer.take (reassembly_buf x) = (Buffer.contents (reassembly_buf x), wb) ∧
    deliver i fmt cs h (mkR b (slot i x n c r) m pl ln)
    = (Ok 1, mkR b (slot i (ChunkStream.set_last_payload (Buffer.contents (reassembly_buf x))
         (ChunkStream.set_reassembly 0 wb x))
         (saturating_sub n (zlen (Buffer.contents (reassembly_buf x)))) c r)
         (mkMsg cs fmt (type0_timestamp h) (type0_msg_length h) (type0_msg_type_id h)
            (type0_msg_stream_id h) true)
         (Some i) (zlen (Buffer.contents (reassembly_buf x)))).
Proof.
  intros Hx. destruct (Buffer.take_spec _ Hx) as (wb&Et&_). exists wb. split; [done|].
  unfold deliver. etrans; [by apply bind_ok|]. cbn [r_buf r_reg r_msg r_payload r_payload_len].
  etrans; [apply bind_ok, the_slot|]. cbv beta zeta. rewrite Et, Buffer.available_contents by done.
  etrans; [apply bind_ok, upd_slot|]. done.
Qed.
End slot.

(** The budget test of phases 1 and 3, read as an inequality. *)
Lemma over_budget_false r c fmt n : Registry.wf r → 0 ≤ n →
  over_budget r c fmt n = Ok false →
  let h := default 0 (Registry.held <$> Registry.find c r) in
  reassembly_bytes_in_use r - h + (if fmt <=? 1 then 0 else h) + n ≤ max_reassembly_bytes r.
Proof.
  intros Hr Hn. unfold over_budget. rewrite get_find by done.
  pose proof (Registry.r_cap_bytes r Hr) as [Hcap _]. cbv zeta.
  destruct (Registry.find c r) as [s|] eqn:E; simpl.
  - destruct (find_inv c r s Hr E) as (i&_&Hi&_&Hw).
    pose proof (Registry.wf_held_le r i s Hr Hi). unfold saturating_sub.
    rewrite Buffer.available_contents by apply Hw. unfold Registry.held in *.
    pose proof (zlen_nonneg (Buffer.contents (reassembly_buf s))).
    destruct (Z.ltb_spec 0 n), (fmt <=? 1); cbn; try lia; intros [= ?%Z.ltb_ge]; lia.
  - unfold saturating_sub. pose proof (Registry.r_bytes r Hr) as Hsum.
    pose proof (sumZ_nonneg Registry.held (streams r) (Registry.held_nonneg _)).
    destruct (Z.ltb_spec 0 n), (fmt <=? 1); cbn; try lia; intros [= ?%Z.ltb_ge]; lia.
Qed.

(** The slot a planned chunk goes to: lookup succeeds, the stream fits the
    plan, and both caps have room for the chunk. *)
Lemma plan_slot r l p f : Registry.wf r → plan_ok r l p → fields_ok f →
  (p_fmt p ≤ 1 → u24_at l (p_header_size p + 3) = Ok (f_length f)) →
  ∃ i r1 s, Registry.get_or_create_index (p_csid p) r = (Ok i, r1) ∧ Registry.wf r1
    ∧ streams r1 !! i = Some s ∧ csid s = p_csid p ∧ Registry.stream_wf s ∧ fits p f s
    ∧ over_budget r (p_csid p) (p_fmt p) (p_to_read p) = Ok false
    ∧ reassembly_bytes_in_use r1 - Registry.held s + zlen (base p s) + p_to_read p
      ≤ max_reassembly_bytes r1
    ∧ reassembling_count r1 - Registry.active s + 1 ≤ max_active_csids r1.
Proof.
  intros Hr Hp Hf Hlk. pose proof (pk_csid _ _ _ Hp) as Hc.
  assert (is_u32 (p_csid p)) as Hu
    by (unfold Writer.csid_ok, RTMP_MIN_CSID, RTMP_MAX_CSID in Hc; ulia).
  pose proof (Registry.get_or_create_index_spec (p_csid p) r Hr Hu) as Hg.
  pose proof (Registry.can_get_or_create_agrees (p_csid p) r Hr) as Hroom.
  rewrite (pk_room _ _ _ Hp) in Hroom.
  destruct (Registry.get_or_create_index (p_csid p) r) as [[i|e|] r1]; try done.
  destruct Hg as (Hr1&s&Hs&Hcs&Hw&Hact&Hcase). exists i, r1, s.
  destruct (pk_len _ _ _ Hp) as (len&El&Hlen&_&Htr). unfold eff_len_for_avail, get_field in El.
  rewrite get_find in El by done. pose proof (pk_budget _ _ _ Hp) as Hbud.
  assert (match Registry.find (p_csid p) r with
          | Some s' => s' = s
          | None => Registry.held s = 0 ∧ chunk_size s = default_chunk_size r
          end ∧ reassembly_bytes_in_use r1 = reassembly_bytes_in_use r
          ∧ max_reassembly_bytes r1 = max_reassembly_bytes r) as (Hfind&Eb&Em).
  { unfold Registry.find. destruct Hcase as [(->&E1&->)|(->&->&_&_&->&_&_&_&_&->)]; simpl.
    - by rewrite E1.
    - done. }
  clear Hcase.
  assert (fits p f s) as Hfit.
  { destruct (Registry.find (p_csid p) r) as [s'|] eqn:E; [subst s'|destruct Hfind as [Hh0 Hz]].
    - constructor; try done; try apply Hp.
      + intros H2. destruct (pk_known _ _ _ Hp H2) as (s'&Hs'&Hh&_). congruence.
      + intros F2. destruct (pk_known _ _ _ Hp) as (s'&Hs'&_&Hn); [lia|].
        rewrite E in Hs'. simplify_eq. by apply Hn.
      + rewrite Htr. unfold base, run_length. f_equal.
        destruct (Z.leb_spec (p_fmt p) 1) as [H1|H1].
        * change (zlen []) with 0. f_equal. pose proof (Hlk H1) as Hlk1.
          pose proof (pk_fmt _ _ _ Hp).
          destruct (Z.eqb_spec (p_fmt p) 0), (Z.eqb_spec (p_fmt p) 1); simpl in El;
            congruence || lia.
        * destruct (Z.eqb_spec (p_fmt p) 0), (Z.eqb_spec (p_fmt p) 1); try lia. simpl in El.
          simplify_eq. by rewrite (Registry.s_read s Hw).
    - assert (p_fmt p ≤ 1) as H1.
      { destruct (Z.leb_spec (p_fmt p) 1); [done|].
        destruct (pk_known _ _ _ Hp) as (?&?&_); [lia|congruence]. }
      constructor; try done; try apply Hp; try lia.
      rewrite Htr, Hz. unfold base, run_length. destruct (Z.leb_spec (p_fmt p) 1); [|lia].
      change (zlen []) with 0. do 2 f_equal. pose proof (Hlk H1) as Hlk1. pose proof (pk_fmt _ _ _ Hp).
      destruct (Z.eqb_spec (p_fmt p) 0), (Z.eqb_spec (p_fmt p) 1); simpl in El;
        congruence || lia. }
  split_and!; try done.
  - destruct (fits_bounds p f s Hw Hfit) as (Hn&_).
    pose proof (over_budget_false r _ _ _ Hr Hn Hbud) as Hle. rewrite Eb, Em.
    unfold base. destruct (Registry.find (p_csid p) r) as [s'|] eqn:E; simpl in Hle.
    + subst s'. unfold Registry.held in *. destruct (p_fmt p <=? 1); zlia.
    + destruct Hfind as [Hh0 _]. unfold Registry.held in *. destruct (p_fmt p <=? 1); zlia.
  - destruct (reassembling s) eqn:E; unfold Registry.active; rewrite E; simpl.
    + pose proof (Registry.r_cap_count r1 Hr1). lia.
    + pose proof (Hact eq_refl). lia.
Qed.

(** The out-parameters after a call that consumed a chunk for slot [i]. *)
Definition outputs (i : nat) (out : option (ChunkMessage * bytes)) (b : Buffer)
    (r : ChunkRegistry) (s : RState) : RState :=
  match out with
  | Some (m, payload) => mkR b r m (Some i) (zlen payload)
  | None => mkR b r (set_incomplete (r_msg s)) (r_payload s) (r_payload_len s)
  end.

Definition rc_of (out : option (ChunkMessage * bytes)) : Z :=
  match out with Some _ => 1 | None => 0 end.

(** The counters of [replaced] are those the statements of phase 3 compute. *)
Lemma counters_ok p f s d n : Registry.stream_wf s → fits p f s → zlen d = p_to_read p →
  Registry.held s ≤ n → n - Registry.held s + zlen (base p s) + zlen d ≤ USIZE_MAX →
  saturating_add (if p_fmt p <=? 1 then saturating_sub n (Registry.held s) else n) (zlen d)
  = n - Registry.held s + zlen (base p s ++ d).
Proof.
  intros Hs Hf Hd Hn Hm. unfold saturating_add, saturating_sub, base, Registry.held in *.
  destruct (p_fmt p <=? 1); zlia.
Qed.

Lemma update_header_ok p f i r1 s0 b m pl ln :
  streams r1 !! i = Some s0 → Registry.stream_wf s0 → fits p f s0 →
  update_header p f i (mkR b r1 m pl ln)
  = (Ok (headed p f s0),
     mkR b (slot i (headed p f s0)
       (if p_fmt p <=? 1 then saturating_sub (reassembly_bytes_in_use r1) (Registry.held s0)
        else reassembly_bytes_in_use r1) (reassembling_count r1) r1) m pl ln).
Proof.
  intros Hs0 Hw Hf. pose proof (lookup_lt_Some _ _ _ Hs0) as Hi.
  pose proof (ft_fmt _ _ _ Hf) as Hfm. pose proof (ft_known _ _ _ Hf) as Hk.
  unfold headed, update_header. rewrite <- (slot_init i r1 Hi s0 Hs0) at 1.
  destruct (Z.leb_spec (p_fmt p) 1) as [H1|H1].
  - replace ((p_fmt p =? 0) || (p_fmt p =? 1)) with true by (zcases; lia).
    etrans; [by apply bind_ok, restart_slot|]. cbv beta.
    etrans; [by apply bind_ok, the_slot|].
    replace ((p_fmt p =? 2) || (p_fmt p =? 3)) with false by (zcases; lia).
    etrans; [by apply bind_ok|]. etrans; [by apply bind_ok, upd_slot|].
    rewrite Buffer.available_contents by apply Hw. by apply the_slot.
  - replace ((p_fmt p =? 0) || (p_fmt p =? 1)) with false by (zcases; lia).
    etrans; [by apply bind_ok|]. etrans; [by apply bind_ok, the_slot|].
    rewrite Hk, andb_false_r by lia.
    etrans; [by apply bind_ok|]. etrans; [by apply bind_ok, upd_slot|]. by apply the_slot.
Qed.

(** The payload read, the scratch reset and the flag update, run. *)
Lemma reassemble_run p f d rest i r1 s0 n b m pl ln :
  Buffer.wf b → Buffer.contents b = d ++ rest → zlen d = p_to_read p →
  streams r1 !! i = Some s0 → Registry.stream_wf s0 → fits p f s0 →
  Registry.active s0 ≤ reassembling_count r1 →
  let h := headed p f s0 in let x := appended h d in
  let c := type0_msg_length h <=? reassembly_bytes_read x in
  ∃ b', Buffer.after b b' ∧ Buffer.contents b' = rest ∧
    reassemble p i h (mkR b (slot i h n (reassembling_count r1) r1) m pl ln)
    = (if c then deliver i (p_fmt p) (p_csid p) h
       else modify (λ s, mkR (r_buf s) (r_reg s) (set_incomplete (r_msg s)) (r_payload s)
                   (r_payload_len s));; mret 0)
      (mkR b' (slot i (ChunkStream.set_reassembling (negb c) x) (saturating_add n (zlen d))
        (reassembling_count r1 - Registry.active s0 + Z.b2z (negb c)) r1) m pl ln).
Proof.
  intros Hb Hc Hd Hs0 Hw Hf Ha h x c. pose proof (lookup_lt_Some _ _ _ Hs0) as Hi.
  pose proof (headed_ok p f s0 Hw Hf) as (_&Hz&_&_&_&_&Hrd&Hln&Hu&_&Hre&_).
  pose proof (append_ok p f s0 d Hw Hf Hd) as (wb&Ew&_).
  pose proof (fits_bounds p f s0 Hw Hf) as (Hn0&_&Hn1&_). fold h in Hz, Hrd, Hln, Hre, Ew.
  assert (x = ChunkStream.set_scratch [] (ChunkStream.set_reassembly
    (reassembly_bytes_read h + zlen d) wb h)) as Ex by (unfold x, appended; by rewrite Ew).
  unfold reassemble. cbv zeta.
  replace (saturating_sub (type0_msg_length h) (reassembly_bytes_read h) `min` chunk_size h)
    with (zlen d) by (rewrite Hln, Hrd, Hz, Hd; apply (ft_to_read _ _ _ Hf)).
  destruct (read_payload_slot i r1 Hi h n (reassembling_count r1) b m pl ln d rest wb Hb Hc Ew)
    as (b'&Wb'&Cb'&Er).
  exists b'. split_and!; [done..|].
  replace (wrapping_add32 (reassembly_bytes_read h) (as_u32 (zlen d)))
    with (reassembly_bytes_read h + zlen d) in Er.
  2: { unfold wrapping_add32. pose proof (zlen_nonneg d). pose proof (zlen_nonneg (base p s0)).
    rewrite (as_u32_id (zlen d)), as_u32_id by ulia. done. }
  etrans; [apply bind_ok, Er|]. cbv beta.
  etrans.
  { apply (bind_ok _ _ _ tt (mkR b' (slot i x (saturating_add n (zlen d))
      (reassembling_count r1) r1) m pl ln)). rewrite upd_slot by done. by rewrite Ex. }
  etrans; [by apply bind_ok, the_slot|]. cbv beta. fold c.
  etrans; [apply bind_ok|done]. unfold upd_reg. cbn [r_reg].
  assert (Registry.active x = Registry.active s0) as Exa
    by (rewrite Ex; unfold Registry.active; simpl; by rewrite Hre).
  rewrite set_reassembling_slot by (done || lia). by rewrite Exa.
Qed.

Lemma reassemble_ok p f d rest i r1 s0 n b m pl ln :
  Buffer.wf b → Buffer.contents b = d ++ rest → zlen d = p_to_read p →
  streams r1 !! i = Some s0 → Registry.stream_wf s0 → fits p f s0 →
  saturating_add n (zlen d) = reassembly_bytes_in_use r1 - Registry.held s0
    + zlen (base p s0 ++ d) → Registry.held s0 ≤ reassembly_bytes_in_use r1 →
  Registry.active s0 ≤ reassembling_count r1 →
  ∃ b', Buffer.after b b' ∧ Buffer.contents b' = rest ∧
    let '(t, out) := advance p f d s0 in
    reassemble p i (headed p f s0)
      (mkR b (slot i (headed p f s0) n (reassembling_count r1) r1) m pl ln)
    = (Ok (rc_of out), outputs i out b' (Registry.replaced i s0 t r1) (mkR b r1 m pl ln)).
Proof.
  intros Hb Hc Hd Hs0 Hw Hf Hn Hh Ha. pose proof (lookup_lt_Some _ _ _ Hs0) as Hi.
  pose proof (append_ok p f s0 d Hw Hf Hd) as (wb&Ew&Wb&_&Cb).
  destruct (reassemble_run p f d rest i r1 s0 n b m pl ln Hb Hc Hd Hs0 Hw Hf Ha)
    as (b'&Wb'&Cb'&Er).
  exists b'. split_and!; [done..|]. rewrite Er. clear Er. rewrite Hn, <- Cb.
  unfold advance. fold (headed p f s0). set (h := headed p f s0) in *.
  fold (appended h d). set (x := appended h d).
  assert (reassembly_buf x = wb) as Exb by (unfold x, appended; by rewrite Ew).
  change (type0_msg_length x) with (type0_msg_length h).
  change (type0_timestamp x) with (type0_timestamp h).
  change (type0_msg_type_id x) with (type0_msg_type_id h).
  change (type0_msg_stream_id x) with (type0_msg_stream_id h). clearbody x.
  destruct (type0_msg_length h <=? reassembly_bytes_read x); simpl negb.
  - destruct (deliver_slot i r1 Hi (p_fmt p) (p_csid p) h (ChunkStream.set_reassembling false x)
      (reassembly_bytes_in_use r1 - Registry.held s0 + zlen (Buffer.contents wb))
      (reassembling_count r1 - Registry.active s0 + 0) b' m pl ln) as (tb&Et&Ed);
      [simpl; by rewrite Exb|].
    simpl in Et, Ed. rewrite Exb in Et, Ed. rewrite Exb, Et. simpl. rewrite Ed.
    destruct (Buffer.take_spec wb Wb) as (tb'&Et'&_&Ct&_). rewrite Et in Et'. simplify_eq.
    f_equal. unfold Registry.replaced, slot, Registry.held, saturating_sub, Registry.active. simpl.
    unfold Registry.held in Hh. rewrite Ct, Z.max_r by zlia. do 3 f_equal. change (zlen []) with 0. lia.
  - simpl. unfold Registry.replaced, slot, Registry.held, Registry.active. simpl.
    rewrite Exb. done.
Qed.

Lemma phase3_ok p f s d rest i r1 s0 :
  Registry.wf (r_reg s) → Buffer.wf (r_buf s) → Buffer.contents (r_buf s) = d ++ rest →
  zlen d = p_to_read p →
  Registry.get_or_create_index (p_csid p) (r_reg s) = (Ok i, r1) → Registry.wf r1 →
  streams r1 !! i = Some s0 → csid s0 = p_csid p → Registry.stream_wf s0 → fits p f s0 →
  over_budget (r_reg s) (p_csid p) (p_fmt p) (p_to_read p) = Ok false →
  reassembly_bytes_in_use r1 - Registry.held s0 + zlen (base p s0) + p_to_read p
    ≤ max_reassembly_bytes r1 →
  ∃ b', Buffer.after (r_buf s) b' ∧ Buffer.contents b' = rest ∧
    let '(t, out) := advance p f d s0 in
    phase3 p f s = (Ok (rc_of out), outputs i out b' (Registry.replaced i s0 t r1) s).
Proof.
  intros Hr Hb Hc Hd Hg Hr1 Hs0 Hcs Hw Hf Hbud Hcap.
  destruct s as [b r m pl ln]. simpl in *.
  pose proof (Registry.wf_held_le r1 i s0 Hr1 Hs0) as Hh.
  pose proof (Registry.wf_active_le r1 i s0 Hr1 Hs0) as Ha.
  pose proof (Registry.r_cap_bytes r1 Hr1) as [_ Hmax].
  pose proof (counters_ok p f s0 d (reassembly_bytes_in_use r1) Hw Hf Hd Hh ltac:(lia)) as Hcnt.
  destruct (reassemble_ok p f d rest i r1 s0 _ b m pl ln Hb Hc Hd Hs0 Hw Hf Hcnt Hh Ha)
    as (b'&?&?&E).
  exists b'. split_and!; [done..|]. destruct (advance p f d s0) as [t out].
  unfold phase3. etrans; [by apply bind_ok|]. cbv beta. simpl r_reg.
  etrans; [apply bind_ok; unfold lift; by rewrite Hbud|].
  etrans; [by apply bind_ok|].
  etrans; [apply bind_ok; unfold on_reg; simpl; by rewrite Hg|].
  etrans; [by apply bind_ok, update_header_ok|].
  etrans; [exact E|]. by destruct out as [[? ?]|].
Qed.

(** * The reader refines the reference reader *)

Record input_ok (s : RState) : Prop := {
  in_buf : Buffer.wf (r_buf s);
  in_bytes : bytes_ok (Buffer.contents (r_buf s));
  in_reg : Registry.wf (r_reg s);
}.

(** Everything known about a chunk that was consumed. *)
Record consumed (r : ChunkRegistry) (l : bytes) (n : Z) (r' : ChunkRegistry)
    (out : option (ChunkMessage * bytes)) (p : Plan) (f : Fields) (i : nat)
    (r1 : ChunkRegistry) (s t : ChunkStream) : Prop := {
  cd_phase1 : phase1 r (zlen l) l = Ok (Some p);
  cd_plan : plan_ok r l p;
  cd_fields : spec_fields p l = Ok f;
  cd_slot : Registry.get_or_create_index (p_csid p) r = (Ok i, r1);
  cd_wf1 : Registry.wf r1;
  cd_stream : streams r1 !! i = Some s;
  cd_csid : csid s = p_csid p;
  cd_swf : Registry.stream_wf s;
  cd_fits : fits p f s;
  cd_size : n = header_len p + p_to_read p;
  cd_pos : 1 ≤ n ≤ zlen l;
  cd_advance : advance p f (ztake (p_to_read p) (zdrop (header_len p) l)) s = (t, out);
  cd_reg : r' = Registry.replaced i s t r1;
  cd_wf : Registry.wf r';
  cd_slice : bytes_ok (ztake (p_to_read p) (zdrop (header_len p) l));
  cd_bytes : ∀ m d, out = Some (m, d) → bytes_ok d ∧ is_u32 (timestamp m);
}.

Lemma header_len_pos p : 1 ≤ p_header_size p → 1 ≤ header_len p.
Proof.
  intros. unfold header_len. pose proof (field_size_bounds (p_fmt p)).
  destruct (p_ext_ts p); lia.
Qed.

(** What is delivered are bytes, at a time that fits its field. *)
Lemma advance_delivers p f s d : Registry.stream_wf s → fits p f s → zlen d = p_to_read p → bytes_ok d →
  ∀ m x, (advance p f d s).2 = Some (m, x) → bytes_ok x ∧ is_u32 (timestamp m).
Proof.
  intros Hs Hf Hd Hy m x E. pose proof (advance_ok p f s d Hs Hf Hd Hy) as Ha.
  destruct (advance p f d s) as [t out]. simpl in E. subst out.
  destruct Ha as (_&_&_&_&_&_&_&_&_&_&Ha). destruct (_ <=? _); [|by destruct Ha].
  destruct Ha as [Eo _]. injection Eo as -> ->. split; [|by apply (headed_ok p f s Hs Hf)].
  apply Forall_app. split; [by apply base_bytes|done].
Qed.

(** A consumed chunk leaves a well-formed registry. *)
Lemma wf_advance p f d i r1 s : Registry.wf r1 → streams r1 !! i = Some s →
  Registry.stream_wf s → fits p f s → zlen d = p_to_read p → bytes_ok d →
  reassembly_bytes_in_use r1 - Registry.held s + zlen (base p s) + p_to_read p
    ≤ max_reassembly_bytes r1 →
  reassembling_count r1 - Registry.active s + 1 ≤ max_active_csids r1 →
  Registry.wf (Registry.replaced i s (advance p f d s).1 r1).
Proof.
  intros Hr1 Hs Hw Hf Hd Hy Hb Hn. pose proof (advance_ok p f s d Hw Hf Hd Hy) as Ha.
  destruct (advance p f d s) as [t out]. simpl.
  destruct Ha as (Ht&Hc&_&_&_&_&_&_&_&_&Ha). apply Registry.wf_replaced; try done.
  - destruct (_ <=? _).
    + destruct Ha as (_&->&_). pose proof (Registry.r_cap_bytes r1 Hr1).
      pose proof (zlen_nonneg (Buffer.contents (reassembly_buf s))). unfold Registry.held. lia.
    + destruct Ha as (_&Hct&_). unfold Registry.held at 2. rewrite Hct, zlen_app. lia.
  - enough (Registry.active t ≤ 1) by lia. unfold Registry.active. by destruct (reassembling t).
Qed.

Lemma plan_to_read_nonneg r l p : Registry.wf r → plan_ok r l p → 0 ≤ p_to_read p.
Proof.
  intros Hr Hp. destruct (pk_len _ _ _ Hp) as (len&_&_&_&->).
  unfold saturating_sub. destruct (Registry.find (p_csid p) r) as [s'|] eqn:Hs'.
  - destruct (find_inv _ _ _ Hr Hs') as (_&_&_&_&Hw).
    pose proof (Registry.s_chunk_size _ Hw). unfold DEFAULT_CHUNK_SIZE in *. lia.
  - pose proof (Registry.r_default _ Hr). unfold DEFAULT_CHUNK_SIZE in *. lia.
Qed.

Lemma chunk_read_run s : Buffer.wf (r_buf s) →
  let l := Buffer.contents (r_buf s) in
  chunk_read s =
    if zlen l <? 1 then (Ok 0, s) else
    match phase1 (r_reg s) (zlen l) l with
    | Ok None => (Ok 0, s)
    | Ok (Some p) => (f ← phase2 p; phase3 p f) s
    | Err e => (Err e, s)
    | Panic => (Panic, s)
    end.
Proof.
  intros Hb l. unfold chunk_read. etrans; [by apply bind_ok|]. cbv beta zeta.
  rewrite Buffer.available_contents by done. fold l.
  destruct (zlen l <? 1); [done|].
  etrans; [apply bind_ok; unfold lift; by rewrite Buffer.peek_contents|]. fold l.
  unfold lift, mbind, ST_bind. by destruct (phase1 (r_reg s) (zlen l) l) as [[p|]|e|].
Qed.

Lemma chunk_read_cases s : input_ok s →
  let l := Buffer.contents (r_buf s) in
  (spec_chunk (r_reg s) l = Ok None ∧ chunk_read s = (Ok 0, s))
  ∨ (spec_chunk (r_reg s) l = Err Chunk ∧ chunk_read s = (Err Chunk, s))
  ∨ ∃ n r' out p f i r1 s0 t b',
      spec_chunk (r_reg s) l = Ok (Some (n, r', out))
      ∧ consumed (r_reg s) l n r' out p f i r1 s0 t
      ∧ chunk_read s = (Ok (rc_of out), outputs i out b' r' s)
      ∧ Buffer.after (r_buf s) b' ∧ Buffer.contents b' = zdrop n l.
Proof.
  intros [Hb Hl Hr] l. rewrite (chunk_read_run s Hb). fold l. unfold spec_chunk.
  destruct (Z.ltb_spec (zlen l) 1) as [|Hn]; [by left|].
  pose proof (phase1_ok (r_reg s) l Hr Hl ltac:(lia)) as Hp.
  destruct (phase1 (r_reg s) (zlen l) l) as [[p|]|e|] eqn:Ep; try done;
    [|by left|subst e; by right; left].
  right. right. cbn [mbind Res_bind].
  pose proof (plan_to_read_nonneg (r_reg s) l p Hr Hp) as Ht0.
  destruct (phase2_ok p s Hb Hl Hp Ht0) as (f&b2&Ef&Hf&E2&W2&C2&Hlk).
  fold l in Ef, C2, Hlk. rewrite Ef. cbn [mbind Res_bind].
  destruct (plan_slot (r_reg s) l p f Hr Hp Hf Hlk)
    as (i&r1&s0&Eg&Hr1&Hs0&Hcs&Hw&Hfit&Hbud&Hcap&Hcnt).
  rewrite Eg, Hs0. cbn [mbind Res_bind or_panic].
  pose proof (pk_avail _ _ _ Hp) as Hav. pose proof (pk_hs _ _ _ Hp) as Hhs.
  pose proof (header_len_pos p ltac:(lia)) as Hhl.
  set (d := ztake (p_to_read p) (zdrop (header_len p) l)).
  assert (zlen d = p_to_read p) as Hd by (unfold d; zlia).
  pose proof (proj1 W2) as W2'.
  destruct (phase3_ok p f (set_buf b2 s) d (zdrop (p_to_read p) (zdrop (header_len p) l)) i r1 s0)
    as (b'&Wb'&Cb'&E3); try done.
  { simpl. rewrite C2. unfold d. by rewrite ztake_zdrop_app. }
  assert (bytes_ok d) as Hy by by apply bytes_ok_slice.
  pose proof (wf_advance p f d i r1 s0 Hr1 Hs0 Hw Hfit Hd Hy Hcap Hcnt) as Hwf.
  pose proof (advance_delivers p f s0 d Hw Hfit Hd Hy) as Hdel.
  pose proof (Buffer.after_trans _ _ _ W2 Wb'). rewrite zdrop_zdrop in Cb' by lia. cbv beta.
  destruct (advance p f d s0) as [t out] eqn:Ea. simpl in Hwf.
  eexists _, _, out, p, f, i, r1, s0, t, b'. split_and!; [done| |by rewrite (bind_ok _ _ _ _ _ E2), E3|done..].
  constructor; try done; lia.
Qed.

(** * [chunk_read_owned] *)

(** The reference for [chunk_read_owned]: as [spec_chunk], payload moved out. *)
Definition spec_owned (r : ChunkRegistry) (l : bytes)
    : Res (option (Z * ChunkRegistry * option (ChunkMessage * bytes))) :=
  o ← spec_chunk r l;
  match o with
  | Some (n, r', Some (m, d)) =>
      x ← Registry.live_index (m_csid m) r';
      r'' ← match x with
            | Some i => Registry.update_stream i (ChunkStream.set_last_payload []) r'
            | None => Ok r'
            end;
      Ok (Some (n, r'', Some (m, d)))
  | o => Ok o
  end.

Lemma advance_last_payload p f d s t m pl :
  advance p f d s = (t, Some (m, pl)) → last_payload t = pl ∧ m_csid m = p_csid p
    ∧ is_complete m = true.
Proof.
  unfold advance. case_match; [|done].
  match goal with |- context [Buffer.take ?b] => destruct (Buffer.take b) as [x y] end.
  intros E. by simplify_eq.
Qed.

(** Moving a payload out of its slot keeps the invariant. *)
Lemma wf_payload_moved i t r : Registry.wf r → streams r !! i = Some t →
  Registry.wf (Registry.set_streams
    (<[i := ChunkStream.set_last_payload [] t]> (streams r)) r).
Proof.
  intros H Ht. set (t' := ChunkStream.set_last_payload [] t).
  pose proof (Registry.r_cap_bytes _ H). pose proof (Registry.r_cap_count _ H).
  assert (Registry.held t' = Registry.held t) as Eh by done.
  assert (Registry.active t' = Registry.active t) as Ea by done.
  replace (Registry.set_streams _ r) with (Registry.replaced i t t' r).
  - apply Registry.wf_replaced; try done; rewrite ?Eh, ?Ea; try lia.
    destruct (Registry.wf_lookup _ _ _ H Ht). by constructor.
  - unfold Registry.replaced. rewrite Eh, Ea, !Z.sub_add. by destruct r.
Qed.

(** The out-parameters and registry after [chunk_read_owned]. *)
Lemma chunk_read_owned_cases s : input_ok s →
  let l := Buffer.contents (r_buf s) in
  (spec_owned (r_reg s) l = Ok None ∧ chunk_read_owned s = (Ok (0, []), s))
  ∨ (spec_owned (r_reg s) l = Err Chunk ∧ chunk_read_owned s = (Err Chunk, s))
  ∨ ∃ n r' out i b',
      spec_owned (r_reg s) l = Ok (Some (n, r', out)) ∧ 1 ≤ n ≤ zlen l ∧ Registry.wf r'
      ∧ chunk_read_owned s
        = (Ok (rc_of out, default [] (snd <$> out)), outputs i out b' r' s)
      ∧ Buffer.after (r_buf s) b' ∧ Buffer.contents b' = zdrop n l
      ∧ match out with Some (m, _) => is_complete m = true | None => True end.
Proof.
  intros Hin l. unfold spec_owned.
  destruct (chunk_read_cases s Hin) as [[Es Er]|[[Es Er]|H]].
  - left. fold l in Es. rewrite Es. split; [done|]. unfold chunk_read_owned.
    etrans; [apply bind_ok, Er|]. done.
  - right. left. fold l in Es. rewrite Es. split; [done|]. by apply bind_err.
  - right. right. destruct H as (n&r'&out&p&f&i&r1&s0&t&b'&Es&Hc&Er&Wb&Cb). fold l in Es, Hc, Cb.
    rewrite Es. cbn [mbind Res_bind]. destruct Hc.
    destruct out as [[m pl]|].
    + destruct (advance_last_payload _ _ _ _ _ _ _ cd_advance0) as (Hpl&Hm&Hco).
      subst r'. pose proof (lookup_lt_Some _ _ _ cd_stream0) as Hi.
      rewrite Registry.live_index_spec by done. cbn [mbind Res_bind].
      assert (csid_index (Registry.replaced i s0 t r1) !! m_csid m = Some i) as Hx.
      { simpl. rewrite Hm, <- cd_csid0. by apply (Registry.r_complete r1 cd_wf2). }
      assert (streams (Registry.replaced i s0 t r1) !! i = Some t) as Ht
        by (simpl; by rewrite list_lookup_insert_eq).
      pose proof (wf_payload_moved _ _ _ cd_wf0 Ht) as Hwf.
      set (r' := Registry.replaced i s0 t r1) in *. clearbody r'.
      assert (Registry.update_stream i (ChunkStream.set_last_payload []) r'
        = Ok (Registry.set_streams (<[i := ChunkStream.set_last_payload [] t]> (streams r')) r'))
        as Eu by (unfold Registry.update_stream; by rewrite Ht).
      rewrite Hx, Eu. cbn [mbind Res_bind].
      eexists n, _, (Some (m, pl)), i, b'. split_and!; try done; try lia.
      unfold chunk_read_owned. etrans; [apply bind_ok, Er|].
      etrans; [by apply bind_ok|]. simpl. rewrite Hco.
      etrans; [apply bind_ok; unfold lift; by rewrite Registry.live_index_spec|]. cbv beta.
      simpl. rewrite Hx.
      etrans; [apply bind_ok; unfold the_stream; simpl; by rewrite Ht|].
      etrans; [apply bind_ok; unfold upd_stream, upd_reg; simpl; by rewrite Eu|].
      by rewrite Hpl.
    + eexists n, r', None, i, b'. split_and!; try done; try lia.
      unfold chunk_read_owned. etrans; [apply bind_ok, Er|]. done.
Qed.

(** What it delivers are bytes. *)
Lemma chunk_read_owned_bytes s : input_ok s → ∀ n r' m d,
  spec_owned (r_reg s) (Buffer.contents (r_buf s)) = Ok (Some (n, r', Some (m, d))) → bytes_ok d ∧ is_u32 (timestamp m).
Proof.
  intros Hin n r' m d. unfold spec_owned.
  destruct (chunk_read_cases s Hin) as [[-> _]|[[-> _]|H]]; [done..|].
  destruct H as (n0&r0&o&p&f&i&r1&s0&t&b'&->&Hc&_). cbn [mbind Res_bind].
  destruct o as [[m0 d0]|]; [|done]. pose proof (cd_bytes _ _ _ _ _ _ _ _ _ _ _ Hc m0 d0 eq_refl) as Hd.
  intros E. destruct (Registry.live_index (m_csid m0) r0) as [[x|]|e|]; simpl in E; [|congruence|done..].
  destruct (Registry.update_stream _ _ r0); simpl in E; congruence.
Qed.

(** * Segmentation independence *)

(** [b] is the outcome on a longer input: a decision already reached on the
    shorter input ([a]) stands. *)
Definition stable {A} (a b : Res (option A)) : Prop :=
  match a with Panic | Ok None => True | _ => b = a end.
(** An access that does not panic on the shorter input gives the same value. *)
Definition extends {A} (a b : Res A) : Prop := a = Panic ∨ a = b.

Lemma extends_refl {A} (a : Res A) : extends a a.
Proof. by right. Qed.

Lemma extends_bind {A B} (a b : Res A) (f g : A → Res B) :
  extends a b → (∀ x, extends (f x) (g x)) → extends (a ≫= f) (b ≫= g).
Proof. intros [->| ->] H; [by left|]. destruct b as [x|e|]; cbn; [apply H|by right..]. Qed.

Lemma extends_zidx (l k : bytes) i : extends (zidx l i) (zidx (l ++ k) i).
Proof.
  destruct (zidx l i) as [x|e|] eqn:E; [|by unfold zidx in E; destruct (zget l i)|by left].
  right. symmetry. by apply zidx_app.
Qed.

Lemma extends_u24_at (l k : bytes) i : extends (u24_at l i) (u24_at (l ++ k) i).
Proof.
  unfold u24_at. repeat (apply extends_bind; [apply extends_zidx|intros ?]). apply extends_refl.
Qed.

Lemma stable_bind {A B} (a b : Res A) (f g : A → Res (option B)) :
  extends a b → (∀ x, stable (f x) (g x)) → stable (a ≫= f) (b ≫= g).
Proof. intros [->| ->] H; [done|]. destruct b as [x|e|]; cbn; [apply H|done..]. Qed.

Lemma stable_need {A} (l k : bytes) n (x y : Res (option A)) : stable x y →
  stable (if zlen l <? n then Ok None else x) (if zlen (l ++ k) <? n then Ok None else y).
Proof.
  intros H. destruct (Z.ltb_spec (zlen l) n); [done|].
  destruct (Z.ltb_spec (zlen (l ++ k)) n); [zlia|done].
Qed.

Lemma stable_refl {A} (a : Res (option A)) : stable a a.
Proof. by destruct a as [[x|]|e|]. Qed.

Create HintDb stable.
#[local] Hint Resolve extends_refl extends_zidx extends_u24_at stable_need stable_refl : stable.

Lemma parse_basic_stable l k low :
  stable (parse_basic (zlen l) l low) (parse_basic (zlen (l ++ k)) (l ++ k) low).
Proof.
  unfold parse_basic. destruct (low =? 0), (low =? 1); try apply stable_need;
    repeat (apply stable_bind; [auto with stable|intros ?]); apply stable_refl.
Qed.

Lemma plan_payload_stable r l k c fmt hs ext n :
  stable (plan_payload r (zlen l) l c fmt hs ext n)
    (plan_payload r (zlen (l ++ k)) (l ++ k) c fmt hs ext n).
Proof.
  unfold plan_payload. apply stable_bind.
  { unfold eff_len_for_avail. case_match; auto with stable. }
  intros len. destruct (max_msg_length r <? len); [done|].
  apply stable_bind; [apply extends_refl|]. intros o.
  match goal with |- stable (let '(_, _) := ?x in _) _ => destruct x as [cs rd] end.
  apply stable_bind; [apply extends_refl|]. intros []; [done|].
  apply stable_bind; [apply extends_refl|]. intros []; [done|].
  apply stable_bind; [apply extends_refl|]. intros []; [|done]. simpl.
  apply stable_need, stable_refl.
Qed.

Lemma phase1_stable r l k :
  stable (phase1 r (zlen l) l) (phase1 r (zlen (l ++ k)) (l ++ k)).
Proof.
  unfold phase1. apply stable_bind; [apply extends_zidx|]. intros first.
  pose proof (parse_basic_stable l k (first .& 63)) as Hb.
  destruct (parse_basic (zlen l) l _) as [[[c hs]|]|e|]; simpl in Hb; try rewrite Hb; try done.
  cbn [mbind Res_bind]. apply stable_bind; [apply extends_refl|]. intros fs.
  apply stable_need.
  apply stable_bind; [apply extends_refl|]. intros []; [done|].
  apply stable_bind; [apply extends_refl|]. intros []; [done|].
  apply stable_bind.
  { case_match; [|apply extends_refl].
    apply extends_bind; [apply extends_u24_at|intros; apply extends_refl]. }
  intros h. apply stable_bind; [apply extends_refl|]. intros st.
  apply stable_need, plan_payload_stable.
Qed.

(** A chunk decided on a prefix of the input is decided the same way whatever
    follows. *)
Lemma spec_chunk_stable r l k : Registry.wf r → bytes_ok l →
  stable (spec_chunk r l) (spec_chunk r (l ++ k)).
Proof.
  intros Hr Hl. unfold spec_chunk.
  destruct (Z.ltb_spec (zlen l) 1) as [|Hn]; [done|].
  destruct (Z.ltb_spec (zlen (l ++ k)) 1); [zlia|].
  pose proof (phase1_ok r l Hr Hl ltac:(lia)) as Hp. pose proof (phase1_stable r l k) as Hs.
  destruct (phase1 r (zlen l) l) as [[p|]|e|]; simpl in Hs; try rewrite Hs; try done.
  cbn [mbind Res_bind].
  pose proof (pk_avail _ _ _ Hp) as Ha. pose proof (pk_hs _ _ _ Hp).
  pose proof (header_len_pos p ltac:(lia)). pose proof (field_size_bounds (p_fmt p)).
  pose proof (plan_to_read_nonneg r l p Hr Hp).
  assert (spec_fields p (l ++ k) = spec_fields p l) as ->.
  { unfold header_len in Ha. unfold spec_fields.
    rewrite slice_app_l by (destruct (p_ext_ts p); lia).
    destruct (p_ext_ts p); [|done]. by rewrite !zdrop_zdrop, slice_app_l by lia. }
  rewrite slice_app_l by lia. apply stable_refl.
Qed.

(** * Main theorems *)

(** C3. [chunk_read] agrees with the reference reader on the unread bytes: it
    leaves everything untouched when the bytes do not yet hold a whole chunk
    or the chunk is rejected, and otherwise consumes exactly the bytes of one
    chunk, moves to the reference registry, and reports a message exactly when
    the reference completes one. *)
Theorem chunk_read_refines s : input_ok s →
  let l := Buffer.contents (r_buf s) in
  match spec_chunk (r_reg s) l with
  | Ok None => chunk_read s = (Ok 0, s)
  | Err e => e = Chunk ∧ chunk_read s = (Err Chunk, s)
  | Panic => False
  | Ok (Some (n, r', out)) => 1 ≤ n ≤ zlen l ∧ Registry.wf r' ∧
      ∃ i b', chunk_read s = (Ok (rc_of out), outputs i out b' r' s)
        ∧ Buffer.after (r_buf s) b' ∧ Buffer.contents b' = zdrop n l
        ∧ match out with
          | Some (_, d) => last_payload <$> streams r' !! i = Some d
          | None => True
          end
  end.
Proof.
  intros Hin. cbv zeta.
  destruct (chunk_read_cases s Hin) as [[Es Er]|[[Es Er]|H]]; [by rewrite Es..|].
  destruct H as (n&r'&out&p&f&i&r1&s0&t&b'&Es&Hc&Er&Wb&Cb). rewrite Es. destruct Hc.
  split_and!; try done; try lia. exists i, b'. split_and!; try done.
  destruct out as [[m d]|]; [|done]. subst r'. simpl.
  rewrite list_lookup_insert_eq by (by eapply lookup_lt_Some). simpl. f_equal.
  apply (advance_last_payload _ _ _ _ _ _ _ cd_advance0).
Qed.

(** A fresh connection holding the given bytes. *)
Definition start (l : bytes) : RState :=
  mkR (Buffer.from_slice l) Registry.new (mkMsg 0 0 0 0 0 0 false) None 0.

Lemma start_ok l : bytes_ok l → input_ok (start l).
Proof.
  intros. constructor; simpl; [apply Buffer.wf_from_slice| |apply Registry.registry_wf_new].
  by rewrite Buffer.contents_from_slice.
Qed.

(** One audio message in a single chunk, followed by one stray byte. *)
Definition sample : bytes := [3; 0; 0; 10; 0; 0; 2; 8; 1; 0; 0; 0; 7; 9; 3].

Lemma sample_ok : bytes_ok sample.
Proof. repeat constructor; ulia. Qed.

Lemma chunk_read_refines_witness :
  ∃ i b' r', chunk_read (start sample)
    = (Ok 1, outputs i (Some (mkMsg 3 0 10 2 8 1 true, [7; 9])) b' r' (start sample))
    ∧ Buffer.contents b' = [3].
Proof.
  pose proof (chunk_read_refines (start sample) (start_ok sample sample_ok)) as H.
  cbv zeta in H. change (Buffer.contents (r_buf (start sample))) with sample in H.
  assert (∃ r', spec_chunk (r_reg (start sample)) sample
    = Ok (Some (14, r', Some (mkMsg 3 0 10 2 8 1 true, [7; 9])))) as [r' E]
    by (eexists; vm_compute; reflexivity).
  rewrite E in H. destruct H as (_&_&i&b'&Er&_&Eb&_).
  exists i, b', r'. split; [exact Er|exact Eb].
Defined.

(** C4. [chunk_read] never panics on well-formed state, whatever bytes the
    peer sends; its only error is [Chunk] and then nothing at all has changed;
    and it keeps the buffer and registry invariants, so the chunk-stream
    table, the active-message count and the reassembly bytes never exceed
    their caps. *)
Theorem chunk_read_safe s : input_ok s →
  ∃ res s', chunk_read s = (res, s') ∧ input_ok s' ∧
    match res with
    | Ok rc => rc = 0 ∨ rc = 1 ∧ is_complete (r_msg s') = true
    | Err e => e = Chunk ∧ s' = s
    | Panic => False
    end.
Proof.
  intros Hin. destruct (chunk_read_cases s Hin) as [[_ Er]|[[_ Er]|H]].
  { exists (Ok 0), s. split_and!; [done..|by left]. }
  { exists (Err Chunk), s. by split_and!. }
  destruct H as (n&r'&out&p&f&i&r1&s0&t&b'&Es&Hc&Er&Wb&Cb). destruct Hc.
  do 2 eexists. split; [done|]. split.
  - assert (bytes_ok (Buffer.contents b'))
      by (rewrite Cb; apply Forall_zdrop, Hin).
    destruct Wb. destruct out as [[m d]|]; by constructor.
  - destruct out as [[m d]|]; [|by left]. right. split; [done|].
    apply (advance_last_payload _ _ _ _ _ _ _ cd_advance0).
Qed.

Lemma chunk_read_safe_witness :
  ∃ res s', chunk_read (start [130; 1; 2; 3]) = (res, s') ∧ res = Err Chunk
    ∧ s' = start [130; 1; 2; 3].
Proof.
  destruct (chunk_read_safe (start [130; 1; 2; 3])
    (start_ok [130; 1; 2; 3] ltac:(repeat constructor; ulia))) as (res&s'&E&_&H).
  exists res, s'. assert (res = Err Chunk) as -> by (change res with (res, s').1;
    rewrite <- E; by vm_compute). by destruct H.
Defined.

End Reader.
