(* ===== verification/ReadLoop.v ===== *)
(** The receiving side of src/session/conn.rs over the chunk reader, with the
    message handler as a parameter: [Conn::read_messages], [Conn::recv] past the
    handshake, and the proof that what they deliver does not depend on how the
    byte stream was segmented into socket reads. *)
From S2P Require Import Prelude Bytes Buffer ChunkState ChunkWriter ChunkReader.

Module ReadLoop.
Import Reader.

(** A delivered message. *)
Abbreviation delivery := (ChunkMessage * bytes)%type.

Definition default_msg : ChunkMessage := mkMsg 0 0 0 0 0 0 false.

Definition set_msg (m : ChunkMessage) (s : RState) : RState :=
  mkR (r_buf s) (r_reg s) m (r_payload s) (r_payload_len s).

(** The code [read_messages] returns when [handle_message] fails. *)
Definition handler_code (e : ErrorCode) : Z :=
  match e with Auth => -8 | Internal => -9 | _ => -3 end.

(** The code it returns when the chunk reader fails. *)
Definition reader_code (e : ErrorCode) : Z :=
  match e with Chunk => -5 | _ => -1 end.

(** How a call ended: an error code that closes the connection, a refusal of
    the bytes because too many are unread (the code -3), a wait for more bytes
    (the code 1), or a panic. *)
Inductive ending : Type :=
  | Closed (code : Z)
  | Refused
  | Waiting
  | Crashed.

(** At most this many messages per call, and this much sub-track work. *)
Definition MAX_MESSAGES_PER_READ : Z := 256.
Definition MAX_MESSAGES_PER_RECV : Z := 256.
Definition MAX_TRACKS_PER_RECV : Z := 65536.

(** At most this many unread bytes. *)
Definition MAX_RECV_BUFFER_BYTES : Z := 2 * DEFAULT_MAX_MSG_LENGTH.

(** The part of [Conn] the loop works on; [l_host] is what the message handler
    works on. *)
Record LState (X : Type) : Type := mkL {
  l_read : RState;
  l_host : X;
  recv_track_budget : Z;
  budget_exhausted : bool;
}.
Arguments mkL {X}.
Arguments l_read {X}.
Arguments l_host {X}.
Arguments recv_track_budget {X}.
Arguments budget_exhausted {X}.

(** As [Conn::new] leaves the budgets. *)
Definition fresh {X} (s : RState) (x : X) : LState X := mkL s x MAX_TRACKS_PER_RECV false.

Definition set_read {X} (s : RState) (c : LState X) : LState X :=
  mkL s (l_host c) (recv_track_budget c) (budget_exhausted c).
Definition set_exhausted {X} (v : bool) (c : LState X) : LState X :=
  mkL (l_read c) (l_host c) (recv_track_budget c) v.

(** What a call of the loop hands back: the messages given to the handler, how
    it ended, the message budget left, and the connection. *)
Abbreviation outcome X := (list delivery * ending * Z * LState X)%type.

Definition record_delivery {X} (d : delivery) (o : outcome X) : outcome X :=
  let '(ds, e, mb, c) := o in (d :: ds, e, mb, c).

(** Deliveries ahead of an outcome. *)
Definition prepend {X} (ds : list delivery) (o : list delivery * ending * X) :=
  let '(ds', e, x) := o in (ds ++ ds', e, x).

Section loop.
Context {X : Type}.
(** [handle_message]: what it does to its own state and to the chunk registry
    (Set Chunk Size and Abort reach it) or its error, and what it leaves of the
    message and track budgets. *)
Context (handle : delivery → X * ChunkRegistry → Res (X * ChunkRegistry)).
Context (charge : delivery → Z * Z → Z * Z).

(** The loop of [read_messages]; each turn that goes on has consumed at least
    one byte, so the unread length bounds the turns. *)
Fixpoint read_loop (fuel : nat) (processed mb : Z) (c : LState X) : outcome X :=
  match fuel with
  | O => ([], Waiting, mb, c)
  | S fuel =>
      if (MAX_MESSAGES_PER_READ <=? processed) || (mb =? 0) || (recv_track_budget c =? 0)
      then ([], Waiting, mb, set_exhausted true c)
      else
        let before := Buffer.available (r_buf (l_read c)) in
        match chunk_read_owned (set_msg default_msg (l_read c)) with
        | (Ok (rc, payload), s) =>
            if rc =? 1 then
              if is_complete (r_msg s) then
                let d := (r_msg s, payload) in
                match handle d (l_host c, r_reg s) with
                | Ok (x, g) =>
                    let '(mb, tb) := charge d (mb, recv_track_budget c) in
                    record_delivery d
                      (read_loop fuel (processed + 1) mb
                         (mkL (set_reg g s) x tb (budget_exhausted c)))
                | Err e => ([d], Closed (handler_code e), mb, set_read s c)
                | Panic => ([d], Crashed, mb, set_read s c)
                end
              else read_loop fuel processed mb (set_read s c)
            else if before <=? Buffer.available (r_buf s) then ([], Waiting, mb, set_read s c)
            else read_loop fuel processed mb (set_read s c)
        | (Err e, s) => ([], Closed (reader_code e), mb, set_read s c)
        | (Panic, s) => ([], Crashed, mb, set_read s c)
        end
  end.

(** The track budget re-armed and the flag cleared at the start of a call. *)
Definition rearm (c : LState X) : LState X :=
  mkL (l_read c) (l_host c)
    (if recv_track_budget c =? 0 then MAX_TRACKS_PER_RECV else recv_track_budget c) false.

Definition read_messages (mb : Z) (c : LState X) : outcome X :=
  read_loop (S (Z.to_nat (Buffer.available (r_buf (l_read c))))) 0 mb (rearm c).

(** The loop [while max_iter > 0] of [recv], in a state past the handshake and
    not closing, where [process] is [read_messages]. *)
Fixpoint recv_loop (max_iter : nat) (no_progress mb : Z) (c : LState X)
    : list delivery * ending * LState X :=
  match max_iter with
  | O => ([], Waiting, c)
  | S max_iter =>
      if (mb =? 0) || (recv_track_budget c =? 0) then ([], Waiting, set_exhausted true c) else
      let before := Buffer.available (r_buf (l_read c)) in
      if before =? 0 then ([], Waiting, c) else
      let '(ds, e, mb, c) := read_messages mb c in
      match e with
      | Waiting =>
          let after := Buffer.available (r_buf (l_read c)) in
          let no_progress := if after =? before then no_progress + 1 else 0 in
          if (after =? before) && (3 <? no_progress) then (ds, Waiting, c) else
          if after =? 0 then (ds, Waiting, c)
          else prepend ds (recv_loop max_iter no_progress mb c)
      | _ => (ds, e, c)
      end
  end.

(** [Conn::recv] up to the acknowledgement it may queue for the peer: refuse
    the bytes or stage them, then run the loop and give memory back. *)
Definition recv (data : bytes) (c : LState X) : list delivery * ending * LState X :=
  if negb (bool_decide (data = []))
     && (MAX_RECV_BUFFER_BYTES <? saturating_add (Buffer.available (r_buf (l_read c))) (zlen data))
  then ([], Refused, c) else
  match Buffer.write data (r_buf (l_read c)) with
  | (Ok _, b) =>
      let '(ds, e, c) := recv_loop 256 0 MAX_MESSAGES_PER_RECV
        (mkL (set_buf b (l_read c)) (l_host c) MAX_TRACKS_PER_RECV false) in
      match e with
      | Waiting =>
          match Buffer.release_excess RECV_BUFFER_KEEP_CAPACITY (r_buf (l_read c)) with
          | Ok b => (ds, Waiting, set_read (set_buf b (l_read c)) c)
          | _ => (ds, Crashed, c)
          end
      | _ => (ds, e, c)
      end
  | (Err _, b) => ([], Closed (-9), set_read (set_buf b (l_read c)) c)
  | (Panic, b) => ([], Crashed, set_read (set_buf b (l_read c)) c)
  end.

(** A host's calls of [recv], in order until the connection closes. A call with
    no bytes is one the host makes for what a budget stop left unread. *)
Fixpoint serve (segs : list bytes) (c : LState X) : list delivery * ending * LState X :=
  match segs with
  | [] => ([], Waiting, c)
  | seg :: segs =>
      match recv seg c with
      | (ds, Waiting, c') => prepend ds (serve segs c')
      | out => out
      end
  end.

Definition has_buffered_messages (c : LState X) : bool := budget_exhausted c.

(** * The same loop on the list of unread bytes *)

Fixpoint drain (fuel : nat) (g : X * ChunkRegistry) (l : bytes)
    : list delivery * ending * (X * ChunkRegistry * bytes) :=
  match fuel with
  | O => ([], Waiting, (g, l))
  | S fuel =>
      match spec_owned g.2 l with
      | Ok None => ([], Waiting, (g, l))
      | Err e => ([], Closed (reader_code e), (g, l))
      | Panic => ([], Crashed, (g, l))
      | Ok (Some (n, r, None)) => drain fuel (g.1, r) (zdrop n l)
      | Ok (Some (n, r, Some d)) =>
          match handle d (g.1, r) with
          | Ok g => prepend [d] (drain fuel g (zdrop n l))
          | Err e => ([d], Closed (handler_code e), ((g.1, r), zdrop n l))
          | Panic => ([d], Crashed, ((g.1, r), zdrop n l))
          end
      end
  end.

Definition run (g : X * ChunkRegistry) (l : bytes) := drain (S (length l)) g l.

(** The handler keeps the registry invariant. *)
Context (handle_wf : ∀ d g g', Registry.wf g.2 → handle d g = Ok g' → Registry.wf g'.2).

Lemma spec_owned_ok r l : Registry.wf r → bytes_ok l →
  match spec_owned r l with
  | Ok (Some (n, r', _)) => 1 ≤ n ≤ zlen l ∧ Registry.wf r'
  | Ok None => True
  | Err e => e = Chunk
  | Panic => False
  end.
Proof.
  intros Hr Hl. set (s := mkR (Buffer.from_slice l) r default_msg None 0).
  assert (input_ok s) as Hs.
  { constructor; simpl; [apply Buffer.wf_from_slice| |done].
    by rewrite Buffer.contents_from_slice. }
  pose proof (chunk_read_owned_cases s Hs) as H. cbv zeta in H.
  simpl in H. rewrite Buffer.contents_from_slice in H.
  destruct H as [[-> _]|[[-> _]|(n&r'&out&i&b'&->&?&?&_)]]; done.
Qed.

Lemma spec_owned_stable r l k : Registry.wf r → bytes_ok l →
  stable (spec_owned r l) (spec_owned r (l ++ k)).
Proof.
  intros Hr Hl. pose proof (spec_chunk_stable r l k Hr Hl) as H. unfold spec_owned.
  destruct (spec_chunk r l) as [[x|]|e|]; simpl in H; try rewrite H; try done. apply stable_refl.
Qed.

Lemma length_zdrop_lt n (l : bytes) f : 1 ≤ n ≤ zlen l → (length l < S f)%nat →
  (length (zdrop n l) < f)%nat.
Proof. unfold zlen, zdrop. rewrite length_drop. lia. Qed.

(** Enough fuel is enough. *)
Lemma drain_fuel f f' g l : Registry.wf g.2 → bytes_ok l →
  (length l < f)%nat → (length l < f')%nat → drain f g l = drain f' g l.
Proof.
  revert f' g l. induction f as [|f IH]; intros [|f'] g l Hr Hl Hf Hg; try lia. simpl.
  pose proof (spec_owned_ok g.2 l Hr Hl) as Ho.
  destruct (spec_owned g.2 l) as [[[[n r'] out]|]|e|]; try done. destruct Ho as [Hn Hr'].
  assert (bytes_ok (zdrop n l)) by (by apply Forall_zdrop).
  destruct out as [d|].
  - destruct (handle d (g.1, r')) as [g'|e|] eqn:Eh; try done.
    rewrite (IH f' g' (zdrop n l)); eauto using length_zdrop_lt.
    by eapply (handle_wf d (g.1, r')).
  - apply IH; eauto using length_zdrop_lt.
Qed.

Lemma run_eq g l : Registry.wf g.2 → bytes_ok l →
  run g l =
    match spec_owned g.2 l with
    | Ok None => ([], Waiting, (g, l))
    | Err e => ([], Closed (reader_code e), (g, l))
    | Panic => ([], Crashed, (g, l))
    | Ok (Some (n, r, None)) => run (g.1, r) (zdrop n l)
    | Ok (Some (n, r, Some d)) =>
        match handle d (g.1, r) with
        | Ok g => prepend [d] (run g (zdrop n l))
        | Err e => ([d], Closed (handler_code e), ((g.1, r), zdrop n l))
        | Panic => ([d], Crashed, ((g.1, r), zdrop n l))
        end
    end.
Proof.
  intros Hr Hl. unfold run at 1. simpl drain.
  pose proof (spec_owned_ok g.2 l Hr Hl) as Ho.
  destruct (spec_owned g.2 l) as [[[[n r'] out]|]|e|]; try done. destruct Ho as [Hn Hr'].
  assert (bytes_ok (zdrop n l)) by (by apply Forall_zdrop).
  assert (length (zdrop n l) < length l)%nat by (apply length_zdrop_lt; [done|lia]).
  destruct out as [d|].
  - destruct (handle d (g.1, r')) as [g'|e|] eqn:Eh; try done.
    unfold run. rewrite (drain_fuel _ (S (length (zdrop n l))) g' (zdrop n l)); eauto with lia.
    by eapply (handle_wf d (g.1, r')).
  - unfold run. apply drain_fuel; auto; lia.
Qed.

(** A chunk on the wire is the same chunk with more bytes behind it. *)
Lemma run_chunk g l k n r out : Registry.wf g.2 → bytes_ok l → bytes_ok k →
  spec_owned g.2 l = Ok (Some (n, r, out)) →
  run g (l ++ k) =
    match out with
    | None => run (g.1, r) (zdrop n l ++ k)
    | Some d =>
        match handle d (g.1, r) with
        | Ok g => prepend [d] (run g (zdrop n l ++ k))
        | Err e => ([d], Closed (handler_code e), ((g.1, r), zdrop n l ++ k))
        | Panic => ([d], Crashed, ((g.1, r), zdrop n l ++ k))
        end
    end.
Proof.
  intros Hr Hl Hk E. rewrite run_eq by (done || by apply Forall_app).
  pose proof (spec_owned_ok g.2 l Hr Hl) as Ho. pose proof (spec_owned_stable g.2 l k Hr Hl) as Hs.
  rewrite E in Ho, Hs. simpl in Hs. rewrite Hs. destruct Ho as [Hn _].
  rewrite zdrop_app_l by lia. done.
Qed.

(** * The concrete loop *)

Lemma set_msg_ok m s : input_ok s → input_ok (set_msg m s).
Proof. intros []. by constructor. Qed.

(** The unread bytes of a connection, and the loop on them and more. *)
Definition unread (c : LState X) : bytes := Buffer.contents (r_buf (l_read c)).
Definition run_from (c : LState X) (k : bytes) := run (l_host c, r_reg (l_read c)) (unread c ++ k).

(** A connection that waits for bytes: nothing but part of a chunk is unread. *)
Definition quiet (c : LState X) : Prop := spec_owned (r_reg (l_read c)) (unread c) = Ok None.

Lemma run_quiet c : input_ok (l_read c) → quiet c →
  run_from c [] = ([], Waiting, ((l_host c, r_reg (l_read c)), unread c)).
Proof.
  intros [] H. unfold run_from. rewrite app_nil_r, run_eq by done. simpl. by rewrite H.
Qed.

(** A connection that has gone on from another: same invariant, same limit, no
    more unread bytes. *)
Record continues (c c' : LState X) : Prop := {
  cn_ok : input_ok (l_read c');
  cn_limit : Buffer.limit (r_buf (l_read c')) = Buffer.limit (r_buf (l_read c));
  cn_len : zlen (unread c') ≤ zlen (unread c);
}.

Lemma continues_refl c : input_ok (l_read c) → continues c c.
Proof. by constructor. Qed.
Lemma continues_trans c1 c2 c3 : continues c1 c2 → continues c2 c3 → continues c1 c3.
Proof. intros [] []. constructor; [done|congruence|lia]. Qed.

(** How an outcome accounts for the loop on the unread bytes, whatever bytes
    come later. *)
Definition accounts (c : LState X) (ds : list delivery) (e : ending) (c' : LState X) : Prop :=
  match e with
  | Waiting => continues c c' ∧ ∀ k, bytes_ok k → run_from c k = prepend ds (run_from c' k)
  | _ => e ≠ Refused ∧ ∀ k, bytes_ok k → (run_from c k).1 = (ds, e)
  end.

(** It reads all there is unless it reports a budget stop, and then it has
    read something if there was something to read. *)
Definition advances (c : LState X) (e : ending) (c' : LState X) : Prop :=
  e = Waiting → (budget_exhausted c' = false → quiet c')
    ∧ (quiet c ∨ zlen (unread c') < zlen (unread c)).

Lemma prepend_app ds ds' (o : list delivery * ending * (X * ChunkRegistry * bytes)) :
  prepend ds (prepend ds' o) = prepend (ds ++ ds') o.
Proof. destruct o as [[? ?] ?]. simpl. by rewrite app_assoc. Qed.

Lemma prepend_nil (o : list delivery * ending * (X * ChunkRegistry * bytes)) : prepend [] o = o.
Proof. by destruct o as [[? ?] ?]. Qed.

Lemma accounts_trans c c1 c2 ds ds' e : continues c c1 →
  (∀ k, bytes_ok k → run_from c k = prepend ds (run_from c1 k)) →
  accounts c1 ds' e c2 → accounts c (ds ++ ds') e c2.
Proof.
  intros Hc E Ha. unfold accounts in *.
  destruct e; (destruct Ha as [H1 H2]; split; [by eauto using continues_trans|]); intros k Hk;
    rewrite E, ?H2, ?prepend_app by done; try done;
    specialize (H2 k Hk); destruct (run_from c1 k) as [[? ?] ?]; simpl in *; congruence.
Qed.

Lemma accounts_refl c c' : input_ok (l_read c) → l_read c' = l_read c → l_host c' = l_host c →
  accounts c [] Waiting c'.
Proof.
  intros Hc E1 E2. unfold accounts, run_from, unread. rewrite E1, E2.
  split; [constructor; unfold unread; by rewrite E1|]. intros k _. by rewrite prepend_nil.
Qed.

Lemma empty_quiet c : input_ok (l_read c) → unread c = [] → quiet c.
Proof. intros [] E. unfold quiet. by rewrite E. Qed.

(** One chunk of the concrete loop. *)
Lemma chunk_accounts c n r out b : input_ok (l_read c) →
  spec_owned (r_reg (l_read c)) (unread c) = Ok (Some (n, r, out)) →
  Buffer.contents b = zdrop n (unread c) → ∀ k, bytes_ok k →
  run_from c k =
    match out with
    | None => run (l_host c, r) (Buffer.contents b ++ k)
    | Some d =>
        match handle d (l_host c, r) with
        | Ok g => prepend [d] (run g (Buffer.contents b ++ k))
        | Err e => ([d], Closed (handler_code e), ((l_host c, r), Buffer.contents b ++ k))
        | Panic => ([d], Crashed, ((l_host c, r), Buffer.contents b ++ k))
        end
    end.
Proof.
  intros Hc E Cb k Hk. unfold run_from. rewrite Cb.
  rewrite (run_chunk _ (unread c) k n r out); [done|apply Hc|apply Hc|done|exact E].
Qed.

Lemma chunk_error c e : input_ok (l_read c) →
  spec_owned (r_reg (l_read c)) (unread c) = Err e → ∀ k, bytes_ok k →
  (run_from c k).1 = ([], Closed (reader_code e)).
Proof.
  intros Hc Es k Hk. unfold run_from.
  rewrite run_eq; [|apply Hc|apply Forall_app; split; [apply Hc|done]]. simpl.
  pose proof (spec_owned_stable _ _ k (in_reg _ Hc) (in_bytes _ Hc)) as Hs. fold (unread c) in Hs.
  rewrite Es in Hs. simpl in Hs. by rewrite Hs.
Qed.

(** What a turn that went on leaves to the turns after it. *)
Lemma turn_goes_on c c1 d (o : outcome X) : continues c c1 → zlen (unread c1) < zlen (unread c) →
  (∀ k, bytes_ok k → run_from c k = prepend d (run_from c1 k)) →
  (let '(ds, e, _, c') := o in accounts c1 ds e c' ∧ (e = Waiting → budget_exhausted c' = false → quiet c')) →
  let '(ds, e, _, c') := o in accounts c (d ++ ds) e c' ∧ advances c e c'.
Proof.
  intros Hc Hlt E. destruct o as [[[ds e] mb] c']. intros [Ha Hq].
  split; [by eapply accounts_trans|]. intros ->. split; [by apply Hq|]. right.
  destruct Ha as [[] _]. lia.
Qed.

(** The loop on the buffer, cut short by its budgets or not, is the loop on the
    unread bytes. *)
Lemma read_loop_accounts fuel p mb c : input_ok (l_read c) → budget_exhausted c = false →
  (length (unread c) < fuel)%nat →
  let '(ds, e, _, c') := read_loop fuel p mb c in
  accounts c ds e c' ∧ (e = Waiting → budget_exhausted c' = false → quiet c')
  ∧ (p < MAX_MESSAGES_PER_READ → mb ≠ 0 → recv_track_budget c ≠ 0 → advances c e c').
Proof.
  revert p mb c. induction fuel as [|fuel IH]; intros p mb c Hc Hx Hf; [lia|]. simpl.
  destruct (_ || _ || _) eqn:Hg; [split_and!; [by apply accounts_refl|done|lia]|].
  pose proof (chunk_read_owned_cases (set_msg default_msg (l_read c)) (set_msg_ok _ _ Hc)) as H.
  cbv zeta in H. change (r_buf (set_msg default_msg (l_read c))) with (r_buf (l_read c)) in H.
  change (r_reg (set_msg default_msg (l_read c))) with (r_reg (l_read c)) in H. fold (unread c) in H.
  destruct H as [[Es ->]|[[Es ->]|(n&r'&out&i&b'&Es&Hn&Hr'&->&[Wb Lb]&Cb&Hco)]].
  - simpl. rewrite (proj2 (Z.leb_le _ _)) by lia.
    split_and!; [|intros _ _; exact Es|intros _ _ _ _; split; [intros _; exact Es|by left]].
    split; [constructor; [by apply set_msg_ok|done..]|]. intros k _. by rewrite prepend_nil.
  - split_and!; [|done..]. split; [done|]. by apply chunk_error.
  - pose proof (chunk_accounts c n r' out b' Hc Es Cb) as ER.
    assert (bytes_ok (Buffer.contents b')) as Hbo by (rewrite Cb; apply Forall_zdrop, Hc).
    assert (length (Buffer.contents b') < fuel)%nat as Hlen
      by (rewrite Cb; by apply length_zdrop_lt).
    assert (zlen (Buffer.contents b') < zlen (unread c)) as Hlt by (rewrite Cb, zlen_zdrop; lia).
    destruct out as [[m d]|]; simpl.
    + rewrite Hco. destruct (handle (m, d) (l_host c, r')) as [[x g]|e|] eqn:Eh;
        [|split_and!; [split; [done|]; intros k Hk; by rewrite ER|done..]..].
      destruct (charge (m, d) (mb, recv_track_budget c)) as [mb' tb]. set (c1 := mkL _ x tb _).
      pose proof (handle_wf _ (l_host c, r') _ Hr' Eh) as Hg'.
      assert (continues c c1) as Hcc by (constructor; [by constructor|done|exact (Z.lt_le_incl _ _ Hlt)]).
      specialize (IH (p + 1) mb' c1 (cn_ok _ _ Hcc) Hx Hlen).
      pose proof (turn_goes_on c c1 [(m, d)] (read_loop fuel (p + 1) mb' c1) Hcc Hlt ER) as H.
      destruct (read_loop fuel (p + 1) mb' c1) as [[[ds e] mb2] c2].
      destruct IH as (Ha&Hq&_), H as [H1 H2]; [done|]. by split_and!.
    + assert ((Buffer.available (r_buf (l_read c)) <=? Buffer.available b') = false) as ->
        by (rewrite !Buffer.available_contents by (done || apply Hc); apply Z.leb_gt, Hlt).
      set (c1 := set_read _ c).
      assert (continues c c1) as Hcc by (constructor; [by constructor|done|exact (Z.lt_le_incl _ _ Hlt)]).
      specialize (IH p mb c1 (cn_ok _ _ Hcc) Hx Hlen).
      pose proof (turn_goes_on c c1 [] (read_loop fuel p mb c1) Hcc Hlt) as H.
      destruct (read_loop fuel p mb c1) as [[[ds e] mb2] c2].
      destruct IH as (Ha&Hq&_), H as [H1 H2]; [|done|by split_and!].
      intros k Hk. by rewrite ER, prepend_nil.
Qed.

Lemma read_messages_accounts mb c : input_ok (l_read c) → mb ≠ 0 →
  let '(ds, e, _, c') := read_messages mb c in accounts c ds e c' ∧ advances c e c'.
Proof.
  intros Hc Hmb. unfold read_messages. rewrite Buffer.available_contents by apply Hc.
  fold (unread c). unfold zlen. rewrite Nat2Z.id.
  pose proof (read_loop_accounts (S (length (unread c))) 0 mb (rearm c) Hc eq_refl
    ltac:(unfold unread; simpl; lia)) as H.
  destruct (read_loop _ _ _ _) as [[[ds e] mb'] c']. destruct H as (Ha&_&Hp). split.
  - unfold accounts in *. destruct e; try done. by destruct Ha as [[] ?].
  - apply Hp; [done|done|]. simpl. by destruct (Z.eqb_spec (recv_track_budget c) 0).
Qed.

(** Nothing unread is a connection that waits. *)
Lemma available_quiet c : input_ok (l_read c) → Buffer.available (r_buf (l_read c)) = 0 → quiet c.
Proof.
  intros Hc E. apply empty_quiet; [done|]. rewrite Buffer.available_contents in E by apply Hc.
  by apply zlen_0_nil.
Qed.

(** Passes over what is unread, as [recv] repeats them: what they deliver, and
    that they stop short only of a budget. *)
Lemma recv_loop_accounts n np mb c : input_ok (l_read c) → (budget_exhausted c = false → n = 0%nat → quiet c) →
  let '(ds, e, c') := recv_loop n np mb c in
  accounts c ds e c' ∧ (e = Waiting → budget_exhausted c' = false → quiet c')
  ∧ (n ≠ 0%nat → mb ≠ 0 → recv_track_budget c ≠ 0 → advances c e c').
Proof.
  revert np mb c. induction n as [|n IH]; intros np mb c Hc Hx; simpl.
  { split; [by apply accounts_refl|]. by split; [auto|]. }
  destruct ((mb =? 0) || _) eqn:Hb; [split; [by apply accounts_refl|]; split; [done|lia]|].
  destruct (Z.eqb_spec (Buffer.available (r_buf (l_read c))) 0) as [E0|E0].
  { pose proof (available_quiet c Hc E0).
    split; [by apply accounts_refl|]. split; [done|]. by split; [|left]. }
  pose proof (read_messages_accounts mb c Hc ltac:(lia)) as H.
  destruct (read_messages mb c) as [[[ds e] mb'] c1]. destruct H as [Ha Hp].
  destruct e; [by (split; [done|split])..| |by (split; [done|split])].
  set (np' := if _ =? Buffer.available (r_buf (l_read c)) then _ else _).
  destruct (_ && _); [split; [done|]; by split; [apply Hp|]|].
  destruct (Z.eqb_spec (Buffer.available (r_buf (l_read c1))) 0); [split; [done|]; by split; [apply Hp|]|].
  destruct (Hp eq_refl) as [Hq Hpr]. destruct Ha as [Hcc Ha].
  pose proof (IH np' mb' c1 (cn_ok _ _ Hcc) ltac:(auto)) as H.
  destruct (recv_loop n np' mb' c1) as [[ds' e] c2]. destruct H as (Ha'&Hq'&_). simpl.
  split; [by eapply accounts_trans|]. split; [done|]. intros _ _ _ ->. split; [by apply Hq'|].
  destruct Ha' as [[] _]. destruct Hpr; [by left|right; lia].
Qed.

(** What [recv] starts its loop from. *)
Definition staged (b : Buffer) (c : LState X) : LState X :=
  mkL (set_buf b (l_read c)) (l_host c) MAX_TRACKS_PER_RECV false.

(** A connection between calls of [recv]: its buffer can hold what [recv]
    accepts, and it has read all there is unless it reports a budget stop. *)
Record ready (c : LState X) : Prop := {
  rd_ok : input_ok (l_read c);
  rd_limit : MAX_RECV_BUFFER_BYTES ≤ Buffer.limit (r_buf (l_read c));
  rd_flag : budget_exhausted c = false → quiet c;
}.

(** One call of [recv]: the bytes are refused, or it delivers messages the loop
    on the unread bytes and the new ones delivers. *)
Lemma recv_accounts seg c : ready c → bytes_ok seg →
  let '(ds, e, c') := recv seg c in
  match e with
  | Refused => ds = [] ∧ seg ≠ [] ∧ MAX_RECV_BUFFER_BYTES < zlen (unread c) + zlen seg
  | Waiting => ready c' ∧ zlen (unread c') ≤ zlen (unread c) + zlen seg
      ∧ (∀ k, bytes_ok k → run_from c (seg ++ k) = prepend ds (run_from c' k))
      ∧ (seg = [] → quiet c ∨ zlen (unread c') < zlen (unread c))
  | _ => ∀ k, bytes_ok k → (run_from c (seg ++ k)).1 = (ds, e)
  end.
Proof.
  intros [Hc Hlim _] Hseg. unfold recv. pose proof (zlen_nonneg seg). pose proof (zlen_nonneg (unread c)).
  rewrite Buffer.available_contents by apply Hc. fold (unread c). unfold saturating_add.
  destruct (negb _ && _) eqn:Hcap.
  { apply andb_true_iff in Hcap as [Hn%negb_true_iff%bool_decide_eq_false Hcap%Z.ltb_lt]. split_and!; [done|done|lia]. }
  destruct (Buffer.write_spec seg (r_buf (l_read c)) (in_buf _ Hc)) as (b&Wb&_&Lb&Hw). fold (unread c) in Hw.
  assert (bool_decide (seg = []) || (zlen (unread c) + zlen seg <=? Buffer.limit (r_buf (l_read c))) = true) as Hfit.
  { destruct (bool_decide (seg = [])); [done|]. simpl in *. apply Z.ltb_ge in Hcap. apply Z.leb_le.
    unfold MAX_RECV_BUFFER_BYTES, DEFAULT_MAX_MSG_LENGTH, USIZE_MAX in *. lia. }
  rewrite Hfit in Hw. destruct Hw as [-> Cb]. fold (staged b c).
  assert (input_ok (l_read (staged b c))) as Hc1.
  { constructor; simpl; [done| |apply Hc]. rewrite Cb. apply Forall_app. split; [apply Hc|done]. }
  assert (∀ k, run_from c (seg ++ k) = run_from (staged b c) k) as Er.
  { intros k. unfold run_from, unread at 2. simpl. by rewrite Cb, app_assoc. }
  assert (unread (staged b c) = unread c ++ seg) as Eu by exact Cb.
  pose proof (recv_loop_accounts 256 0 MAX_MESSAGES_PER_RECV (staged b c) Hc1 ltac:(done)) as H1.
  destruct (recv_loop _ _ _ _) as [[ds e] c1]. destruct H1 as (Ha&_&Hp).
  specialize (Hp ltac:(done) ltac:(done) ltac:(done)).
  destruct e; [destruct Ha as [_ Ha]; intros k Hk; rewrite Er; auto|by destruct Ha| |
               destruct Ha as [_ Ha]; intros k Hk; rewrite Er; auto].
  destruct Ha as [[Hok Hl Hle] Ha], (Hp eq_refl) as [Hq Hpr].
  destruct (Buffer.release_excess_spec RECV_BUFFER_KEEP_CAPACITY (r_buf (l_read c1)) (in_buf _ Hok) ltac:(done))
    as (b2&->&Hb2&Cb2&_&Lb2).
  assert (unread (set_read (set_buf b2 (l_read c1)) c1) = unread c1) as Eu2 by exact Cb2.
  set (c2 := set_read _ c1) in *. rewrite Eu2. rewrite Eu, zlen_app in Hle. split_and!.
  - constructor; [|simpl in *; congruence|intros Hx; unfold quiet; rewrite Eu2; by apply Hq].
    constructor; simpl; [done|rewrite Cb2; apply Hok|apply Hok].
  - done.
  - intros k Hk. rewrite Er, Ha by done. unfold run_from. by rewrite Eu2.
  - intros ->. rewrite app_nil_r in Eu. unfold quiet in Hpr |- *. by rewrite Eu in Hpr.
Qed.

(** Any calls of [recv]: what they deliver is what the loop on the whole byte
    stream delivers, up to a budget stop or a refusal. *)
Lemma serve_accounts segs c : ready c → bytes_ok (concat segs) →
  let '(ds, e, c') := serve segs c in
  match e with
  | Waiting => ready c' ∧ ∀ k, bytes_ok k → run_from c (concat segs ++ k) = prepend ds (run_from c' k)
  | Refused => ∀ k, bytes_ok k → ds `prefix_of` (run_from c (concat segs ++ k)).1.1
  | _ => ∀ k, bytes_ok k → (run_from c (concat segs ++ k)).1 = (ds, e)
  end.
Proof.
  revert c. induction segs as [|seg segs IH]; intros c Hc Hb; simpl.
  { split; [done|]. intros k _. by rewrite prepend_nil. }
  apply Forall_app in Hb as [Hseg Hrest].
  assert (∀ k, bytes_ok k → bytes_ok (concat segs ++ k)) as Hk by (intros; by apply Forall_app).
  pose proof (recv_accounts seg c Hc Hseg) as H. destruct (recv seg c) as [[ds e] c1].
  destruct e; [intros k ?; rewrite <- app_assoc; auto|destruct H as [-> _]; intros; apply prefix_nil| |
               intros k ?; rewrite <- app_assoc; auto].
  destruct H as (Hc1&_&E&_). specialize (IH c1 Hc1 Hrest).
  destruct (serve segs c1) as [[ds' e] c2]. simpl.
  destruct e; [intros k ?|intros k ?|split; [apply IH|]; intros k ?|intros k ?];
    rewrite <- app_assoc, E by auto.
  - specialize (IH k ltac:(done)). by destruct (run_from c1 _) as [[? ?] ?]; simplify_eq/=.
  - specialize (IH k ltac:(done)). destruct (run_from c1 _) as [[? ?] ?]. simpl. by apply prefix_app.
  - rewrite (proj2 IH) by done. apply prepend_app.
  - specialize (IH k ltac:(done)). by destruct (run_from c1 _) as [[? ?] ?]; simplify_eq/=.
Qed.

(** The loop waits on part of what it was given, and not on a chunk. *)
Lemma drain_rest f g l : Registry.wf g.2 → bytes_ok l →
  let '(_, e, (_, rest)) := drain f g l in zlen rest ≤ zlen l.
Proof.
  revert g l. induction f as [|f IH]; intros g l Hr Hl; simpl; [done|].
  pose proof (spec_owned_ok g.2 l Hr Hl) as Ho.
  destruct (spec_owned g.2 l) as [[[[n r'] out]|]|e|]; try done. destruct Ho as [Hn Hr'].
  assert (bytes_ok (zdrop n l)) as Hd by (by apply Forall_zdrop).
  destruct out as [d|].
  - destruct (handle d (g.1, r')) as [g'|e|] eqn:Eh; try zlia.
    pose proof (IH g' (zdrop n l) ltac:(by eapply (handle_wf d (g.1, r'))) Hd) as H.
    destruct (drain f g' _) as [[ds e] [r2 rest]]. simpl. zlia.
  - pose proof (IH (g.1, r') (zdrop n l) Hr' Hd) as H.
    destruct (drain f (g.1, r') _) as [[ds e] [r2 rest]]. zlia.
Qed.

Lemma quiet_kept c c' ds : input_ok (l_read c) → input_ok (l_read c') → quiet c →
  zlen (unread c') ≤ zlen (unread c) → run_from c [] = prepend ds (run_from c' []) → quiet c'.
Proof.
  intros Hc Hc' Hq Hle E. rewrite run_quiet in E by done. unfold run_from in E. rewrite app_nil_r in E.
  rewrite run_eq in E by apply Hc'. simpl in E. unfold quiet.
  pose proof (spec_owned_ok _ _ (in_reg _ Hc') (in_bytes _ Hc')) as Ho. fold (unread c') in Ho.
  destruct (spec_owned _ (unread c')) as [[[[n r'] out]|]|e|]; try done. destruct Ho as [Hn Hr'].
  assert (bytes_ok (zdrop n (unread c'))) as Hd by (apply Forall_zdrop, Hc').
  assert (∀ g, Registry.wf g.2 → (run g (zdrop n (unread c'))).2.2 ≠ unread c) as Hne.
  { intros g Hg Heq. pose proof (drain_rest (S (length (zdrop n (unread c')))) g _ Hg Hd) as H.
    fold (run g (zdrop n (unread c'))) in H. destruct (run g _) as [[? ?] [? rest]]. simpl in Heq.
    subst rest. rewrite zlen_zdrop in H by lia. lia. }
  destruct out as [d|].
  - destruct (handle d (l_host c', r')) as [g|e|] eqn:Eh; try done. exfalso.
    apply (Hne g); [by eapply (handle_wf d (l_host c', r'))|].
    destruct (run g _) as [[? ?] [? ?]]. simpl in E. by injection E.
  - exfalso. apply (Hne (l_host c', r')); [done|]. destruct (run _ _) as [[? ?] [? ?]]. simpl in E. by injection E.
Qed.

(** Nothing more comes of the bytes received. *)
Definition settled (e : ending) (c : LState X) : Prop :=
  match e with Waiting => quiet c | Refused => False | _ => True end.

(** Calling without new bytes, at most once per unread byte, settles what a
    budget stop left. *)
Lemma serve_settles n c : ready c → quiet c ∨ (length (unread c) ≤ n)%nat →
  let '(_, e, c') := serve (replicate n []) c in settled e c'.
Proof.
  revert c. induction n as [|n IH]; intros c Hc Hq; simpl.
  { destruct Hq as [|Hq]; [done|]. apply empty_quiet; [apply Hc|]. destruct (unread c); [done|simpl in Hq; lia]. }
  pose proof (recv_accounts [] c Hc (Forall_nil_2 _)) as H. destruct (recv [] c) as [[ds e] c1].
  destruct e; [done|by destruct H as (_&?&_)| |done].
  destruct H as (Hc1&Hle&E&Hp). change (zlen []) with 0 in Hle.
  assert (quiet c1 ∨ (length (unread c1) ≤ n)%nat) as Hq1.
  { destruct (Hp eq_refl) as [Hq0|Hlt].
    - left. apply (quiet_kept c c1 ds); [apply Hc|apply Hc1|done|lia|]. exact (E [] (Forall_nil_2 _)).
    - destruct Hq as [Hq0|Hq]; [|right; unfold zlen in Hlt; lia].
      left. apply (quiet_kept c c1 ds); [apply Hc|apply Hc1|done|lia|]. exact (E [] (Forall_nil_2 _)). }
  specialize (IH c1 Hc1 Hq1). by destruct (serve _ c1) as [[ds' e] c2].
Qed.

(** What a settled connection delivered is what the whole stream holds. *)
Lemma serve_settled segs c : ready c → bytes_ok (concat segs) →
  let '(ds, e, c') := serve segs c in
  ds `prefix_of` (run_from c (concat segs)).1.1
  ∧ (settled e c' → (run_from c (concat segs)).1 = (ds, e)
       ∧ (e = Waiting → (run_from c (concat segs)).2 = ((l_host c', r_reg (l_read c')), unread c'))).
Proof.
  intros Hc Hb. pose proof (serve_accounts segs c Hc Hb) as H. destruct (serve segs c) as [[ds e] c'].
  destruct e; [| | |]; try (specialize (H [] (Forall_nil_2 _)); rewrite app_nil_r in H).
  - rewrite H. by split.
  - by split.
  - destruct H as [Hc' H]. specialize (H [] (Forall_nil_2 _)). rewrite app_nil_r in H. rewrite H.
    split; [destruct (run_from c' []) as [[? ?] ?]; simpl; by eexists|].
    intros Hq. rewrite run_quiet by (done || apply Hc'). simpl. by rewrite app_nil_r.
  - rewrite H. by split.
Qed.

(** Calls that pass few bytes in all are not refused. *)
Lemma serve_fits segs c : ready c → bytes_ok (concat segs) →
  zlen (unread c) + zlen (concat segs) ≤ MAX_RECV_BUFFER_BYTES → (serve segs c).1.2 ≠ Refused.
Proof.
  revert c. induction segs as [|seg segs IH]; intros c Hc Hb Hle; [done|]. simpl in *.
  apply Forall_app in Hb as [Hseg Hrest]. rewrite zlen_app in Hle. pose proof (zlen_nonneg (concat segs)).
  pose proof (recv_accounts seg c Hc Hseg) as H1. destruct (recv seg c) as [[ds e] c1].
  destruct e; [done|destruct H1 as (_&_&?); lia| |done]. destruct H1 as (Hc1&?&_).
  specialize (IH c1 Hc1 Hrest ltac:(lia)). by destruct (serve segs c1) as [[? ?] ?].
Qed.

(** Calls of [recv] bring in the messages [all] of a byte stream: none out of
    order or twice, all of them and no unread byte once no budget stop is
    reported, which calls without bytes bring about; and only a refusal, not
    possible within 8 MiB, keeps them from it. *)
Definition brings_in (segs : list bytes) (c : LState X) (all : list delivery) : Prop :=
  let '(ds, e, c') := serve segs c in
  ds `prefix_of` all
  ∧ (zlen (unread c) + zlen (concat segs) ≤ MAX_RECV_BUFFER_BYTES → e = Waiting)
  ∧ match e with
    | Waiting =>
        (has_buffered_messages c' = false → ds = all ∧ unread c' = [])
        ∧ ∀ n, (length (unread c') ≤ n)%nat →
          let '(ds', e', c'') := serve (replicate n []) c' in
          ds ++ ds' = all ∧ e' = Waiting ∧ unread c'' = []
    | Refused => True
    | _ => False
    end.

Lemma concat_empties n : concat (replicate n ([] : bytes)) = [].
Proof. by induction n. Qed.

Lemma serve_brings_in segs c all g : ready c → bytes_ok (concat segs) →
  run_from c (concat segs) = (all, Waiting, (g, [])) → brings_in segs c all.
Proof.
  intros Hc Hb E. pose proof (serve_settled segs c Hc Hb) as Hs. pose proof (serve_accounts segs c Hc Hb) as Ha.
  pose proof (serve_fits segs c Hc Hb) as Hf. rewrite E in Hs. unfold brings_in.
  destruct (serve segs c) as [[ds e] c']. simpl in Hs, Hf. destruct Hs as [Hpre Hs].
  assert (e = Waiting ∨ e = Refused) as He.
  { destruct e; auto; by destruct (Hs I) as [[=] _]. }
  split_and!; [done|intros Hle; by destruct He as [|He]; [|destruct (Hf Hle)]|].
  destruct He as [->| ->]; [|done]. destruct Ha as [Hc' Ha].
  specialize (Ha [] (Forall_nil_2 _)). rewrite app_nil_r, E in Ha. split.
  - intros Hx. destruct (Hs (rd_flag _ Hc' Hx)) as [[= ->] Hw]. specialize (Hw eq_refl). by injection Hw.
  - intros n Hn. pose proof (serve_settles n c' Hc' (or_intror Hn)) as Hq.
    pose proof (serve_settled (replicate n []) c' Hc') as H2. rewrite concat_empties in H2.
    specialize (H2 (Forall_nil_2 _)). destruct (serve _ c') as [[ds' e'] c'']. destruct H2 as [_ H2].
    destruct (H2 Hq) as [E1 E2]. destruct (run_from c' []) as [[ds2 e2] x2]. simpl in *.
    injection Ha as -> <- <-. injection E1 as -> <-. specialize (E2 eq_refl). by injection E2.
Qed.
End loop.

(** C5. How a byte stream was cut into reads decides nothing about what is
    delivered. Take any two sequences of [recv] calls on the same connection,
    past its handshake, that pass the same bytes: with whatever message handler
    and handler state (as long as the handler does not look at the budgets or
    the clock, and keeps the registry invariant), however the handler charges
    the budgets, and with calls without bytes anywhere, as the server makes
    them for messages a budget stop left unread. Then one of the two has
    delivered a prefix of what the other has. If both have settled (neither has
    unread chunks left by a budget stop, nor was refused for more than 8 MiB of
    unread bytes), both delivered the same messages, ended in the same way and,
    if still open, are left in the same handler state and registry with the same
    unread bytes. A connection that waits without reporting buffered messages
    has settled; any other settles after at most one call per unread byte. *)
Theorem segmentation_independent {X} handle charge1 charge2 segs1 segs2 (c : LState X) :
  (∀ d g g', Registry.wf g.2 → handle d g = Ok g' → Registry.wf g'.2) →
  ready c → bytes_ok (concat segs1) → concat segs1 = concat segs2 →
  let '(ds1, e1, c1) := serve handle charge1 segs1 c in
  let '(ds2, e2, c2) := serve handle charge2 segs2 c in
  (ds1 `prefix_of` ds2 ∨ ds2 `prefix_of` ds1)
  ∧ (settled e1 c1 → settled e2 c2 → ds1 = ds2 ∧ e1 = e2
       ∧ (e1 = Waiting → l_host c1 = l_host c2 ∧ r_reg (l_read c1) = r_reg (l_read c2) ∧ unread c1 = unread c2))
  ∧ (e1 = Waiting → (has_buffered_messages c1 = false → quiet c1)
       ∧ ∀ n, (length (unread c1) ≤ n)%nat →
         let '(_, e, c') := serve handle charge1 (replicate n []) c1 in settled e c').
Proof.
  intros Hh Hc Hb E. pose proof (serve_settled handle charge1 Hh segs1 c Hc Hb) as H1.
  pose proof (serve_accounts handle charge1 Hh segs1 c Hc Hb) as Ha. rewrite E in Hb, H1.
  pose proof (serve_settled handle charge2 Hh segs2 c Hc Hb) as H2.
  destruct (serve handle charge1 segs1 c) as [[ds1 e1] c1], (serve handle charge2 segs2 c) as [[ds2 e2] c2].
  destruct H1 as [P1 S1], H2 as [P2 S2]. split_and!.
  - by eapply prefix_weak_total.
  - intros Q1 Q2. destruct (S1 Q1) as [E1 W1], (S2 Q2) as [E2 W2]. rewrite E1 in E2.
    injection E2 as <- <-. split_and!; [done..|]. intros ->.
    specialize (W1 eq_refl). specialize (W2 eq_refl). rewrite W1 in W2. by injection W2 as <- <- <-.
  - intros ->. destruct Ha as [Hc1 _]. split; [apply Hc1|]. intros n Hn. apply serve_settles; auto.
Qed.

(** Set Chunk Size applied to the registry, and a count of the messages. *)
Definition sample_handler (d : delivery) (g : Z * ChunkRegistry) : Res (Z * ChunkRegistry) :=
  if msg_type_id d.1 =? 1 then
    n ← ntoh32 d.2; Ok (g.1 + 1, Registry.set_all_chunk_size n g.2)
  else Ok (g.1 + 1, g.2).

(** One message and no track work per delivery. *)
Definition charge_one (d : delivery) (b : Z * Z) : Z * Z := (saturating_sub b.1 1, b.2).

(** All of the budget gone at every delivery. *)
Definition charge_all (d : delivery) (b : Z * Z) : Z * Z := (0, 0).

Lemma sample_handler_wf d g g' : Registry.wf g.2 → sample_handler d g = Ok g' → Registry.wf g'.2.
Proof.
  intros Hr. unfold sample_handler. case_match; [|by intros [= <-]].
  destruct (ntoh32 d.2); [|done..]. cbn. intros [= <-]. by apply Registry.wf_set_all_chunk_size.
Qed.

Lemma ready_start {X} (x : X) : ready (fresh (start []) x).
Proof. constructor; [apply start_ok; constructor|done|done]. Qed.

(** Set Chunk Size and a two-byte message: in one read on a connection whose
    budget stops after each message, and in reads that cut both of them. *)
Lemma segmentation_independent_witness :
  let stream := [2; 0; 0; 0; 0; 0; 4; 1; 0; 0; 0; 0; 0; 0; 0; 200; 3; 0; 0; 0; 0; 0; 2; 9; 1; 0; 0; 0; 7; 8; 3] in
  (serve sample_handler charge_one [ztake 3 stream; zdrop 3 (ztake 20 stream); zdrop 20 stream]
     (fresh (start []) 0)).1
  = (serve sample_handler charge_all [stream; []] (fresh (start []) 0)).1.
Proof.
  intros stream. set (segs := [_; _; _]).
  pose proof (segmentation_independent sample_handler charge_one charge_all segs [stream; []]
    (fresh (start []) 0) sample_handler_wf (ready_start 0) ltac:(repeat constructor; ulia) eq_refl) as H.
  assert (let '(_, e, c) := serve sample_handler charge_one segs (fresh (start []) 0) in settled e c) as Q1
    by (vm_compute; reflexivity).
  assert (let '(_, e, c) := serve sample_handler charge_all [stream; []] (fresh (start []) 0) in settled e c) as Q2
    by (vm_compute; reflexivity).
  destruct (serve sample_handler charge_one segs _) as [[ds1 e1] c1].
  destruct (serve sample_handler charge_all _ _) as [[ds2 e2] c2].
  destruct H as (_&H&_). by destruct (H Q1 Q2) as (->&->&_).
Defined.
End ReadLoop.
