(* ===== verification/ChunkView.v ===== *)
(** The protocol-level meaning of the chunk reader: each chunk stream is a
    small state machine over its last header and its partial message, and the
    reader runs exactly that machine for the stream a chunk names, leaving
    every other stream alone. *)
From S2P Require Import Prelude Bytes Buffer ChunkState ChunkWriter ChunkReader.

Module View.
Import Reader.

(** What the protocol keeps per chunk stream (RTMP 1.0, section 5.3.1). *)
Record view : Type := mkView {
  v_size : Z;            (* chunk size in force *)
  v_header : bool;       (* a full header has been seen *)
  v_ts : Z;
  v_len : Z;
  v_ty : Z;
  v_sid : Z;
  v_ext : bool;          (* extended timestamps in use *)
  v_delta : Z;
  v_partial : bytes;     (* payload received for the message in flight *)
}.

Definition view_of (s : ChunkStream) : view :=
  mkView (chunk_size s) (has_message_header s) (type0_timestamp s) (type0_msg_length s)
    (type0_msg_type_id s) (type0_msg_stream_id s) (type0_ext_ts s) (last_delta s)
    (Buffer.contents (reassembly_buf s)).

Definition fresh (size : Z) : view := mkView size false 0 0 0 0 false 0 [].

(** The protocol state of a CSID; an unknown CSID is in its initial state. *)
Definition vget (r : ChunkRegistry) (c : Z) : view :=
  match Registry.find c r with
  | Some s => view_of s
  | None => fresh (default_chunk_size r)
  end.

(** One chunk with message-header fields [f] and payload [d]. *)
Definition vheader (fmt : Z) (f : Fields) (ext : bool) (v : view) : view :=
  let ts :=
    if fmt =? 0 then f_timestamp f
    else if fmt <=? 2 then wrapping_add32 (v_ts v) (f_timestamp f)
    else if bool_decide (v_partial v = []) then wrapping_add32 (v_ts v) (v_delta v)
    else v_ts v in
  mkView (v_size v) true ts
    (if fmt <=? 1 then f_length f else v_len v)
    (if fmt <=? 1 then f_type_id f else v_ty v)
    (if fmt =? 0 then f_stream_id f else v_sid v)
    (if fmt <=? 2 then ext else v_ext v)
    (if fmt <=? 2 then f_timestamp f else v_delta v)
    (if fmt <=? 1 then [] else v_partial v).

Definition set_partial (d : bytes) (v : view) : view :=
  mkView (v_size v) (v_header v) (v_ts v) (v_len v) (v_ty v) (v_sid v) (v_ext v) (v_delta v) d.

Definition vmessage (c fmt : Z) (v : view) : ChunkMessage :=
  mkMsg c fmt (v_ts v) (v_len v) (v_ty v) (v_sid v) true.

Definition vstep (c fmt : Z) (f : Fields) (ext : bool) (d : bytes) (v : view)
    : view * option (ChunkMessage * bytes) :=
  let h := vheader fmt f ext v in
  let part := v_partial h ++ d in
  if v_len h <=? zlen part then (set_partial [] h, Some (vmessage c fmt h, part))
  else (set_partial part h, None).

(** Whether a message is in flight, as the active-stream count counts it. *)
Definition vactive (v : view) : Z := if bool_decide (v_partial v = []) then 0 else 1.

(** * The reader runs [vstep] *)

Lemma active_view s : Registry.stream_wf s → Registry.active s = vactive (view_of s).
Proof.
  intros []. unfold Registry.active, vactive. simpl.
  case_bool_decide as E; rewrite ?E in *; destruct (reassembling s); try done.
  - change (zlen []) with 0 in *. lia.
  - exfalso. apply E, zlen_0_nil. lia.
Qed.

Lemma find_streams c r s : Registry.wf r →
  Registry.find c r = Some s ↔ ∃ i, streams r !! i = Some s ∧ csid s = c.
Proof.
  intros Hr. split.
  - intros H. destruct (find_inv c r s Hr H) as (i&_&?&?&_). by exists i.
  - intros (i&Hi&<-). unfold Registry.find. by rewrite (Registry.r_complete r Hr i s Hi).
Qed.

(** Opening a slot does not disturb what other CSIDs see. *)
Lemma find_get_or_create c c' r i r1 : Registry.wf r → is_u32 c →
  Registry.get_or_create_index c r = (Ok i, r1) → c' ≠ c →
  Registry.find c' r1 = Registry.find c' r.
Proof.
  intros Hr Hc E Hne. pose proof (Registry.get_or_create_index_spec c r Hr Hc) as H.
  rewrite E in H. destruct H as (Hr1&s&Hs&Hcs&_&_&[(->&_)|(_&_&_&Est&_)]); [done|].
  apply option_eq. intros t. rewrite !find_streams by done. split; intros (j&Hj&Ht).
  - rewrite Est in Hj. apply lookup_app_Some in Hj as [Hj|[_ Hj]]; [by exists j|].
    apply list_lookup_singleton_Some in Hj as [_ <-]. congruence.
  - exists j. split; [|done]. rewrite Est. by apply lookup_app_l_Some.
Qed.

(** The stream a chunk goes to has the protocol state of its CSID. *)
Lemma consumed_vget r l n r' out p f i r1 s t : Registry.wf r →
  consumed r l n r' out p f i r1 s t → view_of s = vget r (p_csid p).
Proof.
  intros Hr Hc. destruct Hc. unfold vget.
  assert (is_u32 (p_csid p)) as Hu.
  { destruct cd_plan0. unfold Writer.csid_ok, RTMP_MIN_CSID, RTMP_MAX_CSID in *. ulia. }
  pose proof (Registry.get_or_create_index_spec (p_csid p) r Hr Hu) as H.
  rewrite cd_slot0 in H. destruct H as (_&s'&Hs'&_&_&_&H).
  rewrite cd_stream0 in Hs'. simplify_eq. unfold Registry.find.
  destruct H as [(_&Hs&->)|(->&->&_)]; [simpl; by rewrite Hs|done].
Qed.

Lemma headed_view p f s : Registry.stream_wf s → fits p f s →
  view_of (headed p f s) = vheader (p_fmt p) f (p_ext_ts p) (view_of s).
Proof.
  intros Hs Hf. pose proof (headed_ok p f s Hs Hf) as (_&Hz&_&_&_&Hc&_&_&_&Hh&_).
  unfold view_of at 1. rewrite Hz, Hh, Hc. unfold vheader, base, headed. simpl.
  destruct Hf. pose proof (Registry.s_read s Hs) as Hrd.
  assert (p_fmt p = 0 ∨ p_fmt p = 1 ∨ p_fmt p = 2 ∨ p_fmt p = 3) as [E|[E|[E|E]]] by lia;
    rewrite E; simpl; unfold apply_header; simpl; try done.
  rewrite Hrd. case_bool_decide as Hp.
  - rewrite Hp. done.
  - destruct (Z.eqb_spec (zlen (Buffer.contents (reassembly_buf s))) 0) as [H0|]; [|done].
    by apply zlen_0_nil in H0.
Qed.

Lemma advance_view p f d s : Registry.stream_wf s → fits p f s → zlen d = p_to_read p →
  bytes_ok d → csid s = p_csid p →
  let '(t, out) := advance p f d s in
  (view_of t, out) = vstep (p_csid p) (p_fmt p) f (p_ext_ts p) d (view_of s).
Proof.
  intros Hs Hf Hd Hy Hcs. pose proof (advance_ok p f s d Hs Hf Hd Hy) as Ha.
  pose proof (headed_view p f s Hs Hf) as Hv.
  pose proof (headed_ok p f s Hs Hf) as (_&Hz&_&_&_&Hc&_&Hl&_&Hh&_).
  destruct (advance p f d s) as [t out]. unfold vstep. rewrite <- Hv.
  destruct Ha as (_&_&E1&E2&E3&E4&E5&E6&E7&E8&Ha).
  change (v_partial (view_of (headed p f s)))
    with (Buffer.contents (reassembly_buf (headed p f s))).
  change (v_len (view_of (headed p f s))) with (type0_msg_length (headed p f s)).
  rewrite Hc, Hl, zlen_app.
  unfold view_of at 1. rewrite E1, E2, E3, E4, E5, E6, E7, E8.
  destruct (run_length p f s <=? zlen (base p s) + zlen d).
  - destruct Ha as (->&H0&_). apply zlen_0_nil in H0. rewrite H0.
    unfold set_partial, view_of, vmessage, report. simpl. by rewrite Hz, Hh.
  - destruct Ha as (->&->&_). unfold set_partial, view_of. simpl. by rewrite Hz, Hh.
Qed.

(** The settings of a registry, which no chunk changes. *)
Definition same_config (r r' : ChunkRegistry) : Prop :=
  default_chunk_size r' = default_chunk_size r ∧ max_msg_length r' = max_msg_length r
  ∧ max_active_csids r' = max_active_csids r
  ∧ max_reassembly_bytes r' = max_reassembly_bytes r.

Lemma get_or_create_config c r i r1 : Registry.wf r → is_u32 c →
  Registry.get_or_create_index c r = (Ok i, r1) →
  same_config r r1 ∧ reassembly_bytes_in_use r1 = reassembly_bytes_in_use r
  ∧ reassembling_count r1 = reassembling_count r.
Proof.
  intros Hr Hc E. pose proof (Registry.get_or_create_index_spec c r Hr Hc) as H.
  rewrite E in H. unfold same_config.
  by destruct H as (_&s&_&_&_&_&[(->&_)|(_&_&_&_&->&->&->&->&->&->)]).
Qed.

Lemma csid_ok_u32 c : Writer.csid_ok c → is_u32 c.
Proof. unfold Writer.csid_ok, RTMP_MIN_CSID, RTMP_MAX_CSID. ulia. Qed.

(** A consumed chunk, seen by the protocol. *)
Lemma consumed_step r l n r' out p f i r1 s t : Registry.wf r →
  consumed r l n r' out p f i r1 s t →
  (vget r' (p_csid p), out)
    = vstep (p_csid p) (p_fmt p) f (p_ext_ts p) (ztake (p_to_read p) (zdrop (header_len p) l))
        (vget r (p_csid p))
  ∧ (∀ c, c ≠ p_csid p → vget r' c = vget r c)
  ∧ same_config r r'
  ∧ reassembly_bytes_in_use r' - zlen (v_partial (vget r' (p_csid p)))
    = reassembly_bytes_in_use r - zlen (v_partial (vget r (p_csid p)))
  ∧ reassembling_count r' - vactive (vget r' (p_csid p))
    = reassembling_count r - vactive (vget r (p_csid p))
  ∧ (∀ c, c ≠ p_csid p → Registry.find c r' = Registry.find c r).
Proof.
  intros Hr Hc. pose proof (consumed_vget _ _ _ _ _ _ _ _ _ _ _ Hr Hc) as Hv. destruct Hc.
  pose proof (csid_ok_u32 _ (pk_csid _ _ _ cd_plan0)) as Hu.
  destruct (get_or_create_config _ _ _ _ Hr Hu cd_slot0) as (Hcfg&Hb&Hcn).
  set (d := ztake (p_to_read p) (zdrop (header_len p) l)) in *.
  pose proof (header_len_pos p ltac:(apply cd_plan0)).
  pose proof (plan_to_read_nonneg r l p Hr cd_plan0).
  assert (zlen d = p_to_read p) as Hd by (pose proof (pk_avail _ _ _ cd_plan0); unfold d; zlia).
  pose proof (advance_view p f d s cd_swf0 cd_fits0 Hd cd_slice0 cd_csid0) as Ha.
  rewrite cd_advance0 in Ha. subst r'.
  assert (vget (Registry.replaced i s t r1) (p_csid p) = view_of t) as Ht.
  { unfold vget. rewrite Registry.find_replaced by done.
    rewrite bool_decide_true by done. done. }
  assert (∀ c, c ≠ p_csid p →
    Registry.find c (Registry.replaced i s t r1) = Registry.find c r) as Hother.
  { intros c Hne. rewrite Registry.find_replaced, bool_decide_false by congruence.
    by apply (find_get_or_create (p_csid p) c r i r1). }
  split_and!; [| | | | |done].
  - by rewrite Ht, Ha, Hv.
  - intros c Hne. unfold vget. rewrite Hother by done. by destruct Hcfg as (<-&_).
  - done.
  - rewrite Ht, <- Hv, <- Hb. simpl. unfold Registry.held. lia.
  - pose proof (Registry.wf_lookup _ i t cd_wf0
      ltac:(simpl; by rewrite list_lookup_insert_eq by (by eapply lookup_lt_Some))) as Hwt.
    rewrite Ht, <- Hv, <- Hcn, <- !active_view by done. simpl. lia.
Qed.

End View.
