(* ===== verification/RoundTrip.v ===== *)
(** Writer against reader: the chunk reader decodes what src/chunk/writer.rs
    emits.  One chunk of any fmt moves the stream's protocol state as its
    fields say; a whole message, fragmented at any chunk size and with any
    timestamp, is delivered exactly once and intact. *)
From S2P Require Import Prelude Bytes Buffer ChunkState Control ChunkWriter ChunkReader ChunkView ReadLoop.

Module RoundTrip.
Import Reader View.

(** * Parsing what the writer lays out *)

Lemma zidx_at (a b : bytes) i : zlen a ≤ i → zidx (a ++ b) i = zidx b (i - zlen a).
Proof. intros. unfold zidx. by rewrite zget_app_r by lia. Qed.

Lemma u24_at_app (a b : bytes) v : is_u24 v → u24_at (a ++ hton24_bytes v ++ b) (zlen a) = Ok v.
Proof.
  intros Hv. unfold u24_at.
  rewrite (zidx_at a _ (zlen a)), (zidx_at a _ (zlen a + 1)), (zidx_at a _ (zlen a + 2)) by lia.
  replace (zlen a - zlen a) with 0 by lia. replace (zlen a + 1 - zlen a) with 1 by lia.
  replace (zlen a + 2 - zlen a) with 2 by lia.
  rewrite hton24_bytes_val. exact (f_equal Ok (u24_roundtrip v Hv)).
Qed.

(** The first byte holds fmt and the CSID selector. *)
Lemma parse_basic_bytes c fmt x : Writer.csid_ok c → 0 ≤ fmt ≤ 3 →
  let l := Writer.basic_bytes c fmt ++ x in
  ∃ first, zidx l 0 = Ok first ∧ first >> 6 = fmt
    ∧ parse_basic (zlen l) l (first .& 63) = Ok (Some (c, zlen (Writer.basic_bytes c fmt))).
Proof.
  unfold Writer.csid_ok, RTMP_MIN_CSID, RTMP_MAX_CSID. intros Hc Hf.
  unfold Writer.basic_bytes, parse_basic.
  destruct (Z.ltb_spec c 64); [|destruct (Z.ltb_spec c 320)]; simpl; eexists;
    (split; [done|]); rewrite shiftr_div, land_63 by lia; (split; [udivlia|]).
  - replace ((fmt * 64 + c) mod 64) with c by divlia.
    destruct (Z.eqb_spec c 0), (Z.eqb_spec c 1); try lia. done.
  - replace ((fmt * 64) mod 64) with 0 by divlia. simpl.
    destruct (Z.ltb_spec (zlen (fmt * 64 :: c - 64 :: x)) 2); [zlia|].
    cbn. do 4 f_equal. lia.
  - replace ((fmt * 64 + 1) mod 64) with 1 by divlia. simpl.
    match goal with |- context [Z.ltb ?a 3] => destruct (Z.ltb_spec a 3); [zlia|] end.
    cbn. rewrite shl32_mul by divlia. rewrite Z.lor_comm, (lor_low _ _ 8) by divlia.
    do 4 f_equal. divlia.
Qed.

(** * Acceptance of one chunk *)

Definition veff_len (fmt len : Z) (v : view) : Z := if fmt <=? 1 then len else v_len v.
Definition vbase (fmt : Z) (v : view) : bytes := if fmt <=? 1 then [] else v_partial v.

(** How many payload bytes a chunk of this fmt carries. *)
Definition vquota (fmt len : Z) (v : view) : Z :=
  Z.min (saturating_sub (veff_len fmt len v) (zlen (vbase fmt v))) (v_size v).

(** The conditions under which the reader takes a chunk on CSID [c]. *)
Record accepts (r : ChunkRegistry) (c fmt len : Z) : Prop := {
  ac_known : 2 ≤ fmt → v_header (vget r c) = true;
  ac_new : fmt = 2 → v_partial (vget r c) = [];
  ac_len : veff_len fmt len (vget r c) ≤ max_msg_length r;
  ac_budget : reassembly_bytes_in_use r - zlen (v_partial (vget r c))
                + zlen (vbase fmt (vget r c)) + vquota fmt len (vget r c)
              ≤ max_reassembly_bytes r;
  ac_room : Registry.can_get_or_create c r = Ok true;
}.

Lemma known_find r c : v_header (vget r c) = true → ∃ s, Registry.find c r = Some s.
Proof. unfold vget. destruct (Registry.find c r) as [s|]; [by exists s|done]. Qed.

Lemma accepts_within_budget r c fmt len n : Registry.wf r → accepts r c fmt len →
  n = vquota fmt len (vget r c) → over_budget r c fmt n = Ok false.
Proof.
  intros Hr Ha ->. pose proof (ac_budget _ _ _ _ Ha) as Hb. unfold over_budget.
  rewrite get_find by done. set (n := vquota _ _ _) in *. clearbody n.
  unfold vbase, vget in Hb.
  destruct (Z.ltb_spec 0 n); [|done]. unfold saturating_sub.
  destruct (Registry.find c r) as [s|] eqn:Hs.
  - destruct (find_inv c r s Hr Hs) as (i&_&Hi&_&Hw).
    pose proof (Registry.wf_held_le r i s Hr Hi). unfold Registry.held in *.
    cbn [mbind Res_bind]. rewrite Buffer.available_contents by apply Hw. unfold view_of in Hb. simpl in Hb.
    destruct (fmt <=? 1); cbn; f_equal; apply Z.ltb_ge; zlia.
  - simpl in Hb. pose proof (Registry.r_bytes r Hr).
    pose proof (sumZ_nonneg Registry.held (streams r) (Registry.held_nonneg _)).
    destruct (fmt <=? 1); cbn; f_equal; apply Z.ltb_ge; change (zlen []) with 0 in *; lia.
Qed.

Lemma plan_payload_accepts r l c fmt len hs ext tot : Registry.wf r → 0 ≤ fmt ≤ 3 →
  accepts r c fmt len →
  eff_len_for_avail r l c fmt hs = Ok (veff_len fmt len (vget r c)) →
  tot + vquota fmt len (vget r c) ≤ zlen l →
  plan_payload r (zlen l) l c fmt hs ext tot
  = Ok (Some (mkPlan fmt c hs ext (vquota fmt len (vget r c)))).
Proof.
  intros Hr Hf Ha El Hn. unfold plan_payload. rewrite El. cbn [mbind Res_bind].
  destruct (Z.ltb_spec (max_msg_length r) (veff_len fmt len (vget r c))) as [H|_].
  { pose proof (ac_len _ _ _ _ Ha). lia. }
  rewrite get_find by done. cbn [mbind Res_bind].
  assert (match Registry.find c r with
    | Some s => (chunk_size s, if fmt <=? 1 then 0 else reassembly_bytes_read s)
    | None => (default_chunk_size r, 0)
    end = (v_size (vget r c), zlen (vbase fmt (vget r c)))) as ->.
  { unfold vbase, vget. destruct (Registry.find c r) as [s|] eqn:Hs; simpl.
    - destruct (find_inv c r s Hr Hs) as (_&_&_&_&Hw). rewrite (Registry.s_read s Hw).
      by destruct (fmt <=? 1).
    - by destruct (fmt <=? 1). }
  fold (vquota fmt len (vget r c)).
  rewrite (accepts_within_budget r c fmt len) by done. cbn [mbind Res_bind].
  assert ((if (fmt =? 2) || (fmt =? 3)
           then get_is r c (λ s, negb (has_message_header s)) else Ok false) = Ok false) as ->.
  { unfold get_is. rewrite get_find by done. pose proof (ac_known _ _ _ _ Ha) as Hk.
    unfold vget in Hk. destruct (Z.eqb_spec fmt 2), (Z.eqb_spec fmt 3); simpl; try done;
      destruct (Registry.find c r) as [s|]; cbn; try done;
      (pose proof (Hk ltac:(lia)) as E; simpl in E; by rewrite E). }
  cbn [mbind Res_bind]. rewrite (ac_room _ _ _ _ Ha). cbn [mbind Res_bind negb].
  destruct (Z.ltb_spec (zlen l) (tot + vquota fmt len (vget r c))); [lia|done].
Qed.

(** Offsets of the fields in a first-chunk header. *)
Lemma header_layout c fmt ts len ty sid x : 0 ≤ fmt ≤ 2 →
  is_u24 (Z.min ts EXTENDED_TIMESTAMP_MARKER) → is_u24 len →
  let l := Writer.header_bytes c fmt ts len ty sid ++ x in
  let hs := zlen (Writer.basic_bytes c fmt) in
  zlen l = hs + field_size fmt + (if EXTENDED_TIMESTAMP_MARKER <=? ts then 4 else 0) + zlen x
  ∧ (∃ y, l = Writer.basic_bytes c fmt ++ y)
  ∧ u24_at l hs = Ok (Z.min ts EXTENDED_TIMESTAMP_MARKER)
  ∧ (fmt ≤ 1 → u24_at l (hs + 3) = Ok len).
Proof.
  intros Hf Hm Hlen l hs. unfold l, Writer.header_bytes. rewrite <- !app_assoc. split_and!.
  - unfold field_size. rewrite !zlen_app. fold hs.
    repeat (zcase; try lia); zlia.
  - by eexists.
  - by apply u24_at_app.
  - intros H1. rewrite (proj2 (Z.leb_le fmt 1) H1).
    pose proof (u24_at_app (Writer.basic_bytes c fmt ++ hton24_bytes (Z.min ts
      EXTENDED_TIMESTAMP_MARKER))) as H.
    rewrite zlen_app in H. rewrite <- !app_assoc in *. setoid_rewrite <- app_assoc in H.
    by apply H.
Qed.

(** A first chunk as the writer lays it out is planned with its own fields. *)
Lemma phase1_header r c fmt ts len ty sid x :
  Registry.wf r → Writer.csid_ok c → 0 ≤ fmt ≤ 2 → is_u32 ts → is_u24 len →
  accepts r c fmt len → vquota fmt len (vget r c) ≤ zlen x →
  let l := Writer.header_bytes c fmt ts len ty sid ++ x in
  phase1 r (zlen l) l
  = Ok (Some (mkPlan fmt c (zlen (Writer.basic_bytes c fmt))
      (EXTENDED_TIMESTAMP_MARKER <=? ts) (vquota fmt len (vget r c)))).
Proof.
  intros Hr Hc Hf Hts Hlen Ha Hx l.
  set (hs := zlen (Writer.basic_bytes c fmt)). set (ext := EXTENDED_TIMESTAMP_MARKER <=? ts).
  assert (is_u24 (Z.min ts EXTENDED_TIMESTAMP_MARKER)) as Hm
    by (unfold EXTENDED_TIMESTAMP_MARKER; ulia).
  destruct (Writer.basic_header_spec c fmt Hc ltac:(lia)) as (_&_&Hhs). fold hs in Hhs.
  destruct (header_layout c fmt ts len ty sid x Hf Hm Hlen) as (Hz&(y&El)&Ets&Elen).
  fold l hs ext in Hz, El, Ets, Elen.
  destruct (parse_basic_bytes c fmt y Hc ltac:(lia)) as (first&E0&Efmt&Eb).
  fold hs in Eb. rewrite <- El in E0, Eb. pose proof (zlen_nonneg x).
  unfold phase1. rewrite E0. cbn [mbind Res_bind]. rewrite Efmt, Eb. cbn [mbind Res_bind].
  rewrite msg_field_size_ok by lia. cbn [mbind Res_bind].
  assert (0 ≤ (if ext then 4 else 0)) by (by destruct ext).
  rewrite (proj2 (Z.ltb_ge _ (hs + field_size fmt))) by lia.
  assert ((if 2 <=? fmt then o ← Registry.get c r;
             Ok (match o with None => true | Some _ => false end) else Ok false) = Ok false) as ->.
  { rewrite get_find by done. destruct (Z.leb_spec 2 fmt) as [H2|]; [|done].
    destruct (known_find r c (ac_known _ _ _ _ Ha H2)) as (s&->). done. }
  assert ((if fmt =? 2 then get_is r c (λ s, negb (reassembly_bytes_read s =? 0)) else Ok false)
    = Ok false) as ->.
  { unfold get_is. rewrite get_find by done. destruct (Z.eqb_spec fmt 2) as [H2|]; [|done].
    pose proof (ac_new _ _ _ _ Ha H2) as Hp. unfold vget in Hp.
    destruct (Registry.find c r) as [s|] eqn:Hs; [|done]. simpl in Hp.
    destruct (find_inv c r s Hr Hs) as (_&_&_&_&Hw). cbn.
    by rewrite (Registry.s_read s Hw), Hp. }
  cbn [mbind Res_bind]. rewrite (proj2 (Z.leb_le fmt 2)) by lia.
  rewrite Ets. cbn [mbind Res_bind].
  rewrite (proj2 (Z.eqb_neq fmt 3)) by lia. cbn [mbind Res_bind]. rewrite orb_false_r.
  replace (16777215 <=? Z.min ts EXTENDED_TIMESTAMP_MARKER) with ext
    by (unfold ext, EXTENDED_TIMESTAMP_MARKER; zcases; lia).
  rewrite (proj2 (Z.ltb_ge _ _)) by lia.
  apply plan_payload_accepts; try done; try lia.
  unfold eff_len_for_avail, veff_len, get_field. rewrite get_find by done.
  destruct (Z.leb_spec fmt 1).
  - rewrite <- Elen by done. destruct (Z.eqb_spec fmt 0), (Z.eqb_spec fmt 1); try lia; done.
  - destruct (Z.eqb_spec fmt 0), (Z.eqb_spec fmt 1); try lia. simpl.
    destruct (known_find r c) as (s&Hs); [apply (ac_known _ _ _ _ Ha); lia|].
    unfold vget. by rewrite Hs.
Qed.

(** A continuation chunk is planned for the message in flight. *)
Lemma phase1_cont r c ext x :
  Registry.wf r → Writer.csid_ok c → v_header (vget r c) = true →
  v_ext (vget r c) = bool_decide (is_Some ext) → accepts r c 3 0 →
  vquota 3 0 (vget r c) ≤ zlen x →
  let l := Writer.cont_bytes c ext ++ x in
  phase1 r (zlen l) l
  = Ok (Some (mkPlan 3 c (zlen (Writer.basic_bytes c 3)) (bool_decide (is_Some ext))
      (vquota 3 0 (vget r c)))).
Proof.
  intros Hr Hc Hh He Ha Hx l. set (hs := zlen (Writer.basic_bytes c 3)).
  destruct (known_find r c Hh) as (s&Hs).
  assert (zlen l = hs + (if bool_decide (is_Some ext) then 4 else 0) + zlen x) as Hz.
  { unfold l, Writer.cont_bytes. rewrite !zlen_app. fold hs. destruct ext; simpl; zlia. }
  set (y := match ext with Some ts => to_be_bytes32 ts | None => [] end ++ x).
  destruct (parse_basic_bytes c 3 y Hc ltac:(lia)) as (first&E0&Efmt&Eb). fold hs in Eb.
  assert (Writer.basic_bytes c 3 ++ y = l) as El
    by (unfold l, Writer.cont_bytes; by rewrite <- app_assoc).
  rewrite El in E0, Eb. pose proof (zlen_nonneg x).
  set (e := bool_decide (is_Some ext)) in *. assert (0 ≤ (if e then 4 else 0)) by (by destruct e).
  unfold phase1. rewrite E0. cbn [mbind Res_bind]. rewrite Efmt, Eb. cbn [mbind Res_bind].
  change (msg_field_size 3) with (Ok 0). cbn [mbind Res_bind].
  rewrite (proj2 (Z.ltb_ge _ (hs + 0))) by lia.
  unfold get_field. rewrite !get_find by done. simpl. rewrite Hs. cbn [mbind Res_bind].
  unfold vget in He. rewrite Hs in He. simpl in He. rewrite He.
  rewrite (proj2 (Z.ltb_ge _ _)) by (simpl; lia).
  apply plan_payload_accepts; try done; try lia.
  unfold eff_len_for_avail, veff_len, get_field. rewrite get_find by done. simpl.
  unfold vget. by rewrite Hs.
Qed.

(** The fields phase 2 extracts from a first-chunk header. *)
Definition wire_fields (fmt ts len ty sid : Z) : Fields :=
  mkFields ts (if fmt <=? 1 then len else 0) (if fmt <=? 1 then ty else 0)
    (if fmt =? 0 then sid else 0).

Lemma le32_roundtrip v : is_u32 v →
  u32_le (as_u8 v) (as_u8 (v >> 8)) (as_u8 (v >> 16)) (as_u8 (v >> 24)) = v.
Proof. intros. rewrite u32_le_val by apply as_u8_range. by apply be32_roundtrip. Qed.

(** The message-header part of a first chunk. *)
Definition field_bytes (fmt ts len ty sid : Z) : bytes :=
  hton24_bytes (Z.min ts EXTENDED_TIMESTAMP_MARKER)
  ++ (if fmt <=? 1 then hton24_bytes len ++ [ty] else [])
  ++ (if fmt =? 0 then to_le_bytes32 sid else []).

Lemma zlen_field_bytes fmt ts len ty sid : 0 ≤ fmt ≤ 2 →
  zlen (field_bytes fmt ts len ty sid) = field_size fmt.
Proof. intros. unfold field_bytes, field_size. repeat (zcase; try lia); zlia. Qed.

Lemma parse_field_bytes fmt ts len ty sid : 0 ≤ fmt ≤ 2 → is_u32 ts → is_u24 len →
  is_u32 sid →
  parse_fields fmt (field_bytes fmt ts len ty sid)
  = Ok (wire_fields fmt (Z.min ts EXTENDED_TIMESTAMP_MARKER) len ty sid).
Proof.
  intros Hf Hts Hl Hs. set (m := Z.min ts EXTENDED_TIMESTAMP_MARKER).
  assert (is_u24 m) as Hm by (unfold m, EXTENDED_TIMESTAMP_MARKER; ulia).
  assert (∀ x, u24_at (hton24_bytes m ++ x) 0 = Ok m) as H0 by (intros; by apply (u24_at_app [])).
  assert (∀ x, u24_at (hton24_bytes m ++ hton24_bytes len ++ x) 3 = Ok len) as H3
    by (intros; by apply (u24_at_app (hton24_bytes m))).
  unfold parse_fields, field_bytes, wire_fields. fold m.
  destruct (Z.eqb_spec fmt 0) as [->|]; [|destruct (Z.eqb_spec fmt 1) as [->|];
    [|destruct (Z.eqb_spec fmt 2) as [->|]; [by rewrite H0|lia]]].
  2: { change (1 <=? 1) with true. cbv iota. rewrite <- !app_assoc. by rewrite H0, H3. }
  change (0 <=? 1) with true. cbv iota. rewrite <- !app_assoc. rewrite H0, H3.
  exact (f_equal (λ x, Ok (mkFields m len ty x)) (le32_roundtrip sid Hs)).
Qed.

Lemma header_bytes_split c fmt ts len ty sid x :
  Writer.header_bytes c fmt ts len ty sid ++ x
  = Writer.basic_bytes c fmt ++ field_bytes fmt ts len ty sid
    ++ (if EXTENDED_TIMESTAMP_MARKER <=? ts then to_be_bytes32 ts else []) ++ x.
Proof. unfold Writer.header_bytes, field_bytes. by rewrite <- !app_assoc. Qed.

Lemma spec_fields_header c fmt ts len ty sid x n : 0 ≤ fmt ≤ 2 → is_u32 ts → is_u24 len →
  is_u32 sid →
  spec_fields (mkPlan fmt c (zlen (Writer.basic_bytes c fmt))
      (EXTENDED_TIMESTAMP_MARKER <=? ts) n) (Writer.header_bytes c fmt ts len ty sid ++ x)
  = Ok (wire_fields fmt ts len ty sid).
Proof.
  intros Hf Hts Hl Hs. unfold spec_fields. cbn [p_header_size p_fmt p_ext_ts].
  rewrite header_bytes_split, zdrop_app_exact.
  rewrite <- (zlen_field_bytes fmt ts len ty sid) by done.
  rewrite ztake_app_exact, zdrop_app_exact, parse_field_bytes by done. cbn [mbind Res_bind].
  destruct (Z.leb_spec EXTENDED_TIMESTAMP_MARKER ts).
  - rewrite <- (zlen_be32 ts), ztake_app_exact.
    pose proof (ntoh32_to_be ts [] Hts) as E. rewrite app_nil_r in E. by rewrite E.
  - by rewrite Z.min_l by lia.
Qed.

Lemma spec_fields_cont c ext x n : match ext with Some ts => is_u32 ts | None => True end →
  spec_fields (mkPlan 3 c (zlen (Writer.basic_bytes c 3)) (bool_decide (is_Some ext)) n)
    (Writer.cont_bytes c ext ++ x) = Ok (mkFields (default 0 ext) 0 0 0).
Proof.
  intros Hts. unfold spec_fields, Writer.cont_bytes. cbn [p_header_size p_fmt p_ext_ts].
  rewrite <- app_assoc, zdrop_app_exact. change (field_size 3) with 0.
  rewrite (ztake_nonpos 0), (zdrop_nonpos 0) by lia. change (parse_fields 3 []) with
    (Ok (mkFields 0 0 0 0)). cbn [mbind Res_bind].
  destruct ext as [ts|]; [|done].
  change (bool_decide (is_Some (Some ts))) with true. cbv iota.
  rewrite <- (zlen_be32 ts), ztake_app_exact.
  pose proof (ntoh32_to_be ts [] Hts) as E. rewrite app_nil_r in E. by rewrite E.
Qed.

(** * One chunk *)

(** The effect of one chunk on CSID [c]: [v] and [out] are the next protocol
    state and the message it completes. *)
Record stepped (r r' : ChunkRegistry) (c : Z) (v : view) : Prop := {
  st_wf : Registry.wf r';
  st_view : vget r' c = v;
  st_other : ∀ c', c' ≠ c → vget r' c' = vget r c';
  st_config : same_config r r';
  st_bytes : reassembly_bytes_in_use r' - zlen (v_partial v)
             = reassembly_bytes_in_use r - zlen (v_partial (vget r c));
  st_count : reassembling_count r' - vactive v = reassembling_count r - vactive (vget r c);
  st_known : ∀ c', is_Some (Registry.find c' r') → c' = c ∨ is_Some (Registry.find c' r);
}.

(** A planned chunk with readable fields is consumed. *)
Lemma spec_chunk_planned r l p f : Registry.wf r → bytes_ok l →
  phase1 r (zlen l) l = Ok (Some p) → spec_fields p l = Ok f →
  ∃ x, spec_chunk r l = Ok (Some x).
Proof.
  intros Hr Hl Ep Ef. assert (0 < zlen l) as Hn.
  { destruct l; [done|]. zlia. }
  pose proof (phase1_ok r l Hr Hl Hn) as Hp. rewrite Ep in Hp.
  unfold spec_chunk. rewrite (proj2 (Z.ltb_ge (zlen l) 1)) by lia.
  rewrite Ep. cbn [mbind Res_bind]. rewrite Ef. cbn [mbind Res_bind].
  pose proof (Registry.can_get_or_create_agrees (p_csid p) r Hr) as Hroom.
  rewrite (pk_room _ _ _ Hp) in Hroom.
  pose proof (Registry.get_or_create_index_spec (p_csid p) r Hr
    (csid_ok_u32 _ (pk_csid _ _ _ Hp))) as Hg.
  destruct (Registry.get_or_create_index (p_csid p) r) as [[i|e|] r1]; try done.
  destruct Hg as (_&s&->&_). cbn [mbind Res_bind or_panic].
  destruct (advance _ _ _ _) as [t out]. by eexists.
Qed.

(** A planned chunk is consumed, and moves its stream by [vstep]. *)
Lemma spec_chunk_step r l p f : Registry.wf r → bytes_ok l →
  phase1 r (zlen l) l = Ok (Some p) → spec_fields p l = Ok f →
  ∃ r' out, spec_chunk r l = Ok (Some (header_len p + p_to_read p, r', out))
    ∧ stepped r r' (p_csid p) (vstep (p_csid p) (p_fmt p) f (p_ext_ts p)
        (ztake (p_to_read p) (zdrop (header_len p) l)) (vget r (p_csid p))).1
    ∧ out = (vstep (p_csid p) (p_fmt p) f (p_ext_ts p)
        (ztake (p_to_read p) (zdrop (header_len p) l)) (vget r (p_csid p))).2.
Proof.
  intros Hr Hl Ep Ef. set (s := mkR (Buffer.from_slice l) r ReadLoop.default_msg None 0).
  assert (input_ok s) as Hs.
  { constructor; simpl; [apply Buffer.wf_from_slice| |done].
    by rewrite Buffer.contents_from_slice. }
  pose proof (chunk_read_cases s Hs) as H. cbv zeta in H. simpl in H.
  rewrite Buffer.contents_from_slice in H.
  destruct (spec_chunk_planned r l p f Hr Hl Ep Ef) as (x&Ex). rewrite Ex in H.
  destruct H as [[? _]|[[? _]|H]]; [done..|].
  destruct H as (n&r'&out&p'&f'&i&r1&s0&t&b'&Es&Hc&_).
  destruct (consumed_step _ _ _ _ _ _ _ _ _ _ _ Hr Hc) as (Hv&Ho&Hcfg&Hby&Hcn&Hfo).
  pose proof (cd_phase1 _ _ _ _ _ _ _ _ _ _ _ Hc) as E1. rewrite Ep in E1.
  pose proof (cd_fields _ _ _ _ _ _ _ _ _ _ _ Hc) as E2. simplify_eq. rewrite Ef in E2.
  simplify_eq. pose proof (cd_size _ _ _ _ _ _ _ _ _ _ _ Hc) as ->.
  exists r', out. rewrite <- Hv. split_and!; [done| |done].
  constructor; try done; [by apply Hc|].
  intros c' Hs'. destruct (decide (c' = p_csid p')); [by left|right]. by rewrite <- Hfo.
Qed.

Lemma bytes_ok_header c fmt ts len ty sid : Writer.csid_ok c → 0 ≤ fmt ≤ 2 → is_u8 ty →
  bytes_ok (Writer.header_bytes c fmt ts len ty sid).
Proof.
  intros Hc Hf Ht. unfold Writer.header_bytes, bytes_ok. rewrite !Forall_app. split_and!.
  - apply Writer.bytes_ok_basic; [done|lia].
  - apply bytes_ok_hton24.
  - case_match; [|constructor]. apply Forall_app. split; [apply bytes_ok_hton24|by constructor; [|constructor]].
  - case_match; [apply bytes_ok_le32|constructor].
  - case_match; [apply bytes_ok_be32|constructor].
Qed.

Lemma bytes_ok_cont c ext : Writer.csid_ok c → bytes_ok (Writer.cont_bytes c ext).
Proof.
  intros Hc. apply Forall_app. split; [apply Writer.bytes_ok_basic; [done|lia]|].
  destruct ext; [apply bytes_ok_be32|constructor].
Qed.

(** Reading [a ++ d ++ rest] where phase 1 plans header [a] and payload [d]. *)
Lemma chunk_read_at r a d rest p f : Registry.wf r → bytes_ok (a ++ d ++ rest) →
  phase1 r (zlen (a ++ d ++ rest)) (a ++ d ++ rest) = Ok (Some p) →
  spec_fields p (a ++ d ++ rest) = Ok f → header_len p = zlen a → p_to_read p = zlen d →
  let x := vstep (p_csid p) (p_fmt p) f (p_ext_ts p) d (vget r (p_csid p)) in
  ∃ r', spec_chunk r ((a ++ d) ++ rest) = Ok (Some (zlen (a ++ d), r', x.2))
    ∧ stepped r r' (p_csid p) x.1.
Proof.
  intros Hr Hb Ep Ef Eh Et x.
  destruct (spec_chunk_step r _ p f Hr Hb Ep Ef) as (r'&out&Es&Hst&Ho).
  rewrite Eh, Et in *. rewrite zdrop_app_exact, ztake_app_exact in *. fold x in Hst, Ho.
  exists r'. rewrite <- app_assoc, zlen_app. by subst out.
Qed.

(** A first chunk as the writer lays it out moves its stream by [vstep]. *)
Lemma first_chunk r c fmt ts len ty sid d rest : Registry.wf r → Writer.csid_ok c →
  0 ≤ fmt ≤ 2 → is_u32 ts → is_u24 len → is_u8 ty → is_u32 sid → bytes_ok d → bytes_ok rest →
  accepts r c fmt len → zlen d = vquota fmt len (vget r c) →
  let a := Writer.header_bytes c fmt ts len ty sid in
  let x := vstep c fmt (wire_fields fmt ts len ty sid) (EXTENDED_TIMESTAMP_MARKER <=? ts) d
             (vget r c) in
  ∃ r', spec_chunk r ((a ++ d) ++ rest) = Ok (Some (zlen (a ++ d), r', x.2))
    ∧ stepped r r' c x.1.
Proof.
  intros Hr Hc Hf Hts Hlen Hty Hsid Hd Hrest Ha Hq.
  pose proof (bytes_ok_header c fmt ts len ty sid Hc Hf Hty).
  assert (is_u24 (Z.min ts EXTENDED_TIMESTAMP_MARKER))
    by (unfold EXTENDED_TIMESTAMP_MARKER; ulia).
  destruct (header_layout c fmt ts len ty sid [] Hf) as (Hz&_); [done..|].
  rewrite app_nil_r in Hz. change (zlen []) with 0 in Hz.
  refine (chunk_read_at r _ d rest (mkPlan fmt c _ (EXTENDED_TIMESTAMP_MARKER <=? ts)
    (vquota fmt len (vget r c))) _ Hr _ _ _ _ _).
  - unfold bytes_ok. by rewrite !Forall_app.
  - apply phase1_header; try done. rewrite <- Hq. zlia.
  - by apply spec_fields_header.
  - unfold header_len. simpl. lia.
  - by simpl.
Qed.

(** A continuation chunk likewise. *)
Lemma cont_chunk r c ext d rest : Registry.wf r → Writer.csid_ok c →
  match ext with Some ts => is_u32 ts | None => True end →
  v_header (vget r c) = true → v_ext (vget r c) = bool_decide (is_Some ext) →
  bytes_ok d → bytes_ok rest → accepts r c 3 0 → zlen d = vquota 3 0 (vget r c) →
  let a := Writer.cont_bytes c ext in
  let x := vstep c 3 (mkFields (default 0 ext) 0 0 0) (bool_decide (is_Some ext)) d
             (vget r c) in
  ∃ r', spec_chunk r ((a ++ d) ++ rest) = Ok (Some (zlen (a ++ d), r', x.2))
    ∧ stepped r r' c x.1.
Proof.
  intros Hr Hc Hts Hh He Hd Hrest Ha Hq. pose proof (bytes_ok_cont c ext Hc).
  refine (chunk_read_at r _ d rest (mkPlan 3 c _ (bool_decide (is_Some ext))
    (vquota 3 0 (vget r c))) _ Hr _ _ _ _ _).
  - unfold bytes_ok. by rewrite !Forall_app.
  - apply phase1_cont; try done. rewrite <- Hq. zlia.
  - by apply spec_fields_cont.
  - unfold header_len, Writer.cont_bytes. cbn [p_header_size p_fmt p_ext_ts].
    change (field_size 3) with 0. rewrite zlen_app. by destruct ext; rewrite Z.add_0_r.
  - by simpl.
Qed.

(** The view and the output of one chunk, through [spec_owned]. *)
Lemma owned_step r l n r' out c v : Registry.wf r →
  spec_chunk r l = Ok (Some (n, r', out)) → stepped r r' c v →
  match out with Some (m, _) => m_csid m = c | None => True end →
  ∃ r'', spec_owned r l = Ok (Some (n, r'', out)) ∧ stepped r r'' c v.
Proof.
  intros Hr Es [] Hm. unfold spec_owned. rewrite Es. cbn [mbind Res_bind].
  destruct out as [[m d]|]; [|by exists r'].
  rewrite Registry.live_index_spec by done. cbn [mbind Res_bind].
  destruct (csid_index r' !! m_csid m) as [i|] eqn:Hi; [|by exists r'].
  destruct (Registry.wf_index r' _ i st_wf0 Hi) as (s&Hs&Hc&Hw&_).
  unfold Registry.update_stream. rewrite Hs. cbn [mbind Res_bind or_panic].
  eexists. split; [done|]. set (r'' := Registry.set_streams _ r').
  assert (∀ c', vget r'' c' = vget r' c') as Hv.
  { intros c'. unfold vget, Registry.find. simpl.
    destruct (csid_index r' !! c') as [j|]; [|done]. simpl.
    destruct (decide (i = j)) as [<-|].
    - rewrite list_lookup_insert_eq by (by eapply lookup_lt_Some). by rewrite Hs.
    - by rewrite list_lookup_insert_ne. }
  constructor; try done.
  - by apply wf_payload_moved.
  - by rewrite Hv.
  - intros c' Hne. rewrite Hv. by apply st_other0.
  - intros c' Hs'. apply st_known0. revert Hs'. unfold Registry.find. simpl.
    destruct (csid_index r' !! c') as [j|]; [|done]. simpl. intros Hj.
    apply lookup_lt_is_Some. apply lookup_lt_is_Some in Hj. by rewrite length_insert in Hj.
Qed.

Lemma bytes_ok_joined n sep l : 0 < n → bytes_ok sep → bytes_ok l →
  bytes_ok (Writer.joined sep (Writer.chunks n l)).
Proof.
  intros Hn Hs. revert l. refine (Writer.chunks_ind n _ Hn _ _); [done|]. intros l Hl IH Hok.
  rewrite Writer.joined_chunks by done. apply Forall_app. split; [by apply Forall_ztake|].
  destruct (zlen l <=? n); [constructor|]. apply Forall_app. split; [done|].
  by apply IH, Forall_zdrop.
Qed.

(** What follows the first [n] payload bytes on the wire. *)
Definition body_tail (c n : Z) (ext : option Z) (D rest : bytes) : bytes :=
  if zlen D <=? n then rest
  else Writer.cont_bytes c ext
       ++ Writer.joined (Writer.cont_bytes c ext) (Writer.chunks n (zdrop n D)) ++ rest.

Lemma joined_split c n ext D rest : 0 < n →
  Writer.joined (Writer.cont_bytes c ext) (Writer.chunks n D) ++ rest
  = ztake n D ++ body_tail c n ext D rest.
Proof.
  intros Hn. unfold body_tail. destruct D as [|x D'].
  - rewrite (ztake_all n []) by zlia. zcases; [done|zlia].
  - rewrite Writer.joined_chunks by done. destruct (_ <=? n); by rewrite <- !app_assoc.
Qed.

Lemma bytes_ok_body_tail c n ext D rest : 0 < n → Writer.csid_ok c → bytes_ok D →
  bytes_ok rest → bytes_ok (body_tail c n ext D rest).
Proof.
  intros Hn Hc HD Hrest. unfold body_tail. destruct (zlen D <=? n); [done|].
  unfold bytes_ok. rewrite !Forall_app. split_and!; [by apply bytes_ok_cont| |done].
  apply bytes_ok_joined; [done|by apply bytes_ok_cont|by apply Forall_zdrop].
Qed.

(** * One message *)

Section message.
Context {X : Type} (handle : ReadLoop.delivery → X * ChunkRegistry → Res (X * ChunkRegistry)).
Context (handle_wf : ∀ d g g', Registry.wf g.2 → handle d g = Ok g' → Registry.wf g'.2).
Context (x : X).

(** What the loop does once message [d] is complete and [rest] is unread. *)
Definition delivers (d : ReadLoop.delivery) (r : ChunkRegistry) (rest : bytes) :=
  match handle d (x, r) with
  | Ok g => ReadLoop.prepend [d] (ReadLoop.run handle g rest)
  | Err e => ([d], ReadLoop.Closed (ReadLoop.handler_code e), ((x, r), rest))
  | Panic => ([d], ReadLoop.Crashed, ((x, r), rest))
  end.

(** One turn of the loop on a chunk [a ++ d] whose step is known. *)
Lemma run_step r a c v r' out rest : Registry.wf r → bytes_ok (a ++ rest) →
  spec_chunk r (a ++ rest) = Ok (Some (zlen a, r', out)) → stepped r r' c v →
  match out with Some (m, _) => m_csid m = c | None => True end →
  ∃ r'', stepped r r'' c v ∧
    ReadLoop.run handle (x, r) (a ++ rest)
    = match out with
      | Some d => delivers d r'' rest
      | None => ReadLoop.run handle (x, r'') rest
      end.
Proof.
  intros Hr Hb Es Hst Hm. destruct (owned_step _ _ _ _ _ _ _ Hr Es Hst Hm) as (r''&Eo&Hst').
  exists r''. split; [done|]. rewrite ReadLoop.run_eq by done. simpl. rewrite Eo, zdrop_app_exact.
  by destruct out.
Qed.

(** The caps leave room for [len] payload bytes on CSID [c]. *)
Definition roomy (r : ChunkRegistry) (c len : Z) : Prop :=
  len ≤ max_msg_length r
  ∧ reassembly_bytes_in_use r - zlen (v_partial (vget r c)) + len ≤ max_reassembly_bytes r.

Lemma stepped_roomy r r' c v len : stepped r r' c v → roomy r c len → roomy r' c len.
Proof.
  intros [] [H1 H2]. destruct st_config0 as (_&E1&_&E2). unfold roomy.
  rewrite st_view0, E1, E2. lia.
Qed.

Lemma stepped_trans r1 r2 r3 c v w : stepped r1 r2 c v → stepped r2 r3 c w → stepped r1 r3 c w.
Proof.
  intros [] []. destruct st_config0 as (?&?&?&?), st_config1 as (?&?&?&?).
  rewrite st_view0 in *. constructor; try done.
  - intros c' Hne. rewrite st_other1, st_other0 by done. done.
  - unfold same_config. split_and!; congruence.
  - lia.
  - lia.
  - intros c' [|]%st_known1; [by left|]. by apply st_known0.
Qed.

(** A stream in flight may always continue. *)
Lemma room_in_flight r c : Registry.wf r → v_partial (vget r c) ≠ [] →
  Registry.can_get_or_create c r = Ok true.
Proof.
  intros Hr Hp. unfold vget in Hp. destruct (Registry.find c r) as [s|] eqn:Hs; [|done].
  destruct (find_inv c r s Hr Hs) as (i&Hi&Hsi&Hc&Hw).
  unfold Registry.can_get_or_create. rewrite Hi, Hsi. cbn.
  rewrite (Registry.s_in_use s Hw), Hc, Z.eqb_refl. simpl.
  destruct (reassembling s) eqn:E; [done|]. pose proof (Registry.s_flight s Hw) as H.
  rewrite E, (Registry.s_read s Hw) in H. apply zlen_0_nil in H. done.
Qed.

Lemma vsize_bounds r c : Registry.wf r → DEFAULT_CHUNK_SIZE ≤ v_size (vget r c).
Proof.
  intros Hr. unfold vget. destruct (Registry.find c r) as [s|] eqn:Hs.
  - destruct (find_inv c r s Hr Hs) as (_&_&_&_&Hw). apply Hw.
  - apply Hr.
Qed.

(** Continuation chunks up to the end of the message. *)
Lemma run_body c ext rest R : Writer.csid_ok c → bytes_ok R → bytes_ok rest →
  match ext with Some ts => is_u32 ts | None => True end →
  ∀ r, Registry.wf r →
  let v := vget r c in
  v_header v = true → v_ext v = bool_decide (is_Some ext) → v_partial v ≠ [] → R ≠ [] →
  v_len v = zlen (v_partial v) + zlen R → roomy r c (v_len v) →
  ∃ r', stepped r r' c (set_partial [] v) ∧
    ReadLoop.run handle (x, r) (Writer.cont_bytes c ext
      ++ Writer.joined (Writer.cont_bytes c ext) (Writer.chunks (v_size v) R) ++ rest)
    = delivers (vmessage c 3 v, v_partial v ++ R) r' rest.
Proof.
  intros Hc HR Hrest Hext. remember (length R) as k eqn:Ek. revert R HR Ek.
  induction (lt_wf k) as [k _ IH]. intros R HR -> r Hr v Hh He Hp HRn Hl Hroom.
  pose proof (vsize_bounds r c Hr) as Hsz. fold v in Hsz. unfold DEFAULT_CHUNK_SIZE in Hsz.
  set (n := v_size v) in *. set (d := ztake n R). set (tail := body_tail c n ext R rest).
  rewrite joined_split by lia. fold d tail.
  assert (bytes_ok tail) as Htail by (apply bytes_ok_body_tail; auto; lia).
  assert (bytes_ok d) as Hdok by (by apply Forall_ztake).
  assert (zlen d = vquota 3 0 v) as Hd.
  { unfold d, vquota, veff_len, vbase, saturating_sub. simpl. fold n. rewrite Hl. zlia. }
  assert (accepts r c 3 0) as Ha.
  { constructor; fold v; try done.
    - destruct Hroom. unfold veff_len. simpl. lia.
    - unfold vbase. simpl. rewrite <- Hd. destruct Hroom as [_ Hroom]. fold v in Hroom.
      unfold d. zlia.
    - by apply room_in_flight. }
  destruct (cont_chunk r c ext d tail Hr Hc Hext Hh He Hdok Htail Ha Hd) as (r1&Es&Hst).
  fold v in Es, Hst.
  assert (vheader 3 (mkFields (default 0 ext) 0 0 0) (bool_decide (is_Some ext)) v = v) as Hv.
  { unfold vheader. simpl. rewrite bool_decide_false by done. rewrite <- Hh. by destruct v. }
  unfold vstep in Es, Hst. rewrite Hv in Es, Hst. rewrite Hl, (zlen_app (v_partial v) d) in Es, Hst.
  assert (bytes_ok ((Writer.cont_bytes c ext ++ d) ++ tail)) as Hok.
  { unfold bytes_ok. rewrite !Forall_app. split_and!; try done. by apply bytes_ok_cont. }
  unfold tail, body_tail in Es, Hok |- *. rewrite app_assoc.
  destruct (Z.leb_spec (zlen R) n) as [Hle|Hlt].
  - assert (d = R) as E by (by apply ztake_all). rewrite E in Es, Hst |- *.
    rewrite Z.leb_refl in Es, Hst.
    rewrite E in Hok.
    destruct (run_step r (Writer.cont_bytes c ext ++ R) c _ r1 _ rest Hr Hok Es Hst eq_refl)
      as (r2&Hst2&E2). by exists r2.
  - rewrite (proj2 (Z.leb_gt _ _)) in Es, Hst by (unfold d; zlia).
    destruct (run_step r (Writer.cont_bytes c ext ++ d) c _ r1 _ _ Hr Hok Es Hst I)
      as (r2&Hst2&E2).
    rewrite E2. cbn [snd fst] in *. clear Es Hst E2.
    pose proof (st_view _ _ _ _ Hst2) as Hv2.
    assert (zdrop n R ≠ []) as Hne by (intros E; apply (f_equal zlen) in E; zlia).
    assert (v_partial v ++ d ≠ []) as Hpd by (by destruct (v_partial v)).
    destruct (IH (length (zdrop n R)) ltac:(unfold zdrop; rewrite length_drop; unfold zlen in *;
      lia) (zdrop n R) ltac:(by apply Forall_zdrop) eq_refl r2 (st_wf _ _ _ _ Hst2))
      as (r3&Hst3&E3); rewrite ?Hv2; try done.
    { simpl. rewrite Hl. unfold d. zlia. }
    { by eapply stepped_roomy. }
    rewrite Hv2 in E3, Hst3. exists r3. split; [by eapply stepped_trans|].
    cbn [v_size set_partial] in E3. fold n in E3.
    etrans; [exact E3|]. simpl.
    unfold d. by rewrite <- app_assoc, ztake_zdrop_app.
Qed.

(** The header state a first chunk establishes. *)
Definition first_view (fmt ts len ty sid : Z) (v : view) : view :=
  vheader fmt (wire_fields fmt ts len ty sid) (EXTENDED_TIMESTAMP_MARKER <=? ts) v.

Lemma eff_chunk_size_id n : 0 < n → Writer.eff_chunk_size n = n.
Proof. unfold Writer.eff_chunk_size. zcases; lia. Qed.

(** The reader takes the first chunk of a message that fits the caps. *)
Lemma accepts_first r c fmt len (D : bytes) : Registry.wf r → 0 ≤ fmt ≤ 2 →
  veff_len fmt len (vget r c) = zlen D →
  (fmt = 2 → v_header (vget r c) = true ∧ v_partial (vget r c) = []) →
  roomy r c (zlen D) → Registry.can_get_or_create c r = Ok true →
  accepts r c fmt len ∧ vquota fmt len (vget r c) = zlen (ztake (v_size (vget r c)) D).
Proof.
  intros Hr Hf Hl H2 [Hr1 Hr2] Hroom. pose proof (vsize_bounds r c Hr) as Hsz.
  unfold DEFAULT_CHUNK_SIZE in Hsz.
  assert (zlen (vbase fmt (vget r c)) = 0) as Hb.
  { unfold vbase. destruct (Z.leb_spec fmt 1); [done|]. by destruct H2 as [_ ->]; [lia|]. }
  assert (vquota fmt len (vget r c) = zlen (ztake (v_size (vget r c)) D)) as Hq
    by (unfold vquota, saturating_sub; rewrite Hl, Hb; zlia).
  split; [|done]. constructor; try done.
  - intros. apply H2. lia.
  - intros E. by apply H2.
  - lia.
  - rewrite Hq, Hb. zlia.
Qed.

(** A whole message, fragmented at the chunk size in force, is delivered. *)
Lemma run_message r c fmt ts len ty sid D rest : Registry.wf r → Writer.csid_ok c →
  0 ≤ fmt ≤ 2 → is_u32 ts → is_u24 len → is_u8 ty → is_u32 sid → bytes_ok D → bytes_ok rest →
  let v := vget r c in
  let h := first_view fmt ts len ty sid v in
  v_len h = zlen D → (fmt = 2 → v_header v = true ∧ v_partial v = []) →
  roomy r c (zlen D) → Registry.can_get_or_create c r = Ok true →
  ∃ r', stepped r r' c (set_partial [] h) ∧
    ReadLoop.run handle (x, r) (Writer.header_bytes c fmt ts len ty sid
      ++ Writer.body_bytes c D (v_size v) (Writer.ext_field ts) ++ rest)
    = delivers (vmessage c (if zlen D <=? v_size v then fmt else 3) h, D) r' rest.
Proof.
  intros Hr Hc Hf Hts Hlen Hty Hsid HD Hrest v h Hl H2 Hroomy Hroom.
  pose proof (vsize_bounds r c Hr) as Hsz. fold v in Hsz. unfold DEFAULT_CHUNK_SIZE in Hsz.
  set (n := v_size v) in *. set (d := ztake n D). set (ext := Writer.ext_field ts).
  assert (match ext with Some t => is_u32 t | None => True end) as Hext
    by (unfold ext, Writer.ext_field; by destruct (EXTENDED_TIMESTAMP_MARKER <=? ts)).
  set (tail := body_tail c n ext D rest). unfold Writer.body_bytes.
  rewrite eff_chunk_size_id, joined_split by lia. fold d tail.
  assert (bytes_ok tail) as Htail by (apply bytes_ok_body_tail; auto; lia).
  assert (bytes_ok d) as Hdok by (by apply Forall_ztake).
  destruct (accepts_first r c fmt len D Hr Hf) as [Ha Hq]; try done.
  { unfold veff_len. fold v. rewrite <- Hl. unfold h, first_view, vheader, wire_fields. simpl.
    by destruct (fmt <=? 1). }
  destruct (first_chunk r c fmt ts len ty sid d tail) as (r1&Es&Hst); try done.
  fold v in Es, Hst. unfold vstep in Es, Hst. fold (first_view fmt ts len ty sid v) in Es, Hst.
  fold h in Es, Hst.
  assert (v_partial h = []) as Hph.
  { unfold h, first_view, vheader. simpl. destruct (Z.leb_spec fmt 1); [done|]. by apply H2; lia. }
  rewrite Hph, app_nil_l, Hl in Es, Hst.
  set (a := Writer.header_bytes c fmt ts len ty sid) in *.
  assert (bytes_ok ((a ++ d) ++ tail)) as Hok.
  { unfold bytes_ok. rewrite !Forall_app. split_and!; try done. by apply bytes_ok_header. }
  unfold tail, body_tail in Es, Hok |- *. rewrite app_assoc.
  destruct (Z.leb_spec (zlen D) n) as [Hle|Hlt].
  - assert (d = D) as E by (by apply ztake_all). rewrite E in Es, Hst, Hok |- *.
    rewrite Z.leb_refl in Es, Hst.
    destruct (run_step r (a ++ D) c _ r1 _ rest Hr Hok Es Hst eq_refl) as (r2&Hst2&E2).
    by exists r2.
  - rewrite (proj2 (Z.leb_gt _ _)) in Es, Hst by (unfold d; zlia).
    destruct (run_step r (a ++ d) c _ r1 _ _ Hr Hok Es Hst I) as (r2&Hst2&E2).
    rewrite E2. cbn [snd fst] in *. clear Es Hst E2.
    pose proof (st_view _ _ _ _ Hst2) as Hv2.
    destruct (run_body c ext rest (zdrop n D) Hc ltac:(by apply Forall_zdrop) Hrest Hext r2
      (st_wf _ _ _ _ Hst2)) as (r3&Hst3&E3); rewrite ?Hv2; try done.
    { simpl. unfold ext, Writer.ext_field. rewrite (proj2 (Z.leb_le fmt 2)) by lia.
      by destruct (EXTENDED_TIMESTAMP_MARKER <=? ts). }
    { simpl. intros E. apply (f_equal zlen) in E. unfold d in E. zlia. }
    { intros E. apply (f_equal zlen) in E. zlia. }
    { change (v_len (set_partial d h)) with (v_len h). change (v_partial (set_partial d h)) with d. rewrite Hl. unfold d. zlia. }
    { change (v_len (set_partial d h)) with (v_len h). rewrite Hl. by eapply stepped_roomy. }
    rewrite Hv2 in E3, Hst3. exists r3. split; [by eapply stepped_trans|].
    etrans; [exact E3|]. simpl. unfold d. by rewrite ztake_zdrop_app.
Qed.
End message.

(** * A sequence of messages, end to end *)

(** The type ids of the messages that reach the chunk registry. *)
Definition SET_CHUNK_SIZE : Z := 1.
Definition ABORT_MESSAGE : Z := 2.

(** What Set Chunk Size announces, as the receiver reads it. *)
Definition announced (x : ReadLoop.delivery) : option Z :=
  if msg_type_id x.1 =? SET_CHUNK_SIZE then
    match Control.read_set_chunk_size x.2 with Ok n => Some n | _ => None end
  else None.

(** A message the writer accepts and the reader's limits admit; an Abort, which
    would drop a message, is not one, and a Set Chunk Size is well formed. *)
Record valid (ml nb : Z) (x : ReadLoop.delivery) : Prop := {
  va_csid : Writer.csid_ok (m_csid x.1);
  va_fmt : fmt x.1 = 0;
  va_ts : is_u32 (timestamp x.1);
  va_ty : is_u8 (msg_type_id x.1);
  va_sid : is_u32 (msg_stream_id x.1);
  va_len : msg_length x.1 = zlen x.2;
  va_u24 : is_u24 (zlen x.2);
  va_bytes : bytes_ok x.2;
  va_max : zlen x.2 ≤ ml;
  va_budget : zlen x.2 ≤ nb;
  va_abort : msg_type_id x.1 ≠ ABORT_MESSAGE;
  va_announced : msg_type_id x.1 = SET_CHUNK_SIZE → is_Some (announced x);
}.

(** What the reader reports for it: the same fields, complete, with the fmt of
    the chunk that completed it. *)
Definition delivered (cs : Z) (x : ReadLoop.delivery) : ReadLoop.delivery :=
  (mkMsg (m_csid x.1) (if zlen x.2 <=? cs then 0 else 3) (timestamp x.1) (msg_length x.1)
     (msg_type_id x.1) (msg_stream_id x.1) true, x.2).

(** The chunk size of a sender after it sent a message: it keeps to the size it
    announced. *)
Definition next_size (x : ReadLoop.delivery) (cs : Z) : Z := default cs (announced x).

Fixpoint write_all (ms : list ReadLoop.delivery) (cs : Z) : ST Buffer unit :=
  match ms with
  | [] => mret tt
  | x :: ms => Writer.chunk_write x.1 x.2 (zlen x.2) cs;; write_all ms (next_size x cs)
  end.

Fixpoint wire (cs : Z) (ms : list ReadLoop.delivery) : bytes :=
  match ms with
  | [] => []
  | x :: ms => Writer.message_bytes x.1 x.2 cs ++ wire (next_size x cs) ms
  end.

Fixpoint delivered_all (cs : Z) (ms : list ReadLoop.delivery) : list ReadLoop.delivery :=
  match ms with
  | [] => []
  | x :: ms => delivered cs x :: delivered_all (next_size x cs) ms
  end.

(** A handler does to the registry what [handle_control] does on this message:
    Set Chunk Size applies to all streams, and no other message but an Abort
    reaches the registry. *)
Definition resized (d : ReadLoop.delivery) (r : ChunkRegistry) : ChunkRegistry :=
  from_option (λ n, Registry.set_all_chunk_size n r) r (announced d).

Definition resizes {X} (handle : ReadLoop.delivery → X * ChunkRegistry → Res (X * ChunkRegistry))
    (d : ReadLoop.delivery) : Prop :=
  ∀ x r, ∃ x', handle d (x, r) = Ok (x', resized d r).

(** A reader between messages, whose known CSIDs are in [U]. *)
Record idle (U : gset Z) (cs : Z) (r : ChunkRegistry) : Prop := {
  id_wf : Registry.wf r;
  id_count : reassembling_count r = 0;
  id_bytes : reassembly_bytes_in_use r = 0;
  id_partial : ∀ c, v_partial (vget r c) = [];
  id_size : ∀ c, v_size (vget r c) = cs;
  id_known : ∀ c, is_Some (Registry.find c r) → c ∈ U;
}.

(** Distinct CSIDs bound the slots in use. *)
Lemma slots_left (U : gset Z) r c : Registry.wf r →
  (∀ c, is_Some (Registry.find c r) → c ∈ U) → c ∈ U → Registry.find c r = None →
  Z.of_nat (stdpp.base.size U) ≤ MAX_CHUNK_STREAMS → zlen (streams r) < MAX_CHUNK_STREAMS.
Proof.
  intros Hr HU Hc Hn Hs. unfold zlen.
  assert (NoDup (csid <$> streams r)) as Hnd.
  { apply NoDup_alt. intros i j x. rewrite !list_lookup_fmap.
    intros (s&Hi&->)%fmap_Some (t&Hj&E)%fmap_Some.
    pose proof (Registry.r_complete r Hr i s Hi). pose proof (Registry.r_complete r Hr j t Hj).
    congruence. }
  assert (list_to_set (csid <$> streams r) ⊆ U ∖ {[c]}) as Hsub.
  { intros x. rewrite elem_of_list_to_set, list_elem_of_fmap.
    intros (s&->&(i&Hi)%list_elem_of_lookup).
    assert (Registry.find (csid s) r = Some s) as Hf.
    { apply find_streams; [done|]. by exists i. }
    apply elem_of_difference. split; [apply HU; by exists s|].
    rewrite elem_of_singleton. congruence. }
  apply subseteq_size in Hsub. rewrite size_list_to_set, length_fmap in Hsub by done.
  rewrite size_difference, size_singleton in Hsub by set_solver.
  assert (stdpp.base.size U ≠ 0%nat) by (intros E%size_empty_inv; set_solver). lia.
Qed.

Lemma room_idle U cs r c : idle U cs r → c ∈ U → Z.of_nat (stdpp.base.size U) ≤ MAX_CHUNK_STREAMS →
  1 ≤ max_active_csids r → Registry.can_get_or_create c r = Ok true.
Proof.
  intros [] Hc Hs Hm. pose proof (Registry.can_get_or_create_agrees c r id_wf0) as E.
  rewrite E. f_equal. unfold Registry.get_or_create_index, Registry.open_slot,
    Registry.active_reassembling. rewrite id_count0.
  rewrite (proj2 (Z.leb_gt _ _)) by lia.
  destruct (csid_index r !! c) as [i|] eqn:Hi.
  - destruct (Registry.wf_index r c i id_wf0 Hi) as (s&Hsi&_&_&Hl). rewrite Hsi, Hl.
    by rewrite andb_false_r.
  - rewrite (proj2 (Z.leb_gt _ _)); [done|]. apply (slots_left U r c); try done.
    unfold Registry.find. by rewrite Hi.
Qed.

(** Delivering one message leaves the reader idle again. *)
Lemma idle_stepped U cs r r' c v : idle U cs r → stepped r r' c (set_partial [] v) →
  v_size v = cs → c ∈ U → idle U cs r'.
Proof.
  intros [] [] Hv Hc. rewrite id_partial0 in *. unfold vactive in *.
  rewrite id_partial0 in *. simpl in *. change (zlen []) with 0 in *.
  constructor; try done; try lia.
  - intros c'. destruct (decide (c' = c)) as [->|]; [by rewrite st_view0|].
    by rewrite st_other0.
  - intros c'. destruct (decide (c' = c)) as [->|]; [by rewrite st_view0|].
    by rewrite st_other0.
  - intros c' [->|]%st_known0; [done|]. by apply id_known0.
Qed.

Lemma announced_bounds x n : bytes_ok x.2 → announced x = Some n → DEFAULT_CHUNK_SIZE ≤ n ≤ MAX_PEER_CHUNK_SIZE.
Proof.
  unfold announced. intros Hb. case_match; [|done]. case_match eqn:E; [|done..]. intros [= <-].
  unfold Control.read_set_chunk_size in E. case_match; [done|].
  destruct (ntoh32 x.2) as [v|e|]; [|done..]. rewrite Ok_bind in E. case_match eqn:Hg; [done|].
  injection E as <-. apply orb_false_iff in Hg as [Hg%Z.ltb_ge _].
  unfold Control.MIN_CHUNK_SIZE, DEFAULT_CHUNK_SIZE, MAX_PEER_CHUNK_SIZE in *. lia.
Qed.

Lemma next_size_bounds x cs : bytes_ok x.2 → DEFAULT_CHUNK_SIZE ≤ cs ≤ MAX_PEER_CHUNK_SIZE →
  DEFAULT_CHUNK_SIZE ≤ next_size x cs ≤ MAX_PEER_CHUNK_SIZE.
Proof.
  intros Hb Hcs. unfold next_size. destruct (announced x) as [n|] eqn:E; [|done].
  by eapply announced_bounds.
Qed.

(** Set Chunk Size between messages: all streams, known or not, follow it. *)
Lemma idle_set_all U cs n r : idle U cs r → DEFAULT_CHUNK_SIZE ≤ n ≤ MAX_PEER_CHUNK_SIZE →
  idle U n (Registry.set_all_chunk_size n r).
Proof.
  intros [] Hn. pose proof (Registry.wf_set_all_chunk_size n r id_wf0) as Hw.
  set (g := λ s, if in_use s then ChunkStream.set_chunk_size n s else s).
  assert (∀ c, Registry.find c (Registry.set_all_chunk_size n r) = g <$> Registry.find c r) as Hf.
  { intros c. unfold Registry.find, Registry.set_all_chunk_size.
    rewrite (proj2 (Z.ltb_ge _ _)), (proj2 (Z.ltb_ge _ _)) by lia. simpl.
    destruct (csid_index r !! c) as [i|]; [|done]. simpl. by rewrite list_lookup_fmap. }
  assert (∀ c, vget (Registry.set_all_chunk_size n r) c
    = mkView n (v_header (vget r c)) (v_ts (vget r c)) (v_len (vget r c)) (v_ty (vget r c))
        (v_sid (vget r c)) (v_ext (vget r c)) (v_delta (vget r c)) (v_partial (vget r c))) as Hg.
  { intros c. unfold vget. rewrite Hf. destruct (Registry.find c r) as [s|] eqn:Es; simpl.
    - destruct (find_inv c r s id_wf0 Es) as (_&_&_&_&Hs). unfold g. by rewrite (Registry.s_in_use s Hs).
    - unfold Registry.set_all_chunk_size, fresh.
      by rewrite (proj2 (Z.ltb_ge _ _)), (proj2 (Z.ltb_ge _ _)) by lia. }
  constructor; [done|..].
  1, 2: unfold Registry.set_all_chunk_size; by destruct (_ || _).
  - intros c. rewrite Hg. apply id_partial0.
  - intros c. by rewrite Hg.
  - intros c. rewrite Hf. intros [s Hs]. apply id_known0. by destruct (Registry.find c r).
Qed.

Lemma idle_resized U cs d r : bytes_ok d.2 → idle U cs r → idle U (next_size d cs) (resized d r).
Proof.
  intros Hb Hid. unfold next_size, resized. destruct (announced d) as [n|] eqn:E; [|done]. simpl.
  eapply idle_set_all; [done|by eapply announced_bounds].
Qed.

Lemma resized_config d r : max_msg_length (resized d r) = max_msg_length r
  ∧ max_reassembly_bytes (resized d r) = max_reassembly_bytes r
  ∧ max_active_csids (resized d r) = max_active_csids r.
Proof.
  unfold resized. destruct (announced d); [|done]. simpl.
  unfold Registry.set_all_chunk_size. by destruct (_ || _).
Qed.

Lemma bytes_ok_wire ml nb cs ms : DEFAULT_CHUNK_SIZE ≤ cs ≤ MAX_PEER_CHUNK_SIZE →
  Forall (valid ml nb) ms → bytes_ok (wire cs ms).
Proof.
  intros Hcs Hms. revert cs Hcs. induction Hms as [|[m d] ms [] Hms IH]; intros cs Hcs; [constructor|].
  simpl in *. unfold bytes_ok, Writer.message_bytes. rewrite !Forall_app. split_and!.
  - by apply bytes_ok_header.
  - apply bytes_ok_joined; [apply Writer.eff_chunk_size_pos; unfold DEFAULT_CHUNK_SIZE in Hcs; lia
      |by apply bytes_ok_cont|done].
  - apply IH. by apply next_size_bounds.
Qed.

Section sequence.
Context {X : Type} (handle : ReadLoop.delivery → X * ChunkRegistry → Res (X * ChunkRegistry)).
Context (handle_wf : ∀ d g g', Registry.wf g.2 → handle d g = Ok g' → Registry.wf g'.2).

(** The reader delivers the written sequence and is left with nothing. *)
Lemma run_sequence U cs ms x r : idle U cs r → Z.of_nat (stdpp.base.size U) ≤ MAX_CHUNK_STREAMS →
  DEFAULT_CHUNK_SIZE ≤ cs ≤ MAX_PEER_CHUNK_SIZE → 1 ≤ max_active_csids r →
  Forall (valid (max_msg_length r) (max_reassembly_bytes r)) ms →
  Forall (λ x, m_csid x.1 ∈ U) ms → Forall (resizes handle) (delivered_all cs ms) →
  ∃ g, ReadLoop.run handle (x, r) (wire cs ms) = (delivered_all cs ms, ReadLoop.Waiting, (g, [])).
Proof.
  intros Hid HU Hcs Ha Hv Hc. revert cs x r Hid Hcs Ha Hv.
  induction Hc as [|[m d] ms Hx Hms IH]; intros cs x r Hid Hcs Ha Hv Hh.
  { exists (x, r). rewrite ReadLoop.run_eq; [done|done|apply Hid|constructor]. }
  apply Forall_cons in Hv as [Hv Hvs]. simpl in Hh. apply Forall_cons in Hh as [Hh Hhs].
  pose proof Hv as []. simpl in *. set (cs' := next_size (m, d) cs) in *.
  assert (DEFAULT_CHUNK_SIZE ≤ cs' ≤ MAX_PEER_CHUNK_SIZE) as Hcs' by (by apply next_size_bounds).
  unfold Writer.message_bytes. rewrite <- app_assoc.
  pose proof (id_partial _ _ _ Hid (m_csid m)) as Hp.
  pose proof (id_size _ _ _ Hid (m_csid m)) as Hz.
  destruct (run_message handle handle_wf x r (m_csid m) 0 (timestamp m) (msg_length m) (msg_type_id m)
    (msg_stream_id m) d (wire cs' ms)) as (r'&Hst&E); try done.
  { apply Hid. }
  { by rewrite va_len0. }
  { by eapply bytes_ok_wire. }
  { unfold roomy. rewrite Hp, (id_bytes _ _ _ Hid). change (zlen []) with 0. lia. }
  { by eapply room_idle. }
  rewrite Hz in E. rewrite E. unfold delivers.
  change (vmessage _ _ _, d) with (delivered cs (m, d)). destruct (Hh x r') as [x' ->].
  destruct (st_config _ _ _ _ Hst) as (_&E1&E2&E3), (resized_config (delivered cs (m, d)) r') as (F1&F2&F3).
  destruct (IH cs' x' (resized (delivered cs (m, d)) r')) as (g&E4);
    rewrite ?F1, ?F2, ?F3, ?E1, ?E2, ?E3; try done.
  { apply (idle_resized U cs (delivered cs (m, d))); [done|]. by eapply idle_stepped. }
  rewrite E4. by exists g.
Qed.
End sequence.

Lemma write_all_spec ml nb cs ms b b' : DEFAULT_CHUNK_SIZE ≤ cs ≤ MAX_PEER_CHUNK_SIZE →
  Forall (valid ml nb) ms → Buffer.wf b → write_all ms cs b = (Ok tt, b') →
  Buffer.contents b' = Buffer.contents b ++ wire cs ms.
Proof.
  intros Hcs Hv. revert cs Hcs b. induction Hv as [|x ms Hx Hms IH]; intros cs Hcs b Hb E; simpl in E.
  { injection E as ->. by rewrite app_nil_r. }
  apply bind_inv in E as ([]&b1&E1&E2). destruct x as [m d]. destruct Hx. simpl in *.
  assert (0 ≤ cs) as Hcs0 by (unfold DEFAULT_CHUNK_SIZE in Hcs; lia).
  destruct (Writer.chunk_write_spec m d (zlen d) cs b Hb Hcs0 ltac:(zlia)) as (b1'&W1&L1&H).
  assert (Writer.refusal m d (zlen d) = None) as R.
  { unfold Writer.refusal, Writer.csid_ok, RTMP_WIRE_MAX_MSG_LENGTH in *.
    rewrite va_fmt0, va_len0. zcases; ulia || done. }
  rewrite R, (ztake_all (zlen d)) in H by lia. cbv zeta in H.
  destruct (_ <=? _); destruct H as [H C]; rewrite E1 in H; simplify_eq.
  rewrite (IH _ (next_size_bounds (m, d) cs va_bytes0 Hcs) b1' W1 E2), C. by rewrite <- app_assoc.
Qed.

(** A new connection with the given limits, after Set Chunk Size [cs]. *)
Definition connection (ml csids nb cs : Z) : RState :=
  mkR Buffer.new (Registry.set_all_chunk_size cs (Registry.configured ml csids nb))
    ReadLoop.default_msg None 0.

Lemma connection_idle U ml csids nb cs : 0 ≤ csids → 0 ≤ nb ≤ USIZE_MAX →
  DEFAULT_CHUNK_SIZE ≤ cs ≤ MAX_PEER_CHUNK_SIZE → idle U cs (r_reg (connection ml csids nb cs)).
Proof.
  intros Hc Hn Hcs. apply (idle_set_all U DEFAULT_CHUNK_SIZE); [|done].
  constructor; [by apply Registry.wf_configured|done..|]. by intros c [s Hs].
Qed.

Lemma connection_limits ml csids nb cs :
  max_msg_length (r_reg (connection ml csids nb cs)) = ml
  ∧ max_reassembly_bytes (r_reg (connection ml csids nb cs)) = nb
  ∧ max_active_csids (r_reg (connection ml csids nb cs)) = csids.
Proof. unfold connection, Registry.set_all_chunk_size. by destruct (_ || _). Qed.

Lemma connection_ready {X} (x : X) ml csids nb cs : 0 ≤ csids → 0 ≤ nb ≤ USIZE_MAX →
  DEFAULT_CHUNK_SIZE ≤ cs ≤ MAX_PEER_CHUNK_SIZE → ReadLoop.ready (ReadLoop.fresh (connection ml csids nb cs) x).
Proof.
  intros Hc Hn Hcs. constructor; [|done|done].
  constructor; [apply Buffer.wf_new|constructor|]. by apply (connection_idle ∅ ml csids nb cs).
Qed.


(** An extended timestamp on CSID 3, a Set Chunk Size, a message of 130 bytes
    that now is one chunk, and a command on CSID 70. *)
Definition sample_messages : list ReadLoop.delivery :=
  [(mkMsg 3 0 16777216 2 9 1 false, [7; 8]); (mkMsg 2 0 0 4 1 0 false, [0; 0; 0; 200]);
   (mkMsg 3 0 7 130 9 1 false, replicate 130 9); (mkMsg 70 0 5 1 20 0 false, [4])].

Lemma sample_messages_valid : Forall (valid 200 200) sample_messages.
Proof.
  repeat apply Forall_cons_2; [..|done]; split; try done; try (repeat constructor; ulia).
Qed.

Lemma sample_resizes : Forall (resizes ReadLoop.sample_handler) (delivered_all 128 sample_messages).
Proof.
  repeat apply Forall_cons_2; [..|done]; intros x r; eexists; reflexivity.
Qed.


End RoundTrip.
