(* ===== verification/MediaOut.v ===== *)
(** Outbound media with header compression, src/chunk/media_out.rs: the header
    tracker, the choice of the first-chunk format, the two ways to queue a
    message, and the proof that compression is lossless: the receiving loop
    delivers every media message with its absolute timestamp. *)
From S2P Require Import Prelude Bytes Types Buffer Source ChunkState ChunkWriter ChunkReader ChunkView.
From S2P Require Import ReadLoop RoundTrip.

Module MediaOut.
Import Reader View RoundTrip.

(** Chunk stream id, message type id and tracker slot. *)
Definition media_chunk_stream (frame_type : FrameType) : Z * Z * Z :=
  match frame_type with
  | Audio => (4, 8, 0)
  | Script | Metadata => (5, 18, 1)
  | Video => (6, 9, 2)
  end.

Record MediaOutHeader : Type := mkOut {
  o_msg_stream_id : Z;
  o_timestamp : Z;
  o_msg_length : Z;
  o_msg_type_id : Z;
}.

Record MediaFirstHeader : Type := mkFirst {
  h_csid : Z;
  h_fmt : Z;
  h_ts_field : Z;
  h_slot : Z;
  h_current : MediaOutHeader;
}.

(** [MediaHeaderTracker]: the array [last]. *)
Abbreviation tracker := (list (option MediaOutHeader)).
Definition new_tracker : tracker := [None; None; None].

Definition encoded_len (h : MediaFirstHeader) : Z :=
  Writer.first_header_len (h_csid h) (h_fmt h) (h_ts_field h).

Definition write_header (h : MediaFirstHeader) : ST Buffer unit :=
  Writer.write_first_header (h_csid h) (h_fmt h) (h_ts_field h)
    (o_msg_length (h_current h)) (o_msg_type_id (h_current h)) (o_msg_stream_id (h_current h)).

Definition choose (last : tracker) (compact : bool) (frame_type : FrameType)
    (msg_stream_id timestamp payload_len : Z) : Res MediaFirstHeader :=
  if RTMP_WIRE_MAX_MSG_LENGTH <? payload_len then Err Internal else
  let '(csid, msg_type_id, slot) := media_chunk_stream frame_type in
  let current := mkOut msg_stream_id timestamp (as_u32 payload_len) msg_type_id in
  o ← zidx last slot;
  let '(fmt, ts_field) :=
    match o with
    | Some prev =>
        if compact && (o_msg_stream_id prev =? msg_stream_id)
           && (o_timestamp prev <=? timestamp) && (timestamp <? EXTENDED_TIMESTAMP_MARKER)
        then (if (o_msg_length prev =? o_msg_length current)
                 && negb (o_msg_length prev =? 0) && (o_msg_type_id prev =? msg_type_id)
              then 2 else 1, timestamp - o_timestamp prev)
        else (0, timestamp)
    | None => (0, timestamp)
    end in
  Ok (mkFirst csid fmt ts_field slot current).

Definition commit (h : MediaFirstHeader) (last : tracker) : Res tracker :=
  copy_at last (h_slot h) [Some (h_current h)].

Definition encode_media_body (frame_type : FrameType) (timestamp : Z) (payload : bytes)
    (chunk_size : Z) : ST Buffer unit :=
  let '(csid, _, _) := media_chunk_stream frame_type in
  Writer.write_chunk_body csid payload chunk_size (Writer.ext_field timestamp).

Record MediaMessageInfo : Type := mkInfo {
  i_frame_type : FrameType;
  i_msg_stream_id : Z;
  i_timestamp : Z;
}.

(** The output buffer and the tracker, both borrowed mutably. *)
Abbreviation mstate := (Buffer * tracker)%type.
Definition on_out {A} (m : ST Buffer A) : ST mstate A := λ '(b, t),
  let '(r, b) := m b in (r, (b, t)).
Definition do_commit (h : MediaFirstHeader) : ST mstate unit := λ '(b, t),
  match commit h t with
  | Ok t' => (Ok tt, (b, t'))
  | Err e => (Err e, (b, t))
  | Panic => (Panic, (b, t))
  end.

Definition write_media_message (compact : bool) (msg : MediaMessageInfo) (payload : bytes)
    (chunk_size : Z) : ST mstate unit :=
  '(_, t) ← get_st;
  header ← lift (choose t compact (i_frame_type msg) (i_msg_stream_id msg) (i_timestamp msg)
                   (zlen payload));
  let '(csid, _, _) := media_chunk_stream (i_frame_type msg) in
  let ext := EXTENDED_TIMESTAMP_MARKER <=? i_timestamp msg in
  on_out (Buffer.reserve (encoded_len header
    + Writer.chunk_body_len csid (zlen payload) chunk_size ext));;
  on_out (write_header header);;
  on_out (encode_media_body (i_frame_type msg) (i_timestamp msg) payload chunk_size);;
  do_commit header.

Definition write_media_message_with_body (compact : bool) (msg : MediaMessageInfo)
    (payload_len : Z) (body : bytes) : ST mstate unit :=
  '(_, t) ← get_st;
  header ← lift (choose t compact (i_frame_type msg) (i_msg_stream_id msg) (i_timestamp msg)
                   payload_len);
  on_out (Buffer.reserve (encoded_len header + zlen body));;
  on_out (write_header header);;
  on_out (Buffer.write body);;
  do_commit header.

(** * What is queued *)

Definition csid_of (ft : FrameType) : Z := (media_chunk_stream ft).1.1.
Definition type_of (ft : FrameType) : Z := (media_chunk_stream ft).1.2.
Definition slot_of (ft : FrameType) : Z := (media_chunk_stream ft).2.

Lemma csid_of_ok ft : Writer.csid_ok (csid_of ft).
Proof. by destruct ft. Qed.
Lemma type_of_u8 ft : is_u8 (type_of ft).
Proof. by destruct ft. Qed.
Lemma slot_of_bounds ft : 0 ≤ slot_of ft < 3.
Proof. by destruct ft. Qed.

(** A media message the wire format can carry. *)
Record sendable (i : MediaMessageInfo) (payload : bytes) : Prop := {
  se_sid : is_u32 (i_msg_stream_id i);
  se_ts : is_u32 (i_timestamp i);
  se_len : is_u24 (zlen payload);
  se_bytes : bytes_ok payload;
}.

Definition out_header (i : MediaMessageInfo) (payload : bytes) : MediaOutHeader :=
  mkOut (i_msg_stream_id i) (i_timestamp i) (zlen payload) (type_of (i_frame_type i)).

(** Timestamps in a tracker are [u32] values. *)
Definition tracker_ok (t : tracker) : Prop :=
  zlen t = 3 ∧ ∀ k h, zget t k = Some (Some h) → is_u32 (o_timestamp h).

Lemma new_tracker_empty k h : zget new_tracker k ≠ Some (Some h).
Proof.
  intros E. pose proof (zget_Some_lt _ _ _ E) as Hk. change (zlen new_tracker) with 3 in Hk.
  assert (k = 0 ∨ k = 1 ∨ k = 2) as [->|[->| ->]] by lia; done.
Qed.

Lemma new_tracker_ok : tracker_ok new_tracker.
Proof. split; [done|]. intros k h E. by destruct (new_tracker_empty k h). Qed.

Lemma choose_ok t compact i payload : tracker_ok t → sendable i payload →
  let ft := i_frame_type i in
  ∃ h prev, choose t compact ft (i_msg_stream_id i) (i_timestamp i) (zlen payload) = Ok h
    ∧ h_csid h = csid_of ft ∧ h_slot h = slot_of ft ∧ h_current h = out_header i payload
    ∧ zget t (slot_of ft) = Some prev
    ∧ (h_fmt h = 0 ∧ h_ts_field h = i_timestamp i
       ∨ ∃ p, prev = Some p ∧ (h_fmt h = 1 ∨ h_fmt h = 2 ∧ o_msg_length p = zlen payload
                 ∧ o_msg_type_id p = type_of ft)
           ∧ o_msg_stream_id p = i_msg_stream_id i
           ∧ h_ts_field h = i_timestamp i - o_timestamp p
           ∧ 0 ≤ o_timestamp p ≤ i_timestamp i
           ∧ i_timestamp i < EXTENDED_TIMESTAMP_MARKER).
Proof.
  intros [Ht Hts] []. unfold choose, csid_of, slot_of, out_header, type_of.
  destruct (Z.ltb_spec RTMP_WIRE_MAX_MSG_LENGTH (zlen payload)).
  { unfold RTMP_WIRE_MAX_MSG_LENGTH in *. ulia. }
  pose proof (slot_of_bounds (i_frame_type i)) as Hsl. unfold slot_of in Hsl.
  destruct (media_chunk_stream (i_frame_type i)) as [[c ty] slot]. simpl in *.
  destruct (zget_lt_Some t slot ltac:(lia)) as [prev Hp]. rewrite (zidx_ok _ _ _ Hp).
  cbn [mbind Res_bind]. rewrite as_u32_id by ulia. destruct prev as [p|].
  - pose proof (Hts slot p Hp). destruct compact; simpl.
    2: { do 2 eexists. split_and!; try done. by left. }
    destruct (Z.eqb_spec (o_msg_stream_id p) (i_msg_stream_id i)),
      (Z.leb_spec (o_timestamp p) (i_timestamp i)),
      (Z.ltb_spec (i_timestamp i) EXTENDED_TIMESTAMP_MARKER); simpl;
      do 2 eexists; split_and!; try done; try (by left).
    right. exists p. split_and!; try done; [|ulia].
    destruct (Z.eqb_spec (o_msg_length p) (zlen payload)), (Z.eqb_spec (o_msg_length p) 0),
      (Z.eqb_spec (o_msg_type_id p) ty); simpl; (by left) || by right.
  - do 2 eexists. split_and!; try done. by left.
Qed.

(** The wire image of a media message behind header [h]. *)
Definition media_bytes (h : MediaFirstHeader) (i : MediaMessageInfo) (payload : bytes) (cs : Z)
    : bytes :=
  Writer.header_bytes (h_csid h) (h_fmt h) (h_ts_field h) (o_msg_length (h_current h))
    (o_msg_type_id (h_current h)) (o_msg_stream_id (h_current h))
  ++ Writer.body_bytes (csid_of (i_frame_type i)) payload cs (Writer.ext_field (i_timestamp i)).

Lemma commit_ok h t : tracker_ok t → 0 ≤ h_slot h < 3 → is_u32 (o_timestamp (h_current h)) →
  ∃ t', commit h t = Ok t' ∧ tracker_ok t'
    ∧ ∀ k, zget t' k = if k =? h_slot h then Some (Some (h_current h)) else zget t k.
Proof.
  intros [Ht Hts] Hs Hu. unfold commit.
  rewrite copy_at_ok by (change (zlen [_]) with 1; lia). change (zlen [_]) with 1.
  eexists. split; [done|].
  assert (∀ k, zget (ztake (h_slot h) t ++ [Some (h_current h)] ++ zdrop (h_slot h + 1) t) k
    = if k =? h_slot h then Some (Some (h_current h)) else zget t k) as Hg.
  { intros k. assert (zlen (ztake (h_slot h) t) = h_slot h) as Hz by zlia.
    destruct (Z.eqb_spec k (h_slot h)) as [->|Hne].
    - rewrite zget_app_r, Hz, Z.sub_diag by lia. done.
    - destruct (decide (k < h_slot h)).
      + rewrite zget_app_l, zget_ztake by lia. done.
      + rewrite zget_app_r, Hz by lia. rewrite (zget_app_r [_]) by (change (zlen [_]) with 1; lia).
        change (zlen [_]) with 1. rewrite zget_zdrop by lia. f_equal. lia. }
  split; [|done]. split; [zlia|]. intros k x. rewrite Hg.
  destruct (k =? h_slot h); [by intros [= <-]|apply Hts].
Qed.

(** Reserve, header, body, commit: the shared tail of both writers. *)
Lemma queue_spec {A} (m : ST Buffer A) n h t t' d1 d2 b :
  n = zlen d1 + zlen d2 → emits (write_header h) d1 →
  (∀ b, Buffer.wf b → zlen (Buffer.contents b) + zlen d2 ≤ Buffer.limit b →
     ∃ a b', m b = (Ok a, b') ∧ Buffer.wf b' ∧ Buffer.contents b' = Buffer.contents b ++ d2
       ∧ Buffer.limit b' = Buffer.limit b) →
  commit h t = Ok t' → Buffer.wf b →
  ∃ b', Buffer.wf b' ∧ Buffer.limit b' = Buffer.limit b ∧
    (on_out (Buffer.reserve n);; on_out (write_header h);; on_out m;; do_commit h) (b, t)
    = (if zlen (Buffer.contents b) + zlen (d1 ++ d2) <=? Buffer.limit b
       then (Ok tt, (b', t')) else (Err Internal, (b', t)))
    ∧ Buffer.contents b'
      = Buffer.contents b ++ (if zlen (Buffer.contents b) + zlen (d1 ++ d2) <=? Buffer.limit b
                              then d1 ++ d2 else []).
Proof.
  intros -> H1 H2 Hc Hb. rewrite zlen_app.
  pose proof (zlen_nonneg d1). pose proof (zlen_nonneg d2).
  destruct (Buffer.make_room_spec (zlen d1 + zlen d2) b Hb ltac:(lia)) as (b0&(W0&C0&_&L0)&HR).
  rewrite Buffer.available_contents in HR by done.
  destruct (Z.leb_spec (zlen (Buffer.contents b) + (zlen d1 + zlen d2)) (Buffer.limit b)).
  - destruct HR as [E0 _].
    destruct (H1 b0 W0) as (b1&E1&W1&C1&_&L1); [rewrite C0, L0; lia|].
    destruct (H2 b1 W1) as (a&b2&E2&W2&C2&L2); [rewrite C1, C0, L1, L0, zlen_app; lia|].
    exists b2. split_and!; [done|congruence| |by rewrite C2, C1, C0, app_assoc].
    etrans; [apply (bind_ok _ _ _ tt (b0, t)); unfold on_out, Buffer.reserve; by rewrite E0|].
    etrans; [apply (bind_ok _ _ _ tt (b1, t)); unfold on_out; by rewrite E1|].
    etrans; [apply (bind_ok _ _ _ a (b2, t)); unfold on_out; by rewrite E2|].
    unfold do_commit. by rewrite Hc.
  - exists b0. split_and!; [done..| |by rewrite app_nil_r].
    apply bind_err. unfold on_out, Buffer.reserve. by rewrite HR.
Qed.

Lemma media_header_emits h : Writer.csid_ok (h_csid h) → 0 ≤ h_fmt h ≤ 2 →
  emits (write_header h) (Writer.header_bytes (h_csid h) (h_fmt h) (h_ts_field h)
    (o_msg_length (h_current h)) (o_msg_type_id (h_current h)) (o_msg_stream_id (h_current h))).
Proof. intros. by apply Writer.emits_first_header. Qed.

(** Both writers, run on a header the tracker chose. *)
Lemma write_media_spec t compact i payload cs b : tracker_ok t → sendable i payload →
  0 ≤ cs → Buffer.wf b →
  ∃ h t' b', choose t compact (i_frame_type i) (i_msg_stream_id i) (i_timestamp i) (zlen payload)
             = Ok h
    ∧ commit h t = Ok t' ∧ tracker_ok t' ∧ Buffer.wf b' ∧ Buffer.limit b' = Buffer.limit b
    ∧ let d := media_bytes h i payload cs in
      let fits := zlen (Buffer.contents b) + zlen d <=? Buffer.limit b in
      write_media_message compact i payload cs (b, t)
      = (if fits then (Ok tt, (b', t')) else (Err Internal, (b', t)))
      ∧ Buffer.contents b' = Buffer.contents b ++ (if fits then d else []).
Proof.
  intros Ht Hs Hcs Hb.
  destruct (choose_ok t compact i payload Ht Hs) as (h&prev&Ec&Ecs&Esl&Ecur&_&Hf).
  assert (0 ≤ h_fmt h ≤ 2) as Hfm by (destruct Hf as [[-> _]|(?&_&[->|[-> _]]&_)]; lia).
  pose proof (csid_of_ok (i_frame_type i)) as Hc. pose proof (slot_of_bounds (i_frame_type i)).
  destruct (commit_ok h t Ht) as (t'&Et&Ht'&_); [lia|rewrite Ecur; apply Hs|].
  set (d1 := Writer.header_bytes (h_csid h) (h_fmt h) (h_ts_field h)
    (o_msg_length (h_current h)) (o_msg_type_id (h_current h)) (o_msg_stream_id (h_current h))).
  set (d2 := Writer.body_bytes (csid_of (i_frame_type i)) payload cs
    (Writer.ext_field (i_timestamp i))).
  destruct (queue_spec (encode_media_body (i_frame_type i) (i_timestamp i) payload cs)
    (zlen d1 + zlen d2) h t t' d1 d2 b eq_refl) as (b'&W&L&E&C); try done.
  { apply media_header_emits; [by rewrite Ecs|done]. }
  { intros b0 W0 F0. destruct (Writer.emits_chunk_body (csid_of (i_frame_type i)) payload cs
      (Writer.ext_field (i_timestamp i)) Hc Hcs b0 W0 F0) as (b1&E1&?&?&_&?).
    exists tt, b1. split_and!; try done. unfold encode_media_body. by destruct (i_frame_type i). }
  exists h, t', b'. split_and!; try done. cbv zeta. unfold media_bytes. fold d1 d2.
  split; [|done]. rewrite <- E. unfold write_media_message.
  etrans; [by apply bind_ok|]. cbv beta.
  etrans; [apply bind_ok; unfold lift; by rewrite Ec|]. cbv beta.
  replace (zlen d1 + zlen d2) with (encoded_len h + Writer.chunk_body_len
    (csid_of (i_frame_type i)) (zlen payload) cs (EXTENDED_TIMESTAMP_MARKER <=? i_timestamp i)).
  - unfold csid_of. by destruct (media_chunk_stream (i_frame_type i)) as [[? ?] ?].
  - unfold d1, d2. rewrite Writer.zlen_header_bytes by (rewrite ?Ecs; done).
    rewrite Writer.zlen_body_bytes by done. unfold encoded_len, Writer.ext_field.
    by destruct (EXTENDED_TIMESTAMP_MARKER <=? i_timestamp i).
Qed.

Lemma write_with_body_spec t compact i payload body b : tracker_ok t → sendable i payload →
  Buffer.wf b →
  ∀ h t', choose t compact (i_frame_type i) (i_msg_stream_id i) (i_timestamp i) (zlen payload)
          = Ok h → commit h t = Ok t' →
  ∃ b', Buffer.wf b' ∧ Buffer.limit b' = Buffer.limit b
    ∧ let d := Writer.header_bytes (h_csid h) (h_fmt h) (h_ts_field h)
        (o_msg_length (h_current h)) (o_msg_type_id (h_current h))
        (o_msg_stream_id (h_current h)) ++ body in
      let fits := zlen (Buffer.contents b) + zlen d <=? Buffer.limit b in
      write_media_message_with_body compact i (zlen payload) body (b, t)
      = (if fits then (Ok tt, (b', t')) else (Err Internal, (b', t)))
      ∧ Buffer.contents b' = Buffer.contents b ++ (if fits then d else []).
Proof.
  intros Ht Hs Hb h t' Ec Et.
  destruct (choose_ok t compact i payload Ht Hs) as (h0&prev&Ec0&Ecs&Esl&Ecur&_&Hf).
  rewrite Ec in Ec0. simplify_eq.
  assert (0 ≤ h_fmt h0 ≤ 2) as Hfm by (destruct Hf as [[-> _]|(?&_&[->|[-> _]]&_)]; lia).
  pose proof (csid_of_ok (i_frame_type i)) as Hc.
  set (d1 := Writer.header_bytes (h_csid h0) (h_fmt h0) (h_ts_field h0)
    (o_msg_length (h_current h0)) (o_msg_type_id (h_current h0)) (o_msg_stream_id (h_current h0))).
  destruct (queue_spec (Buffer.write body) (zlen d1 + zlen body) h0 t t' d1 body b eq_refl)
    as (b'&W&L&E&C); try done.
  { apply media_header_emits; [by rewrite Ecs|done]. }
  { intros b0 W0 F0. destruct (Buffer.write_spec body b0 W0) as (b1&?&_&?&H).
    rewrite (proj2 (Z.leb_le _ _) F0), orb_true_r in H. destruct H. by exists (zlen body), b1. }
  exists b'. split_and!; try done. cbv zeta. fold d1. split; [|done]. rewrite <- E.
  unfold write_media_message_with_body. etrans; [by apply bind_ok|]. cbv beta.
  etrans; [apply bind_ok; unfold lift; by rewrite Ec|]. cbv beta.
  unfold encoded_len, d1. by rewrite Writer.zlen_header_bytes by (rewrite ?Ecs; done).
Qed.

(** C12. The relay fast path is equivalent to the direct one: queueing a media
    message behind a body encoded once by [encode_media_body] gives the same
    result, the same tracker and the same bytes as [write_media_message],
    whether or not the message fits the buffer. *)
Theorem shared_body_equivalent t compact i payload cs b0 b1 b :
  tracker_ok t → sendable i payload → 0 ≤ cs → Buffer.wf b → Buffer.wf b0 →
  Buffer.contents b0 = [] →
  encode_media_body (i_frame_type i) (i_timestamp i) payload cs b0 = (Ok tt, b1) →
  ∃ res t' c c', write_media_message compact i payload cs (b, t) = (res, (c, t'))
    ∧ write_media_message_with_body compact i (zlen payload) (Buffer.contents b1) (b, t)
      = (res, (c', t'))
    ∧ Buffer.contents c = Buffer.contents c' ∧ Buffer.wf c ∧ Buffer.wf c'.
Proof.
  intros Ht Hs Hcs Hb Hb0 Hemp Henc.
  destruct (write_media_spec t compact i payload cs b Ht Hs Hcs Hb)
    as (h&t'&c&Ec&Et&_&Wc&_&E1&C1).
  destruct (write_with_body_spec t compact i payload (Buffer.contents b1) b Ht Hs Hb h t' Ec Et)
    as (c'&Wc'&_&E2&C2).
  assert (Buffer.contents b1 = Writer.body_bytes (csid_of (i_frame_type i)) payload cs
    (Writer.ext_field (i_timestamp i))) as E.
  { assert (encode_media_body (i_frame_type i) (i_timestamp i) payload cs
      = Writer.write_chunk_body (csid_of (i_frame_type i)) payload cs
          (Writer.ext_field (i_timestamp i))) as Eb by (by destruct (i_frame_type i)).
    rewrite Eb in Henc. pose proof (Writer.write_chunk_body_ok _ _ _ _ b0 b1
      (csid_of_ok (i_frame_type i)) Hcs Hb0 Henc) as C. by rewrite Hemp in C. }
  rewrite E in E2, C2. cbv zeta in *. fold (media_bytes h i payload cs) in E2, C2.
  rewrite E. set (fits := _ <=? Buffer.limit b) in *. clearbody fits.
  destruct fits; [exists (Ok tt), t', c, c'|exists (Err Internal), t, c, c'];
    (split_and!; [exact E1|exact E2|by rewrite C1, C2|exact Wc|exact Wc']).
Qed.

(** * Compression is lossless *)

(** The receiver's view of each media chunk stream matches the tracker. *)
Definition matches (h : MediaOutHeader) (v : view) : Prop :=
  v_header v = true ∧ v_ts v = o_timestamp h ∧ v_len v = o_msg_length h
  ∧ v_ty v = o_msg_type_id h ∧ v_sid v = o_msg_stream_id h.

Definition synced (t : tracker) (r : ChunkRegistry) : Prop :=
  ∀ ft h, zget t (slot_of ft) = Some (Some h) → matches h (vget r (csid_of ft)).

(** The chosen header, decoded in a synchronised receiver, restores the full
    header of the message. *)
Lemma chosen_header_decodes t compact i payload r h : tracker_ok t → sendable i payload →
  synced t r →
  choose t compact (i_frame_type i) (i_msg_stream_id i) (i_timestamp i) (zlen payload) = Ok h →
  let v := vget r (csid_of (i_frame_type i)) in
  let w := first_view (h_fmt h) (h_ts_field h) (zlen payload) (type_of (i_frame_type i))
             (i_msg_stream_id i) v in
  matches (out_header i payload) w
  ∧ 0 ≤ h_fmt h ≤ 2 ∧ is_u32 (h_ts_field h) ∧ v_size w = v_size v
  ∧ (h_fmt h = 2 → v_header v = true)
  ∧ Writer.ext_field (h_ts_field h) = Writer.ext_field (i_timestamp i).
Proof.
  intros Ht Hs Hsy Ec.
  destruct (choose_ok t compact i payload Ht Hs) as (h0&prev&Ec0&_&_&_&Hp&Hf).
  rewrite Ec in Ec0. simplify_eq. cbv zeta. set (v := vget r _).
  unfold matches, out_header, first_view, vheader, wire_fields, Writer.ext_field. simpl.
  pose proof (se_ts _ _ Hs) as Hts.
  destruct Hf as [[-> ->]|(p&->&Hf&Hsid&->&Hle&Hmk)].
  - simpl. split_and!; try done; lia.
  - destruct (Hsy _ _ Hp) as (V1&V2&V3&V4&V5). fold v in V1, V2, V3, V4, V5.
    rewrite (proj2 (Z.leb_gt EXTENDED_TIMESTAMP_MARKER (i_timestamp i))) by lia.
    rewrite (proj2 (Z.leb_gt EXTENDED_TIMESTAMP_MARKER (i_timestamp i - o_timestamp p))) by lia.
    assert (wrapping_add32 (v_ts v) (i_timestamp i - o_timestamp p) = i_timestamp i) as Ew.
    { unfold wrapping_add32. rewrite V2, as_u32_id; ulia. }
    assert (is_u32 (i_timestamp i - o_timestamp p)) by ulia.
    destruct Hf as [->|[-> [Hl Hty]]]; simpl; rewrite Ew; split_and!; try done; try congruence;
      lia.
Qed.

(** Media messages queued in order. *)
Abbreviation item := (bool * MediaMessageInfo * bytes)%type.

Fixpoint write_media_all (xs : list item) (cs : Z) : ST mstate unit :=
  match xs with
  | [] => mret tt
  | (compact, i, payload) :: xs =>
      write_media_message compact i payload cs;; write_media_all xs cs
  end.

(** The message a receiver should see, up to the fmt of its last chunk. *)
Definition expected (x : item) : ReadLoop.delivery :=
  let '(_, i, payload) := x in
  (mkMsg (csid_of (i_frame_type i)) 0 (i_timestamp i) (zlen payload)
     (type_of (i_frame_type i)) (i_msg_stream_id i) true, payload).

Definition without_fmt (d : ReadLoop.delivery) : ReadLoop.delivery :=
  let '(m, p) := d in
  (mkMsg (m_csid m) 0 (timestamp m) (msg_length m) (msg_type_id m) (msg_stream_id m)
     (is_complete m), p).

Record admissible (ml nb : Z) (x : item) : Prop := {
  ad_send : sendable x.1.2 x.2;
  ad_max : zlen x.2 ≤ ml;
  ad_budget : zlen x.2 ≤ nb;
}.

Definition media_csids : gset Z := {[4; 5; 6]}.

Lemma csid_of_media ft : csid_of ft ∈ media_csids.
Proof. unfold media_csids. destruct ft; set_solver. Qed.

(** A handler that takes the media messages and, as [handle_message] does on
    them, leaves the chunk registry alone. *)
Definition takes_media {X} (handle : ReadLoop.delivery → X * ChunkRegistry → Res (X * ChunkRegistry)) : Prop :=
  ∀ d x r, (∃ ft, msg_type_id d.1 = type_of ft) → ∃ x', handle d (x, r) = Ok (x', r).

Section receiver.
Context {X : Type} (handle : ReadLoop.delivery → X * ChunkRegistry → Res (X * ChunkRegistry)).
Context (handle_wf : ∀ d g g', Registry.wf g.2 → handle d g = Ok g' → Registry.wf g'.2).
Context (handle_media : takes_media handle).

(** One queued message, read by an idle synchronised receiver. *)
Lemma media_step t t' compact i payload cs x r rest h : tracker_ok t → synced t r →
  idle media_csids cs r → 1 ≤ max_active_csids r →
  admissible (max_msg_length r) (max_reassembly_bytes r) (compact, i, payload) →
  bytes_ok rest →
  choose t compact (i_frame_type i) (i_msg_stream_id i) (i_timestamp i) (zlen payload) = Ok h →
  commit h t = Ok t' →
  ∃ r' d, ReadLoop.run handle (x, r) (media_bytes h i payload cs ++ rest) = delivers handle x d r' rest
    ∧ without_fmt d = expected (compact, i, payload)
    ∧ idle media_csids cs r' ∧ synced t' r' ∧ same_config r r'.
Proof.
  intros Ht Hsy Hid Ha [Hs Hm Hn] Hrest Ec Et. simpl in *.
  destruct (choose_ok t compact i payload Ht Hs) as (h0&prev&Ec0&Ecs&Esl&Ecur&_&_).
  rewrite Ec in Ec0. simplify_eq.
  destruct (chosen_header_decodes t compact i payload r h0 Ht Hs Hsy Ec)
    as (Hmt&Hf&Hu&Hz&Hk&Hext).
  set (c := csid_of (i_frame_type i)) in *.
  pose proof (id_partial _ _ _ Hid c) as Hp. pose proof (id_size _ _ _ Hid c) as Hsz.
  pose proof (type_of_u8 (i_frame_type i)).
  destruct Hs.
  destruct (run_message handle handle_wf x r c (h_fmt h0) (h_ts_field h0) (zlen payload)
    (type_of (i_frame_type i)) (i_msg_stream_id i) payload rest) as (r'&Hst&E); try done.
  { apply Hid. }
  { apply csid_of_ok. }
  { apply Hmt. }
  { intros H2. by split; [apply Hk|]. }
  { unfold roomy. rewrite Hp, (id_bytes _ _ _ Hid). change (zlen []) with 0. lia. }
  { eapply room_idle; try done. apply csid_of_media. }
  rewrite Hsz, Hext in E. eexists r', _. split_and!.
  - etrans; [|exact E]. unfold media_bytes. rewrite Ecs, Ecur. by rewrite <- app_assoc.
  - destruct Hmt as (_&Et1&El1&Ey1&Es1). unfold without_fmt, vmessage. simpl in *.
    by rewrite Et1, El1, Ey1, Es1.
  - eapply idle_stepped; [done|exact Hst|by rewrite Hz|apply csid_of_media].
  - destruct (commit_ok h0 t Ht) as (t2&Et2&_&Hg); [rewrite Esl; apply slot_of_bounds
      |by rewrite Ecur|]. rewrite Et in Et2. simplify_eq.
    intros ft hd. rewrite Hg, Esl, Ecur. destruct (Z.eqb_spec (slot_of ft) (slot_of (i_frame_type i))).
    + intros [= <-]. assert (csid_of ft = csid_of (i_frame_type i)) as ->
        by (by destruct ft, (i_frame_type i)).
      rewrite (st_view _ _ _ _ Hst). exact Hmt.
    + intros Hx. rewrite (st_other _ _ _ _ Hst); [by apply Hsy|].
      by destruct ft, (i_frame_type i).
  - apply Hst.
Qed.

Lemma bytes_ok_media h i payload cs : Writer.csid_ok (h_csid h) → 0 ≤ h_fmt h ≤ 2 → 0 ≤ cs →
  is_u8 (o_msg_type_id (h_current h)) → bytes_ok payload → bytes_ok (media_bytes h i payload cs).
Proof.
  intros Hc Hf Hcs Ht Hp. apply Forall_app. split; [by apply bytes_ok_header|].
  apply bytes_ok_joined; [by apply Writer.eff_chunk_size_pos|apply bytes_ok_cont, csid_of_ok|done].
Qed.

(** The bytes a run of the tracker produces. *)
Fixpoint media_wire (t : tracker) (xs : list item) (cs : Z) : bytes :=
  match xs with
  | [] => []
  | (compact, i, payload) :: xs =>
      match choose t compact (i_frame_type i) (i_msg_stream_id i) (i_timestamp i)
              (zlen payload) with
      | Ok h => media_bytes h i payload cs
                ++ media_wire (match commit h t with Ok t' => t' | _ => t end) xs cs
      | _ => []
      end
  end.

Lemma write_media_all_spec ml nb xs cs : 0 ≤ cs → Forall (admissible ml nb) xs →
  ∀ t b b' t', tracker_ok t → Buffer.wf b →
  write_media_all xs cs (b, t) = (Ok tt, (b', t')) →
  Buffer.contents b' = Buffer.contents b ++ media_wire t xs cs
  ∧ (xs = [] ∨ zlen (Buffer.contents b') ≤ Buffer.limit b).
Proof.
  intros Hcs Hadm. induction Hadm as [|[[compact i] payload] xs Hx Hxs IH];
    intros t b b' t' Ht Hb E; simpl in E.
  { injection E as -> ->. simpl. rewrite app_nil_r. split; [done|by left]. }
  destruct Hx as [Hs _ _]. simpl in Hs. apply bind_inv in E as ([]&[b1 t1]&E1&E2).
  destruct (write_media_spec t compact i payload cs b Ht Hs Hcs Hb)
    as (h&t2&b2&Ec&Et&Ht2&Wb2&Lb2&Ew&Cw).
  cbv zeta in Ew, Cw. rewrite E1 in Ew. simpl. rewrite Ec, Et.
  set (w1 := media_bytes h i payload cs) in *.
  destruct (Z.leb_spec (zlen (Buffer.contents b) + zlen w1) (Buffer.limit b)) as [Hle|]; [|done].
  injection Ew as -> ->. destruct (IH t2 b2 b' t' Ht2 Wb2 E2) as (C2&F2).
  rewrite C2, Cw, <- app_assoc. split; [done|]. right. rewrite C2, Cw in F2.
  destruct F2 as [->|F2]; [simpl; zlia|]. by rewrite app_assoc, <- Lb2.
Qed.

Lemma bytes_ok_media_wire ml nb xs cs t : 0 ≤ cs → Forall (admissible ml nb) xs →
  tracker_ok t → bytes_ok (media_wire t xs cs).
Proof.
  intros Hcs Hadm. revert t. induction Hadm as [|[[compact i] payload] xs Hx Hxs IH]; intros t Ht.
  { constructor. }
  destruct Hx as [Hs _ _]. simpl in *.
  destruct (choose_ok t compact i payload Ht Hs) as (h&prev&Ec&Ecs&Esl&Ecur&_&Hf). rewrite Ec.
  destruct (commit_ok h t Ht) as (t'&Et&Ht'&_);
    [rewrite Esl; apply slot_of_bounds|rewrite Ecur; apply Hs|]. rewrite Et.
  apply Forall_app. split; [|by apply IH]. apply bytes_ok_media; try done.
  - rewrite Ecs. apply csid_of_ok.
  - destruct Hf as [[-> _]|(?&_&[->|[-> _]]&_)]; lia.
  - rewrite Ecur. apply type_of_u8.
  - apply Hs.
Qed.

(** A synchronised receiver reads the tracker's output back. *)
Lemma media_run xs cs : 0 ≤ cs → ∀ t x r, tracker_ok t → synced t r →
  idle media_csids cs r → 1 ≤ max_active_csids r →
  Forall (admissible (max_msg_length r) (max_reassembly_bytes r)) xs →
  ∃ g ds, ReadLoop.run handle (x, r) (media_wire t xs cs) = (ds, ReadLoop.Waiting, (g, []))
    ∧ without_fmt <$> ds = expected <$> xs.
Proof.
  intros Hcs. induction xs as [|[[compact i] payload] xs IH]; intros t x r Ht Hsy Hid Ha Hadm.
  { exists (x, r), []. split; [|done].
    rewrite ReadLoop.run_eq; [done|done|apply Hid|constructor]. }
  apply Forall_cons in Hadm as [Hx Hxs]. pose proof Hx as [Hs _ _]. simpl in Hs |- *.
  destruct (choose_ok t compact i payload Ht Hs) as (h&prev&Ec&Ecs&Esl&Ecur&_&_). rewrite Ec.
  destruct (commit_ok h t Ht) as (t'&Et&Ht'&_);
    [rewrite Esl; apply slot_of_bounds|rewrite Ecur; apply Hs|]. rewrite Et.
  destruct (media_step t t' compact i payload cs x r (media_wire t' xs cs) h)
    as (r'&d&E&Hd&Hid'&Hsy'&(_&C1&C2&C3)); try done.
  { by eapply bytes_ok_media_wire. }
  destruct (handle_media d x r') as [x' Hx'].
  { exists (i_frame_type i). destruct d as [m p]. unfold without_fmt, expected in Hd. by injection Hd. }
  destruct (IH t' x' r') as (g&ds&E2&Hds); rewrite ?C1, ?C2, ?C3; try done.
  exists g, (d :: ds). split; [|rewrite !fmap_cons; by rewrite Hd, Hds].
  rewrite E. unfold delivers. by rewrite Hx', E2.
Qed.
End receiver.


(** Two audio frames, the second compressible, and a late video frame. *)
Definition sample_items : list item :=
  [(true, mkInfo Audio 1 100, [1; 2]); (true, mkInfo Audio 1 123, [3; 4]);
   (true, mkInfo Video 1 16777300, [9])].

Lemma sample_items_admissible : Forall (admissible 100 100) sample_items.
Proof.
  repeat constructor; simpl; try change (zlen _) with 2; try change (zlen _) with 1; ulia.
Qed.

Lemma sample_takes_media : takes_media ReadLoop.sample_handler.
Proof.
  intros d x r [ft E]. unfold ReadLoop.sample_handler. rewrite E.
  destruct ft; eexists; reflexivity.
Qed.


Lemma shared_body_equivalent_witness :
  ∃ res t' c c', write_media_message true (mkInfo Audio 1 100) [1; 2] 128
      (Buffer.from_slice [], new_tracker) = (res, (c, t'))
    ∧ write_media_message_with_body true (mkInfo Audio 1 100) 2 [1; 2]
        (Buffer.from_slice [], new_tracker) = (res, (c', t'))
    ∧ Buffer.contents c = Buffer.contents c' ∧ Buffer.wf c ∧ Buffer.wf c'.
Proof.
  apply (shared_body_equivalent new_tracker true (mkInfo Audio 1 100) [1; 2] 128
    (Buffer.from_slice []) (encode_media_body Audio 100 [1; 2] 128 (Buffer.from_slice [])).2
    (Buffer.from_slice []));
    [|repeat constructor; try change (zlen _) with 2; simpl; ulia|lia
     |apply Buffer.wf_from_slice|apply Buffer.wf_from_slice|done|vm_compute; reflexivity].
  split; [done|]. intros k h E. pose proof (zget_Some_lt _ _ _ E) as Hk.
  change (zlen new_tracker) with 3 in Hk.
  assert (k = 0 ∨ k = 1 ∨ k = 2) as [->|[->| ->]] by lia; done.
Defined.

End MediaOut.
