(* ===== verification/Amf0.v ===== *)
(** AMF0 encoding and decoding, src/amf/amf0.rs.  A number is the [u64] bit
    pattern of its [f64], a string the list of its UTF-8 bytes.  Decoders are
    written over [Source] (file Source.v). *)
From S2P Require Import Prelude Bytes Buffer Source.

Inductive Amf0Type : Type :=
  | Number | Boolean | String | Object | Movieclip | Null | Undefined | Reference
  | EcmaArray | ObjectEnd | StrictArray | Date | LongString | UnsupportedType | Recordset
  | XmlDoc | TypedObject | Avmplus.

#[global] Instance Amf0Type_eq_dec : EqDecision Amf0Type.
Proof. solve_decision. Defined.

(** [String::from_utf8]: the well-formed byte sequences of the Unicode standard. *)
Definition is_cont (b : Z) : bool := (128 <=? b) && (b <=? 191).

Fixpoint utf8_valid (l : bytes) : bool :=
  match l with
  | [] => true
  | b0 :: l0 =>
      if b0 <? 128 then utf8_valid l0 else
      match l0 with
      | [] => false
      | b1 :: l1 =>
          if (194 <=? b0) && (b0 <=? 223) then is_cont b1 && utf8_valid l1 else
          match l1 with
          | [] => false
          | b2 :: l2 =>
              if (224 <=? b0) && (b0 <=? 239) then
                ((if b0 =? 224 then 160 else 128) <=? b1)
                && (b1 <=? (if b0 =? 237 then 159 else 191)) && is_cont b2 && utf8_valid l2
              else
              match l2 with
              | [] => false
              | b3 :: l3 =>
                  (240 <=? b0) && (b0 <=? 244)
                  && ((if b0 =? 240 then 144 else 128) <=? b1)
                  && (b1 <=? (if b0 =? 244 then 143 else 191)) && is_cont b2 && is_cont b3
                  && utf8_valid l3
              end
          end
      end
  end.

Module Amf0.

(** [ty as u8]. *)
Definition marker (ty : Amf0Type) : Z :=
  match ty with
  | Number => 0 | Boolean => 1 | String => 2 | Object => 3 | Movieclip => 4 | Null => 5
  | Undefined => 6 | Reference => 7 | EcmaArray => 8 | ObjectEnd => 9 | StrictArray => 10
  | Date => 11 | LongString => 12 | UnsupportedType => 13 | Recordset => 14 | XmlDoc => 15
  | TypedObject => 16 | Avmplus => 17
  end.

(** * Encoder *)

Definition write_number (bits : Z) : ST Buffer unit :=
  put [marker Number];;
  put ((λ i, as_u8 (bits >> ((7 - i) * 8))) <$> [0; 1; 2; 3; 4; 5; 6; 7]).

Definition write_boolean (value : bool) : ST Buffer unit :=
  put [marker Boolean];; put [if value then 1 else 0].

Definition write_null : ST Buffer unit := put [marker Null].

Definition write_undefined : ST Buffer unit := put [marker Undefined].

Definition write_string (s : bytes) : ST Buffer unit :=
  guard_st (65535 <? zlen s) Amf;;
  put [marker String];; put (to_be_bytes16 (as_u16 (zlen s)));; put s.

Definition write_long_string_bytes (data : bytes) : ST Buffer unit :=
  guard_st (4294967295 <? zlen data) Amf;;
  put [marker LongString];; put (to_be_bytes32 (as_u32 (zlen data)));; put data.

Definition write_long_string (s : bytes) : ST Buffer unit := write_long_string_bytes s.

Definition write_object_begin : ST Buffer unit := put [marker Object].

Definition write_object_end : ST Buffer unit := put [0; 0; 9].

Definition write_object_key (key : bytes) : ST Buffer unit :=
  guard_st (65535 <? zlen key) Amf;;
  put (to_be_bytes16 (as_u16 (zlen key)));; put key.

Definition write_ecma_array_begin (count : Z) : ST Buffer unit :=
  put [marker EcmaArray];; put (to_be_bytes32 count).

(** * Decoder *)

(** [std::str::from_utf8(&key[..n]).unwrap_or("")]. *)
Definition str_prefix (key : bytes) (n : Z) : Res bytes :=
  d ← slice key 0 n; Ok (if utf8_valid d then d else []).

Definition MAX_SKIP_DEPTH : Z := 32.
Definition MAX_OBJECT_KEYS : Z := 256.

Section decoder.
Context {S : Type} `{Source S}.

Definition read_u8 : ST S Z :=
  val ← map_err Io (src_read 1); lift (zidx val 0).

Definition read_u16 : ST S Z :=
  b ← map_err Io (src_read 2);
  b0 ← lift (zidx b 0); b1 ← lift (zidx b 1);
  mret (u16_be b0 b1).

Definition read_u32 : ST S Z :=
  b ← map_err Io (src_read 4);
  b0 ← lift (zidx b 0); b1 ← lift (zidx b 1); b2 ← lift (zidx b 2); b3 ← lift (zidx b 3);
  mret (u32_be b0 b1 b2 b3).

Definition read_double : ST S Z :=
  b ← map_err Io (src_read 8); lift (u64_be b).

Definition read_type : ST S Amf0Type :=
  t ← read_u8;
  lift (if t =? 0 then Ok Number else if t =? 1 then Ok Boolean
        else if t =? 2 then Ok String else if t =? 3 then Ok Object
        else if t =? 4 then Ok Movieclip else if t =? 5 then Ok Null
        else if t =? 6 then Ok Undefined else if t =? 7 then Ok Reference
        else if t =? 8 then Ok EcmaArray else if t =? 9 then Ok ObjectEnd
        else if t =? 10 then Ok StrictArray else if t =? 11 then Ok Date
        else if t =? 12 then Ok LongString else if t =? 13 then Ok UnsupportedType
        else if t =? 14 then Ok Recordset else if t =? 15 then Ok XmlDoc
        else if t =? 16 then Ok TypedObject else if t =? 17 then Ok Avmplus
        else Err Amf).

Definition read_number : ST S Z := read_double.

Definition read_boolean : ST S bool :=
  b ← read_u8; mret (negb (b =? 0)).

(** [buf.read(&mut out[..len])] and the NUL after it: the slice [out] after the
    call and the length. *)
Definition read_into (out : bytes) (len : Z) : ST S (bytes * Z) :=
  d ← map_err Amf (src_read len);
  out ← lift (copy_at out 0 d);
  out ← lift (copy_at out len [0]);
  mret (out, len).

Definition read_string (out : bytes) : ST S (bytes * Z) :=
  ty ← read_u8;
  guard_st (negb (ty =? marker String)) Amf;;
  str_len ← read_u16;
  guard_st (zlen out <=? str_len) Amf;;
  read_into out str_len.

Definition read_string_alloc : ST S bytes :=
  ty ← read_u8;
  guard_st (negb (ty =? marker String)) Amf;;
  len ← read_u16;
  d ← map_err Amf (src_read len);
  guard_st (negb (utf8_valid d)) Amf;;
  mret d.

Definition read_long_string (out : bytes) : ST S (bytes * Z) :=
  ty ← read_u8;
  guard_st (negb (ty =? marker LongString)) Amf;;
  str_len ← read_u32;
  guard_st ((zlen out =? 0) || (zlen out <=? str_len)) Amf;;
  read_into out str_len.

Definition read_object_begin : ST S unit :=
  ty ← read_u8;
  guard_st (negb (ty =? marker Object)) Amf.

Definition read_object_key (out : bytes) : ST S (bytes * Z) :=
  klen ← read_u16;
  guard_st (zlen out <=? klen) Amf;;
  read_into out klen.

Definition is_object_end : ST S bool :=
  peek ← peek_st;
  if zlen peek <? 3 then mret false else
  p0 ← lift (zidx peek 0); p1 ← lift (zidx peek 1); p2 ← lift (zidx peek 2);
  mret ((p0 =? 0) && (p1 =? 0) && (p2 =? 9)).

(** [if buf.available() < n { return Err(Io) } buf.drain(n)]. *)
Definition skip_bytes (n : Z) : ST S unit :=
  a ← available_st;
  guard_st (a <? n) Io;;
  drain_st n.

(** [for _ in 0..count]. *)
Fixpoint repeat_st (count : nat) (m : ST S unit) : ST S unit :=
  match count with O => mret tt | Datatypes.S count => m;; repeat_st count m end.

(** The loop over the entries of an object; it leaves by [return] after at most
    [MAX_OBJECT_KEYS + 1] turns. *)
Fixpoint skip_entries (fuel : nat) (keys : Z) (child : Amf0Type → ST S unit) : ST S unit :=
  match fuel with
  | O => lift Panic
  | Datatypes.S fuel =>
      fin ← is_object_end;
      if fin : bool then map_err Io (src_read 3);; mret tt
      else
        let keys := keys + 1 in
        guard_st (MAX_OBJECT_KEYS <? keys) Amf;;
        klen ← read_u16;
        skip_bytes klen;;
        child_ty ← read_type;
        child child_ty;;
        skip_entries fuel keys child
  end.

Definition entries_fuel : nat := 257.

(** The recursion of [skip_value_depth]; it is at most [MAX_SKIP_DEPTH] deep. *)
Fixpoint skip_value_depth (fuel : nat) (depth : Z) (ty : Amf0Type) : ST S unit :=
  match fuel with
  | O => lift Panic
  | Datatypes.S fuel =>
      let child := skip_value_depth fuel (depth + 1) in
      match ty with
      | Number => read_double;; mret tt
      | Boolean => read_u8;; mret tt
      | String => len ← read_u16; skip_bytes len
      | LongString => len ← read_u32; skip_bytes len
      | StrictArray =>
          guard_st (MAX_SKIP_DEPTH <=? depth) Amf;;
          count ← read_u32;
          guard_st (MAX_OBJECT_KEYS <? count) Amf;;
          repeat_st (Z.to_nat count) (child_ty ← read_type; child child_ty)
      | Object | EcmaArray =>
          guard_st (MAX_SKIP_DEPTH <=? depth) Amf;;
          (if decide (ty = EcmaArray) then read_u32;; mret tt else mret tt);;
          skip_entries entries_fuel 0 child
      | Date => skip_bytes 10
      | Reference => skip_bytes 2
      | Null | Undefined | Movieclip => mret tt
      | XmlDoc => len ← read_u32; skip_bytes len
      | TypedObject =>
          guard_st (MAX_SKIP_DEPTH <=? depth) Amf;;
          class_len ← read_u16;
          skip_bytes class_len;;
          skip_entries entries_fuel 0 child
      | _ => fail Unsupported
      end
  end.

Definition depth_fuel : nat := 33.

Definition skip_value_after_type (ty : Amf0Type) : ST S unit := skip_value_depth depth_fuel 0 ty.

Definition skip_value : ST S unit :=
  ty ← read_type; skip_value_depth depth_fuel 0 ty.
End decoder.

(** * The decoder on a buffer is the decoder on its bytes *)

Lemma sim_read_u8 : sim is_u8 read_u8 read_u8.
Proof.
  eapply sim_bind; [apply sim_map_err, sim_read; lia|]. intros d [Hd Ho]. apply sim_zidx; [done|lia].
Qed.

Lemma sim_read_u16 : sim is_u16 read_u16 read_u16.
Proof.
  eapply sim_bind; [apply sim_map_err, sim_read; lia|]. intros d [Hd Ho].
  do 2 (eapply sim_bind; [apply sim_zidx; [done|lia]|]; intros ? ?).
  apply sim_ret. rewrite u16_be_val by done. unfold from_be_bytes16. ulia.
Qed.

Lemma sim_read_u32 : sim is_u32 read_u32 read_u32.
Proof.
  eapply sim_bind; [apply sim_map_err, sim_read; lia|]. intros d [Hd Ho].
  do 4 (eapply sim_bind; [apply sim_zidx; [done|lia]|]; intros ? ?).
  apply sim_ret. rewrite u32_be_val by done. by apply from_be_bytes32_range.
Qed.

Lemma sim_read_double : sim is_u64 read_double read_double.
Proof.
  eapply sim_bind; [apply sim_map_err, sim_read; lia|]. intros d [Hd Ho].
  apply sim_lift. by destruct (u64_be_ok d Ho Hd) as (v&->&?).
Qed.

Lemma sim_read_type : sim (λ _, True) read_type read_type.
Proof.
  eapply sim_bind; [apply sim_read_u8|]. intros t _. apply sim_lift.
  by repeat case_match.
Qed.

(** A string read into a slice of [cap] bytes. *)
Definition filled (cap : Z) (r : bytes * Z) : Prop :=
  zlen (fst r) = cap ∧ bytes_ok (fst r) ∧ 0 ≤ snd r < cap.

Lemma copy_at_bytes out a d : bytes_ok out → bytes_ok d → 0 ≤ a → a + zlen d ≤ zlen out →
  ∃ out', copy_at out a d = Ok out' ∧ zlen out' = zlen out ∧ bytes_ok out'.
Proof.
  intros Ho Hd Ha Hl. rewrite copy_at_ok by done. eexists. split; [done|]. split; [zlia|].
  unfold bytes_ok. rewrite !Forall_app. split_and!; [by apply Forall_ztake|done|by apply Forall_zdrop].
Qed.

Lemma sim_read_into out len : bytes_ok out → 0 ≤ len < zlen out →
  sim (filled (zlen out)) (read_into out len) (read_into out len).
Proof.
  intros Ho Hl. eapply sim_bind; [apply sim_map_err, sim_read; lia|]. intros d [Hd Hdo].
  destruct (copy_at_bytes out 0 d Ho Hdo) as (o1&->&L1&O1); [lia..|].
  eapply (sim_bind (λ o, zlen o = zlen out ∧ bytes_ok o)); [by apply sim_lift|]. intros o [Lo Oo].
  destruct (copy_at_bytes o len [0] Oo) as (o2&->&L2&O2); [bytes_lit|lia|change (zlen [0]) with 1; lia|].
  eapply (sim_bind (λ o, zlen o = zlen out ∧ bytes_ok o)); [apply sim_lift; split; congruence|].
  intros o' [? ?]. apply sim_ret. split_and!; simpl; (done || lia).
Qed.

Lemma sim_read_object_key out : bytes_ok out →
  sim (filled (zlen out)) (read_object_key out) (read_object_key out).
Proof.
  intros Ho. eapply sim_bind; [apply sim_read_u16|]. intros n Hn.
  eapply (sim_bind (λ _, n < zlen out)); [apply sim_guard; cbv beta; lia|]. intros ? ?.
  apply sim_read_into; [done|ulia].
Qed.

Lemma sim_read_string out : bytes_ok out →
  sim (filled (zlen out)) (read_string out) (read_string out).
Proof.
  intros Ho. eapply sim_bind; [apply sim_read_u8|]. intros ty _.
  eapply sim_bind; [by apply (sim_guard (λ _, True))|]. intros ? _. by apply sim_read_object_key.
Qed.

Lemma sim_read_long_string out : bytes_ok out →
  sim (filled (zlen out)) (read_long_string out) (read_long_string out).
Proof.
  intros Ho. eapply sim_bind; [apply sim_read_u8|]. intros ty _.
  eapply sim_bind; [by apply (sim_guard (λ _, True))|]. intros ? _.
  eapply sim_bind; [apply sim_read_u32|]. intros n Hn.
  eapply (sim_bind (λ _, n < zlen out)); [apply sim_guard; cbv beta; lia|]. intros ? ?.
  apply sim_read_into; [done|ulia].
Qed.

Lemma sim_str_prefix cap r : filled cap r →
  sim (λ _, True) (lift (str_prefix (fst r) (snd r))) (lift (str_prefix (fst r) (snd r))).
Proof. intros (?&_&?). apply sim_lift. unfold str_prefix. by rewrite slice_ok, Ok_bind by lia. Qed.

Lemma sim_skip_bytes n : 0 ≤ n → sim (λ _, True) (skip_bytes n) (skip_bytes n).
Proof.
  intros Hn. eapply sim_bind; [apply sim_available|]. intros a _.
  eapply sim_bind; [by apply (sim_guard (λ _, True))|]. intros ? _. by apply sim_drain.
Qed.

Lemma sim_is_object_end : sim (λ _, True) is_object_end is_object_end.
Proof.
  eapply sim_bind; [apply sim_peek|]. intros d Hd. destruct (Z.ltb_spec (zlen d) 3).
  { by apply sim_ret. }
  do 3 (eapply sim_bind; [apply sim_zidx; [done|lia]|]; intros ? ?). by apply sim_ret.
Qed.

Lemma sim_repeat n m p : sim (λ _, True) m p → sim (λ _, True) (repeat_st n m) (repeat_st n p).
Proof.
  intros H. induction n as [|n IH]; [by apply sim_ret|]. eapply sim_bind; [done|]. by intros ? _.
Qed.

Lemma sim_skip_entries fuel keys m p : MAX_OBJECT_KEYS - keys < Z.of_nat fuel → 0 ≤ keys →
  keys ≤ MAX_OBJECT_KEYS → (∀ ty, sim (λ _, True) (m ty) (p ty)) →
  sim (λ _, True) (skip_entries fuel keys m) (skip_entries fuel keys p).
Proof.
  intros Hf Hk Hm H. revert keys Hf Hk Hm.
  induction fuel as [|fuel IH]; intros keys Hf Hk Hm; [lia|]. cbn [skip_entries].
  eapply sim_bind; [apply sim_is_object_end|]. intros [] _.
  { eapply sim_bind; [apply sim_map_err, sim_read; lia|]. intros. by apply sim_ret. }
  eapply (sim_bind (λ _, keys + 1 ≤ MAX_OBJECT_KEYS)); [apply sim_guard; cbv beta; lia|]. intros [] Hle.
  eapply sim_bind; [apply sim_read_u16|]. intros klen Hl.
  eapply sim_bind; [apply sim_skip_bytes; ulia|]. intros ? _.
  eapply sim_bind; [apply sim_read_type|]. intros ty _.
  eapply sim_bind; [apply H|]. intros ? _. apply IH; lia.
Qed.

Lemma sim_skip_depth fuel depth ty : 0 ≤ depth ≤ MAX_SKIP_DEPTH →
  MAX_SKIP_DEPTH - depth < Z.of_nat fuel →
  sim (λ _, True) (skip_value_depth fuel depth ty) (skip_value_depth fuel depth ty).
Proof.
  revert depth ty. induction fuel as [|fuel IH]; intros depth ty Hd Hf; [lia|].
  cbn [skip_value_depth].
  assert (∀ (m : ST Buffer unit) (p : ST bytes unit), (depth < MAX_SKIP_DEPTH →
    sim (λ _, True) m p) → sim (λ _, True) (guard_st (MAX_SKIP_DEPTH <=? depth) Amf;; m)
      (guard_st (MAX_SKIP_DEPTH <=? depth) Amf;; p)) as Hg.
  { intros m p H. eapply (sim_bind (λ _, depth < MAX_SKIP_DEPTH)); [apply sim_guard; cbv beta; lia|]. intros ? ?. by apply H. }
  assert (depth < MAX_SKIP_DEPTH → ∀ ty, sim (λ _, True) (skip_value_depth fuel (depth + 1) ty)
    (skip_value_depth fuel (depth + 1) ty)) as Hc by (intros; apply IH; lia).
  assert (depth < MAX_SKIP_DEPTH → sim (λ _, True)
    (skip_entries entries_fuel 0 (skip_value_depth fuel (depth + 1)))
    (skip_entries entries_fuel 0 (skip_value_depth fuel (depth + 1)))) as He.
  { intros. apply sim_skip_entries; [done..|]. by apply Hc. }
  destruct ty; cbn [decide]; try apply sim_fail; try (by apply sim_ret);
    try (apply sim_skip_bytes; lia);
    try (eapply sim_bind; [apply sim_read_u16|intros n Hn; apply sim_skip_bytes; ulia]);
    try (eapply sim_bind; [apply sim_read_u32|intros n Hn; apply sim_skip_bytes; ulia]).
  - eapply sim_bind; [apply sim_read_double|]. intros. by apply sim_ret.
  - eapply sim_bind; [apply sim_read_u8|]. intros. by apply sim_ret.
  - apply Hg. intros. eapply sim_bind; [by apply (sim_ret (λ _, True))|]. auto.
  - apply Hg. intros. eapply sim_bind; [|auto]. eapply (sim_bind _ (λ _, True)); [apply sim_read_u32|].
    intros. by apply sim_ret.
  - apply Hg. intros. eapply sim_bind; [apply sim_read_u32|]. intros n Hn.
    eapply sim_bind; [by apply (sim_guard (λ _, True))|]. intros ? _. apply sim_repeat.
    eapply sim_bind; [apply sim_read_type|]. auto.
  - apply Hg. intros. eapply sim_bind; [apply sim_read_u16|]. intros n Hn.
    eapply sim_bind; [apply sim_skip_bytes; ulia|]. auto.
Qed.

Lemma sim_skip_value : sim (λ _, True) skip_value skip_value.
Proof. eapply sim_bind; [apply sim_read_type|]. intros ty _. by apply sim_skip_depth. Qed.

(** * The decoder on bytes *)

Lemma read_u8_app b l : read_u8 (b :: l) = (Ok b, l).
Proof.
  unfold read_u8. rewrite (bind_ok _ _ _ _ _ (map_err_ok _ _ _ _ _ (src_read_app 1 [b] l eq_refl))).
  done.
Qed.

Lemma read_u8_inv l b l' : read_u8 l = (Ok b, l') → l = b :: l'.
Proof.
  unfold read_u8. intros (d&l1&E%map_err_inv&H)%bind_inv.
  apply src_read_inv in E as [-> Hd]; [|lia]. destruct d as [|x [|y d]]; try (unfold zlen in Hd; simpl in Hd; lia).
  by injection H as -> ->.
Qed.

Lemma read_u16_app v l : is_u16 v → read_u16 (to_be_bytes16 v ++ l) = (Ok v, l).
Proof.
  intros Hv. unfold read_u16.
  rewrite (bind_ok _ _ _ _ _ (map_err_ok _ _ _ _ _ (src_read_app 2 (to_be_bytes16 v) l eq_refl))).
  trans (Ok (u16_be (as_u8 (v >> 8)) (as_u8 v)), l); [done|].
  by rewrite u16_be_val, be16_roundtrip by (done || apply as_u8_range).
Qed.

Lemma read_u16_inv l v l' : bytes_ok l → read_u16 l = (Ok v, l') →
  is_u16 v ∧ l = to_be_bytes16 v ++ l'.
Proof.
  unfold read_u16. intros Hl (d&l1&E%map_err_inv&H)%bind_inv.
  apply src_read_inv in E as [-> Hd]; [|lia]. apply Forall_app in Hl as [Ho _].
  destruct d as [|x [|y [|z d]]]; try (unfold zlen in Hd; simpl in Hd; lia).
  apply Forall_cons in Ho as [? [? _]%Forall_cons]. injection H as <- <-.
  rewrite u16_be_val, to_be_from_be16 by done. split; [unfold from_be_bytes16; ulia|done].
Qed.

Lemma read_u32_app v l : is_u32 v → read_u32 (to_be_bytes32 v ++ l) = (Ok v, l).
Proof.
  intros Hv. unfold read_u32.
  rewrite (bind_ok _ _ _ _ _ (map_err_ok _ _ _ _ _ (src_read_app 4 (to_be_bytes32 v) l eq_refl))).
  trans (Ok (u32_be (as_u8 (v >> 24)) (as_u8 (v >> 16)) (as_u8 (v >> 8)) (as_u8 v)), l); [done|].
  by rewrite u32_be_val, be32_roundtrip by (done || apply as_u8_range).
Qed.

Lemma read_u32_inv l v l' : bytes_ok l → read_u32 l = (Ok v, l') →
  is_u32 v ∧ l = to_be_bytes32 v ++ l'.
Proof.
  unfold read_u32. intros Hl (d&l1&E%map_err_inv&H)%bind_inv.
  apply src_read_inv in E as [-> Hd]; [|lia]. apply Forall_app in Hl as [Ho _].
  destruct d as [|b0 [|b1 [|b2 [|b3 [|z d]]]]]; try (unfold zlen in Hd; simpl in Hd; lia).
  unfold bytes_ok in Ho. rewrite !Forall_cons in Ho. destruct_and! Ho. injection H as <- <-.
  rewrite u32_be_val, to_be_from_be32 by done. split; [by apply from_be_bytes32_range|done].
Qed.

Lemma read_double_app d l : bytes_ok d → zlen d = 8 → ∃ v, read_double (d ++ l) = (Ok v, l).
Proof.
  intros Ho Hd. unfold read_double.
  rewrite (bind_ok _ _ _ _ _ (map_err_ok _ _ _ _ _ (src_read_app 8 d l Hd))).
  destruct (u64_be_ok d Ho Hd) as (v&->&_). by exists v.
Qed.

Lemma read_number_app v l : is_u64 v → read_number (to_be_bytes64 v ++ l) = (Ok v, l).
Proof.
  intros Hv. unfold read_number, read_double.
  rewrite (bind_ok _ _ _ _ _ (map_err_ok _ _ _ _ _ (src_read_app 8 _ l (zlen_be64 v)))).
  unfold lift. by rewrite be64_roundtrip.
Qed.

Lemma read_double_inv l v l' : read_double l = (Ok v, l') → ∃ d, l = d ++ l' ∧ zlen d = 8.
Proof.
  unfold read_double. intros (d&l1&E%map_err_inv&H)%bind_inv.
  apply src_read_inv in E as [-> Hd]; [|lia]. exists d. unfold lift in H. by simplify_eq.
Qed.

Lemma read_type_app ty l : read_type (marker ty :: l) = (Ok ty, l).
Proof. unfold read_type. rewrite (bind_ok _ _ _ _ _ (read_u8_app _ _)). by destruct ty. Qed.

Lemma read_type_inv l ty l' : read_type l = (Ok ty, l') → l = marker ty :: l'.
Proof.
  unfold read_type. intros (t&l1&E%read_u8_inv&H)%bind_inv. subst l. unfold lift in H.
  repeat match type of H with context [?a =? ?b] =>
    destruct (Z.eqb_spec a b) as [->|_]; [by injection H as <- <-|] end. done.
Qed.

Lemma read_into_inv out len l r l' : 0 ≤ len < zlen out → read_into out len l = (Ok r, l') →
  ∃ d out', l = d ++ l' ∧ zlen d = len ∧ r = (out', len) ∧ slice out' 0 len = Ok d.
Proof.
  intros Hl E. unfold read_into in E. apply bind_inv in E as (d&l1&E1&E).
  apply map_err_inv, src_read_inv in E1 as [-> <-]; [|lia].
  rewrite copy_at_ok, lift_ok in E by lia. rewrite ztake_nonpos, app_nil_l in E by lia.
  rewrite copy_at_ok, lift_ok in E by (change (zlen [0]) with 1; zlia). injection E as <- <-.
  eexists d, _. split_and!; try done. rewrite ztake_app_len by done. by rewrite slice_head.
Qed.

(** The slice after a string was read into it: the string, a NUL, the rest. *)
Lemma read_into_app out d l : zlen d < zlen out →
  ∃ out', read_into out (zlen d) (d ++ l) = (Ok (out', zlen d), l) ∧ slice out' 0 (zlen d) = Ok d.
Proof.
  intros Hl. unfold read_into. rewrite (bind_ok _ _ _ _ _ (map_err_ok _ _ _ _ _ (src_read_app _ d l eq_refl))).
  pose proof (zlen_nonneg d). rewrite copy_at_ok, lift_ok by lia. rewrite ztake_nonpos, app_nil_l by lia.
  rewrite copy_at_ok, lift_ok by (change (zlen [0]) with 1; zlia).
  eexists. split; [reflexivity|]. rewrite ztake_app_len by done. by rewrite slice_head.
Qed.

Lemma read_object_key_app out k l : zlen k < zlen out → zlen k ≤ 65535 →
  ∃ out', read_object_key out (to_be_bytes16 (zlen k) ++ k ++ l) = (Ok (out', zlen k), l)
    ∧ slice out' 0 (zlen k) = Ok k.
Proof.
  intros Hl Hk. pose proof (zlen_nonneg k). unfold read_object_key.
  rewrite (bind_ok _ _ _ _ _ (read_u16_app (zlen k) _ ltac:(ulia))).
  rewrite guard_pass by lia. by apply read_into_app.
Qed.

Lemma skip_bytes_app d l n : zlen d = n → skip_bytes n (d ++ l) = (Ok tt, l).
Proof.
  intros <-. unfold skip_bytes, available_st, drain_st, mbind, ST_bind, guard_st.
  change (src_available (d ++ l)) with (zlen (d ++ l)). rewrite (proj2 (Z.ltb_ge _ _)) by zlia. simpl. by rewrite zdrop_app_exact.
Qed.

Lemma skip_bytes_inv n l l' : 0 ≤ n → skip_bytes n l = (Ok tt, l') → ∃ d, l = d ++ l' ∧ zlen d = n.
Proof.
  intros Hn. unfold skip_bytes, available_st, drain_st, mbind, ST_bind, guard_st.
  change (src_available l) with (zlen l). destruct (Z.ltb_spec (zlen l) n); [done|]. simpl. intros [= <-].
  exists (ztake n l). split; [by rewrite ztake_zdrop_app|zlia].
Qed.

Lemma is_object_end_spec (l : bytes) :
  ∃ b, is_object_end l = (Ok b, l) ∧ (b = true ↔ ∃ r, l = 0 :: 0 :: 9 :: r).
Proof.
  unfold is_object_end. rewrite (bind_ok _ _ _ _ _ (peek_list l)).
  destruct (Z.ltb_spec (zlen l) 3) as [Hl|Hl].
  { exists false. split; [done|]. split; [done|]. intros [r ->].
    unfold zlen in Hl. simpl in Hl. lia. }
  destruct l as [|x [|y [|z l]]]; try (unfold zlen in Hl; simpl in Hl; lia).
  eexists. split; [reflexivity|]. rewrite !andb_true_iff, !Z.eqb_eq.
  split; [intros [[-> ->] ->]; by exists l|by intros [r [= -> -> ->]]].
Qed.

(** * The grammar of the values that can be skipped *)

Inductive entries (V : bytes → Prop) : nat → bytes → Prop :=
  | entries_end : entries V 0 [0; 0; 9]
  | entries_cons k key v l : zlen key ≤ 65535 → V v → entries V k l →
      entries V (Datatypes.S k) (to_be_bytes16 (zlen key) ++ key ++ v ++ l).

Inductive values (V : bytes → Prop) : nat → bytes → Prop :=
  | values_nil : values V 0 []
  | values_cons k v l : V v → values V k l → values V (Datatypes.S k) (v ++ l).

(** [value n v]: [v] is one AMF0 value nested at most [n] deep, each of its
    containers with at most [MAX_OBJECT_KEYS] members. *)
#[local] Unset Elimination Schemes.
Inductive value : nat → bytes → Prop :=
  | v_number n d : zlen d = 8 → value n (marker Number :: d)
  | v_boolean n b : value n [marker Boolean; b]
  | v_string n s : zlen s ≤ 65535 → value n (marker String :: to_be_bytes16 (zlen s) ++ s)
  | v_long n ty s : ty = LongString ∨ ty = XmlDoc → zlen s ≤ 4294967295 →
      value n (marker ty :: to_be_bytes32 (zlen s) ++ s)
  | v_plain n ty : ty = Null ∨ ty = Undefined ∨ ty = Movieclip → value n [marker ty]
  | v_date n d : zlen d = 10 → value n (marker Date :: d)
  | v_reference n d : zlen d = 2 → value n (marker Reference :: d)
  | v_object n k l : entries (value n) k l → Z.of_nat k ≤ MAX_OBJECT_KEYS →
      value (Datatypes.S n) (marker Object :: l)
  | v_ecma n count k l : is_u32 count → entries (value n) k l → Z.of_nat k ≤ MAX_OBJECT_KEYS →
      value (Datatypes.S n) (marker EcmaArray :: to_be_bytes32 count ++ l)
  | v_typed n cls k l : zlen cls ≤ 65535 → entries (value n) k l → Z.of_nat k ≤ MAX_OBJECT_KEYS →
      value (Datatypes.S n) (marker TypedObject :: to_be_bytes16 (zlen cls) ++ cls ++ l)
  | v_strict n k l : values (value n) k l → Z.of_nat k ≤ MAX_OBJECT_KEYS →
      value (Datatypes.S n) (marker StrictArray :: to_be_bytes32 (Z.of_nat k) ++ l).

#[local] Set Elimination Schemes.

Lemma value_marker n v : value n v → ∃ ty body, v = marker ty :: body ∧ ty ≠ ObjectEnd.
Proof. destruct 1; destruct_or?; subst; do 2 eexists; split; (reflexivity || done). Qed.

(** A child read where the grammar has a value. *)
Definition skips (V : bytes → Prop) (child : Amf0Type → ST bytes unit) : Prop := ∀ v l,
  V v → bytes_ok v → (ty ← read_type; child ty) (v ++ l) = (Ok tt, l).

Lemma entry_not_end key v l : zlen key ≤ 65535 → (∃ n, value n v) →
  ¬ ∃ r, to_be_bytes16 (zlen key) ++ key ++ v ++ l = 0 :: 0 :: 9 :: r.
Proof.
  intros Hk [n Hv] [r E]. destruct (value_marker n v Hv) as (ty&body&->&Hty).
  injection E as E1 E2 E3. pose proof (zlen_nonneg key).
  pose proof (be16_roundtrip (zlen key) ltac:(ulia)) as Hr. rewrite E1, E2 in Hr.
  symmetry in Hr. apply zlen_0_nil in Hr. subst key. injection E3 as E3 _. by destruct ty.
Qed.

Lemma skip_entries_complete n child fuel keys k e l :
  skips (value n) child → entries (value n) k e → bytes_ok e →
  keys + Z.of_nat k ≤ MAX_OBJECT_KEYS → (k < fuel)%nat →
  skip_entries fuel keys child (e ++ l) = (Ok tt, l).
Proof.
  intros Hc He. revert fuel keys. induction He as [|k key v e Hk Hv He IH];
    intros [|fuel] keys Ho Hn Hf; try lia; cbn [skip_entries].
  - destruct (is_object_end_spec ([0; 0; 9] ++ l)) as (b&E&Hb). rewrite (bind_ok _ _ _ _ _ E).
    rewrite (proj2 Hb) by (by exists l).
    by rewrite (bind_ok _ _ _ _ _ (map_err_ok _ _ _ _ _ (src_read_app 3 [0; 0; 9] l eq_refl))).
  - rewrite <- !app_assoc.
    destruct (is_object_end_spec (to_be_bytes16 (zlen key) ++ key ++ v ++ e ++ l)) as (b&E&Hb).
    rewrite (bind_ok _ _ _ _ _ E). destruct b.
    { exfalso. eapply (entry_not_end key v); [done|by eexists|by apply Hb]. }
    apply Forall_app in Ho as [_ [_ [Hov Hoe]%Forall_app]%Forall_app].
    rewrite (proj2 (Z.ltb_ge _ _)), (bind_ok _ _ _ _ _ (guard_false _ _)) by lia.
    pose proof (zlen_nonneg key).
    rewrite (bind_ok _ _ _ _ _ (read_u16_app (zlen key) _ ltac:(ulia))).
    rewrite (bind_ok _ _ _ _ _ (skip_bytes_app key _ _ eq_refl)).
    specialize (Hc v (e ++ l) Hv Hov). apply bind_inv in Hc as (ty&l1&E1&E2).
    rewrite (bind_ok _ _ _ _ _ E1), (bind_ok _ _ _ _ _ E2). apply IH; [done|lia|lia].
Qed.

Lemma repeat_complete n child k e l : skips (value n) child → values (value n) k e → bytes_ok e →
  repeat_st k (ty ← read_type; child ty) (e ++ l) = (Ok tt, l).
Proof.
  intros Hc He. induction He as [|k v e Hv He IH]; intros Ho; [done|]. cbn [repeat_st].
  apply Forall_app in Ho as [? ?]. rewrite <- app_assoc.
  by rewrite (bind_ok _ _ _ _ _ (Hc v (e ++ l) Hv ltac:(done))), IH.
Qed.

Lemma skip_typed ty body l (child : Amf0Type → ST bytes unit) :
  (ty ← read_type; child ty) ((marker ty :: body) ++ l) = child ty (body ++ l).
Proof. exact (bind_ok _ _ _ _ _ (read_type_app ty (body ++ l))). Qed.

Lemma skip_short_app s l : zlen s ≤ 65535 →
  (len ← read_u16; skip_bytes len) (to_be_bytes16 (zlen s) ++ s ++ l) = (Ok tt, l).
Proof.
  intros Hs. pose proof (zlen_nonneg s).
  rewrite (bind_ok _ _ _ _ _ (read_u16_app (zlen s) _ ltac:(ulia))). by apply skip_bytes_app.
Qed.

Lemma skip_long_app s l : zlen s ≤ 4294967295 →
  (len ← read_u32; skip_bytes len) (to_be_bytes32 (zlen s) ++ s ++ l) = (Ok tt, l).
Proof.
  intros Hs. pose proof (zlen_nonneg s).
  rewrite (bind_ok _ _ _ _ _ (read_u32_app (zlen s) _ ltac:(ulia))). by apply skip_bytes_app.
Qed.

Lemma entries_fuel_enough k : 0 + Z.of_nat k ≤ MAX_OBJECT_KEYS → (k < entries_fuel)%nat.
Proof. unfold entries_fuel, MAX_OBJECT_KEYS. lia. Qed.

(** The members of [value] that hold no other value. *)
Ltac skip_leaf :=
  lazymatch goal with
  | |- mret _ _ = _ => reflexivity
  | |- skip_bytes _ _ = _ => apply skip_bytes_app
  | |- mbind (λ len, skip_bytes len) read_u16 _ = _ => apply skip_short_app
  | |- mbind (λ len, skip_bytes len) read_u32 _ = _ => apply skip_long_app
  | Hd : zlen ?d = 8, Ho : Forall is_u8 ?d |- mbind _ read_double (?d ++ ?l) = _ =>
      let w := fresh in let Ew := fresh in
      destruct (read_double_app d l Ho Hd) as [w Ew]; exact (bind_ok _ _ _ _ _ Ew)
  | |- mbind _ read_u8 ([?b] ++ ?l) = _ => exact (bind_ok _ _ _ _ _ (read_u8_app b l))
  | _ => idtac
  end.

Lemma skip_complete n fuel depth : (n < fuel)%nat → depth + Z.of_nat n = MAX_SKIP_DEPTH →
  skips (value n) (skip_value_depth fuel depth).
Proof.
  revert fuel depth. induction n as [|n IH]; intros [|fuel] depth Hf Hd v l Hv Ho; try lia;
    inversion Hv; subst; rewrite skip_typed; apply Forall_cons in Ho as [_ Ho];
    destruct_or?; subst; cbn [skip_value_depth]; rewrite <- ?app_assoc; skip_leaf; try assumption;
    rewrite guard_pass by lia.
  - rewrite decide_False, (bind_ok _ _ _ _ _ (mret_tt _)) by done.
    eapply skip_entries_complete; eauto using entries_fuel_enough. apply IH; lia.
  - rewrite decide_True by done.
    rewrite (bind_ok _ _ _ _ _ (bind_ok _ _ _ _ _ (read_u32_app count _ ltac:(done)))).
    apply Forall_app in Ho as [_ Ho].
    eapply skip_entries_complete; eauto using entries_fuel_enough. apply IH; lia.
  - pose proof (zlen_nonneg cls).
    rewrite (bind_ok _ _ _ _ _ (read_u16_app (zlen cls) _ ltac:(ulia))).
    rewrite (bind_ok _ _ _ _ _ (skip_bytes_app cls _ _ eq_refl)).
    apply Forall_app in Ho as [_ [_ Ho]%Forall_app].
    eapply skip_entries_complete; eauto using entries_fuel_enough. apply IH; lia.
  - rewrite (bind_ok _ _ _ _ _ (read_u32_app (Z.of_nat k) _ ltac:(unfold MAX_OBJECT_KEYS in *; ulia))).
    rewrite guard_pass by lia. rewrite Nat2Z.id. apply Forall_app in Ho as [_ Ho].
    eapply repeat_complete; eauto. apply IH; lia.
Qed.

(** The converse: what a child consumed is a value. *)
Definition recognises (V : bytes → Prop) (child : Amf0Type → ST bytes unit) : Prop := ∀ ty l l',
  bytes_ok l → child ty l = (Ok tt, l') → ∃ body, l = body ++ l' ∧ V (marker ty :: body).

Lemma skip_entries_sound V child fuel keys l l' :
  recognises V child → bytes_ok l → keys ≤ MAX_OBJECT_KEYS →
  skip_entries fuel keys child l = (Ok tt, l') →
  ∃ k e, l = e ++ l' ∧ entries V k e ∧ keys + Z.of_nat k ≤ MAX_OBJECT_KEYS.
Proof.
  intros Hc. revert keys l. induction fuel as [|fuel IH]; intros keys l Hl Hk; [done|].
  cbn [skip_entries]. destruct (is_object_end_spec l) as (b&E&Hb).
  rewrite (bind_ok _ _ _ _ _ E). destruct b.
  - destruct (proj1 Hb eq_refl) as [r ->].
    rewrite (bind_ok _ _ _ _ _ (map_err_ok _ _ _ _ _ (src_read_app 3 [0; 0; 9] r eq_refl))).
    rewrite mret_tt. intros [= <-]. exists 0%nat, [0; 0; 9]. split_and!; [done|constructor|lia].
  - intros [Hle (klen&l1&E1&H1)%bind_inv]%guard_inv. apply bind_inv in H1 as ([]&l2&E2&H2).
    apply bind_inv in H2 as (ty&l3&E3&H3). apply bind_inv in H3 as ([]&l4&E4&H4).
    apply read_u16_inv in E1 as [Hv ->]; [|done]. apply Forall_app in Hl as [_ Hl].
    apply skip_bytes_inv in E2 as (key&->&<-); [|ulia]. apply Forall_app in Hl as [_ Hl].
    apply read_type_inv in E3. subst l2. apply Forall_cons in Hl as [_ Hl].
    destruct (Hc ty l3 l4 Hl E4) as (body&->&HV). apply Forall_app in Hl as [_ Hl].
    destruct (IH (keys + 1) l4 Hl ltac:(lia) H4) as (k&e&->&He&Hke).
    exists (Datatypes.S k), (to_be_bytes16 (zlen key) ++ key ++ (marker ty :: body) ++ e).
    split_and!; [by rewrite <- !app_assoc|constructor; [ulia|done..]|lia].
Qed.

Lemma repeat_sound V child k l l' : recognises V child → bytes_ok l →
  repeat_st k (ty ← read_type; child ty) l = (Ok tt, l') → ∃ e, l = e ++ l' ∧ values V k e.
Proof.
  intros Hc. revert l. induction k as [|k IH]; intros l Hl.
  - intros [= <-]. exists []. split; [done|constructor].
  - cbn [repeat_st]. intros ([]&l1&(ty&l2&E2%read_type_inv&E3)%bind_inv&E1)%bind_inv. subst l.
    apply Forall_cons in Hl as [_ Hl]. destruct (Hc ty l2 l1 Hl E3) as (body&->&HV).
    apply Forall_app in Hl as [_ Hl]. destruct (IH l1 Hl E1) as (e&->&He).
    exists ((marker ty :: body) ++ e). split; [by rewrite <- app_assoc|by constructor].
Qed.

Lemma skip_short_inv l l' : bytes_ok l → (len ← read_u16; skip_bytes len) l = (Ok tt, l') →
  ∃ s, l = (to_be_bytes16 (zlen s) ++ s) ++ l' ∧ zlen s ≤ 65535 ∧ bytes_ok l'.
Proof.
  intros Hl (n&l1&[Hn ->]%read_u16_inv&E)%bind_inv; [|done].
  apply skip_bytes_inv in E as (s&->&<-); [|ulia]. exists s. rewrite <- app_assoc.
  apply Forall_app in Hl as [_ [_ Hl]%Forall_app]. split_and!; [done|ulia|done].
Qed.

Lemma skip_long_inv l l' : bytes_ok l → (len ← read_u32; skip_bytes len) l = (Ok tt, l') →
  ∃ s, l = (to_be_bytes32 (zlen s) ++ s) ++ l' ∧ zlen s ≤ 4294967295.
Proof.
  intros Hl (n&l1&[Hn ->]%read_u32_inv&E)%bind_inv; [|done].
  apply skip_bytes_inv in E as (s&->&<-); [|ulia]. exists s. rewrite <- app_assoc. split; [done|ulia].
Qed.

Lemma skip_sound n fuel depth : depth + Z.of_nat n = MAX_SKIP_DEPTH →
  recognises (value n) (skip_value_depth fuel depth).
Proof.
  revert n depth. induction fuel as [|fuel IH]; intros n depth Hd ty l l' Hl H; [done|].
  assert (depth < MAX_SKIP_DEPTH → ∃ m, n = Datatypes.S m
    ∧ recognises (value m) (skip_value_depth fuel (depth + 1))) as Hm.
  { intros. destruct n as [|m]; [lia|]. exists m. split; [done|]. apply IH. lia. }
  destruct ty; cbn [skip_value_depth] in H; 
    lazymatch type of H with fail _ _ = _ => discriminate H | _ => idtac end.
  - apply bind_inv in H as (v&l1&(d&->&Hz)%read_double_inv&[= <-]). exists d. split; [done|by constructor].
  - apply bind_inv in H as (v&l1&->%read_u8_inv&[= <-]). exists [v]. split; [done|constructor].
  - apply skip_short_inv in H as (s&->&Hs&_); [|done]. eexists. split; [done|by constructor].
  - apply guard_inv in H as [Hg H]. destruct (Hm ltac:(lia)) as (m&->&Hr).
    rewrite decide_False, (bind_ok _ _ _ _ _ (mret_tt _)) in H by done.
    apply (skip_entries_sound (value m)) in H as (k&e&->&He&Hk); [|done..].
    exists e. split; [done|by apply (v_object m k)].
  - injection H as <-. exists []. split; [done|apply v_plain; auto].
  - injection H as <-. exists []. split; [done|apply v_plain; auto].
  - injection H as <-. exists []. split; [done|apply v_plain; auto].
  - apply skip_bytes_inv in H as (d&->&Hz); [|lia]. exists d. split; [done|by apply v_reference].
  - apply guard_inv in H as [Hg H]. destruct (Hm ltac:(lia)) as (m&->&Hr).
    rewrite decide_True in H by done.
    apply bind_inv in H as ([]&l1&E&H). apply bind_inv in E as (count&l2&E&[= <-]).
    apply read_u32_inv in E as [Hc ->]; [|done].
    apply Forall_app in Hl as [_ Hl].
    apply (skip_entries_sound (value m)) in H as (k&e&->&He&Hk); [|done..].
    exists (to_be_bytes32 count ++ e). split; [by rewrite <- app_assoc|by apply (v_ecma m count k)].
  - apply guard_inv in H as [Hg H]. destruct (Hm ltac:(lia)) as (m&->&Hr).
    apply bind_inv in H as (count&l1&E&H). apply read_u32_inv in E as [Hc ->]; [|done].
    apply guard_inv in H as [Hk H]. apply Forall_app in Hl as [_ Hl].
    apply (repeat_sound (value m)) in H as (e&->&He); [|done..].
    exists (to_be_bytes32 count ++ e). split; [by rewrite <- app_assoc|].
    rewrite <- (Z2Nat.id count) at 1 by ulia.
    apply v_strict; [done|ulia].
  - apply skip_bytes_inv in H as (d&->&Hz); [|lia]. exists d. split; [done|by apply v_date].
  - apply skip_long_inv in H as (s&->&Hs); [|done]. eexists. split; [done|apply v_long; auto].
  - apply skip_long_inv in H as (s&->&Hs); [|done]. eexists. split; [done|apply v_long; auto].
  - apply guard_inv in H as [Hg H]. destruct (Hm ltac:(lia)) as (m&->&Hr).
    apply bind_inv in H as (n&l1&E1&H). apply bind_inv in H as ([]&l2&E2&H).
    destruct (skip_short_inv l l2 Hl) as (cls&->&Hs&Hl2); [by rewrite (bind_ok _ _ _ _ _ E1)|].
    apply (skip_entries_sound (value m)) in H as (k&e&->&He&Hk); [|done..].
    exists (to_be_bytes16 (zlen cls) ++ cls ++ e). split; [by rewrite <- !app_assoc|].
    by apply (v_typed m cls k).
Qed.

Lemma skip_value_app v rest : value 32 v → bytes_ok v → skip_value (v ++ rest) = (Ok tt, rest).
Proof. intros Hv Ho. apply (skip_complete 32 depth_fuel 0); [unfold depth_fuel; lia|done..]. Qed.

(** C14. [skip_value] recognises exactly the AMF0 values nested at most
    [MAX_SKIP_DEPTH] deep with at most [MAX_OBJECT_KEYS] members per container:
    on any input it returns without a panic; when the unread bytes start with
    such a value it succeeds, and a success has consumed exactly one. *)
Theorem skip_value_recognises b : Buffer.wf b → bytes_ok (Buffer.contents b) →
  ∃ r b', skip_value b = (r, b') ∧ Buffer.after b b' ∧
    match r with
    | Ok _ => ∃ v, Buffer.contents b = v ++ Buffer.contents b' ∧ value 32 v
    | Err _ => ¬ ∃ v rest, Buffer.contents b = v ++ rest ∧ value 32 v
    | Panic => False
    end.
Proof.
  intros Hb Ho. pose proof (sim_skip_value b Hb Ho) as H.
  destruct (skip_value (Buffer.contents b)) as [r l] eqn:E. destruct H as (b'&->&Ha&Hc&_&Hr).
  exists r, b'. split_and!; [done|by apply adv_after|]. destruct r as [[]|e|]; [|intros (v&rest&Ev&HV)|done].
  - unfold skip_value in E. apply bind_inv in E as (ty&l1&E1%read_type_inv&E).
    rewrite E1 in Ho |- *. apply Forall_cons in Ho as [_ Ho].
    destruct (skip_sound 32 depth_fuel 0 eq_refl ty l1 l Ho E) as (body&->&HV).
    exists (marker ty :: body). by rewrite Hc.
  - rewrite Ev in E, Ho. apply Forall_app in Ho as [Ho _].
    by rewrite (skip_value_app v rest HV Ho) in E.
Qed.

Lemma skip_value_recognises_witness :
  ∃ r b', skip_value (Buffer.from_slice [3; 0; 1; 97; 5; 0; 0; 9; 7]) = (r, b')
    ∧ Buffer.after (Buffer.from_slice [3; 0; 1; 97; 5; 0; 0; 9; 7]) b' ∧ r = Ok tt
    ∧ Buffer.contents b' = [7].
Proof.
  destruct (skip_value_recognises (Buffer.from_slice [3; 0; 1; 97; 5; 0; 0; 9; 7]))
    as (r&b'&E&Ha&_); [apply Buffer.wf_from_slice|repeat constructor; ulia|].
  exists r, b'. split; [done|]. split; [done|]. vm_compute in E. by injection E as <- <-.
Defined.

(** * What the encoder writes *)

(** A value built with the [write_*] functions. *)
#[local] Unset Elimination Schemes.
Inductive tree : Type :=
  | TNumber (bits : Z)
  | TBoolean (v : bool)
  | TNull
  | TUndefined
  | TString (s : bytes)
  | TLongString (s : bytes)
  | TObject (es : list (bytes * tree))
  | TEcma (count : Z) (es : list (bytes * tree)).
#[local] Set Elimination Schemes.

Definition write_entries (w : tree → ST Buffer unit) : list (bytes * tree) → ST Buffer unit :=
  fix go es :=
    match es with
    | [] => write_object_end
    | (k, t) :: es => write_object_key k;; w t;; go es
    end.

Fixpoint write_tree (t : tree) : ST Buffer unit :=
  match t with
  | TNumber bits => write_number bits
  | TBoolean v => write_boolean v
  | TNull => write_null
  | TUndefined => write_undefined
  | TString s => write_string s
  | TLongString s => write_long_string s
  | TObject es => write_object_begin;; write_entries write_tree es
  | TEcma count es => write_ecma_array_begin count;; write_entries write_tree es
  end.

(** Its bytes. *)
Definition enc_entries (enc : tree → bytes) : list (bytes * tree) → bytes :=
  fix go es :=
    match es with
    | [] => [0; 0; 9]
    | (k, t) :: es => to_be_bytes16 (zlen k) ++ k ++ enc t ++ go es
    end.

Fixpoint enc (t : tree) : bytes :=
  match t with
  | TNumber bits => 0 :: to_be_bytes64 bits
  | TBoolean v => [1; Z.b2z v]
  | TNull => [5]
  | TUndefined => [6]
  | TString s => 2 :: to_be_bytes16 (zlen s) ++ s
  | TLongString s => 12 :: to_be_bytes32 (zlen s) ++ s
  | TObject es => 3 :: enc_entries enc es
  | TEcma count es => 8 :: to_be_bytes32 count ++ enc_entries enc es
  end.

(** A tree within the limits of the format and of [skip_value], [n] deep. *)
Fixpoint tree_ok (n : nat) (t : tree) : Prop :=
  match t with
  | TNumber bits => is_u64 bits
  | TString s => zlen s ≤ 65535 ∧ bytes_ok s
  | TLongString s => zlen s ≤ 4294967295 ∧ bytes_ok s
  | TObject es | TEcma _ es =>
      match n with
      | O => False
      | Datatypes.S n => zlen es ≤ MAX_OBJECT_KEYS
          ∧ Forall (λ '(k, t), zlen k ≤ 65535 ∧ bytes_ok k ∧ tree_ok n t) es
      end ∧ match t with TEcma count _ => is_u32 count | _ => True end
  | _ => True
  end.

Lemma tree_ok_S n t : tree_ok n t → tree_ok (Datatypes.S n) t.
Proof.
  revert t. induction n as [|n IH]; intros t Ht; destruct t; try exact Ht;
    destruct Ht as [H1 H2]; try done; destruct H1 as [Hz He]; split; [|done| |done]; (split; [done|]);
    eapply Forall_impl; try exact He; intros [k t] (?&?&?); split_and!; try done; by apply IH.
Qed.

(** The marker in front of a tree. *)
Definition tree_type (t : tree) : Amf0Type :=
  match t with
  | TNumber _ => Number | TBoolean _ => Boolean | TNull => Null | TUndefined => Undefined
  | TString _ => String | TLongString _ => LongString | TObject _ => Object | TEcma _ _ => EcmaArray
  end.

Lemma read_tree_type t l : read_type (enc t ++ l) = (Ok (tree_type t), tail (enc t) ++ l).
Proof. rewrite <- (read_type_app (tree_type t) (tail (enc t) ++ l)). by destruct t. Qed.

Lemma emits_sized c e hd d : c = false → emits (guard_st c e;; put hd;; put d) (hd ++ d).
Proof. intros. apply emits_guard; [done|]. apply emits_bind; apply emits_put. Qed.

Lemma emits_object_key k : zlen k ≤ 65535 →
  emits (write_object_key k) (to_be_bytes16 (zlen k) ++ k).
Proof.
  intros Hk. pose proof (zlen_nonneg k). unfold write_object_key. rewrite as_u16_id by ulia.
  apply emits_sized. lia.
Qed.

Lemma emits_entries n es :
  (∀ t, tree_ok n t → emits (write_tree t) (enc t)) →
  Forall (λ '(k, t), zlen k ≤ 65535 ∧ bytes_ok k ∧ tree_ok n t) es →
  emits (write_entries write_tree es) (enc_entries enc es).
Proof.
  intros Ht. induction 1 as [|[k t] es (Hk&_&Hok) _ IH]; [apply emits_put|].
  change (enc_entries enc ((k, t) :: es))
    with (to_be_bytes16 (zlen k) ++ k ++ enc t ++ enc_entries enc es).
  rewrite app_assoc. apply (emits_bind (write_object_key k)
    _ (write_tree t;; write_entries write_tree es)); [by apply emits_object_key|]. apply emits_bind; auto.
Qed.

Lemma emits_number bits : emits (write_number bits) (0 :: to_be_bytes64 bits).
Proof. apply (emits_bind (put _) [_]); apply emits_put. Qed.

Lemma emits_boolean v : emits (write_boolean v) [1; Z.b2z v].
Proof. destruct v; apply (emits_bind (put _) [_]); apply emits_put. Qed.

Lemma emits_string s : zlen s ≤ 65535 →
  emits (write_string s) (2 :: to_be_bytes16 (zlen s) ++ s).
Proof.
  intros Hs. pose proof (zlen_nonneg s). unfold write_string. rewrite as_u16_id by ulia.
  apply emits_guard; [lia|]. apply (emits_bind (put _) [_]); [apply emits_put|].
  apply emits_bind; apply emits_put.
Qed.

Lemma emits_long_string s : zlen s ≤ 4294967295 →
  emits (write_long_string s) (12 :: to_be_bytes32 (zlen s) ++ s).
Proof.
  intros Hs. pose proof (zlen_nonneg s). unfold write_long_string, write_long_string_bytes.
  rewrite as_u32_id by ulia. apply emits_guard; [lia|].
  apply (emits_bind (put _) [_]); [apply emits_put|]. apply emits_bind; apply emits_put.
Qed.

Lemma emits_tree n t : tree_ok n t → emits (write_tree t) (enc t).
Proof.
  revert t. induction n as [|n IH]; intros [bits|v| | |s|s|es|count es] Ht; cbn [write_tree enc];
    [apply emits_number|apply emits_boolean|apply emits_put|apply emits_put
    |apply emits_string, Ht|apply emits_long_string, Ht|by destruct Ht as [[] _]|by destruct Ht as [[] _]
    |apply emits_number|apply emits_boolean|apply emits_put|apply emits_put
    |apply emits_string, Ht|apply emits_long_string, Ht| |];
    destruct Ht as [[Hz He] _].
  - apply (emits_bind write_object_begin [_]); [apply emits_put|]. eauto using emits_entries.
  - rewrite app_comm_cons. apply emits_bind; [|eauto using emits_entries].
    apply (emits_bind (put _) [_]); apply emits_put.
Qed.

Lemma enc_entries_grammar n es :
  (∀ t, tree_ok n t → value n (enc t) ∧ bytes_ok (enc t)) →
  Forall (λ '(k, t), zlen k ≤ 65535 ∧ bytes_ok k ∧ tree_ok n t) es →
  entries (value n) (length es) (enc_entries enc es) ∧ bytes_ok (enc_entries enc es).
Proof.
  intros Ht. induction 1 as [|[k t] es (Hk&Hb&Hok) _ [IH1 IH2]].
  { split; [constructor|]. repeat constructor; ulia. }
  destruct (Ht t Hok) as [Hv Hvb]. change (enc_entries enc ((k, t) :: es))
    with (to_be_bytes16 (zlen k) ++ k ++ enc t ++ enc_entries enc es).
  split; [by constructor|]. unfold bytes_ok in *. rewrite !Forall_app. split_and!; try done.
  apply bytes_ok_be16.
Qed.

Lemma enc_leaf_grammar n t :
  match t with TObject _ | TEcma _ _ => False | _ => True end → tree_ok n t →
  value n (enc t) ∧ bytes_ok (enc t).
Proof.
  intros Hleaf Ht. destruct t as [bits|v| | |s|s|es|count es]; [..|done|done]; cbn [enc].
  - split; [by apply v_number|]. apply bytes_ok_cons; [ulia|apply bytes_ok_be64].
  - split; [apply v_boolean|]. apply bytes_ok_cons; [ulia|].
    apply bytes_ok_cons; [destruct v; simpl; ulia|constructor].
  - split; [apply (v_plain _ Null); auto|]. repeat constructor; ulia.
  - split; [apply (v_plain _ Undefined); auto|]. repeat constructor; ulia.
  - assert (zlen s ≤ 65535 ∧ bytes_ok s) as [Hz Hb] by (by destruct n).
    split; [by apply v_string|]. apply bytes_ok_cons; [ulia|].
    apply Forall_app. split; [apply bytes_ok_be16|done].
  - assert (zlen s ≤ 4294967295 ∧ bytes_ok s) as [Hz Hb] by (by destruct n).
    split; [apply (v_long _ LongString); auto|]. apply bytes_ok_cons; [ulia|].
    apply Forall_app. split; [apply bytes_ok_be32|done].
Qed.

Lemma enc_grammar n t : tree_ok n t → value n (enc t) ∧ bytes_ok (enc t).
Proof.
  revert t. induction n as [|n IH]; intros t Ht; destruct t as [bits|v| | |s|s|es|count es];
    try (apply enc_leaf_grammar; [exact I|exact Ht]); try (by destruct Ht as [[] _]);
    destruct Ht as [[Hz He] Hc]; destruct (enc_entries_grammar n es IH He) as [H1 H2]; cbn [enc].
  - split; [by eapply (v_object n)|]. apply bytes_ok_cons; [ulia|done].
  - split; [by eapply (v_ecma n count)|]. apply bytes_ok_cons; [ulia|].
    apply Forall_app. split; [apply bytes_ok_be32|done].
Qed.

Lemma skip_tree_after_type t l : tree_ok 32 t →
  skip_value_after_type (tree_type t) (tail (enc t) ++ l) = (Ok tt, l).
Proof.
  intros Ht. destruct (enc_grammar 32 t Ht) as [Hv Ho]. pose proof (skip_value_app _ l Hv Ho) as H.
  unfold skip_value in H. by rewrite (bind_ok _ _ _ _ _ (read_tree_type t l)) in H.
Qed.

(** C15. Encoder against [skip_value]: any value built with the [write_*]
    functions within the limits of the format is appended to a buffer with room
    for it as one AMF0 value, and [skip_value] consumes exactly that value,
    whatever follows it. *)
Theorem written_value_skipped t b rest : tree_ok 32 t → Buffer.wf b → bytes_ok rest →
  zlen (Buffer.contents b) + zlen (enc t) ≤ Buffer.limit b →
  ∃ b' c', write_tree t b = (Ok tt, b') ∧ Buffer.contents b' = Buffer.contents b ++ enc t
    ∧ skip_value (Buffer.from_slice (enc t ++ rest)) = (Ok tt, c') ∧ Buffer.contents c' = rest.
Proof.
  intros Ht Hb Hr Hl. destruct (enc_grammar 32 t Ht) as [Hv Ho].
  destruct (emits_tree 32 t Ht b Hb Hl) as (b'&E&_&C&_).
  pose proof (sim_skip_value (Buffer.from_slice (enc t ++ rest)) (Buffer.wf_from_slice _)) as H.
  rewrite Buffer.contents_from_slice in H. specialize (H (proj2 (Forall_app _ _ _) (conj Ho Hr))).
  rewrite (skip_value_app _ rest Hv Ho) in H. destruct H as (c'&Ec&_&Cc&_). by exists b', c'.
Qed.

(** An object with a number and an empty array. *)
Definition sample_tree : tree := TObject [([97], TNumber 5); ([98], TEcma 0 [])].

Lemma sample_tree_ok n : tree_ok (Datatypes.S (Datatypes.S n)) sample_tree.
Proof.
  assert (∀ z, is_u8 z → zlen [z] ≤ 65535 ∧ bytes_ok [z]) as Hk.
  { intros z Hz. split; [done|constructor; [done|constructor]]. }
  destruct (Hk 97 ltac:(ulia)), (Hk 98 ltac:(ulia)). simpl.
  split_and!; [done|repeat constructor; try done; ulia|done].
Qed.

Lemma written_value_skipped_witness :
  ∃ b' c', write_tree sample_tree (Buffer.from_slice []) = (Ok tt, b')
    ∧ Buffer.contents b' = Buffer.contents (Buffer.from_slice []) ++ enc sample_tree
    ∧ skip_value (Buffer.from_slice (enc sample_tree ++ [1])) = (Ok tt, c')
    ∧ Buffer.contents c' = [1].
Proof.
  apply (written_value_skipped sample_tree (Buffer.from_slice []) [1]);
    [apply (sample_tree_ok 30)|apply Buffer.wf_from_slice|repeat constructor; ulia|by vm_compute].
Defined.
End Amf0.
