(* ===== verification/Amf3.v ===== *)
(** AMF3 encoding and decoding, src/amf/amf3.rs: the variable-length U29
    integers and the scalar values over them. *)
From S2P Require Import Prelude Bytes Buffer Source.

Module Amf3.

Definition AMF3_NULL : Z := 1.
Definition AMF3_FALSE : Z := 2.
Definition AMF3_TRUE : Z := 3.
Definition AMF3_INTEGER : Z := 4.
Definition AMF3_DOUBLE : Z := 5.
Definition AMF3_STRING : Z := 6.

Section decoder.
Context {S : Type} `{Source S}.

Definition read_u8 : ST S Z :=
  val ← map_err Io (src_read 1); lift (zidx val 0).

(** The loop [for i in 0..4], from turn [i] with [result] so far. *)
Fixpoint read_u29_from (turns : nat) (i result : Z) : ST S Z :=
  match turns with
  | O => mret result
  | Datatypes.S turns =>
      b ← read_u8;
      if i <? 3 then
        let result := (result <<32 7) .| (b .& 127) in
        if (b .& 128) =? 0 then mret result else read_u29_from turns (i + 1) result
      else read_u29_from turns (i + 1) ((result <<32 8) .| b)
  end.

Definition read_u29 : ST S Z := read_u29_from 4 0 0.

Definition read_double_raw : ST S Z :=
  b ← map_err Io (src_read 8); lift (u64_be b).

Definition read_type : ST S Z := read_u8.

Definition read_null : ST S unit :=
  t ← read_u8; guard_st (negb (t =? AMF3_NULL)) Amf.

Definition read_integer : ST S Z := read_u29.

Definition read_double : ST S Z := read_double_raw.

Definition read_boolean : ST S bool :=
  t ← read_u8;
  if t =? AMF3_TRUE then mret true else if t =? AMF3_FALSE then mret false else fail Amf.

(** The slice [out] after the call, and the length. *)
Definition read_string (out : bytes) : ST S (bytes * Z) :=
  t ← read_u8;
  guard_st (negb (t =? AMF3_STRING)) Amf;;
  ref_val ← read_u29;
  let len := ref_val >> 1 in
  let inline_bit := ref_val .& 1 in
  guard_st (inline_bit =? 0) Unsupported;;
  guard_st ((zlen out =? 0) || (zlen out <=? len)) Amf;;
  d ← map_err Io (src_read len);
  out ← lift (copy_at out 0 d);
  out ← lift (copy_at out len [0]);
  mret (out, len).
End decoder.

(** * Encoder *)

Definition u29_bytes (val : Z) : bytes :=
  let v := val .& 536870911 in
  if v <? 128 then [as_u8 v]
  else if v <? 16384 then [as_u8 ((v >> 7) .| 128); as_u8 (v .& 127)]
  else if v <? 2097152 then
    [as_u8 ((v >> 14) .| 128); as_u8 (((v >> 7) .& 127) .| 128); as_u8 (v .& 127)]
  else
    [as_u8 ((v >> 22) .| 128); as_u8 (((v >> 15) .& 127) .| 128);
     as_u8 (((v >> 8) .& 127) .| 128); as_u8 (v .& 255)].

Definition write_u29 (val : Z) : ST Buffer unit := put (u29_bytes val).

Definition write_null : ST Buffer unit := put [AMF3_NULL].

Definition write_integer (val : Z) : ST Buffer unit := put [AMF3_INTEGER];; write_u29 val.

Definition write_double (bits : Z) : ST Buffer unit :=
  put [AMF3_DOUBLE];;
  put ((λ i, as_u8 (bits >> ((7 - i) * 8))) <$> [0; 1; 2; 3; 4; 5; 6; 7]).

Definition write_string (s : bytes) : ST Buffer unit :=
  guard_st (268435455 <? zlen s) Amf;;
  put [AMF3_STRING];;
  write_u29 ((as_u32 (zlen s) <<32 1) .| 1);;
  put s.

(** * The decoder on a buffer is the decoder on its bytes *)

Lemma sim3_read_u8 : sim is_u8 read_u8 read_u8.
Proof.
  eapply sim_bind; [apply sim_map_err, sim_read; lia|]. intros d [Hd Ho]. apply sim_zidx; [done|lia].
Qed.

Definition is_u29 (v : Z) : Prop := 0 ≤ v < 536870912.

(** Each turn adds seven bits, the last one eight. *)
Lemma u29_step r b : 0 ≤ r < 2097152 → is_u8 b →
  (r <<32 7) .| (b .& 127) = r * 128 + b mod 128.
Proof.
  intros Hr Hb. rewrite shl32_mul, land_127 by ulia. rewrite (lor_low _ _ 7) by udivlia. lia.
Qed.

Lemma u29_last r b : 0 ≤ r < 2097152 → is_u8 b → (r <<32 8) .| b = r * 256 + b.
Proof. intros Hr Hb. rewrite shl32_mul by ulia. rewrite (lor_low _ _ 8) by udivlia. lia. Qed.

Lemma sim_u29_cont turns i r : i < 3 → 0 ≤ r < 16384 →
  (∀ x, 0 ≤ x < 128 → sim is_u29 (read_u29_from turns (i + 1) (r * 128 + x))
                                  (read_u29_from turns (i + 1) (r * 128 + x))) →
  sim is_u29 (read_u29_from (S turns) i r) (read_u29_from (S turns) i r).
Proof.
  intros Hi Hr H. cbn [read_u29_from]. eapply sim_bind; [apply sim3_read_u8|]. intros b Hb.
  rewrite (proj2 (Z.ltb_lt _ _) Hi), u29_step by ulia. destruct (_ =? 0).
  - apply sim_ret. unfold is_u29. udivlia.
  - apply H. udivlia.
Qed.

Lemma sim_read_u29 : sim is_u29 read_u29 read_u29.
Proof.
  do 3 (apply sim_u29_cont; [lia|lia|]; intros ? ?). cbn [read_u29_from].
  eapply sim_bind; [apply sim3_read_u8|]. intros b Hb. simpl (_ <? 3).
  apply sim_ret. unfold is_u29. rewrite u29_last by ulia. ulia.
Qed.

(** * Reading back *)

Lemma reads3_u8 b : reads read_u8 [b] b.
Proof.
  eapply reads_then; [by apply reads_map_err, reads_read|]. by intros l.
Qed.

Lemma reads_u29_cont turns i r x d a : i < 3 → 0 ≤ r < 16384 → 0 ≤ x < 128 →
  reads (read_u29_from turns (i + 1) (r * 128 + x)) d a →
  reads (read_u29_from (S turns) i r) ((x + 128) :: d) a.
Proof.
  intros Hi Hr Hx H. cbn [read_u29_from]. apply (reads_bind _ [_] _ _ _ _ (reads3_u8 _)).
  rewrite (proj2 (Z.ltb_lt _ _) Hi), u29_step, land_128 by ulia.
  rewrite (proj2 (Z.ltb_ge _ _)) by lia. replace ((x + 128) mod 128) with x by udivlia. done.
Qed.

Lemma reads_u29_stop turns i r x : i < 3 → 0 ≤ r < 16384 → 0 ≤ x < 128 →
  reads (read_u29_from (S turns) i r) [x] (r * 128 + x).
Proof.
  intros Hi Hr Hx. cbn [read_u29_from]. eapply reads_then; [apply reads3_u8|].
  rewrite (proj2 (Z.ltb_lt _ _) Hi), u29_step, land_128 by ulia.
  rewrite (proj2 (Z.ltb_lt _ _)) by lia. rewrite Z.mod_small by lia. by apply reads_ret.
Qed.

Lemma reads_u29_last r b : 0 ≤ r < 2097152 → is_u8 b →
  reads (read_u29_from 1 3 r) [b] (r * 256 + b).
Proof.
  intros Hr Hb. cbn [read_u29_from]. eapply reads_then; [apply reads3_u8|].
  simpl (3 <? 3). rewrite u29_last by done. apply reads_ret.
Qed.

Lemma reads_u29 val : is_u29 val → reads read_u29 (u29_bytes val) val.
Proof.
  unfold is_u29. intros Hv. unfold u29_bytes.
  replace (val .& 536870911) with val by (change 536870911 with (Z.ones 29); rewrite Z.land_ones by lia; udivlia).
  rewrite !land_127, land_255, !shiftr_div by lia.
  destruct (Z.ltb_spec val 128); [|destruct (Z.ltb_spec val 16384);
    [|destruct (Z.ltb_spec val 2097152)]]; rewrite ?lor_128, ?as_u8_id by udivlia.
  - pose proof (reads_u29_stop 3 0 0 val) as Hs. simpl in Hs. apply Hs; lia.
  - apply reads_u29_cont; [lia|lia|udivlia|].
    replace val with ((0 * 128 + val / 2 ^ 7) * 128 + val mod 128) at 3 by udivlia.
    apply reads_u29_stop; udivlia.
  - do 2 (apply reads_u29_cont; [lia|udivlia|udivlia|]).
    replace val with (((0 * 128 + val / 2 ^ 14) * 128 + val / 2 ^ 7 mod 128) * 128 + val mod 128)
      at 4 by udivlia.
    apply reads_u29_stop; udivlia.
  - do 3 (apply reads_u29_cont; [lia|udivlia|udivlia|]).
    replace val with ((((0 * 128 + val / 2 ^ 22) * 128 + val / 2 ^ 15 mod 128) * 128
      + val / 2 ^ 8 mod 128) * 256 + val mod 256) at 5 by udivlia.
    apply reads_u29_last; udivlia.
Qed.

(** A value of the API, written by its [write_*] and read back by its [read_*]
    function (after [read_type] where that does not check the marker). *)
Inductive item : Type :=
  | INull
  | IInteger (v : Z)
  | IDouble (bits : Z)
  | IString (s : bytes).

Definition write_item (i : item) : ST Buffer unit :=
  match i with
  | INull => write_null
  | IInteger v => write_integer v
  | IDouble bits => write_double bits
  | IString s => write_string s
  end.

Fixpoint write_items (xs : list item) : ST Buffer unit :=
  match xs with [] => mret tt | i :: xs => write_item i;; write_items xs end.

(** The kind of [i] and, for a string, room for it and the final NUL. *)
Definition read_item {S} `{Source S} (i : item) : ST S item :=
  match i with
  | INull => read_null;; mret INull
  | IInteger _ => t ← read_type; guard_st (negb (t =? AMF3_INTEGER)) Amf;; v ← read_integer; mret (IInteger v)
  | IDouble _ => t ← read_type; guard_st (negb (t =? AMF3_DOUBLE)) Amf;; v ← read_double; mret (IDouble v)
  | IString s => r ← read_string (zrepeat 0 (zlen s + 1)); mret (IString (ztake r.2 r.1))
  end.

Fixpoint read_items {S} `{Source S} (xs : list item) : ST S (list item) :=
  match xs with
  | [] => mret []
  | i :: xs => y ← read_item i; ys ← read_items xs; mret (y :: ys)
  end.

Definition enc_item (i : item) : bytes :=
  match i with
  | INull => [AMF3_NULL]
  | IInteger v => AMF3_INTEGER :: u29_bytes v
  | IDouble bits => AMF3_DOUBLE :: to_be_bytes64 bits
  | IString s => AMF3_STRING :: u29_bytes (zlen s * 2 + 1) ++ s
  end.

Definition item_ok (i : item) : Prop :=
  match i with
  | INull => True
  | IInteger v => is_u29 v
  | IDouble bits => is_u64 bits
  | IString s => zlen s ≤ 268435455 ∧ bytes_ok s
  end.

Lemma bytes_ok_u29 v : bytes_ok (u29_bytes v).
Proof. unfold u29_bytes. repeat case_match; repeat (apply bytes_ok_cons; [apply as_u8_range|]); constructor. Qed.

Lemma string_ref n : 0 ≤ n ≤ 268435455 → (as_u32 n <<32 1) .| 1 = n * 2 + 1.
Proof.
  intros Hn. rewrite (as_u32_id n), shl32_mul by ulia. rewrite (lor_low _ _ 1) by udivlia. lia.
Qed.

Lemma emits_item i : item_ok i → emits (write_item i) (enc_item i).
Proof.
  destruct i as [|v|bits|s]; intros Hi; cbn [write_item enc_item].
  - apply emits_put.
  - apply (emits_bind (put _) [_]); apply emits_put.
  - apply (emits_bind (put _) [_]); apply emits_put.
  - destruct Hi as [Hs _]. pose proof (zlen_nonneg s). unfold write_string.
    rewrite string_ref by lia. apply emits_guard; [lia|].
    apply (emits_bind (put _) [_]); [apply emits_put|]. apply emits_bind; apply emits_put.
Qed.

Lemma emits_items xs : Forall item_ok xs → emits (write_items xs) (concat (enc_item <$> xs)).
Proof.
  induction 1 as [|i xs Hi _ IH]; [apply emits_nil|]. simpl. apply emits_bind; [|done].
  by apply emits_item.
Qed.

Lemma bytes_ok_items xs : Forall item_ok xs → bytes_ok (concat (enc_item <$> xs)).
Proof.
  induction 1 as [|i xs Hi _ IH]; [constructor|]. simpl. apply Forall_app. split; [|done].
  destruct i as [|v|bits|s]; repeat (apply bytes_ok_cons; [unfold AMF3_NULL, AMF3_INTEGER,
    AMF3_DOUBLE, AMF3_STRING; ulia|]).
  - constructor.
  - apply bytes_ok_u29.
  - apply bytes_ok_be64.
  - apply Forall_app. split; [apply bytes_ok_u29|apply Hi].
Qed.

Lemma sim_read_string3 out : sim (λ _, True) (read_string out) (read_string out).
Proof.
  eapply sim_bind; [apply sim3_read_u8|]. intros t _.
  eapply sim_bind; [by apply (sim_guard (λ _, True))|]. intros ? _.
  eapply sim_bind; [apply sim_read_u29|]. intros v Hv. unfold is_u29 in Hv.
  eapply sim_bind; [by apply (sim_guard (λ _, True))|]. intros ? _.
  rewrite shiftr_div by lia.
  eapply (sim_bind (λ _, v / 2 ^ 1 < zlen out)); [apply sim_guard; cbv beta; lia|]. intros ? Hl.
  eapply sim_bind; [apply sim_map_err, sim_read; udivlia|]. intros d [Hd Ho].
  rewrite <- Hd in *. destruct (store_nul out d Hl) as (o1&o2&E1&E2&_).
  eapply sim_bind; [apply (sim_lift (λ x, x = o1)); by rewrite E1|]. intros ? ->.
  eapply sim_bind; [apply (sim_lift (λ _, True)); by rewrite E2|]. intros ? _. by apply sim_ret.
Qed.

Lemma sim_read_item i : sim (λ _, True) (read_item i) (read_item i).
Proof.
  destruct i; cbn [read_item].
  - eapply sim_bind; [|intros; by apply sim_ret].
    eapply (sim_bind _ (λ _, True)); [apply sim3_read_u8|]. intros. by apply sim_guard.
  - eapply sim_bind; [apply sim3_read_u8|]. intros.
    eapply sim_bind; [by apply (sim_guard (λ _, True))|]. intros.
    eapply sim_bind; [apply sim_read_u29|]. intros. by apply sim_ret.
  - eapply sim_bind; [apply sim3_read_u8|]. intros.
    eapply sim_bind; [by apply (sim_guard (λ _, True))|]. intros.
    eapply (sim_bind (λ _, True)); [|intros; by apply sim_ret].
    eapply sim_bind; [apply sim_map_err, sim_read; lia|]. intros d [Hd Ho].
    apply sim_lift. by destruct (u64_be_ok d Ho Hd) as (v&->&_).
  - eapply sim_bind; [apply sim_read_string3|]. intros. by apply sim_ret.
Qed.

Lemma sim_read_items xs : sim (λ _, True) (read_items xs) (read_items xs).
Proof.
  induction xs as [|i xs IH]; [by apply sim_ret|]. cbn [read_items].
  eapply sim_bind; [apply sim_read_item|]. intros. eapply sim_bind; [apply IH|].
  intros. by apply sim_ret.
Qed.

Lemma reads_string s : zlen s ≤ 268435455 →
  reads (read_item (IString s)) (enc_item (IString s)) (IString s).
Proof.
  intros Hs. pose proof (zlen_nonneg s). cbn [read_item enc_item].
  destruct (store_nul (zrepeat 0 (zlen s + 1)) s) as (o1&o2&E1&E2&E3&_);
    [rewrite zlen_zrepeat; lia|].
  eapply reads_then with (a := (o2, zlen s)); [|simpl; rewrite E3; apply reads_ret].
  apply (reads_bind _ [AMF3_STRING] _ _ _ _ (reads3_u8 _)). apply reads_guard; [done|].
  eapply reads_bind; [apply reads_u29; unfold is_u29; lia|].
  rewrite shiftr_div, land_1 by lia.
  replace ((zlen s * 2 + 1) / 2 ^ 1) with (zlen s) by divlia.
  replace ((zlen s * 2 + 1) mod 2) with 1 by divlia.
  apply reads_guard; [done|]. apply reads_guard; [rewrite zlen_zrepeat; lia|].
  eapply reads_then; [by apply reads_map_err, reads_read|].
  eapply reads_lift; [exact E1|]. eapply reads_lift; [exact E2|]. apply reads_ret.
Qed.

Lemma reads_item i : item_ok i → reads (read_item i) (enc_item i) i.
Proof.
  destruct i as [|v|bits|s]; intros Hi; [..|by apply reads_string, Hi]; cbn [read_item enc_item].
  - eapply reads_then; [|apply reads_ret]. eapply reads_then; [apply reads3_u8|]. by intros l.
  - apply (reads_bind _ [_] _ _ _ _ (reads3_u8 _)). apply reads_guard; [done|].
    eapply reads_then; [by apply reads_u29|apply reads_ret].
  - apply (reads_bind _ [_] _ _ _ _ (reads3_u8 _)). apply reads_guard; [done|].
    eapply reads_then; [|apply reads_ret].
    eapply reads_then; [by apply reads_map_err, reads_read|]. rewrite be64_roundtrip by done. by intros l.
Qed.

Lemma reads_items xs : Forall item_ok xs → reads (read_items xs) (concat (enc_item <$> xs)) xs.
Proof.
  induction 1 as [|i xs Hi _ IH]; [apply reads_ret|]. simpl.
  eapply reads_bind; [by apply reads_item|]. eapply reads_then; [apply IH|apply reads_ret].
Qed.

(** AMF3 round trip: any sequence of nulls, 29-bit integers, doubles and
    strings written with the [write_*] functions into an empty buffer with room
    for it is read back, in order, as the same values, with nothing left over. *)
Theorem amf3_roundtrip xs b : Forall item_ok xs → Buffer.wf b → Buffer.contents b = [] →
  zlen (concat (enc_item <$> xs)) ≤ Buffer.limit b →
  ∃ b1 b2, write_items xs b = (Ok tt, b1) ∧ Buffer.contents b1 = concat (enc_item <$> xs)
    ∧ read_items xs b1 = (Ok xs, b2) ∧ Buffer.contents b2 = [].
Proof.
  intros Hx. eapply reads_back; [by apply emits_items|apply sim_read_items|by apply reads_items|].
  by apply bytes_ok_items.
Qed.

Lemma amf3_roundtrip_witness :
  ∃ b1 b2, write_items [IInteger 300; INull; IString [104; 105]] Buffer.new = (Ok tt, b1)
    ∧ Buffer.contents b1 = [4; 130; 44; 1; 6; 5; 104; 105]
    ∧ read_items [IInteger 300; INull; IString [104; 105]] b1
      = (Ok [IInteger 300; INull; IString [104; 105]], b2) ∧ Buffer.contents b2 = [].
Proof.
  apply (amf3_roundtrip [IInteger 300; INull; IString [104; 105]] Buffer.new);
    [|apply Buffer.wf_new|done|by vm_compute].
  repeat constructor; unfold is_u29; try done; ulia.
Defined.
End Amf3.
