(* ===== verification/SharedObject.v ===== *)
(** The shared object envelope, src/message/shared_object.rs: a named, versioned
    header and a sequence of events with opaque payloads. *)
From S2P Require Import Prelude Bytes Buffer Source Types Amf0.

Module SharedObject.

Definition MAX_SO_NAME_BYTES : Z := 256.
Definition MAX_SO_EVENTS : Z := 256.
Definition MAX_SO_EVENT_DATA_BYTES : Z := 64 * 1024.

Inductive SharedObjectEventType : Type :=
  | Use | Release | RequestChange | Change | Success | SendMessage | Status | Clear | Remove
  | RequestRemove | UseSuccess | Unknown (b : Z).

Definition from_byte (b : Z) : SharedObjectEventType :=
  if b =? 1 then Use else if b =? 2 then Release else if b =? 3 then RequestChange else
  if b =? 4 then Change else if b =? 5 then Success else if b =? 6 then SendMessage else
  if b =? 7 then Status else if b =? 8 then Clear else if b =? 9 then Remove else
  if b =? 10 then RequestRemove else if b =? 11 then UseSuccess else Unknown b.

Definition to_byte (t : SharedObjectEventType) : Z :=
  match t with
  | Use => 1 | Release => 2 | RequestChange => 3 | Change => 4 | Success => 5 | SendMessage => 6
  | Status => 7 | Clear => 8 | Remove => 9 | RequestRemove => 10 | UseSuccess => 11
  | Unknown b => b
  end.

Record SharedObjectEvent : Type := mkEvent { event_type : SharedObjectEventType; event_data : bytes }.

Record SharedObjectMessage : Type := mkShared {
  so_name : bytes;
  so_version : Z;
  so_flags : Z;
  so_events : list SharedObjectEvent;
}.

Definition is_persistent (m : SharedObjectMessage) : bool := so_flags m =? 2.

Section decoder.
Context {S : Type} `{Source S}.

Definition read_u16 : ST S Z := map_err Amf Amf0.read_u16.
Definition read_u32 : ST S Z := map_err Amf Amf0.read_u32.

(** A length field's worth of bytes: at most [max], and all of them there. *)
Definition read_sized (len max : Z) : ST S bytes :=
  avail ← available_st;
  guard_st ((max <? len) || (avail <? len)) Amf;;
  map_err Amf (src_read len).

(** The loop [while buf.available() > 0], with the events read so far. *)
Fixpoint parse_events (fuel : nat) (events : list SharedObjectEvent)
    : ST S (list SharedObjectEvent) :=
  match fuel with
  | O => lift Panic
  | Datatypes.S fuel =>
      avail ← available_st;
      if avail <=? 0 then mret events else
      guard_st (MAX_SO_EVENTS <=? zlen events) Amf;;
      ty_byte ← map_err Amf (src_read 1);
      b ← lift (zidx ty_byte 0);
      event_len ← read_u32;
      d ← read_sized event_len MAX_SO_EVENT_DATA_BYTES;
      parse_events fuel (events ++ [mkEvent (from_byte b) d])
  end.

Definition parse_body : ST S SharedObjectMessage :=
  name_len ← read_u16;
  name ← read_sized name_len MAX_SO_NAME_BYTES;
  guard_st (negb (utf8_valid name)) Amf;;
  version ← read_u32;
  flags ← read_u32;
  read_u32;;
  events ← parse_events 257 [];
  mret (mkShared name version flags events).
End decoder.

Definition parse (data : bytes) : Res SharedObjectMessage := fst (parse_body (Buffer.from_slice data)).

Fixpoint write_events (es : list SharedObjectEvent) : ST Buffer unit :=
  match es with
  | [] => mret tt
  | e :: es =>
      guard_st (MAX_SO_EVENT_DATA_BYTES <? zlen (event_data e)) Amf;;
      put [to_byte (event_type e)];;
      put (to_be_bytes32 (as_u32 (zlen (event_data e))));;
      put (event_data e);;
      write_events es
  end.

Definition write (msg : SharedObjectMessage) : ST Buffer unit :=
  guard_st (MAX_SO_NAME_BYTES <? zlen (so_name msg)) Amf;;
  guard_st (MAX_SO_EVENTS <? zlen (so_events msg)) Amf;;
  put (to_be_bytes16 (as_u16 (zlen (so_name msg))));;
  put (so_name msg);;
  put (to_be_bytes32 (so_version msg));;
  put (to_be_bytes32 (so_flags msg));;
  put (to_be_bytes32 0);;
  write_events (so_events msg).

(** * What is written is what is read *)

Definition msg_ok (m : SharedObjectMessage) : Prop :=
  bytes_ok (so_name m) ∧ utf8_valid (so_name m) = true ∧ is_u32 (so_version m) ∧ is_u32 (so_flags m)
  ∧ Forall (λ e, is_u8 (to_byte (event_type e)) ∧ bytes_ok (event_data e)) (so_events m).

(** The limits a reader imposes, which [write] checks as well. *)
Definition fits (m : SharedObjectMessage) : Prop :=
  zlen (so_name m) ≤ MAX_SO_NAME_BYTES ∧ zlen (so_events m) ≤ MAX_SO_EVENTS
  ∧ Forall (λ e, zlen (event_data e) ≤ MAX_SO_EVENT_DATA_BYTES) (so_events m).

(** A type byte the protocol names is decoded to its name. *)
Definition named (e : SharedObjectEvent) : SharedObjectEvent :=
  mkEvent (from_byte (to_byte (event_type e))) (event_data e).
Definition canonical (m : SharedObjectMessage) : SharedObjectMessage :=
  mkShared (so_name m) (so_version m) (so_flags m) (named <$> so_events m).

Definition enc_event (e : SharedObjectEvent) : bytes :=
  to_byte (event_type e) :: to_be_bytes32 (zlen (event_data e)) ++ event_data e.
Definition enc_head (m : SharedObjectMessage) (reserved : Z) : bytes :=
  to_be_bytes16 (zlen (so_name m)) ++ so_name m ++ to_be_bytes32 (so_version m)
  ++ to_be_bytes32 (so_flags m) ++ to_be_bytes32 reserved.
Definition enc (m : SharedObjectMessage) (reserved : Z) : bytes :=
  enc_head m reserved ++ concat (enc_event <$> so_events m).

Lemma from_to_byte b : to_byte (from_byte b) = b.
Proof. unfold from_byte. by repeat (case_match; [simpl; lia|]). Qed.

Lemma sim_u16 : sim is_u16 read_u16 read_u16.
Proof. apply sim_map_err, Amf0.sim_read_u16. Qed.
Lemma sim_u32 : sim is_u32 read_u32 read_u32.
Proof. apply sim_map_err, Amf0.sim_read_u32. Qed.

Lemma sim_sized len max : 0 ≤ len → sim bytes_ok (read_sized len max) (read_sized len max).
Proof.
  intros Hl. eapply sim_bind; [apply sim_available|]. intros a _.
  eapply sim_bind; [by apply (sim_guard (λ _, True))|]. intros _ _.
  eapply sim_map_err, sim_weaken; [by apply sim_read|]. by intros d [].
Qed.

Lemma sim_events fuel es : MAX_SO_EVENTS - zlen es < Z.of_nat fuel → zlen es ≤ MAX_SO_EVENTS →
  sim (λ _, True) (parse_events fuel es) (parse_events fuel es).
Proof.
  induction fuel as [|fuel IH] in es |- *; intros Hf Hm; [lia|]. cbn [parse_events].
  eapply sim_bind; [apply sim_available|]. intros a _.
  case_match; [by apply sim_ret|].
  eapply (sim_bind (λ _, zlen es < MAX_SO_EVENTS)); [apply sim_guard; lia|]. intros _ He.
  eapply sim_bind; [apply sim_map_err, sim_read; lia|]. intros d [Hd Ho].
  eapply sim_bind; [apply sim_zidx; [done|lia]|]. intros t _.
  eapply sim_bind; [apply sim_u32|]. intros n Hn.
  eapply sim_bind; [apply sim_sized; ulia|]. intros x _.
  apply IH; rewrite zlen_app; unfold zlen at 2; simpl; lia.
Qed.

Lemma sim_parse_body : sim (λ _, True) parse_body parse_body.
Proof.
  eapply sim_bind; [apply sim_u16|]. intros n Hn.
  eapply sim_bind; [apply sim_sized; ulia|]. intros nm _.
  eapply sim_bind; [by apply (sim_guard (λ _, True))|]. intros _ _.
  do 3 (eapply sim_bind; [apply sim_u32|]; intros ? _).
  eapply sim_bind; [apply sim_events; by vm_compute|]. intros es _. by apply sim_ret.
Qed.

Lemma sized_app d max l : zlen d ≤ max → read_sized (zlen d) max (d ++ l) = (Ok d, l).
Proof.
  intros H. unfold read_sized. erewrite bind_ok; [|done]. cbv [src_available list_source].
  rewrite guard_pass by (rewrite zlen_app; zlia). apply map_err_ok. by apply src_read_app.
Qed.

Lemma zlen_u32 (d : bytes) : zlen d < 4294967296 → is_u32 (zlen d).
Proof. intros. split; zlia. Qed.

Lemma events_app es : ∀ fuel acc, (length es < fuel)%nat → zlen acc + zlen es ≤ MAX_SO_EVENTS →
  Forall (λ e, is_u8 (to_byte (event_type e)) ∧ bytes_ok (event_data e)) es →
  Forall (λ e, zlen (event_data e) ≤ MAX_SO_EVENT_DATA_BYTES) es →
  parse_events fuel acc (concat (enc_event <$> es)) = (Ok (acc ++ (named <$> es)), []).
Proof.
  induction es as [|e es IH]; intros [|fuel] acc Hf Hc Ho Hl; try (simpl in Hf; lia);
    cbn [parse_events fmap list_fmap concat].
  { by rewrite app_nil_r. }
  apply Forall_cons in Ho as [[Ht Hd] Ho], Hl as [Hl1 Hl]. rewrite zlen_cons in Hc.
  erewrite bind_ok; [|done]. cbv [src_available list_source].
  unfold enc_event at 1 2. rewrite !zlen_app, zlen_cons.
  rewrite (proj2 (Z.leb_gt _ _)) by zlia. rewrite guard_pass by zlia.
  erewrite bind_ok; [|apply map_err_ok, (src_read_app 1 [_]); done].
  erewrite bind_ok; [|done]. cbn [app]; rewrite <- ?app_assoc.
  erewrite bind_ok; [|apply map_err_ok, Amf0.read_u32_app, zlen_u32; unfold MAX_SO_EVENT_DATA_BYTES in *; lia].
  erewrite bind_ok; [|by apply sized_app].
  rewrite IH; [by rewrite <- app_assoc|simpl in Hf; lia| |done..].
  rewrite zlen_app, zlen_cons. zlia.
Qed.

Lemma parse_enc m r : msg_ok m → fits m → is_u32 r → bytes_ok (enc m r) →
  parse (enc m r) = Ok (canonical m).
Proof.
  intros (Hn&Hu&Hv&Hf&He) (Ln&Le&Ld) Hr Hb. unfold parse.
  destruct (sim_from_slice _ _ _ _ sim_parse_body Hb) as [-> _].
  unfold parse_body, enc, enc_head, MAX_SO_NAME_BYTES in *. rewrite <- !app_assoc.
  erewrite bind_ok; [|apply map_err_ok, Amf0.read_u16_app; split; zlia].
  erewrite bind_ok; [|by apply sized_app]. rewrite Hu. cbn [negb].
  rewrite guard_pass by done.
  do 3 (erewrite bind_ok; [|by apply map_err_ok, Amf0.read_u32_app]).
  erewrite bind_ok; [done|]. rewrite events_app; [done| |by rewrite zlen_nil|done..].
  unfold MAX_SO_EVENTS, zlen in Le. lia.
Qed.

Lemma emits_events es : Forall (λ e, zlen (event_data e) ≤ MAX_SO_EVENT_DATA_BYTES) es →
  emits (write_events es) (concat (enc_event <$> es)).
Proof.
  induction 1 as [|e es H _ IH]; cbn [write_events fmap list_fmap concat]; [apply emits_nil|].
  apply emits_guard; [lia|]. unfold enc_event at 1. cbn [app]; rewrite <- ?app_assoc.
  rewrite as_u32_id by (apply zlen_u32; unfold MAX_SO_EVENT_DATA_BYTES in H; lia).
  apply (emits_bind _ [_]); [apply emits_put|].
  apply emits_bind; [apply emits_put|]. by apply emits_bind; [apply emits_put|].
Qed.

Lemma emits_message m : fits m → emits (write m) (enc m 0).
Proof.
  intros (Hn&He&Hd). unfold write, enc, enc_head, MAX_SO_NAME_BYTES in *.
  rewrite as_u16_id by (split; zlia). rewrite <- !app_assoc.
  do 2 (apply emits_guard; [lia|]).
  do 5 (apply emits_bind; [apply emits_put|]). by apply emits_events.
Qed.

Lemma enc_bytes m r : msg_ok m → bytes_ok (enc m r).
Proof.
  intros (Hn&_&_&_&He). unfold enc, enc_head, bytes_ok. rewrite !Forall_app.
  assert (bytes_ok (concat (enc_event <$> so_events m))).
  { induction He as [|e es [Ht Hd] _ IH]; cbn [fmap list_fmap concat]; [constructor|].
    apply Forall_app; split; [|done]. constructor; [done|].
    apply Forall_app; split; [apply bytes_ok_be32|done]. }
  split; [|done]. split; [apply bytes_ok_be16|]. split; [done|].
  split; [|split]; apply bytes_ok_be32.
Qed.

Lemma put_then {A} d (k : ST Buffer A) b : Buffer.wf b →
  zlen (Buffer.contents b) + zlen d ≤ Buffer.limit b → ∃ b', (put d;; k) b = k b' ∧ Buffer.wf b'
    ∧ zlen (Buffer.contents b') = zlen (Buffer.contents b) + zlen d ∧ Buffer.limit b' = Buffer.limit b.
Proof.
  intros Hb Hl. destruct (emits_put d b Hb Hl) as (b'&E&W&C&_&L). exists b'.
  rewrite (bind_ok _ _ _ _ _ E), C, zlen_app. by split_and!.
Qed.

Ltac put_next := lazymatch goal with
  | |- ∃ b', (put ?d ≫= ?k) ?b = _ =>
      let b1 := fresh "b" in let E := fresh "E" in
      destruct (put_then d (k tt) b) as (b1&E&?&?&?); [done|zlia|];
      cbv beta in E; rewrite E; clear E
  end.

(** An event too long is refused when its turn comes. *)
Lemma events_refused es b : Buffer.wf b →
  ¬ Forall (λ e, zlen (event_data e) ≤ MAX_SO_EVENT_DATA_BYTES) es →
  zlen (Buffer.contents b) + zlen (concat (enc_event <$> es)) ≤ Buffer.limit b →
  ∃ b', write_events es b = (Err Amf, b').
Proof.
  induction es as [|e es IH] in b |- *; intros Hb Hn Hl; [by destruct Hn|].
  cbn [write_events fmap list_fmap concat] in *.
  destruct (decide (zlen (event_data e) ≤ MAX_SO_EVENT_DATA_BYTES)) as [He|He].
  2:{ exists b. by rewrite guard_refuse by lia. }
  rewrite guard_pass by lia. unfold enc_event in Hl at 1. rewrite !zlen_app, zlen_cons in Hl.
  do 3 put_next. apply IH; [done| |zlia]. intros H'. apply Hn. by constructor.
Qed.

(** C31. A shared object message within the limits of the envelope is written
    as its encoding, and parsing that encoding gives the message back, with the
    event types the protocol names under their names; one beyond a limit is
    refused with the AMF error, so that nothing is sent a receiver would have to
    cut. *)
Theorem shared_object_roundtrip m b : msg_ok m → Buffer.wf b → Buffer.contents b = [] →
  zlen (enc m 0) ≤ Buffer.limit b →
  (fits m → ∃ b', write m b = (Ok tt, b') ∧ Buffer.contents b' = enc m 0
    ∧ parse (Buffer.contents b') = Ok (canonical m))
  ∧ (¬ fits m → ∃ b', write m b = (Err Amf, b')).
Proof.
  intros Hm Hb Hc Hl. split.
  - intros Hf. destruct (emits_message m Hf b Hb) as (b'&E&_&C&_); [rewrite Hc; zlia|].
    exists b'. rewrite C, Hc. split; [done|]. split; [done|]. simpl.
    apply parse_enc; [done..|ulia|by apply enc_bytes].
  - intros Hf. unfold write.
    destruct (decide (zlen (so_name m) ≤ MAX_SO_NAME_BYTES)) as [Hn|Hn];
      [rewrite guard_pass by lia|rewrite guard_refuse by lia; by exists b].
    destruct (decide (zlen (so_events m) ≤ MAX_SO_EVENTS)) as [He|He];
      [rewrite guard_pass by lia|rewrite guard_refuse by lia; by exists b].
    unfold enc, enc_head in Hl. rewrite !zlen_app in Hl.
    assert (zlen (Buffer.contents b) = 0) by by rewrite Hc.
    do 5 put_next. apply events_refused; [done| |zlia]. intros Hx. by apply Hf.
Qed.

Lemma shared_object_roundtrip_witness :
  ∃ b', write (mkShared (text "chat") 3 2 [mkEvent Use []; mkEvent (Unknown 4) [7; 8]]) Buffer.new
    = (Ok tt, b')
    ∧ parse (Buffer.contents b') = Ok (mkShared (text "chat") 3 2 [mkEvent Use []; mkEvent Change [7; 8]]).
Proof.
  destruct (shared_object_roundtrip
    (mkShared (text "chat") 3 2 [mkEvent Use []; mkEvent (Unknown 4) [7; 8]]) Buffer.new) as [H _];
    [split_and!; [bytes_lit|done|by vm_compute..|]; simpl;
       repeat (apply Forall_cons; split; [split; [split; by vm_compute|bytes_lit]|]); apply Forall_nil_2
    |apply Buffer.wf_new|apply Buffer.contents_new|by vm_compute|].
  destruct H as (b'&E&_&P).
  { split_and!; [by vm_compute..|]. repeat (apply Forall_cons; split; [by vm_compute|]).
    apply Forall_nil_2. }
  exists b'. split; [exact E|]. rewrite P. reflexivity.
Defined.

End SharedObject.
