(* ===== verification/Sha256.v ===== *)
(** SHA-256 and HMAC-SHA256, src/sha256.rs: the incremental hasher against the
    one-shot definition of FIPS 180-4 and RFC 2104. *)
From S2P Require Import Prelude Bytes.

Module Sha256.

Definition K : list Z :=
  [1116352408; 1899447441; 3049323471; 3921009573; 961987163; 1508970993;
   2453635748; 2870763221; 3624381080; 310598401; 607225278; 1426881987;
   1925078388; 2162078206; 2614888103; 3248222580; 3835390401; 4022224774;
   264347078; 604807628; 770255983; 1249150122; 1555081692; 1996064986;
   2554220882; 2821834349; 2952996808; 3210313671; 3336571891; 3584528711;
   113926993; 338241895; 666307205; 773529912; 1294757372; 1396182291;
   1695183700; 1986661051; 2177026350; 2456956037; 2730485921; 2820302411;
   3259730800; 3345764771; 3516065817; 3600352804; 4094571909; 275423344;
   430227734; 506948616; 659060556; 883997877; 958139571; 1322822218;
   1537002063; 1747873779; 1955562222; 2024104815; 2227730452; 2361852424;
   2428436474; 2756734187; 3204031479; 3329325298].

Definition H0 : list Z :=
  [1779033703; 3144134277; 1013904242; 2773480762; 1359893119; 2600822924;
   528734635; 1541459225].

(** [u32] operations. *)
Definition rotate_right (x n : Z) : Z := (x >> n) .| (x <<32 (32 - n)).
Definition not32 (x : Z) : Z := 4294967295 - x.

(** [w[i]] and [K[i]] at an index below the array length. *)
Definition at_ (l : list Z) (i : Z) : Z := default 0 (zget l i).

(** The first loop of [compress]: the sixteen words of the block. *)
Fixpoint words (n : nat) (l : bytes) : list Z :=
  match n with
  | O => []
  | S n => from_be_bytes32 (at_ l 0) (at_ l 1) (at_ l 2) (at_ l 3) :: words n (zdrop 4 l)
  end.

(** The second loop, which sets [w[i]] from earlier words; [w] has length [i]. *)
Definition next_word (w : list Z) (i : Z) : Z :=
  let a := at_ w (i - 15) in
  let b := at_ w (i - 2) in
  let s0 := Z.lxor (Z.lxor (rotate_right a 7) (rotate_right a 18)) (a >> 3) in
  let s1 := Z.lxor (Z.lxor (rotate_right b 17) (rotate_right b 19)) (b >> 10) in
  wrapping_add32 (wrapping_add32 (wrapping_add32 (at_ w (i - 16)) s0) (at_ w (i - 7))) s1.

Definition schedule (block : bytes) : list Z :=
  foldl (λ w i, w ++ [next_word w i]) (words 16 block) (seqZ 16 48).

Definition vars : Type := Z * Z * Z * Z * Z * Z * Z * Z.

Definition round (w : list Z) (v : vars) (i : Z) : vars :=
  let '(a, b, c, d, e, f, g, h) := v in
  let s1 := Z.lxor (Z.lxor (rotate_right e 6) (rotate_right e 11)) (rotate_right e 25) in
  let ch := Z.lxor (e .& f) (not32 e .& g) in
  let t1 := wrapping_add32 (wrapping_add32 (wrapping_add32 (wrapping_add32 h s1) ch) (at_ K i))
              (at_ w i) in
  let s0 := Z.lxor (Z.lxor (rotate_right a 2) (rotate_right a 13)) (rotate_right a 22) in
  let maj := Z.lxor (Z.lxor (a .& b) (a .& c)) (b .& c) in
  let t2 := wrapping_add32 s0 maj in
  (wrapping_add32 t1 t2, a, b, c, wrapping_add32 d t1, e, f, g).

Definition compress (state : list Z) (block : bytes) : list Z :=
  let w := schedule block in
  let v0 := (at_ state 0, at_ state 1, at_ state 2, at_ state 3,
             at_ state 4, at_ state 5, at_ state 6, at_ state 7) in
  let '(a, b, c, d, e, f, g, h) := foldl (round w) v0 (seqZ 0 64) in
  zip_with wrapping_add32 state [a; b; c; d; e; f; g; h].

Record Sha256 : Type := mkSha {
  state : list Z;
  block : bytes;
  block_len : Z;
  total_len : Z;
}.

Definition new : Sha256 := mkSha H0 (zrepeat 0 64) 0 0.

(** The loop over [data.chunks_exact(64)] and its remainder. *)
Fixpoint absorb_fuel (fuel : nat) (st : list Z) (data : bytes) : list Z * bytes :=
  match fuel with
  | O => (st, data)
  | S fuel =>
      if zlen data <? 64 then (st, data)
      else absorb_fuel fuel (compress st (ztake 64 data)) (zdrop 64 data)
  end.
Definition absorb (st : list Z) (data : bytes) : list Z * bytes :=
  absorb_fuel (length data) st data.

(** The part of [update] after the pending block has been dealt with. *)
Definition update_blocks (data : bytes) (h : Sha256) : Res Sha256 :=
  let '(st, rest) := absorb (state h) data in
  blk ← copy_at (block h) 0 rest;
  Ok (mkSha st blk (zlen rest) (total_len h)).

Definition update (data : bytes) (h : Sha256) : Res Sha256 :=
  let h := mkSha (state h) (block h) (block_len h) (as_u64 (total_len h + zlen data)) in
  if 0 <? block_len h then
    let take := Z.min (64 - block_len h) (zlen data) in
    d ← slice data 0 take;
    blk ← copy_at (block h) (block_len h) d;
    let len := block_len h + take in
    data ← slice data take (zlen data);
    if len <? 64 then Ok (mkSha (state h) blk len (total_len h))
    else update_blocks data (mkSha (compress (state h) blk) blk 0 (total_len h))
  else update_blocks data h.

(** The loop storing the state words big-endian. *)
Definition digest_bytes (st : list Z) : bytes := concat (to_be_bytes32 <$> st).

Definition finalize (h : Sha256) : Res bytes :=
  let bit_len := as_u64 (total_len h * 8) in
  let pad := 128 :: zrepeat 0 71 in
  let pad_len := if block_len h <? 56 then 56 - block_len h else 120 - block_len h in
  p ← slice pad 0 pad_len;
  h ← update p h;
  h ← update (to_be_bytes64 bit_len) h;
  Ok (digest_bytes (state h)).

Definition update_all (parts : list bytes) (h : Sha256) : Res Sha256 :=
  foldl (λ acc p, h ← acc; update p h) (Ok h) parts.

Definition sha256 (parts : list bytes) : Res bytes :=
  h ← update_all parts new; finalize h.

Definition xor_key (pad : Z) (k : bytes) : bytes := (λ x, Z.lxor pad x) <$> k.

Definition hmac_sha256 (key : bytes) (parts : list bytes) : Res bytes :=
  let k := zrepeat 0 64 in
  k ← (if 64 <? zlen key then d ← sha256 [key]; copy_at k 0 d else copy_at k 0 key);
  inner ← update (xor_key 54 k) new;
  inner ← update_all parts inner;
  inner ← finalize inner;
  outer ← update (xor_key 92 k) new;
  outer ← update inner outer;
  finalize outer.

(** * The one-shot definition *)

(** Padding of FIPS 180-4, 5.1.1: a one bit, zeros up to 56 modulo 64, and the
    length in bits. *)
Definition padded (m : bytes) : bytes :=
  m ++ 128 :: zrepeat 0 ((55 - zlen m) mod 64) ++ to_be_bytes64 (as_u64 (zlen m * 8)).

Definition sha_spec (m : bytes) : bytes := digest_bytes (absorb H0 (padded m)).1.

(** RFC 2104. *)
Definition hmac_key (key : bytes) : bytes :=
  let k := if 64 <? zlen key then sha_spec key else key in k ++ zrepeat 0 (64 - zlen k).

Definition hmac_spec (key m : bytes) : bytes :=
  sha_spec (xor_key 92 (hmac_key key) ++ sha_spec (xor_key 54 (hmac_key key) ++ m)).

(** * Absorbing blocks *)

Lemma absorb_fuel_enough f g st d : (length d <= f)%nat → (length d <= g)%nat →
  absorb_fuel f st d = absorb_fuel g st d.
Proof.
  revert g st d. induction f as [|f IH]; intros g st d Hf Hg.
  - destruct d; [|simpl in Hf; lia]. by destruct g.
  - destruct g as [|g]; [destruct d; [done|simpl in Hg; lia]|]. simpl.
    destruct (Z.ltb_spec (zlen d) 64); [done|].
    apply IH; unfold zdrop, zlen in *; rewrite length_drop; lia.
Qed.

Lemma absorb_eq st d :
  absorb st d = if zlen d <? 64 then (st, d) else absorb (compress st (ztake 64 d)) (zdrop 64 d).
Proof.
  unfold absorb. destruct (length d) as [|n] eqn:E.
  { destruct d; [done|simpl in E; lia]. }
  cbn [absorb_fuel]. destruct (Z.ltb_spec (zlen d) 64); [done|].
  apply absorb_fuel_enough; unfold zdrop; rewrite length_drop; lia.
Qed.

Lemma absorb_short st d : zlen d < 64 → absorb st d = (st, d).
Proof. intros. rewrite absorb_eq. by rewrite (proj2 (Z.ltb_lt _ _)). Qed.

Lemma absorb_app st m d :
  absorb st (m ++ d) = let '(s, r) := absorb st m in absorb s (r ++ d).
Proof.
  remember (length m) as n eqn:En. revert st m En. induction (lt_wf n) as [n _ IH].
  intros st m ->. rewrite (absorb_eq st m). destruct (Z.ltb_spec (zlen m) 64); [done|].
  rewrite <- (IH (length (zdrop 64 m))); [|unfold zdrop, zlen in *; rewrite length_drop; lia|done].
  rewrite absorb_eq, (proj2 (Z.ltb_ge _ _)) by zlia.
  by rewrite ztake_app_l, zdrop_app_l by lia.
Qed.

Lemma absorb_rest st m : zlen (absorb st m).2 = zlen m mod 64.
Proof.
  remember (length m) as n eqn:En. revert st m En. induction (lt_wf n) as [n _ IH].
  intros st m ->. rewrite absorb_eq. destruct (Z.ltb_spec (zlen m) 64).
  { simpl. rewrite Z.mod_small; zlia. }
  rewrite (IH (length (zdrop 64 m))); [|unfold zdrop, zlen in *; rewrite length_drop; lia|done].
  replace (zlen (zdrop 64 m)) with (zlen m - 64) by zlia. divlia.
Qed.

(** * The hasher's state after a message *)

Record represents (h : Sha256) (m : bytes) : Prop := {
  rp_absorbed : absorb H0 m = (state h, ztake (block_len h) (block h));
  rp_len : 0 ≤ block_len h < 64;
  rp_block : zlen (block h) = 64;
  rp_total : total_len h = as_u64 (zlen m);
}.

Lemma represents_new : represents new [].
Proof. by constructor. Qed.

Lemma update_blocks_ok d h m : absorb (state h) d = absorb H0 m → zlen (block h) = 64 →
  total_len h = as_u64 (zlen m) → ∃ h', update_blocks d h = Ok h' ∧ represents h' m.
Proof.
  intros E Hb Ht. unfold update_blocks. destruct (absorb (state h) d) as [st rest] eqn:Ea.
  assert (zlen rest < 64) as Hr.
  { change rest with (st, rest).2. rewrite <- Ea, absorb_rest. apply Z.mod_pos_bound. lia. }
  rewrite copy_at_ok by zlia. eexists. split; [done|].
  constructor; simpl; [|zlia| |done].
  - by rewrite <- E, ztake_app_exact.
  - rewrite zlen_app, zlen_zdrop. zlia.
Qed.

Lemma update_ok d h m : represents h m → ∃ h', update d h = Ok h' ∧ represents h' (m ++ d).
Proof.
  intros [Ha Hl Hb Ht]. unfold update.
  assert (as_u64 (total_len h + zlen d) = as_u64 (zlen (m ++ d))) as Ht'.
  { rewrite Ht, zlen_app. unfold as_u64. apply Zplus_mod_idemp_l. }
  pose proof (absorb_app H0 m d) as Hm. rewrite Ha in Hm.
  cbn [block_len state block total_len].
  set (r := ztake (block_len h) (block h)) in *.
  assert (zlen r = block_len h) as Hr by (unfold r; zlia). pose proof (zlen_nonneg d).
  destruct (Z.ltb_spec 0 (block_len h)) as [Hp|Hp].
  2: { apply update_blocks_ok; [|done..]. simpl.
       rewrite Hm. by rewrite (zlen_0_nil r) by lia. }
  set (take := Z.min (64 - block_len h) (zlen d)).
  rewrite slice_prefix by (unfold take; lia). cbn [mbind Res_bind].
  assert (zlen (ztake take d) = take) as Hk by (unfold take; zlia).
  rewrite copy_at_ok by (unfold take in *; lia). cbn [mbind Res_bind].
  rewrite slice_suffix by (unfold take; lia). cbn [mbind Res_bind].
  rewrite Hk. fold r. destruct (Z.ltb_spec (block_len h + take) 64) as [Hs|Hs].
  - replace (ztake take d) with d by (symmetry; apply ztake_all; unfold take in *; lia).
    assert (take = zlen d) as -> by (unfold take in *; lia).
    eexists. split; [done|]. constructor; simpl; [|lia| |done].
    + rewrite Hm, absorb_short by zlia. f_equal. rewrite app_assoc.
      replace (block_len h + zlen d) with (zlen (r ++ d)) by zlia. by rewrite ztake_app_exact.
    + rewrite !zlen_app, zlen_zdrop. lia.
  - assert (take = 64 - block_len h) as Et by (unfold take in *; lia).
    rewrite (zdrop_all (block_len h + take)), app_nil_r by lia.
    apply update_blocks_ok; simpl; [| |done].
    + rewrite Hm, (absorb_eq _ (r ++ d)), (proj2 (Z.ltb_ge _ _)) by (rewrite zlen_app; lia).
      rewrite ztake_app_r, zdrop_app_r by lia. by rewrite Hr, <- Et.
    + rewrite zlen_app. lia.
Qed.

Lemma update_all_ok parts h m : represents h m →
  ∃ h', update_all parts h = Ok h' ∧ represents h' (m ++ concat parts).
Proof.
  unfold update_all. revert h m. induction parts as [|p parts IH]; intros h m Hm; simpl.
  { exists h. by rewrite app_nil_r. }
  destruct (update_ok p h m Hm) as (h'&->&H'). rewrite app_assoc. by apply IH.
Qed.

Lemma finalize_ok h m : represents h m → finalize h = Ok (sha_spec m).
Proof.
  intros Hm. pose proof Hm as [Ha Hl Hb Ht]. unfold finalize.
  set (pad_len := if block_len h <? 56 then _ else _).
  assert (block_len h = zlen m mod 64) as Hbl.
  { rewrite <- (absorb_rest H0 m), Ha. simpl. zlia. }
  assert (pad_len = 1 + (55 - zlen m) mod 64) as Hp.
  { unfold pad_len. destruct (Z.ltb_spec (block_len h) 56); divlia. }
  pose proof (Z.mod_pos_bound (55 - zlen m) 64 ltac:(lia)).
  rewrite slice_prefix by (rewrite ?Hp, ?zlen_cons, ?zlen_zrepeat; lia). cbn [mbind Res_bind].
  rewrite Hp. replace (ztake (1 + (55 - zlen m) mod 64) (128 :: zrepeat 0 71))
    with (128 :: zrepeat 0 ((55 - zlen m) mod 64)).
  2: { rewrite (ztake_app_r _ [128] (zrepeat 0 71)) by (change (zlen [128]) with 1; lia).
       change (zlen [128]) with 1. rewrite Z.add_simpl_l. simpl. f_equal. symmetry.
       unfold ztake, zrepeat. rewrite take_replicate. f_equal. lia. }
  destruct (update_ok (128 :: zrepeat 0 ((55 - zlen m) mod 64)) h m Hm) as (h1&->&H1).
  cbn [mbind Res_bind].
  destruct (update_ok (to_be_bytes64 (as_u64 (total_len h * 8))) h1 _ H1) as (h2&->&H2).
  cbn [mbind Res_bind]. unfold sha_spec. do 2 f_equal.
  replace (padded m) with ((m ++ 128 :: zrepeat 0 ((55 - zlen m) mod 64))
    ++ to_be_bytes64 (as_u64 (total_len h * 8))).
  { by rewrite (rp_absorbed _ _ H2). }
  unfold padded. rewrite <- app_assoc. simpl. do 4 f_equal. rewrite Ht. unfold as_u64.
  by rewrite Zmult_mod_idemp_l.
Qed.

Lemma absorb_words st m : length st = 8%nat → length (absorb st m).1 = 8%nat.
Proof.
  remember (length m) as n eqn:En. revert st m En. induction (lt_wf n) as [n _ IH].
  intros st m -> Hs. rewrite absorb_eq. destruct (Z.ltb_spec (zlen m) 64); [done|].
  apply (IH (length (zdrop 64 m))); [unfold zdrop, zlen in *; rewrite length_drop; lia|done|].
  unfold compress. destruct (foldl _ _ _) as [[[[[[[a b] c] d] e] f] g] h].
  rewrite length_zip_with, Hs. done.
Qed.

Lemma zlen_digest st : zlen (digest_bytes st) = 4 * zlen st.
Proof.
  unfold digest_bytes. induction st as [|x st IH]; [done|]. rewrite fmap_cons. simpl.
  rewrite !zlen_cons. lia.
Qed.

Lemma zlen_sha_spec m : zlen (sha_spec m) = 32.
Proof.
  unfold sha_spec. rewrite zlen_digest. unfold zlen. by rewrite absorb_words.
Qed.

Lemma bytes_ok_sha_spec m : bytes_ok (sha_spec m).
Proof.
  unfold sha_spec, digest_bytes. induction (absorb H0 (padded m)).1 as [|x st IH]; [constructor|].
  simpl. apply (Forall_app_2 _ (to_be_bytes32 x)); [apply bytes_ok_be32|done].
Qed.

Lemma sha256_ok parts : sha256 parts = Ok (sha_spec (concat parts)).
Proof.
  unfold sha256. destruct (update_all_ok parts new [] represents_new) as (h&->&Hh).
  by apply finalize_ok.
Qed.

Lemma key_block (k : bytes) : zlen k ≤ 64 → copy_at (zrepeat 0 64) 0 k = Ok (k ++ zrepeat 0 (64 - zlen k)).
Proof.
  intros Hk. pose proof (zlen_nonneg k). rewrite copy_at_ok by (rewrite ?zlen_zrepeat; lia).
  f_equal. rewrite ztake_nonpos by lia. simpl. f_equal. unfold zdrop, zrepeat.
  rewrite drop_replicate. f_equal. lia.
Qed.

(** C18. SHA-256: feeding a message to the hasher in any pieces, with any piece
    lengths, gives the digest of the whole message, padded at once as FIPS 180-4
    says and compressed block by block: padding, block splitting and the
    partial-block buffer never lose, repeat or reorder a byte, and no slice
    operation panics. The digest has 32 bytes. (The compression function of a
    block and its constants are the same on both sides.) *)
Theorem sha256_incremental parts :
  sha256 parts = Ok (sha_spec (concat parts))
  ∧ zlen (sha_spec (concat parts)) = 32 ∧ bytes_ok (sha_spec (concat parts)).
Proof. split_and!; [apply sha256_ok|apply zlen_sha_spec|apply bytes_ok_sha_spec]. Qed.

Lemma hmac_ok key parts : hmac_sha256 key parts = Ok (hmac_spec key (concat parts)).
Proof.
  unfold hmac_sha256. assert ((if 64 <? zlen key then d ← sha256 [key]; copy_at (zrepeat 0 64) 0 d
    else copy_at (zrepeat 0 64) 0 key) = Ok (hmac_key key)) as ->.
  { unfold hmac_key. destruct (Z.ltb_spec 64 (zlen key)).
    - rewrite sha256_ok. simpl concat. rewrite app_nil_r. apply key_block. by rewrite zlen_sha_spec.
    - by apply key_block. }
  cbn [mbind Res_bind].
  destruct (update_ok (xor_key 54 (hmac_key key)) new [] represents_new) as (h1&->&H1).
  cbn [mbind Res_bind]. destruct (update_all_ok parts h1 _ H1) as (h2&->&H2). cbn [mbind Res_bind].
  rewrite (finalize_ok _ _ H2). cbn [mbind Res_bind].
  destruct (update_ok (xor_key 92 (hmac_key key)) new [] represents_new) as (h3&->&H3).
  cbn [mbind Res_bind].
  destruct (update_ok (sha_spec (([] ++ xor_key 54 (hmac_key key)) ++ concat parts)) h3 _ H3)
    as (h4&->&H4).
  cbn [mbind Res_bind]. by rewrite (finalize_ok _ _ H4).
Qed.

(** HMAC-SHA256: for every key length and every way of cutting the message
    into parts, [hmac_sha256] is the RFC 2104 construction over the SHA-256 of
    the whole message, a digest of 32 bytes. *)
Theorem hmac_correct key parts :
  hmac_sha256 key parts = Ok (hmac_spec key (concat parts))
  ∧ zlen (hmac_spec key (concat parts)) = 32.
Proof. split; [apply hmac_ok|apply zlen_sha_spec]. Qed.

(** The FIPS 180-4 test vector for abc. *)
Example sha256_abc : sha256 [[97]; [98; 99]] = Ok
  [186; 120; 22; 191; 143; 1; 207; 234; 65; 65; 64; 222; 93; 174; 34; 35;
   176; 3; 97; 163; 150; 23; 122; 156; 180; 16; 255; 97; 242; 0; 21; 173].
Proof. by vm_compute. Qed.
End Sha256.
