(* ===== verification/Handshake.v ===== *)
(** The RTMP handshake, src/handshake.rs: the plain and the Adobe digest form,
    server and client.  The clock and the counter that seed the random filler
    are parameters of each call. *)
From S2P Require Import Prelude Bytes Buffer Source Sha256.

Definition RTMP_VERSION : Z := 3.
Definition HANDSHAKE_SIZE : Z := 1536.
Definition DIGEST_LEN : Z := 32.

Inductive HandshakeState : Type :=
  | ServerWaitC0 | ServerWaitC1 | ServerWaitC2 | ClientWaitS0 | ClientWaitS1 | ClientWaitS2 | Done.

#[global] Instance HandshakeState_eq_dec : EqDecision HandshakeState.
Proof. solve_decision. Defined.

Record Handshake : Type := mkHs {
  hs_state : HandshakeState;
  hs_version : Z;
  hs_peer_time : Z;
  hs_out : Buffer;
}.

Inductive HandshakeMode : Type := Simple | SimpleFallback | Digest (base : Z).

Module Handshake.

Definition default : Handshake := mkHs ServerWaitC0 0 0 Buffer.new.

Definition is_complete (hs : Handshake) : bool := bool_decide (hs_state hs = Done).

Definition set_state (st : HandshakeState) (hs : Handshake) : Handshake :=
  mkHs st (hs_version hs) (hs_peer_time hs) (hs_out hs).
Definition set_peer_time (t : Z) (hs : Handshake) : Handshake :=
  mkHs (hs_state hs) (hs_version hs) t (hs_out hs).
Definition set_version (v : Z) (hs : Handshake) : Handshake :=
  mkHs (hs_state hs) v (hs_peer_time hs) (hs_out hs).
Definition set_out (b : Buffer) (hs : Handshake) : Handshake :=
  mkHs (hs_state hs) (hs_version hs) (hs_peer_time hs) b.

Definition cleanup (hs : Handshake) : Handshake := set_out (Buffer.reset (hs_out hs)) hs.

(** * The random filler *)

(** What [fill_random] reads from its environment. *)
Record seed : Type := mkSeed { now_secs : Z; now_nanos : Z; counter : Z }.

(** The new generator state and the value. *)
Definition splitmix64 (state : Z) : Z * Z :=
  let state := as_u64 (state + 11400714819323198485) in
  let z := state in
  let z := as_u64 (Z.lxor z (z >> 30) * 13787848793156543929) in
  let z := as_u64 (Z.lxor z (z >> 27) * 10723151780598845931) in
  (state, Z.lxor z (z >> 31)).

(** The [while] loop: [n] bytes, eight from each value. *)
Fixpoint random_bytes (fuel : nat) (state n : Z) : bytes :=
  match fuel with
  | O => []
  | S fuel =>
      if 0 <? n then
        let '(state, r) := splitmix64 state in
        ztake n ((λ b, as_u8 (r >> (b * 8))) <$> [0; 1; 2; 3; 4; 5; 6; 7])
          ++ random_bytes fuel state (n - 8)
      else []
  end.

(** The bytes [fill_random] leaves in a slice of length [n]. *)
Definition fill_random (s : seed) (n : Z) : bytes :=
  let state := Z.lxor (Z.lxor (Z.lxor (now_secs s) (as_u64 (Z.shiftl (now_nanos s) 32)))
                 (as_u64 (counter s * 15111065706836454659))) n in
  random_bytes (Z.to_nat n) state n.

(** * The Adobe digest *)

Definition HANDSHAKE_KEY_TAIL : bytes :=
  [240; 238; 194; 74; 128; 104; 190; 232; 46; 0; 208; 209; 2; 158; 126; 87;
   110; 236; 93; 45; 41; 128; 111; 171; 147; 184; 230; 54; 207; 235; 49; 174].
(** The text Genuine Adobe Flash Player 001. *)
Definition FP_KEY_TEXT : bytes :=
  [71; 101; 110; 117; 105; 110; 101; 32; 65; 100; 111; 98; 101; 32; 70; 108;
   97; 115; 104; 32; 80; 108; 97; 121; 101; 114; 32; 48; 48; 49].
(** The text Genuine Adobe Flash Media Server 001. *)
Definition FMS_KEY_TEXT : bytes :=
  [71; 101; 110; 117; 105; 110; 101; 32; 65; 100; 111; 98; 101; 32; 70; 108;
   97; 115; 104; 32; 77; 101; 100; 105; 97; 32; 83; 101; 114; 118; 101; 114;
   32; 48; 48; 49].
Definition SERVER_DIGEST_VERSION : bytes := [4; 5; 0; 1].
Definition DIGEST_BLOCK_BASES : list Z := [772; 8].

Definition c1_requests_complex_handshake (c1 : bytes) : Res bool :=
  if HANDSHAKE_SIZE <=? zlen c1 then
    b4 ← zidx c1 4; b5 ← zidx c1 5; b6 ← zidx c1 6; b7 ← zidx c1 7;
    Ok (negb (b4 =? 0) || negb (b5 =? 0) || negb (b6 =? 0) || negb (b7 =? 0))
  else Ok false.

Definition digest_offset (buf : bytes) (base : Z) : Res Z :=
  d ← slice buf base (base + 4);
  Ok (base + 4 + sumZ id d mod 728).

Definition digest_without (buf : bytes) (offset : Z) (key : bytes) : Res bytes :=
  a ← slice buf 0 offset;
  b ← slice buf (offset + DIGEST_LEN) (zlen buf);
  Sha256.hmac_sha256 key [a; b].

(** The closure of [find_map] at one base. *)
Definition c1_digest_at (c1 : bytes) (base : Z) : Res (option (Z * bytes)) :=
  off ← digest_offset c1 base;
  expected ← digest_without c1 off FP_KEY_TEXT;
  found ← slice c1 off (off + DIGEST_LEN);
  Ok (if decide (expected = found) then Some (base, found) else None).

Fixpoint find_digest (c1 : bytes) (bases : list Z) : Res (option (Z * bytes)) :=
  match bases with
  | [] => Ok None
  | base :: bases =>
      r ← c1_digest_at c1 base;
      match r with Some x => Ok (Some x) | None => find_digest c1 bases end
  end.

Definition find_c1_digest (c1 : bytes) : Res (option (Z * bytes)) := find_digest c1 DIGEST_BLOCK_BASES.

Definition fms_full_key : Res bytes :=
  k ← copy_at (zrepeat 0 68) 0 FMS_KEY_TEXT;
  copy_at k (zlen FMS_KEY_TEXT) HANDSHAKE_KEY_TAIL.

Definition build_digest_s1s2 (base : Z) (c1_digest : bytes) (server_time : Z) (r1 r2 : seed)
    : Res (bytes * bytes) :=
  s1 ← copy_at (zrepeat 0 HANDSHAKE_SIZE) 8 (fill_random r1 (HANDSHAKE_SIZE - 8));
  s1 ← copy_at s1 0 (to_be_bytes32 server_time);
  s1 ← copy_at s1 4 SERVER_DIGEST_VERSION;
  off ← digest_offset s1 base;
  digest ← digest_without s1 off FMS_KEY_TEXT;
  s1 ← copy_at s1 off digest;
  s2 ← copy_at (zrepeat 0 HANDSHAKE_SIZE) 0 (fill_random r2 HANDSHAKE_SIZE);
  full ← fms_full_key;
  sign_key ← Sha256.hmac_sha256 full [c1_digest];
  let sig_at := HANDSHAKE_SIZE - DIGEST_LEN in
  head ← slice s2 0 sig_at;
  signature ← Sha256.hmac_sha256 sign_key [head];
  s2 ← copy_at s2 sig_at signature;
  Ok (s1, s2).

(** * Calls on a handshake and an input buffer *)

Definition hstate : Type := Handshake * Buffer.
Definition on_in {A} (m : ST Buffer A) : ST hstate A := λ '(hs, b),
  let '(r, b) := m b in (r, (hs, b)).
Definition on_out {A} (m : ST Buffer A) : ST hstate A := λ '(hs, b),
  let '(r, o) := m (hs_out hs) in (r, (set_out o hs, b)).
Definition upd (f : Handshake → Handshake) : ST hstate unit := λ '(hs, b), (Ok tt, (f hs, b)).

(** [if buf.available() < HANDSHAKE_SIZE { return Err(Io) }] and the read. *)
Definition read_block : ST hstate bytes :=
  a ← on_in available_st;
  guard_st (a <? HANDSHAKE_SIZE) Io;;
  map_err Io (on_in (src_read HANDSHAKE_SIZE)).

Definition read_version (next : HandshakeState) : ST hstate unit :=
  ver ← map_err Io (on_in (src_read 1));
  v ← lift (zidx ver 0);
  guard_st (negb (v =? RTMP_VERSION)) Prelude.Handshake;;
  upd (set_version v);; upd (set_state next).

Definition peer_time_of (block : bytes) : ST hstate Z :=
  head ← lift (slice block 0 4); lift (ntoh32 head).

(** ** Server *)

Definition server_init (hs : Handshake) : Handshake := mkHs ServerWaitC0 0 0 (hs_out hs).

Definition server_read_c0 : ST hstate unit := read_version ServerWaitC1.

(** The plain answer: S1 and S2. *)
Definition plain_s1s2 (c1 : bytes) (server_time : Z) (r : seed) : Res (bytes * bytes) :=
  s1 ← copy_at (zrepeat 0 HANDSHAKE_SIZE) 0 (to_be_bytes32 server_time);
  s1 ← copy_at s1 8 (fill_random r (HANDSHAKE_SIZE - 8));
  s2 ← copy_at c1 4 (to_be_bytes32 server_time);
  Ok (s1, s2).

Definition answer_c1 (c1 : bytes) (server_time : Z) (r1 r2 : seed)
    : Res (bytes * bytes * HandshakeMode) :=
  c1_requests_complex_handshake c1 ≫= λ cplx : bool,
  found ← (if cplx then find_c1_digest c1 else Ok None);
  match found with
  | Some (base, c1_digest) =>
      '(s1, s2) ← build_digest_s1s2 base c1_digest server_time r1 r2;
      Ok (s1, s2, Digest base)
  | None =>
      '(s1, s2) ← plain_s1s2 c1 server_time r1;
      Ok (s1, s2, if cplx then SimpleFallback else Simple)
  end.

Definition server_read_c1_mode (server_time : Z) (r1 r2 : seed) : ST hstate HandshakeMode :=
  c1 ← read_block;
  t ← peer_time_of c1;
  upd (set_peer_time t);;
  '(s1, s2, mode) ← lift (answer_c1 c1 server_time r1 r2);
  upd (λ hs, set_out (Buffer.reset (hs_out hs)) hs);;
  on_out (put s1);; on_out (put s2);;
  upd (set_state ServerWaitC2);;
  mret mode.

Definition server_read_c1 (server_time : Z) (r1 r2 : seed) : ST hstate unit :=
  server_read_c1_mode server_time r1 r2;; mret tt.

Definition server_read_c2 : ST hstate unit := read_block;; upd (set_state Done).

(** ** Client *)

Definition client_init (hs : Handshake) : Handshake := mkHs ClientWaitS0 0 0 (hs_out hs).

Definition client_generate_c0c1 (client_time : Z) (r : seed) : ST hstate unit :=
  upd (set_peer_time client_time);;
  c0c1 ← lift (copy_at (zrepeat 0 (1 + HANDSHAKE_SIZE)) 0 [RTMP_VERSION]);
  c0c1 ← lift (copy_at c0c1 1 (to_be_bytes32 client_time));
  c0c1 ← lift (copy_at c0c1 9 (fill_random r (1 + HANDSHAKE_SIZE - 9)));
  upd (λ hs, set_out (Buffer.reset (hs_out hs)) hs);;
  on_out (put c0c1);;
  upd (set_state ClientWaitS0).

Definition client_read_s0 : ST hstate unit := read_version ClientWaitS1.

Definition client_read_s1 (client_time : Z) : ST hstate unit :=
  s1 ← read_block;
  t ← peer_time_of s1;
  upd (set_peer_time t);;
  c2 ← lift (copy_at s1 4 (to_be_bytes32 client_time));
  upd (λ hs, set_out (Buffer.reset (hs_out hs)) hs);;
  on_out (put c2);;
  upd (set_state ClientWaitS2).

Definition client_read_s2 : ST hstate unit := read_block;; upd (set_state Done).

(** * The random filler fills *)

Lemma random_bytes_ok fuel st n : n ≤ Z.of_nat fuel →
  zlen (random_bytes fuel st n) = Z.max 0 n ∧ bytes_ok (random_bytes fuel st n).
Proof.
  revert st n. induction fuel as [|fuel IH]; intros st n Hn; cbn [random_bytes].
  { split; [change (zlen []) with 0; lia|constructor]. }
  destruct (Z.ltb_spec 0 n); [|split; [change (zlen []) with 0; lia|constructor]].
  destruct (splitmix64 st) as [st' r]. destruct (IH st' (n - 8) ltac:(lia)) as [E Ho].
  set (eight := (λ b, as_u8 (r >> (b * 8))) <$> [0; 1; 2; 3; 4; 5; 6; 7]).
  assert (zlen eight = 8) as E8 by done.
  split; [rewrite zlen_app, zlen_ztake, E, E8; lia|].
  apply Forall_app. split; [|done]. apply Forall_ztake. repeat constructor; apply as_u8_range.
Qed.

Lemma fill_random_ok s n : 0 ≤ n → zlen (fill_random s n) = n ∧ bytes_ok (fill_random s n).
Proof.
  intros Hn. unfold fill_random. destruct (random_bytes_ok (Z.to_nat n) (Z.lxor (Z.lxor (Z.lxor
    (now_secs s) (as_u64 (Z.shiftl (now_nanos s) 32))) (as_u64 (counter s * 15111065706836454659))) n)
    n) as [-> ?]; [lia|]. split; [lia|done].
Qed.

(** * Digest positions *)

(** A handshake block. *)
Definition is_block (l : bytes) : Prop := zlen l = HANDSHAKE_SIZE ∧ bytes_ok l.

Lemma copied_block l a d l' : is_block l → bytes_ok d → 0 ≤ a → copied l a d l' →
  copy_at l a d = Ok l' → is_block l'.
Proof.
  intros [Hl Ho] Hd Ha Hc E. split; [by rewrite (cp_len _ _ _ _ Hc)|].
  unfold copy_at in E. case_match; [|done]. injection E as <-.
  repeat apply Forall_app_2; [by apply Forall_ztake|done|by apply Forall_zdrop].
Qed.

Lemma copy_block l a d : is_block l → bytes_ok d → 0 ≤ a → a + zlen d ≤ HANDSHAKE_SIZE →
  ∃ l', copy_at l a d = Ok l' ∧ is_block l' ∧ copied l a d l'.
Proof.
  intros Hl Hd Ha Hz. destruct (copy_at_copied l a d Ha) as (l'&E&Hc); [by rewrite (proj1 Hl)|].
  exists l'. split_and!; [done| |done]. by eapply copied_block.
Qed.

Lemma zero_block : is_block (zrepeat 0 HANDSHAKE_SIZE).
Proof. split; [by rewrite zlen_zrepeat|apply Forall_zrepeat; ulia]. Qed.

Lemma digest_offset_ok buf base : is_block buf → base ∈ DIGEST_BLOCK_BASES →
  ∃ off, digest_offset buf base = Ok off ∧ base + 4 ≤ off ∧ off + DIGEST_LEN ≤ HANDSHAKE_SIZE.
Proof.
  intros [Hl Ho] Hb. assert (base = 772 ∨ base = 8) as Hb'.
  { unfold DIGEST_BLOCK_BASES in Hb. rewrite !elem_of_cons, elem_of_nil in Hb. tauto. }
  unfold digest_offset. unfold HANDSHAKE_SIZE, DIGEST_LEN in *. rewrite slice_ok by lia.
  cbn [mbind Res_bind]. pose proof (Z.mod_pos_bound (sumZ id (ztake (base + 4 - base) (zdrop base buf))) 728
    ltac:(lia)).
  eexists. split; [done|]. lia.
Qed.

Lemma digest_without_ok buf off key : is_block buf → 0 ≤ off → off + DIGEST_LEN ≤ HANDSHAKE_SIZE →
  digest_without buf off key
  = Ok (Sha256.hmac_spec key (ztake off buf ++ zdrop (off + DIGEST_LEN) buf)).
Proof.
  intros [Hl Ho] H0 Hz. unfold digest_without, HANDSHAKE_SIZE, DIGEST_LEN in *.
  rewrite slice_prefix, slice_suffix by lia. cbn [mbind Res_bind].
  rewrite Sha256.hmac_ok. simpl. by rewrite app_nil_r.
Qed.

(** A digest at the position that [base] selects in [buf], under [key]. *)
Definition signed (buf : bytes) (base : Z) (key digest : bytes) : Prop := ∃ off,
  digest_offset buf base = Ok off ∧ slice buf off (off + DIGEST_LEN) = Ok digest
  ∧ digest_without buf off key = Ok digest.

Lemma c1_digest_at_ok c1 base : is_block c1 → base ∈ DIGEST_BLOCK_BASES →
  ∃ r, c1_digest_at c1 base = Ok r ∧ match r with
    | Some (base', d) => base' = base ∧ signed c1 base FP_KEY_TEXT d
    | None => ∀ d, ¬ signed c1 base FP_KEY_TEXT d
    end.
Proof.
  intros Hc Hb. destruct (digest_offset_ok c1 base Hc Hb) as (off&Eo&H1&H2).
  assert (0 ≤ base) as H0.
  { unfold DIGEST_BLOCK_BASES in Hb. rewrite !elem_of_cons, elem_of_nil in Hb. lia. }
  pose proof (digest_without_ok c1 off FP_KEY_TEXT Hc ltac:(lia) H2) as Ed.
  assert (slice c1 off (off + DIGEST_LEN) = Ok (ztake DIGEST_LEN (zdrop off c1))) as Es.
  { rewrite slice_ok; [|unfold DIGEST_LEN; lia|by rewrite (proj1 Hc)]. do 2 f_equal. lia. }
  unfold c1_digest_at. rewrite Eo. cbn [mbind Res_bind]. rewrite Ed. cbn [mbind Res_bind].
  rewrite Es. cbn [mbind Res_bind].
  eexists. split; [done|]. case_decide as E.
  - split; [done|]. exists off. by rewrite Ed, Es, E.
  - intros d (off'&Eo'&Es'&Ed'). congruence.
Qed.

Lemma find_digest_ok c1 bases : is_block c1 → (∀ b, b ∈ bases → b ∈ DIGEST_BLOCK_BASES) →
  ∃ r, find_digest c1 bases = Ok r ∧ match r with
    | Some (base, d) => base ∈ bases ∧ signed c1 base FP_KEY_TEXT d ∧ zlen d = DIGEST_LEN
    | None => ∀ base d, base ∈ bases → ¬ signed c1 base FP_KEY_TEXT d
    end.
Proof.
  intros Hc. induction bases as [|base bases IH]; intros Hin; cbn [find_digest].
  { exists None. split; [done|]. intros b d Hb. by apply elem_of_nil in Hb. }
  assert (base ∈ DIGEST_BLOCK_BASES) as Hb by (apply Hin, elem_of_cons; by left).
  destruct (c1_digest_at_ok c1 base Hc Hb) as ([[b d]|]&->&H); cbn [mbind Res_bind].
  - destruct H as [-> Hs]. exists (Some (base, d)). split; [done|]. split_and!;
      [apply elem_of_cons; by left|done|].
    destruct (digest_offset_ok c1 base Hc Hb) as (off&Eo&_&H2).
    destruct Hs as (off'&Eo'&_&Ed). assert (off' = off) as -> by congruence.
    unfold digest_without in Ed. destruct (slice c1 0 off), (slice c1 (off + DIGEST_LEN) (zlen c1));
      try done. cbn [mbind Res_bind] in Ed. rewrite Sha256.hmac_ok in Ed. injection Ed as <-.
    apply Sha256.zlen_sha_spec.
  - destruct IH as (r&->&Hr); [intros; apply Hin, elem_of_cons; by right|].
    exists r. split; [done|]. destruct r as [[b d]|].
    + destruct Hr as (?&?&?). split_and!; [apply elem_of_cons; by right|done..].
    + intros b d [->|Hin']%elem_of_cons; [apply H|by apply Hr].
Qed.

Lemma full_key_ok : ∃ key, fms_full_key = Ok key ∧ key = FMS_KEY_TEXT ++ HANDSHAKE_KEY_TAIL.
Proof. eexists. split; [vm_compute; reflexivity|by vm_compute]. Qed.

Lemma signed_slot buf base off digest l : is_block buf → base ∈ DIGEST_BLOCK_BASES →
  digest_offset buf base = Ok off → base + 4 ≤ off → off + DIGEST_LEN ≤ HANDSHAKE_SIZE →
  digest_without buf off FMS_KEY_TEXT = Ok digest → zlen digest = DIGEST_LEN →
  is_block l → copied buf off digest l → signed l base FMS_KEY_TEXT digest.
Proof.
  intros Hb Hbase Eo H1 H2 Ed Hz Hl [Cl Cb Ca Cs].
  assert (0 ≤ base) as H0.
  { unfold DIGEST_BLOCK_BASES in Hbase. rewrite !elem_of_cons, elem_of_nil in Hbase. lia. }
  exists off. split_and!.
  - unfold digest_offset in *. by rewrite (slice_before buf l off) by (done || lia).
  - by rewrite <- Hz.
  - rewrite digest_without_ok in Ed |- * by (done || lia). by rewrite Cb, <- Hz, Ca, Hz.
Qed.

Lemma hmac_one key msg : Sha256.hmac_sha256 key [msg] = Ok (Sha256.hmac_spec key msg).
Proof. rewrite Sha256.hmac_ok. simpl concat. by rewrite app_nil_r. Qed.

Lemma hmac_len key msg : zlen (Sha256.hmac_spec key msg) = DIGEST_LEN.
Proof. apply Sha256.zlen_sha_spec. Qed.

Lemma hmac_bytes key msg : bytes_ok (Sha256.hmac_spec key msg).
Proof. apply Sha256.bytes_ok_sha_spec. Qed.

#[local] Strategy opaque [Sha256.hmac_spec Sha256.sha_spec].

Lemma build_digest_ok base d t r1 r2 : base ∈ DIGEST_BLOCK_BASES →
  ∃ s1 s2 dg, build_digest_s1s2 base d t r1 r2 = Ok (s1, s2) ∧ is_block s1 ∧ is_block s2
    ∧ slice s1 0 4 = Ok (to_be_bytes32 t)
    ∧ signed s1 base FMS_KEY_TEXT dg
    ∧ zdrop 1504 s2 = Sha256.hmac_spec (Sha256.hmac_spec (FMS_KEY_TEXT ++ HANDSHAKE_KEY_TAIL) d)
                        (ztake 1504 s2).
Proof.
  intros Hb. unfold build_digest_s1s2.
  destruct (fill_random_ok r1 (HANDSHAKE_SIZE - 8) ltac:(unfold HANDSHAKE_SIZE; lia)) as [Lr1 Or1].
  destruct (copy_block _ 8 _ zero_block Or1) as (a&->&Ba&_); [lia|lia|]. rewrite Ok_bind.
  destruct (copy_block a 0 _ Ba (bytes_ok_be32 t)) as (b&->&Bb&Cb); [lia|done|]. rewrite Ok_bind.
  destruct (copy_block b 4 SERVER_DIGEST_VERSION Bb) as (c&->&Bc&Cc);
    [repeat constructor; ulia|lia|done|]. rewrite Ok_bind.
  destruct (digest_offset_ok c base Bc Hb) as (off&Eo&H1&H2). rewrite Eo. rewrite Ok_bind.
  assert (8 ≤ base) as H0.
  { unfold DIGEST_BLOCK_BASES in Hb. rewrite !elem_of_cons, elem_of_nil in Hb. lia. }
  pose proof (digest_without_ok c off FMS_KEY_TEXT Bc ltac:(lia) H2) as Ed. rewrite Ed.
  rewrite Ok_bind. set (dg := Sha256.hmac_spec _ _) in *.
  assert (zlen dg = DIGEST_LEN) as Ldg by apply hmac_len.
  destruct (copy_block c off dg Bc) as (s1&->&B1&C1); [apply hmac_bytes|lia|lia|].
  rewrite Ok_bind.
  destruct (fill_random_ok r2 HANDSHAKE_SIZE ltac:(unfold HANDSHAKE_SIZE; lia)) as [Lr2 Or2].
  destruct (copy_block _ 0 _ zero_block Or2) as (e&->&Be&_); [lia|lia|]. rewrite Ok_bind.
  destruct full_key_ok as (key&->&->). rewrite Ok_bind. rewrite hmac_one.
  rewrite Ok_bind. replace (HANDSHAKE_SIZE - DIGEST_LEN) with 1504 by done.
  rewrite slice_prefix by (rewrite (proj1 Be); unfold HANDSHAKE_SIZE; lia). rewrite Ok_bind.
  rewrite hmac_one. rewrite Ok_bind.
  set (sg := Sha256.hmac_spec _ (ztake 1504 e)).
  assert (zlen sg = DIGEST_LEN) as Lsg by apply hmac_len.
  destruct (copy_block e 1504 sg Be) as (s2&->&B2&C2); [apply hmac_bytes|lia| |].
  { rewrite Lsg. done. }
  rewrite Ok_bind. exists s1, s2, dg.
  split; [reflexivity|]. split; [exact B1|]. split; [exact B2|]. split; [|split].
  - rewrite (slice_before c s1 off), (slice_before b c 4);
      [exact (cp_slice _ _ _ _ Cb)|apply Cc|apply Cc|lia|lia|apply C1|apply C1|lia|lia].
  - exact (signed_slot c base off dg s1 Bc Hb Eo H1 H2 Ed Ldg B1 C1).
  - rewrite (cp_before _ _ _ _ C2). pose proof (cp_slice _ _ _ _ C2) as Es. rewrite Lsg in Es.
    replace (1504 + DIGEST_LEN) with HANDSHAKE_SIZE in Es by done. rewrite <- (proj1 B2) in Es.
    rewrite slice_suffix in Es by (rewrite (proj1 B2); unfold HANDSHAKE_SIZE; lia).
    exact (Ok_inj _ _ Es).
Qed.

(** * What each call does *)

(** Time 1 and the random part of [l] come back in [l'], with [t] as time 2. *)
Definition echoes (l l' : bytes) (t : Z) : Prop :=
  slice l' 0 4 = slice l 0 4 ∧ slice l' 4 8 = Ok (to_be_bytes32 t) ∧ zdrop 8 l' = zdrop 8 l.

Lemma echo_block l t : is_block l → ∃ l',
  copy_at l 4 (to_be_bytes32 t) = Ok l' ∧ is_block l' ∧ echoes l l' t.
Proof.
  intros Hl. destruct (copy_block l 4 _ Hl (bytes_ok_be32 t)) as (l'&E&B&C); [lia|done|].
  exists l'. split; [exact E|]. split; [exact B|]. split; [|split].
  - apply (slice_before l l' 4); [apply C|apply C|lia|lia].
  - exact (cp_slice _ _ _ _ C).
  - exact (cp_after _ _ _ _ C).
Qed.

(** What the version field of C1 asks for. *)
Lemma requests_ok c1 : is_block c1 → ∃ v, slice c1 4 8 = Ok v
  ∧ c1_requests_complex_handshake c1 = Ok (negb (bool_decide (v = [0; 0; 0; 0]))).
Proof.
  intros [Hl Ho]. unfold HANDSHAKE_SIZE in Hl.
  exists (ztake 4 (zdrop 4 c1)). split; [rewrite slice_ok by lia; done|].
  unfold c1_requests_complex_handshake, HANDSHAKE_SIZE.
  destruct (Z.leb_spec 1536 (zlen c1)); [|lia].
  assert (zlen (ztake 4 (zdrop 4 c1)) = 4) as H4 by (autorewrite with zlen; lia).
  pose proof (zidx_slice c1 4 4) as E.
  destruct (ztake 4 (zdrop 4 c1)) as [|a [|b [|c [|d [|]]]]]; autorewrite with zlen in H4;
    try (unfold zlen in H4; simpl in H4; lia).
  rewrite <- (E 0 ltac:(lia) ltac:(lia) : _ = zidx c1 4),
    <- (E 1 ltac:(lia) ltac:(lia) : _ = zidx c1 5), <- (E 2 ltac:(lia) ltac:(lia) : _ = zidx c1 6),
    <- (E 3 ltac:(lia) ltac:(lia) : _ = zidx c1 7).
  trans (Ok (negb (a =? 0) || negb (b =? 0) || negb (c =? 0) || negb (d =? 0))); [reflexivity|].
  f_equal.
  case_bool_decide as Eq; [by simplify_eq|].
  destruct (Z.eqb_spec a 0), (Z.eqb_spec b 0), (Z.eqb_spec c 0), (Z.eqb_spec d 0); subst; congruence || done.
Qed.

(** The answer of the server to [c1]. *)
Definition answered (c1 s1 s2 : bytes) (t : Z) (mode : HandshakeMode) : Prop :=
  is_block s1 ∧ is_block s2 ∧ slice s1 0 4 = Ok (to_be_bytes32 t) ∧
  match mode with
  | Simple => slice c1 4 8 = Ok [0; 0; 0; 0] ∧ slice s1 4 8 = Ok [0; 0; 0; 0] ∧ echoes c1 s2 t
  | SimpleFallback => slice c1 4 8 ≠ Ok [0; 0; 0; 0]
      ∧ (∀ base d, base ∈ DIGEST_BLOCK_BASES → ¬ signed c1 base FP_KEY_TEXT d) ∧ echoes c1 s2 t
  | Digest base => slice c1 4 8 ≠ Ok [0; 0; 0; 0] ∧ ∃ d dg,
      signed c1 base FP_KEY_TEXT d ∧ signed s1 base FMS_KEY_TEXT dg
      ∧ zdrop 1504 s2 = Sha256.hmac_spec (Sha256.hmac_spec (FMS_KEY_TEXT ++ HANDSHAKE_KEY_TAIL) d)
                          (ztake 1504 s2)
  end.

(** A block with a time, a zero version field and random bytes. *)
Lemma filled_ok t r : ∃ a l, copy_at (zrepeat 0 HANDSHAKE_SIZE) 0 (to_be_bytes32 t) = Ok a
  ∧ copy_at a 8 (fill_random r (HANDSHAKE_SIZE - 8)) = Ok l ∧ is_block l
  ∧ slice l 0 4 = Ok (to_be_bytes32 t) ∧ slice l 4 8 = Ok [0; 0; 0; 0].
Proof.
  destruct (fill_random_ok r (HANDSHAKE_SIZE - 8) ltac:(unfold HANDSHAKE_SIZE; lia)) as [Lr Or].
  destruct (copy_block _ 0 _ zero_block (bytes_ok_be32 t)) as (a&Ea&Ba&Ca); [lia|done|].
  destruct (copy_block a 8 _ Ba Or) as (s1&E1&B1&C1); [lia|lia|].
  exists a, s1. split; [exact Ea|]. split; [exact E1|]. split; [exact B1|]. split.
  - rewrite (slice_before a s1 8); [exact (cp_slice _ _ _ _ Ca)|apply C1|apply C1|lia|lia].
  - rewrite (slice_before a s1 8); [|apply C1|apply C1|lia|lia].
    rewrite slice_ok; [|lia|rewrite (proj1 Ba); done].
    pose proof (cp_after _ _ _ _ Ca) as E. rewrite zlen_be32 in E.
    replace (0 + 4) with 4 in E by lia. rewrite E. by vm_compute.
Qed.

Lemma plain_ok c1 t r : is_block c1 → ∃ s1 s2, plain_s1s2 c1 t r = Ok (s1, s2)
  ∧ is_block s1 ∧ is_block s2 ∧ slice s1 0 4 = Ok (to_be_bytes32 t)
  ∧ slice s1 4 8 = Ok [0; 0; 0; 0] ∧ echoes c1 s2 t.
Proof.
  intros Hc. unfold plain_s1s2. destruct (filled_ok t r) as (a&s1&->&E&B1&T&V).
  rewrite Ok_bind, E, Ok_bind. destruct (echo_block c1 t Hc) as (s2&->&B2&E2). rewrite Ok_bind.
  exists s1, s2. split; [reflexivity|]. split; [exact B1|]. split; [exact B2|]. by split.
Qed.

Lemma answer_c1_ok c1 t r1 r2 : is_block c1 →
  ∃ s1 s2 mode, answer_c1 c1 t r1 r2 = Ok (s1, s2, mode) ∧ answered c1 s1 s2 t mode.
Proof.
  intros Hc. unfold answer_c1. destruct (requests_ok c1 Hc) as (v&Ev&->). rewrite Ok_bind.
  destruct (plain_ok c1 t r1 Hc) as (p1&p2&Ep&P1&P2&P3&P4&P5).
  case_bool_decide as Hv; cbn [negb].
  { subst v. rewrite Ok_bind, Ep, Ok_bind. exists p1, p2, Simple. split; [reflexivity|].
    split; [exact P1|]. split; [exact P2|]. split; [exact P3|]. split; [exact Ev|]. split; [exact P4|exact P5]. }
  assert (slice c1 4 8 ≠ Ok [0; 0; 0; 0]) as Hv' by (rewrite Ev; congruence).
  unfold find_c1_digest.
  destruct (find_digest_ok c1 DIGEST_BLOCK_BASES Hc ltac:(auto)) as ([[base d]|]&->&H);
    rewrite Ok_bind.
  - destruct H as (Hb&Hs&_).
    destruct (build_digest_ok base d t r1 r2 Hb) as (s1&s2&dg&->&B1&B2&T1&S1&S2).
    rewrite Ok_bind. exists s1, s2, (Digest base). split; [reflexivity|].
    split; [exact B1|]. split; [exact B2|]. split; [exact T1|]. split; [exact Hv'|].
    exists d, dg. split; [exact Hs|]. split; [exact S1|exact S2].
  - rewrite Ep, Ok_bind. exists p1, p2, SimpleFallback. split; [reflexivity|].
    split; [exact P1|]. split; [exact P2|]. split; [exact P3|]. split; [exact Hv'|]. split; [exact H|exact P5].
Qed.

(** * The calls on a state *)

(** The queued output is a well-formed owned buffer, so it takes an answer. *)
Definition hs_ok (hs : Handshake) : Prop := Buffer.wf (hs_out hs) ∧ owned (hs_out hs) = true.

Lemma read_block_short hs b : Buffer.wf b → zlen (Buffer.contents b) < HANDSHAKE_SIZE →
  read_block (hs, b) = (Err Io, (hs, b)).
Proof.
  intros Hb Hl. unfold read_block.
  rewrite (bind_ok _ _ _ (zlen (Buffer.contents b)) (hs, b))
    by (unfold on_in, available_st; simpl; by rewrite Buffer.available_contents).
  by rewrite (proj2 (Z.ltb_lt _ _) Hl).
Qed.

Lemma on_in_ok {A} (m : ST Buffer A) hs b a b' : m b = (Ok a, b') →
  on_in m (hs, b) = (Ok a, (hs, b')).
Proof. unfold on_in. by intros ->. Qed.

Lemma read_block_full hs b d rest : Buffer.wf b → Buffer.contents b = d ++ rest →
  zlen d = HANDSHAKE_SIZE → ∃ b', read_block (hs, b) = (Ok d, (hs, b'))
    ∧ Buffer.after b b' ∧ Buffer.contents b' = rest.
Proof.
  intros Hb Hc Hd. destruct (Buffer.read_app d rest b Hb Hc) as (b'&E&W&C&_&L&_).
  exists b'. split; [|done]. unfold read_block.
  rewrite (bind_ok _ _ _ (zlen (Buffer.contents b)) (hs, b))
    by (unfold on_in, available_st; simpl; by rewrite Buffer.available_contents).
  rewrite guard_pass by (apply Z.ltb_ge; rewrite Hc; zlia).
  rewrite <- Hd. apply map_err_ok, on_in_ok, E.
Qed.

Lemma read_version_nil next hs b : Buffer.wf b → Buffer.contents b = [] →
  read_version next (hs, b) = (Err Io, (hs, b)).
Proof.
  intros Hb Hc. pose proof (Buffer.read_spec 1 b Hb ltac:(lia)) as R. rewrite Hc in R. simpl in R.
  unfold read_version, on_in, map_err, mbind, ST_bind. simpl. by rewrite R.
Qed.

Lemma read_version_cons next hs b v rest : Buffer.wf b → Buffer.contents b = v :: rest →
  ∃ b', Buffer.after b b' ∧ Buffer.contents b' = rest ∧ read_version next (hs, b) =
    if v =? RTMP_VERSION then (Ok tt, (set_state next (set_version v hs), b'))
    else (Err Prelude.Handshake, (hs, b')).
Proof.
  intros Hb Hc. destruct (Buffer.read_app [v] rest b Hb Hc) as (b'&E&W&C&_&L&_).
  exists b'. split; [done|]. split; [done|]. unfold read_version.
  rewrite (bind_ok _ _ _ [v] (hs, b')) by (by apply map_err_ok, on_in_ok).
  rewrite (bind_ok _ _ _ v (hs, b')) by done. by destruct (v =? RTMP_VERSION).
Qed.

Lemma peer_time_ok l s : is_block l → ∃ t, peer_time_of l s = (Ok t, s)
  ∧ (h ← slice l 0 4; ntoh32 h) = Ok t.
Proof.
  intros [Hl Ho]. unfold HANDSHAKE_SIZE in Hl. unfold peer_time_of, lift, mbind, ST_bind.
  rewrite slice_prefix by lia. simpl.
  destruct (ntoh32_ok (ztake 4 l)) as (t&->&_); [by apply Forall_ztake|zlia|]. by exists t.
Qed.

(** Queueing [d] on a fresh output. *)
Lemma queue_ok hs d : hs_ok hs → zlen d ≤ 2 * HANDSHAKE_SIZE → ∃ o,
  put d (Buffer.reset (hs_out hs)) = (Ok tt, o) ∧ Buffer.wf o ∧ owned o = true
  ∧ Buffer.contents o = d ∧ Buffer.limit o = BUFFER_MAX_SIZE.
Proof.
  intros [Hw Ho] Hd. destruct (Buffer.reset_spec _ Hw) as (W&C&O&L).
  assert (Buffer.limit (Buffer.reset (hs_out hs)) = BUFFER_MAX_SIZE) as EL.
  { unfold Buffer.limit. by rewrite O, Ho. }
  destruct (emits_put d _ W) as (o&E&W'&C'&O'&L').
  { rewrite C, EL. unfold HANDSHAKE_SIZE, BUFFER_MAX_SIZE in *. zlia. }
  exists o. rewrite C in C'. split_and!; try done; congruence.
Qed.

Lemma put_one {A} (k : ST hstate A) hs d b : hs_ok hs → zlen d ≤ 2 * HANDSHAKE_SIZE → ∃ o,
  (upd (λ hs, set_out (Buffer.reset (hs_out hs)) hs);; on_out (put d);; k) (hs, b)
    = k (set_out o hs, b) ∧ hs_ok (set_out o hs) ∧ Buffer.contents o = d.
Proof.
  intros Hh Hd. destruct (queue_ok hs d Hh Hd) as (o&E&W&O&C&L). exists o. split; [|done].
  unfold upd, on_out, mbind, ST_bind. simpl. by rewrite E.
Qed.

Lemma put_two {A} (k : ST hstate A) hs s1 s2 b : hs_ok hs → is_block s1 → is_block s2 → ∃ o,
  (upd (λ hs, set_out (Buffer.reset (hs_out hs)) hs);; on_out (put s1);; on_out (put s2);; k) (hs, b)
    = k (set_out o hs, b)
  ∧ hs_ok (set_out o hs) ∧ Buffer.contents o = s1 ++ s2.
Proof.
  intros Hh [L1 _] [L2 _]. destruct (queue_ok hs s1 Hh) as (o&E&W&O&C&L);
    [unfold HANDSHAKE_SIZE in *; lia|].
  destruct (emits_put s2 o W) as (o'&E'&W'&C'&O'&_).
  { rewrite C, L. unfold HANDSHAKE_SIZE, BUFFER_MAX_SIZE in *. lia. }
  exists o'. rewrite C in C'. split; [|split; [split; [done|simpl; congruence]|done]].
  unfold upd, on_out, mbind, ST_bind. simpl. rewrite E. simpl. by rewrite E'.
Qed.

(** The server reads C1 and queues S1 and S2. *)
Lemma read_c1_ok t r1 r2 hs b c1 rest : hs_ok hs → Buffer.wf b →
  Buffer.contents b = c1 ++ rest → is_block c1 → ∃ mode s1 s2 hs' b',
  server_read_c1_mode t r1 r2 (hs, b) = (Ok mode, (hs', b'))
  ∧ hs_ok hs' ∧ hs_state hs' = ServerWaitC2 ∧ Buffer.contents (hs_out hs') = s1 ++ s2
  ∧ (h ← slice c1 0 4; ntoh32 h) = Ok (hs_peer_time hs') ∧ hs_version hs' = hs_version hs
  ∧ Buffer.after b b' ∧ Buffer.contents b' = rest ∧ answered c1 s1 s2 t mode.
Proof.
  intros Hh Hb Hc B1. destruct (read_block_full hs b c1 rest Hb Hc (proj1 B1)) as (b'&E&A&C).
  unfold server_read_c1_mode. rewrite (bind_ok _ _ _ _ _ E).
  destruct (peer_time_ok c1 (hs, b') B1) as (pt&Ept&Hpt). rewrite (bind_ok _ _ _ _ _ Ept).
  rewrite (bind_ok _ _ _ tt (set_peer_time pt hs, b')) by done.
  destruct (answer_c1_ok c1 t r1 r2 B1) as (s1&s2&mode&Ea&Ha).
  rewrite (bind_ok _ _ _ (s1, s2, mode) (set_peer_time pt hs, b')) by (unfold lift; by rewrite Ea).
  destruct (put_two (upd (set_state ServerWaitC2);; mret mode) (set_peer_time pt hs) s1 s2 b' Hh (proj1 Ha) (proj1 (proj2 Ha))) as (o&Eo&Ho&Co).
  exists mode, s1, s2, (set_state ServerWaitC2 (set_out o (set_peer_time pt hs))), b'.
  split; [exact Eo|by split_and!].
Qed.

(** The client reads S1 and queues C2. *)
Lemma read_s1_ok t hs b s1 rest : hs_ok hs → Buffer.wf b → Buffer.contents b = s1 ++ rest →
  is_block s1 → ∃ c2 hs' b', client_read_s1 t (hs, b) = (Ok tt, (hs', b'))
  ∧ hs_ok hs' ∧ hs_state hs' = ClientWaitS2 ∧ Buffer.contents (hs_out hs') = c2
  ∧ (h ← slice s1 0 4; ntoh32 h) = Ok (hs_peer_time hs') ∧ hs_version hs' = hs_version hs
  ∧ Buffer.after b b' ∧ Buffer.contents b' = rest ∧ is_block c2 ∧ echoes s1 c2 t.
Proof.
  intros Hh Hb Hc B1. destruct (read_block_full hs b s1 rest Hb Hc (proj1 B1)) as (b'&E&A&C).
  unfold client_read_s1. rewrite (bind_ok _ _ _ _ _ E).
  destruct (peer_time_ok s1 (hs, b') B1) as (pt&Ept&Hpt). rewrite (bind_ok _ _ _ _ _ Ept).
  rewrite (bind_ok _ _ _ tt (set_peer_time pt hs, b')) by done.
  destruct (echo_block s1 t B1) as (c2&Ec&B2&H2).
  rewrite (bind_ok _ _ _ c2 (set_peer_time pt hs, b')) by (unfold lift; by rewrite Ec).
  destruct (put_one (upd (set_state ClientWaitS2)) (set_peer_time pt hs) c2 b' Hh) as (o&Eo&Ho&Co).
  { rewrite (proj1 B2). unfold HANDSHAKE_SIZE. lia. }
  exists c2, (set_state ClientWaitS2 (set_out o (set_peer_time pt hs))), b'.
  split; [exact Eo|by split_and!].
Qed.

(** C2 and S2 are read and dropped. *)
Lemma read_last_ok hs b d rest : Buffer.wf b → Buffer.contents b = d ++ rest →
  zlen d = HANDSHAKE_SIZE → ∃ b', Buffer.after b b' ∧ Buffer.contents b' = rest
  ∧ server_read_c2 (hs, b) = (Ok tt, (set_state Done hs, b'))
  ∧ client_read_s2 (hs, b) = (Ok tt, (set_state Done hs, b')).
Proof.
  intros Hb Hc Hd. destruct (read_block_full hs b d rest Hb Hc Hd) as (b'&E&A&C).
  exists b'. unfold server_read_c2, client_read_s2. by rewrite !(bind_ok _ _ _ _ _ E).
Qed.

Lemma copy_at_cons {A} (x : A) l a n d : n = 1 + a → 0 ≤ a →
  copy_at (x :: l) n d = (l' ← copy_at l a d; Ok (x :: l')).
Proof.
  intros -> Ha. unfold copy_at. rewrite zlen_cons.
  replace (1 + a + zlen d <=? 1 + zlen l) with (a + zlen d <=? zlen l) by lia.
  replace (0 <=? 1 + a) with (0 <=? a) by lia.
  destruct (_ && _); [|done]. simpl. f_equal. unfold ztake, zdrop.
  replace (Z.to_nat (1 + a)) with (S (Z.to_nat a)) by lia.
  replace (Z.to_nat (1 + a + zlen d)) with (S (Z.to_nat (a + zlen d))) by zlia. done.
Qed.

Lemma c0_byte : copy_at (zrepeat 0 (1 + HANDSHAKE_SIZE)) 0 [RTMP_VERSION]
  = Ok (RTMP_VERSION :: zrepeat 0 HANDSHAKE_SIZE).
Proof. vm_compute. reflexivity. Qed.

(** The client queues C0 and C1. *)
Lemma generate_ok t r hs b : hs_ok hs → ∃ c1 hs',
  client_generate_c0c1 t r (hs, b) = (Ok tt, (hs', b))
  ∧ hs_ok hs' ∧ hs_state hs' = ClientWaitS0 ∧ Buffer.contents (hs_out hs') = RTMP_VERSION :: c1
  ∧ is_block c1 ∧ slice c1 0 4 = Ok (to_be_bytes32 t) ∧ slice c1 4 8 = Ok [0; 0; 0; 0].
Proof.
  intros Hh. destruct (filled_ok t r) as (a&c1&Ea&Ec&B&T&V).
  unfold client_generate_c0c1.
  rewrite (bind_ok _ _ _ tt (set_peer_time t hs, b)) by done.
  rewrite (bind_ok _ _ _ (RTMP_VERSION :: zrepeat 0 HANDSHAKE_SIZE) (set_peer_time t hs, b))
    by (unfold lift; by rewrite c0_byte).
  rewrite (bind_ok _ _ _ (RTMP_VERSION :: a) (set_peer_time t hs, b))
    by (unfold lift; by rewrite (copy_at_cons _ _ 0), Ea by lia).
  rewrite (bind_ok _ _ _ (RTMP_VERSION :: c1) (set_peer_time t hs, b))
    by (unfold lift; replace (1 + HANDSHAKE_SIZE - 9) with (HANDSHAKE_SIZE - 8) by done;
        by rewrite (copy_at_cons _ _ 8), Ec by lia).
  destruct (put_one (upd (set_state ClientWaitS0)) (set_peer_time t hs) (RTMP_VERSION :: c1) b Hh)
    as (o&Eo&Ho&Co). { rewrite zlen_cons, (proj1 B). unfold HANDSHAKE_SIZE. lia. }
  exists c1, (set_state ClientWaitS0 (set_out o (set_peer_time t hs))).
  split; [exact Eo|]. by split_and!.
Qed.

(** * The reading calls together *)

Inductive call : Type :=
  | ReadC0 | ReadC1 (server_time : Z) (r1 r2 : seed) | ReadC2
  | ReadS0 | ReadS1 (client_time : Z) | ReadS2.

Definition run_call (c : call) : ST hstate unit :=
  match c with
  | ReadC0 => server_read_c0
  | ReadC1 t r1 r2 => server_read_c1 t r1 r2
  | ReadC2 => server_read_c2
  | ReadS0 => client_read_s0
  | ReadS1 t => client_read_s1 t
  | ReadS2 => client_read_s2
  end.

(** What a call needs of the input, and the state it moves to. *)
Definition need (c : call) : Z :=
  match c with ReadC0 | ReadS0 => 1 | _ => HANDSHAKE_SIZE end.
Definition next (c : call) : HandshakeState :=
  match c with
  | ReadC0 => ServerWaitC1 | ReadC1 _ _ _ => ServerWaitC2 | ReadC2 => Done
  | ReadS0 => ClientWaitS1 | ReadS1 _ => ClientWaitS2 | ReadS2 => Done
  end.

Lemma run_short c hs b : Buffer.wf b → zlen (Buffer.contents b) < need c →
  run_call c (hs, b) = (Err Io, (hs, b)).
Proof.
  intros Hb Hl. assert (need c = 1 → Buffer.contents b = []) as H1.
  { intros E. rewrite E in Hl. apply zlen_0_nil. zlia. }
  destruct c; simpl in *; unfold server_read_c0, client_read_s0, server_read_c1,
    server_read_c1_mode, server_read_c2, client_read_s1, client_read_s2.
  all: try (apply read_version_nil; by auto).
  all: pose proof (read_block_short hs b Hb Hl) as E.
  all: unfold mbind, ST_bind; by rewrite E.
Qed.

(** What a call leaves when the input suffices. *)
Definition stepped (c : call) (hs : Handshake) (b : Buffer) (o : Res unit * hstate) : Prop :=
  let '(r, (hs', b')) := o in
  hs_ok hs' ∧ Buffer.after b b' ∧ Buffer.contents b' = zdrop (need c) (Buffer.contents b)
  ∧ if (need c =? 1) && negb (bool_decide (zget (Buffer.contents b) 0 = Some RTMP_VERSION))
    then r = Err Prelude.Handshake ∧ hs' = hs
    else r = Ok tt ∧ hs_state hs' = next c.

Lemma read_version_stepped c hs b : hs_ok hs → Buffer.wf b → need c = 1 →
  1 ≤ zlen (Buffer.contents b) → stepped c hs b (read_version (next c) (hs, b)).
Proof.
  intros Hh Hb Hn Hl. unfold stepped. rewrite Hn. simpl.
  destruct (Buffer.contents b) as [|v rest] eqn:Hc; [unfold zlen in Hl; simpl in Hl; lia|].
  destruct (read_version_cons (next c) hs b v rest Hb Hc) as (b'&A&C&->).
  change (zget (v :: rest) 0) with (Some v). change (zdrop 1 (v :: rest)) with rest.
  destruct (Z.eqb_spec v RTMP_VERSION) as [->|Hv].
  - by rewrite bool_decide_true.
  - rewrite bool_decide_false by congruence. done.
Qed.

Lemma run_full c hs b : hs_ok hs → Buffer.wf b → bytes_ok (Buffer.contents b) →
  need c ≤ zlen (Buffer.contents b) → stepped c hs b (run_call c (hs, b)).
Proof.
  intros Hh Hb Ho Hl. destruct (decide (need c = 1)) as [E1|E1].
  { pose proof (read_version_stepped c hs b Hh Hb E1 ltac:(lia)) as H.
    destruct c; try discriminate E1; exact H. }
  assert (need c = HANDSHAKE_SIZE) as En by (by destruct c).
  unfold stepped. rewrite En in *. simpl.
  set (d := ztake HANDSHAKE_SIZE (Buffer.contents b)).
  set (rest := zdrop HANDSHAKE_SIZE (Buffer.contents b)).
  assert (Buffer.contents b = d ++ rest) as Hc by (symmetry; apply ztake_zdrop_app).
  assert (is_block d) as Bd.
  { split; [unfold d, HANDSHAKE_SIZE in *; autorewrite with zlen; lia|by apply Forall_ztake]. }
  destruct (read_last_ok hs b d rest Hb Hc (proj1 Bd)) as (b'&A&C&E2&E2').
  destruct c; try discriminate En; simpl.
  - destruct (read_c1_ok server_time r1 r2 hs b d rest Hh Hb Hc Bd)
      as (mode&s1&s2&hs'&b''&E&?&?&_&_&_&?&?&_).
    unfold server_read_c1. rewrite (bind_ok _ _ _ _ _ E). by split_and!.
  - rewrite E2. by split_and!.
  - destruct (read_s1_ok client_time hs b d rest Hh Hb Hc Bd) as (c2&hs'&b''&E&?&?&_&_&_&?&?&_).
    rewrite E. by split_and!.
  - rewrite E2'. by split_and!.
Qed.

(** C17. Every reading call of the handshake, on every input: too few bytes give
    [Io] and change nothing; a version byte other than 3 gives [Handshake] and
    keeps the handshake; otherwise the call succeeds, consumes exactly its
    message and moves to its next state. No call panics. *)
Theorem handshake_calls_total c hs b : hs_ok hs → Buffer.wf b → bytes_ok (Buffer.contents b) →
  if zlen (Buffer.contents b) <? need c then run_call c (hs, b) = (Err Io, (hs, b))
  else stepped c hs b (run_call c (hs, b)).
Proof.
  intros Hh Hb Ho. destruct (Z.ltb_spec (zlen (Buffer.contents b)) (need c)).
  - by apply run_short.
  - by apply run_full.
Qed.

Lemma handshake_calls_total_witness : ∃ b, Buffer.contents b = [RTMP_VERSION; 7]
  ∧ stepped ReadC0 default b (run_call ReadC0 (default, b)).
Proof.
  exists (Buffer.from_slice [RTMP_VERSION; 7]). split; [apply Buffer.contents_from_slice|].
  pose proof (handshake_calls_total ReadC0 default (Buffer.from_slice [RTMP_VERSION; 7])
    ltac:(by split; [apply Buffer.wf_new|]) ltac:(apply Buffer.wf_from_slice)
    ltac:(rewrite Buffer.contents_from_slice; do 2 (apply bytes_ok_cons; [unfold RTMP_VERSION; ulia|]); constructor)) as H.
  rewrite Buffer.contents_from_slice in H. exact H.
Defined.

(** C16. The server's answer to a full C1, at any clock and seed: S1 and S2 are
    queued, the peer's time is recorded and the bytes after C1 stay. A digest
    answer is given exactly when C1 has a non-zero version and a valid digest
    under the player key; then S1 carries a valid digest under the server key
    at the same position and S2 is signed with the key derived from the
    client's digest. Otherwise S2 echoes C1 with the server's time. *)
Theorem server_answers_c1 t r1 r2 hs b c1 rest : hs_ok hs → Buffer.wf b →
  Buffer.contents b = c1 ++ rest → is_block c1 → ∃ mode s1 s2 hs' b',
  server_read_c1_mode t r1 r2 (hs, b) = (Ok mode, (hs', b'))
  ∧ hs_ok hs' ∧ hs_state hs' = ServerWaitC2 ∧ Buffer.contents (hs_out hs') = s1 ++ s2
  ∧ (h ← slice c1 0 4; ntoh32 h) = Ok (hs_peer_time hs') ∧ hs_version hs' = hs_version hs
  ∧ Buffer.after b b' ∧ Buffer.contents b' = rest ∧ answered c1 s1 s2 t mode.
Proof. apply read_c1_ok. Qed.

Lemma server_answers_c1_witness : ∃ b hs' b' s1 s2,
  Buffer.contents b = zrepeat 0 HANDSHAKE_SIZE ++ [9]
  ∧ server_read_c1_mode 5 (mkSeed 1 2 3) (mkSeed 1 2 4) (default, b) = (Ok Simple, (hs', b'))
  ∧ Buffer.contents b' = [9] ∧ answered (zrepeat 0 HANDSHAKE_SIZE) s1 s2 5 Simple.
Proof.
  set (b := Buffer.from_slice (zrepeat 0 HANDSHAKE_SIZE ++ [9])).
  assert (Buffer.contents b = zrepeat 0 HANDSHAKE_SIZE ++ [9]) as Hc by apply Buffer.contents_from_slice.
  destruct (server_answers_c1 5 (mkSeed 1 2 3) (mkSeed 1 2 4) default b (zrepeat 0 HANDSHAKE_SIZE) [9])
    as (mode&s1&s2&hs'&b'&E&_&_&_&_&_&_&C&A);
    [split; [apply Buffer.wf_new|reflexivity]|apply Buffer.wf_from_slice|exact Hc|apply zero_block|].
  assert (slice (zrepeat 0 HANDSHAKE_SIZE) 4 8 = Ok [0; 0; 0; 0]) as Hz by (vm_compute; reflexivity).
  assert (mode = Simple) as ->.
  { destruct A as (_&_&_&A). destruct mode as [| |base]; [reflexivity| |];
      destruct A as [A _]; destruct (A Hz). }
  exists b, hs', b', s1, s2. split; [exact Hc|]. split; [exact E|]. split; [exact C|exact A].
Defined.
End Handshake.
