(* ===== verification/Ertmp.v ===== *)
(** Enhanced RTMP tag headers and descriptors: the FourCC registry
    (src/ertmp/fourcc.rs), the video and audio tag headers (exvideo.rs,
    exaudio.rs), HDR colour info (metadata.rs), the reconnect request
    (reconnect.rs) and the multitrack descriptor (multitrack.rs). *)
From S2P Require Import Prelude Bytes Types.

(** * The FourCC registry *)
Module FourCC.

Record entry (C : Type) : Type := mkEntry { e_fourcc : bytes; e_codec : C; e_name : bytes }.
Arguments mkEntry {C}.
Arguments e_fourcc {C}.
Arguments e_codec {C}.
Arguments e_name {C}.

Definition VIDEO_FOURCCS : list (entry VideoCodec) :=
  [mkEntry (text "avc1") H264 (text "H.264/AVC"); mkEntry (text "hvc1") H265 (text "H.265/HEVC");
   mkEntry (text "av01") Av1 (text "AV1"); mkEntry (text "vp09") Vp9 (text "VP9")].

Definition AUDIO_FOURCCS : list (entry AudioCodec) :=
  [mkEntry (text "Opus") Opus (text "Opus"); mkEntry (text "mp4a") Aac (text "AAC");
   mkEntry (text "mp3 ") Mp3 (text "MP3"); mkEntry (text ".mp3") Mp3 (text "MP3 (E-RTMP)");
   mkEntry (text "ac-3") Aac (text "Dolby Digital");
   mkEntry (text "ec-3") Aac (text "Dolby Digital Plus"); mkEntry (text "fLaC") Aac (text "FLAC")].

Section table.
Context {C : Type} `{EqDecision C}.

(** The loop over a table, on the first four bytes. *)
Fixpoint by_fourcc (cc : bytes) (t : list (entry C)) : option (entry C) :=
  match t with
  | [] => None
  | e :: t => if decide (cc = e_fourcc e) then Some e else by_fourcc cc t
  end.

Fixpoint by_codec (c : C) (t : list (entry C)) : option (entry C) :=
  match t with
  | [] => None
  | e :: t => if decide (e_codec e = c) then Some e else by_codec c t
  end.

Definition lookup_fourcc (t : list (entry C)) (fourcc : bytes) : option (entry C) :=
  if zlen fourcc <? 4 then None else by_fourcc (ztake 4 fourcc) t.
End table.

Definition fourcc_to_video_codec (fourcc : bytes) : Res VideoCodec :=
  match lookup_fourcc VIDEO_FOURCCS fourcc with Some e => Ok (e_codec e) | None => Err Chunk end.

Definition fourcc_to_audio_codec (fourcc : bytes) : Res AudioCodec :=
  match lookup_fourcc AUDIO_FOURCCS fourcc with Some e => Ok (e_codec e) | None => Err Chunk end.

Definition video_codec_to_fourcc (codec : VideoCodec) : bytes :=
  match by_codec codec VIDEO_FOURCCS with Some e => e_fourcc e | None => text "avc1" end.

Definition audio_codec_to_fourcc (codec : AudioCodec) : bytes :=
  match by_codec codec AUDIO_FOURCCS with Some e => e_fourcc e | None => text "mp4a" end.

Definition fourcc_video_name (fourcc : bytes) : option bytes :=
  e_name <$> lookup_fourcc VIDEO_FOURCCS fourcc.

Definition fourcc_audio_name (fourcc : bytes) : option bytes :=
  e_name <$> lookup_fourcc AUDIO_FOURCCS fourcc.
End FourCC.

(** * Video tag headers *)
Module ExVideo.

Definition ERTMP_PACKET_TYPE_MODEX : Z := 7.
Definition VIDEO_FRAME_TYPE_COMMAND : Z := 5.

Definition fourcc_parse (data : bytes) : Res bytes :=
  if zlen data <? 4 then Err Io
  else d ← slice data 0 4; copy_at (zrepeat 0 5) 0 d.

Definition is_composition_time_codec (fourcc : bytes) : Res bool :=
  cc ← slice fourcc 0 4;
  Ok (bool_decide (cc = text "avc1") || bool_decide (cc = text "hvc1")
      || bool_decide (cc = text "vvc1")).

(** The SI24 at an offset, sign extended, as the [u32] that is stored. *)
Definition si24_at (data : bytes) (off : Z) : Res Z :=
  b0 ← zidx data off; b1 ← zidx data (off + 1); b2 ← zidx data (off + 2);
  let ct := (Z.shiftl b0 16) .| (Z.shiftl b1 8) .| b2 in
  let ct := if negb (ct .& 8388608 =? 0) then ct .| (as_i32 4278190080) else ct in
  Ok (as_u32 ct).

(** A command frame: the tag byte and one command byte. *)
Definition is_command (frame_type packet_type : Z) : bool :=
  (frame_type =? VIDEO_FRAME_TYPE_COMMAND) && negb (packet_type =? ERTMP_PACKET_TYPE_METADATA)
  && negb (packet_type =? ERTMP_PACKET_TYPE_MODEX).

(** The header is written field by field, so an error leaves what was set. *)
Definition exvideo_parse (data : bytes) : ST VideoHeader unit :=
  put_st video_header_default;;
  guard_st (zlen data =? 0) Io;;
  b0 ← lift (zidx data 0);
  let ex := if negb (b0 .& 128 =? 0) then 1 else 0 in
  put_st (mkVideoHeader ex 0 fourcc_default 0 0 0);;
  if ex =? 0 then
    put_st (mkVideoHeader 0 0 fourcc_default ((b0 >> 4) .& 15) 0 1);;
    if (b0 .& 15 =? 7) && (5 <=? zlen data) then
      ct ← lift (si24_at data 2);
      put_st (mkVideoHeader 0 0 fourcc_default ((b0 >> 4) .& 15) ct 5)
    else mret tt
  else
    let ft := (b0 >> 4) .& 7 in
    let pt := b0 .& 15 in
    put_st (mkVideoHeader ex pt fourcc_default ft 0 0);;
    if is_command ft pt then
      guard_st (zlen data <? 2) Io;;
      put_st (mkVideoHeader ex pt fourcc_default ft 0 2)
    else
      guard_st (zlen data <? 5) Io;;
      d ← lift (slice data 1 5);
      cc ← lift (copy_at fourcc_default 0 d);
      put_st (mkVideoHeader ex pt cc ft 0 5);;
      timed ← (if pt =? 1 then lift (is_composition_time_codec cc) else mret false);
      if timed : bool then
        guard_st (zlen data <? 8) Io;;
        ct ← lift (si24_at data 5);
        put_st (mkVideoHeader ex pt cc ft ct 8)
      else mret tt.

(** The bytes written and the slice after the call. *)
Definition exvideo_write (hdr : VideoHeader) (buf : bytes) : Res (Z * bytes) :=
  if v_is_ex_header hdr =? 0 then Ok (0, buf)
  else if is_command (v_frame_type hdr) (v_packet_type hdr) then Ok (0, buf)
  else
    needs_ct ← (if v_packet_type hdr =? 1 then is_composition_time_codec (v_fourcc hdr) else Ok false);
    let len := if needs_ct : bool then 8 else 5 in
    if zlen buf <? len then Ok (0, buf)
    else
      buf ← copy_at buf 0 [128 .| as_u8 (Z.shiftl (v_frame_type hdr .& 7) 4) .| (v_packet_type hdr .& 15)];
      cc ← slice (v_fourcc hdr) 0 4;
      buf ← copy_at buf 1 cc;
      buf ← (if needs_ct then
               let ct := as_i32 (v_composition_time hdr) in
               copy_at buf 5 [as_u8 (ct >> 16); as_u8 (ct >> 8); as_u8 ct]
             else Ok buf);
      Ok (len, buf).

(** ** The composition time *)

(** A signed 24-bit number as the [u32] that holds its sign extension. *)
Definition si24 (n : Z) : Z := if n <? 8388608 then n else n + 4278190080.

Lemma si24_ok b0 b1 b2 : is_u8 b0 → is_u8 b1 → is_u8 b2 →
  let ct := (Z.shiftl b0 16) .| (Z.shiftl b1 8) .| b2 in
  as_u32 (if negb (ct .& 8388608 =? 0) then ct .| (as_i32 4278190080) else ct)
  = si24 (b0 * 65536 + b1 * 256 + b2).
Proof.
  intros H0 H1 H2 ct. assert (ct = b0 * 65536 + b1 * 256 + b2) as E.
  { unfold ct. rewrite !Z.shiftl_mul_pow2 by lia.
    rewrite (lor_low (b0 * 2 ^ 16) _ 16), (lor_low (b0 * 2 ^ 16 + _) b2 8); eval_pow2; try udivlia. }
  rewrite E. clear E ct. set (n := b0 * 65536 + b1 * 256 + b2).
  assert (0 ≤ n < 16777216) as Hn by (unfold n; ulia).
  rewrite (land_pow2_zero n 23 ltac:(lia) ltac:(lia) : (n .& 8388608 =? 0) = (n <? 8388608)).
  unfold si24. destruct (Z.ltb_spec n 8388608); simpl negb; cbv iota.
  - apply as_u32_id. ulia.
  - change (as_i32 4278190080) with (- 2 ^ 24). rewrite Z.lor_comm, (lor_low _ _ 24); [|lia|lia|done].
    unfold as_u32. eval_pow2. divlia.
Qed.

Lemma si24_at_ok k b0 b1 b2 r : is_u8 b0 → is_u8 b1 → is_u8 b2 →
  si24_at (k ++ b0 :: b1 :: b2 :: r) (zlen k) = Ok (si24 (b0 * 65536 + b1 * 256 + b2)).
Proof.
  intros H0 H1 H2. unfold si24_at, zidx.
  rewrite !zget_app_r by zlia. rewrite Z.sub_diag.
  replace (zlen k + 1 - zlen k) with 1 by lia. replace (zlen k + 2 - zlen k) with 2 by lia.
  exact (f_equal Ok (si24_ok b0 b1 b2 H0 H1 H2)).
Qed.

(** Its three bytes come back. *)
Lemma si24_bytes n : 0 ≤ n < 16777216 →
  let ct := as_i32 (si24 n) in
  [as_u8 (ct >> 16); as_u8 (ct >> 8); as_u8 ct] = [n / 65536; n / 256 mod 256; n mod 256].
Proof.
  intros Hn ct. assert (ct mod 16777216 = n) as E.
  { unfold ct, as_i32, si24. destruct (Z.ltb_spec n 8388608); cbv zeta.
    - rewrite (Z.mod_small n 4294967296) by lia. destruct (Z.ltb_spec n 2147483648); [|lia]. apply Z.mod_small. lia.
    - rewrite (Z.mod_small (n + 4278190080) 4294967296) by lia.
      destruct (Z.ltb_spec (n + 4278190080) 2147483648); [lia|]. divlia. }
  clearbody ct. rewrite !shiftr_div by lia. unfold as_u8. eval_pow2. subst n. f_equal; [divlia|]. f_equal; [divlia|]. f_equal. divlia.
Qed.

(** ** The enhanced layout *)

Definition frame_nibble (b0 : Z) : Z := (b0 >> 4) .& 7.
Definition timed (pt : Z) (cc : bytes) : bool :=
  (pt =? 1) && (bool_decide (cc = text "avc1") || bool_decide (cc = text "hvc1")
                || bool_decide (cc = text "vvc1")).

Lemma timed_ok (hdr_cc cc : bytes) pt r : zlen cc = 4 → hdr_cc = cc ++ r →
  (if pt =? 1 then is_composition_time_codec hdr_cc else Ok false) = Ok (timed pt cc).
Proof.
  intros Hc ->. unfold is_composition_time_codec, timed. rewrite slice_head by done.
  by destruct (pt =? 1).
Qed.

Lemma fourcc_copy cc : zlen cc = 4 → copy_at fourcc_default 0 cc = Ok (cc ++ [0]).
Proof. exact (copy_at_front cc (zrepeat 0 4) [0]). Qed.

(** The header of a tag whose FourCC is [cc]. *)
Definition tag_header (b0 : Z) (cc : bytes) (ct size : Z) : VideoHeader :=
  mkVideoHeader 1 (b0 .& 15) (cc ++ [0]) (frame_nibble b0) ct size.

Lemma parse_tag h0 b0 cc rest : is_u8 b0 → 128 ≤ b0 → zlen cc = 4 → bytes_ok rest →
  is_command (frame_nibble b0) (b0 .& 15) = false →
  exvideo_parse (b0 :: cc ++ rest) h0 =
  if timed (b0 .& 15) cc then
    match rest with
    | t0 :: t1 :: t2 :: _ =>
        (Ok tt, tag_header b0 cc (si24 (t0 * 65536 + t1 * 256 + t2)) 8)
    | _ => (Err Io, tag_header b0 cc 0 5)
    end
  else (Ok tt, tag_header b0 cc 0 5).
Proof.
  intros Hb Hge Hc Ho Hcmd. unfold exvideo_parse.
  rewrite (bind_ok _ _ _ tt video_header_default) by done.
  rewrite guard_pass by (apply Z.eqb_neq; zlia).
  rewrite (bind_ok _ _ _ b0 video_header_default) by done.
  rewrite land_128 by done. rewrite (proj2 (Z.ltb_ge b0 128)) by done. simpl negb. cbv iota.
  rewrite (bind_ok _ _ _ tt (mkVideoHeader 1 0 fourcc_default 0 0 0)) by done.
  change (1 =? 0) with false. cbv iota. fold (frame_nibble b0).
  rewrite (bind_ok _ _ _ tt (mkVideoHeader 1 (b0 .& 15) fourcc_default (frame_nibble b0) 0 0)) by done.
  rewrite Hcmd. rewrite guard_pass by (apply Z.ltb_ge; zlia).
  rewrite slice_tail by lia. change (1 - 1) with 0. change (5 - 1) with 4.
  rewrite slice_head by done. unfold lift at 1.
  set (h1 := mkVideoHeader 1 (b0 .& 15) fourcc_default (frame_nibble b0) 0 0).
  rewrite (bind_ok _ _ _ cc h1) by done.
  rewrite (bind_ok _ _ _ (cc ++ [0]) h1)
    by (unfold lift; by rewrite fourcc_copy).
  rewrite (bind_ok _ _ _ tt (tag_header b0 cc 0 5)) by done.
  rewrite (bind_ok _ _ _ (timed (b0 .& 15) cc) (tag_header b0 cc 0 5)).
  2: { pose proof (timed_ok (cc ++ [0]) cc (b0 .& 15) [0] Hc eq_refl) as E.
       destruct (b0 .& 15 =? 1); [unfold lift; by rewrite E|].
       injection E as <-. done. }
  destruct (timed (b0 .& 15) cc); [|done].
  destruct rest as [|t0 [|t1 [|t2 rest]]].
  1-3: unfold guard_st; rewrite (proj2 (Z.ltb_lt _ 8)) by zlia; done.
  rewrite guard_pass by (apply Z.ltb_ge; zlia). inversion_clear Ho as [|??? Ho1].
  inversion_clear Ho1 as [|??? Ho2]. inversion_clear Ho2.
  pose proof (si24_at_ok (b0 :: cc) t0 t1 t2 rest) as E. rewrite zlen_cons, Hc in E.
  change (1 + 4) with 5 in E. simpl app in E.
  rewrite (bind_ok _ _ _ _ _ (f_equal (λ r, (r, tag_header b0 cc 0 5)) (E ltac:(done) ltac:(done) ltac:(done)))).
  done.
Qed.

Lemma tag_byte b0 : is_u8 b0 → 128 ≤ b0 →
  128 .| as_u8 (Z.shiftl (frame_nibble b0 .& 7) 4) .| ((b0 .& 15) .& 15) = b0.
Proof.
  intros Hb Hge. pose proof (byte_forall (λ b, (b <? 128)
    || (128 .| as_u8 (Z.shiftl (frame_nibble b .& 7) 4) .| ((b .& 15) .& 15) =? b)) eq_refl b0 Hb) as H.
  cbv beta in H. rewrite (proj2 (Z.ltb_ge _ _) Hge) in H. by apply Z.eqb_eq.
Qed.

Lemma write_tag b0 cc n size buf : is_u8 b0 → 128 ≤ b0 → zlen cc = 4 → 0 ≤ n < 16777216 →
  is_command (frame_nibble b0) (b0 .& 15) = false →
  let len := if timed (b0 .& 15) cc then 8 else 5 in
  len ≤ zlen buf →
  exvideo_write (tag_header b0 cc (si24 n) size) buf =
    Ok (len, b0 :: cc ++ (if timed (b0 .& 15) cc then [n / 65536; n / 256 mod 256; n mod 256] else [])
             ++ zdrop len buf).
Proof.
  intros Hb Hge Hc Hn Hcmd len Hl. unfold exvideo_write, tag_header. cbn [v_is_ex_header v_frame_type
    v_packet_type v_fourcc v_composition_time]. change (1 =? 0) with false. cbv iota.
  rewrite Hcmd, (timed_ok _ cc _ [0] Hc eq_refl), Ok_bind. fold len.
  rewrite (proj2 (Z.ltb_ge _ _) Hl), tag_byte by done.
  assert (5 ≤ zlen buf) as H5 by (unfold len in Hl; destruct (timed _ _); lia).
  destruct (zlen_split buf 1) as ([|x []]&r&->&Hx); [lia|done| |zlia].
  rewrite (copy_at_front [b0] [x]), Ok_bind, slice_head, Ok_bind by done.
  destruct (zlen_split r 4) as (k&r'&->&Hk); [zlia|].
  rewrite (copy_at_middle [b0] cc k r'), Ok_bind by congruence || done.
  unfold len in *. clear len. destruct (timed (b0 .& 15) cc); rewrite ?Ok_bind.
  - destruct (zlen_split r' 3) as (c&r''&->&Hr); [zlia|].
    rewrite si24_bytes by done.
    pose proof (copy_at_middle (b0 :: cc) [n / 65536; n / 256 mod 256; n mod 256] c r'' 5) as E.
    simpl app in E |- *. rewrite E, Ok_bind by (rewrite ?zlen_cons, ?Hc, ?Hr; done).
    pose proof (zdrop_app_len (x :: k ++ c) r'' 8 ltac:(rewrite zlen_cons, zlen_app; lia)) as D.
    simpl app in D. rewrite <- app_assoc in D. by rewrite D.
  - pose proof (zdrop_app_len (x :: k) r' 5 ltac:(rewrite zlen_cons; lia)) as D.
    simpl app in D |- *. by rewrite D.
Qed.

(** Run the parser up to the test of the first byte. *)
Ltac parse_start b0 l :=
  unfold exvideo_parse, put_st, guard_st, lift, mbind, ST_bind;
  rewrite (proj2 (Z.eqb_neq (zlen (b0 :: l)) 0)) by zlia;
  change (zidx (b0 :: l) 0) with (Ok b0); simpl; rewrite land_128 by done.

(** What the parser does on every input. *)
Lemma parse_total data h0 : bytes_ok data →
  match exvideo_parse data h0 with
  | (Ok _, h) => 1 ≤ v_header_size h ≤ zlen data
      ∧ (v_is_ex_header h = 1 → is_command (v_frame_type h) (v_packet_type h) = false →
         ∃ b0 cc rest n, data = b0 :: cc ++ rest ∧ is_u8 b0 ∧ 128 ≤ b0 ∧ zlen cc = 4
           ∧ 0 ≤ n < 16777216 ∧ h = tag_header b0 cc (si24 n) (v_header_size h)
           ∧ v_header_size h = (if timed (b0 .& 15) cc then 8 else 5)
           ∧ (timed (b0 .& 15) cc = true →
              ∃ r, rest = n / 65536 :: n / 256 mod 256 :: n mod 256 :: r))
  | (Err e, _) => e = Io
  | (Panic, _) => False
  end.
Proof.
  intros Ho. destruct data as [|b0 l]; [done|]. inversion Ho as [|?? Hb Hl]; subst.
  destruct (decide (b0 < 128)) as [Hlt|Hge].
  { parse_start b0 l. rewrite (proj2 (Z.ltb_lt _ _) Hlt). simpl.
    destruct (_ && _) eqn:E; [|simpl; split; [zlia|done]].
    apply andb_true_iff in E as [_ E]. apply Z.leb_le in E.
    destruct l as [|b1 [|b2 [|b3 [|b4 l]]]]; try (zlen_facts; autorewrite with zlen in E; lia).
    repeat match goal with H : Forall _ (_ :: _) |- _ => inversion_clear H end.
    pose proof (si24_at_ok [b0; b1] b2 b3 b4 l) as Es. change (zlen [b0; b1]) with 2 in Es.
    simpl app in Es. rewrite Es by done. simpl. split; [zlia|done]. }
  destruct (is_command (frame_nibble b0) (b0 .& 15)) eqn:Hcmd.
  { parse_start b0 l. rewrite (proj2 (Z.ltb_ge b0 128)) by lia. simpl.
    fold (frame_nibble b0). rewrite Hcmd. zcase; [done|]. simpl.
    split; [lia|]. intros _ Hn. congruence. }
  destruct (decide (4 ≤ zlen l)) as [H4|H4].
  - destruct (zlen_split l 4) as (cc&rest&->&Hc); [lia|]. apply Forall_app in Hl as [Hcc Hr].
    rewrite parse_tag by (done || lia). destruct (timed (b0 .& 15) cc) eqn:Ht.
    + destruct rest as [|t0 [|t1 [|t2 rest]]]; try done.
      repeat match goal with H : Forall _ (_ :: _) |- _ => inversion_clear H end.
      simpl v_header_size. split; [zlia|]. intros _ _. exists b0, cc, (t0 :: t1 :: t2 :: rest).
      set (n := t0 * 65536 + t1 * 256 + t2). exists n. rewrite Ht. unfold n in *.
      split_and!; try done; try ulia. intros _. exists rest. repeat f_equal; udivlia.
    + simpl v_header_size. split; [zlia|]. intros _ _. exists b0, cc, rest, 0. rewrite Ht.
      split_and!; try done; lia.
  - parse_start b0 l. rewrite (proj2 (Z.ltb_ge b0 128)) by lia. simpl.
    fold (frame_nibble b0). rewrite Hcmd. rewrite (proj2 (Z.ltb_lt _ 5)) by zlia. done.
Qed.

(** C20. An enhanced video tag header that parses is written back byte for byte:
    the writer puts exactly the parsed prefix in front of what the slice held,
    and reports its length. A command frame is excluded, since its command
    byte is not kept. *)
Theorem exvideo_reencodes data h0 h buf : bytes_ok data → exvideo_parse data h0 = (Ok tt, h) →
  v_is_ex_header h = 1 → is_command (v_frame_type h) (v_packet_type h) = false →
  v_header_size h ≤ zlen buf →
  exvideo_write h buf = Ok (v_header_size h,
    ztake (v_header_size h) data ++ zdrop (v_header_size h) buf).
Proof.
  intros Ho E Hex Hcmd Hl. pose proof (parse_total data h0 Ho) as H. rewrite E in H.
  destruct H as [_ H]. destruct (H Hex Hcmd) as (b0&cc&rest&n&->&Hb&Hge&Hc&Hn&Eh&Es&Hr).
  rewrite Eh in Hcmd. simpl in Hcmd.
  rewrite Eh at 1. rewrite write_tag by (done || congruence). rewrite <- Es. do 2 f_equal.
  destruct (timed (b0 .& 15) cc).
  - destruct (Hr eq_refl) as [r ->]. rewrite Es.
    pose proof (ztake_app_len (b0 :: cc ++ [n / 65536; n / 256 mod 256; n mod 256]) r 8) as T.
    simpl app in T. rewrite <- app_assoc in T. simpl app in T.
    rewrite T by (rewrite zlen_cons, zlen_app, Hc; done). simpl. by rewrite <- app_assoc.
  - rewrite Es. pose proof (ztake_app_len (b0 :: cc) rest 5) as T. simpl app in T.
    rewrite T by (rewrite zlen_cons, Hc; done). done.
Qed.

Lemma exvideo_reencodes_witness : ∃ h,
  exvideo_parse [145; 97; 118; 99; 49; 255; 255; 254; 7; 7] video_header_default = (Ok tt, h)
  ∧ v_composition_time h = 4294967294
  ∧ exvideo_write h (zrepeat 1 9) = Ok (8, [145; 97; 118; 99; 49; 255; 255; 254; 1]).
Proof.
  eexists. split; [vm_compute; reflexivity|]. split; [reflexivity|].
  exact (exvideo_reencodes [145; 97; 118; 99; 49; 255; 255; 254; 7; 7] video_header_default _
    (zrepeat 1 9) ltac:(repeat (apply bytes_ok_cons; [ulia|]); constructor)
    ltac:(vm_compute; reflexivity) eq_refl eq_refl ltac:(vm_compute; discriminate)).
Defined.
End ExVideo.

(** * Audio tag headers *)
Module ExAudio.

(** The codec of a legacy SoundFormat nibble. *)
Definition legacy_codec (nibble : Z) : Res AudioCodec :=
  match nibble with
  | 0 => Ok Pcm | 1 => Ok Adpcm | 2 => Ok Mp3 | 3 => Ok PcmLe | 4 => Ok Nelly16k | 5 => Ok Nelly8k
  | 6 => Ok Nelly | 7 => Ok G711A | 8 => Ok G711U | 10 => Ok Aac | 11 => Ok Speex | 14 => Ok Mp3
  | _ => Err Unsupported
  end.

Definition codec_nibble (c : AudioCodec) : option Z :=
  match c with
  | Pcm => Some 0 | Adpcm => Some 1 | Mp3 => Some 2 | PcmLe => Some 3 | Nelly16k => Some 4
  | Nelly8k => Some 5 | Nelly => Some 6 | G711A => Some 7 | G711U => Some 8 | Aac => Some 10
  | Speex => Some 11 | Opus => None
  end.

Definition exaudio_parse (data : bytes) : ST AudioHeader unit :=
  put_st audio_header_default;;
  guard_st (zlen data =? 0) Io;;
  b0 ← lift (zidx data 0);
  let is_ex := (b0 >> 4) .& 15 =? 9 in
  guard_st (is_ex && (zlen data <? 5)) Io;;
  put_st (mkAudioHeader (if is_ex then 1 else 0) 0 fourcc_default audio_codec_default 0 0 0 0 0);;
  if negb is_ex then
    c ← lift (legacy_codec ((b0 >> 4) .& 15));
    let h := mkAudioHeader 0 0 fourcc_default c ((b0 >> 2) .& 3) ((b0 >> 1) .& 1) (b0 .& 1) in
    put_st (h 0 1);;
    if bool_decide (c = Aac) && (2 <=? zlen data) then
      b1 ← lift (zidx data 1);
      put_st (h b1 2)
    else mret tt
  else
    d ← lift (slice data 1 5);
    cc ← lift (copy_at fourcc_default 0 d);
    put_st (mkAudioHeader 1 (b0 .& 15) cc
      (match FourCC.fourcc_to_audio_codec d with Ok c => c | _ => audio_codec_default end) 0 0 0 0 5).

Definition exaudio_write (hdr : AudioHeader) (buf : bytes) : Res (Z * bytes) :=
  if a_is_ex_header hdr =? 0 then
    match codec_nibble (a_audio_codec hdr) with
    | None => Ok (0, buf)
    | Some nibble =>
        let b0 := as_u8 (Z.shiftl nibble 4) .| as_u8 (Z.shiftl (a_sample_rate hdr .& 3) 2)
                  .| as_u8 (Z.shiftl (a_sample_size hdr .& 1) 1) .| (a_channels hdr .& 1) in
        if decide (a_audio_codec hdr = Aac) then
          if zlen buf <? 2 then Ok (0, buf)
          else buf ← copy_at buf 0 [b0]; buf ← copy_at buf 1 [a_aac_packet_type hdr]; Ok (2, buf)
        else if zlen buf =? 0 then Ok (0, buf)
        else buf ← copy_at buf 0 [b0]; Ok (1, buf)
    end
  else if zlen buf <? 5 then Ok (0, buf)
  else
    buf ← copy_at buf 0 [144 .| (a_packet_type hdr .& 15)];
    cc ← slice (a_fourcc hdr) 0 4;
    buf ← copy_at buf 1 cc;
    Ok (5, buf).

(** ** Round trip *)

(** The headers the writer represents: a legacy header of a codec with a
    nibble, or an enhanced one whose codec is the one of its FourCC. *)
Definition representable (h : AudioHeader) : Prop :=
  (∃ c sr ss ch aac, h = mkAudioHeader 0 0 fourcc_default c sr ss ch
       (if decide (c = Aac) then aac else 0) (if decide (c = Aac) then 2 else 1)
     ∧ c ≠ Opus ∧ 0 ≤ sr < 4 ∧ 0 ≤ ss < 2 ∧ 0 ≤ ch < 2 ∧ is_u8 aac)
  ∨ (∃ pt cc, h = mkAudioHeader 1 pt (cc ++ [0])
       (match FourCC.fourcc_to_audio_codec cc with Ok c => c | _ => audio_codec_default end) 0 0 0 0 5
     ∧ 0 ≤ pt < 16 ∧ zlen cc = 4).

(** The bytes of a legacy header decode to its fields. *)
Definition legacy_byte (nibble sr ss ch : Z) : Z :=
  as_u8 (Z.shiftl nibble 4) .| as_u8 (Z.shiftl (sr .& 3) 2) .| as_u8 (Z.shiftl (ss .& 1) 1) .| (ch .& 1).

Lemma legacy_byte_fields nibble sr ss ch : 0 ≤ nibble < 16 → 0 ≤ sr < 4 → 0 ≤ ss < 2 → 0 ≤ ch < 2 →
  let b := legacy_byte nibble sr ss ch in
  (b >> 4) .& 15 = nibble ∧ (b >> 2) .& 3 = sr ∧ (b >> 1) .& 1 = ss ∧ b .& 1 = ch.
Proof.
  intros Hn Hr Hs Hc b.
  pose proof (byte_forall (λ x,
    let '(n, r, s, c) := (x / 16, x / 4 mod 4, x / 2 mod 2, x mod 2) in
    let b := legacy_byte n r s c in
    ((b >> 4) .& 15 =? n) && ((b >> 2) .& 3 =? r) && ((b >> 1) .& 1 =? s) && (b .& 1 =? c))
    eq_refl (nibble * 16 + sr * 4 + ss * 2 + ch) ltac:(ulia)) as H. cbv beta zeta iota in H.
  replace ((nibble * 16 + sr * 4 + ss * 2 + ch) / 16) with nibble in H by divlia.
  replace ((nibble * 16 + sr * 4 + ss * 2 + ch) / 4 mod 4) with sr in H by divlia.
  replace ((nibble * 16 + sr * 4 + ss * 2 + ch) / 2 mod 2) with ss in H by divlia.
  replace ((nibble * 16 + sr * 4 + ss * 2 + ch) mod 2) with ch in H by divlia.
  rewrite !andb_true_iff, !Z.eqb_eq in H. unfold b. by destruct_and! H.
Qed.

Lemma legacy_codec_nibble c nibble : codec_nibble c = Some nibble →
  0 ≤ nibble < 16 ∧ nibble ≠ 9 ∧ legacy_codec nibble = Ok c.
Proof. by destruct c; intros [= <-]. Qed.

Lemma parse_legacy h0 nibble c sr ss ch l : codec_nibble c = Some nibble →
  0 ≤ sr < 4 → 0 ≤ ss < 2 → 0 ≤ ch < 2 → (c = Aac → l ≠ []) →
  exaudio_parse (legacy_byte nibble sr ss ch :: l) h0
  = (Ok tt, mkAudioHeader 0 0 fourcc_default c sr ss ch
       (if decide (c = Aac) then default 0 (head l) else 0) (if decide (c = Aac) then 2 else 1)).
Proof.
  intros Hc Hr Hs Hh Hl. destruct (legacy_codec_nibble c nibble Hc) as (Hn&H9&Ec).
  destruct (legacy_byte_fields nibble sr ss ch Hn Hr Hs Hh) as (E1&E2&E3&E4).
  unfold exaudio_parse, put_st, guard_st, lift, mbind, ST_bind. set (b := legacy_byte _ _ _ _) in *.
  rewrite (proj2 (Z.eqb_neq (zlen (b :: l)) 0)) by zlia. change (zidx (b :: l) 0) with (Ok b).
  cbv beta iota zeta. rewrite E1, (proj2 (Z.eqb_neq nibble 9)) by done. cbn [andb negb]. cbv iota.
  rewrite Ec, E2, E3, E4. cbv iota. case_decide as Ea.
  - rewrite bool_decide_true by done. destruct l as [|x l]; [by destruct (Hl Ea)|].
    rewrite (proj2 (Z.leb_le 2 _)) by zlia. done.
  - by rewrite bool_decide_false.
Qed.

Lemma parse_enhanced h0 pt cc rest : 0 ≤ pt < 16 → zlen cc = 4 →
  exaudio_parse ((144 .| (pt .& 15)) :: cc ++ rest) h0
  = (Ok tt, mkAudioHeader 1 pt (cc ++ [0])
      (match FourCC.fourcc_to_audio_codec cc with Ok c => c | _ => audio_codec_default end) 0 0 0 0 5).
Proof.
  intros Hp Hc. set (b := 144 .| (pt .& 15)).
  assert ((b >> 4) .& 15 = 9 ∧ b .& 15 = pt) as [E1 E2].
  { pose proof (byte_forall (λ p, (16 <=? p) || (((144 .| (p .& 15)) >> 4) .& 15 =? 9)
      && ((144 .| (p .& 15)) .& 15 =? p)) eq_refl pt ltac:(ulia)) as H. cbv beta in H.
    rewrite (proj2 (Z.leb_gt 16 pt)) in H by lia. simpl in H.
    rewrite andb_true_iff, !Z.eqb_eq in H. done. }
  unfold exaudio_parse, put_st, guard_st, lift, mbind, ST_bind.
  rewrite (proj2 (Z.eqb_neq (zlen (b :: cc ++ rest)) 0)) by zlia.
  change (zidx (b :: cc ++ rest) 0) with (Ok b). cbv beta iota zeta.
  rewrite E1. change (9 =? 9) with true. rewrite (proj2 (Z.ltb_ge _ 5)) by zlia.
  cbn [andb negb]. cbv iota. rewrite slice_tail by lia. change (1 - 1) with 0. change (5 - 1) with 4.
  rewrite slice_head by done. cbv iota. rewrite ExVideo.fourcc_copy by done. by rewrite E2.
Qed.

(** Every representable audio header is written in the bytes its
    [header_size] announces, the rest of the slice is kept, and the parser
    reads the same header back whatever follows it. *)
Theorem exaudio_roundtrip h buf : representable h → a_header_size h ≤ zlen buf →
  ∃ d, exaudio_write h buf = Ok (a_header_size h, d ++ zdrop (a_header_size h) buf)
    ∧ zlen d = a_header_size h
    ∧ ∀ rest h0, exaudio_parse (d ++ rest) h0 = (Ok tt, h).
Proof.
  intros [(c&sr&ss&ch&aac&->&Hc&Hr&Hs&Hh&Ha)|(pt&cc&->&Hp&Hc)] Hl; unfold exaudio_write; simpl in *.
  - destruct (codec_nibble c) as [nibble|] eqn:En; [|by destruct c].
    change (as_u8 _ .| _ .| _ .| _) with (legacy_byte nibble sr ss ch).
    case_decide as Ea.
    + destruct buf as [|x [|y r]]; [done|done|]. rewrite (proj2 (Z.ltb_ge _ 2)) by zlia.
      rewrite set_head, Ok_bind, set_second, Ok_bind.
      exists [legacy_byte nibble sr ss ch; aac]. split_and!; [done|done|]. intros rest h0.
      simpl app. rewrite (parse_legacy h0 nibble c) by done. by rewrite !(decide_True _ _ Ea).
    + destruct buf as [|x r]; [done|]. rewrite (proj2 (Z.eqb_neq _ 0)) by zlia.
      rewrite set_head, Ok_bind.
      exists [legacy_byte nibble sr ss ch]. split_and!; [done|done|]. intros rest h0.
      simpl app. rewrite (parse_legacy h0 nibble c) by done. by rewrite !(decide_False _ _ Ea).
  - rewrite (proj2 (Z.ltb_ge _ _) Hl).
    destruct (zlen_split buf 1) as ([|x []]&r&->&Hx); [lia|done| |zlia].
    destruct (zlen_split r 4) as (k&r'&->&Hk); [zlia|].
    rewrite (copy_at_front [144 .| (pt .& 15)] [x]), Ok_bind, slice_head, Ok_bind by done.
    rewrite (copy_at_middle [144 .| (pt .& 15)] cc k r'), Ok_bind by congruence || done.
    exists ((144 .| (pt .& 15)) :: cc). split_and!.
    + pose proof (zdrop_app_len (x :: k) r' 5 ltac:(rewrite zlen_cons; lia)) as D.
      simpl app in D |- *. by rewrite D.
    + rewrite zlen_cons. lia.
    + intros rest h0. by apply parse_enhanced.
Qed.

Lemma exaudio_roundtrip_witness :
  exaudio_parse (146 :: text "Opus") audio_header_default
  = (Ok tt, mkAudioHeader 1 2 (text "Opus" ++ [0]) Opus 0 0 0 0 5).
Proof.
  destruct (exaudio_roundtrip (mkAudioHeader 1 2 (text "Opus" ++ [0]) Opus 0 0 0 0 5) (zrepeat 0 5))
    as (d&E&_&H).
  - right. exists 2, (text "Opus"). split; [reflexivity|]. split; [lia|reflexivity].
  - vm_compute. discriminate.
  - specialize (H [] audio_header_default). rewrite app_nil_r in H.
    change (zdrop _ _) with (@nil Z) in E. rewrite app_nil_r in E.
    vm_compute in E. injection E as E. rewrite <- E in H. exact H.
Defined.
End ExAudio.

(** * Colour info, reconnect request and multitrack descriptor *)
Module Descriptors.

Definition hdr_init (hdr : HdrInfo) : HdrInfo := mkHdr 1 1 1.

Definition u16_at (data : bytes) (off : Z) : Res Z :=
  b0 ← zidx data off; b1 ← zidx data (off + 1); Ok (u16_be b0 b1).

Definition u32_at (data : bytes) (off : Z) : Res Z :=
  b0 ← zidx data off; b1 ← zidx data (off + 1); b2 ← zidx data (off + 2); b3 ← zidx data (off + 3);
  Ok (u32_be b0 b1 b2 b3).

Definition hdr_parse (data : bytes) : ST HdrInfo unit :=
  modify hdr_init;;
  guard_st (zlen data <? 6) Io;;
  p ← lift (u16_at data 0); t ← lift (u16_at data 2); m ← lift (u16_at data 4);
  put_st (mkHdr p t m).

Definition hdr_write (hdr : HdrInfo) (buf : bytes) : Res (Z * bytes) :=
  if zlen buf <? 6 then Ok (0, buf)
  else
    buf ← copy_at buf 0 (to_be_bytes16 (color_primaries hdr) ++ to_be_bytes16 (transfer_chars hdr)
                         ++ to_be_bytes16 (matrix_coeffs hdr));
    Ok (6, buf).

Definition metadata_colorinfo_parse (data : bytes) : ST HdrInfo unit :=
  modify hdr_init;;
  guard_st (zlen data <? 6) Io;;
  hdr_parse data.

Definition videocodecid_from_fourcc (fourcc : bytes) : Res Z :=
  if zlen fourcc <? 4 then Ok 7 else u32_at fourcc 0.

Definition caps_negotiate : Res unit := Err Unsupported.

Definition reconnect_parse (data : bytes) : ST Reconnect unit :=
  guard_st (negb (zlen data =? 8)) Io;;
  r ← lift (u32_at data 0); l ← lift (u32_at data 4);
  put_st (mkReconnect r l).

Definition reconnect_write (rc : Reconnect) (buf : bytes) : Res (Z * bytes) :=
  if zlen buf <? 8 then Ok (0, buf)
  else
    buf ← copy_at buf 0 (to_be_bytes32 (rc_replay rc) ++ to_be_bytes32 (rc_limit rc));
    Ok (8, buf).

(** The track type of an IEEE-754 bit pattern: 0.0 (of either sign), 1.0, or
    anything else; and the pattern of a track type's number. *)
Definition track_type_of (bits : Z) : MultitrackType :=
  if (bits =? 0) || (bits =? 9223372036854775808) then MtAudio
  else if bits =? 4607182418800017408 then MtVideo
  else MtMetadata.

Definition track_type_bits (t : MultitrackType) : Z :=
  match t with MtAudio => 0 | MtVideo => 4607182418800017408 | MtMetadata => 4611686018427387904 end.

Definition multitrack_parse (data : bytes) : ST Multitrack unit :=
  put_st multitrack_default;;
  guard_st (zlen data <? 9) Io;;
  b0 ← lift (zidx data 0);
  guard_st (negb (b0 =? 0)) Protocol;;
  d ← lift (slice data 1 9);
  bits ← lift (u64_be d);
  put_st (mkMultitrack (track_type_of bits) (zrepeat 0 64));;
  guard_st (zlen data <? 9 + 3) Io;;
  m ← lift (zidx data 9);
  guard_st (negb (m =? 2)) Protocol;;
  h ← lift (zidx data 10); l ← lift (zidx data 11);
  let name_len := (Z.shiftl h 8) .| l in
  guard_st (zlen data <? 9 + 3 + name_len) Io;;
  let copy_len := Z.min name_len 63 in
  d ← lift (slice data 12 (12 + copy_len));
  name ← lift (copy_at (zrepeat 0 64) 0 d);
  name ← lift (copy_at name copy_len [0]);
  put_st (mkMultitrack (track_type_of bits) name).

(** [iter().position(|&b| b == 0)]. *)
Fixpoint position_zero (l : bytes) : option Z :=
  match l with
  | [] => None
  | b :: l => if b =? 0 then Some 0 else Z.succ <$> position_zero l
  end.

Definition multitrack_write (mt : Multitrack) (buf : bytes) : Res (Z * bytes) :=
  let name_len := default 63 (position_zero (mt_track_name mt)) in
  let needed := 1 + 8 + 1 + 2 + name_len in
  if zlen buf <? needed then Ok (0, buf)
  else
    buf ← copy_at buf 0 [0];
    buf ← copy_at buf 1 (to_be_bytes64 (track_type_bits (mt_track_type mt)));
    buf ← copy_at buf 9 [2];
    buf ← copy_at buf 10 [as_u8 (name_len >> 8); as_u8 name_len];
    d ← slice (mt_track_name mt) 0 name_len;
    buf ← copy_at buf 12 d;
    Ok (12 + name_len, buf).

Lemma u16_at_ok k v r : is_u16 v → u16_at (k ++ to_be_bytes16 v ++ r) (zlen k) = Ok v.
Proof.
  intros Hv. unfold u16_at. rewrite (zidx_app_at k _ 0 (zlen k)), (zidx_app_at k _ 1 (zlen k + 1)) by lia.
  transitivity (Ok (u16_be (as_u8 (v >> 8)) (as_u8 v))); [done|].
  rewrite u16_be_val by auto with ints. by rewrite be16_roundtrip.
Qed.

Lemma u32_at_ok k v r : is_u32 v → u32_at (k ++ to_be_bytes32 v ++ r) (zlen k) = Ok v.
Proof.
  intros Hv. unfold u32_at.
  rewrite (zidx_app_at k _ 0 (zlen k)), (zidx_app_at k _ 1 (zlen k + 1)),
    (zidx_app_at k _ 2 (zlen k + 2)), (zidx_app_at k _ 3 (zlen k + 3)) by lia.
  transitivity (Ok (u32_be (as_u8 (v >> 24)) (as_u8 (v >> 16)) (as_u8 (v >> 8)) (as_u8 v))); [done|].
  rewrite u32_be_val by auto with ints. by rewrite be32_roundtrip.
Qed.

(** What the writers put in a slice with room for it. *)
Definition hdr_bytes (hdr : HdrInfo) : bytes :=
  to_be_bytes16 (color_primaries hdr) ++ to_be_bytes16 (transfer_chars hdr)
  ++ to_be_bytes16 (matrix_coeffs hdr).

Lemma hdr_parse_bytes hdr h0 r : is_u16 (color_primaries hdr) → is_u16 (transfer_chars hdr) →
  is_u16 (matrix_coeffs hdr) → hdr_parse (hdr_bytes hdr ++ r) h0 = (Ok tt, hdr).
Proof.
  destruct hdr as [p t m]; cbn [color_primaries transfer_chars matrix_coeffs]. intros Hp Ht Hm.
  unfold hdr_bytes, hdr_parse; cbn [color_primaries transfer_chars matrix_coeffs].
  rewrite (bind_ok _ _ _ tt (mkHdr 1 1 1)) by done. rewrite <- !app_assoc.
  rewrite guard_pass by (apply Z.ltb_ge; zlia).
  pose proof (u16_at_ok [] p (to_be_bytes16 t ++ to_be_bytes16 m ++ r) Hp) as Ep.
  pose proof (u16_at_ok (to_be_bytes16 p) t (to_be_bytes16 m ++ r) Ht) as Et.
  pose proof (u16_at_ok (to_be_bytes16 p ++ to_be_bytes16 t) m r Hm) as Em.
  rewrite <- app_assoc, zlen_app, !zlen_be16 in Em. rewrite zlen_be16 in Et.
  unfold lift. change (2 + 2) with 4 in Em. change (zlen []) with 0 in Ep. rewrite app_nil_l in Ep.
  unfold mbind, ST_bind. by rewrite Ep, Et, Em.
Qed.

Lemma reconnect_parse_bytes rc r0 : is_u32 (rc_replay rc) → is_u32 (rc_limit rc) →
  reconnect_parse (to_be_bytes32 (rc_replay rc) ++ to_be_bytes32 (rc_limit rc)) r0 = (Ok tt, rc).
Proof.
  destruct rc as [p l]; cbn [rc_replay rc_limit]. intros Hp Hl. unfold reconnect_parse.
  rewrite guard_pass by (rewrite zlen_app, !zlen_be32; done).
  pose proof (u32_at_ok [] p (to_be_bytes32 l) Hp) as Ep.
  pose proof (u32_at_ok (to_be_bytes32 p) l [] Hl) as El. rewrite app_nil_r, zlen_be32 in El.
  change (zlen []) with 0 in Ep. rewrite app_nil_l in Ep.
  unfold lift, mbind, ST_bind. by rewrite Ep, El.
Qed.

(** A NUL-terminated name in its 64-byte array. *)
Definition c_name (name : bytes) : bytes := name ++ zrepeat 0 (64 - zlen name).

Lemma position_zero_name name r : Forall (λ b, b ≠ 0) name →
  position_zero (name ++ 0 :: r) = Some (zlen name).
Proof.
  induction 1 as [|b name Hb _ IH]; [done|]. simpl. rewrite (proj2 (Z.eqb_neq b 0) Hb), IH.
  simpl. f_equal. rewrite zlen_cons. lia.
Qed.

Lemma track_type_bits_of t : track_type_of (track_type_bits t) = t ∧ is_u64 (track_type_bits t).
Proof. destruct t; (split; [done|]); unfold is_u64; simpl; lia. Qed.

Definition multitrack_bytes (mt : Multitrack) (name : bytes) : bytes :=
  [0] ++ to_be_bytes64 (track_type_bits (mt_track_type mt)) ++ [2] ++ to_be_bytes16 (zlen name) ++ name.

Lemma multitrack_written ty name r buf : Forall (λ b, b ≠ 0) name →
  12 + zlen name ≤ zlen buf →
  multitrack_write (mkMultitrack ty (name ++ 0 :: r)) buf = Ok (12 + zlen name,
    multitrack_bytes (mkMultitrack ty (name ++ 0 :: r)) name ++ zdrop (12 + zlen name) buf).
Proof.
  intros Hn Hl. unfold multitrack_write. cbn [mt_track_type mt_track_name].
  rewrite position_zero_name by done. simpl default.
  rewrite (proj2 (Z.ltb_ge _ _)) by lia.
  pose proof (zlen_nonneg name).
  destruct (zlen_split buf 1) as (k1&buf1&->&H1); [lia|]. rewrite zlen_app in Hl.
  destruct (zlen_split buf1 8) as (k2&buf2&->&H2); [lia|]. rewrite zlen_app in Hl.
  destruct (zlen_split buf2 1) as (k3&buf3&->&H3); [lia|]. rewrite zlen_app in Hl.
  destruct (zlen_split buf3 2) as (k4&buf4&->&H4); [lia|]. rewrite zlen_app in Hl.
  destruct (zlen_split buf4 (zlen name)) as (k5&buf5&->&H5); [lia|].
  set (b8 := to_be_bytes64 (track_type_bits ty)).
  assert (zlen b8 = 8) as Hb8 by apply zlen_be64.
  rewrite copy_at_front, Ok_bind by (rewrite H1; done).
  rewrite (copy_at_middle [0] b8 k2), Ok_bind by (done || lia).
  rewrite !(app_assoc [0] b8), (copy_at_middle ([0] ++ b8) [2] k3), Ok_bind
    by (rewrite ?zlen_app, ?Hb8; done || lia).
  rewrite (app_assoc ([0] ++ b8) [2]).
  rewrite (copy_at_middle (([0] ++ b8) ++ [2]) [as_u8 (zlen name >> 8); as_u8 (zlen name)] k4), Ok_bind
    by (rewrite ?zlen_app, ?Hb8; done || lia).
  rewrite slice_head, Ok_bind by done.
  set (b2 := [as_u8 (zlen name >> 8); as_u8 (zlen name)]). rewrite (app_assoc (([0] ++ b8) ++ [2]) b2).
  rewrite (copy_at_middle ((([0] ++ b8) ++ [2]) ++ b2) name k5), Ok_bind
    by (rewrite ?zlen_app, ?Hb8; done || lia).
  do 2 f_equal. unfold multitrack_bytes. cbn [mt_track_type]. fold b8.
  change (to_be_bytes16 (zlen name)) with b2. rewrite <- !app_assoc. do 5 f_equal.
  rewrite !app_assoc. symmetry. apply zdrop_app_len. rewrite !zlen_app. lia.
Qed.

Lemma shl_or_be16 n : is_u16 n → (Z.shiftl (as_u8 (n >> 8)) 8) .| as_u8 n = n.
Proof.
  intros Hn. rewrite Z.shiftl_mul_pow2, (lor_low _ _ 8), shiftr_div by (lia || udivlia). udivlia.
Qed.

Lemma multitrack_parsed mt name rest m0 : zlen name ≤ 63 →
  multitrack_parse (multitrack_bytes mt name ++ rest) m0
  = (Ok tt, mkMultitrack (mt_track_type mt) (c_name name)).
Proof.
  intros Hn. pose proof (zlen_nonneg name) as H0. unfold multitrack_bytes.
  destruct (track_type_bits_of (mt_track_type mt)) as [Et Hu].
  set (b8 := to_be_bytes64 (track_type_bits (mt_track_type mt))).
  assert (zlen b8 = 8) as Hb8 by apply zlen_be64.
  set (hi := as_u8 (zlen name >> 8)). set (lo := as_u8 (zlen name)).
  change (to_be_bytes16 (zlen name)) with [hi; lo]. rewrite <- !app_assoc.
  set (data := [0] ++ b8 ++ [2] ++ [hi; lo] ++ name ++ rest).
  assert (data = ([0] ++ b8) ++ [2; hi; lo] ++ name ++ rest) as D1 by (unfold data; by rewrite <- app_assoc).
  assert (data = (([0] ++ b8) ++ [2; hi; lo]) ++ name ++ rest) as D2 by (rewrite D1; by rewrite !app_assoc).
  assert (zlen data = 12 + zlen name + zlen rest) as Hd.
  { rewrite D2, !zlen_app, Hb8. change (zlen [0]) with 1. change (zlen [2; hi; lo]) with 3. lia. }
  pose proof (zlen_nonneg rest). unfold multitrack_parse.
  rewrite (bind_ok _ _ _ tt multitrack_default) by done.
  rewrite guard_pass by (apply Z.ltb_ge; lia).
  rewrite (bind_ok _ _ _ 0 multitrack_default) by done. rewrite guard_pass by done.
  rewrite (bind_ok _ _ _ b8 multitrack_default).
  2: { unfold lift. rewrite (slice_tail 0 (b8 ++ [2; hi; lo] ++ name ++ rest) 1 9 ltac:(lia)
         : slice data 1 9 = _). by rewrite slice_head. }
  rewrite (bind_ok _ _ _ (track_type_bits (mt_track_type mt)) multitrack_default)
    by (unfold lift, b8; by rewrite be64_roundtrip).
  set (m1 := mkMultitrack (track_type_of _) (zrepeat 0 64)). rewrite (bind_ok _ _ _ tt m1) by done.
  rewrite guard_pass by (apply Z.ltb_ge; lia).
  assert (zlen ([0] ++ b8) = 9) as H9 by (rewrite zlen_app, Hb8; done).
  rewrite (bind_ok _ _ _ 2 m1) by (unfold lift; rewrite D1; by rewrite (zidx_app_at _ _ 0) by lia).
  rewrite guard_pass by done.
  rewrite (bind_ok _ _ _ hi m1) by (unfold lift; rewrite D1; by rewrite (zidx_app_at _ _ 1) by lia).
  rewrite (bind_ok _ _ _ lo m1) by (unfold lift; rewrite D1; by rewrite (zidx_app_at _ _ 2) by lia).
  unfold hi, lo. rewrite shl_or_be16 by ulia. fold hi lo.
  rewrite guard_pass by (apply Z.ltb_ge; lia). rewrite Z.min_l by lia.
  rewrite (bind_ok _ _ _ name m1).
  2: { unfold lift. rewrite D2. replace 12 with (zlen (([0] ++ b8) ++ [2; hi; lo]))
         by (rewrite zlen_app, H9; done). by rewrite slice_app_exact. }
  assert (zrepeat 0 64 = zrepeat 0 (zlen name) ++ 0 :: zrepeat 0 (63 - zlen name)) as Hz.
  { unfold zrepeat. rewrite <- replicate_S, <- replicate_add. f_equal. lia. }
  rewrite (bind_ok _ _ _ (name ++ 0 :: zrepeat 0 (63 - zlen name)) m1).
  2: { unfold lift. rewrite Hz, copy_at_front by (rewrite zlen_zrepeat; lia). done. }
  rewrite (bind_ok _ _ _ (name ++ 0 :: zrepeat 0 (63 - zlen name)) m1).
  2: { unfold lift. by rewrite (copy_at_middle name [0] [0] (zrepeat 0 (63 - zlen name))). }
  unfold put_st. rewrite Et. do 2 f_equal. unfold c_name. f_equal. unfold zrepeat.
  rewrite <- replicate_S. f_equal. lia.
Qed.

(** A descriptor the writers serialise. *)
Inductive descriptor : Type :=
  | DHdr (hdr : HdrInfo)
  | DReconnect (rc : Reconnect)
  | DTrack (ty : MultitrackType) (name : bytes).

Definition descriptor_ok (d : descriptor) : Prop :=
  match d with
  | DHdr h => is_u16 (color_primaries h) ∧ is_u16 (transfer_chars h) ∧ is_u16 (matrix_coeffs h)
  | DReconnect rc => is_u32 (rc_replay rc) ∧ is_u32 (rc_limit rc)
  | DTrack _ name => Forall (λ b, b ≠ 0) name ∧ zlen name ≤ 63
  end.

Definition write_descriptor (d : descriptor) (buf : bytes) : Res (Z * bytes) :=
  match d with
  | DHdr h => hdr_write h buf
  | DReconnect rc => reconnect_write rc buf
  | DTrack ty name => multitrack_write (mkMultitrack ty (c_name name)) buf
  end.

(** The parser of [d]'s kind, from a reused target. *)
Definition parses (d : descriptor) (data : bytes) : Prop :=
  match d with
  | DHdr h => ∀ h0, metadata_colorinfo_parse data h0 = (Ok tt, h)
  | DReconnect rc => ∀ r0, reconnect_parse data r0 = (Ok tt, rc)
  | DTrack ty name => ∀ m0, multitrack_parse data m0 = (Ok tt, mkMultitrack ty (c_name name))
  end.

Definition descriptor_size (d : descriptor) : Z :=
  match d with DHdr _ => 6 | DReconnect _ => 8 | DTrack _ name => 12 + zlen name end.

(** Colour info, reconnect requests and multitrack descriptors come back
    from their parsers as they were written, whatever the target held before;
    the writer reports the length and leaves the rest of the slice alone. A
    track name comes back NUL padded. *)
Theorem descriptor_roundtrip d buf : descriptor_ok d → descriptor_size d ≤ zlen buf →
  ∃ w, write_descriptor d buf = Ok (descriptor_size d, w ++ zdrop (descriptor_size d) buf)
    ∧ zlen w = descriptor_size d ∧ parses d w.
Proof.
  destruct d as [h|rc|ty name]; simpl; intros Hd Hl.
  - destruct Hd as (Hp&Ht&Hm). exists (hdr_bytes h). split_and!; [|done|].
    + destruct (zlen_split buf 6) as (k&r&->&Hk); [lia|]. unfold hdr_write.
      rewrite (proj2 (Z.ltb_ge _ _) Hl), copy_at_front, Ok_bind, zdrop_app_len; done.
    + intros h0. unfold metadata_colorinfo_parse. rewrite (bind_ok _ _ _ tt (mkHdr 1 1 1)) by done.
      rewrite guard_pass by done. rewrite <- (app_nil_r (hdr_bytes h)). by apply hdr_parse_bytes.
  - destruct Hd as [Hr Hm]. exists (to_be_bytes32 (rc_replay rc) ++ to_be_bytes32 (rc_limit rc)).
    split_and!; [|done|intros; by apply reconnect_parse_bytes].
    destruct (zlen_split buf 8) as (k&r&->&Hk); [lia|]. unfold reconnect_write.
    rewrite (proj2 (Z.ltb_ge _ _) Hl), copy_at_front, Ok_bind, zdrop_app_len; done.
  - destruct Hd as [Hn Hz]. pose proof (zlen_nonneg name).
    assert (c_name name = name ++ 0 :: zrepeat 0 (63 - zlen name)) as ->.
    { unfold c_name, zrepeat. f_equal. rewrite <- replicate_S. f_equal. lia. }
    rewrite multitrack_written by done. eexists. split; [done|]. split.
    + unfold multitrack_bytes. rewrite !zlen_app, zlen_be64, zlen_be16. change (zlen [0]) with 1.
      change (zlen [2]) with 1. lia.
    + intros m0. rewrite <- (app_nil_r (multitrack_bytes _ _)), multitrack_parsed by done.
      do 2 f_equal. unfold c_name, zrepeat. simpl. f_equal. rewrite <- replicate_S. f_equal. lia.
Qed.

Lemma descriptor_roundtrip_witness : ∃ w, zlen w = 15
  ∧ parses (DTrack MtVideo (text "cam")) w.
Proof.
  destruct (descriptor_roundtrip (DTrack MtVideo (text "cam")) (zrepeat 9 20)) as (w&_&Hw&Hp).
  - split; [|vm_compute; discriminate]. change (text "cam") with [99; 97; 109].
    do 3 (apply List.Forall_cons; [discriminate|]). apply List.Forall_nil.
  - vm_compute. discriminate.
  - exists w. split; [exact Hw|exact Hp].
Defined.
End Descriptors.
