(* ===== verification/Modex.v ===== *)
(** ModEx wrappers of Enhanced RTMP: the layer parser and the normalisation of
    a wrapped media payload (src/media/modex.rs), and the public parse and
    write calls (src/ertmp/modex.rs). *)
From S2P Require Import Prelude Bytes Types Ertmp.

Module Modex.
Import ExVideo.

Definition MAX_MODEX_CHAIN_LAYERS : nat := 32.

Record ModexLayer : Type := mkLayer {
  l_modex_type : Z;
  l_next_packet_type : Z;
  l_data_start : Z;
  l_data_end : Z;
  l_next_pos : Z;
}.

(** Offsets are bounded by the slice, so the checked additions do not fail. *)
Definition parse_modex_layer (payload : bytes) (pos : Z) : option ModexLayer :=
  size_minus_one ← zget payload pos;
  let cursor := pos + 1 in
  '(cursor, modex_size) ←
    (if size_minus_one =? 255 then
       hi ← zget payload cursor;
       lo ← zget payload (cursor + 1);
       Some (cursor + 2, from_be_bytes16 hi lo + 1)
     else Some (cursor, size_minus_one + 1));
  let data_end := cursor + modex_size in
  opt ← zget payload data_end;
  Some (mkLayer (opt >> 4) (opt .& 15) cursor data_end (data_end + 1)).

(** The payload as it was, or a new one. *)
Inductive Cow : Type := Borrowed (p : bytes) | Owned (p : bytes).
Definition view (c : Cow) : bytes := match c with Borrowed p | Owned p => p end.

(** The loop over the layers: the offset of the packet body and the tag byte,
    or nothing when the chain is cut off or too long. *)
Fixpoint peel (layers : nat) (payload : bytes) (pos header : Z) : option (Z * Z) :=
  match layers with
  | O => None
  | S layers =>
      layer ← parse_modex_layer payload pos;
      let header := (header .& 240) .| l_next_packet_type layer in
      if l_next_packet_type layer =? ERTMP_PACKET_TYPE_MODEX
      then peel layers payload (l_next_pos layer) header
      else Some (l_next_pos layer, header)
  end.

Definition normalize_modex_payload_with_frame_type (payload : bytes) (caps_ex_mask : Z)
    (frame_type : FrameType) : Res Cow :=
  match payload with
  | [] => Ok (Borrowed payload)
  | b0 :: _ =>
      if (caps_ex_mask .& CAPS_EX_MASK_MODEX =? 0) || (b0 .& 128 =? 0)
         || negb (b0 .& 15 =? ERTMP_PACKET_TYPE_MODEX) then Ok (Borrowed payload)
      else if bool_decide (frame_type = Audio) && negb ((b0 >> 4) .& 15 =? 9)
      then Ok (Borrowed payload)
      else
        match peel MAX_MODEX_CHAIN_LAYERS payload 1 b0 with
        | None => Ok (Borrowed payload)
        | Some (pos, header) =>
            rest ← slice payload pos (zlen payload);
            Ok (Owned (header :: rest))
        end
  end.

Definition normalize_modex_payload (payload : bytes) (caps_ex_mask : Z) : Res Cow :=
  normalize_modex_payload_with_frame_type payload caps_ex_mask Video.

(** * Parse and write *)

Definition MODEX_TYPE_TIMESTAMP_OFFSET_NANO : Z := 0.
Definition TIMESTAMP_OFFSET_NANO_LEN : Z := 3.

Definition modex_parse_prefix (data : bytes) : ST Modex Z :=
  layer ← lift (match parse_modex_layer data 0 with Some l => Ok l | None => Err Io end);
  let ty := if l_modex_type layer =? MODEX_TYPE_TIMESTAMP_OFFSET_NANO
            then TimestampOffsetNano else Nop in
  offset ← (if decide (ty = TimestampOffsetNano) then
              d ← lift (slice data (l_data_start layer) (l_data_end layer));
              guard_st (zlen d <? TIMESTAMP_OFFSET_NANO_LEN) Protocol;;
              b0 ← lift (zidx d 0); b1 ← lift (zidx d 1); b2 ← lift (zidx d 2);
              mret (from_be_bytes32 0 b0 b1 b2)
            else mret 0);
  put_st (mkModex ty offset (l_next_packet_type layer));;
  mret (l_next_pos layer).

Definition modex_parse (data : bytes) : ST Modex unit := modex_parse_prefix data;; mret tt.

Definition modex_write (modex : Modex) (buf : bytes) : Res (Z * bytes) :=
  match mx_modex_type modex with
  | Nop => Ok (0, buf)
  | TimestampOffsetNano =>
      let offset := as_u32 (mx_offset modex .& 16777215) in
      let modex_data := [as_u8 (offset >> 16); as_u8 (offset >> 8); as_u8 offset] in
      let total := 1 + zlen modex_data + 1 in
      if zlen buf <? total then Ok (0, buf)
      else
        buf ← copy_at buf 0 [as_u8 (zlen modex_data - 1)];
        buf ← copy_at buf 1 modex_data;
        buf ← copy_at buf (1 + zlen modex_data)
                [as_u8 (Z.shiftl MODEX_TYPE_TIMESTAMP_OFFSET_NANO 4) .| (mx_next_packet_type modex .& 15)];
        Ok (total, buf)
  end.

(** * The wire format of a layer *)

Record layer : Type := mkWire { w_data : bytes; w_type : Z; w_next : Z }.

Definition layer_ok (w : layer) : Prop :=
  1 ≤ zlen (w_data w) ≤ 65536 ∧ bytes_ok (w_data w) ∧ 0 ≤ w_type w < 16 ∧ 0 ≤ w_next w < 16.

(** The short size form up to 255 bytes, the long one beyond. *)
Definition layer_bytes (w : layer) : bytes :=
  let n := zlen (w_data w) - 1 in
  (if n <? 255 then [n] else 255 :: to_be_bytes16 n) ++ w_data w ++ [w_type w * 16 + w_next w].

Lemma option_byte ty next : 0 ≤ ty < 16 → 0 ≤ next < 16 →
  (ty * 16 + next) >> 4 = ty ∧ (ty * 16 + next) .& 15 = next.
Proof. intros Ht Hn. rewrite shiftr_div, land_15 by lia. eval_pow2. split; divlia. Qed.

Lemma parse_layer_short k d o r : 1 ≤ zlen d ≤ 255 →
  parse_modex_layer (k ++ (zlen d - 1) :: d ++ o :: r) (zlen k)
  = Some (mkLayer (o >> 4) (o .& 15) (zlen k + 1) (zlen k + 1 + zlen d) (zlen k + 1 + zlen d + 1)).
Proof.
  intros Hl. unfold parse_modex_layer. rewrite (zget_at k _ _ (zlen k) eq_refl). simpl.
  rewrite (proj2 (Z.eqb_neq _ 255)) by lia. simpl.
  replace (zlen k + 1 + (zlen d - 1 + 1)) with (zlen k + 1 + zlen d) by lia.
  replace (k ++ (zlen d - 1) :: d ++ o :: r) with ((k ++ (zlen d - 1) :: d) ++ o :: r)
    by (by rewrite <- app_assoc).
  rewrite zget_at by (rewrite zlen_app, zlen_cons; lia). done.
Qed.

Lemma parse_layer_long k d o r : 256 ≤ zlen d ≤ 65536 →
  parse_modex_layer (k ++ 255 :: to_be_bytes16 (zlen d - 1) ++ d ++ o :: r) (zlen k)
  = Some (mkLayer (o >> 4) (o .& 15) (zlen k + 3) (zlen k + 3 + zlen d) (zlen k + 3 + zlen d + 1)).
Proof.
  intros Hl. unfold parse_modex_layer. set (n := zlen d - 1).
  change (to_be_bytes16 n) with [as_u8 (n >> 8); as_u8 n]. simpl app.
  set (hi := as_u8 (n >> 8)). set (lo := as_u8 n).
  set (p := k ++ 255 :: hi :: lo :: d ++ o :: r).
  rewrite (zget_at k 255 _ (zlen k) eq_refl : zget p (zlen k) = _). simpl.
  rewrite (eq_trans (f_equal (λ p, zget p (zlen k + 1)) (app_assoc k [255] _))
    (zget_at (k ++ [255]) hi _ (zlen k + 1) ltac:(zlia)) : zget p (zlen k + 1) = _). simpl.
  rewrite (eq_trans (f_equal (λ p, zget p (zlen k + 1 + 1)) (app_assoc k [255; hi] _))
    (zget_at (k ++ [255; hi]) lo _ (zlen k + 1 + 1) ltac:(zlia)) : zget p (zlen k + 1 + 1) = _). simpl.
  unfold hi, lo. rewrite be16_roundtrip by (unfold n; ulia). fold hi lo.
  replace (zlen k + 1 + 2 + (n + 1)) with (zlen k + 3 + zlen d) by (unfold n; lia).
  assert (p = (k ++ 255 :: hi :: lo :: d) ++ o :: r) as -> by (unfold p; by rewrite <- app_assoc).
  rewrite zget_at by (rewrite zlen_app, !zlen_cons; lia). simpl.
  by replace (zlen k + 1 + 2) with (zlen k + 3) by lia.
Qed.

Lemma parse_layer k w r : layer_ok w → ∃ start,
  parse_modex_layer (k ++ layer_bytes w ++ r) (zlen k) = Some (mkLayer (w_type w) (w_next w)
    (zlen k + start) (zlen k + start + zlen (w_data w)) (zlen k + zlen (layer_bytes w)))
  ∧ zlen (layer_bytes w) = start + zlen (w_data w) + 1
  ∧ slice (k ++ layer_bytes w ++ r) (zlen k + start) (zlen k + start + zlen (w_data w)) = Ok (w_data w).
Proof.
  intros (Hl&Ho&Ht&Hn). destruct (option_byte (w_type w) (w_next w) Ht Hn) as [E1 E2].
  unfold layer_bytes. set (o := w_type w * 16 + w_next w) in *. set (d := w_data w) in *.
  destruct (Z.ltb_spec (zlen d - 1) 255).
  - exists 1. rewrite <- !app_assoc. simpl app.
    rewrite parse_layer_short, E1, E2 by lia. rewrite zlen_cons, zlen_app. change (zlen [o]) with 1.
    split_and!; [do 2 f_equal; lia|lia|].
    replace (k ++ (zlen d - 1) :: d ++ o :: r) with ((k ++ [zlen d - 1]) ++ d ++ o :: r)
      by (by rewrite <- app_assoc).
    replace (zlen k + 1) with (zlen (k ++ [zlen d - 1])) by zlia. apply slice_app_exact.
  - exists 3. rewrite <- !app_assoc.
    change ((255 :: to_be_bytes16 (zlen d - 1)) ++ d ++ [o] ++ r)
      with (255 :: to_be_bytes16 (zlen d - 1) ++ d ++ o :: r).
    rewrite parse_layer_long, E1, E2 by lia. rewrite !zlen_app, zlen_cons, zlen_be16.
    change (zlen [o]) with 1. split_and!; [do 2 f_equal; lia|lia|].
    set (h := 255 :: to_be_bytes16 (zlen d - 1)).
    change (k ++ 255 :: _) with (k ++ h ++ d ++ o :: r). rewrite app_assoc.
    replace (zlen k + 3) with (zlen (k ++ h)) by (rewrite zlen_app; done). apply slice_app_exact.
Qed.

(** * Peeling a chain *)

Definition chain_bytes (ws : list layer) : bytes := concat (layer_bytes <$> ws).

Lemma header_nibble h x : 0 ≤ x < 16 →
  ((h .& 240) .| x) .& 240 = h .& 240 ∧ ((h .& 240) .| x) .& 15 = x.
Proof.
  intros Hx.
  pose proof (byte_forall (λ x, (16 <=? x) || ((x .& 240 =? 0) && (x .& 15 =? x))) eq_refl x ltac:(ulia)) as H.
  cbv beta in H. rewrite (proj2 (Z.leb_gt 16 x)) in H by lia. simpl in H.
  apply andb_true_iff in H as [H1%Z.eqb_eq H2%Z.eqb_eq].
  rewrite !Z.land_lor_distr_l, H1, H2, <- !Z.land_assoc. simpl. by rewrite Z.land_0_r, Z.lor_0_r, Z.lor_0_l.
Qed.

Lemma peel_chain fuel k ws last r header : Forall layer_ok ws → Forall (λ w, w_next w = 7) ws →
  layer_ok last → w_next last ≠ 7 →
  peel fuel (k ++ chain_bytes (ws ++ [last]) ++ r) (zlen k) header =
  if (length ws <? fuel)%nat
  then Some (zlen (k ++ chain_bytes (ws ++ [last])), (header .& 240) .| w_next last) else None.
Proof.
  intros Hw Hc Hl Hn. revert fuel k header. induction ws as [|w ws IH]; intros [|fuel] k header; try done.
  - simpl. destruct (parse_layer k last r Hl) as (st&E&_&_).
    unfold chain_bytes. simpl. rewrite app_nil_r, E. simpl.
    rewrite (proj2 (Z.eqb_neq _ ERTMP_PACKET_TYPE_MODEX) Hn). by rewrite zlen_app.
  - inversion Hw as [|?? Hw1 Hws]; subst. inversion Hc as [|?? Hc1 Hcs]; subst.
    change ((w :: ws) ++ [last]) with (w :: (ws ++ [last])).
    change (chain_bytes (w :: ?l)) with (layer_bytes w ++ chain_bytes l).
    rewrite <- (app_assoc (layer_bytes w)). cbn [peel].
    destruct (parse_layer k w (chain_bytes (ws ++ [last]) ++ r) Hw1) as (st&E&_&_).
    rewrite E. cbn [mbind option_bind l_next_packet_type l_next_pos]. rewrite Hc1. change (7 =? ERTMP_PACKET_TYPE_MODEX) with true. cbv iota.
    specialize (IH Hws Hcs fuel (k ++ layer_bytes w) ((header .& 240) .| 7)).
    rewrite zlen_app, <- app_assoc in IH. rewrite IH.
    destruct (header_nibble header 7 ltac:(lia)) as [-> _].
    change (length (w :: ws) <? S fuel)%nat with (length ws <? fuel)%nat.
    destruct (_ <? _)%nat; [|done]. by rewrite !app_assoc.
Qed.

Lemma parse_layer_bounds payload pos l : bytes_ok payload → 0 ≤ pos →
  parse_modex_layer payload pos = Some l →
  pos < l_next_pos l ≤ zlen payload ∧ 0 ≤ l_next_packet_type l < 16.
Proof.
  intros Ho Hp. unfold parse_modex_layer.
  destruct (zget payload pos) as [n|] eqn:En; [|done]. simpl.
  pose proof (Forall_zget _ _ _ _ Ho En) as Hn.
  destruct (if n =? 255 then _ else _) as [[cur sz]|] eqn:Ec; [|done]. simpl.
  assert (pos < cur ∧ 0 ≤ sz) as [Hcur Hsz].
  { destruct (n =? 255); [|injection Ec as <- <-; ulia].
    destruct (zget payload (pos + 1)) as [a|] eqn:Ea; [|done]. simpl in Ec.
    destruct (zget payload (pos + 1 + 1)) as [b|] eqn:Eb; [|done]. simpl in Ec.
    injection Ec as <- <-. pose proof (Forall_zget _ _ _ _ Ho Ea).
    pose proof (Forall_zget _ _ _ _ Ho Eb). unfold from_be_bytes16. ulia. }
  destruct (zget payload (cur + sz)) as [o|] eqn:Eo; [|done]. simpl. intros [= <-]. simpl.
  pose proof (zget_Some_lt _ _ _ Eo). rewrite land_15. split; [lia|divlia].
Qed.

Lemma peel_result fuel payload pos header p h : bytes_ok payload → 0 ≤ pos →
  peel fuel payload pos header = Some (p, h) → 0 ≤ p ≤ zlen payload ∧ h .& 15 ≠ 7.
Proof.
  intros Ho. revert pos header. induction fuel as [|fuel IH]; intros pos header Hp; [done|]. simpl.
  destruct (parse_modex_layer payload pos) as [l|] eqn:El; [|done]. simpl.
  destruct (parse_layer_bounds _ _ _ Ho Hp El) as [Hb Hn].
  destruct (Z.eqb_spec (l_next_packet_type l) ERTMP_PACKET_TYPE_MODEX) as [|Hne].
  - apply IH. lia.
  - intros [= <- <-]. destruct (header_nibble header _ Hn) as [_ ->]. split; [lia|done].
Qed.

(** A tag byte the normalisation peels. *)
Definition wrapped (b0 caps_ex_mask : Z) (ft : FrameType) : bool :=
  negb ((caps_ex_mask .& CAPS_EX_MASK_MODEX =? 0) || (b0 .& 128 =? 0)
        || negb (b0 .& 15 =? ERTMP_PACKET_TYPE_MODEX))
  && negb (bool_decide (ft = Audio) && negb ((b0 >> 4) .& 15 =? 9)).

Lemma normalize_wrapped b0 l mask ft :
  normalize_modex_payload_with_frame_type (b0 :: l) mask ft =
  if wrapped b0 mask ft then
    match peel MAX_MODEX_CHAIN_LAYERS (b0 :: l) 1 b0 with
    | None => Ok (Borrowed (b0 :: l))
    | Some (pos, header) =>
        rest ← slice (b0 :: l) pos (zlen (b0 :: l)); Ok (Owned (header :: rest))
    end
  else Ok (Borrowed (b0 :: l)).
Proof.
  unfold normalize_modex_payload_with_frame_type, wrapped.
  destruct (_ || negb (b0 .& 15 =? _)); simpl; [done|]. by destruct (_ && _).
Qed.

(** C22. A payload wrapped in a chain of well-formed ModEx layers, of any sizes,
    each written in the size form its size calls for, is normalised to its inner
    packet: the tag byte keeps its high nibble and takes the last layer's packet
    type, and the body is what followed the chain. A chain of more than 32
    layers stays wrapped. This is for a tag byte that [wrapped] recognises: the
    peer has the ModEx capability, and the byte is an enhanced one (for audio,
    with sound format 9) of packet type ModEx. *)
Theorem modex_chain_peeled b0 ws last body mask ft : wrapped b0 mask ft = true →
  Forall layer_ok ws → Forall (λ w, w_next w = 7) ws → layer_ok last → w_next last ≠ 7 →
  normalize_modex_payload_with_frame_type (b0 :: chain_bytes (ws ++ [last]) ++ body) mask ft =
  Ok (if (length ws <? 32)%nat then Owned (((b0 .& 240) .| w_next last) :: body)
      else Borrowed (b0 :: chain_bytes (ws ++ [last]) ++ body)).
Proof.
  intros Hw Hws Hc Hl Hn. rewrite normalize_wrapped, Hw.
  pose proof (peel_chain MAX_MODEX_CHAIN_LAYERS [b0] ws last body b0 Hws Hc Hl Hn) as E.
  change (zlen [b0]) with 1 in E. simpl app in E. rewrite E.
  change MAX_MODEX_CHAIN_LAYERS with 32%nat. destruct (_ <? _)%nat; [|done].
  set (p := b0 :: chain_bytes (ws ++ [last])).
  change (b0 :: chain_bytes (ws ++ [last]) ++ body) with (p ++ body).
  rewrite slice_suffix by zlia. by rewrite zdrop_app_exact.
Qed.

Ltac layer_lit := split; [split; vm_compute; discriminate|]; split; [bytes_lit|]; simpl; lia.

Lemma modex_chain_peeled_witness :
  normalize_modex_payload_with_frame_type [151; 0; 9; 7; 2; 1; 2; 3; 1; 170; 187] 4 Video
  = Ok (Owned [145; 170; 187]).
Proof.
  exact (modex_chain_peeled 151 [mkWire [9] 0 7] (mkWire [1; 2; 3] 0 1) [170; 187] 4 Video eq_refl
    ltac:(apply List.Forall_cons; [layer_lit|apply List.Forall_nil])
    ltac:(apply List.Forall_cons; [reflexivity|apply List.Forall_nil])
    ltac:(layer_lit) ltac:(discriminate)).
Defined.

(** Normalisation is total on every payload, mask and frame type, and
    idempotent: its result is not a wrapper any more, or it is the payload it
    was given. *)
Theorem modex_normalize_idempotent payload mask ft : bytes_ok payload → ∃ c c',
  normalize_modex_payload_with_frame_type payload mask ft = Ok c
  ∧ normalize_modex_payload_with_frame_type (view c) mask ft = Ok c' ∧ view c' = view c.
Proof.
  intros Ho. destruct payload as [|b0 l]; [by eexists _, _|]. rewrite normalize_wrapped.
  destruct (wrapped b0 mask ft) eqn:Hw.
  - destruct (peel _ _ _ _) as [[pos h]|] eqn:Ep.
    + destruct (peel_result _ _ 1 _ _ _ Ho ltac:(lia) Ep) as [Hp Hh].
      rewrite slice_suffix by done. simpl. eexists _, _. split; [done|]. cbn [view].
      rewrite normalize_wrapped. unfold wrapped.
      rewrite (proj2 (Z.eqb_neq (h .& 15) ERTMP_PACKET_TYPE_MODEX) Hh). simpl.
      rewrite orb_true_r. simpl. done.
    + eexists _, _. split; [done|]. simpl view. rewrite normalize_wrapped, Hw, Ep. done.
  - eexists _, _. split; [done|]. simpl view. rewrite normalize_wrapped, Hw. done.
Qed.

Lemma modex_normalize_idempotent_witness : ∃ c',
  normalize_modex_payload_with_frame_type [145; 170; 187] 4 Video = Ok c' ∧ view c' = [145; 170; 187].
Proof.
  destruct (modex_normalize_idempotent [151; 0; 9; 1; 170; 187] 4 Video) as (c&c'&E&E'&V).
  - bytes_lit.
  - vm_compute in E. injection E as <-. by exists c'.
Defined.

(** * Writing a wrapper *)

(** The layer [modex_write] emits for a timestamp offset. *)
Definition offset_layer (offset next : Z) : layer :=
  mkWire [offset / 65536; offset / 256 mod 256; offset mod 256] 0 next.

Lemma offset_layer_ok offset next : is_u24 offset → 0 ≤ next < 16 → layer_ok (offset_layer offset next).
Proof.
  intros Ho Hn. split; [done|]. split; [|simpl; lia].
  apply bytes_ok_cons; [udivlia|]. apply bytes_ok_cons; [udivlia|]. apply bytes_ok_cons; [udivlia|constructor].
Qed.

Lemma modex_written offset next buf : is_u24 offset → 0 ≤ next < 16 → 5 ≤ zlen buf →
  modex_write (mkModex TimestampOffsetNano offset next) buf
  = Ok (5, layer_bytes (offset_layer offset next) ++ zdrop 5 buf).
Proof.
  intros Ho Hn Hl. unfold modex_write. cbn [mx_modex_type mx_offset mx_next_packet_type].
  rewrite (land_ones' offset 24 ltac:(lia) : offset .& 16777215 = _).
  rewrite (Z.mod_small offset) by ulia. rewrite as_u32_id by ulia.
  change (zlen [_; _; _]) with 3. change (1 + 3 + 1) with 5. change (1 + 3) with 4.
  rewrite (proj2 (Z.ltb_ge _ _) Hl).
  destruct (zlen_split buf 1) as ([|x []]&r&->&Hx); [lia|done| |zlia].
  destruct (zlen_split r 3) as (k&r1&->&Hk); [zlia|].
  destruct (zlen_split r1 1) as ([|y []]&r2&->&Hy); [zlia|done| |zlia].
  set (d := [as_u8 (offset >> 16); as_u8 (offset >> 8); as_u8 offset]).
  assert (d = w_data (offset_layer offset next)) as Hd.
  { unfold d. simpl. rewrite !shiftr_div by lia. unfold as_u8. eval_pow2.
    rewrite (Z.mod_small (offset / 65536)) by udivlia. done. }
  rewrite (copy_at_front [as_u8 (3 - 1)] [x]), Ok_bind by done.
  rewrite (copy_at_middle [as_u8 (3 - 1)] d k), Ok_bind by (done || by rewrite Hk).
  rewrite app_assoc. rewrite (copy_at_middle ([as_u8 (3 - 1)] ++ d) _ [y]), Ok_bind by done.
  do 2 f_equal. unfold layer_bytes. rewrite <- Hd. change (zlen d - 1 <? 255) with true. cbv iota.
  change (as_u8 (3 - 1)) with 2. change (zlen d - 1) with 2. simpl w_type. simpl w_next.
  rewrite land_15, Z.mod_small by lia. change (0 * 16 + next) with next.
  change (as_u8 (Z.shiftl MODEX_TYPE_TIMESTAMP_OFFSET_NANO 4) .| next) with next.
  rewrite <- !app_assoc. do 3 f_equal. rewrite !app_assoc. symmetry.
  apply zdrop_app_len. rewrite !zlen_app, Hk. done.
Qed.

(** A timestamp offset survives the wire: what [modex_write] emits is one
    layer of five bytes, [modex_parse_prefix] reads the same offset and next
    packet type back whatever follows, and the media path peels it. *)
Theorem modex_roundtrip offset next buf : is_u24 offset → 0 ≤ next < 16 → 5 ≤ zlen buf →
  ∃ d, modex_write (mkModex TimestampOffsetNano offset next) buf = Ok (5, d ++ zdrop 5 buf)
  ∧ (∀ rest m0, modex_parse_prefix (d ++ rest) m0 = (Ok 5, mkModex TimestampOffsetNano offset next))
  ∧ (next ≠ 7 → ∀ b0 mask ft body, wrapped b0 mask ft = true →
     normalize_modex_payload_with_frame_type (b0 :: d ++ body) mask ft
     = Ok (Owned (((b0 .& 240) .| next) :: body))).
Proof.
  intros Ho Hn Hl. exists (layer_bytes (offset_layer offset next)).
  pose proof (offset_layer_ok offset next Ho Hn) as Hw. split; [by apply modex_written|]. split.
  - intros rest m0. destruct (parse_layer [] _ rest Hw) as (st&E&Hst&Es). rewrite app_nil_l in E, Es.
    change (zlen []) with 0 in E, Es. set (w := layer_bytes _) in *.
    change (zlen w) with 5 in *. change (zlen (w_data _)) with 3 in *.
    unfold modex_parse_prefix. rewrite E. cbv iota. rewrite lift_ok.
    cbn [l_modex_type l_next_packet_type l_data_start l_data_end l_next_pos w_type offset_layer w_next].
    change (0 =? MODEX_TYPE_TIMESTAMP_OFFSET_NANO) with true. cbv iota.
    rewrite decide_True by done. rewrite (bind_ok _ _ _ offset m0); [done|].
    unfold lift. rewrite Es. unfold mbind, ST_bind. simpl. unfold mret, ST_ret. do 2 f_equal.
    unfold from_be_bytes32. udivlia.
  - intros H7 b0 mask ft body Hb. rewrite normalize_wrapped, Hb.
    pose proof (peel_chain MAX_MODEX_CHAIN_LAYERS [b0] [] _ body b0 ltac:(constructor) ltac:(constructor) Hw H7) as E.
    change (chain_bytes ([] ++ [?w])) with (layer_bytes w ++ []) in E. rewrite app_nil_r in E.
    set (w := layer_bytes _) in *. change (b0 :: w ++ body) with ([b0] ++ w ++ body).
    change 1 with (zlen [b0]). rewrite E. change (length [] <? _)%nat with true. cbv iota. rewrite !app_assoc, slice_suffix by zlia.
    by rewrite zdrop_app_exact.
Qed.

Lemma modex_roundtrip_witness : ∃ d, zlen d = 5
  ∧ modex_parse_prefix d (mkModex Nop 0 0) = (Ok 5, mkModex TimestampOffsetNano 999999 1).
Proof.
  destruct (modex_roundtrip 999999 1 (zrepeat 0 5)) as (d&E&H&_).
  - unfold is_u24. lia.
  - lia.
  - vm_compute. discriminate.
  - exists d. specialize (H [] (mkModex Nop 0 0)). rewrite app_nil_r in H. split; [|exact H].
    change (zdrop 5 (zrepeat 0 5)) with (@nil Z) in E. rewrite app_nil_r in E. vm_compute in E.
    injection E as <-. reflexivity.
Defined.
End Modex.
