(* ===== verification/Multitrack.v ===== *)
(** Multitrack containers of Enhanced RTMP, src/ertmp/multitrack_media.rs: the
    walk over the tracks of a container and the queries built on it. *)
From S2P Require Import Prelude Bytes Types Ertmp.

Module Multitrack.
Import ExVideo.

Definition ERTMP_AUDIO_PACKET_TYPE_MULTITRACK : Z := 5.
Definition ERTMP_VIDEO_PACKET_TYPE_MULTITRACK : Z := 6.
Definition MAX_MULTITRACK_SUBTRACKS : Z := 4096.

(** [AvMultitrackType], by its numbers. *)
Definition OneTrack : Z := 0.
Definition ManyTracks : Z := 1.
Definition ManyTracksManyCodecs : Z := 2.

Record MediaTrackSlice : Type := mkTrack {
  t_track_id : Z;
  t_packet_type : Z;
  t_fourcc : bytes;
  t_video_frame_type : Z;
  t_payload : bytes;
}.

(** [payload.get(a..b)]. *)
Definition get_range (l : bytes) (a b : Z) : option bytes :=
  match slice l a b with Ok d => Some d | _ => None end.

Definition read_u24 (data : bytes) : Res Z :=
  b0 ← zidx data 0; b1 ← zidx data 1; b2 ← zidx data 2;
  Ok ((Z.shiftl b0 16) .| (Z.shiftl b1 8) .| b2).

Definition is_multitrack_container (frame_type : FrameType) (payload : bytes) : bool :=
  match payload with
  | [] => false
  | b0 :: _ =>
      if b0 .& 128 =? 0 then false
      else match frame_type with
           | Video => negb ((b0 >> 4) .& 7 =? VIDEO_FRAME_TYPE_COMMAND)
                      && (b0 .& 15 =? ERTMP_VIDEO_PACKET_TYPE_MULTITRACK)
           | Audio => ((b0 >> 4) .& 15 =? 9) && (b0 .& 15 =? ERTMP_AUDIO_PACKET_TYPE_MULTITRACK)
           | _ => false
           end
  end.

Definition read_fourcc (payload : bytes) (pos : Z) : option bytes := get_range payload pos (pos + 4).

Definition read_track_header (payload : bytes) (pos : Z) (one_track : bool)
    : Res (option (Z * Z * Z)) :=
  match zget payload pos with
  | None => Ok None
  | Some track_id =>
      let body := pos + 1 in
      let check body len := Ok (if body + len <=? zlen payload then Some (track_id, body, len) else None) in
      if one_track then check body (zlen payload - body)
      else match get_range payload body (body + 3) with
           | None => Ok None
           | Some d => size ← read_u24 d; check (body + 3) size
           end
  end.

Section walk.
Context (payload : bytes) (many_codecs one_track : bool).
Context (packet_type video_frame_type : Z) (shared_fourcc : bytes).

(** The loop: its result and the tracks visited. Each turn that goes on moves
    [pos] forward, so the length of the payload bounds the turns. *)
Fixpoint walk_loop (fuel : nat) (pos track_count : Z) : Res (bool * list MediaTrackSlice) :=
  match fuel with
  | O => Ok (false, [])
  | S fuel =>
      match (if many_codecs then (λ cc, (cc, pos + 4)) <$> read_fourcc payload pos
             else Some (shared_fourcc, pos)) with
      | None => Ok (false, [])
      | Some (fourcc, pos) =>
          h ← read_track_header payload pos one_track;
          match h with
          | None => Ok (false, [])
          | Some (track_id, body, len) =>
              if MAX_MULTITRACK_SUBTRACKS <=? track_count then Ok (false, [])
              else
                d ← slice payload body (body + len);
                let track := mkTrack track_id packet_type fourcc video_frame_type d in
                let pos := body + len in
                if one_track || (pos =? zlen payload)
                then Ok ((pos =? zlen payload) && (0 <? track_count + 1), [track])
                else '(ok, ts) ← walk_loop fuel pos (track_count + 1); Ok (ok, track :: ts)
          end
      end
  end.
End walk.

(** The result and the tracks [visit] was called on. *)
Definition walk_tracks (frame_type : FrameType) (payload : bytes)
    : Res (bool * list MediaTrackSlice) :=
  if negb (is_multitrack_container frame_type payload) || (zlen payload <? 3) then Ok (false, [])
  else
    b0 ← zidx payload 0; b1 ← zidx payload 1;
    let multitrack_type := (b1 >> 4) .& 15 in
    if ManyTracksManyCodecs <? multitrack_type then Ok (false, [])
    else
      let many_codecs := multitrack_type =? ManyTracksManyCodecs in
      let one_track := multitrack_type =? OneTrack in
      let packet_type := b1 .& 15 in
      let video_frame_type := if decide (frame_type = Video) then (b0 >> 4) .& 7 else 0 in
      let loop := walk_loop payload many_codecs one_track packet_type video_frame_type in
      if many_codecs then loop (zrepeat 0 4) (S (length payload)) 2 0
      else match read_fourcc payload 2 with
           | None => Ok (false, [])
           | Some cc => loop cc (S (length payload)) 6 0
           end.

Definition foreach_track (frame_type : FrameType) (payload : bytes)
    : Res (bool * list MediaTrackSlice) :=
  '(ok, _) ← walk_tracks frame_type payload;
  if ok : bool then walk_tracks frame_type payload else Ok (false, []).

Definition first_track_fourcc (frame_type : FrameType) (payload : bytes) : Res (option bytes) :=
  '(ok, ts) ← foreach_track frame_type payload;
  Ok (if ok : bool then t_fourcc <$> head ts else None).

Definition has_packet_type (frame_type : FrameType) (payload : bytes) (ty : Z) : Res bool :=
  '(valid, ts) ← foreach_track frame_type payload;
  Ok (valid && existsb (λ t, t_packet_type t =? ty) ts).

Definition multitrack_has_sequence_start (frame_type : FrameType) (payload : bytes) : Res bool :=
  has_packet_type frame_type payload 0.

Definition multitrack_has_metadata (frame_type : FrameType) (payload : bytes) : Res bool :=
  match frame_type with
  | Video => has_packet_type frame_type payload 4
  | Audio => has_packet_type frame_type payload 3
  | _ => Ok false
  end.

Definition multitrack_has_keyframe (payload : bytes) : Res bool :=
  if negb (is_multitrack_container Video payload) then Ok false
  else
    let coded := match zget payload 1 with
                 | Some b => (b .& 15 =? 1) || (b .& 15 =? 3)
                 | None => false
                 end in
    b0 ← zidx payload 0;
    if coded && ((b0 >> 4) .& 7 =? 1) then '(ok, _) ← foreach_track Video payload; Ok ok
    else Ok false.

(** * The wire format of a track *)

Lemma read_u24_ok n r : is_u24 n → read_u24 (hton24_bytes n ++ r) = Ok n.
Proof.
  intros Hn. rewrite hton24_bytes_val.
  transitivity (Ok ((Z.shiftl (n / 65536 mod 256) 16) .| (Z.shiftl (n / 256 mod 256) 8) .| (n mod 256)));
    [done|]. f_equal. rewrite !Z.shiftl_mul_pow2 by lia.
  rewrite (lor_low (_ * 2 ^ 16) _ 16), (lor_low (_ + _) _ 8); eval_pow2; try udivlia.
Qed.

Lemma u24_bytes b0 b1 b2 : is_u8 b0 → is_u8 b1 → is_u8 b2 → ∃ n, is_u24 n
  ∧ hton24_bytes n = [b0; b1; b2].
Proof.
  intros H0 H1 H2. exists (b0 * 65536 + b1 * 256 + b2). split; [ulia|].
  rewrite hton24_bytes_val. f_equal; [udivlia|]. f_equal; [udivlia|]. f_equal. udivlia.
Qed.

(** [get_range] on a list in parts. *)
Lemma get_range_at k d r n m : n = zlen k → m = zlen k + zlen d → get_range (k ++ d ++ r) n m = Some d.
Proof. intros -> ->. unfold get_range. by rewrite slice_app_exact. Qed.

Lemma get_range_inv l a b d : 0 ≤ a → get_range l a b = Some d → ∃ k r, l = k ++ d ++ r ∧ zlen k = a
  ∧ zlen d = b - a.
Proof.
  intros Ha. unfold get_range, slice. destruct (_ && _) eqn:E; [|done]. intros [= <-].
  rewrite !andb_true_iff, !Z.leb_le in E. destruct E as [[_ H1] H2].
  exists (ztake a l), (zdrop (b - a) (zdrop a l)). rewrite !ztake_zdrop_app.
  split; [done|]. split; zlia.
Qed.

Lemma header_many k id d r : zlen d < 16777216 →
  read_track_header (k ++ id :: hton24_bytes (zlen d) ++ d ++ r) (zlen k) false
  = Ok (Some (id, zlen k + 4, zlen d)).
Proof.
  intros Hd. unfold read_track_header. rewrite zget_at by done. cbv zeta.
  replace (k ++ id :: hton24_bytes (zlen d) ++ d ++ r)
    with ((k ++ [id]) ++ hton24_bytes (zlen d) ++ d ++ r) by (by rewrite <- app_assoc).
  rewrite get_range_at by (rewrite ?zlen_hton24; zlia).
  rewrite <- (app_nil_r (hton24_bytes (zlen d))) at 1. rewrite read_u24_ok, Ok_bind by (unfold is_u24; zlia).
  rewrite (proj2 (Z.leb_le _ _)) by (rewrite !zlen_app, zlen_hton24; zlia).
  do 4 f_equal. lia.
Qed.

Lemma header_one k id d :
  read_track_header (k ++ id :: d) (zlen k) true = Ok (Some (id, zlen k + 1, zlen d)).
Proof.
  unfold read_track_header. rewrite zget_at by done. cbv zeta. rewrite zlen_app, zlen_cons.
  replace (zlen k + (1 + zlen d) - (zlen k + 1)) with (zlen d) by lia.
  by rewrite (proj2 (Z.leb_le _ _)) by lia.
Qed.

(** A header that parses is the header of the bytes at its place. *)
Lemma header_inv l pos one : bytes_ok l → 0 ≤ pos → ∃ r, read_track_header l pos one = Ok r
  ∧ match r with
    | None => True
    | Some (id, body, len) => ∃ k d rest,
        l = k ++ id :: (if one then [] else hton24_bytes len) ++ d ++ rest
        ∧ zlen k = pos ∧ zlen d = len ∧ body = pos + (if one then 1 else 4)
        ∧ (one = true → rest = []) ∧ (one = false → len < 16777216)
    end.
Proof.
  intros Ho Hp. unfold read_track_header. destruct (zget l pos) as [id|] eqn:Ei; [|by exists None].
  pose proof (zget_Some_lt _ _ _ Ei) as Hlt. cbv zeta.
  assert (∃ k t, l = k ++ id :: t ∧ zlen k = pos) as (k&t&->&Hk).
  { destruct (zlen_split l pos) as (k&t&->&Hk); [lia|]. destruct t as [|x t]; [zlia|].
    rewrite zget_at in Ei by done. injection Ei as ->. by exists k, t. }
  destruct one.
  - eexists. split; [done|]. rewrite zlen_app, zlen_cons, Hk.
    replace (pos + (1 + zlen t) - (pos + 1)) with (zlen t) by lia.
    rewrite (proj2 (Z.leb_le _ _)) by lia. exists k, t, []. rewrite app_nil_r. by split_and!.
  - destruct (get_range _ _ _) as [d|] eqn:Eg; [|by exists None].
    destruct (get_range_inv _ (pos + 1) _ _ ltac:(lia) Eg) as (k'&r&El&Hk'&Hd).
    assert (k' = k ++ [id] ∧ d ++ r = t) as [-> <-].
    { apply app_inj_1; [unfold zlen in *; rewrite length_app; simpl; lia|].
      rewrite <- El. by rewrite <- app_assoc. }
    apply Forall_app in Ho as [_ Ho]. inversion Ho as [|?? _ Ho']; subst.
    apply Forall_app in Ho' as [Hod _].
    destruct d as [|b0 [|b1 [|b2 []]]]; autorewrite with zlen in Hd;
      try (change (zlen []) with 0 in Hd; zlen_facts; lia).
    inversion Hod as [|?? H0 Ho1]; subst. inversion Ho1 as [|?? H1 Ho2]; subst.
    inversion Ho2 as [|?? H2 _]; subst. destruct (u24_bytes b0 b1 b2 H0 H1 H2) as (n&Hn&En).
    pose proof (read_u24_ok n [] Hn) as Eu. rewrite app_nil_r, En in Eu. rewrite Eu, Ok_bind.
    eexists. split; [done|]. destruct (Z.leb_spec (zlen k + 1 + 3 + n) (zlen (k ++ id :: [b0; b1; b2] ++ r)))
      as [Hz|]; [|done]. simpl app in Hz. rewrite zlen_app in Hz. autorewrite with zlen in Hz.
    destruct (zlen_split r n) as (d&r'&->&Hd'); [ulia|].
    exists k, d, r'. rewrite En. split_and!; try done; try lia. intros _. ulia.
Qed.

(** * The loop decodes the format *)

Section loop.
Context (many one : bool) (pt vft : Z) (shared : bytes).

Definition track_bytes (t : MediaTrackSlice) : bytes :=
  (if many then t_fourcc t else [])
  ++ t_track_id t :: (if one then [] else hton24_bytes (zlen (t_payload t))) ++ t_payload t.

Definition track_ok (t : MediaTrackSlice) : Prop :=
  t_packet_type t = pt ∧ t_video_frame_type t = vft
  ∧ (if many then zlen (t_fourcc t) = 4 else t_fourcc t = shared)
  ∧ (one = false → zlen (t_payload t) < 16777216).

Definition tracks_bytes (ts : list MediaTrackSlice) : bytes := concat (track_bytes <$> ts).

(** One turn on the bytes of a track. *)
Lemma walk_turn k t r fuel count : track_ok t → (one = true → r = []) →
  walk_loop (k ++ track_bytes t ++ r) many one pt vft shared (S fuel) (zlen k) count =
  if MAX_MULTITRACK_SUBTRACKS <=? count then Ok (false, [])
  else if one || bool_decide (r = []) then Ok (0 <? count + 1, [t])
  else '(ok, ts) ← walk_loop (k ++ track_bytes t ++ r) many one pt vft shared fuel
                    (zlen (k ++ track_bytes t)) (count + 1);
       Ok (ok, t :: ts).
Proof.
  intros (Hpt&Hvf&Hcc&Hlen) Hone. destruct t as [id p cc v d]. cbn [t_packet_type t_video_frame_type
    t_fourcc t_payload] in *. subst p v. unfold track_bytes. cbn [t_fourcc t_payload t_track_id].
  set (pay := k ++ _ ++ r). cbn [walk_loop].
  set (k2 := k ++ (if many then cc else [])).
  assert (pay = k2 ++ id :: (if one then [] else hton24_bytes (zlen d)) ++ d ++ r) as Ep.
  { unfold pay, k2. rewrite <- !app_assoc. f_equal. f_equal. simpl. by rewrite <- app_assoc. }
  assert ((if many then (λ cc, (cc, zlen k + 4)) <$> read_fourcc pay (zlen k)
           else Some (shared, zlen k)) = Some (cc, zlen k2)) as ->.
  { unfold k2. destruct many; [|by rewrite app_nil_r, Hcc].
    unfold read_fourcc, pay. rewrite <- !app_assoc, get_range_at by lia. simpl. by rewrite zlen_app, Hcc. }
  set (h := if one then [] else hton24_bytes (zlen d)).
  assert (read_track_header pay (zlen k2) one = Ok (Some (id, zlen k2 + 1 + zlen h, zlen d))) as ->.
  { rewrite Ep. unfold h. destruct one.
    - rewrite Hone, app_nil_r by done. simpl app. rewrite header_one. do 4 f_equal. zlia.
    - rewrite header_many by auto. do 4 f_equal. rewrite zlen_hton24. lia. }
  rewrite Ok_bind. destruct (MAX_MULTITRACK_SUBTRACKS <=? count); [done|].
  assert (pay = (k2 ++ id :: h) ++ d ++ r) as Ep2 by (rewrite Ep; by rewrite <- app_assoc).
  assert (zlen (k2 ++ id :: h) = zlen k2 + 1 + zlen h) as Eh by zlia.
  rewrite Ep2 at 1. rewrite <- Eh, slice_app_exact, Ok_bind.
  assert (zlen pay = zlen (k2 ++ id :: h) + zlen d + zlen r) as El by (rewrite Ep2; zlia).
  rewrite El. case_bool_decide as Hr.
  - subst r. change (zlen []) with 0. by rewrite Z.add_0_r, Z.eqb_refl, !orb_true_r.
  - assert (zlen r ≠ 0) as Hz by (intros ?%zlen_0_nil; done).
    rewrite (proj2 (Z.eqb_neq _ _)) by zlia. rewrite !orb_false_r.
    destruct one; [by destruct Hr; auto|].
    replace (zlen (k2 ++ id :: h) + zlen d) with
      (zlen (k ++ (if many then cc else []) ++ id :: h ++ d)); [done|].
    unfold k2. zlia.
Qed.

Lemma walk_encoded ts k fuel count : Forall track_ok ts → ts ≠ [] → (one = true → length ts = 1%nat) →
  (length ts ≤ fuel)%nat → 0 ≤ count → count + zlen ts ≤ MAX_MULTITRACK_SUBTRACKS →
  walk_loop (k ++ tracks_bytes ts) many one pt vft shared fuel (zlen k) count = Ok (true, ts).
Proof.
  intros Hok Hne Hone. revert k fuel count.
  induction ts as [|t ts IH]; [done|]; intros k [|fuel] count Hf Hc Hm; [simpl in Hf; lia|].
  inversion Hok as [|?? Ht Hts]; subst. rewrite zlen_cons in Hm. pose proof (zlen_nonneg ts).
  change (tracks_bytes (t :: ts)) with (track_bytes t ++ tracks_bytes ts).
  rewrite walk_turn; [|done|].
  2: { intros E. specialize (Hone E). by destruct ts. }
  rewrite (proj2 (Z.leb_gt _ _)) by lia. destruct ts as [|t2 ts].
  - change (tracks_bytes []) with (@nil Z). rewrite bool_decide_true, orb_true_r by done.
    by rewrite (proj2 (Z.ltb_lt _ _)) by lia.
  - assert (one = false) as -> by (destruct one; [by specialize (Hone eq_refl)|done]).
    rewrite bool_decide_false.
    2: { unfold tracks_bytes. simpl. unfold track_bytes. intros E%app_nil. destruct E as [E _].
         apply app_nil in E as [_ E]. done. }
    simpl orb. cbv iota. rewrite app_assoc, IH; try done; try (simpl in Hf |- *; lia).
Qed.

(** A turn finds the bytes of a track at its place, or fails the walk. *)
Lemma turn_inv payload fuel pos count : bytes_ok payload → 0 ≤ pos →
  walk_loop payload many one pt vft shared (S fuel) pos count = Ok (false, [])
  ∨ ∃ k t r, payload = k ++ track_bytes t ++ r ∧ zlen k = pos ∧ track_ok t ∧ (one = true → r = []).
Proof.
  intros Ho Hp. cbn [walk_loop].
  destruct (if many then _ else _) as [[cc p2]|] eqn:Ec; [|by left].
  assert (pos ≤ p2 ∧ p2 = pos + (if many then 4 else 0) ∧ (many = false → cc = shared)
    ∧ (many = true → ∃ k r, payload = k ++ cc ++ r ∧ zlen k = pos ∧ zlen cc = 4)) as (H1&H2&H3&H4).
  { destruct many.
    - destruct (read_fourcc payload pos) as [c|] eqn:Er; [|done]. injection Ec as <- <-.
      destruct (get_range_inv _ pos _ _ Hp Er) as (k&r&El&Hk&Hc).
      split_and!; try done; [lia|]. intros _. exists k, r. split_and!; try done. lia.
    - injection Ec as <- <-. split_and!; try done; lia. }
  destruct (header_inv payload p2 one Ho ltac:(lia)) as (h&->&Hh). rewrite Ok_bind.
  destruct h as [[[id body] len]|]; [|by left]. right.
  destruct Hh as (k&d&rest&El&Hk&Hd&_&Hone&Hlen). subst len.
  unfold track_bytes, track_ok. destruct many.
  - destruct (H4 eq_refl) as (k0&r0&El0&Hk0&Hc0).
    assert (k = k0 ++ cc) as ->.
    { rewrite El, (app_assoc k0) in El0. apply app_inj_1 in El0 as [E _]; [done|].
      unfold zlen in *. rewrite length_app. lia. }
    exists k0, (mkTrack id pt cc vft d), rest. simpl. split_and!; try done.
    rewrite El. rewrite <- !app_assoc. simpl. by rewrite <- app_assoc.
  - exists k, (mkTrack id pt cc vft d), rest. simpl.
    split_and!; auto; [|lia]. rewrite El. simpl. by rewrite <- app_assoc.
Qed.

(** The walk never panics, and when it succeeds it has decoded everything. *)
Lemma walk_decoded payload fuel pos count : bytes_ok payload → 0 ≤ pos → 0 ≤ count →
  ∃ ok ts, walk_loop payload many one pt vft shared fuel pos count = Ok (ok, ts)
  ∧ (ok = true → ∃ k, payload = k ++ tracks_bytes ts ∧ zlen k = pos ∧ Forall track_ok ts ∧ ts ≠ []
       ∧ (one = true → length ts = 1%nat) ∧ count + zlen ts ≤ MAX_MULTITRACK_SUBTRACKS).
Proof.
  intros Ho. revert pos count. induction fuel as [|fuel IH]; intros pos count Hp Hc; [by eexists _, _|].
  destruct (turn_inv payload fuel pos count Ho Hp) as [->|(k&t&r&->&<-&Ht&Hone)]; [by eexists _, _|].
  rewrite walk_turn by done. destruct (Z.leb_spec MAX_MULTITRACK_SUBTRACKS count); [by eexists _, _|].
  destruct (one || bool_decide (r = [])) eqn:Er.
  - assert (r = []) as ->.
    { apply orb_true_iff in Er as [->|Er]; [auto|by apply bool_decide_eq_true in Er]. }
    eexists _, _. split; [done|]. intros _. exists k. split_and!; try done.
    + by constructor.
    + change (zlen [t]) with 1. lia.
  - apply orb_false_iff in Er as [E1 Er]. apply bool_decide_eq_false in Er.
    destruct (IH (zlen (k ++ track_bytes t)) (count + 1) ltac:(zlia) ltac:(lia)) as (ok&ts&->&H').
    rewrite Ok_bind. eexists _, _. split; [done|]. intros ->.
    destruct (H' eq_refl) as (k'&El&Hk&Hf&Hne&_&Hm). exists k.
    assert (k ++ track_bytes t = k' ∧ r = tracks_bytes ts) as [_ ->].
    { apply app_inj_1; [unfold zlen in Hk; lia|]. by rewrite <- app_assoc. }
    split_and!; try done; [by constructor|congruence|rewrite zlen_cons; lia].
Qed.
End loop.

(** * Containers *)

Record container : Type := mkContainer {
  c_b0 : Z;
  c_kind : Z;
  c_packet_type : Z;
  c_fourcc : bytes;
  c_tracks : list MediaTrackSlice;
}.

Definition c_many (c : container) : bool := c_kind c =? ManyTracksManyCodecs.
Definition c_one (c : container) : bool := c_kind c =? OneTrack.

Definition frame_bits (ft : FrameType) (b0 : Z) : Z :=
  if decide (ft = Video) then (b0 >> 4) .& 7 else 0.

(** The FourCC the tracks share stands in front, or each track has its own. *)
Definition container_bytes (c : container) : bytes :=
  [c_b0 c; c_kind c * 16 + c_packet_type c] ++ (if c_many c then [] else c_fourcc c)
  ++ tracks_bytes (c_many c) (c_one c) (c_tracks c).

Definition container_ok (ft : FrameType) (c : container) : Prop :=
  is_multitrack_container ft [c_b0 c] = true ∧ 0 ≤ c_kind c ≤ 2 ∧ 0 ≤ c_packet_type c < 16
  ∧ (if c_many c then c_fourcc c = zrepeat 0 4 else zlen (c_fourcc c) = 4)
  ∧ Forall (track_ok (c_many c) (c_one c) (c_packet_type c) (frame_bits ft (c_b0 c)) (c_fourcc c))
      (c_tracks c)
  ∧ c_tracks c ≠ [] ∧ (c_one c = true → length (c_tracks c) = 1%nat)
  ∧ zlen (c_tracks c) ≤ MAX_MULTITRACK_SUBTRACKS.

Lemma container_head ft b0 l : is_multitrack_container ft (b0 :: l) = is_multitrack_container ft [b0].
Proof. done. Qed.

Lemma kind_byte kind pt : 0 ≤ kind ≤ 2 → 0 ≤ pt < 16 →
  ((kind * 16 + pt) >> 4) .& 15 = kind ∧ (kind * 16 + pt) .& 15 = pt.
Proof. intros Hk Hp. rewrite shiftr_div, !land_15 by lia. eval_pow2. split; divlia. Qed.

Lemma kind_byte_inv b1 : is_u8 b1 → b1 = ((b1 >> 4) .& 15) * 16 + b1 .& 15
  ∧ 0 ≤ (b1 >> 4) .& 15 < 16 ∧ 0 ≤ b1 .& 15 < 16.
Proof. intros Hb. rewrite shiftr_div, !land_15 by lia. eval_pow2. udivlia. Qed.

Lemma track_bytes_pos many one t : 1 ≤ zlen (track_bytes many one t).
Proof. unfold track_bytes. rewrite zlen_app, zlen_cons. zlia. Qed.

Lemma tracks_bytes_len many one ts : zlen ts ≤ zlen (tracks_bytes many one ts).
Proof.
  induction ts as [|t ts IH]; [done|].
  change (tracks_bytes many one (t :: ts)) with (track_bytes many one t ++ tracks_bytes many one ts).
  rewrite zlen_cons, zlen_app. pose proof (track_bytes_pos many one t). lia.
Qed.

Lemma walk_container ft c : container_ok ft c →
  walk_tracks ft (container_bytes c) = Ok (true, c_tracks c).
Proof.
  intros (Hb&Hk&Hp&Hcc&Hts&Hne&Hone&Hmax). unfold walk_tracks.
  destruct (kind_byte _ _ Hk Hp) as [E1 E2]. set (p := container_bytes c).
  assert (is_multitrack_container ft p = true) as -> by exact Hb.
  pose proof (tracks_bytes_len (c_many c) (c_one c) (c_tracks c)) as Hlen.
  assert (1 ≤ zlen (c_tracks c)) as H1.
  { destruct (c_tracks c); [done|]. rewrite zlen_cons. zlia. }
  assert (zlen p = 2 + zlen (if c_many c then [] else c_fourcc c)
    + zlen (tracks_bytes (c_many c) (c_one c) (c_tracks c))) as Hp2.
  { unfold p, container_bytes. rewrite !zlen_app. change (zlen [_; _]) with 2. lia. }
  rewrite (proj2 (Z.ltb_ge (zlen p) 3)) by zlia. simpl orb. cbv iota.
  change (zidx p 0) with (Ok (c_b0 c)). change (zidx p 1) with (Ok (c_kind c * 16 + c_packet_type c)).
  rewrite !Ok_bind. cbv zeta. rewrite E1, E2. fold (c_many c) (c_one c) (frame_bits ft (c_b0 c)).
  rewrite (proj2 (Z.ltb_ge _ _)) by (unfold ManyTracksManyCodecs; lia).
  destruct (c_many c) eqn:Em.
  - rewrite <- Hcc. pose proof (walk_encoded true (c_one c) (c_packet_type c) (frame_bits ft (c_b0 c))
      (c_fourcc c) (c_tracks c) [c_b0 c; c_kind c * 16 + c_packet_type c] (S (length p)) 0 Hts Hne Hone) as E.
    change (zlen [_; _]) with 2 in E. unfold p at 1, container_bytes. rewrite Em. apply E; [|lia|lia].
    unfold zlen in *. lia.
  - assert (p = [c_b0 c; c_kind c * 16 + c_packet_type c] ++ c_fourcc c
      ++ tracks_bytes false (c_one c) (c_tracks c)) as Ep by (unfold p, container_bytes; by rewrite Em).
    unfold read_fourcc. rewrite Ep at 1. rewrite get_range_at by (rewrite ?Hcc; done).
    pose proof (walk_encoded false (c_one c) (c_packet_type c) (frame_bits ft (c_b0 c))
      (c_fourcc c) (c_tracks c) ([c_b0 c; c_kind c * 16 + c_packet_type c] ++ c_fourcc c) (S (length p)) 0
      Hts Hne Hone) as E.
    rewrite zlen_app, Hcc in E. change (zlen [_; _] + 4) with 6 in E. rewrite <- app_assoc, <- Ep in E.
    apply E; [|lia|lia]. unfold zlen in *. lia.
Qed.

Lemma walk_total ft payload : bytes_ok payload → ∃ ok ts, walk_tracks ft payload = Ok (ok, ts)
  ∧ (ok = true → ∃ c, container_ok ft c ∧ payload = container_bytes c ∧ c_tracks c = ts).
Proof.
  intros Ho. unfold walk_tracks. destruct (is_multitrack_container ft payload) eqn:Hb; [|by eexists _, _].
  destruct (Z.ltb_spec (zlen payload) 3) as [|Hl]; [by eexists _, _|].
  destruct payload as [|b0 [|b1 l]]; [done| |]; [change (zlen [b0]) with 1 in Hl; lia|].
  change (zidx (b0 :: b1 :: l) 0) with (Ok b0). change (zidx (b0 :: b1 :: l) 1) with (Ok b1).
  simpl orb. cbv iota. rewrite !Ok_bind. cbv zeta. fold (frame_bits ft b0).
  inversion Ho as [|?? _ Ho1]; subst. inversion Ho1 as [|?? Hb1 _]; subst.
  destruct (kind_byte_inv b1 Hb1) as (E1&Hk&Hp). set (kind := (b1 >> 4) .& 15) in *.
  set (pt := b1 .& 15) in *. destruct (Z.ltb_spec ManyTracksManyCodecs kind) as [|Hmc]; [by eexists _, _|].
  unfold ManyTracksManyCodecs in *. destruct (Z.eqb_spec kind 2) as [Ek|Ek].
  - destruct (walk_decoded true (kind =? OneTrack) pt (frame_bits ft b0) (zrepeat 0 4) (b0 :: b1 :: l)
      (S (length (b0 :: b1 :: l))) 2 0 Ho ltac:(lia) ltac:(lia)) as (ok&ts&->&H).
    exists ok, ts. split; [done|]. intros ->. destruct (H eq_refl) as (k&El&Hk2&Hts&Hne&H1&Hm).
    destruct k as [|k0 [|k1 []]]; autorewrite with zlen in Hk2; try (change (zlen []) with 0 in Hk2; zlen_facts; lia).
    injection El as <- <- ->. exists (mkContainer b0 kind pt (zrepeat 0 4) ts).
    unfold container_ok, container_bytes, c_many, c_one. cbn [c_b0 c_kind c_packet_type c_fourcc c_tracks].
    rewrite (proj2 (Z.eqb_eq kind ManyTracksManyCodecs) Ek), <- E1. split_and!; try done; lia.
  - destruct (read_fourcc (b0 :: b1 :: l) 2) as [cc|] eqn:Er; [|by eexists _, _].
    destruct (get_range_inv _ 2 _ _ ltac:(lia) Er) as (k&r&El&Hk2&Hcc).
    destruct (walk_decoded false (kind =? OneTrack) pt (frame_bits ft b0) cc (b0 :: b1 :: l)
      (S (length (b0 :: b1 :: l))) 6 0 Ho ltac:(lia) ltac:(lia)) as (ok&ts&->&H).
    exists ok, ts. split; [done|]. intros ->. destruct (H eq_refl) as (k'&El'&Hk'&Hts&Hne&H1&Hm).
    destruct k as [|k0 [|k1 []]]; autorewrite with zlen in Hk2; try (change (zlen []) with 0 in Hk2; zlen_facts; lia).
    injection El as <- <- ->.
    assert ([b0; b1] ++ cc = k' ∧ r = tracks_bytes false (kind =? OneTrack) ts) as [_ ->].
    { apply app_inj_1; [unfold zlen in *; rewrite length_app; simpl; lia|done]. }
    exists (mkContainer b0 kind pt cc ts).
    unfold container_ok, container_bytes, c_many, c_one. cbn [c_b0 c_kind c_packet_type c_fourcc c_tracks].
    rewrite (proj2 (Z.eqb_neq kind ManyTracksManyCodecs) Ek), <- E1. split_and!; try done; lia.
Qed.

(** The container of a payload is unique up to an unused FourCC. *)
Lemma container_unique ft c c' : container_ok ft c → container_ok ft c' →
  container_bytes c = container_bytes c' →
  c_tracks c = c_tracks c' ∧ c_packet_type c = c_packet_type c' ∧ c_b0 c = c_b0 c'.
Proof.
  intros H H' E. pose proof (walk_container ft c H) as W. pose proof (walk_container ft c' H') as W'.
  rewrite E, W' in W. injection W as ->. destruct H as (_&Hk&Hp&_), H' as (_&Hk'&Hp'&_).
  injection E as -> E1 _. split_and!; try done. lia.
Qed.

Lemma foreach_cases ft payload : bytes_ok payload →
  (∃ c, container_ok ft c ∧ payload = container_bytes c
     ∧ foreach_track ft payload = Ok (true, c_tracks c))
  ∨ (foreach_track ft payload = Ok (false, [])
     ∧ ∀ c, container_ok ft c → payload ≠ container_bytes c).
Proof.
  intros Ho. unfold foreach_track. destruct (walk_total ft payload Ho) as (ok&ts&E&H).
  rewrite E, Ok_bind. destruct ok.
  - left. destruct (H eq_refl) as (c&Hc&Hp&<-). by exists c.
  - right. split; [done|]. intros c Hc ->. rewrite walk_container in E by done. congruence.
Qed.

(** C23. [foreach_track] decodes exactly the multitrack containers: on a
    container of one to 4096 tracks, in any of the three layouts, it visits
    those tracks in order and succeeds; on every other payload it fails
    without visiting a track. It never panics. *)
Theorem foreach_track_decodes ft payload : bytes_ok payload →
  ∃ ok ts, foreach_track ft payload = Ok (ok, ts) ∧
  if ok : bool then ∃ c, container_ok ft c ∧ payload = container_bytes c ∧ c_tracks c = ts
  else ts = [] ∧ ∀ c, container_ok ft c → payload ≠ container_bytes c.
Proof.
  intros Ho. destruct (foreach_cases ft payload Ho) as [(c&Hc&Hp&E)|[E H]]; rewrite E.
  - exists true, (c_tracks c). split; [done|]. by exists c.
  - exists false, []. by split_and!.
Qed.

Lemma foreach_track_decodes_witness : ∃ ts,
  foreach_track Video [150; 16; 97; 118; 99; 49; 0; 0; 0; 1; 170; 1; 0; 0; 0] = Ok (true, ts)
  ∧ ts = [mkTrack 0 0 (text "avc1") 1 [170]; mkTrack 1 0 (text "avc1") 1 []].
Proof.
  destruct (foreach_track_decodes Video [150; 16; 97; 118; 99; 49; 0; 0; 0; 1; 170; 1; 0; 0; 0]
    ltac:(bytes_lit)) as (ok&ts&E&_).
  vm_compute in E. injection E as <- <-. eexists. split; [|reflexivity]. reflexivity.
Defined.
End Multitrack.
