(* ===== verification/CodecConfig.v ===== *)
(** Structural validation of codec configuration records,
    src/media/codec_config.rs, against the record grammars. *)
From S2P Require Import Prelude Bytes Types.

Module CodecConfig.

Inductive ConfigCodec : Type := Avc | Hevc | Opaque.

#[global] Instance ConfigCodec_eq_dec : EqDecision ConfigCodec.
Proof. solve_decision. Defined.

(** [fourcc.get(..4)]. *)
Definition fourcc_prefix (fourcc : bytes) : option bytes :=
  if 4 <=? zlen fourcc then Some (ztake 4 fourcc) else None.

Definition from_fourcc (fourcc : bytes) : ConfigCodec :=
  if decide (fourcc_prefix fourcc = Some (text "avc1")) then Avc
  else if decide (fourcc_prefix fourcc = Some (text "hvc1")) then Hevc
  else Opaque.

(** * AAC *)

(** The [for] loop of [read_bits]. *)
Fixpoint read_bits_loop (record : bytes) (count : nat) (bit_pos value : Z) : Res (Z * Z) :=
  match count with
  | O => Ok (value, bit_pos)
  | S count =>
      byte ← zidx record (bit_pos / 8);
      let bit := (byte >> (7 - bit_pos mod 8)) .& 1 in
      read_bits_loop record count (bit_pos + 1) ((value <<32 1) .| bit)
  end.

Definition read_bits (record : bytes) (bit_pos count : Z) : Res (option (Z * Z)) :=
  if zlen record * 8 <? bit_pos + count then Ok None
  else r ← read_bits_loop record (Z.to_nat count) bit_pos 0; Ok (Some r).

Definition validate_aac_config (record : bytes) : Res bool :=
  r ← read_bits record 0 5;
  match r with
  | None => Ok false
  | Some (audio_object_type, pos) =>
      if audio_object_type =? 0 then Ok false
      else
        r ← (if audio_object_type =? 31 then read_bits record pos 6 else Ok (Some (0, pos)));
        match r with
        | None => Ok false
        | Some (_, pos) =>
            r ← read_bits record pos 4;
            match r with
            | None => Ok false
            | Some (frequency_index, pos) =>
                if (frequency_index =? 13) || (frequency_index =? 14) then Ok false
                else
                  r ← (if frequency_index =? 15 then read_bits record pos 24 else Ok (Some (0, pos)));
                  match r with
                  | None => Ok false
                  | Some (_, pos) => r ← read_bits record pos 4; Ok (bool_decide (is_Some r))
                  end
            end
        end
  end.

(** * Parameter sets *)

Definition skip_param_set (record : bytes) (pos : Z) : option Z :=
  hi ← zget record pos; lo ← zget record (pos + 1);
  let len := from_be_bytes16 hi lo in
  if len =? 0 then None
  else let e := pos + 2 + len in if e <=? zlen record then Some e else None.

Fixpoint skip_sets (n : nat) (record : bytes) (pos : Z) : option Z :=
  match n with
  | O => Some pos
  | S n => pos ← skip_param_set record pos; skip_sets n record pos
  end.

Definition validate_avc_extension (ext : bytes) : bool :=
  match ext with
  | [] => true
  | _ => match zget ext 3 with
         | None => false
         | Some num_sps_ext => bool_decide (is_Some (skip_sets (Z.to_nat num_sps_ext) ext 4))
         end
  end.

Definition validate_avc_record (record : bytes) : Res bool :=
  if zlen record <? 7 then Ok false
  else
    b0 ← zidx record 0;
    if negb (b0 =? 1) then Ok false
    else
      b5 ← zidx record 5;
      let num_sps := b5 .& 31 in
      if num_sps =? 0 then Ok false
      else
        match skip_sets (Z.to_nat num_sps) record 6 with
        | None => Ok false
        | Some pos =>
            match zget record pos with
            | None => Ok false
            | Some num_pps =>
                if num_pps =? 0 then Ok false
                else
                  match skip_sets (Z.to_nat num_pps) record (pos + 1) with
                  | None => Ok false
                  | Some pos =>
                      ext ← slice record pos (zlen record);
                      Ok (validate_avc_extension ext)
                  end
            end
        end.

Definition HEVC_NAL_SPS : Z := 33.
Definition HEVC_NAL_PPS : Z := 34.
Definition FIXED_HEADER : Z := 22.

(** The inner loop, with the two counters. *)
Fixpoint hevc_nalus (n : nat) (record : bytes) (nal_type pos sps pps : Z) : option (Z * Z * Z) :=
  match n with
  | O => Some (pos, sps, pps)
  | S n =>
      pos ← skip_param_set record pos;
      hevc_nalus n record nal_type pos
        (if nal_type =? HEVC_NAL_SPS then sps + 1 else sps)
        (if nal_type =? HEVC_NAL_PPS then pps + 1 else pps)
  end.

Fixpoint hevc_arrays (n : nat) (record : bytes) (pos sps pps : Z) : option (Z * Z) :=
  match n with
  | O => Some (sps, pps)
  | S n =>
      hdr ← zget record pos; hi ← zget record (pos + 1); lo ← zget record (pos + 2);
      '(pos, sps, pps) ← hevc_nalus (Z.to_nat (from_be_bytes16 hi lo)) record (hdr .& 63) (pos + 3) sps pps;
      hevc_arrays n record pos sps pps
  end.

Definition validate_hevc_record (record : bytes) : Res bool :=
  if zlen record <=? FIXED_HEADER then Ok false
  else
    b0 ← zidx record 0;
    if negb (b0 =? 1) then Ok false
    else
      num_arrays ← zidx record FIXED_HEADER;
      Ok (match hevc_arrays (Z.to_nat num_arrays) record (FIXED_HEADER + 1) 0 0 with
          | Some (sps, pps) => (0 <? sps) && (0 <? pps)
          | None => false
          end).

Definition validate_config_record (codec : ConfigCodec) (record : bytes) : Res bool :=
  match codec with
  | Avc => validate_avc_record record
  | Hevc => validate_hevc_record record
  | Opaque => Ok (negb (zlen record =? 0))
  end.

(** * Grammar of parameter sets *)

Definition set_ok (d : bytes) : Prop := 1 ≤ zlen d < 65536.
Definition set_bytes (d : bytes) : bytes := to_be_bytes16 (zlen d) ++ d.
Definition sets_bytes (ds : list bytes) : bytes := concat (set_bytes <$> ds).

#[global] Arguments set_bytes : simpl never.
#[global] Arguments sets_bytes : simpl never.

Lemma zlen_set d : zlen (set_bytes d) = 2 + zlen d.
Proof. unfold set_bytes. by rewrite zlen_app, zlen_be16. Qed.

Lemma skip_set_ok k d r : set_ok d →
  skip_param_set (k ++ set_bytes d ++ r) (zlen k) = Some (zlen (k ++ set_bytes d)).
Proof.
  intros Hd. unfold skip_param_set, set_bytes. set (n := zlen d).
  change (to_be_bytes16 n) with [as_u8 (n >> 8); as_u8 n].
  set (hi := as_u8 (n >> 8)). set (lo := as_u8 n). simpl app.
  rewrite (zget_at k hi _ (zlen k) eq_refl). simpl.
  assert (zget (k ++ hi :: lo :: d ++ r) (zlen k + 1) = Some lo) as ->.
  { replace (k ++ hi :: lo :: d ++ r) with ((k ++ [hi]) ++ lo :: d ++ r) by (by rewrite <- app_assoc).
    apply zget_at. zlia. }
  simpl. unfold hi, lo. rewrite be16_roundtrip by (unfold set_ok, n in *; ulia). fold hi lo.
  rewrite (proj2 (Z.eqb_neq n 0)) by (unfold set_ok, n in *; lia).
  rewrite (proj2 (Z.leb_le _ _)) by (unfold n; zlia). f_equal. unfold n. zlia.
Qed.

Lemma skip_set_inv k l e : bytes_ok l → skip_param_set (k ++ l) (zlen k) = Some e →
  ∃ d r, l = set_bytes d ++ r ∧ set_ok d ∧ e = zlen (k ++ set_bytes d).
Proof.
  intros Ho. unfold skip_param_set.
  destruct (zget (k ++ l) (zlen k)) as [hi|] eqn:E1; [|done]. simpl.
  destruct (zget (k ++ l) (zlen k + 1)) as [lo|] eqn:E2; [|done]. simpl.
  assert (∃ t, l = hi :: lo :: t) as [t ->].
  { rewrite zget_app_r, Z.sub_diag in E1 by lia. rewrite zget_app_r in E2 by lia.
    replace (zlen k + 1 - zlen k) with 1 in E2 by lia.
    destruct l as [|a [|b t]]; [done|done|]. injection E1 as ->. injection E2 as ->. by exists t. }
  inversion Ho as [|?? Hh Ho1]; subst. inversion Ho1 as [|?? Hl Ht]; subst.
  set (n := from_be_bytes16 hi lo). assert (is_u16 n) as Hn by (unfold n, from_be_bytes16; ulia).
  destruct (Z.eqb_spec n 0); [done|].
  destruct (Z.leb_spec (zlen k + 2 + n) (zlen (k ++ hi :: lo :: t))) as [Hz|]; [|done]. intros [= <-].
  destruct (zlen_split t n) as (d&r&->&Hd); [unfold is_u16 in Hn; zlia|].
  exists d, r. rewrite zlen_app, zlen_set, Hd. unfold set_bytes, set_ok. rewrite Hd.
  pose proof (to_be_from_be16 hi lo Hh Hl) as E. injection E as Eh El. fold n in Eh, El.
  rewrite Eh, El. split_and!; [done|ulia|ulia|lia].
Qed.

Lemma skip_sets_ok ds k r : Forall set_ok ds →
  skip_sets (length ds) (k ++ sets_bytes ds ++ r) (zlen k) = Some (zlen (k ++ sets_bytes ds)).
Proof.
  intros H. revert k. induction H as [|d ds Hd _ IH]; intros k.
  { simpl. change (sets_bytes []) with (@nil Z). by rewrite app_nil_r. }
  cbn [skip_sets length]. change (sets_bytes (d :: ds)) with (set_bytes d ++ sets_bytes ds). rewrite <- app_assoc.
  rewrite skip_set_ok by done. cbn [mbind option_bind]. rewrite app_assoc, IH. by rewrite <- app_assoc.
Qed.

Lemma skip_sets_inv n k l e : bytes_ok l → skip_sets n (k ++ l) (zlen k) = Some e →
  ∃ ds r, l = sets_bytes ds ++ r ∧ length ds = n ∧ Forall set_ok ds ∧ e = zlen (k ++ sets_bytes ds).
Proof.
  revert k l. induction n as [|n IH]; intros k l Ho; simpl.
  { intros [= <-]. exists [], l. change (sets_bytes []) with (@nil Z). by rewrite app_nil_r. }
  destruct (skip_param_set (k ++ l) (zlen k)) as [p|] eqn:E; [|done]. simpl. intros H.
  destruct (skip_set_inv k l p Ho E) as (d&r&->&Hd&->). rewrite app_assoc in H.
  apply Forall_app in Ho as [_ Ho].
  destruct (IH _ _ Ho H) as (ds&r'&->&<-&Hds&->). exists (d :: ds), r'.
  change (sets_bytes (d :: ds)) with (set_bytes d ++ sets_bytes ds). rewrite !app_assoc.
  split_and!; try done. by constructor.
Qed.

(** * AVC records *)

Definition is_ext (ext : bytes) : Prop := ext = [] ∨ ∃ h es rest,
  ext = h ++ zlen es :: sets_bytes es ++ rest ∧ zlen h = 3 ∧ Forall set_ok es.

Definition is_avc (record : bytes) : Prop := ∃ h b5 sps pps ext,
  record = 1 :: h ++ b5 :: sets_bytes sps ++ zlen pps :: sets_bytes pps ++ ext
  ∧ zlen h = 4 ∧ b5 .& 31 = zlen sps ∧ sps ≠ [] ∧ pps ≠ []
  ∧ Forall set_ok sps ∧ Forall set_ok pps ∧ is_ext ext.

Lemma to_nat_zlen {A} (l : list A) : Z.to_nat (zlen l) = length l.
Proof. unfold zlen. lia. Qed.

Lemma zlen_of_nat {A} (l : list A) n : 0 ≤ n → length l = Z.to_nat n → n = zlen l.
Proof. unfold zlen. lia. Qed.

Lemma nonempty_zlen {A} (l : list A) : l ≠ [] ↔ zlen l ≠ 0.
Proof. split; [intros H E; by apply H, zlen_0_nil|by intros H ->]. Qed.

Lemma zget_inv {A} (l : list A) n x : zget l n = Some x → ∃ k r, l = k ++ x :: r ∧ zlen k = n.
Proof.
  intros E. pose proof (zget_Some_lt _ _ _ E). destruct (zlen_split l n) as (k&r&->&Hk); [lia|].
  destruct r as [|y r]; [rewrite app_nil_r in *; lia|]. rewrite zget_at in E by done.
  injection E as ->. by exists k, r.
Qed.

Lemma ext_iff ext : bytes_ok ext → validate_avc_extension ext = true ↔ is_ext ext.
Proof.
  intros Ho. unfold validate_avc_extension, is_ext. destruct ext as [|x ext]; [split; auto|].
  set (l := x :: ext) in *. split.
  - destruct (zget l 3) as [n|] eqn:En; [|done]. intros Hb%bool_decide_eq_true. destruct Hb as [e He].
    destruct (zget_inv _ _ _ En) as (k&r&El&Hk). right. rewrite El in He, Ho.
    apply Forall_app in Ho as [_ Ho]. inversion Ho as [|?? Hn Hr]; subst.
    replace (k ++ n :: r) with ((k ++ [n]) ++ r) in He by (by rewrite <- app_assoc).
    replace 4 with (zlen (k ++ [n])) in He by (rewrite zlen_app, Hk; done).
    destruct (skip_sets_inv _ _ _ _ Hr He) as (es&rest&->&Hl&Hes&_).
    exists k, es, rest. rewrite (zlen_of_nat es n) in El by (done || ulia). done.
  - intros [?|(h&es&rest&El&Hh&Hes)]; [done|]. rewrite El, zget_at by done.
    rewrite to_nat_zlen. apply bool_decide_eq_true.
    replace (h ++ zlen es :: sets_bytes es ++ rest) with ((h ++ [zlen es]) ++ sets_bytes es ++ rest)
      by (by rewrite <- app_assoc).
    replace 4 with (zlen (h ++ [zlen es])) by (rewrite zlen_app, Hh; done).
    rewrite skip_sets_ok by done. done.
Qed.

Lemma avc_complete record : bytes_ok record → is_avc record → validate_avc_record record = Ok true.
Proof.
  intros Ho (h&b5&sps&pps&ext&->&Hh&Hb5&Hs&Hp&Hss&Hps&Hext). unfold validate_avc_record.
  set (k := 1 :: h ++ [b5]). set (rest := zlen pps :: sets_bytes pps ++ ext).
  assert (1 :: h ++ b5 :: sets_bytes sps ++ rest = k ++ sets_bytes sps ++ rest) as Er
    by (unfold k; simpl; by rewrite <- app_assoc).
  assert (zlen k = 6) as Hk by (unfold k; rewrite zlen_cons, zlen_app, Hh; done).
  rewrite (proj2 (Z.ltb_ge _ 7)).
  2: { rewrite Er, !zlen_app, Hk. unfold rest. rewrite zlen_cons. zlia. }
  change (zidx (1 :: ?l) 0) with (Ok 1). rewrite Ok_bind. change (1 =? 1) with true. simpl negb. cbv iota.
  rewrite (zidx_ok _ 5 b5) by (apply (zget_at (1 :: h)); rewrite zlen_cons, Hh; done).
  rewrite Ok_bind. cbv zeta. rewrite Hb5, (proj2 (Z.eqb_neq _ 0)) by (by apply nonempty_zlen).
  rewrite to_nat_zlen, Er. rewrite <- Hk at 1. rewrite skip_sets_ok by done.
  rewrite (app_assoc k (sets_bytes sps) rest).
  rewrite (zget_at (k ++ sets_bytes sps) (zlen pps) (sets_bytes pps ++ ext) _ eq_refl
    : zget ((k ++ sets_bytes sps) ++ rest) _ = _).
  rewrite (proj2 (Z.eqb_neq _ 0)) by (by apply nonempty_zlen). rewrite to_nat_zlen.
  set (k2 := (k ++ sets_bytes sps) ++ [zlen pps]).
  assert ((k ++ sets_bytes sps) ++ rest = k2 ++ sets_bytes pps ++ ext) as ->
    by (unfold k2, rest; by rewrite <- (app_assoc _ [zlen pps])).
  replace (zlen (k ++ sets_bytes sps) + 1) with (zlen k2) by (unfold k2; rewrite zlen_app; done).
  rewrite skip_sets_ok by done. rewrite app_assoc, slice_suffix, zdrop_app_exact, Ok_bind by zlia.
  f_equal. fold rest in Ho. rewrite Er in Ho. unfold rest in Ho.
  apply ext_iff; [|done]. apply Forall_app in Ho as [_ Ho]. apply Forall_app in Ho as [_ Ho].
  inversion_clear Ho as [|??? Ho']. by apply Forall_app in Ho' as [_ ?].
Qed.

Lemma avc_sound record : bytes_ok record →
  ∃ b, validate_avc_record record = Ok b ∧ (b = true → is_avc record).
Proof.
  intros Ho. unfold validate_avc_record. destruct (Z.ltb_spec (zlen record) 7) as [|H7]; [by eexists|].
  destruct record as [|b0 [|h0 [|h1 [|h2 [|h3 [|b5 l]]]]]]; try (autorewrite with zlen in H7; zlen_facts; lia).
  change (zidx (b0 :: _) 0) with (Ok b0). rewrite Ok_bind.
  destruct (Z.eqb_spec b0 1) as [->|]; simpl negb; cbv iota; [|by eexists].
  change (zidx (1 :: _) 5) with (Ok b5). rewrite Ok_bind. cbv zeta.
  destruct (Z.eqb_spec (b5 .& 31) 0) as [|Hn]; [by eexists|].
  set (k := [1; h0; h1; h2; h3; b5]). change (1 :: h0 :: h1 :: h2 :: h3 :: b5 :: l) with (k ++ l) in *.
  change 6 with (zlen k). apply Forall_app in Ho as [_ Ho].
  destruct (skip_sets _ (k ++ l) (zlen k)) as [pos|] eqn:E1; [|by eexists].
  destruct (skip_sets_inv _ _ _ _ Ho E1) as (sps&r&->&Hl&Hs&->). rewrite app_assoc in *.
  apply Forall_app in Ho as [_ Ho].
  destruct (zget _ _) as [np|] eqn:E2; [|by eexists].
  assert (∃ r', r = np :: r') as [r' ->].
  { rewrite zget_app_r, Z.sub_diag in E2 by lia. destruct r as [|y r]; [done|]. injection E2 as ->. by exists r. }
  destruct (Z.eqb_spec np 0) as [|Hnp]; [by eexists|].
  inversion Ho as [|?? Hnb Ho']; subst.
  assert ((k ++ sets_bytes sps) ++ np :: r' = ((k ++ sets_bytes sps) ++ [np]) ++ r') as Er
    by (by rewrite <- (app_assoc _ [np])). rewrite Er.
  replace (zlen (k ++ sets_bytes sps) + 1) with (zlen ((k ++ sets_bytes sps) ++ [np]))
    by (rewrite (zlen_app _ [np]); done).
  destruct (skip_sets _ _ (zlen ((k ++ sets_bytes sps) ++ [np]))) as [pos|] eqn:E3; [|by eexists].
  destruct (skip_sets_inv _ _ _ _ Ho' E3) as (pps&ext&->&Hlp&Hp&->). rewrite app_assoc.
  rewrite slice_suffix, zdrop_app_exact, Ok_bind by zlia. eexists. split; [done|].
  apply Forall_app in Ho' as [_ He]. intros Hx%ext_iff; [|done].
  pose proof (zlen_of_nat sps (b5 .& 31) ltac:(rewrite land_31; apply Z.mod_pos_bound; lia) Hl) as Hls.
  pose proof (zlen_of_nat pps np ltac:(ulia) Hlp) as Hlpp.
  exists [h0; h1; h2; h3], b5, sps, pps, ext. rewrite <- Hlpp. split_and!; try done.
  - unfold k. rewrite <- !app_assoc. done.
  - apply nonempty_zlen. lia.
  - apply nonempty_zlen. lia.
Qed.

(** * HEVC records *)

Record nal_array : Type := mkArray { n_header : Z; n_units : list bytes }.

Definition array_ok (a : nal_array) : Prop := Forall set_ok (n_units a) ∧ zlen (n_units a) < 65536.
Definition array_bytes (a : nal_array) : bytes :=
  n_header a :: to_be_bytes16 (zlen (n_units a)) ++ sets_bytes (n_units a).
Definition arrays_bytes (xs : list nal_array) : bytes := concat (array_bytes <$> xs).
#[global] Arguments array_bytes : simpl never.
#[global] Arguments arrays_bytes : simpl never.

(** How many NAL units of a type the arrays hold. *)
Definition nal_count (ty : Z) (xs : list nal_array) : Z :=
  sumZ (λ a, if n_header a .& 63 =? ty then zlen (n_units a) else 0) xs.

Definition is_hevc (record : bytes) : Prop := ∃ h xs rest,
  record = 1 :: h ++ zlen xs :: arrays_bytes xs ++ rest ∧ zlen h = 21
  ∧ Forall array_ok xs ∧ 0 < nal_count HEVC_NAL_SPS xs ∧ 0 < nal_count HEVC_NAL_PPS xs.

Definition bump (c : bool) (n : nat) (x : Z) : Z := x + (if c then Z.of_nat n else 0).

Lemma hevc_nalus_skip n record ty pos sps pps : hevc_nalus n record ty pos sps pps =
  (λ p, (p, bump (ty =? HEVC_NAL_SPS) n sps, bump (ty =? HEVC_NAL_PPS) n pps)) <$> skip_sets n record pos.
Proof.
  revert pos sps pps. induction n as [|n IH]; intros pos sps pps; simpl.
  { unfold bump. do 2 f_equal; [f_equal|]; by destruct (_ =? _); rewrite Z.add_0_r. }
  destruct (skip_param_set record pos) as [p|]; [|done]. simpl. rewrite IH. unfold bump.
  destruct (skip_sets n record p) as [e|]; [|done]. cbn [fmap option_fmap option_map].
  destruct (ty =? HEVC_NAL_SPS), (ty =? HEVC_NAL_PPS); apply (f_equal Some);
    repeat apply (f_equal2 pair); lia.
Qed.

Lemma arrays_ok xs k r sps pps : Forall array_ok xs →
  hevc_arrays (length xs) (k ++ arrays_bytes xs ++ r) (zlen k) sps pps
  = Some (sps + nal_count HEVC_NAL_SPS xs, pps + nal_count HEVC_NAL_PPS xs).
Proof.
  intros H. revert k sps pps. induction H as [|[hd us] xs [Hu Hn] _ IH]; intros k sps pps.
  { simpl. by rewrite !Z.add_0_r. }
  cbn [length hevc_arrays n_units] in *.
  change (arrays_bytes (mkArray hd us :: xs)) with (array_bytes (mkArray hd us) ++ arrays_bytes xs).
  set (n := zlen us) in *. pose proof (zlen_nonneg us : 0 ≤ n).
  change (array_bytes (mkArray hd us)) with (hd :: [as_u8 (n >> 8); as_u8 n] ++ sets_bytes us).
  set (hi := as_u8 (n >> 8)). set (lo := as_u8 n). set (k3 := k ++ [hd; hi; lo]).
  set (p := k ++ _ ++ r).
  assert (p = k3 ++ sets_bytes us ++ arrays_bytes xs ++ r) as Ep.
  { unfold p, k3. rewrite <- !app_assoc. simpl. by rewrite <- ?app_assoc. }
  assert (zlen k3 = zlen k + 3) as Hk3 by (unfold k3; rewrite zlen_app; done).
  assert (zget p (zlen k) = Some hd ∧ zget p (zlen k + 1) = Some hi ∧ zget p (zlen k + 2) = Some lo)
    as (->&->&->).
  { set (z := sets_bytes us ++ arrays_bytes xs ++ r) in *.
    pose proof (zget_at (k ++ [hd]) hi (lo :: z) (zlen k + 1) ltac:(zlia)) as E1.
    pose proof (zget_at (k ++ [hd; hi]) lo z (zlen k + 2) ltac:(zlia)) as E2.
    rewrite Ep. unfold k3. rewrite <- app_assoc in E1, E2 |- *. split_and!; [|exact E1|exact E2].
    by apply zget_at. }
  cbn [mbind option_bind]. unfold hi, lo. rewrite be16_roundtrip by (unfold is_u16; lia). fold hi lo.
  unfold n at 1. rewrite to_nat_zlen, hevc_nalus_skip, <- Hk3, Ep, skip_sets_ok by done.
  cbn [fmap option_fmap option_map mbind option_bind]. rewrite app_assoc, IH. unfold bump, nal_count.
  cbn [sumZ n_header n_units]. do 2 f_equal; destruct (_ =? _); unfold n, zlen; lia.
Qed.

Lemma arrays_inv n k l sps pps s p : bytes_ok l →
  hevc_arrays n (k ++ l) (zlen k) sps pps = Some (s, p) →
  ∃ xs r, l = arrays_bytes xs ++ r ∧ length xs = n ∧ Forall array_ok xs
    ∧ s = sps + nal_count HEVC_NAL_SPS xs ∧ p = pps + nal_count HEVC_NAL_PPS xs.
Proof.
  revert k l sps pps. induction n as [|n IH]; intros k l sps pps Ho H.
  { injection H as <- <-. exists [], l. by rewrite !Z.add_0_r. }
  cbn [hevc_arrays] in H. destruct (zget (k ++ l) (zlen k)) as [hd|] eqn:E1; [|done].
  cbn [mbind option_bind] in H.
  destruct (zget (k ++ l) (zlen k + 1)) as [hi|] eqn:E2; [|done]. cbn [mbind option_bind] in H.
  destruct (zget (k ++ l) (zlen k + 2)) as [lo|] eqn:E3; [|done]. cbn [mbind option_bind] in H.
  assert (∃ t, l = hd :: hi :: lo :: t) as [t ->].
  { rewrite zget_app_r in E1, E2, E3 by lia. rewrite Z.sub_diag in E1.
    replace (zlen k + 1 - zlen k) with 1 in E2 by lia. replace (zlen k + 2 - zlen k) with 2 in E3 by lia.
    destruct l as [|a [|b [|c t]]]; try done. injection E1 as ->. injection E2 as ->.
    injection E3 as ->. by exists t. }
  inversion Ho as [|?? _ Ho1]; subst. inversion Ho1 as [|?? Hh Ho2]; subst.
  inversion Ho2 as [|?? Hl Ho3]; subst. rewrite hevc_nalus_skip in H.
  replace (k ++ hd :: hi :: lo :: t) with ((k ++ [hd; hi; lo]) ++ t) in H by (by rewrite <- app_assoc).
  replace (zlen k + 3) with (zlen (k ++ [hd; hi; lo])) in H by (rewrite zlen_app; done).
  destruct (skip_sets _ _ _) as [e|] eqn:Es; [|done].
  destruct (skip_sets_inv _ _ _ _ Ho3 Es) as (us&r&->&Hn&Hu&->).
  cbn [fmap option_fmap option_map mbind option_bind] in H. rewrite app_assoc in H.
  apply Forall_app in Ho3 as [_ Ho3].
  destruct (IH _ _ _ _ Ho3 H) as (xs&r'&->&<-&Hx&->&->).
  set (m := from_be_bytes16 hi lo) in *. assert (is_u16 m) as Hm by (unfold m, from_be_bytes16; ulia).
  assert (m = zlen us) as Em by (apply zlen_of_nat; [ulia|done]).
  exists (mkArray hd us :: xs), r'. split_and!.
  - change (arrays_bytes (mkArray hd us :: xs)) with
      ((hd :: to_be_bytes16 (zlen us) ++ sets_bytes us) ++ arrays_bytes xs).
    rewrite <- Em. unfold m. rewrite to_be_from_be16 by done. simpl. by rewrite <- app_assoc.
  - done.
  - constructor; [|done]. split; [done|]. cbn [n_units]. ulia.
  - unfold bump, nal_count. cbn [sumZ n_header n_units]. destruct (_ =? HEVC_NAL_SPS); unfold zlen in *; lia.
  - unfold bump, nal_count. cbn [sumZ n_header n_units]. destruct (_ =? HEVC_NAL_PPS); unfold zlen in *; lia.
Qed.

Lemma hevc_complete record : is_hevc record → validate_hevc_record record = Ok true.
Proof.
  intros (h&xs&rest&->&Hh&Hx&Hs&Hp). unfold validate_hevc_record.
  set (k := 1 :: h ++ [zlen xs]).
  assert (1 :: h ++ zlen xs :: arrays_bytes xs ++ rest = k ++ arrays_bytes xs ++ rest) as Er
    by (unfold k; simpl; by rewrite <- app_assoc).
  assert (zlen k = 23) as Hk by (unfold k; rewrite zlen_cons, zlen_app, Hh; done).
  rewrite (proj2 (Z.leb_gt _ FIXED_HEADER)) by (rewrite Er; unfold FIXED_HEADER; zlia).
  change (zidx (1 :: ?l) 0) with (Ok 1). rewrite Ok_bind. change (negb (1 =? 1)) with false. cbv iota.
  rewrite (zidx_ok _ FIXED_HEADER (zlen xs)) by (apply (zget_at (1 :: h)); rewrite zlen_cons, Hh; done).
  rewrite Ok_bind, to_nat_zlen, Er. change (FIXED_HEADER + 1) with 23. rewrite <- Hk, arrays_ok by done.
  rewrite !Z.add_0_l, (proj2 (Z.ltb_lt _ _) Hs), (proj2 (Z.ltb_lt _ _) Hp). done.
Qed.

Lemma hevc_sound record : bytes_ok record →
  ∃ b, validate_hevc_record record = Ok b ∧ (b = true → is_hevc record).
Proof.
  intros Ho. unfold validate_hevc_record.
  destruct (Z.leb_spec (zlen record) FIXED_HEADER) as [|Hl]; [by eexists|]. unfold FIXED_HEADER in *.
  destruct (zlen_split record 22) as (k&r&->&Hk); [lia|]. destruct r as [|n l]; [rewrite app_nil_r in Hl; lia|].
  rewrite (zidx_ok _ 22 n) by (by apply zget_at).
  destruct k as [|b0 h]; [done|]. simpl app. change (zidx (b0 :: ?l) 0) with (Ok b0).
  rewrite !Ok_bind. destruct (Z.eqb_spec b0 1) as [->|]; simpl negb; cbv iota; [|by eexists].
  eexists. split; [done|]. change (22 + 1) with 23.
  rewrite zlen_cons in Hk. apply Forall_cons in Ho as [_ Ho]. apply Forall_app in Ho as [_ Ho].
  inversion Ho as [|?? Hn Ho']; subst.
  assert (1 :: h ++ n :: l = (1 :: h ++ [n]) ++ l) as Er by (simpl; by rewrite <- app_assoc).
  assert (zlen (1 :: h ++ [n]) = 23) as H23 by (rewrite zlen_cons, zlen_app; change (zlen [n]) with 1; lia).
  rewrite Er, <- H23. destruct (hevc_arrays _ _ _ _ _) as [[s p]|] eqn:Ea; [|done].
  destruct (arrays_inv _ _ _ _ _ _ _ Ho' Ea) as (xs&rest&->&Hx&Hok&->&->).
  rewrite andb_true_iff, !Z.ltb_lt, !Z.add_0_l. intros [Hs Hp]. exists h, xs, rest.
  rewrite <- (zlen_of_nat xs n) by (done || ulia).
  split_and!; try done. lia.
Qed.

(** * AAC: the bit reader against the list of bits *)

Definition byte_bits (b : Z) : list Z := (λ i, (b >> (7 - i)) .& 1) <$> [0; 1; 2; 3; 4; 5; 6; 7].
Definition bits_of (record : bytes) : list Z := concat (byte_bits <$> record).
Definition bits_value (bs : list Z) : Z := fold_left (λ v b, 2 * v + b) bs 0.
#[global] Arguments bits_of : simpl never.

(** The first [n] bits as a number, and the rest. *)
Definition take_bits (n : Z) (bs : list Z) : option (Z * list Z) :=
  if zlen bs <? n then None else Some (bits_value (ztake n bs), zdrop n bs).

(** An AudioSpecificConfig starts with an object type (and its extension), a
    frequency index (and an explicit frequency) and a channel configuration. *)
Definition aac_tail (r2 : list Z) : Prop := ∃ fi r3 x2 r4 cc r5,
  take_bits 4 r2 = Some (fi, r3) ∧ fi ≠ 13 ∧ fi ≠ 14
  ∧ (if fi =? 15 then take_bits 24 r3 = Some (x2, r4) else r4 = r3)
  ∧ take_bits 4 r4 = Some (cc, r5).

Definition is_aac (record : bytes) : Prop := ∃ aot r1 x1 r2,
  take_bits 5 (bits_of record) = Some (aot, r1) ∧ aot ≠ 0
  ∧ (if aot =? 31 then take_bits 6 r1 = Some (x1, r2) else r2 = r1) ∧ aac_tail r2.

Lemma zlen_bits record : zlen (bits_of record) = zlen record * 8.
Proof.
  induction record as [|b record IH]; [done|].
  change (bits_of (b :: record)) with (byte_bits b ++ bits_of record).
  rewrite zlen_app, IH, zlen_cons. change (zlen (byte_bits b)) with 8. lia.
Qed.

Lemma bit_at record i : 0 ≤ i < zlen record * 8 → ∃ byte,
  zidx record (i / 8) = Ok byte ∧ zget (bits_of record) i = Some ((byte >> (7 - i mod 8)) .& 1).
Proof.
  revert i. induction record as [|b record IH]; intros i Hi; [change (zlen []) with 0 in Hi; lia|].
  rewrite zlen_cons in Hi. change (bits_of (b :: record)) with (byte_bits b ++ bits_of record).
  destruct (decide (i < 8)) as [H8|H8].
  - exists b. rewrite (Z.div_small i 8), (Z.mod_small i 8) by lia. split; [done|].
    rewrite zget_app_l by (change (zlen (byte_bits b)) with 8; lia).
    assert (i = 0 ∨ i = 1 ∨ i = 2 ∨ i = 3 ∨ i = 4 ∨ i = 5 ∨ i = 6 ∨ i = 7) as Hc by lia.
    by destruct Hc as [->|[->|[->|[->|[->|[->|[->| ->]]]]]]].
  - destruct (IH (i - 8)) as (y&E1&E2); [lia|]. exists y.
    rewrite zget_app_r by (change (zlen (byte_bits b)) with 8; lia).
    change (zlen (byte_bits b)) with 8. replace (i mod 8) with ((i - 8) mod 8) by divlia.
    split; [|done]. unfold zidx. rewrite zget_cons_S by divlia.
    replace (i / 8 - 1) with ((i - 8) / 8) by divlia. exact E1.
Qed.

Lemma zdrop_zget {A} (l : list A) n x : zget l n = Some x → zdrop n l = x :: zdrop (n + 1) l.
Proof.
  intros E. destruct (zget_inv _ _ _ E) as (k&r&->&Hk). rewrite zdrop_app_len by done.
  replace (k ++ x :: r) with ((k ++ [x]) ++ r) by (by rewrite <- app_assoc).
  by rewrite zdrop_app_len by (rewrite zlen_app, Hk; done).
Qed.

Lemma read_bits_loop_ok record n pos v : 0 ≤ pos → pos + Z.of_nat n ≤ zlen record * 8 →
  (n ≤ 32)%nat → 0 ≤ v < 2 ^ (32 - Z.of_nat n) →
  read_bits_loop record n pos v = Ok (fold_left (λ v b, 2 * v + b)
    (ztake (Z.of_nat n) (zdrop pos (bits_of record))) v, pos + Z.of_nat n).
Proof.
  revert pos v. induction n as [|n IH]; intros pos v Hp Hl Hn Hv.
  { simpl. by rewrite Z.add_0_r. }
  cbn [read_bits_loop]. destruct (bit_at record pos) as (b&->&Eb); [lia|]. rewrite Ok_bind. cbv zeta.
  rewrite (zdrop_zget _ _ _ Eb). set (bit := (b >> (7 - pos mod 8)) .& 1) in *.
  assert (0 ≤ bit < 2) as Hbit by (unfold bit; rewrite land_1; divlia).
  replace (2 ^ (32 - Z.of_nat (S n))) with (2 ^ (31 - Z.of_nat n)) in Hv by (f_equal; lia).
  assert (2 ^ (32 - Z.of_nat n) = 2 * 2 ^ (31 - Z.of_nat n)) as E2.
  { rewrite <- Z.pow_succ_r by lia. f_equal. lia. }
  pose proof (Z.pow_le_mono_r 2 (31 - Z.of_nat n) 31 ltac:(lia) ltac:(lia)) as Hm.
  change (2 ^ 31) with 2147483648 in Hm.
  assert ((v <<32 1) .| bit = 2 * v + bit) as ->.
  { rewrite shl32_mul by (change (2 ^ 1) with 2; lia). change (2 ^ 1) with 2.
    rewrite (lor_low _ _ 1); [lia|lia|change (2 ^ 1) with 2; lia|]. change (2 ^ 1) with 2. divlia. }
  rewrite IH by lia. do 2 f_equal; [|lia].
  replace (ztake (Z.of_nat (S n)) (bit :: zdrop (pos + 1) (bits_of record)))
    with (bit :: ztake (Z.of_nat n) (zdrop (pos + 1) (bits_of record))); [done|].
  unfold ztake. replace (Z.to_nat (Z.of_nat (S n))) with (S (Z.to_nat (Z.of_nat n))) by lia. done.
Qed.

Lemma read_bits_ok record pos n : 0 ≤ pos ≤ zlen record * 8 → 0 ≤ n ≤ 32 →
  read_bits record pos n = Ok ((λ '(v, _), (v, pos + n)) <$> take_bits n (zdrop pos (bits_of record))).
Proof.
  intros Hp Hn. unfold read_bits, take_bits. rewrite zlen_zdrop, zlen_bits.
  destruct (Z.ltb_spec (zlen record * 8) (pos + n)).
  { by rewrite (proj2 (Z.ltb_lt _ _)) by lia. }
  rewrite (proj2 (Z.ltb_ge _ _)) by lia. rewrite read_bits_loop_ok; [|lia|lia|lia|].
  - rewrite Z2Nat.id by lia. done.
  - split; [lia|]. apply Z.pow_pos_nonneg; lia.
Qed.

Lemma take_bits_rest record pos n v r : 0 ≤ pos → 0 < n →
  take_bits n (zdrop pos (bits_of record)) = Some (v, r) →
  r = zdrop (pos + n) (bits_of record) ∧ pos + n ≤ zlen record * 8.
Proof.
  intros Hp Hn. unfold take_bits. rewrite zlen_zdrop, zlen_bits.
  destruct (Z.ltb_spec (Z.max 0 (zlen record * 8 - Z.max 0 pos)) n); [done|]. intros [= <- <-].
  rewrite zdrop_zdrop by lia. split; [done|]. pose proof (zlen_nonneg record). lia.
Qed.

Lemma aac_tail_ok record pos : 0 ≤ pos ≤ zlen record * 8 → ∃ b,
  (r ← read_bits record pos 4;
   match r with
   | None => Ok false
   | Some (frequency_index, pos) =>
       if (frequency_index =? 13) || (frequency_index =? 14) then Ok false
       else
         r ← (if frequency_index =? 15 then read_bits record pos 24 else Ok (Some (0, pos)));
         match r with
         | None => Ok false
         | Some (_, pos) => r ← read_bits record pos 4; Ok (bool_decide (is_Some r))
         end
   end) = Ok b ∧ (b = true ↔ aac_tail (zdrop pos (bits_of record))).
Proof.
  intros Hp. unfold aac_tail. rewrite read_bits_ok, Ok_bind by lia.
  destruct (take_bits 4 (zdrop pos (bits_of record))) as [[fi r3]|] eqn:E1; simpl;
    [|eexists; split; [done|]; split; [done|]; by intros (?&?&?&?&?&?&[=]&_)].
  destruct (take_bits_rest _ _ 4 _ _ (proj1 Hp) ltac:(lia) E1) as [-> H1].
  destruct (Z.eqb_spec fi 13); simpl;
    [eexists; split; [done|]; split; [done|]; intros (?&?&?&?&?&?&[= <- <-]&?&_); congruence|].
  destruct (Z.eqb_spec fi 14); simpl;
    [eexists; split; [done|]; split; [done|]; intros (?&?&?&?&?&?&[= <- <-]&_&?&_); congruence|].
  assert (∀ p, 0 ≤ p ≤ zlen record * 8 → ∃ b,
    (r ← read_bits record p 4; Ok (bool_decide (is_Some r))) = Ok b
    ∧ (b = true ↔ ∃ cc r5, take_bits 4 (zdrop p (bits_of record)) = Some (cc, r5))) as Hlast.
  { intros p Hb. rewrite read_bits_ok, Ok_bind by lia. eexists. split; [done|].
    destruct (take_bits 4 (zdrop p _)) as [[cc r5]|]; simpl; split; try done.
    - intros _. by exists cc, r5.
    - by intros (?&?&?). }
  destruct (Z.eqb_spec fi 15).
  - rewrite read_bits_ok, Ok_bind by lia.
    destruct (take_bits 24 _) as [[x2 r4]|] eqn:E2; simpl.
    + destruct (take_bits_rest _ (pos + 4) 24 _ _ ltac:(lia) ltac:(lia) E2) as [-> H2].
      destruct (Hlast (pos + 4 + 24) ltac:(lia)) as (b&->&Hb). exists b. split; [done|].
      rewrite Hb. subst fi. split; [intros (cc&r5&E); by exists 15, (zdrop (pos + 4) (bits_of record)), x2,
        (zdrop (pos + 4 + 24) (bits_of record)), cc, r5|].
      intros (?&?&?&?&?&?&[= <- <-]&_&_&H4&?). simpl in H4. rewrite E2 in H4. injection H4 as <- <-. eauto.
    + eexists. split; [done|]. split; [done|].
      intros (?&?&?&?&?&?&[= <- <-]&_&_&H4&_). subst fi. simpl in H4. congruence.
  - rewrite Ok_bind. destruct (Hlast (pos + 4) ltac:(lia)) as (b&->&Hb). exists b. split; [done|].
    rewrite Hb. split.
    + intros (cc&r5&E). exists fi, (zdrop (pos + 4) (bits_of record)), 0, (zdrop (pos + 4) (bits_of record)), cc, r5.
      rewrite (proj2 (Z.eqb_neq fi 15)) by done. done.
    + intros (?&?&?&?&?&?&[= <- <-]&_&_&H4&?). rewrite (proj2 (Z.eqb_neq fi 15)) in H4 by done. subst. eauto.
Qed.

Lemma aac_iff record : ∃ b, validate_aac_config record = Ok b ∧ (b = true ↔ is_aac record).
Proof.
  pose proof (zlen_nonneg record). unfold validate_aac_config, is_aac.
  rewrite read_bits_ok, Ok_bind by lia. change (zdrop 0 (bits_of record)) with (bits_of record).
  destruct (take_bits 5 (bits_of record)) as [[aot r1]|] eqn:E1; simpl;
    [|eexists; split; [done|]; split; [done|]; by intros (?&?&?&?&[=]&_)].
  destruct (take_bits_rest record 0 5 _ _ ltac:(lia) ltac:(lia) E1) as [-> H1].
  destruct (Z.eqb_spec aot 0);
    [eexists; split; [done|]; split; [done|]; intros (?&?&?&?&[= <- <-]&?&_); congruence|].
  destruct (Z.eqb_spec aot 31) as [E31|E31].
  - rewrite read_bits_ok, Ok_bind by lia. change (0 + 5) with 5 in *.
    destruct (take_bits 6 _) as [[x1 r2]|] eqn:E2; simpl.
    + destruct (take_bits_rest _ 5 6 _ _ ltac:(lia) ltac:(lia) E2) as [-> H2].
      destruct (aac_tail_ok record (5 + 6) ltac:(lia)) as (b&->&Hb). exists b. split; [done|].
      rewrite Hb. split.
      * intros Ht. exists aot, (zdrop 5 (bits_of record)), x1, (zdrop (5 + 6) (bits_of record)).
        rewrite (proj2 (Z.eqb_eq aot 31) E31). done.
      * intros (?&?&?&?&[= <- <-]&_&H4&Ht). rewrite (proj2 (Z.eqb_eq aot 31) E31), E2 in H4.
        by injection H4 as <- <-.
    + eexists. split; [done|]. split; [done|]. intros (?&?&?&?&[= <- <-]&_&H4&_).
      rewrite (proj2 (Z.eqb_eq aot 31) E31) in H4. congruence.
  - rewrite Ok_bind. destruct (aac_tail_ok record (0 + 5) ltac:(lia)) as (b&->&Hb). exists b.
    split; [done|]. rewrite Hb. split.
    + intros Ht. exists aot, (zdrop (0 + 5) (bits_of record)), 0, (zdrop (0 + 5) (bits_of record)).
      rewrite (proj2 (Z.eqb_neq aot 31) E31). done.
    + intros (?&?&?&?&[= <- <-]&_&H4&Ht). rewrite (proj2 (Z.eqb_neq aot 31) E31) in H4. by subst.
Qed.

(** The record grammar of each codec. *)
Definition is_record (codec : ConfigCodec) (record : bytes) : Prop :=
  match codec with Avc => is_avc record | Hevc => is_hevc record | Opaque => record ≠ [] end.

Lemma record_iff codec record : bytes_ok record →
  ∃ b, validate_config_record codec record = Ok b ∧ (b = true ↔ is_record codec record).
Proof.
  intros Ho. destruct codec; simpl.
  - destruct (avc_sound record Ho) as (b&E&H). exists b. split; [done|]. split; [done|].
    intros Ha. rewrite avc_complete in E by done. congruence.
  - destruct (hevc_sound record Ho) as (b&E&H). exists b. split; [done|]. split; [done|].
    intros Ha. rewrite hevc_complete in E by done. congruence.
  - eexists. split; [done|]. rewrite negb_true_iff, Z.eqb_neq, nonempty_zlen. done.
Qed.

(** C21. A codec configuration record is accepted exactly when it is well formed:
    for AVC and HEVC every length field stays inside the record, no parameter
    set is empty and at least one SPS and one PPS is there; other codecs need a
    byte; an AudioSpecificConfig needs its mandatory fields. The validators
    never panic, on any bytes. *)
Theorem config_record_grammar codec record : bytes_ok record →
  (∃ b, validate_config_record codec record = Ok b ∧ (b = true ↔ is_record codec record))
  ∧ ∃ b, validate_aac_config record = Ok b ∧ (b = true ↔ is_aac record).
Proof. intros Ho. split; [by apply record_iff|apply aac_iff]. Qed.

Lemma config_record_grammar_witness : is_record Avc [1; 66; 0; 30; 255; 225; 0; 1; 103; 1; 0; 1; 104].
Proof.
  destruct (config_record_grammar Avc [1; 66; 0; 30; 255; 225; 0; 1; 103; 1; 0; 1; 104])
    as [(b&E&H) _]; [bytes_lit|].
  vm_compute in E. injection E as <-. apply H. reflexivity.
Defined.
End CodecConfig.
