(* ===== verification/InitCache.v ===== *)
(** Init-frame classification and frame population, src/media/init_cache.rs: which
    frames may be cached for late joiners, the codec fields of a frame, and the
    HDR colour information of a metadata packet. *)
From S2P Require Import Prelude Bytes Types F64 Buffer Source Amf0 Ertmp Multitrack CodecConfig.
#[local] Set Warnings "-clear-no-such-hyp".

Module InitCache.
Import ExVideo ExAudio Multitrack CodecConfig.

Inductive CacheFrameKind : Type :=
  LiveOnly | VideoSequenceHeader | AudioSequenceHeader | VideoKeyframe.

#[global] Instance CacheFrameKind_eq_dec : EqDecision CacheFrameKind.
Proof. solve_decision. Defined.

(** The parsers run on a default header: [None] when they fail. *)
Definition parse_video (payload : bytes) : Res (option VideoHeader) :=
  match exvideo_parse payload video_header_default with
  | (Ok _, hdr) => Ok (Some hdr)
  | (Err _, _) => Ok None
  | (Panic, _) => Panic
  end.

Definition parse_audio (payload : bytes) : Res (option AudioHeader) :=
  match exaudio_parse payload audio_header_default with
  | (Ok _, hdr) => Ok (Some hdr)
  | (Err _, _) => Ok None
  | (Panic, _) => Panic
  end.

(** [payload.get(n..).unwrap_or(&[])]. *)
Definition get_from (payload : bytes) (n : Z) : bytes :=
  if n <=? zlen payload then zdrop n payload else [].

(** * Classification *)

Definition is_video_command (payload : bytes) : bool :=
  match payload with
  | [] => false
  | b :: _ => negb (b .& 128 =? 0) && ((b >> 4) .& 7 =? VIDEO_FRAME_TYPE_COMMAND)
  end.

Definition sequence_header_kind (codec : ConfigCodec) (record : bytes) : Res CacheFrameKind :=
  ok ← validate_config_record codec record;
  Ok (if ok : bool then VideoSequenceHeader else LiveOnly).

Definition sequence_start_config_valid (frame_type : FrameType) (fourcc record : bytes) : Res bool :=
  if decide (frame_type = Audio ∧ fourcc_prefix fourcc = Some (text "mp4a")) then
    validate_aac_config record
  else if decide (frame_type = Audio ∧ record = [] ∧ fourcc_prefix fourcc = Some (text "Opus")) then
    Ok true
  else validate_config_record (from_fourcc fourcc) record.

(** The visit of each track. *)
Fixpoint configs_valid (frame_type : FrameType) (ts : list MediaTrackSlice) (all_valid : bool) : Res bool :=
  match ts with
  | [] => Ok all_valid
  | t :: ts =>
      bad ← (if t_packet_type t =? 0 then
               ok ← sequence_start_config_valid frame_type (t_fourcc t) (t_payload t); Ok (negb ok)
             else Ok false);
      configs_valid frame_type ts (if bad : bool then false else all_valid)
  end.

Definition multitrack_sequence_configs_valid (frame_type : FrameType) (payload : bytes) : Res bool :=
  '(_, ts) ← foreach_track frame_type payload;
  configs_valid frame_type ts true.

Definition classify_multitrack_video (payload : bytes) : Res CacheFrameKind :=
  start ← multitrack_has_sequence_start Video payload;
  if start : bool then
    ok ← multitrack_sequence_configs_valid Video payload;
    Ok (if ok : bool then VideoSequenceHeader else LiveOnly)
  else
    key ← multitrack_has_keyframe payload;
    Ok (if key : bool then VideoKeyframe else LiveOnly).

Definition classify_ex_video (payload : bytes) (hdr : VideoHeader) : Res CacheFrameKind :=
  if v_packet_type hdr =? ERTMP_PACKET_TYPE_MODEX then Ok LiveOnly
  else if v_packet_type hdr =? 0 then
    sequence_header_kind (from_fourcc (v_fourcc hdr)) (get_from payload (v_header_size hdr))
  else if ((v_packet_type hdr =? 1) || (v_packet_type hdr =? 3)) && (v_frame_type hdr =? 1) then
    Ok VideoKeyframe
  else Ok LiveOnly.

Definition classify_legacy_video (payload : bytes) : Res CacheFrameKind :=
  b0 ← zidx payload 0;
  let codec_id := b0 .& 15 in
  let frame_type_nibble := (b0 >> 4) .& 15 in
  let avc_packet_type := zget payload 1 in
  if (codec_id =? 7) && bool_decide (avc_packet_type = Some 0) then
    sequence_header_kind Avc (get_from payload 5)
  else if negb (frame_type_nibble =? 1) then Ok LiveOnly
  else if negb (codec_id =? 7) || bool_decide (avc_packet_type = Some 1) then Ok VideoKeyframe
  else Ok LiveOnly.

Definition classify_video (payload : bytes) : Res CacheFrameKind :=
  if is_video_command payload then Ok LiveOnly
  else if is_multitrack_container Video payload then classify_multitrack_video payload
  else
    h ← parse_video payload;
    match h with
    | None => Ok LiveOnly
    | Some hdr =>
        if negb (v_is_ex_header hdr =? 0) then classify_ex_video payload hdr
        else classify_legacy_video payload
    end.

(** A tag that is not a multitrack sequence start. *)
Definition classify_audio_single (payload : bytes) : Res CacheFrameKind :=
  h ← parse_audio payload;
  match h with
  | None => Ok LiveOnly
  | Some hdr =>
      if negb (a_is_ex_header hdr =? 0) then
        if a_packet_type hdr =? ERTMP_PACKET_TYPE_MODEX then Ok LiveOnly
        else if a_packet_type hdr =? 0 then
          ok ← sequence_start_config_valid Audio (a_fourcc hdr) (get_from payload (a_header_size hdr));
          Ok (if ok : bool then AudioSequenceHeader else LiveOnly)
        else Ok LiveOnly
      else if bool_decide (a_audio_codec hdr = Aac) && (a_aac_packet_type hdr =? 0)
              && (2 <=? zlen payload) then
        d ← slice payload 2 (zlen payload);
        ok ← validate_aac_config d;
        Ok (if ok : bool then AudioSequenceHeader else LiveOnly)
      else Ok LiveOnly
  end.

Definition classify_audio (payload : bytes) : Res CacheFrameKind :=
  start ← (if is_multitrack_container Audio payload then multitrack_has_sequence_start Audio payload
           else Ok false);
  if start : bool then
    ok ← multitrack_sequence_configs_valid Audio payload;
    Ok (if ok : bool then AudioSequenceHeader else LiveOnly)
  else classify_audio_single payload.

Definition classify_cache_frame (frame_type : FrameType) (payload : bytes) : Res CacheFrameKind :=
  match frame_type with
  | Video => classify_video payload
  | Audio => classify_audio payload
  | Script | Metadata => Ok LiveOnly
  end.

(** * Population of a frame *)

Definition set_video (composition_time video_frame_type : Z) (cc : bytes) (codec : VideoCodec)
    (is_metadata : Z) (f : Frame) : Frame :=
  mkFrame (f_frame_type f) (f_timestamp f) composition_time (f_size f) (f_data f) (f_audio_codec f)
    (f_audio_sample_rate f) (f_audio_channels f) (f_audio_bit_depth f) (f_audio_fourcc f)
    codec cc video_frame_type is_metadata (f_track_id f).

Definition set_audio (rate channels depth : Z) (cc : bytes) (codec : AudioCodec) (is_metadata : Z)
    (f : Frame) : Frame :=
  mkFrame (f_frame_type f) (f_timestamp f) (f_composition_time f) (f_size f) (f_data f) codec
    rate channels depth cc (f_video_codec f) (f_video_fourcc f) (f_video_frame_type f)
    is_metadata (f_track_id f).

Definition set_is_metadata (m : Z) (f : Frame) : Frame :=
  set_video (f_composition_time f) (f_video_frame_type f) (f_video_fourcc f) (f_video_codec f) m f.

(** [if let Ok(codec) = .. { field = codec }]. *)
Definition ok_or {A} (r : Res A) (old : A) : A := match r with Ok a => a | _ => old end.

Definition populate_multitrack_frame (f : Frame) (fourcc : bytes) (packet_type video_frame_type : Z)
    : Res Frame :=
  cc ← copy_at fourcc_default 0 fourcc;
  Ok (match f_frame_type f with
      | Video =>
          set_video (f_composition_time f) video_frame_type cc
            (ok_or (FourCC.fourcc_to_video_codec fourcc) (f_video_codec f))
            (Z.b2z (packet_type =? ERTMP_PACKET_TYPE_METADATA)) f
      | Audio =>
          set_audio (f_audio_sample_rate f) (f_audio_channels f) (f_audio_bit_depth f) cc
            (ok_or (FourCC.fourcc_to_audio_codec fourcc) (f_audio_codec f))
            (Z.b2z (packet_type =? ERTMP_AUDIO_PACKET_TYPE_METADATA)) f
      | Script | Metadata => set_is_metadata 1 f
      end).

Definition legacy_video_codec (codec_id : Z) : VideoCodec :=
  match codec_id with
  | 1 => Jpeg | 2 => Sorenson | 3 => Screen | 4 => Vp6 | 5 => Vp6a | 6 => Screen2 | 7 => H264
  | 12 => H265 | 13 => Av1 | 14 => Vp9
  | _ => video_codec_default
  end.

Definition populate_video_frame (f : Frame) (payload : bytes) : Res Frame :=
  h ← parse_video payload;
  match h with
  | None => Ok f
  | Some hdr =>
      let ex := negb (v_is_ex_header hdr =? 0) in
      if ex && (v_packet_type hdr =? ERTMP_PACKET_TYPE_MODEX) then Ok f
      else
        codec ← (if ex then Ok (ok_or (FourCC.fourcc_to_video_codec (v_fourcc hdr)) (f_video_codec f))
                 else b0 ← zidx payload 0; Ok (legacy_video_codec (b0 .& 15)));
        Ok (set_video (v_composition_time hdr) (v_frame_type hdr) (v_fourcc hdr) codec
              (if ex && (v_packet_type hdr =? ERTMP_PACKET_TYPE_METADATA) then 1 else f_is_metadata f) f)
  end.

Definition populate_audio_frame (f : Frame) (payload : bytes) : Res Frame :=
  h ← parse_audio payload;
  match h with
  | None => Ok f
  | Some hdr =>
      let ex := negb (a_is_ex_header hdr =? 0) in
      if ex && (a_packet_type hdr =? ERTMP_PACKET_TYPE_MODEX) then Ok f
      else
        let '(rate, channels, depth) :=
          if ex then (0, 0, 0)
          else (a_sample_rate hdr, a_channels hdr, if negb (a_sample_size hdr =? 0) then 16 else 8) in
        let codec := if ex then ok_or (FourCC.fourcc_to_audio_codec (a_fourcc hdr)) (f_audio_codec f)
                     else a_audio_codec hdr in
        Ok (set_audio rate channels depth (a_fourcc hdr) codec
              (if ex && (a_packet_type hdr =? ERTMP_AUDIO_PACKET_TYPE_METADATA) then 1
               else f_is_metadata f) f)
  end.

Definition populate_av_frame (f : Frame) (payload : bytes) : Res Frame :=
  match f_frame_type f with
  | Video => populate_video_frame f payload
  | Audio => populate_audio_frame f payload
  | Script | Metadata => Ok (set_is_metadata 1 f)
  end.

(** * What is cached *)

(** The configuration a sequence start of codec [cc] must carry. *)
Definition config_ok (ft : FrameType) (cc record : bytes) : Prop :=
  if decide (ft = Audio ∧ cc = text "mp4a") then is_aac record
  else (ft = Audio ∧ record = [] ∧ cc = text "Opus") ∨ is_record (from_fourcc cc) record.

Definition multitrack_init (ft : FrameType) (payload : bytes) : Prop := ∃ c,
  payload = container_bytes c ∧ container_ok ft c ∧ c_packet_type c = 0
  ∧ Forall (λ t, config_ok ft (t_fourcc t) (t_payload t)) (c_tracks c).

Inductive video_init : bytes → Prop :=
  | vi_legacy b0 ct record : b0 < 128 → b0 .& 15 = 7 → zlen ct = 3 → is_avc record →
      video_init (b0 :: 0 :: ct ++ record)
  | vi_enhanced b0 cc record : 128 ≤ b0 → frame_nibble b0 ≠ VIDEO_FRAME_TYPE_COMMAND → b0 .& 15 = 0 →
      zlen cc = 4 → is_record (from_fourcc cc) record → video_init (b0 :: cc ++ record)
  | vi_multitrack payload : multitrack_init Video payload → video_init payload.

Inductive video_key : bytes → Prop :=
  | vk_legacy b0 l : b0 < 128 → (b0 >> 4) .& 15 = 1 → b0 .& 15 ≠ 7 ∨ (∃ r, l = 1 :: r) →
      video_key (b0 :: l)
  | vk_enhanced b0 cc rest : 128 ≤ b0 → frame_nibble b0 = 1 → b0 .& 15 = 1 ∨ b0 .& 15 = 3 →
      zlen cc = 4 → (timed (b0 .& 15) cc = true → 3 ≤ zlen rest) → video_key (b0 :: cc ++ rest)
  | vk_multitrack c : container_ok Video c → frame_nibble (c_b0 c) = 1 →
      c_packet_type c = 1 ∨ c_packet_type c = 3 → video_key (container_bytes c).

Inductive audio_init : bytes → Prop :=
  | ai_legacy b0 record : (b0 >> 4) .& 15 = 10 → is_aac record → audio_init (b0 :: 0 :: record)
  | ai_enhanced b0 cc record : (b0 >> 4) .& 15 = 9 → b0 .& 15 = 0 → zlen cc = 4 →
      config_ok Audio cc record → audio_init (b0 :: cc ++ record)
  | ai_multitrack payload : multitrack_init Audio payload → audio_init payload.

(** ** Configuration records *)

Lemma prefix_4 cc r : zlen cc = 4 → fourcc_prefix (cc ++ r) = Some cc.
Proof.
  intros Hc. unfold fourcc_prefix. rewrite (proj2 (Z.leb_le _ _)) by zlia.
  by rewrite ztake_app_len.
Qed.

Lemma from_fourcc_app cc r : zlen cc = 4 → from_fourcc (cc ++ r) = from_fourcc cc.
Proof.
  intros Hc. pose proof (prefix_4 cc [] Hc) as E. rewrite app_nil_r in E.
  unfold from_fourcc. by rewrite (prefix_4 cc r Hc), E.
Qed.

Lemma config_valid_iff ft cc r record : zlen cc = 4 → bytes_ok record →
  ∃ b, sequence_start_config_valid ft (cc ++ r) record = Ok b ∧ (b = true ↔ config_ok ft cc record).
Proof.
  intros Hc Ho. unfold sequence_start_config_valid, config_ok.
  rewrite (prefix_4 cc r Hc), from_fourcc_app by done.
  destruct (decide (ft = Audio ∧ cc = text "mp4a")) as [[-> ->]|Hn].
  { rewrite decide_True by done. apply aac_iff. }
  rewrite decide_False by naive_solver.
  destruct (decide (ft = Audio ∧ record = [] ∧ Some cc = Some (text "Opus"))) as [(->&->&[= ->])|Hn2].
  { exists true. split; [done|]. split; [by left|done]. }
  destruct (record_iff (from_fourcc cc) record Ho) as (b&->&Hb). exists b. split; [done|].
  rewrite Hb. split; [by right|]. intros [(->&->&->)|?]; [by destruct Hn2|done].
Qed.

(** What [configs_valid] computes over the tracks of a container. *)
Lemma configs_valid_ok ft ts all : Forall (λ t, zlen (t_fourcc t) = 4 ∧ bytes_ok (t_payload t)
    ∧ t_packet_type t = 0) ts →
  ∃ b, configs_valid ft ts all = Ok b
  ∧ (b = true ↔ all = true ∧ Forall (λ t, config_ok ft (t_fourcc t) (t_payload t)) ts).
Proof.
  intros H. revert all. induction H as [|t ts (Hc&Ho&Hp) _ IH]; intros all.
  { exists all. split; [done|]. split; [by split|by intros []]. }
  cbn [configs_valid]. rewrite Hp. change (0 =? 0) with true. cbv iota.
  destruct (config_valid_iff ft (t_fourcc t) [] (t_payload t) Hc Ho) as (b&Eb&Hb).
  rewrite app_nil_r in Eb. rewrite Eb, !Ok_bind.
  destruct (IH (if negb b then false else all)) as (b'&->&Hb'). exists b'. split; [done|].
  rewrite Hb', Forall_cons, <- Hb. clear. destruct b, all; simpl; naive_solver.
Qed.

(** ** Multitrack containers *)

Lemma tracks_bytes_ok many one ts : bytes_ok (tracks_bytes many one ts) →
  Forall (λ t, bytes_ok (t_payload t)) ts.
Proof.
  induction ts as [|t ts IH]; [constructor|].
  change (tracks_bytes many one (t :: ts)) with (track_bytes many one t ++ tracks_bytes many one ts).
  intros [Ht Hts]%Forall_app. constructor; [|by apply IH]. unfold track_bytes in Ht.
  apply Forall_app in Ht as [_ Ht]. apply Forall_cons in Ht as [_ Ht]. by apply Forall_app in Ht as [_ Ht].
Qed.

Lemma container_tracks ft c : container_ok ft c → bytes_ok (container_bytes c) →
  Forall (λ t, zlen (t_fourcc t) = 4 ∧ bytes_ok (t_payload t) ∧ t_packet_type t = c_packet_type c)
    (c_tracks c).
Proof.
  intros (_&_&_&Hcc&Hts&_) Ho. unfold container_bytes in Ho.
  apply Forall_app in Ho as [_ [_ Ho]%Forall_app]. apply tracks_bytes_ok in Ho.
  rewrite Forall_forall in *. intros t Ht. destruct (Hts t Ht) as (Hp&_&Hf&_).
  split_and!; auto. destruct (c_many c); [done|by rewrite Hf].
Qed.

Lemma has_packet_type_container ft c ty : container_ok ft c → bytes_ok (container_bytes c) →
  has_packet_type ft (container_bytes c) ty = Ok (c_packet_type c =? ty).
Proof.
  intros Hc Ho. pose proof (container_tracks ft c Hc Ho) as Ht. unfold has_packet_type, foreach_track.
  rewrite walk_container by done. apply (f_equal Ok). simpl.
  destruct Hc as (_&_&_&_&_&Hne&_). destruct (c_tracks c) as [|t ts]; [done|].
  destruct (Z.eqb_spec (c_packet_type c) ty) as [<-|Hn].
  - apply Forall_cons in Ht as [(_&_&E) _]. simpl. by rewrite E, Z.eqb_refl.
  - apply not_true_iff_false. intros (t'&Hin&Heq)%existsb_exists. apply Z.eqb_eq in Heq.
    rewrite Forall_forall in Ht. destruct (Ht t') as (_&_&E); [by apply list_elem_of_In|]. congruence.
Qed.

Lemma multitrack_starts ft payload : bytes_ok payload →
  (∃ b, multitrack_has_sequence_start ft payload = Ok true
      ∧ multitrack_sequence_configs_valid ft payload = Ok b ∧ (b = true ↔ multitrack_init ft payload))
  ∨ (multitrack_has_sequence_start ft payload = Ok false ∧ ¬ multitrack_init ft payload).
Proof.
  intros Ho. destruct (foreach_cases ft payload Ho) as [(c&Hc&->&E)|[E Hn]].
  - unfold multitrack_has_sequence_start. rewrite has_packet_type_container by done.
    pose proof (container_tracks ft c Hc Ho) as Ht.
    destruct (Z.eqb_spec (c_packet_type c) 0) as [E0|Hn]; [left|right].
    + rewrite E0 in Ht. destruct (configs_valid_ok ft (c_tracks c) true Ht) as (b&Eb&Hb).
      exists b. unfold multitrack_sequence_configs_valid. rewrite E, Ok_bind. split_and!; try done.
      rewrite Hb. split; [intros [_ ?]; by exists c|]. intros (c'&Ec&Hc'&_&HF).
      destruct (container_unique ft c c' Hc Hc' Ec) as (->&_). done.
    + split; [done|]. intros (c'&Ec&Hc'&E0&_).
      destruct (container_unique ft c c' Hc Hc' Ec) as (_&?&_). congruence.
  - right. unfold multitrack_has_sequence_start, has_packet_type. rewrite E. split; [done|].
    intros (c&->&Hc&_). by eapply Hn.
Qed.

Lemma multitrack_init_head ft b0 l : multitrack_init ft (b0 :: l) →
  is_multitrack_container ft (b0 :: l) = true.
Proof. intros (c&E&(Hb&_)&_). by injection E as -> _. Qed.

(** ** Video *)

Definition decides (r : Res CacheFrameKind) (init key : Prop) : Prop := ∃ k, r = Ok k
  ∧ (k = VideoSequenceHeader ↔ init) ∧ (k = VideoKeyframe ↔ key) ∧ k ≠ AudioSequenceHeader.

Lemma decides_kind k init key : k ≠ AudioSequenceHeader →
  (k = VideoSequenceHeader ↔ init) → (k = VideoKeyframe ↔ key) → decides (Ok k) init key.
Proof. intros. by exists k. Qed.

Lemma decides_live init key : ¬ init → ¬ key → decides (Ok LiveOnly) init key.
Proof. intros. apply decides_kind; done. Qed.

Lemma decides_header codec record init key : bytes_ok record → ¬ key →
  (init ↔ is_record codec record) → decides (sequence_header_kind codec record) init key.
Proof.
  intros Ho Hk Hi. unfold sequence_header_kind.
  destruct (record_iff codec record Ho) as (b&->&Hb). rewrite Ok_bind.
  destruct b; apply decides_kind; try done; rewrite Hi, <- Hb; done.
Qed.

(** A video tag is of one kind: which constructors can have built it. *)
Lemma video_init_inv b0 l : video_init (b0 :: l) →
  (b0 < 128 ∧ b0 .& 15 = 7 ∧ ∃ ct record, l = 0 :: ct ++ record ∧ zlen ct = 3 ∧ is_avc record)
  ∨ (128 ≤ b0 ∧ frame_nibble b0 ≠ VIDEO_FRAME_TYPE_COMMAND ∧ b0 .& 15 = 0
     ∧ ∃ cc record, l = cc ++ record ∧ zlen cc = 4 ∧ is_record (from_fourcc cc) record)
  ∨ (is_multitrack_container Video (b0 :: l) = true ∧ multitrack_init Video (b0 :: l)).
Proof.
  inversion 1; subst; [left|right; left|right; right].
  - eauto 10.
  - eauto 10.
  - eauto using multitrack_init_head.
Qed.

Lemma video_key_inv b0 l : video_key (b0 :: l) →
  (b0 < 128 ∧ (b0 >> 4) .& 15 = 1 ∧ (b0 .& 15 ≠ 7 ∨ ∃ r, l = 1 :: r))
  ∨ (128 ≤ b0 ∧ frame_nibble b0 = 1 ∧ (b0 .& 15 = 1 ∨ b0 .& 15 = 3)
     ∧ ∃ cc rest, l = cc ++ rest ∧ zlen cc = 4 ∧ (timed (b0 .& 15) cc = true → 3 ≤ zlen rest))
  ∨ (is_multitrack_container Video (b0 :: l) = true ∧ frame_nibble b0 = 1
     ∧ ∃ c, b0 :: l = container_bytes c ∧ container_ok Video c ∧ (c_packet_type c = 1 ∨ c_packet_type c = 3)).
Proof.
  remember (b0 :: l) as p eqn:Ep. destruct 1 as [?? H1 H2 H3|?? rest H1 H2 H3 H4 H5|c Hc Hf Hp].
  - injection Ep as -> ->. by left.
  - injection Ep as -> <-. right; left. eauto 10.
  - right; right. assert (c_b0 c = b0) as Hh by (apply (f_equal head) in Ep; by injection Ep).
    rewrite <- Hh. split_and!; [by destruct Hc|done|]. by exists c.
Qed.

Lemma tag_kind b0 l : is_u8 b0 →
  is_video_command (b0 :: l) = (128 <=? b0) && (frame_nibble b0 =? VIDEO_FRAME_TYPE_COMMAND)
  ∧ is_multitrack_container Video (b0 :: l)
    = (128 <=? b0) && negb (frame_nibble b0 =? VIDEO_FRAME_TYPE_COMMAND) && (b0 .& 15 =? 6).
Proof.
  intros Hb. unfold is_video_command, is_multitrack_container, ERTMP_VIDEO_PACKET_TYPE_MULTITRACK.
  rewrite land_128, Z.ltb_antisym by done. fold (frame_nibble b0).
  by destruct (128 <=? b0).
Qed.

Lemma multitrack_keyframe b0 l : bytes_ok (b0 :: l) → is_multitrack_container Video (b0 :: l) = true →
  ∃ b, multitrack_has_keyframe (b0 :: l) = Ok b
  ∧ (b = true ↔ frame_nibble b0 = 1
     ∧ ∃ c, b0 :: l = container_bytes c ∧ container_ok Video c ∧ (c_packet_type c = 1 ∨ c_packet_type c = 3)).
Proof.
  intros Ho Hm. unfold multitrack_has_keyframe. rewrite Hm. cbn [negb]. cbv iota zeta.
  change (zidx (b0 :: l) 0) with (Ok b0). rewrite Ok_bind. fold (frame_nibble b0).
  destruct (foreach_cases Video (b0 :: l) Ho) as [(c&Hc&Ec&->)|[-> Hn]].
  - assert (zget (b0 :: l) 1 = Some (c_kind c * 16 + c_packet_type c)) as -> by (by rewrite Ec).
    destruct (kind_byte (c_kind c) (c_packet_type c)) as [_ ->]; [apply Hc|apply Hc|].
    rewrite Ok_bind. exists (((c_packet_type c =? 1) || (c_packet_type c =? 3)) && (frame_nibble b0 =? 1)).
    split; [by destruct (_ && _)|].
    rewrite andb_true_iff, orb_true_iff, !Z.eqb_eq. split.
    + intros [Hp Hf]. split; [done|]. by exists c.
    + intros [Hf (c'&Ec'&Hc'&Hp)]. rewrite Ec in Ec'.
      destruct (container_unique Video c c' Hc Hc' Ec') as (_&->&_). done.
  - exists false. split; [by destruct (_ && _)|]. split; [done|]. intros (_&c&Ec&Hc&_). by destruct (Hn c Hc).
Qed.

Lemma classify_multitrack_exact payload : bytes_ok payload →
  is_multitrack_container Video payload = true →
  decides (classify_multitrack_video payload) (video_init payload) (video_key payload).
Proof.
  intros Ho Hm. destruct payload as [|b0 l]; [done|]. inversion Ho as [|?? Hb _]; subst.
  destruct (tag_kind b0 l Hb) as [_ Ek]. rewrite Hm in Ek. symmetry in Ek.
  rewrite !andb_true_iff, negb_true_iff, Z.eqb_neq, Z.eqb_eq, Z.leb_le in Ek. destruct Ek as [[Hge Hn] H6].
  assert (video_init (b0 :: l) ↔ multitrack_init Video (b0 :: l)) as Ei.
  { split; [|by constructor]. intros [(?&_)|[(_&_&?&_)|[_ ?]]]%video_init_inv; [lia|lia|done]. }
  unfold classify_multitrack_video. destruct (multitrack_starts Video (b0 :: l) Ho) as [(b&Es&Ev&Hv)|[-> Hv]].
  - rewrite Es, Ok_bind, Ev, Ok_bind. assert (¬ video_key (b0 :: l)) as Hk.
    { intros [(?&_)|[(_&_&?&_)|(_&_&c&Ec&Hc&Hp)]]%video_key_inv; [lia|lia|].
      rewrite Ec in Es, Ho. unfold multitrack_has_sequence_start in Es.
      rewrite has_packet_type_container in Es by done. injection Es as Es%Z.eqb_eq. lia. }
    destruct b; apply decides_kind; try done; rewrite Ei, <- Hv; done.
  - rewrite Ok_bind. destruct (multitrack_keyframe b0 l Ho Hm) as (b&->&Hk). rewrite Ok_bind.
    assert (video_key (b0 :: l) ↔ b = true) as Ek.
    { rewrite Hk. split.
      - intros [(?&_)|[(_&_&?&_)|(_&?&?)]]%video_key_inv; [lia|lia|done].
      - intros [Hf (c&Ec&Hc&Hp)]. rewrite Ec. constructor; [done| |done].
        injection Ec as <- _. done. }
    rewrite <- Ei in Hv. destruct b; apply decides_kind; try done; rewrite Ek; done.
Qed.

Lemma parse_video_legacy b0 l : bytes_ok (b0 :: l) → b0 < 128 →
  ∃ h, parse_video (b0 :: l) = Ok (Some h) ∧ v_is_ex_header h = 0.
Proof.
  intros Ho Hlt. inversion Ho as [|?? Hb _]; subst. pose proof (parse_total _ video_header_default Ho) as H.
  unfold parse_video. revert H. parse_start b0 l. rewrite (proj2 (Z.ltb_lt _ _) Hlt). simpl.
  destruct (_ && _); [|by eexists]. unfold si24_at.
  repeat (destruct (zget _ _) || rewrite Ok_bind || unfold zidx; simpl); try done; by eexists.
Qed.

Lemma parse_video_short b0 l : is_u8 b0 → 128 ≤ b0 → is_command (frame_nibble b0) (b0 .& 15) = false →
  zlen l < 4 → parse_video (b0 :: l) = Ok None.
Proof.
  intros Hb Hge Hn Hl. unfold parse_video. parse_start b0 l. rewrite (proj2 (Z.ltb_ge b0 128)) by lia. simpl.
  fold (frame_nibble b0). rewrite Hn. by rewrite (proj2 (Z.ltb_lt _ 5)) by zlia.
Qed.

Lemma not_command b0 : frame_nibble b0 ≠ VIDEO_FRAME_TYPE_COMMAND →
  is_command (frame_nibble b0) (b0 .& 15) = false.
Proof. intros Hn. unfold is_command. by rewrite (proj2 (Z.eqb_neq _ _) Hn). Qed.

(** An enhanced header that parses has the packet type of the tag. *)
Lemma parse_video_packet b0 l : bytes_ok (b0 :: l) → 128 ≤ b0 → ∃ r, parse_video (b0 :: l) = Ok r
  ∧ (r = None ∨ ∃ h, r = Some h ∧ v_is_ex_header h = 1 ∧ v_packet_type h = b0 .& 15).
Proof.
  intros Ho Hge. inversion Ho as [|?? Hb Hl]; subst.
  destruct (is_command (frame_nibble b0) (b0 .& 15)) eqn:Hc.
  - unfold parse_video. parse_start b0 l. rewrite (proj2 (Z.ltb_ge b0 128)) by lia. simpl.
    fold (frame_nibble b0). rewrite Hc. zcase; simpl; [by eauto|]. eexists. split; [done|]. right. by eexists.
  - destruct (decide (zlen l < 4)); [rewrite parse_video_short by done; by eauto|].
    destruct (zlen_split l 4) as (cc&rest&->&Hcc); [lia|]. apply Forall_app in Hl as [_ Hr].
    unfold parse_video. rewrite parse_tag by done.
    destruct (timed _ _); [destruct rest as [|? [|? [|? ?]]]|]; (eexists; split; [done|]);
      (by left) || (right; by eexists).
Qed.

(** An enhanced tag that is neither a command nor a container. *)
Lemma ex_init_iff b0 cc rest : 128 ≤ b0 → frame_nibble b0 ≠ VIDEO_FRAME_TYPE_COMMAND →
  is_multitrack_container Video (b0 :: cc ++ rest) = false → zlen cc = 4 →
  video_init (b0 :: cc ++ rest) ↔ b0 .& 15 = 0 ∧ is_record (from_fourcc cc) rest.
Proof.
  intros Hge Hn Hm Hc. split.
  - intros [(?&_)|[(_&_&?&cc'&r&E&?&?)|[? _]]]%video_init_inv; [lia| |congruence].
    apply app_inj_1 in E as [-> ->]; [done|unfold zlen in *; lia].
  - intros [? ?]. by constructor.
Qed.

Lemma ex_key_iff b0 cc rest : 128 ≤ b0 →
  is_multitrack_container Video (b0 :: cc ++ rest) = false → zlen cc = 4 →
  video_key (b0 :: cc ++ rest) ↔ frame_nibble b0 = 1 ∧ (b0 .& 15 = 1 ∨ b0 .& 15 = 3)
    ∧ (timed (b0 .& 15) cc = true → 3 ≤ zlen rest).
Proof.
  intros Hge Hm Hc. split.
  - intros [(?&_)|[(_&?&?&cc'&r&E&?&?)|[? _]]]%video_key_inv; [lia| |congruence].
    apply app_inj_1 in E as [-> ->]; [done|unfold zlen in *; lia].
  - intros (?&?&?). by constructor.
Qed.

Lemma classify_ex_exact b0 l : bytes_ok (b0 :: l) → 128 ≤ b0 →
  frame_nibble b0 ≠ VIDEO_FRAME_TYPE_COMMAND → is_multitrack_container Video (b0 :: l) = false →
  decides (classify_video (b0 :: l)) (video_init (b0 :: l)) (video_key (b0 :: l)).
Proof.
  intros Ho Hge Hn Hm. inversion Ho as [|?? Hb Hl]; subst. destruct (tag_kind b0 l Hb) as [Ec _].
  unfold classify_video. rewrite Ec, Hm, (proj2 (Z.eqb_neq _ _) Hn), andb_false_r.
  assert (zlen l < 4 → ¬ video_init (b0 :: l) ∧ ¬ video_key (b0 :: l)) as Hshort.
  { intros H4. split.
    - intros [(?&_)|[(_&_&_&cc&r&->&?&_)|[? _]]]%video_init_inv; [lia|zlia|congruence].
    - intros [(?&_)|[(_&_&_&cc&r&->&?&_)|[? _]]]%video_key_inv; [lia|zlia|congruence]. }
  destruct (decide (zlen l < 4)) as [H4|H4].
  { rewrite parse_video_short, Ok_bind by (done || by apply not_command). apply decides_live; by apply Hshort. }
  clear Hshort. destruct (zlen_split l 4) as (cc&rest&->&Hc); [lia|]. apply Forall_app in Hl as [Hcc Hr].
  pose proof (ex_init_iff b0 cc rest Hge Hn Hm Hc) as Hi. pose proof (ex_key_iff b0 cc rest Hge Hm Hc) as Hk.
  unfold parse_video. rewrite parse_tag; try done.
  2: { by apply not_command. }
  destruct (timed (b0 .& 15) cc) eqn:Et.
  - assert (b0 .& 15 = 1) as E1.
    { unfold timed in Et. apply andb_true_iff in Et as [Et _]. by apply Z.eqb_eq. }
    destruct rest as [|t0 [|t1 [|t2 rest]]]; rewrite Ok_bind;
      [apply decides_live; rewrite ?Hi, ?Hk; intros Hx; destruct_and! Hx;
        try lia; repeat match goal with H : true = true → _ |- _ => specialize (H eq_refl) end; zlia..|].
    cbn [tag_header v_is_ex_header]. change (negb (1 =? 0)) with true. cbv iota.
    unfold classify_ex_video. cbn [tag_header v_packet_type v_frame_type]. rewrite E1.
    change (1 =? ERTMP_PACKET_TYPE_MODEX) with false. change (1 =? 0) with false. simpl orb.
    cbn [andb]. cbv iota. destruct (Z.eqb_spec (frame_nibble b0) 1) as [Ef|Ef]; simpl.
    + apply decides_kind; [done|rewrite Hi; naive_solver lia|]. rewrite Hk. split; [|done]. intros _.
      split_and!; [done|by left|]. intros _. zlia.
    + apply decides_live; rewrite ?Hi, ?Hk; naive_solver lia.
  - rewrite Ok_bind. cbn [tag_header v_is_ex_header]. change (negb (1 =? 0)) with true. cbv iota.
    unfold classify_ex_video. cbn [tag_header v_packet_type v_frame_type v_fourcc v_header_size].
    destruct (Z.eqb_spec (b0 .& 15) ERTMP_PACKET_TYPE_MODEX) as [Ep|Ep].
    { unfold ERTMP_PACKET_TYPE_MODEX in Ep. apply decides_live; rewrite ?Hi, ?Hk; lia. }
    destruct (Z.eqb_spec (b0 .& 15) 0) as [E0|E0].
    { rewrite from_fourcc_app by done. unfold get_from. rewrite (proj2 (Z.leb_le _ _)) by zlia.
      change (b0 :: cc ++ rest) with ((b0 :: cc) ++ rest). rewrite zdrop_app_len by zlia.
      apply decides_header; [done|rewrite Hk; lia|]. rewrite Hi. naive_solver. }
    destruct (((b0 .& 15 =? 1) || (b0 .& 15 =? 3)) && (frame_nibble b0 =? 1)) eqn:Ek.
    + rewrite andb_true_iff, orb_true_iff, !Z.eqb_eq in Ek.
      apply decides_kind; [done|rewrite Hi; naive_solver|]. rewrite Hk. naive_solver.
    + rewrite andb_false_iff, orb_false_iff, !Z.eqb_neq in Ek.
      apply decides_live; rewrite ?Hi, ?Hk; [naive_solver|]. lia.
Qed.

Lemma classify_legacy_exact b0 l : bytes_ok (b0 :: l) → b0 < 128 →
  decides (classify_legacy_video (b0 :: l)) (video_init (b0 :: l)) (video_key (b0 :: l)).
Proof.
  intros Ho Hlt. inversion Ho as [|?? Hb Hl]; subst. destruct (tag_kind b0 l Hb) as [_ Em].
  rewrite (proj2 (Z.leb_gt 128 b0)) in Em by lia. cbn [andb] in Em.
  assert (video_key (b0 :: l) ↔ (b0 >> 4) .& 15 = 1 ∧ (b0 .& 15 ≠ 7 ∨ ∃ r, l = 1 :: r)) as Hk.
  { split; [intros [(_&?)|[(?&_)|[? _]]]%video_key_inv; [done|lia|congruence]|]. intros [? ?]. by constructor. }
  assert (video_init (b0 :: l) ↔ b0 .& 15 = 7 ∧ ∃ ct record, l = 0 :: ct ++ record ∧ zlen ct = 3
    ∧ is_avc record) as Hi.
  { split; [intros [(_&?)|[(?&_)|[? _]]]%video_init_inv; [done|lia|congruence]|].
    intros (?&ct&r&->&?&?). by constructor. }
  unfold classify_legacy_video. change (zidx (b0 :: l) 0) with (Ok b0). rewrite Ok_bind. cbv zeta.
  assert (zget (b0 :: l) 1 = head l) as -> by (by destruct l).
  destruct ((b0 .& 15 =? 7) && bool_decide (head l = Some 0)) eqn:E7.
  - apply andb_true_iff in E7 as [E7%Z.eqb_eq Eh]. apply bool_decide_eq_true in Eh.
    destruct l as [|x l]; [done|]. injection Eh as ->. apply Forall_cons in Hl as [_ Hl].
    assert (¬ video_key (b0 :: 0 :: l)) as Hnk by (rewrite Hk; intros [_ [?|[? [=]]]]; lia).
    unfold get_from. destruct (Z.leb_spec 5 (zlen (b0 :: 0 :: l))) as [H5|H5].
    + destruct (zlen_split l 3) as (ct&r&->&Hc); [zlia|]. apply Forall_app in Hl as [_ Hr].
      change (b0 :: 0 :: ct ++ r) with ([b0; 0] ++ ct ++ r). rewrite app_assoc, zdrop_app_len.
      2: { rewrite zlen_app, Hc. done. }
      apply decides_header; [done|by rewrite <- app_assoc|]. rewrite <- app_assoc, Hi. split.
      * intros (_&ct'&r'&[= E]&?&?). apply app_inj_1 in E as [-> ->]; [done|unfold zlen in *; lia].
      * intros. split; [done|]. by exists ct, r.
    + apply decides_header; [constructor|done|]. rewrite Hi. split.
      * intros (_&ct'&r'&[= ->]&?&?). zlia.
      * intros (h&?&?&?&?&[=]&_).
  - assert (¬ video_init (b0 :: l)) as Hni.
    { rewrite Hi. intros (E&ct&r&->&_). by rewrite E in E7. }
    destruct (Z.eqb_spec ((b0 >> 4) .& 15) 1) as [E1|E1]; cbn [negb].
    2: { apply decides_live; [done|]. rewrite Hk. by intros []. }
    destruct (negb (b0 .& 15 =? 7) || bool_decide (head l = Some 1)) eqn:Ek.
    + apply decides_kind; [done|done|]. rewrite Hk. split; [|done]. intros _. split; [done|].
      apply orb_true_iff in Ek as [Ek|Ek]; [left; by apply negb_true_iff, Z.eqb_neq in Ek|right].
      apply bool_decide_eq_true in Ek. destruct l as [|x l]; [done|]. injection Ek as ->. by exists l.
    + apply orb_false_iff in Ek as [Ek1%negb_false_iff Ek2]. apply bool_decide_eq_false in Ek2.
      apply Z.eqb_eq in Ek1. apply decides_live; [done|]. rewrite Hk. by intros [_ [?|[r ->]]].
Qed.

Lemma classify_video_exact payload : bytes_ok payload →
  decides (classify_video payload) (video_init payload) (video_key payload).
Proof.
  intros Ho. destruct payload as [|b0 l].
  { apply decides_live; inversion 1 as [| |]. all: by destruct H0 as (c&[=]&_). }
  inversion Ho as [|?? Hb Hl]; subst. destruct (tag_kind b0 l Hb) as [Ec Em].
  destruct (decide (b0 < 128)) as [Hlt|Hge].
  - unfold classify_video. rewrite Ec, Em, (proj2 (Z.leb_gt 128 b0)) by lia. cbn [andb]. cbv iota.
    destruct (parse_video_legacy b0 l Ho Hlt) as (h&->&Eh). rewrite Ok_bind, Eh.
    by apply classify_legacy_exact.
  - rewrite (proj2 (Z.leb_le 128 b0)) in Ec, Em by lia. cbn [andb] in Ec, Em.
    destruct (Z.eqb_spec (frame_nibble b0) VIDEO_FRAME_TYPE_COMMAND) as [E5|E5].
    + unfold classify_video. rewrite Ec. unfold VIDEO_FRAME_TYPE_COMMAND in *. cbn [andb negb] in Em.
      apply decides_live.
      * intros [(?&_)|[(_&?&_)|[? _]]]%video_init_inv; [lia|done|congruence].
      * intros [(?&_)|[(_&?&_)|[_ [? _]]]]%video_key_inv; lia.
    + destruct (is_multitrack_container Video (b0 :: l)) eqn:Hm; [|apply classify_ex_exact; (done || lia)].
      unfold classify_video. rewrite Ec, Hm. by apply classify_multitrack_exact.
Qed.

(** ** Audio *)

Definition decides_audio (r : Res CacheFrameKind) (init : Prop) : Prop :=
  ∃ b : bool, r = Ok (if b then AudioSequenceHeader else LiveOnly) ∧ (b = true ↔ init).

Lemma decides_audio_live init : ¬ init → decides_audio (Ok LiveOnly) init.
Proof. intros H. by exists false. Qed.

Lemma decides_audio_valid r b init : r = Ok b → (b = true ↔ init) →
  decides_audio (ok ← r; Ok (if ok : bool then AudioSequenceHeader else LiveOnly)) init.
Proof. intros -> H. exists b. by rewrite Ok_bind. Qed.

Lemma parse_audio_ex b0 cc rest : is_u8 b0 → (b0 >> 4) .& 15 = 9 → zlen cc = 4 →
  ∃ c, parse_audio (b0 :: cc ++ rest) = Ok (Some (mkAudioHeader 1 (b0 .& 15) (cc ++ [0]) c 0 0 0 0 5)).
Proof.
  intros Hb Hn Hc. pose proof (byte_forall (λ b, negb ((b >> 4) .& 15 =? 9)
    || (144 .| (b .& 15) .& 15 =? b)) eq_refl b0 Hb) as E. cbv beta in E.
  rewrite Hn in E. simpl in E. apply Z.eqb_eq in E. eexists. unfold parse_audio. rewrite <- E at 1.
  rewrite parse_enhanced by (done || (rewrite land_15; divlia)). reflexivity.
Qed.

Lemma parse_audio_short b0 l : (b0 >> 4) .& 15 = 9 → zlen l < 4 → parse_audio (b0 :: l) = Ok None.
Proof.
  intros Hn Hl. unfold parse_audio, exaudio_parse, put_st, guard_st, lift, mbind, ST_bind.
  rewrite (proj2 (Z.eqb_neq (zlen (b0 :: l)) 0)) by zlia. change (zidx (b0 :: l) 0) with (Ok b0).
  cbv beta iota zeta. rewrite Hn. change (9 =? 9) with true.
  by rewrite (proj2 (Z.ltb_lt (zlen (b0 :: l)) 5)) by zlia.
Qed.

Lemma parse_audio_legacy b0 l : (b0 >> 4) .& 15 ≠ 9 →
  match legacy_codec ((b0 >> 4) .& 15) with
  | Ok c => ∃ h, parse_audio (b0 :: l) = Ok (Some h) ∧ a_is_ex_header h = 0 ∧ a_audio_codec h = c
      ∧ (c = Aac → l ≠ [] → head l = Some (a_aac_packet_type h))
  | _ => parse_audio (b0 :: l) = Ok None
  end.
Proof.
  intros Hn. unfold parse_audio, exaudio_parse, put_st, guard_st, lift, mbind, ST_bind.
  rewrite (proj2 (Z.eqb_neq (zlen (b0 :: l)) 0)) by zlia. change (zidx (b0 :: l) 0) with (Ok b0).
  cbv beta iota zeta. rewrite (proj2 (Z.eqb_neq _ 9) Hn). cbn [andb negb]. cbv iota.
  destruct (legacy_codec _) as [c|e|] eqn:E; [|done|by unfold legacy_codec in E; repeat case_match].
  case_bool_decide as Ha; cbn [andb].
  - destruct l as [|x l]; [by eexists|]. rewrite (proj2 (Z.leb_le 2 _)) by zlia. by eexists.
  - by eexists.
Qed.

Lemma audio_init_inv b0 l : audio_init (b0 :: l) →
  ((b0 >> 4) .& 15 = 10 ∧ ∃ record, l = 0 :: record ∧ is_aac record)
  ∨ ((b0 >> 4) .& 15 = 9 ∧ b0 .& 15 = 0 ∧ ∃ cc record, l = cc ++ record ∧ zlen cc = 4
     ∧ config_ok Audio cc record)
  ∨ (is_multitrack_container Audio (b0 :: l) = true ∧ multitrack_init Audio (b0 :: l)).
Proof.
  inversion 1; subst; [left|right; left|right; right]; [by eauto|by eauto 10|].
  eauto using multitrack_init_head.
Qed.

Lemma audio_container b0 l : is_multitrack_container Audio (b0 :: l) = true →
  (b0 >> 4) .& 15 = 9 ∧ b0 .& 15 = 5.
Proof.
  simpl. destruct (_ =? 0); [done|]. rewrite andb_true_iff, !Z.eqb_eq. done.
Qed.

Lemma legacy_aac n : legacy_codec n = Ok Aac ↔ n = 10.
Proof. split; [|by intros ->]. unfold legacy_codec. repeat case_match; congruence. Qed.

(** The single-track paths. *)
Lemma classify_audio_ex b0 l : bytes_ok (b0 :: l) → ¬ multitrack_init Audio (b0 :: l) →
  (b0 >> 4) .& 15 = 9 → decides_audio (classify_audio_single (b0 :: l)) (audio_init (b0 :: l)).
Proof.
  intros Ho Hm H9. inversion Ho as [|?? Hb Hl]; subst. unfold classify_audio_single.
  destruct (decide (zlen l < 4)) as [H4|H4].
  { rewrite parse_audio_short by done. apply decides_audio_live.
    intros [(?&_)|[(_&_&cc&r&->&?&_)|[_ ?]]]%audio_init_inv; [lia|zlia|done]. }
  destruct (zlen_split l 4) as (cc&r&->&Hc); [lia|]. apply Forall_app in Hl as [_ Hr].
  destruct (parse_audio_ex b0 cc r Hb H9 Hc) as [c ->]. rewrite Ok_bind.
  cbn [a_is_ex_header a_packet_type a_fourcc a_header_size]. change (negb (1 =? 0)) with true. cbv iota.
  assert (audio_init (b0 :: cc ++ r) ↔ b0 .& 15 = 0 ∧ config_ok Audio cc r) as Hi.
  { split; [|intros []; by constructor].
    intros [(?&_)|[(_&?&cc'&r'&E&?&?)|[_ ?]]]%audio_init_inv; [lia| |done].
    apply app_inj_1 in E as [-> ->]; [done|unfold zlen in *; lia]. }
  destruct (Z.eqb_spec (b0 .& 15) ERTMP_PACKET_TYPE_MODEX) as [Ep|Ep].
  { apply decides_audio_live. rewrite Hi. unfold ERTMP_PACKET_TYPE_MODEX in Ep. lia. }
  destruct (Z.eqb_spec (b0 .& 15) 0) as [E0|E0]; [|apply decides_audio_live; rewrite Hi; tauto].
  unfold get_from. rewrite (proj2 (Z.leb_le _ _)) by zlia.
  change (b0 :: cc ++ r) with ((b0 :: cc) ++ r) at 1. rewrite zdrop_app_len by zlia.
  destruct (config_valid_iff Audio cc [0] r Hc Hr) as (b&E&Hv).
  eapply decides_audio_valid; [done|]. rewrite Hi, Hv. tauto.
Qed.

Lemma classify_audio_legacy b0 l : ¬ multitrack_init Audio (b0 :: l) →
  (b0 >> 4) .& 15 ≠ 9 → decides_audio (classify_audio_single (b0 :: l)) (audio_init (b0 :: l)).
Proof.
  intros Hm H9. unfold classify_audio_single.
  assert (audio_init (b0 :: l) ↔ (b0 >> 4) .& 15 = 10 ∧ ∃ record, l = 0 :: record ∧ is_aac record) as Hi.
  { split; [intros [?|[(?&_)|[_ ?]]]%audio_init_inv; done|]. intros (?&r&->&?). by constructor. }
  pose proof (parse_audio_legacy b0 l H9) as Hp.
  destruct (legacy_codec ((b0 >> 4) .& 15)) as [c|e|] eqn:Ec.
  2,3: rewrite Hp; apply decides_audio_live; rewrite Hi; intros [E _]; rewrite E in Ec; done.
  destruct Hp as (h&->&E0&Eh&Ep). rewrite Ok_bind, E0, Eh. change (negb (0 =? 0)) with false. cbv iota.
  case_bool_decide as Ha; cbn [andb].
  2: { apply decides_audio_live. rewrite Hi. intros [E _]. rewrite E in Ec. by injection Ec. }
  rewrite Ha in Ec. apply legacy_aac in Ec. destruct l as [|x l].
  { rewrite andb_false_r. apply decides_audio_live. rewrite Hi. by intros (_&?&[=]&_). }
  specialize (Ep Ha ltac:(done)). injection Ep as ->.
  rewrite (proj2 (Z.leb_le 2 _)), andb_true_r by zlia.
  destruct (Z.eqb_spec (a_aac_packet_type h) 0) as [Ez|Hx].
  2: { apply decides_audio_live. rewrite Hi. by intros (_&?&[= ? ?]&_). }
  rewrite Ez in Hi |- *. rewrite slice_suffix, Ok_bind by zlia. change (zdrop 2 (b0 :: 0 :: l)) with l.
  destruct (aac_iff l) as (b&E&Hv). eapply decides_audio_valid; [done|]. rewrite Hi, Hv.
  split; [intros; split; [done|by exists l]|by intros (_&?&[= ->]&?)].
Qed.

Lemma classify_audio_exact payload : bytes_ok payload →
  decides_audio (classify_audio payload) (audio_init payload).
Proof.
  intros Ho. destruct payload as [|b0 l].
  { apply decides_audio_live. intros H. inversion H as [| |? Hm]. by destruct Hm as (c&[=]&_). }
  assert (¬ multitrack_init Audio (b0 :: l) →
    decides_audio (classify_audio_single (b0 :: l)) (audio_init (b0 :: l))) as Hs.
  { intros Hm. destruct (decide ((b0 >> 4) .& 15 = 9)); [by apply classify_audio_ex|by apply classify_audio_legacy]. }
  unfold classify_audio. destruct (is_multitrack_container Audio (b0 :: l)) eqn:Hm.
  2: { rewrite Ok_bind. apply Hs. intros H%multitrack_init_head. congruence. }
  destruct (multitrack_starts Audio (b0 :: l) Ho) as [(b&->&Ev&Hv)|[-> Hv]]; rewrite Ok_bind; [|by apply Hs].
  eapply decides_audio_valid; [done|]. rewrite Hv. split; [by constructor|].
  destruct (audio_container b0 l Hm). intros [(?&_)|[(_&?&_)|[_ ?]]]%audio_init_inv; [lia|lia|done].
Qed.

(** C24. What the init cache stores is exactly what a late joiner can use. For
    every payload [classify_cache_frame] returns without a panic; it answers
    [VideoSequenceHeader] or [AudioSequenceHeader] exactly for a legacy, an
    enhanced or a multitrack sequence start whose configuration records are all
    well formed, and [VideoKeyframe] exactly for a coded key frame. Commands,
    unpeeled ModEx packets and scripts are live only. *)
Theorem classify_cache_exact ft payload : bytes_ok payload →
  ∃ k, classify_cache_frame ft payload = Ok k
  ∧ (k = VideoSequenceHeader ↔ ft = Video ∧ video_init payload)
  ∧ (k = VideoKeyframe ↔ ft = Video ∧ video_key payload)
  ∧ (k = AudioSequenceHeader ↔ ft = Audio ∧ audio_init payload).
Proof.
  intros Ho. destruct ft; simpl.
  - destruct (classify_audio_exact payload Ho) as (b&->&Hb). eexists. split; [done|].
    destruct b; naive_solver.
  - destruct (classify_video_exact payload Ho) as (k&->&H1&H2&H3). exists k. naive_solver.
  - exists LiveOnly. naive_solver.
  - exists LiveOnly. naive_solver.
Qed.

Lemma classify_cache_exact_witness : video_init ([144] ++ text "av01" ++ [129])
  ∧ ¬ video_init ([144] ++ text "avc1" ++ [129]).
Proof.
  split.
  - destruct (classify_cache_exact Video ([144] ++ text "av01" ++ [129])) as (k&E&H&_); [bytes_lit|].
    vm_compute in E. injection E as <-. apply H. reflexivity.
  - destruct (classify_cache_exact Video ([144] ++ text "avc1" ++ [129])) as (k&E&H&_); [bytes_lit|].
    vm_compute in E. injection E as <-. intros Hv. by discriminate (proj2 H (conj eq_refl Hv)).
Defined.
End InitCache.
