(* ===== verification/ColorInfo.v ===== *)
(** The AMF0 payloads src/media/init_cache.rs looks into: the HDR colour
    information of a video metadata packet ([parse_video_metadata_hdr]) and the
    onMetaData script event ([is_on_metadata_payload]). *)
From S2P Require Import Prelude Bytes Types F64 Buffer Source Amf0 Ertmp InitCache.
#[local] Set Warnings "-clear-no-such-hyp".

Module ColorInfo.
Import Amf0.

Definition reset_hdr_info : HdrInfo := Descriptors.hdr_init (mkHdr 0 0 0).

Definition is_color_field (key : bytes) : bool :=
  bool_decide (key = text "colorPrimaries") || bool_decide (key = text "transferCharacteristics")
  || bool_decide (key = text "matrixCoefficients").

Definition set_color_field (key : bytes) (n : Z) (hdr : HdrInfo) : HdrInfo :=
  if decide (key = text "colorPrimaries") then mkHdr n (transfer_chars hdr) (matrix_coeffs hdr)
  else if decide (key = text "transferCharacteristics") then mkHdr (color_primaries hdr) n (matrix_coeffs hdr)
  else mkHdr (color_primaries hdr) (transfer_chars hdr) n.

(** [value.is_finite() && (0.0..=u16::MAX as f64).contains(&value)]. *)
Definition in_u16_range (value : Z) : bool :=
  F64.is_finite value && (F64.ge_int value 0 && F64.le_int value 65535).

Definition is_nested_key (key : bytes) : bool :=
  bool_decide (key = text "colorConfig") || bool_decide (key = text "colorInfo").

Section scan.
Context {S : Type} `{Source S}.

(** The loop over the keys. [nested] is the recursive call, when there is depth
    left. It leaves after at most [MAX_OBJECT_KEYS + 1] turns. *)
Fixpoint scan_keys (fuel : nat) (nested : option (ST S (option HdrInfo)))
    (hdr : HdrInfo) (found_direct : bool) (nested_result : option HdrInfo) (keys : Z)
    : ST S (option HdrInfo) :=
  match fuel with
  | O => lift Panic
  | Datatypes.S fuel =>
      fin ← is_object_end;
      if fin : bool then
        _ ←? src_read 3; mret (if found_direct then Some hdr else nested_result)
      else if MAX_OBJECT_KEYS <? keys + 1 then mret None
      else
        '(key, key_len) ←? read_object_key (zrepeat 0 64);
        key_str ← lift (str_prefix key key_len);
        ty ←? read_type;
        reset ← (if decide (key_str = text "colorInfo") then
                   if decide (ty = Undefined) then mret true
                   else if decide (ty = Object) then is_object_end else mret false
                 else mret false);
        if reset : bool then mret (Some reset_hdr_info)
        else if bool_decide (ty = Number) && is_color_field key_str then
          value ←? read_number;
          if negb (in_u16_range value) then mret None
          else scan_keys fuel nested (set_color_field key_str (F64.as_uint 65535 value) hdr) true
                 nested_result (keys + 1)
        else
          match nested with
          | Some scan =>
              if bool_decide (ty = Object) && is_nested_key key_str then
                inner ← scan;
                scan_keys fuel nested hdr found_direct
                  (match inner with Some _ => inner | None => nested_result end) (keys + 1)
              else
                _ ←? skip_value_after_type ty;
                scan_keys fuel nested hdr found_direct nested_result (keys + 1)
          | None =>
              _ ←? skip_value_after_type ty;
              scan_keys fuel nested hdr found_direct nested_result (keys + 1)
          end
  end.

Fixpoint scan_object_for_color_info (depth_remaining : nat) : ST S (option HdrInfo) :=
  scan_keys entries_fuel
    (match depth_remaining with O => None | Datatypes.S d => Some (scan_object_for_color_info d) end)
    (Descriptors.hdr_init (mkHdr 0 0 0)) false None 0.

Definition color_info : ST S (option HdrInfo) :=
  ty ←? read_type;
  if decide (ty = String) then
    len_bytes ←? src_read 2;
    l0 ← lift (zidx len_bytes 0); l1 ← lift (zidx len_bytes 1);
    if negb (u16_be l0 l1 =? 9) then mret None
    else
      name ←? src_read 9;
      if decide (name ≠ text "colorInfo") then mret None
      else
        value_ty ←? read_type;
        if decide (value_ty = Undefined) then mret (Some reset_hdr_info)
        else if decide (value_ty ≠ Object) then mret None
        else
          fin ← is_object_end;
          if fin : bool then mret (Some reset_hdr_info) else scan_object_for_color_info 2
  else if decide (ty ≠ Object) then mret None
  else scan_object_for_color_info 2.

(** [read_data_event_name], on a fresh array. *)
Definition read_data_event_name (is_string : bool) : ST S (option (bytes * Z)) :=
  '(out, n) ←? (if is_string then read_string (zrepeat 0 64) else read_long_string (zrepeat 0 64));
  mret (Some (out, n)).

(** The peek at the type, the read of the name and its conversion. *)
Definition event_name : ST S (option bytes) :=
  d ← peek_st;
  match d with
  | [] => mret None
  | first_byte :: _ =>
      if negb (first_byte =? marker String) && negb (first_byte =? marker LongString) then mret None
      else
        r ← read_data_event_name (first_byte =? marker String);
        match r with
        | None => mret None
        | Some (name, n) => name_str ← lift (str_prefix name n); mret (Some name_str)
        end
  end.

Definition on_metadata : ST S bool :=
  name ← event_name;
  match name with
  | None => mret false
  | Some name_str =>
      if decide (name_str = text "@setDataFrame") then
        inner ← event_name;
        mret (match inner with None => false | Some s => bool_decide (s = text "onMetaData") end)
      else mret (bool_decide (name_str = text "onMetaData"))
  end.
End scan.

Definition parse_color_info_amf (data : bytes) : Res (option HdrInfo) :=
  fst (color_info (Buffer.from_slice data)).

Definition parse_video_metadata_hdr (payload : bytes) : Res (option HdrInfo) :=
  h ← InitCache.parse_video payload;
  match h with
  | None => Ok None
  | Some hdr =>
      if (v_is_ex_header hdr =? 0) || negb (v_packet_type hdr =? ERTMP_PACKET_TYPE_METADATA) then Ok None
      else d ← slice payload (v_header_size hdr) (zlen payload); parse_color_info_amf d
  end.

Definition is_on_metadata_payload (payload : bytes) : Res bool :=
  fst (on_metadata (Buffer.from_slice payload)).

(** * On a buffer as on its bytes *)

#[local] Abbreviation any := (λ _, True).

Definition sim_nested (m : option (ST Buffer (option HdrInfo))) (p : option (ST bytes (option HdrInfo))) : Prop :=
  match m, p with Some m, Some p => sim any m p | None, None => True | _, _ => False end.

Lemma sim_scan_keys fuel m p hdr found nr keys : sim_nested m p →
  MAX_OBJECT_KEYS - keys < Z.of_nat fuel → 0 ≤ keys ≤ MAX_OBJECT_KEYS →
  sim any (scan_keys fuel m hdr found nr keys) (scan_keys fuel p hdr found nr keys).
Proof.
  intros Hn. revert hdr found nr keys. induction fuel as [|fuel IH]; intros hdr found nr keys Hf Hk; [lia|].
  cbn [scan_keys]. eapply sim_bind; [apply sim_is_object_end|]. intros [] _.
  { eapply sim_ok_or_none; [done|apply sim_read; lia|]. intros. by apply sim_ret. }
  destruct (Z.ltb_spec MAX_OBJECT_KEYS (keys + 1)); [by apply sim_ret|].
  eapply sim_ok_or_none; [done|apply sim_read_object_key, zeros_ok|]. intros [key n] Hfill.
  eapply sim_bind; [eapply (sim_str_prefix _ (key, n)), Hfill|]. intros key_str _.
  eapply sim_ok_or_none; [done|apply sim_read_type|]. intros ty _.
  eapply (sim_bind any). { repeat case_decide; try (by apply sim_ret). apply sim_is_object_end. }
  intros [] _; [by apply sim_ret|]. assert (∀ hdr found nr,
    sim any (scan_keys fuel m hdr found nr (keys + 1)) (scan_keys fuel p hdr found nr (keys + 1))) as IH'
    by (intros; apply IH; lia).
  destruct (bool_decide (ty = Number) && _).
  { eapply sim_ok_or_none; [done|apply sim_read_double|]. intros v _. destruct (negb _); [by apply sim_ret|auto]. }
  assert (∀ hdr found nr, sim any (_ ←? skip_value_after_type ty; scan_keys fuel m hdr found nr (keys + 1))
    (_ ←? skip_value_after_type ty; scan_keys fuel p hdr found nr (keys + 1))) as Hskip.
  { intros. eapply sim_ok_or_none; [done|by apply sim_skip_depth|]. auto. }
  destruct m as [m|], p as [p|]; [|done|done|apply Hskip]. destruct (bool_decide _ && _); [|apply Hskip].
  eapply sim_bind; [exact Hn|]. auto.
Qed.

Lemma sim_scan_object d : sim any (scan_object_for_color_info d) (scan_object_for_color_info d).
Proof.
  induction d as [|d IH]; cbn [scan_object_for_color_info]; by apply sim_scan_keys.
Qed.

Lemma sim_color_info : sim any color_info color_info.
Proof.
  eapply sim_ok_or_none; [done|apply sim_read_type|]. intros ty _. case_decide.
  - eapply sim_ok_or_none; [done|apply sim_read; lia|]. intros d [Hd Ho].
    do 2 (eapply sim_bind; [apply sim_zidx; [done|lia]|]; intros ? _).
    destruct (negb _); [by apply sim_ret|].
    eapply sim_ok_or_none; [done|apply sim_read; lia|]. intros name _. case_decide; [by apply sim_ret|].
    eapply sim_ok_or_none; [done|apply sim_read_type|]. intros vt _.
    case_decide; [by apply sim_ret|]. case_decide; [by apply sim_ret|].
    eapply sim_bind; [apply sim_is_object_end|]. intros [] _; [by apply sim_ret|]. apply sim_scan_object.
  - case_decide; [by apply sim_ret|]. apply sim_scan_object.
Qed.

Lemma sim_event_name : sim any event_name event_name.
Proof.
  eapply sim_bind; [apply sim_peek|]. intros [|b d] _; [by apply sim_ret|].
  destruct (_ && _); [by apply sim_ret|].
  eapply (sim_bind (λ r, match r with None => True | Some r => filled 64 r end)).
  - eapply (sim_ok_or_none (filled 64)); [done| |].
    + destruct (_ =? _); [apply (sim_read_string (zrepeat 0 64))|apply (sim_read_long_string (zrepeat 0 64))];
        apply zeros_ok.
    + intros [out n] H. by apply sim_ret.
  - intros [[out n]|] Hr; [|by apply sim_ret]. eapply sim_bind; [apply (sim_str_prefix 64 (out, n)), Hr|].
    intros ? _. by apply sim_ret.
Qed.

Lemma sim_on_metadata : sim any on_metadata on_metadata.
Proof.
  eapply sim_bind; [apply sim_event_name|]. intros [n|] _; [|by apply sim_ret]. case_decide; [|by apply sim_ret].
  eapply sim_bind; [apply sim_event_name|]. intros ? _. by apply sim_ret.
Qed.

(** * The colour information of an AMF0 object *)

#[local] Arguments tree_ok : simpl never.

Definition is_reset (k : bytes) (t : tree) : Prop :=
  k = text "colorInfo" ∧ match t with TUndefined => True | TObject es => es = [] | _ => False end.

#[global] Instance is_reset_dec k t : Decision (is_reset k t).
Proof. unfold is_reset. destruct t as [| | | | | |es|]; apply _. Defined.

Definition hdr_default : HdrInfo := Descriptors.hdr_init (mkHdr 0 0 0).

(** The fields of the object itself win over those of a nested [colorConfig] or
    [colorInfo], of which the last one with a result counts; a reset entry or a
    field out of range ends the search. *)
Fixpoint color_of (depth : nat) (es : list (bytes * tree)) (hdr : HdrInfo) (found : bool)
    (nested : option HdrInfo) {struct depth} : option HdrInfo :=
  (fix go es hdr found nested :=
     match es with
     | [] => if found : bool then Some hdr else nested
     | (k, t) :: es =>
         if decide (is_reset k t) then Some reset_hdr_info
         else match t with
              | TNumber v =>
                  if is_color_field k then
                    if in_u16_range v then go es (set_color_field k (F64.as_uint 65535 v) hdr) true nested
                    else None
                  else go es hdr found nested
              | TObject es' =>
                  match depth with
                  | O => go es hdr found nested
                  | Datatypes.S d =>
                      if is_nested_key k then
                        go es hdr found (match color_of d es' hdr_default false None with
                                         | Some i => Some i | None => nested end)
                      else go es hdr found nested
                  end
              | _ => go es hdr found nested
              end
     end) es hdr found nested.

Definition key_ok (k : bytes) : Prop := zlen k < 64 ∧ utf8_valid k = true.

(** A nested object that is read to its end. *)
Fixpoint scanned (depth : nat) (es : list (bytes * tree)) : Prop :=
  Forall (λ '(k, t), key_ok k ∧ ¬ is_reset k t ∧
    match t with
    | TNumber v => is_color_field k = true → in_u16_range v = true
    | TObject es' => match depth with
                     | O => True
                     | Datatypes.S d => is_nested_key k = true → scanned d es'
                     end
    | _ => True
    end) es.

Definition nested_scanned (depth : nat) (es : list (bytes * tree)) : Prop :=
  Forall (λ '(k, t),
    match t, depth with
    | TObject es', Datatypes.S d => is_nested_key k = true → scanned d es'
    | _, _ => True
    end) es.

Definition entry_ok (e : bytes * tree) : Prop :=
  zlen (fst e) ≤ 65535 ∧ bytes_ok (fst e) ∧ tree_ok 32 (snd e).

Lemma scanned_nested d es : scanned d es → nested_scanned d es.
Proof.
  unfold nested_scanned. destruct d; cbn [scanned]; intros H;
    (eapply Forall_impl; [exact H|]); intros [k []] (_&_&?); done.
Qed.

Lemma not_end_entry k t es l : entry_ok (k, t) →
  is_object_end ((to_be_bytes16 (zlen k) ++ k ++ enc t ++ enc_entries enc es) ++ l)
  = (Ok false, (to_be_bytes16 (zlen k) ++ k ++ enc t ++ enc_entries enc es) ++ l).
Proof.
  intros (Hk&_&Ht). cbn [fst snd] in *. rewrite <- !app_assoc.
  destruct (is_object_end_spec (to_be_bytes16 (zlen k) ++ k ++ enc t ++ enc_entries enc es ++ l)) as (b&E&Hb).
  rewrite E. destruct b; [|done]. exfalso. eapply (entry_not_end k (enc t)); [lia| |by apply Hb].
  exists 32%nat. by apply enc_grammar.
Qed.

Lemma object_members n es : tree_ok (Datatypes.S n) (TObject es) → zlen es ≤ MAX_OBJECT_KEYS
  ∧ Forall (λ e, zlen (fst e) ≤ 65535 ∧ bytes_ok (fst e) ∧ tree_ok (Datatypes.S n) (snd e)) es.
Proof.
  intros [[Hz He] _]. split; [done|]. eapply Forall_impl; [exact He|].
  intros [k t] (H1&H2&H3). split; [exact H1|]. split; [exact H2|]. by apply tree_ok_S.
Qed.

Lemma object_entries es : tree_ok 32 (TObject es) → zlen es ≤ MAX_OBJECT_KEYS ∧ Forall entry_ok es.
Proof. apply object_members. Qed.

(** The test for a reset. *)
Lemma reset_read k t l : tree_ok 32 t →
  (if decide (k = text "colorInfo") then
     if decide (tree_type t = Undefined) then mret true
     else if decide (tree_type t = Object) then is_object_end else mret false
   else mret false) (tail (enc t) ++ l)
  = (Ok (bool_decide (is_reset k t)), tail (enc t) ++ l).
Proof.
  intros Hok. destruct (decide (k = text "colorInfo")) as [Ek|Ek].
  2: { rewrite bool_decide_false; [done|]. by intros [? _]. }
  destruct t as [| | | | | |es|]; try (rewrite bool_decide_false; [done|by intros [_ ?]]).
  - rewrite bool_decide_true; [done|]. by split.
  - rewrite decide_False, decide_True by done. destruct es as [|[k' t'] es].
    + rewrite bool_decide_true by done. destruct (is_object_end_spec ([0; 0; 9] ++ l)) as (b&E&Hb).
      cbn [enc enc_entries tail]. rewrite E. by rewrite (proj2 Hb) by (by exists l).
    + rewrite bool_decide_false by (by intros [_ ?]). destruct (object_entries _ Hok) as [_ Hes].
      apply Forall_cons in Hes as [He _]. exact (not_end_entry k' t' es l He).
Qed.

(** One turn of the loop, after the key and the type were read. *)
Lemma scan_turn fuel nested hdr found nr keys k t es l : entry_ok (k, t) → key_ok k →
  keys + 1 ≤ MAX_OBJECT_KEYS →
  scan_keys (Datatypes.S fuel) nested hdr found nr keys (enc_entries enc ((k, t) :: es) ++ l) =
  (if bool_decide (is_reset k t) then mret (Some reset_hdr_info)
   else if bool_decide (tree_type t = Number) && is_color_field k then
     value ←? read_number;
     if negb (in_u16_range value) then mret None
     else scan_keys fuel nested (set_color_field k (F64.as_uint 65535 value) hdr) true nr (keys + 1)
   else
     match nested with
     | Some scan =>
         if bool_decide (tree_type t = Object) && is_nested_key k then
           inner ← scan;
           scan_keys fuel nested hdr found (match inner with Some _ => inner | None => nr end) (keys + 1)
         else
           _ ←? skip_value_after_type (tree_type t);
           scan_keys fuel nested hdr found nr (keys + 1)
     | None =>
         _ ←? skip_value_after_type (tree_type t);
         scan_keys fuel nested hdr found nr (keys + 1)
     end) (tail (enc t) ++ enc_entries enc es ++ l).
Proof.
  intros He [Hk Hu] Hle. pose proof He as (Hk2&_&Ht). cbn [fst snd] in *.
  change (enc_entries enc ((k, t) :: es))
    with (to_be_bytes16 (zlen k) ++ k ++ enc t ++ enc_entries enc es). cbn [scan_keys].
  rewrite (bind_ok _ _ _ _ _ (not_end_entry k t es l He)).
  rewrite (proj2 (Z.ltb_ge _ _)) by lia. rewrite <- !app_assoc.
  destruct (read_object_key_app (zrepeat 0 64) k (enc t ++ enc_entries enc es ++ l)) as (out&Eo&Es);
    [done|done|].
  rewrite (ok_or_none_ok _ _ _ _ _ Eo). unfold str_prefix. rewrite Es, Ok_bind, lift_ok, Hu.
  rewrite (ok_or_none_ok _ _ _ _ _ (read_tree_type t _)).
  rewrite (bind_ok _ _ _ _ _ (reset_read k t (enc_entries enc es ++ l) Ht)). done.
Qed.

Lemma color_of_nil d hdr found nr : color_of d [] hdr found nr = if found then Some hdr else nr.
Proof. by destruct d. Qed.

Lemma color_of_cons d k t es hdr found nr : color_of d ((k, t) :: es) hdr found nr =
  if decide (is_reset k t) then Some reset_hdr_info
  else match t with
       | TNumber v =>
           if is_color_field k then
             if in_u16_range v then color_of d es (set_color_field k (F64.as_uint 65535 v) hdr) true nr
             else None
           else color_of d es hdr found nr
       | TObject es' =>
           match d with
           | O => color_of d es hdr found nr
           | Datatypes.S d' =>
               if is_nested_key k then
                 color_of d es hdr found (match color_of d' es' hdr_default false None with
                                          | Some i => Some i | None => nr end)
               else color_of d es hdr found nr
           end
       | _ => color_of d es hdr found nr
       end.
Proof. by destruct d. Qed.

Definition nested_call (d : nat) : option (ST bytes (option HdrInfo)) :=
  match d with O => None | Datatypes.S d => Some (scan_object_for_color_info d) end.

Lemma scan_object_unfold d : scan_object_for_color_info d
  = scan_keys entries_fuel (nested_call d) hdr_default false None 0.
Proof. by destruct d. Qed.

Lemma scanned_cons d k t es : scanned d ((k, t) :: es) →
  key_ok k ∧ ¬ is_reset k t ∧ (∀ v, t = TNumber v → is_color_field k = true → in_u16_range v = true)
  ∧ (∀ es' d', t = TObject es' → d = Datatypes.S d' → is_nested_key k = true → scanned d' es') ∧ scanned d es.
Proof.
  destruct d; cbn [scanned]; intros ((?&?&H)&?)%Forall_cons; split_and!; try done;
    intros; simplify_eq; auto.
Qed.

Lemma scan_keys_tree d es hdr found nr keys fuel l :
  (∀ d' es' l, d = Datatypes.S d' → Forall entry_ok es' → zlen es' ≤ MAX_OBJECT_KEYS → scanned d' es' →
     scan_object_for_color_info d' (enc_entries enc es' ++ l) = (Ok (color_of d' es' hdr_default false None), l)) →
  Forall entry_ok es → Forall (λ e, key_ok (fst e)) es → nested_scanned d es → 0 ≤ keys →
  keys + zlen es ≤ MAX_OBJECT_KEYS → (length es < fuel)%nat →
  ∃ l', scan_keys fuel (nested_call d) hdr found nr keys (enc_entries enc es ++ l)
        = (Ok (color_of d es hdr found nr), l') ∧ (scanned d es → l' = l).
Proof.
  intros Hd Hok Hks Hn. revert hdr found nr keys fuel.
  induction es as [|[k t] es IH]; intros hdr found nr keys [|fuel] Hk Hm Hf; try (simpl in Hf; lia).
  - exists l. split; [|done]. cbn [scan_keys]. destruct (is_object_end_spec (enc_entries enc [] ++ l)) as (b&E&Hb).
    rewrite (bind_ok _ _ _ _ _ E). rewrite (proj2 Hb) by (by exists l).
    rewrite (ok_or_none_ok _ _ _ _ _ (src_read_app 3 [0; 0; 9] l eq_refl)). by rewrite color_of_nil.
  - apply Forall_cons in Hok as [He Hok]. apply Forall_cons in Hks as [Hkk Hks].
    apply Forall_cons in Hn as [Hn1 Hn]. rewrite zlen_cons in Hm. pose proof (zlen_nonneg es).
    simpl in Hf. cbn [fst] in Hkk. rewrite scan_turn by (done || lia). rewrite color_of_cons.
    specialize (IH Hok Hks Hn).
    destruct (decide (is_reset k t)) as [Hr|Hr].
    { rewrite bool_decide_true by done. eexists. split; [done|]. by intros (_&?&_)%scanned_cons. }
    rewrite bool_decide_false by done. pose proof He as (_&_&Ht). cbn [snd] in Ht.
    assert (∀ hdr found nr, ∃ l', (_ ←? skip_value_after_type (tree_type t);
        scan_keys fuel (nested_call d) hdr found nr (keys + 1)) (tail (enc t) ++ enc_entries enc es ++ l)
      = (Ok (color_of d es hdr found nr), l') ∧ (scanned d ((k, t) :: es) → l' = l)) as Hskip.
    { intros. rewrite (ok_or_none_ok _ _ _ _ _ (skip_tree_after_type t _ Ht)).
      destruct (IH hdr0 found0 nr0 (keys + 1) fuel) as (l'&E&Hl); [lia..|]. exists l'. split; [done|].
      intros (_&_&_&_&?)%scanned_cons. auto. }
    destruct t as [v| | | | | |es'|]; try (destruct (nested_call d); apply Hskip); cbn [tree_type].
    + rewrite bool_decide_true by done. destruct (is_color_field k) eqn:Ef.
      * cbn [andb]. cbv iota. change (tail (enc (TNumber v))) with (to_be_bytes64 v).
        rewrite (ok_or_none_ok _ _ _ _ _ (read_number_app v _ Ht)).
        destruct (in_u16_range v) eqn:Er; cbn [negb].
        -- destruct (IH (set_color_field k (F64.as_uint 65535 v) hdr) true nr (keys + 1) fuel)
             as (l'&E&Hl); [lia..|]. exists l'. split; [done|]. intros (_&_&_&_&?)%scanned_cons. auto.
        -- eexists. split; [done|]. intros (_&_&Hv&_)%scanned_cons. rewrite (Hv v eq_refl Ef) in Er. done.
      * destruct (nested_call d); apply Hskip.
    + rewrite bool_decide_false, bool_decide_true by done. cbn [andb]. cbv iota. destruct d as [|d]; [apply Hskip|].
      cbn [nested_call]. destruct (is_nested_key k) eqn:En; [|apply Hskip].
      destruct (object_entries es' Ht) as [Hz Hes]. specialize (Hn1 eq_refl).
      change (tail (enc (TObject es'))) with (enc_entries enc es').
      rewrite (bind_ok _ _ _ _ _ (Hd d es' _ eq_refl Hes Hz Hn1)).
      destruct (IH hdr found (match color_of d es' hdr_default false None with
        | Some i => Some i | None => nr end) (keys + 1) fuel) as (l'&E&Hl); [lia..|].
      exists l'. split; [|intros (_&_&_&_&?)%scanned_cons; auto].
      rewrite <- E. by destruct (color_of d es' hdr_default false None).
Qed.

Lemma scanned_keys d es : scanned d es → Forall (λ e, key_ok (fst e)) es.
Proof.
  destruct d; cbn [scanned]; intros H; (eapply Forall_impl; [exact H|]); by intros [k t] (?&_).
Qed.

Lemma scan_object_tree d es l : Forall entry_ok es → zlen es ≤ MAX_OBJECT_KEYS →
  Forall (λ e, key_ok (fst e)) es → nested_scanned d es →
  ∃ l', scan_object_for_color_info d (enc_entries enc es ++ l)
        = (Ok (color_of d es hdr_default false None), l') ∧ (scanned d es → l' = l).
Proof.
  revert es l. induction d as [|d IH]; intros es l Hok Hz Hk Hn; rewrite scan_object_unfold;
    (apply scan_keys_tree; [|done|done|done|lia|done|unfold entries_fuel, MAX_OBJECT_KEYS, zlen in *; lia]);
    intros d' es' l0 [= <-] Hok' Hz' Hs.
  destruct (IH es' l0 Hok' Hz' (scanned_keys _ _ Hs) (scanned_nested _ _ Hs)) as (l'&E&El).
  by rewrite E, El.
Qed.

(** The two wire forms of the metadata body. *)
Lemma color_info_object es l : tree_ok 32 (TObject es) → Forall (λ e, key_ok (fst e)) es →
  nested_scanned 2 es →
  fst (color_info (enc (TObject es) ++ l)) = Ok (color_of 2 es hdr_default false None)
  ∧ fst (color_info (enc (TString (text "colorInfo")) ++ enc (TObject es) ++ l))
    = Ok (if decide (es = []) then Some reset_hdr_info else color_of 2 es hdr_default false None).
Proof.
  intros Ht Hk Hn. destruct (object_entries es Ht) as [Hz Hok].
  destruct (scan_object_tree 2 es l Hok Hz Hk Hn) as (l'&E&_). unfold color_info. split.
  - rewrite (ok_or_none_ok _ _ _ _ _ (read_tree_type (TObject es) l)).
    rewrite decide_False, decide_False by auto. change (tail (enc (TObject es))) with (enc_entries enc es).
    by rewrite E.
  - rewrite (ok_or_none_ok _ _ _ _ _ (read_tree_type (TString (text "colorInfo")) _)).
    rewrite decide_True by done.
    rewrite (ok_or_none_ok _ _ _ _ _ (src_read_app 2 [0; 9] (text "colorInfo" ++ enc (TObject es) ++ l) eq_refl)).
    change (zidx [0; 9] 0) with (Ok 0). change (zidx [0; 9] 1) with (Ok 9). rewrite !lift_ok.
    change (negb (u16_be 0 9 =? 9)) with false. cbv iota.
    rewrite (ok_or_none_ok _ _ _ _ _ (src_read_app 9 (text "colorInfo") (enc (TObject es) ++ l) eq_refl)).
    rewrite decide_False by auto. rewrite (ok_or_none_ok _ _ _ _ _ (read_tree_type (TObject es) l)).
    rewrite decide_False, decide_False by auto. change (tail (enc (TObject es))) with (enc_entries enc es).
    destruct es as [|[k t] es].
    + destruct (is_object_end_spec (enc_entries enc [] ++ l)) as (b&Eb&Hb).
      rewrite (bind_ok _ _ _ _ _ Eb). by rewrite (proj2 Hb) by (by exists l).
    + apply Forall_cons in Hok as [He _]. rewrite (bind_ok _ _ _ _ _ (not_end_entry k t es l He)).
      rewrite decide_False by done. exact (f_equal fst E).
Qed.

(** A metadata tag in front of [body]. *)
Lemma metadata_tag b0 cc body : is_u8 b0 → 128 ≤ b0 → b0 .& 15 = ERTMP_PACKET_TYPE_METADATA → zlen cc = 4 →
  bytes_ok body → parse_video_metadata_hdr (b0 :: cc ++ body) = fst (color_info body).
Proof.
  intros Hb Hge Hp Hc Ho. unfold parse_video_metadata_hdr, InitCache.parse_video.
  rewrite ExVideo.parse_tag; try done. 2: { unfold ExVideo.is_command. rewrite Hp. by rewrite andb_false_r. }
  unfold ExVideo.timed. rewrite Hp. change (ERTMP_PACKET_TYPE_METADATA =? 1) with false. cbn [andb]. cbv iota.
  rewrite Ok_bind. cbn [ExVideo.tag_header v_is_ex_header v_packet_type v_header_size]. rewrite Hp.
  change ((1 =? 0) || negb (ERTMP_PACKET_TYPE_METADATA =? ERTMP_PACKET_TYPE_METADATA)) with false. cbv iota.
  rewrite slice_suffix, Ok_bind by zlia.
  change (b0 :: cc ++ body) with ((b0 :: cc) ++ body). rewrite zdrop_app_len by zlia.
  by apply (sim_from_slice any color_info color_info _ sim_color_info).
Qed.

(** C25. The HDR colour information of an enhanced video metadata packet is what
    its AMF0 object says, in both wire forms (with and without the leading
    name): the object's own fields, or else those of the last nested
    colorConfig or colorInfo object that has some, the defaults for a reset, and
    nothing if a field of its own is out of range. This is for an object within
    the decoder's limits of keys and depth, whose keys are UTF-8 of less than 64
    bytes, and whose nested colour objects are themselves read to their end: the
    same for their keys, no reset in them and no colour field out of range. (On
    one that is not, the scan of the outer object goes on inside it, see
    [nested_failure_resumes].) Parsing any payload whatever never panics. *)
Theorem color_info_parsed b0 cc es rest : is_u8 b0 → 128 ≤ b0 → b0 .& 15 = ERTMP_PACKET_TYPE_METADATA →
  zlen cc = 4 → tree_ok 32 (TObject es) → Forall (λ e, key_ok (fst e)) es → nested_scanned 2 es →
  bytes_ok rest →
  parse_video_metadata_hdr (b0 :: cc ++ enc (TObject es) ++ rest)
    = Ok (color_of 2 es hdr_default false None)
  ∧ parse_video_metadata_hdr (b0 :: cc ++ enc (TString (text "colorInfo")) ++ enc (TObject es) ++ rest)
    = Ok (if decide (es = []) then Some reset_hdr_info else color_of 2 es hdr_default false None)
  ∧ ∀ payload, bytes_ok payload → parse_video_metadata_hdr payload ≠ Panic.
Proof.
  intros Hb Hge Hp Hc Ht Hk Hn Hr. destruct (enc_grammar 32 (TObject es) Ht) as [_ Ho].
  destruct (color_info_object es rest Ht Hk Hn) as [E1 E2].
  assert (bytes_ok (enc (TObject es) ++ rest)) as Ho1 by (by apply Forall_app).
  assert (bytes_ok (enc (TString (text "colorInfo")))) as Ho2 by bytes_lit.
  split_and!.
  - by rewrite metadata_tag.
  - rewrite metadata_tag; try done. by apply Forall_app.
  - intros payload Hpo. unfold parse_video_metadata_hdr, InitCache.parse_video.
    pose proof (ExVideo.parse_total payload video_header_default Hpo) as H.
    destruct (ExVideo.exvideo_parse payload video_header_default) as [[[]|e|] h]; [|done|done].
    rewrite Ok_bind. destruct (_ || _); [done|]. destruct H as [Hs _].
    rewrite slice_suffix, Ok_bind by lia. unfold parse_color_info_amf.
    destruct (sim_from_slice any color_info color_info (zdrop (v_header_size h) payload) sim_color_info)
      as [-> ?]; [by apply Forall_zdrop|done].
Qed.

(** What FFmpeg writes for BT.2020 with the PQ transfer function. *)
Definition sample_color : list (bytes * tree) :=
  [(text "colorConfig", TObject [(text "bitDepth", TNumber (F64.of_int 10));
     (text "colorPrimaries", TNumber (F64.of_int 9));
     (text "transferCharacteristics", TNumber (F64.of_int 16));
     (text "matrixCoefficients", TNumber (F64.of_int 9))])].

Lemma number_entry n s v : zlen s ≤ 65535 → bytes_ok s → 0 ≤ v < 9007199254740992 →
  zlen s ≤ 65535 ∧ bytes_ok s ∧ tree_ok n (TNumber (F64.of_int v)).
Proof. intros. split_and!; try done. by destruct n; apply F64.of_int_range. Qed.

Lemma sample_color_ok n : tree_ok (Datatypes.S (Datatypes.S n)) (TObject sample_color).
Proof.
  split; [|done]. split; [done|]. constructor; [|constructor]. split; [done|]. split; [bytes_lit|].
  split; [|done]. split; [done|]. repeat (constructor; [apply number_entry; [done|bytes_lit|lia]|]). constructor.
Qed.

Lemma color_info_parsed_witness :
  parse_video_metadata_hdr (148 :: text "hvc1" ++ enc (TString (text "colorInfo"))
    ++ enc (TObject sample_color) ++ []) = Ok (Some (mkHdr 9 16 9)).
Proof.
  destruct (color_info_parsed 148 (text "hvc1") sample_color []) as (_&E&_);
    [ulia|lia|done|done|apply (sample_color_ok 30)| | |constructor|exact E].
  - constructor; [done|constructor].
  - constructor; [|constructor]. intros _.
    repeat (constructor; [split_and!; [done|by intros []|done]|]). constructor.
Defined.

(** An out-of-range field in a nested object, for example, does not reject the
    packet as one in the object itself does: the scan of the nested object stops
    after it, and the caller goes on with the nested object's remaining keys as
    its own. *)
Example nested_failure_resumes :
  parse_video_metadata_hdr (148 :: text "hvc1" ++ enc (TObject
    [(text "colorConfig", TObject [(text "colorPrimaries", TNumber (F64.of_int 70000));
       (text "transferCharacteristics", TNumber (F64.of_int 16))])]))
  = Ok (Some (mkHdr 1 16 1))
  ∧ parse_video_metadata_hdr (148 :: text "hvc1" ++ enc (TObject
    [(text "colorPrimaries", TNumber (F64.of_int 70000));
     (text "transferCharacteristics", TNumber (F64.of_int 16))]))
  = Ok None.
Proof. split; vm_compute; reflexivity. Qed.

(** * The onMetaData event *)

(** [l] starts with the AMF0 string or long string [nm]. *)
Definition starts_with_name (l nm rest : bytes) : Prop :=
  l = marker String :: to_be_bytes16 (zlen nm) ++ nm ++ rest
  ∨ l = marker LongString :: to_be_bytes32 (zlen nm) ++ nm ++ rest.

Lemma read_string_app nm rest : zlen nm < 64 →
  ∃ out, read_string (zrepeat 0 64) (marker String :: to_be_bytes16 (zlen nm) ++ nm ++ rest)
    = (Ok (out, zlen nm), rest) ∧ slice out 0 (zlen nm) = Ok nm.
Proof.
  intros Hn. unfold read_string. rewrite (bind_ok _ _ _ _ _ (read_u8_app _ _)), guard_pass by done.
  apply read_object_key_app; [done|lia].
Qed.

Lemma read_long_string_app nm rest : zlen nm < 64 →
  ∃ out, read_long_string (zrepeat 0 64) (marker LongString :: to_be_bytes32 (zlen nm) ++ nm ++ rest)
    = (Ok (out, zlen nm), rest) ∧ slice out 0 (zlen nm) = Ok nm.
Proof.
  intros Hn. pose proof (zlen_nonneg nm). unfold read_long_string.
  rewrite (bind_ok _ _ _ _ _ (read_u8_app _ _)), guard_pass by done.
  rewrite (bind_ok _ _ _ _ _ (read_u32_app (zlen nm) _ ltac:(ulia))).
  change (zlen (zrepeat 0 64)) with 64. rewrite guard_pass by lia. by apply read_into_app.
Qed.

Lemma event_name_app l nm rest : zlen nm < 64 → utf8_valid nm = true → starts_with_name l nm rest →
  event_name l = (Ok (Some nm), rest).
Proof.
  intros Hn Hu [->| ->]; unfold event_name; rewrite (bind_ok _ _ _ _ _ (peek_list _)); cbv iota.
  - change (negb (marker String =? marker String) && _) with false. cbv iota.
    change (marker String =? marker String) with true. unfold read_data_event_name.
    destruct (read_string_app nm rest Hn) as (out&E&Es).
    erewrite bind_ok; [|exact (ok_or_none_ok _ _ _ _ _ E)]. unfold str_prefix. by rewrite Es, Ok_bind, lift_ok, Hu.
  - change (negb (marker LongString =? marker String) && _) with false. cbv iota.
    change (marker LongString =? marker String) with false. unfold read_data_event_name.
    destruct (read_long_string_app nm rest Hn) as (out&E&Es).
    erewrite bind_ok; [|exact (ok_or_none_ok _ _ _ _ _ E)]. unfold str_prefix. by rewrite Es, Ok_bind, lift_ok, Hu.
Qed.

Lemma read_name_inv (is_string : bool) (l : bytes) r l' : bytes_ok l →
  (if is_string then read_string (zrepeat 0 64) else read_long_string (zrepeat 0 64)) l = (Ok r, l') →
  ∃ nm out, starts_with_name l nm l' ∧ r = (out, zlen nm) ∧ slice out 0 (zlen nm) = Ok nm.
Proof.
  intros Ho E. destruct is_string; apply bind_inv in E as (ty&l1&E1&E); apply read_u8_inv in E1 as ->;
    apply Forall_cons in Ho as [_ Ho]; apply guard_inv in E as [Et E];
    apply negb_false_iff, Z.eqb_eq in Et; subst ty; apply bind_inv in E as (n&l2&E2&E).
  - destruct (read_u16_inv l1 n l2 Ho E2) as [Hn ->]. apply guard_inv in E as [Hl E].
    destruct (read_into_inv (zrepeat 0 64) n l2 r l' ltac:(ulia) E) as (nm&out&->&<-&->&?).
    exists nm, out. split_and!; try done. by left.
  - destruct (read_u32_inv l1 n l2 Ho E2) as [Hn ->]. apply guard_inv in E as [Hl E].
    destruct (read_into_inv (zrepeat 0 64) n l2 r l' ltac:(change (zlen (zrepeat 0 64)) with 64 in *; ulia) E)
      as (nm&out&->&<-&->&?).
    exists nm, out. split_and!; try done. by right.
Qed.

Lemma event_name_inv l nm l' : bytes_ok l → nm ≠ [] → event_name l = (Ok (Some nm), l') →
  starts_with_name l nm l'.
Proof.
  intros Ho Hne E. unfold event_name in E. rewrite (bind_ok _ _ _ _ _ (peek_list l)) in E.
  destruct l as [|b l]; [done|]. destruct (_ && _); [done|]. apply bind_inv in E as (r&l1&E1&E).
  unfold read_data_event_name, ok_or_none in E1.
  destruct ((if b =? marker String then read_string (zrepeat 0 64)
    else read_long_string (zrepeat 0 64)) (b :: l)) as [[[out n]|e|] l2] eqn:E2; [|by injection E1 as <- <-|done].
  injection E1 as <- <-. apply bind_inv in E as (s&l3&E3&E). injection E as <- <-.
  destruct (read_name_inv _ _ _ _ Ho E2) as (nm'&out'&Hs&[= <- ->]&Esl).
  unfold str_prefix, lift in E3. rewrite Esl in E3. rewrite Ok_bind in E3. injection E3 as E3 <-.
  by destruct (utf8_valid nm'); subst.
Qed.

Lemma event_name_total (l : bytes) : bytes_ok l → ∃ r l', event_name l = (Ok r, l') ∧ bytes_ok l'.
Proof.
  intros Ho. pose proof (sim_event_name (Buffer.from_slice l) (Buffer.wf_from_slice l)) as Hs.
  rewrite Buffer.contents_from_slice in Hs. specialize (Hs Ho).
  destruct (event_name l) as [r l'] eqn:E. destruct Hs as (_&_&_&_&Ho'&Hr).
  destruct r as [r|e|]; [by exists r, l'| |done]. exfalso. unfold event_name in E.
  rewrite (bind_ok _ _ _ _ _ (peek_list l)) in E. destruct l as [|b l]; [done|].
  destruct (_ && _); [done|]. unfold read_data_event_name, ok_or_none, mbind, ST_bind in E.
  destruct ((if b =? marker String then read_string (zrepeat 0 64)
    else read_long_string (zrepeat 0 64)) (b :: l)) as [[[out n]|e'|] l2]; try done.
  assert (str_prefix out n = Panic ∨ ∃ d, str_prefix out n = Ok d) as [Ep|[d Ep]]
    by (unfold str_prefix, slice; destruct ((0 <=? 0) && (0 <=? n) && (n <=? zlen out));
      [right; by eexists|by left]); unfold lift in E; cbn [mret ST_ret] in E;
    rewrite Ep in E; done.
Qed.

(** C26. [is_on_metadata_payload] answers [true] exactly for the payloads that
    start with the AMF0 string or long string onMetaData, alone or after
    @setDataFrame; it never panics. *)
Theorem on_metadata_exact payload : bytes_ok payload →
  ∃ b, is_on_metadata_payload payload = Ok b
  ∧ (b = true ↔ ∃ rest, starts_with_name payload (text "onMetaData") rest
       ∨ ∃ mid, starts_with_name payload (text "@setDataFrame") mid
           ∧ starts_with_name mid (text "onMetaData") rest).
Proof.
  intros Ho. unfold is_on_metadata_payload.
  destruct (sim_from_slice any on_metadata on_metadata payload sim_on_metadata Ho) as [-> _].
  unfold on_metadata. destruct (event_name_total payload Ho) as (r&l1&E1&Ho1). rewrite (bind_ok _ _ _ _ _ E1).
  destruct (event_name_total l1 Ho1) as (r2&l2&E2&_).
  assert (∀ nm rest, zlen nm < 64 → utf8_valid nm = true → starts_with_name payload nm rest →
    r = Some nm ∧ l1 = rest) as H1.
  { intros nm rest Hz Hu Hs. rewrite (event_name_app _ _ _ Hz Hu Hs) in E1. by injection E1 as <- <-. }
  assert (∀ nm, r = Some nm → nm ≠ [] → starts_with_name payload nm l1) as H2.
  { intros nm -> Hn. by apply event_name_inv. }
  destruct r as [nm|]; [|exists false; split; [done|]; split; [done|];
    intros (rest&[[[=] _]%H1|(mid&[[=] _]%H1&_)]); done].
  case_decide as Hd.
  - rewrite (bind_ok _ _ _ _ _ E2). eexists. split; [reflexivity|]. split.
    + intros Hb. destruct r2 as [s|]; [|done]. apply bool_decide_eq_true in Hb. subst s nm.
      exists l2. right. exists l1. split; [by apply H2|by apply event_name_inv].
    + subst nm. intros (rest&[[[=] _]%H1|(mid&[_ ->]%H1&Hs)]); try done.
      rewrite (event_name_app mid (text "onMetaData") rest eq_refl eq_refl Hs) in E2. by injection E2 as <- _.
  - eexists. split; [reflexivity|]. rewrite bool_decide_eq_true. split.
    + intros ->. exists l1. left. by apply H2.
    + intros (rest&[[[= ->] _]%H1|(mid&[[= ->] _]%H1&_)]); done.
Qed.

Lemma on_metadata_exact_witness :
  is_on_metadata_payload (enc (TString (text "@setDataFrame")) ++ enc (TString (text "onMetaData"))) = Ok true.
Proof.
  destruct (on_metadata_exact (enc (TString (text "@setDataFrame")) ++ enc (TString (text "onMetaData"))))
    as (b&E&Hb); [bytes_lit|]. rewrite E. f_equal. apply Hb. exists []. right.
  exists (enc (TString (text "onMetaData"))). split; left; reflexivity.
Defined.
End ColorInfo.
