(* ===== verification/Delivery.v ===== *)
(** Delivery hints of live media, src/media/delivery.rs: what a congested relay
    may drop. *)
From S2P Require Import Prelude Bytes Types Ertmp Multitrack InitCache.
#[local] Set Warnings "-clear-no-such-hyp".

Module Delivery.
Import ExVideo ExAudio Multitrack InitCache.

Inductive DeliveryHint : Type := Critical | ResyncPoint | Droppable.

#[global] Instance DeliveryHint_eq_dec : EqDecision DeliveryHint.
Proof. solve_decision. Defined.

Definition to_u8 (h : DeliveryHint) : Z :=
  match h with Critical => 0 | ResyncPoint => 1 | Droppable => 2 end.

Definition from_u8 (code : Z) : option DeliveryHint :=
  match code with 0 => Some Critical | 1 => Some ResyncPoint | 2 => Some Droppable | _ => None end.

Definition is_enhanced_video_metadata (payload : bytes) : Res bool :=
  if is_multitrack_container Video payload then multitrack_has_metadata Video payload
  else match payload with
       | [] => Ok false
       | b0 :: _ =>
           if b0 .& 128 =? 0 then Ok false
           else
             h ← parse_video payload;
             Ok (match h with
                 | None => false
                 | Some hdr => negb (v_is_ex_header hdr =? 0)
                               && (v_packet_type hdr =? ERTMP_PACKET_TYPE_METADATA)
                 end)
       end.

(** The single-track test the two audio predicates share. *)
Definition ex_audio_packet (ty : Z) (payload : bytes) : Res bool :=
  match payload with
  | [] => Ok false
  | b0 :: _ =>
      if negb ((b0 >> 4) .& 15 =? 9) then Ok false
      else
        h ← parse_audio payload;
        Ok (match h with
            | None => false
            | Some hdr => negb (a_is_ex_header hdr =? 0) && (a_packet_type hdr =? ty)
            end)
  end.

Definition is_enhanced_audio_metadata (payload : bytes) : Res bool :=
  if is_multitrack_container Audio payload then multitrack_has_metadata Audio payload
  else ex_audio_packet ERTMP_AUDIO_PACKET_TYPE_METADATA payload.

Definition is_enhanced_audio_multichannel (payload : bytes) : Res bool :=
  if is_multitrack_container Audio payload then
    '(valid, ts) ← foreach_track Audio payload;
    Ok (valid && existsb (λ t, t_packet_type t =? ERTMP_AUDIO_PACKET_TYPE_MULTICHANNEL) ts)
  else ex_audio_packet ERTMP_AUDIO_PACKET_TYPE_MULTICHANNEL payload.

Definition is_enhanced_video_command (payload : bytes) : bool :=
  match payload with
  | [] => false
  | b :: _ => negb (b .& 128 =? 0) && ((b >> 4) .& 7 =? 5)
  end.

(** The tests in front of the cache classification. *)
Definition is_critical (frame_type : FrameType) (payload : bytes) : Res bool :=
  match frame_type with
  | Script | Metadata => Ok true
  | Video =>
      meta ← is_enhanced_video_metadata payload;
      Ok (if meta : bool then true else is_enhanced_video_command payload)
  | Audio =>
      meta ← is_enhanced_audio_metadata payload;
      if meta : bool then Ok true else is_enhanced_audio_multichannel payload
  end.

Definition classify (frame_type : FrameType) (payload : bytes) (route_has_video : bool) : Res DeliveryHint :=
  critical ← is_critical frame_type payload;
  if critical : bool then Ok Critical
  else
    k ← classify_cache_frame frame_type payload;
    Ok (match k with
        | VideoSequenceHeader | AudioSequenceHeader => Critical
        | VideoKeyframe => ResyncPoint
        | LiveOnly =>
            if bool_decide (frame_type = Audio) && negb route_has_video then ResyncPoint else Droppable
        end).

(** * What is critical *)

(** A container or a tag of an enhanced packet type. *)
Definition packet_of (ft : FrameType) (tagged : Z → Prop) (ty : Z) (payload : bytes) : Prop :=
  (∃ c, payload = container_bytes c ∧ container_ok ft c ∧ c_packet_type c = ty)
  ∨ (∃ b0 cc rest, payload = b0 :: cc ++ rest ∧ tagged b0 ∧ b0 .& 15 = ty ∧ zlen cc = 4).

Definition video_packet := packet_of Video (λ b0, 128 ≤ b0).
Definition audio_packet := packet_of Audio (λ b0, (b0 >> 4) .& 15 = 9).

Definition video_command (payload : bytes) : Prop := ∃ b0 l, payload = b0 :: l ∧ 128 ≤ b0
  ∧ frame_nibble b0 = VIDEO_FRAME_TYPE_COMMAND.

Definition critical (ft : FrameType) (payload : bytes) : Prop :=
  match ft with
  | Script | Metadata => True
  | Video => video_packet ERTMP_PACKET_TYPE_METADATA payload ∨ video_command payload ∨ video_init payload
  | Audio => audio_packet ERTMP_AUDIO_PACKET_TYPE_METADATA payload
             ∨ audio_packet ERTMP_AUDIO_PACKET_TYPE_MULTICHANNEL payload ∨ audio_init payload
  end.

Lemma container_packet ft ty payload : bytes_ok payload →
  ∃ b, has_packet_type ft payload ty = Ok b
  ∧ (b = true ↔ ∃ c, payload = container_bytes c ∧ container_ok ft c ∧ c_packet_type c = ty).
Proof.
  intros Ho. destruct (foreach_cases ft payload Ho) as [(c&Hc&->&_)|[E Hn]].
  - rewrite has_packet_type_container by done. eexists. split; [done|]. rewrite Z.eqb_eq.
    split; [by exists c|]. intros (c'&Ec&Hc'&<-).
    by destruct (container_unique ft c c' Hc Hc' Ec) as (_&->&_).
  - exists false. unfold has_packet_type. rewrite E. split; [done|]. split; [done|].
    intros (c&->&Hc&_). by destruct (Hn c Hc).
Qed.

(** With [payload] no container, a packet of the type is a tag. *)
Lemma no_container ft tagged ty b0 l : is_multitrack_container ft (b0 :: l) = false →
  packet_of ft tagged ty (b0 :: l) ↔ tagged b0 ∧ b0 .& 15 = ty ∧ 4 ≤ zlen l.
Proof.
  intros Hm. split.
  - intros [(c&Ec&(Hb&_)&_)|(b&cc&r&[= -> ->]&?&?&?)]; [|split_and!; [done|done|zlia]].
    assert (c_b0 c = b0) as E by (apply (f_equal head) in Ec; by injection Ec). subst b0.
    change (is_multitrack_container ft [c_b0 c] = false) in Hm. congruence.
  - intros (?&?&Hl). right. destruct (zlen_split l 4) as (cc&r&->&?); [lia|]. eauto 10.
Qed.

Lemma with_container (ft : FrameType) tagged ty payload m : is_multitrack_container ft payload = true →
  (∀ b0 l, is_multitrack_container ft (b0 :: l) = true → tagged b0 → b0 .& 15 = m) → ty ≠ m →
  packet_of ft tagged ty payload ↔ ∃ c, payload = container_bytes c ∧ container_ok ft c ∧ c_packet_type c = ty.
Proof.
  intros Hm Ht Hn. split; [|by left]. intros [?|(b0&cc&r&->&Htag&<-&_)]; [done|].
  by destruct Hn; eapply Ht.
Qed.

Lemma video_metadata_iff payload : bytes_ok payload →
  ∃ b, is_enhanced_video_metadata payload = Ok b
  ∧ (b = true ↔ video_packet ERTMP_PACKET_TYPE_METADATA payload).
Proof.
  intros Ho. unfold is_enhanced_video_metadata, video_packet.
  destruct (is_multitrack_container Video payload) eqn:Hm.
  - destruct (container_packet Video ERTMP_PACKET_TYPE_METADATA payload Ho) as (b&E&Hb).
    exists b. split; [exact E|]. rewrite Hb, (with_container Video _ _ payload 6); [done|done| |done].
    intros b0 l H _. simpl in H. destruct (_ =? 0); [done|]. apply andb_true_iff in H as [_ H]. by apply Z.eqb_eq.
  - destruct payload as [|b0 l].
    { exists false. split; [done|]. split; [done|]. by intros [(c&[=]&_)|(?&?&?&[=]&_)]. }
    inversion Ho as [|?? Hb Hl]; subst. rewrite land_128 by done.
    pose proof (no_container Video (λ b0, 128 ≤ b0) ERTMP_PACKET_TYPE_METADATA b0 l Hm) as Hi.
    destruct (Z.ltb_spec b0 128); [exists false; split; [done|]; split; [done|]; rewrite Hi; lia|].
    destruct (decide (b0 .& 15 = ERTMP_PACKET_TYPE_METADATA)) as [Ep|Ep].
    + assert (is_command (frame_nibble b0) (b0 .& 15) = false) as Hc
        by (unfold is_command; rewrite Ep; by rewrite andb_false_r).
      destruct (decide (zlen l < 4)) as [H4|H4].
      { rewrite parse_video_short, Ok_bind by done. exists false. split; [done|]. split; [done|].
        rewrite Hi. lia. }
      destruct (zlen_split l 4) as (cc&rest&->&Hcc); [lia|]. apply Forall_app in Hl as [_ Hr].
      unfold parse_video. rewrite parse_tag by done. unfold timed. rewrite Ep.
      change (ERTMP_PACKET_TYPE_METADATA =? 1) with false. cbn [andb]. cbv iota. rewrite Ok_bind.
      exists true. split; [cbn [tag_header v_packet_type v_is_ex_header]; by rewrite Ep|].
      rewrite Hi. split; [intros _; split_and!; [done|done|lia]|done].
    + destruct (parse_video_packet b0 l Ho ltac:(lia)) as (r&->&Hr). rewrite Ok_bind. exists false.
      split; [|split; [done|]; rewrite Hi; tauto].
      destruct Hr as [->|(h&->&E1&E2)]; [done|]. rewrite E2, (proj2 (Z.eqb_neq _ _) Ep). by rewrite andb_false_r.
Qed.

Lemma audio_container_type b0 l : is_multitrack_container Audio (b0 :: l) = true →
  (b0 >> 4) .& 15 = 9 → b0 .& 15 = 5.
Proof. intros H _. by apply (audio_container b0 l). Qed.

Lemma ex_audio_packet_iff ty payload : bytes_ok payload → is_multitrack_container Audio payload = false →
  ∃ b, ex_audio_packet ty payload = Ok b ∧ (b = true ↔ audio_packet ty payload).
Proof.
  intros Ho Hm. unfold audio_packet. destruct payload as [|b0 l].
  { exists false. split; [done|]. split; [done|]. by intros [(c&[=]&_)|(?&?&?&[=]&_)]. }
  inversion Ho as [|?? Hb Hl]; subst. cbn [ex_audio_packet].
  pose proof (no_container Audio (λ b0, (b0 >> 4) .& 15 = 9) ty b0 l Hm) as Hi.
  destruct (Z.eqb_spec ((b0 >> 4) .& 15) 9) as [E9|E9]; cbn [negb].
  2: { exists false. split; [done|]. split; [done|]. rewrite Hi. tauto. }
  destruct (decide (zlen l < 4)) as [H4|H4].
  { rewrite parse_audio_short, Ok_bind by done. exists false. split; [done|]. split; [done|]. rewrite Hi. lia. }
  destruct (zlen_split l 4) as (cc&rest&->&Hcc); [lia|].
  destruct (parse_audio_ex b0 cc rest Hb E9 Hcc) as [c ->]. rewrite Ok_bind.
  cbn [a_is_ex_header a_packet_type]. eexists. split; [done|]. change (negb (1 =? 0)) with true. cbn [andb].
  rewrite Z.eqb_eq, Hi. split; [intros; split_and!; [done|done|lia]|tauto].
Qed.

Lemma audio_packet_iff ty payload : bytes_ok payload → ty ≠ 5 →
  ∃ b, (if is_multitrack_container Audio payload then has_packet_type Audio payload ty
        else ex_audio_packet ty payload) = Ok b ∧ (b = true ↔ audio_packet ty payload).
Proof.
  intros Ho Hn. destruct (is_multitrack_container Audio payload) eqn:Hm; [|by apply ex_audio_packet_iff].
  destruct (container_packet Audio ty payload Ho) as (b&E&Hb). exists b. split; [exact E|].
  unfold audio_packet. rewrite Hb, (with_container Audio _ _ payload 5); eauto using audio_container_type.
Qed.

Lemma video_command_iff payload : bytes_ok payload →
  is_enhanced_video_command payload = true ↔ video_command payload.
Proof.
  intros Ho. destruct payload as [|b0 l]; [split; [done|by intros (?&?&[=]&_)]|].
  inversion Ho as [|?? Hb _]; subst. simpl. rewrite land_128, andb_true_iff, negb_true_iff, Z.ltb_ge, Z.eqb_eq by done.
  split; [intros []; by exists b0, l|by intros (?&?&[= <- <-]&?)].
Qed.

Lemma is_critical_iff ft payload : bytes_ok payload → ∃ b, is_critical ft payload = Ok b
  ∧ (critical ft payload ↔ b = true ∨ ft = Video ∧ video_init payload ∨ ft = Audio ∧ audio_init payload).
Proof.
  intros Ho. destruct ft; unfold is_critical, critical; [| |exists true; naive_solver..].
  - destruct (audio_packet_iff ERTMP_AUDIO_PACKET_TYPE_METADATA payload Ho ltac:(done)) as (b1&E1&H1).
    destruct (audio_packet_iff ERTMP_AUDIO_PACKET_TYPE_MULTICHANNEL payload Ho ltac:(done)) as (b2&E2&H2).
    change (is_enhanced_audio_metadata payload) with (if is_multitrack_container Audio payload then
      has_packet_type Audio payload ERTMP_AUDIO_PACKET_TYPE_METADATA
      else ex_audio_packet ERTMP_AUDIO_PACKET_TYPE_METADATA payload).
    change (is_enhanced_audio_multichannel payload) with (if is_multitrack_container Audio payload then
      has_packet_type Audio payload ERTMP_AUDIO_PACKET_TYPE_MULTICHANNEL
      else ex_audio_packet ERTMP_AUDIO_PACKET_TYPE_MULTICHANNEL payload).
    rewrite E1, Ok_bind, E2. exists (b1 || b2). split; [by destruct b1|].
    rewrite <- H1, <- H2, orb_true_iff. naive_solver.
  - destruct (video_metadata_iff payload Ho) as (b&->&Hb). rewrite Ok_bind.
    exists (b || is_enhanced_video_command payload). split; [by destruct b|].
    rewrite orb_true_iff, <- Hb, <- video_command_iff by done. naive_solver.
Qed.

(** C28. Delivery hints. A frame is [Critical] exactly when it is script data, a
    cacheable sequence header, an enhanced metadata packet, a video command or
    a multichannel configuration; of the others, video key frames and, on a
    route without video, audio frames are the points to resume from; the rest
    may be dropped. The classification never panics, and the one-byte code of
    a hint decodes to it. *)
Theorem delivery_hint_exact ft payload has_video : bytes_ok payload →
  ∃ h, classify ft payload has_video = Ok h ∧ from_u8 (to_u8 h) = Some h
  ∧ (h = Critical ↔ critical ft payload)
  ∧ (h = ResyncPoint ↔ ¬ critical ft payload
       ∧ (ft = Video ∧ video_key payload ∨ ft = Audio ∧ has_video = false)).
Proof.
  intros Ho. unfold classify. destruct (is_critical_iff ft payload Ho) as (b&->&Hc). rewrite Ok_bind.
  assert (∀ h, from_u8 (to_u8 h) = Some h) as Hu by (by intros []).
  destruct b; [exists Critical; split_and!; naive_solver|].
  destruct ft; [| |destruct (proj1 Hc I); naive_solver..]; cbn [classify_cache_frame].
  - destruct (classify_audio_exact payload Ho) as (b&->&Hb). rewrite Ok_bind. eexists. split; [done|].
    split; [done|]. rewrite Hc, <- Hb. rewrite bool_decide_true by done.
    destruct b, has_video; simpl; naive_solver.
  - destruct (classify_video_exact payload Ho) as (k&->&H1&H2&H3). rewrite Ok_bind. eexists. split; [done|].
    split; [done|]. rewrite Hc, <- H1, <- H2. rewrite bool_decide_false by done.
    destruct k; simpl; naive_solver.
Qed.

Lemma delivery_hint_exact_witness : classify Audio [175; 1; 33] false = Ok ResyncPoint
  ∧ ¬ critical Audio [175; 1; 33].
Proof.
  destruct (delivery_hint_exact Audio [175; 1; 33] false) as (h&E&_&Hc&_); [bytes_lit|].
  vm_compute in E. injection E as <-. split; [reflexivity|]. intros H. discriminate (proj2 Hc H).
Defined.
End Delivery.
