(* ===== verification/Caps.v ===== *)
(** The Enhanced RTMP capabilities of a connect command: the FourCC list, the
    capsEx record and the video FourCC map in their binary form
    (src/ertmp/connect_caps.rs), the AMF0 values that carry them and their
    negotiation (src/ertmp/connect_amf.rs). *)
From S2P Require Import Prelude Bytes Types F64 Buffer Source Amf0 Ertmp.
#[local] Set Warnings "-clear-no-such-hyp".

(** * The records of src/types.rs *)

(** A list is an array of [MAX_FOURCCS] entries of five bytes and a count. Only
    entries below the count are ever read, and the entry at the count is zero
    or reset before it is filled: the list of the first [count] entries stands
    for both fields. The map is the same, with a mask beside each entry. *)
Definition FourCcList : Type := list bytes.
Definition VideoFourCcInfoMap : Type := list (bytes * Z).

Definition MAX_FOURCCS : Z := 16.
Definition CAPS_EX_MASK_RECONNECT : Z := 1.
Definition CAPS_EX_MASK_MULTITRACK : Z := 2.
Definition CAPS_EX_MASK_TIMESTAMP_NANO : Z := 8.
Definition CAPS_EX_MASK_SERVER_DEFAULT : Z :=
  CAPS_EX_MASK_MULTITRACK .| CAPS_EX_MASK_MODEX .| CAPS_EX_MASK_TIMESTAMP_NANO.
Definition FOUR_CC_INFO_CAN_FORWARD : Z := 4.
Definition FOUR_CC_INFO_ALL : Z := 7.

Record CapsExit : Type := mkCapsExit { cx_version : Z; cx_video_codec_32 : Z; cx_audio_codec_32 : Z }.
#[global] Instance eta_capsexit : Eta CapsExit := λ c,
  mkCapsExit (cx_version c) (cx_video_codec_32 c) (cx_audio_codec_32 c).
Definition caps_exit_default : CapsExit := mkCapsExit 0 0 0.

Record NegotiatedCaps : Type := mkNegotiated {
  nc_four_cc_list : FourCcList;
  nc_caps_ex : CapsExit;
  nc_video_map : VideoFourCcInfoMap;
  nc_reconnect : Reconnect;
  nc_caps_ex_mask : Z;
  nc_has_four_cc_list : bool;
  nc_has_caps_ex : bool;
  nc_has_video_map : bool;
  nc_has_reconnect : bool;
  nc_multitrack_enabled : bool;
}.
#[global] Instance eta_negotiated : Eta NegotiatedCaps := λ c,
  mkNegotiated (nc_four_cc_list c) (nc_caps_ex c) (nc_video_map c) (nc_reconnect c)
    (nc_caps_ex_mask c) (nc_has_four_cc_list c) (nc_has_caps_ex c) (nc_has_video_map c)
    (nc_has_reconnect c) (nc_multitrack_enabled c).
Definition negotiated_default : NegotiatedCaps :=
  mkNegotiated [] caps_exit_default [] (mkReconnect 0 0) 0 false false false false false.

Record ConnectInfo : Type := mkConnectInfo {
  ci_name : bytes;
  ci_transaction_id : Z;
  ci_app : bytes;
  ci_tc_url : bytes;
  ci_page_url : bytes;
  ci_swf_url : bytes;
  ci_flash_ver : bytes;
  ci_audio_codecs : Z;
  ci_video_codecs : Z;
  ci_four_cc_list : FourCcList;
  ci_caps_ex : CapsExit;
  ci_video_map : VideoFourCcInfoMap;
  ci_reconnect : Reconnect;
  ci_caps_ex_mask : Z;
  ci_has_four_cc_list : bool;
  ci_has_caps_ex : bool;
  ci_has_video_map : bool;
  ci_has_reconnect : bool;
}.
#[global] Instance eta_connectinfo : Eta ConnectInfo := λ c,
  mkConnectInfo (ci_name c) (ci_transaction_id c) (ci_app c) (ci_tc_url c) (ci_page_url c)
    (ci_swf_url c) (ci_flash_ver c) (ci_audio_codecs c) (ci_video_codecs c) (ci_four_cc_list c)
    (ci_caps_ex c) (ci_video_map c) (ci_reconnect c) (ci_caps_ex_mask c) (ci_has_four_cc_list c)
    (ci_has_caps_ex c) (ci_has_video_map c) (ci_has_reconnect c).
Definition connect_info_default : ConnectInfo :=
  mkConnectInfo (zrepeat 0 64) 0 (zrepeat 0 256) (zrepeat 0 512) (zrepeat 0 512) (zrepeat 0 512)
    (zrepeat 0 64) 0 0 [] caps_exit_default [] (mkReconnect 0 0) 0 false false false false.

(** * The binary forms *)
Module ConnectCaps.

(** The entry a key is stored as. *)
Definition entry_of (cc : bytes) : option bytes :=
  if decide (cc = text "*") then Some (text "*" ++ zrepeat 0 4)
  else if 4 <=? zlen cc then Some (ztake 4 cc ++ [0])
  else None.

Definition fourcc_list_init (list : FourCcList) : FourCcList := [].

Definition fourcc_list_add (cc : bytes) : ST FourCcList unit :=
  list ← get_st;
  guard_st (MAX_FOURCCS <=? zlen list) Io;;
  match entry_of cc with
  | Some entry => put_st (list ++ [entry])
  | None => fail Io
  end.

Definition short_key (slen : Z) : bool := (slen =? 1) || (slen =? 4).

(** The loop of [fourcc_list_parse]: a truncated or malformed entry ends it. *)
Fixpoint parse_entries (count : nat) (data : bytes) (offset : Z) : ST FourCcList unit :=
  match count with
  | O => mret tt
  | Datatypes.S count =>
      if zlen data <? offset + 2 then mret tt
      else
        slen ← lift (Descriptors.u16_at data offset);
        let offset := offset + 2 in
        if negb (short_key slen) || (zlen data <? offset + slen) then mret tt
        else
          cc ← lift (slice data offset (offset + slen));
          fourcc_list_add cc;;
          parse_entries count data (offset + slen)
  end.

Definition fourcc_list_parse (data : bytes) : ST FourCcList Z :=
  guard_st (zlen data <? 4) Io;;
  modify fourcc_list_init;;
  count ← lift (Descriptors.u32_at data 0);
  parse_entries (Z.to_nat (Z.min count MAX_FOURCCS)) data 4;;
  list ← get_st;
  mret (zlen list).

Definition is_wildcard (entry : bytes) : Res bool :=
  b ← zidx entry 0; Ok (b =? 42).

(** [(0..count).map(|i| if entries[i].cc[0] == b'*' { w } else { n }).sum()]. *)
Fixpoint entries_size (w n : Z) (list : list bytes) : Res Z :=
  match list with
  | [] => Ok 0
  | entry :: list =>
      star ← is_wildcard entry;
      rest ← entries_size w n list;
      Ok ((if star : bool then w else n) + rest)
  end.

Definition write_key (entry buf : bytes) (offset : Z) : Res (Z * bytes) :=
  wildcard ← is_wildcard entry;
  let len := if wildcard : bool then 1 else 4 in
  buf ← copy_at buf offset (to_be_bytes16 (as_u16 len));
  let offset := offset + 2 in
  buf ← (if wildcard : bool then copy_at buf offset (text "*")
         else cc ← slice entry 0 4; copy_at buf offset cc);
  Ok (offset + len, buf).

Fixpoint write_entries (list : FourCcList) (buf : bytes) (offset : Z) : Res (Z * bytes) :=
  match list with
  | [] => Ok (offset, buf)
  | entry :: list => '(offset, buf) ← write_key entry buf offset; write_entries list buf offset
  end.

Definition fourcc_list_write (list : FourCcList) (buf : bytes) : Res (Z * bytes) :=
  size ← entries_size 3 6 list;
  if zlen buf <? 4 + size then Ok (0, buf)
  else
    buf ← copy_at buf 0 (to_be_bytes32 (as_u32 (zlen list)));
    write_entries list buf 4.

Definition caps_exit_parse (data : bytes) : ST CapsExit unit :=
  guard_st (zlen data <? 8) Io;;
  v ← lift (Descriptors.u32_at data 0); a ← lift (Descriptors.u32_at data 4);
  put_st (mkCapsExit 1 (as_i32 v) (as_i32 a)).

Definition caps_exit_write (caps : CapsExit) (buf : bytes) : Res (Z * bytes) :=
  if zlen buf <? 8 then Ok (0, buf)
  else
    buf ← copy_at buf 0 (to_be_bytes32 (as_u32 (cx_video_codec_32 caps))
                         ++ to_be_bytes32 (as_u32 (cx_audio_codec_32 caps)));
    Ok (8, buf).

(** The probe of one layout: the length its entries would take. *)
Fixpoint walk (count : nat) (data : bytes) (entry_extra scan : Z) : Res (option Z) :=
  match count with
  | O => Ok (Some scan)
  | Datatypes.S count =>
      if zlen data <? scan + 2 then Ok None
      else
        slen ← Descriptors.u16_at data scan;
        let scan := scan + 2 in
        if negb (short_key slen) || (zlen data <? scan + slen + entry_extra) then Ok None
        else walk count data entry_extra (scan + slen + entry_extra)
  end.

(** The key of an entry, as the map stores it. *)
Definition map_key (key : bytes) : option bytes :=
  if decide (key = text "*") then Some (text "*" ++ zrepeat 0 4)
  else if zlen key =? 4 then Some (key ++ [0])
  else None.

Fixpoint parse_map_entries (count : nat) (legacy_key_only : bool) (data : bytes) (offset : Z)
    : ST VideoFourCcInfoMap unit :=
  match count with
  | O => mret tt
  | Datatypes.S count =>
      guard_st (zlen data <? offset + 2) Io;;
      slen ← lift (Descriptors.u16_at data offset);
      let offset := offset + 2 in
      guard_st (negb (short_key slen) || (zlen data <? offset + slen)) Io;;
      key ← lift (slice data offset (offset + slen));
      match map_key key with
      | None => fail Io
      | Some entry =>
          let offset := offset + slen in
          '(mask, offset) ←
            (if legacy_key_only then mret (FOUR_CC_INFO_ALL, offset)
             else
               guard_st (zlen data <? offset + 4) Io;;
               mask ← lift (Descriptors.u32_at data offset);
               mret (mask, offset + 4));
          modify (λ map, map ++ [(entry, mask)]);;
          parse_map_entries count legacy_key_only data offset
      end
  end.

Definition video_fourcc_info_map_parse (data : bytes) : ST VideoFourCcInfoMap Z :=
  guard_st (zlen data <? 4) Io;;
  put_st [];;
  count ← lift (Descriptors.u32_at data 0);
  let count := Z.to_nat (Z.min count MAX_FOURCCS) in
  with_mask ← lift (walk count data 4 4);
  key_only ← lift (walk count data 0 4);
  legacy_key_only ←
    (if decide (with_mask = Some (zlen data)) then mret false
     else if decide (key_only = Some (zlen data)) then mret true
     else fail Io);
  parse_map_entries count legacy_key_only data 4;;
  map ← get_st;
  mret (zlen map).

Fixpoint write_map_entries (map : VideoFourCcInfoMap) (buf : bytes) (offset : Z) : Res (Z * bytes) :=
  match map with
  | [] => Ok (offset, buf)
  | (entry, mask) :: map =>
      '(offset, buf) ← write_key entry buf offset;
      buf ← copy_at buf offset (to_be_bytes32 mask);
      write_map_entries map buf (offset + 4)
  end.

Definition video_fourcc_info_map_write (map : VideoFourCcInfoMap) (buf : bytes) : Res (Z * bytes) :=
  size ← entries_size 7 10 map.*1;
  if zlen buf <? 4 + size then Ok (0, buf)
  else
    buf ← copy_at buf 0 (to_be_bytes32 (as_u32 (zlen map)));
    write_map_entries map buf 4.

(** * Well-formed lists and maps *)

Definition entry_ok (e : bytes) : Prop := zlen e = 5 ∧ bytes_ok e.

Record list_ok (l : FourCcList) : Prop := {
  list_count : zlen l ≤ MAX_FOURCCS;
  list_entries : Forall entry_ok l;
}.

Record map_ok (m : VideoFourCcInfoMap) : Prop := {
  map_count : zlen m ≤ MAX_FOURCCS;
  map_entries : Forall (λ '(e, mask), entry_ok e ∧ is_u32 mask) m;
}.

#[local] Abbreviation any := (λ _, True).

Lemma list_ok_nil : list_ok [].
Proof. by split. Qed.

Lemma map_ok_nil : map_ok [].
Proof. by split. Qed.

Lemma entry_of_ok cc e : bytes_ok cc → entry_of cc = Some e → entry_ok e.
Proof.
  unfold entry_of. intros Ho. case_decide; [|destruct (Z.leb_spec 4 (zlen cc)); [|done]]; intros [= <-].
  - split; [done|bytes_lit].
  - split; [zlia|]. apply Forall_app. split; [by apply Forall_ztake|bytes_lit].
Qed.

Lemma list_ok_snoc l e : list_ok l → entry_ok e → zlen l < MAX_FOURCCS → list_ok (l ++ [e]).
Proof. intros [??] ??. split; [zlia|]. by apply Forall_app_2, Forall_singleton. Qed.

Lemma map_ok_snoc m e mask : map_ok m → entry_ok e → is_u32 mask → zlen m < MAX_FOURCCS →
  map_ok (m ++ [(e, mask)]).
Proof. intros [??] ???. split; [zlia|]. by apply Forall_app_2, Forall_singleton. Qed.

Lemma u16_at_range d off : bytes_ok d → 0 ≤ off → off + 2 ≤ zlen d →
  ∃ v, Descriptors.u16_at d off = Ok v ∧ is_u16 v.
Proof.
  intros Hd ??. unfold Descriptors.u16_at.
  destruct (zidx_byte d off Hd) as (x&->&?); [lia|]. destruct (zidx_byte d (off + 1) Hd) as (y&->&?); [lia|].
  eexists. split; [done|]. rewrite u16_be_val by done. unfold from_be_bytes16. ulia.
Qed.

Lemma u32_at_range d off : bytes_ok d → 0 ≤ off → off + 4 ≤ zlen d →
  ∃ v, Descriptors.u32_at d off = Ok v ∧ is_u32 v.
Proof.
  intros Hd ??. unfold Descriptors.u32_at.
  destruct (zidx_byte d off Hd) as (x&->&?); [lia|]. destruct (zidx_byte d (off + 1) Hd) as (y&->&?); [lia|].
  destruct (zidx_byte d (off + 2) Hd) as (z&->&?); [lia|]. destruct (zidx_byte d (off + 3) Hd) as (t&->&?); [lia|].
  eexists. split; [done|]. rewrite u32_be_val by done. unfold from_be_bytes32. ulia.
Qed.

Lemma slice_bytes d a b : bytes_ok d → 0 ≤ a ≤ b → b ≤ zlen d →
  ∃ k, slice d a b = Ok k ∧ bytes_ok k ∧ zlen k = b - a.
Proof.
  intros. rewrite slice_ok by done. eexists. split; [done|]. split; [|zlia].
  by apply Forall_ztake, Forall_zdrop.
Qed.

Lemma keeps_list_add cc : bytes_ok cc → keeps list_ok any (fourcc_list_add cc).
Proof.
  intros Hc l Hl. unfold fourcc_list_add, get_st, mbind, ST_bind, guard_st.
  destruct (Z.leb_spec MAX_FOURCCS (zlen l)); [done|]. destruct (entry_of cc) as [e|] eqn:E; [|done].
  split; [|done]. apply list_ok_snoc; [done|by eapply entry_of_ok|done].
Qed.

Lemma keeps_parse_entries n data off : bytes_ok data → 0 ≤ off →
  keeps list_ok any (parse_entries n data off).
Proof.
  intros Hd. revert off. induction n as [|n IH]; intros off Hf; cbn [parse_entries]; [by apply keeps_ret|].
  destruct (Z.ltb_spec (zlen data) (off + 2)); [by apply keeps_ret|].
  destruct (u16_at_range data off Hd) as (v&->&Hv); [lia..|].
  apply (keeps_bind _ (λ x, x = v)); [by apply keeps_lift|]. intros ? ->. cbv zeta.
  destruct (negb (short_key v)); [by apply keeps_ret|]. simpl.
  destruct (Z.ltb_spec (zlen data) (off + 2 + v)); [by apply keeps_ret|].
  destruct (slice_bytes data (off + 2) (off + 2 + v) Hd) as (k&->&Hk&_); [ulia..|].
  apply (keeps_bind _ bytes_ok); [by apply keeps_lift|]. intros cc Hc.
  apply (keeps_bind _ any); [by apply keeps_list_add|]. intros _ _. apply IH. ulia.
Qed.

Lemma keeps_list_parse data : bytes_ok data → keeps list_ok any (fourcc_list_parse data).
Proof.
  intros Hd. apply (keeps_bind _ (λ _, 4 ≤ zlen data)); [apply keeps_guard; lia|]. intros _ Hl.
  apply (keeps_bind _ any); [apply keeps_modify; [intros; apply list_ok_nil|done]|]. intros _ _.
  destruct (u32_at_range data 0 Hd) as (v&->&_); [lia..|].
  apply (keeps_bind _ any); [by apply keeps_lift|]. intros ? _.
  apply (keeps_bind _ any); [apply keeps_parse_entries; [done|lia]|]. intros _ _.
  apply (keeps_bind _ list_ok); [apply keeps_get|]. intros. by apply keeps_ret.
Qed.

Lemma keeps_caps_exit I data : bytes_ok data → (∀ v a, I (mkCapsExit 1 v a)) →
  keeps I any (caps_exit_parse data).
Proof.
  intros Hd HI. apply (keeps_bind _ (λ _, 8 ≤ zlen data)); [apply keeps_guard; lia|]. intros _ Hl.
  destruct (u32_at_range data 0 Hd) as (v&->&_); [lia..|]. destruct (u32_at_range data 4 Hd) as (a&->&_); [lia..|].
  apply (keeps_bind _ any); [by apply keeps_lift|]. intros ? _.
  apply (keeps_bind _ any); [by apply keeps_lift|]. intros ? _. by apply keeps_put.
Qed.

Lemma walk_ok n data extra scan : bytes_ok data → 0 ≤ extra → 0 ≤ scan →
  ∃ r, walk n data extra scan = Ok r.
Proof.
  intros Hd He. revert scan. induction n as [|n IH]; intros scan Hs; cbn [walk]; [by eexists|].
  destruct (Z.ltb_spec (zlen data) (scan + 2)); [by eexists|].
  destruct (u16_at_range data scan Hd) as (v&->&Hv); [lia..|]. rewrite Ok_bind. cbv zeta.
  destruct (_ || _); [by eexists|]. apply IH. ulia.
Qed.

Lemma map_key_ok key e : bytes_ok key → map_key key = Some e → entry_ok e.
Proof.
  unfold map_key. intros Ho. case_decide; [|destruct (Z.eqb_spec (zlen key) 4); [|done]]; intros [= <-].
  - split; [done|bytes_lit].
  - split; [zlia|]. by apply Forall_app_2; [|bytes_lit].
Qed.

(** One entry per turn: the count bounds the map. *)
Lemma parse_map_entries_ok n legacy data off m : bytes_ok data → 0 ≤ off → map_ok m →
  zlen m + Z.of_nat n ≤ MAX_FOURCCS →
  map_ok (snd (parse_map_entries n legacy data off m))
  ∧ returns any (fst (parse_map_entries n legacy data off m)).
Proof.
  intros Hd. revert off m. induction n as [|n IH]; intros off m Hf Hm Hn; cbn [parse_map_entries]; [done|].
  destruct (Z.ltb_spec (zlen data) (off + 2)); [done|]. rewrite guard_pass by done.
  destruct (u16_at_range data off Hd) as (v&->&Hv); [lia..|]. rewrite lift_ok. cbv zeta.
  destruct (negb (short_key v)); [done|]. cbn [orb].
  destruct (Z.ltb_spec (zlen data) (off + 2 + v)); [done|]. rewrite guard_pass by done.
  destruct (slice_bytes data (off + 2) (off + 2 + v) Hd) as (k&->&Hk&_); [ulia..|]. rewrite lift_ok.
  destruct (map_key k) as [e|] eqn:Ek; [|done]. pose proof (map_key_ok _ _ Hk Ek).
  assert (∀ mask off, is_u32 mask → 0 ≤ off →
    map_ok (snd ((modify (λ map, map ++ [(e, mask)]);; parse_map_entries n legacy data off) m))
    ∧ returns any (fst ((modify (λ map, map ++ [(e, mask)]);; parse_map_entries n legacy data off) m))) as Hrec.
  { intros mask o' Hmask Ho'. apply IH; [done| |zlia]. by apply map_ok_snoc; [..|lia]. }
  destruct legacy; [apply Hrec; [done|ulia]|].
  destruct (Z.ltb_spec (zlen data) (off + 2 + v + 4)); [done|].
  destruct (u32_at_range data (off + 2 + v) Hd) as (mask&E&Hmask); [ulia..|].
  rewrite E. apply Hrec; [done|ulia].
Qed.

Lemma keeps_map_parse data : bytes_ok data → keeps map_ok any (video_fourcc_info_map_parse data).
Proof.
  intros Hd m Hm. unfold video_fourcc_info_map_parse. destruct (Z.ltb_spec (zlen data) 4); [done|].
  rewrite guard_pass by done. rewrite (bind_ok _ _ _ tt []) by done.
  destruct (u32_at_range data 0 Hd) as (v&->&Hv); [lia..|]. rewrite lift_ok. cbv zeta.
  destruct (walk_ok (Z.to_nat (Z.min v MAX_FOURCCS)) data 4 4 Hd) as (r1&->); [lia..|].
  destruct (walk_ok (Z.to_nat (Z.min v MAX_FOURCCS)) data 0 4 Hd) as (r2&->); [lia..|].
  rewrite !lift_ok. assert (∀ b,
    map_ok (snd ((parse_map_entries (Z.to_nat (Z.min v MAX_FOURCCS)) b data 4;; map ← get_st; mret (zlen map)) []))
    ∧ returns any (fst ((parse_map_entries (Z.to_nat (Z.min v MAX_FOURCCS)) b data 4;; map ← get_st; mret (zlen map)) [])))
    as Hgo.
  { intros b. destruct (parse_map_entries_ok (Z.to_nat (Z.min v MAX_FOURCCS)) b data 4 [] Hd) as [H1 H2];
      [lia|apply map_ok_nil|unfold MAX_FOURCCS in *; change (zlen []) with 0; ulia|].
    unfold mbind, ST_bind. by destruct (parse_map_entries _ b data 4 []) as [[u|e|] m']. }
  case_decide; [apply Hgo|]. case_decide; [apply Hgo|]. by split; [apply map_ok_nil|].
Qed.

End ConnectCaps.

(** * The AMF0 values *)
Module ConnectAmf.
Import Amf0 ConnectCaps.

Definition MAX_CAPS_BLOB_BYTES : Z := 4096.

(** [!v.is_finite() || v < 0.0 || v > u32::MAX as f64], negated, and the test for
    a fractional part. *)
Definition in_u32_range (value : Z) : bool :=
  F64.is_finite value && (F64.ge_int value 0 && F64.le_int value 4294967295).
Definition fract_is_zero (value : Z) : bool := F64.scaled value mod Z.shiftl 1 1074 =? 0.

Section read.
Context {S : Type} `{Source S}.

Definition read_amf_binary_blob (ty : Amf0Type) : ST S bytes :=
  len ← match ty with
        | LongString => read_u32
        | String => read_u16
        | _ => fail Amf
        end;
  avail ← available_st;
  guard_st ((MAX_CAPS_BLOB_BYTES <? len) || (avail <? len)) Amf;;
  map_err Amf (src_read len).

Fixpoint four_cc_elements (count : nat) : ST (S * FourCcList) unit :=
  match count with
  | O => mret tt
  | Datatypes.S count =>
      '(cc, n) ← src (read_string (zrepeat 0 8));
      c0 ← lift (zidx cc 0);
      (if ((n =? 1) && (c0 =? 42)) || (4 <=? n) then
         d ← lift (slice cc 0 n);
         out (fourcc_list_add d)
       else mret tt);;
      four_cc_elements count
  end.

Definition read_four_cc_strict_array : ST (S * FourCcList) unit :=
  count ← src read_u32;
  guard_st (MAX_FOURCCS <? count) Amf;;
  four_cc_elements (Z.to_nat count).

Definition read_four_cc_list_amf : ST (S * FourCcList) unit :=
  out (modify fourcc_list_init);;
  ty ← src read_type;
  match ty with
  | StrictArray => read_four_cc_strict_array
  | LongString =>
      data ← src (read_amf_binary_blob ty);
      out (fourcc_list_parse data);; mret tt
  | _ => fail Amf
  end.

Definition add_video_map_entry (key : bytes) (mask : Z) : ST VideoFourCcInfoMap unit :=
  map ← get_st;
  guard_st (MAX_FOURCCS <=? zlen map) Amf;;
  match entry_of key with
  | Some entry => put_st (map ++ [(entry, mask)])
  | None => fail Amf
  end.

Fixpoint video_map_elements (count : nat) : ST (S * VideoFourCcInfoMap) unit :=
  match count with
  | O => mret tt
  | Datatypes.S count =>
      '(cc, n) ← src (read_string (zrepeat 0 8));
      d ← lift (slice cc 0 n);
      out (add_video_map_entry d FOUR_CC_INFO_ALL);;
      video_map_elements count
  end.

(** The loop over the keys of an object; at most [MAX_OBJECT_KEYS + 1] turns. *)
Fixpoint video_map_keys (fuel : nat) (keys : Z) : ST (S * VideoFourCcInfoMap) unit :=
  match fuel with
  | O => lift Panic
  | Datatypes.S fuel =>
      fin ← src is_object_end;
      if fin : bool then src (map_err Amf (src_read 3));; mret tt
      else
        guard_st (MAX_OBJECT_KEYS <? keys + 1) Amf;;
        '(key, key_len) ← src (read_object_key (zrepeat 0 256));
        value_type ← src read_type;
        guard_st (negb (bool_decide (value_type = Number))) Amf;;
        value ← src read_number;
        guard_st (negb (in_u32_range value)) Amf;;
        d ← lift (slice key 0 key_len);
        out (add_video_map_entry d (F64.as_uint 4294967295 value));;
        video_map_keys fuel (keys + 1)
  end.

Definition read_video_fourcc_info_map_amf : ST (S * VideoFourCcInfoMap) unit :=
  out (put_st []);;
  ty ← src read_type;
  match ty with
  | StrictArray =>
      count ← src read_u32;
      guard_st (MAX_FOURCCS <? count) Amf;;
      video_map_elements (Z.to_nat count)
  | LongString =>
      data ← src (read_amf_binary_blob ty);
      out (video_fourcc_info_map_parse data);; mret tt
  | Object => video_map_keys entries_fuel 0
  | EcmaArray => src read_u32;; video_map_keys entries_fuel 0
  | _ => fail Amf
  end.

Definition read_fourcc_number : ST S Z :=
  ty ← read_type;
  if decide (ty = Number) then
    value ← read_number;
    guard_st (negb (in_u32_range value) || negb (fract_is_zero value)) Protocol;;
    mret (as_i32 (F64.as_uint 4294967295 value))
  else if decide (ty = String) then
    len ← read_u16;
    avail ← available_st;
    guard_st (negb ((4 <=? len) && (len <=? MAX_CAPS_BLOB_BYTES)) || (avail <? len)) Amf;;
    cc ← map_err Amf (src_read 4);
    (if zlen cc <? len then drain_st (len - zlen cc) else mret tt);;
    v ← lift (Descriptors.u32_at cc 0);
    mret (as_i32 v)
  else fail Amf.

(** The out parameters [caps] and [mask]. *)
Definition caps_ex_out : Type := CapsExit * Z.
Definition set_caps (m : ST CapsExit unit) : ST caps_ex_out unit := λ '(caps, mask),
  let '(r, caps) := m caps in (r, (caps, mask)).
Definition set_mask (mask : Z) : ST caps_ex_out unit := λ '(caps, _), (Ok tt, (caps, mask)).

Fixpoint caps_ex_keys (fuel : nat) (keys : Z) : ST (S * caps_ex_out) unit :=
  match fuel with
  | O => lift Panic
  | Datatypes.S fuel =>
      fin ← src is_object_end;
      if fin : bool then src (map_err Amf (src_read 3));; out (set_mask CAPS_EX_MASK_SERVER_DEFAULT)
      else
        guard_st (MAX_OBJECT_KEYS <? keys + 1) Amf;;
        '(key, key_len) ← src (read_object_key (zrepeat 0 256));
        key_str ← lift (str_prefix key key_len);
        (if bool_decide (key_str = text "videoCodecId") || bool_decide (key_str = text "videoCodecFourCC") then
           v ← src read_fourcc_number;
           out (set_caps (modify (λ c, c <| cx_video_codec_32 := v |>)))
         else if bool_decide (key_str = text "audioCodecId") || bool_decide (key_str = text "audioCodecFourCC") then
           v ← src read_fourcc_number;
           out (set_caps (modify (λ c, c <| cx_audio_codec_32 := v |>)))
         else src skip_value);;
        caps_ex_keys fuel (keys + 1)
  end.

Definition read_caps_ex_amf : ST (S * caps_ex_out) unit :=
  ty ← src read_type;
  match ty with
  | Number =>
      value ← src read_number;
      guard_st (negb (in_u32_range value) || negb (fract_is_zero value)) Amf;;
      out (set_mask (F64.as_uint 4294967295 value))
  | LongString =>
      data ← src (read_amf_binary_blob ty);
      out (set_caps (caps_exit_parse data));;
      out (set_mask CAPS_EX_MASK_SERVER_DEFAULT)
  | Object =>
      out (set_caps (modify (λ c, c <| cx_version := 1 |>)));;
      caps_ex_keys entries_fuel 0
  | _ => fail Amf
  end.

Definition read_reconnect_amf : ST (S * Reconnect) unit :=
  ty ← src read_type;
  data ← src (read_amf_binary_blob ty);
  out (Descriptors.reconnect_parse data).

End read.

Definition entry_key (entry : bytes) : Res bytes :=
  star ← is_wildcard entry;
  if star : bool then Ok (text "*") else slice entry 0 4.

Fixpoint write_cc_strings (list : FourCcList) : ST Buffer unit :=
  match list with
  | [] => mret tt
  | entry :: list =>
      cc ← lift (entry_key entry);
      write_string (if utf8_valid cc then cc else text "????");;
      write_cc_strings list
  end.

Definition write_four_cc_list_amf (list : FourCcList) : ST Buffer unit :=
  put [marker StrictArray];;
  put (to_be_bytes32 (as_u32 (zlen list)));;
  write_cc_strings list.

Fixpoint write_map_values (map : VideoFourCcInfoMap) : ST Buffer unit :=
  match map with
  | [] => mret tt
  | (entry, mask) :: map =>
      key ← lift (entry_key entry);
      guard_st (negb (utf8_valid key)) Amf;;
      write_object_key key;;
      write_number (F64.of_int mask);;
      write_map_values map
  end.

Definition write_video_fourcc_info_map_amf (map : VideoFourCcInfoMap) : ST Buffer unit :=
  write_object_begin;; write_map_values map;; write_object_end.

Definition write_caps_ex_amf (caps_ex_mask : Z) : ST Buffer unit :=
  write_number (F64.of_int caps_ex_mask).

Definition write_reconnect_amf (rc : Reconnect) : ST Buffer unit :=
  '(n, blob) ← lift (Descriptors.reconnect_write rc (zrepeat 0 8));
  guard_st (negb (n =? 8)) Internal;;
  write_long_string_bytes blob.

Definition write_negotiated_caps (caps : NegotiatedCaps) : ST Buffer unit :=
  (if nc_has_four_cc_list caps && (0 <? zlen (nc_four_cc_list caps)) then
     write_object_key (text "fourCcList");; write_four_cc_list_amf (nc_four_cc_list caps)
   else mret tt);;
  (if nc_has_caps_ex caps then
     write_object_key (text "capsEx");; write_caps_ex_amf (nc_caps_ex_mask caps)
   else mret tt);;
  (if nc_has_video_map caps && (0 <? zlen (nc_video_map caps)) then
     write_object_key (text "videoFourCcInfoMap");;
     write_video_fourcc_info_map_amf (nc_video_map caps)
   else mret tt);;
  (if nc_has_reconnect caps then
     write_object_key (text "reconnect");; write_reconnect_amf (nc_reconnect caps)
   else mret tt).

(** * Negotiation *)

Definition supported_codes : list bytes :=
  [text "avc1"; text "hvc1"; text "av01"; text "vp09"; text "mp4a"; text "Opus"; text "ac-3";
   text "ec-3"; text ".mp3"; text "fLaC"].

Definition four_cc_supported (cc : bytes) : bool :=
  bool_decide (cc = text "*") || bool_decide (cc ∈ supported_codes).

Definition fourcc_entry_bytes (entry : bytes) : Res bytes := entry_key entry.

(** The errors of [fourcc_list_add] are ignored. *)
Fixpoint negotiate_list (offered : FourCcList) (out : FourCcList) : Res FourCcList :=
  match offered with
  | [] => Ok out
  | entry :: offered =>
      cc ← fourcc_entry_bytes entry;
      negotiate_list offered
        (if four_cc_supported cc then snd (fourcc_list_add cc out) else out)
  end.

(** [entries[idx]] is out of the array when sixteen entries are there. *)
Fixpoint negotiate_map (offered : VideoFourCcInfoMap) (out : VideoFourCcInfoMap) : Res VideoFourCcInfoMap :=
  match offered with
  | [] => Ok out
  | (entry, mask) :: offered =>
      cc ← fourcc_entry_bytes entry;
      let negotiated_mask := mask .& FOUR_CC_INFO_CAN_FORWARD in
      if (negotiated_mask =? 0) || negb (four_cc_supported cc) then negotiate_map offered out
      else if MAX_FOURCCS <=? zlen out then Panic
      else
        stored ← (if decide (cc = text "*") then Ok (text "*" ++ zrepeat 0 4)
                  else d ← slice cc 0 4; Ok (d ++ [0]));
        negotiate_map offered (out ++ [(stored, negotiated_mask)])
  end.

Definition negotiate_caps (client : ConnectInfo) : Res NegotiatedCaps :=
  let out := negotiated_default in
  out ← (if ci_has_four_cc_list client then
           l ← negotiate_list (ci_four_cc_list client) [];
           Ok (out <| nc_four_cc_list := l |> <| nc_has_four_cc_list := 0 <? zlen l |>)
         else Ok out);
  let out :=
    if ci_has_caps_ex client then
      let requested := ci_caps_ex_mask client in
      let mask := requested .& CAPS_EX_MASK_SERVER_DEFAULT in
      let mask := if ci_has_reconnect client then mask .| (CAPS_EX_MASK_RECONNECT .& requested) else mask in
      out <| nc_caps_ex_mask := mask |> <| nc_has_caps_ex := true |>
          <| nc_multitrack_enabled := negb (mask .& CAPS_EX_MASK_MULTITRACK =? 0) |>
    else out <| nc_multitrack_enabled := true |> in
  out ← (if ci_has_video_map client then
           m ← negotiate_map (ci_video_map client) [];
           Ok (out <| nc_video_map := m |> <| nc_has_video_map := 0 <? zlen m |>)
         else Ok out);
  Ok (if ci_has_reconnect client then
        out <| nc_reconnect := ci_reconnect client |> <| nc_has_reconnect := true |>
      else out).

(** * Reading, on a buffer as on its bytes *)

#[local] Abbreviation any := (λ _, True).

Lemma sim_blob ty : sim bytes_ok (read_amf_binary_blob ty) (read_amf_binary_blob ty).
Proof.
  eapply (sim_bind (λ n, 0 ≤ n)).
  { destruct ty; try apply sim_fail.
    - eapply sim_weaken; [apply sim_read_u16|]. ulia.
    - eapply sim_weaken; [apply sim_read_u32|]. ulia. }
  intros n Hn. eapply sim_bind; [apply sim_available|]. intros a _.
  eapply (sim_bind any); [by apply sim_guard|]. intros _ _. apply sim_map_err.
  eapply sim_weaken; [by apply sim_read|]. by intros d [].
Qed.

Lemma sim_string_8 : sim (filled 8) (read_string (zrepeat 0 8)) (read_string (zrepeat 0 8)).
Proof. apply (sim_read_string (zrepeat 0 8)), zeros_ok. Qed.

Lemma sim_key_256 : sim (filled 256) (read_object_key (zrepeat 0 256)) (read_object_key (zrepeat 0 256)).
Proof. apply (sim_read_object_key (zrepeat 0 256)), zeros_ok. Qed.

(** What was read into an array. *)
Lemma filled_slice cap key n : filled cap (key, n) → ∃ d, slice key 0 n = Ok d ∧ bytes_ok d.
Proof.
  intros (?&?&?). simpl in *. destruct (slice_bytes key 0 n) as (d&?&?&_); [done|lia..|by exists d].
Qed.

Lemma sim_cc_elements n : sim_out list_ok any (four_cc_elements n) (four_cc_elements n).
Proof.
  induction n as [|n IH]; cbn [four_cc_elements]; [by apply sim_out_ret|].
  eapply sim_out_read; [apply sim_string_8|]. intros [cc k] Hf.
  destruct (filled_slice _ _ _ Hf) as (d&Ed&Hd). destruct Hf as (L&Hcc&_). cbn [fst snd] in *.
  destruct (zidx_byte cc 0 Hcc) as (c0&E0&_); [lia|]. eapply sim_out_lift; [exact E0|].
  eapply (sim_out_bind _ any); [|intros; apply IH]. destruct (_ || _); [|by apply sim_out_ret].
  eapply sim_out_lift; [exact Ed|]. by apply sim_out_out, keeps_list_add.
Qed.

Lemma sim_four_cc_list : sim_out list_ok any read_four_cc_list_amf read_four_cc_list_amf.
Proof.
  eapply (sim_out_store _ _ any); [apply keeps_modify; [intros; apply list_ok_nil|done]|]. intros _ _.
  eapply sim_out_read; [apply sim_read_type|]. intros ty _. destruct ty; try apply sim_out_fail.
  - eapply sim_out_read; [apply sim_read_u32|]. intros n _. apply sim_out_check. intros _. apply sim_cc_elements.
  - eapply sim_out_read; [apply sim_blob|]. intros d Hd.
    eapply sim_out_store; [by apply keeps_list_parse|]. intros. by apply sim_out_ret.
Qed.

Lemma keeps_add_entry key mask : bytes_ok key → is_u32 mask →
  keeps map_ok any (add_video_map_entry key mask).
Proof.
  intros Hk Hm m Hok. unfold add_video_map_entry, get_st, mbind, ST_bind, guard_st.
  destruct (Z.leb_spec MAX_FOURCCS (zlen m)); [done|]. destruct (entry_of key) as [e|] eqn:E; [|done].
  split; [|done]. apply map_ok_snoc; [done|by eapply entry_of_ok|done..].
Qed.

Lemma sim_map_elements n : sim_out map_ok any (video_map_elements n) (video_map_elements n).
Proof.
  induction n as [|n IH]; cbn [video_map_elements]; [by apply sim_out_ret|].
  eapply sim_out_read; [apply sim_string_8|]. intros [cc k] Hf.
  destruct (filled_slice _ _ _ Hf) as (d&Ed&Hd). eapply sim_out_lift; [exact Ed|].
  eapply sim_out_store; [by apply keeps_add_entry|]. intros. apply IH.
Qed.

Lemma as_uint_range max x : 0 ≤ max → 0 ≤ F64.as_uint max x ≤ max.
Proof. intros. unfold F64.as_uint. destruct (F64.is_nan x); lia. Qed.

Lemma sim_map_keys fuel keys : MAX_OBJECT_KEYS - keys < Z.of_nat fuel → 0 ≤ keys ≤ MAX_OBJECT_KEYS →
  sim_out map_ok any (video_map_keys fuel keys) (video_map_keys fuel keys).
Proof.
  revert keys. induction fuel as [|fuel IH]; intros keys Hf Hk; [lia|]. cbn [video_map_keys].
  eapply sim_out_read; [apply sim_is_object_end|]. intros [] _.
  { eapply sim_out_read; [apply sim_map_err, sim_read; lia|]. intros. by apply sim_out_ret. }
  apply sim_out_check. intros ?%Z.ltb_ge. eapply sim_out_read; [apply sim_key_256|]. intros [key n] Hfill.
  eapply sim_out_read; [apply sim_read_type|]. intros ty _. apply sim_out_check. intros _.
  eapply sim_out_read; [apply sim_read_double|]. intros v _. apply sim_out_check. intros _.
  destruct (filled_slice _ _ _ Hfill) as (d&Ed&Hd). eapply sim_out_lift; [exact Ed|].
  eapply sim_out_store; [apply keeps_add_entry; [done|]|].
  - pose proof (as_uint_range 4294967295 v). ulia.
  - intros. apply IH; lia.
Qed.

Lemma sim_video_map :
  sim_out map_ok any read_video_fourcc_info_map_amf read_video_fourcc_info_map_amf.
Proof.
  eapply (sim_out_store _ _ any); [apply keeps_put; [apply map_ok_nil|done]|]. intros _ _.
  eapply sim_out_read; [apply sim_read_type|]. intros ty _. destruct ty; try apply sim_out_fail.
  - by apply sim_map_keys.
  - eapply sim_out_read; [apply sim_read_u32|]. intros. by apply sim_map_keys.
  - eapply sim_out_read; [apply sim_read_u32|]. intros n _. apply sim_out_check. intros _. apply sim_map_elements.
  - eapply sim_out_read; [apply sim_blob|]. intros d Hd.
    eapply sim_out_store; [by apply keeps_map_parse|]. intros. by apply sim_out_ret.
Qed.

Lemma sim_fourcc_number : sim any read_fourcc_number read_fourcc_number.
Proof.
  eapply sim_bind; [apply sim_read_type|]. intros ty _. case_decide; [|case_decide; [|apply sim_fail]].
  - eapply sim_bind; [apply sim_read_double|]. intros v _.
    eapply (sim_bind any); [by apply sim_guard|]. intros. by apply sim_ret.
  - eapply sim_bind; [apply sim_read_u16|]. intros len Hl. eapply sim_bind; [apply sim_available|]. intros a _.
    eapply (sim_bind any); [by apply sim_guard|]. intros _ _.
    eapply sim_bind; [apply sim_map_err, sim_read; lia|]. intros cc [L Hcc].
    eapply (sim_bind any).
    { destruct (Z.ltb_spec (zlen cc) len); [apply sim_drain; lia|by apply sim_ret]. }
    intros _ _. destruct (u32_at_range cc 0 Hcc) as (v&->&_); [lia..|].
    eapply (sim_bind any); [by apply sim_lift|]. intros. by apply sim_ret.
Qed.

(** The mask stays a [u32]. *)
Definition caps_ex_ok (o : caps_ex_out) : Prop := is_u32 (snd o).

Lemma keeps_set_mask mask : is_u32 mask → keeps caps_ex_ok any (set_mask mask).
Proof. by intros H [c k] _. Qed.

Lemma keeps_set_caps m : keeps any any m → keeps caps_ex_ok any (set_caps m).
Proof.
  intros H [c k] Hk. specialize (H c I). unfold set_caps. by destruct (m c) as [r c'], H.
Qed.

Lemma sim_caps_ex_keys fuel keys : MAX_OBJECT_KEYS - keys < Z.of_nat fuel → 0 ≤ keys ≤ MAX_OBJECT_KEYS →
  sim_out caps_ex_ok any (caps_ex_keys fuel keys) (caps_ex_keys fuel keys).
Proof.
  revert keys. induction fuel as [|fuel IH]; intros keys Hf Hk; [lia|]. cbn [caps_ex_keys].
  eapply sim_out_read; [apply sim_is_object_end|]. intros [] _.
  { eapply sim_out_read; [apply sim_map_err, sim_read; lia|]. intros. by apply sim_out_out, keeps_set_mask. }
  apply sim_out_check. intros ?%Z.ltb_ge. eapply sim_out_read; [apply sim_key_256|]. intros [key n] Hfill.
  destruct (filled_slice _ _ _ Hfill) as (d&Ed&Hd).
  eapply sim_out_lift; [unfold str_prefix; rewrite Ed; reflexivity|].
  eapply (sim_out_bind _ any); [|intros; apply IH; lia].
  assert (∀ f, sim_out caps_ex_ok any (v ← src read_fourcc_number; out (set_caps (modify (f v))))
                                      (v ← src read_fourcc_number; out (set_caps (modify (f v))))) as Hnum.
  { intros f. eapply sim_out_read; [apply sim_fourcc_number|]. intros v _.
    by apply sim_out_out, keeps_set_caps, keeps_modify. }
  destruct (_ || _); [apply Hnum|]. destruct (_ || _); [apply Hnum|]. apply sim_out_src, sim_skip_value.
Qed.

Lemma sim_caps_ex : sim_out caps_ex_ok any read_caps_ex_amf read_caps_ex_amf.
Proof.
  eapply sim_out_read; [apply sim_read_type|]. intros ty _. destruct ty; try apply sim_out_fail.
  - eapply sim_out_read; [apply sim_read_double|]. intros v _. apply sim_out_check. intros _.
    apply sim_out_out, keeps_set_mask. pose proof (as_uint_range 4294967295 v). ulia.
  - eapply (sim_out_store _ _ any); [by apply keeps_set_caps, keeps_modify|]. intros _ _.
    by apply sim_caps_ex_keys.
  - eapply sim_out_read; [apply sim_blob|]. intros d Hd.
    eapply (sim_out_store _ _ any); [by apply keeps_set_caps, keeps_caps_exit|].
    intros _ _. by apply sim_out_out, keeps_set_mask.
Qed.

Lemma sim_reconnect I : (∀ r l, is_u32 r → is_u32 l → I (mkReconnect r l)) →
  sim_out I any read_reconnect_amf read_reconnect_amf.
Proof.
  intros HI. eapply sim_out_read; [apply sim_read_type|]. intros ty _.
  eapply sim_out_read; [apply sim_blob|]. intros d Hd. apply sim_out_out.
  apply (keeps_bind _ (λ _, zlen d = 8)); [apply keeps_guard; intros ?%negb_false_iff; lia|]. intros _ L.
  destruct (u32_at_range d 0 Hd) as (r&->&?); [lia..|]. destruct (u32_at_range d 4 Hd) as (l&->&?); [lia..|].
  apply (keeps_bind _ (λ x, x = r)); [by apply keeps_lift|]. intros ? ->.
  apply (keeps_bind _ (λ x, x = l)); [by apply keeps_lift|]. intros ? ->. apply keeps_put; auto.
Qed.

(** * What is negotiated *)

(** The code an entry stands for. *)
Definition code (e : bytes) : bytes :=
  if decide (head e = Some 42) then text "*" else ztake 4 e.

Record connect_ok (c : ConnectInfo) : Prop := {
  co_list : list_ok (ci_four_cc_list c);
  co_map : map_ok (ci_video_map c);
  co_mask : is_u32 (ci_caps_ex_mask c);
  co_reconnect : is_u32 (rc_replay (ci_reconnect c)) ∧ is_u32 (rc_limit (ci_reconnect c));
}.

Lemma entry_key_ok e : entry_ok e → entry_key e = Ok (code e).
Proof.
  intros [L _]. destruct e as [|c e]; [done|]. unfold entry_key, is_wildcard, code. simpl.
  destruct (Z.eqb_spec c 42) as [->|]; [done|]. rewrite decide_False by congruence. by apply slice_prefix; lia.
Qed.

Lemma code_head e : head e ≠ Some 42 → code e = ztake 4 e.
Proof. intros. unfold code. by rewrite decide_False. Qed.

Lemma code_cases e : entry_ok e → code e = text "*"
  ∨ zlen (code e) = 4 ∧ head (code e) ≠ Some 42 ∧ bytes_ok (code e) ∧ code e ≠ text "*".
Proof.
  intros [L Ho]. destruct e as [|c e]; [done|]. unfold code. destruct (decide _) as [|Hc]; [by left|right].
  assert (zlen (ztake 4 (c :: e)) = 4) as L4 by zlia. split_and!; [done|done|by apply Forall_ztake|].
  intros E. by rewrite E in L4.
Qed.

(** What a code is stored as, it is read back from. *)
Lemma code_stored e : entry_ok e → ∃ e', entry_of (code e) = Some e' ∧ code e' = code e ∧ entry_ok e'
  ∧ (if decide (code e = text "*") then Ok (text "*" ++ zrepeat 0 4)
     else d ← slice (code e) 0 4; Ok (d ++ [0])) = Ok e'.
Proof.
  intros He. destruct (code_cases e He) as [-> | (L&Hh&Ho&Hne)].
  { exists (text "*" ++ zrepeat 0 4). repeat (split; [done|]). split; [|done]. split; [done|bytes_lit]. }
  exists (code e ++ [0]). unfold entry_of. rewrite !decide_False by done.
  rewrite L. assert (ztake 4 (code e) = code e) as Et by (by rewrite ztake_all by lia). rewrite Et.
  split; [done|]. split; [|split; [split|]].
  - rewrite (code_head (code e ++ [0])) by (by destruct (code e)). by apply ztake_app_len.
  - by rewrite zlen_app, L.
  - apply Forall_app_2; [done|bytes_lit].
  - by rewrite slice_prefix, Et by lia.
Qed.

(** The codecs the server relays, and the wildcard for any. *)
Definition relayed_codes : list bytes :=
  [text "*"; text ".mp3"; text "Opus"; text "ac-3"; text "av01"; text "avc1"; text "ec-3"; text "fLaC";
   text "hvc1"; text "mp4a"; text "vp09"].

Lemma supported_relayed cc : four_cc_supported cc = bool_decide (cc ∈ relayed_codes).
Proof.
  unfold four_cc_supported, supported_codes, relayed_codes. rewrite <- bool_decide_or.
  apply bool_decide_ext. rewrite !elem_of_cons, !elem_of_nil. tauto.
Qed.

Lemma negotiate_list_exact l out : Forall entry_ok l → list_ok out → zlen l + zlen out ≤ MAX_FOURCCS →
  ∃ out', negotiate_list l out = Ok out' ∧ list_ok out'
    ∧ code <$> out' = (code <$> out) ++ filter (λ cc, cc ∈ relayed_codes) (code <$> l).
Proof.
  intros Hl. revert out. induction Hl as [|e l He Hl IH]; intros out Ho Hn; cbn [negotiate_list].
  { exists out. by rewrite app_nil_r. }
  unfold fourcc_entry_bytes. rewrite entry_key_ok, Ok_bind by done. rewrite fmap_cons, filter_cons.
  rewrite supported_relayed. destruct (decide (code e ∈ relayed_codes)) as [Hr|Hr].
  - rewrite bool_decide_true by done. destruct (code_stored e He) as (e'&E&Ec&He'&_).
    assert (fourcc_list_add (code e) out = (Ok tt, out ++ [e'])) as ->.
    { unfold fourcc_list_add, get_st, mbind, ST_bind. rewrite (proj2 (Z.leb_gt _ _)) by zlia. by rewrite E. }
    cbn [snd]. destruct (IH (out ++ [e'])) as (out'&->&?&Hc); [apply list_ok_snoc; [done..|zlia]|zlia|].
    exists out'. split_and!; [done..|]. by rewrite Hc, fmap_app, <- app_assoc, <- Ec.
  - rewrite bool_decide_false by done. apply IH; [done|zlia].
Qed.

Definition forwards (p : bytes * Z) : Prop := Z.testbit (snd p) 2 = true ∧ fst p ∈ relayed_codes.

Lemma forward_mask mask : mask .& FOUR_CC_INFO_CAN_FORWARD = if Z.testbit mask 2 then 4 else 0.
Proof. change FOUR_CC_INFO_CAN_FORWARD with (2 ^ 2). rewrite land_pow2 by lia. by destruct (Z.testbit mask 2). Qed.

Lemma negotiate_map_exact l out : Forall (λ '(e, mask), entry_ok e ∧ is_u32 mask) l → map_ok out →
  zlen l + zlen out ≤ MAX_FOURCCS →
  ∃ out', negotiate_map l out = Ok out' ∧ map_ok out'
    ∧ prod_map code id <$> out' = (prod_map code id <$> out)
        ++ ((λ p, (fst p, 4)) <$> filter forwards (prod_map code id <$> l)).
Proof.
  intros Hl. revert out. induction Hl as [|[e mask] l [He Hm] Hl IH]; intros out Ho Hn; cbn [negotiate_map].
  { exists out. by rewrite app_nil_r. }
  unfold fourcc_entry_bytes. rewrite entry_key_ok, Ok_bind by done. cbv zeta. rewrite forward_mask.
  rewrite fmap_cons. destruct (Z.testbit mask 2) eqn:Em.
  2:{ rewrite filter_cons_False by (intros [??]; cbn in *; congruence). apply IH; [done|zlia]. }
  rewrite supported_relayed. destruct (bool_decide_reflect (code e ∈ relayed_codes)); cbn [negb orb Z.eqb].
  2:{ rewrite filter_cons_False by (intros [??]; cbn in *; congruence). apply IH; [done|zlia]. }
  rewrite filter_cons_True by (split; done).
  rewrite (proj2 (Z.leb_gt _ _)) by zlia.
  destruct (code_stored e He) as (e'&_&Ec&He'&->). rewrite Ok_bind.
  destruct (IH (out ++ [(e', 4)])) as (out'&->&?&Hc); [apply map_ok_snoc; [done..|zlia]|zlia|].
  exists out'. split_and!; [done..|]. rewrite Hc, fmap_app, <- app_assoc. simpl. by rewrite <- Ec.
Qed.

Lemma server_mask requested i : 0 ≤ i →
  Z.testbit (requested .& CAPS_EX_MASK_SERVER_DEFAULT) i = Z.testbit requested i && (1 <=? i) && (i <=? 3).
Proof.
  intros Hi. rewrite Z.land_spec. change CAPS_EX_MASK_SERVER_DEFAULT with 14.
  destruct (Z.leb_spec i 3).
  - assert (i = 0 ∨ i = 1 ∨ i = 2 ∨ i = 3) as Hc by lia.
    destruct Hc as [-> | [-> | [-> | ->]]]; by rewrite <- andb_assoc.
  - rewrite (Z.bits_above_log2 14 i) by (simpl; lia). rewrite !andb_false_r. done.
Qed.

Lemma reconnect_mask requested i : 0 ≤ i →
  Z.testbit (CAPS_EX_MASK_RECONNECT .& requested) i = Z.testbit requested i && (i =? 0).
Proof.
  intros Hi. rewrite Z.land_spec, andb_comm. f_equal.
Qed.

Lemma multitrack_bit mask : negb (mask .& CAPS_EX_MASK_MULTITRACK =? 0) = Z.testbit mask 1.
Proof.
  change CAPS_EX_MASK_MULTITRACK with (2 ^ 1). rewrite land_pow2 by lia. by destruct (Z.testbit mask 1).
Qed.

(** What a server answers: the offered codes it relays, in the offered order; the
    forwarding bit of the offered map; of the offered capability bits 1 to 3
    (multitrack, ModEx and nanosecond timestamps), and bit 0 (reconnect) when the
    client described one; the client's reconnect; and multitrack enabled for a
    client that offered it or sent no capability bits at all. *)
Record negotiated (c : ConnectInfo) (o : NegotiatedCaps) : Prop := {
  ng_list : code <$> nc_four_cc_list o =
    if ci_has_four_cc_list c then
      filter (λ cc, cc ∈ relayed_codes) (code <$> ci_four_cc_list c) else [];
  ng_has_list : nc_has_four_cc_list o = bool_decide (nc_four_cc_list o ≠ []);
  ng_map : prod_map code id <$> nc_video_map o =
    if ci_has_video_map c then
      (λ p, (fst p, 4)) <$> filter forwards (prod_map code id <$> ci_video_map c) else [];
  ng_has_map : nc_has_video_map o = bool_decide (nc_video_map o ≠ []);
  ng_mask : ∀ i, 0 ≤ i → Z.testbit (nc_caps_ex_mask o) i =
    ci_has_caps_ex c && Z.testbit (ci_caps_ex_mask c) i
    && (((1 <=? i) && (i <=? 3)) || (ci_has_reconnect c && (i =? 0)));
  ng_has_caps : nc_has_caps_ex o = ci_has_caps_ex c;
  ng_multitrack : nc_multitrack_enabled o = negb (ci_has_caps_ex c) || Z.testbit (ci_caps_ex_mask c) 1;
  ng_reconnect : nc_reconnect o = if ci_has_reconnect c then ci_reconnect c else mkReconnect 0 0;
  ng_has_reconnect : nc_has_reconnect o = ci_has_reconnect c;
}.

Record negotiated_ok (o : NegotiatedCaps) : Prop := {
  no_list : list_ok (nc_four_cc_list o);
  no_map : map_ok (nc_video_map o);
  no_mask : is_u32 (nc_caps_ex_mask o);
  no_reconnect : is_u32 (rc_replay (nc_reconnect o)) ∧ is_u32 (rc_limit (nc_reconnect o));
}.

Lemma nonempty_len {A} (l : list A) : (0 <? zlen l) = bool_decide (l ≠ []).
Proof. destruct l; [done|]. rewrite bool_decide_true by done. apply Z.ltb_lt. zlia. Qed.

Lemma land_u32 a b : is_u32 a → 0 ≤ b → is_u32 (a .& b).
Proof.
  intros [Ha1 Ha2] Hb. split; [by apply Z.land_nonneg; left|].
  destruct (Z.eqb_spec a 0) as [->|]; [done|]. destruct (Z.eqb_spec (a .& b) 0) as [->|]; [done|].
  pose proof (Z.land_nonneg a b). pose proof (Z.log2_land a b Ha1 Hb).
  assert (Z.log2 a < 32) by (apply Z.log2_lt_pow2; eval_pow2; lia).
  change 4294967296 with (2 ^ 32). apply Z.log2_lt_pow2; lia.
Qed.

Lemma granted_mask requested : is_u32 requested →
  let m := requested .& CAPS_EX_MASK_SERVER_DEFAULT in
  let m' := m .| (CAPS_EX_MASK_RECONNECT .& requested) in
  is_u32 m ∧ is_u32 m'
  ∧ (∀ i, 0 ≤ i → Z.testbit m i = Z.testbit requested i && ((1 <=? i) && (i <=? 3)))
  ∧ (∀ i, 0 ≤ i → Z.testbit m' i = Z.testbit requested i && (((1 <=? i) && (i <=? 3)) || (i =? 0))).
Proof.
  intros Hr m m'.
  assert (∀ i, 0 ≤ i → Z.testbit m i = Z.testbit requested i && ((1 <=? i) && (i <=? 3))) as Em.
  { intros i Hi. unfold m. by rewrite server_mask, andb_assoc. }
  assert (∀ i, 0 ≤ i → Z.testbit m' i = Z.testbit requested i && (((1 <=? i) && (i <=? 3)) || (i =? 0))) as Em'.
  { intros i Hi. unfold m'. by rewrite Z.lor_spec, Em, reconnect_mask, andb_orb_distrib_r by done. }
  split; [by apply land_u32|]. split; [|done].
  unfold m', m. rewrite (Z.land_comm CAPS_EX_MASK_RECONNECT), <- Z.land_lor_distr_r. by apply land_u32.
Qed.

Lemma negotiate_caps_spec c : connect_ok c →
  ∃ o, negotiate_caps c = Ok o ∧ negotiated_ok o ∧ negotiated c o.
Proof.
  intros [[Hn Hl] [Hn' Hm] Hk Hr].
  destruct (negotiate_list_exact _ [] Hl list_ok_nil) as (l&El&Ol&Cl); [zlia|].
  destruct (negotiate_map_exact _ [] Hm map_ok_nil) as (m&Em&Om&Cm); [zlia|].
  destruct (granted_mask _ Hk) as (M1&M2&M3&M4).
  simpl in Cl, Cm. unfold negotiate_caps. rewrite El, Em.
  pose proof list_ok_nil. pose proof map_ok_nil.
  destruct (ci_has_four_cc_list c) eqn:E1, (ci_has_caps_ex c) eqn:E2, (ci_has_video_map c) eqn:E3,
    (ci_has_reconnect c) eqn:E4; (eexists; split; [reflexivity|split; split; cbn -[Z.testbit]]);
    rewrite ?nonempty_len, ?E1, ?E2, ?E3, ?E4, ?multitrack_bit, ?M3, ?M4 by lia; try done;
    try (by rewrite andb_true_r); intros i Hi; rewrite ?M3, ?M4, ?Z.testbit_0_l by done; by rewrite ?orb_false_r.
Qed.

(** C27. On a well-formed connect request the negotiation does not panic, and its
    result is exactly [negotiated]: of the codecs, the forwarding bits and the
    capability bits, nothing is granted that was not offered or that the server
    does not implement, and nothing it could grant is lost or reordered. The one
    thing enabled without an offer is multitrack, for a client that sent no
    capability bits; one that sent them gets it only if it offered it. *)
Theorem negotiate_caps_exact c : connect_ok c →
  ∃ o, negotiate_caps c = Ok o ∧ negotiated_ok o ∧ negotiated c o.
Proof. apply negotiate_caps_spec. Qed.

(** A client that offers two codes, of which the server knows one. *)
Definition sample_offer : ConnectInfo :=
  connect_info_default
    <| ci_four_cc_list := [text "avc1" ++ [0]; text "zzzz" ++ [0]] |> <| ci_has_four_cc_list := true |>
    <| ci_video_map := [(text "*" ++ zrepeat 0 4, 7)] |> <| ci_has_video_map := true |>
    <| ci_caps_ex_mask := 19 |> <| ci_has_caps_ex := true |>.

Lemma negotiate_caps_exact_witness : connect_ok sample_offer
  ∧ ∃ o, negotiate_caps sample_offer = Ok o ∧ negotiated_ok o ∧ negotiated sample_offer o.
Proof.
  assert (connect_ok sample_offer) as H.
  { split; [split; [done|]|split; [done|]|done|done].
    - repeat constructor; (done || unfold is_u8; simpl; lia).
    - repeat constructor; (done || unfold is_u8; simpl; lia). }
  split; [exact H|]. exact (negotiate_caps_exact sample_offer H).
Defined.

End ConnectAmf.
