(* ===== verification/Command.v ===== *)
(** RTMP commands (src/message/command.rs): building and reading the AMF0
    command messages of a session, and the decoding of routing keys. *)
From S2P Require Import Prelude Bytes Types F64 Buffer Source Amf0 Ertmp Caps.
#[local] Set Warnings "-clear-no-such-hyp".

Module Command.
Import Amf0 ConnectAmf.

Definition MAX_CONNECT_OBJECT_KEYS : Z := 256.

(** The [f64] constants of the encoder. *)
Definition F0 : Z := F64.of_int 0.
Definition F1 : Z := F64.of_int 1.
Definition F2 : Z := F64.of_int 2.

(** * Encoder *)

Definition key_string (key value : bytes) : ST Buffer unit := write_object_key key;; write_string value.

Definition chk (m : ST Buffer unit) : ST Buffer unit := map_err Internal m.

Definition optional_field (key value : bytes) : ST Buffer unit :=
  if decide (value = []) then mret tt else chk (write_object_key key);; chk (write_string value).

Definition build_connect (app tc_url page_url swf_url flash_ver : bytes)
    (audio_codecs video_codecs : Z) (caps : option NegotiatedCaps) : ST Buffer unit :=
  chk (write_string (text "connect"));;
  chk (write_number F1);;
  chk write_object_begin;;
  chk (write_object_key (text "app"));; chk (write_string app);;
  chk (write_object_key (text "type"));; chk (write_string (text "nonprivate"));;
  chk (write_object_key (text "tcUrl"));; chk (write_string tc_url);;
  optional_field (text "pageUrl") page_url;;
  optional_field (text "swfUrl") swf_url;;
  optional_field (text "flashVer") flash_ver;;
  chk (write_object_key (text "audioCodecs"));; chk (write_number (F64.of_signed audio_codecs));;
  chk (write_object_key (text "videoCodecs"));; chk (write_number (F64.of_signed video_codecs));;
  match caps with Some caps => write_negotiated_caps caps | None => mret tt end;;
  chk write_object_end.

(** The name, the transaction id and the null command object. *)
Definition build_header (name : bytes) (transaction_id : Z) : ST Buffer unit :=
  write_string name;; write_number transaction_id;; write_null.

Definition build_error (transaction_id : Z) (code description : bytes) : ST Buffer unit :=
  build_header (text "_error") transaction_id;;
  write_object_begin;;
  key_string (text "level") (text "error");;
  key_string (text "code") code;;
  key_string (text "description") description;;
  write_object_end.

Definition build_release_stream (stream_name : bytes) : ST Buffer unit :=
  build_header (text "releaseStream") F2;; write_string stream_name.

Definition build_create_stream (transaction_id : Z) : ST Buffer unit :=
  build_header (text "createStream") transaction_id.

Definition build_publish (stream_name publish_type : bytes) : ST Buffer unit :=
  build_header (text "publish") F0;;
  write_string stream_name;;
  if decide (publish_type = []) then mret tt else write_string publish_type.

Definition build_play (stream_name : bytes) : ST Buffer unit :=
  build_header (text "play") F0;; write_string stream_name.

Definition build_fcpublish (stream_name : bytes) : ST Buffer unit :=
  build_header (text "FCPublish") F0;; write_string stream_name.

Definition build_fcunpublish (stream_name : bytes) : ST Buffer unit :=
  build_header (text "FCUnpublish") F0;; write_string stream_name.

Definition build_deletestream (transaction_id stream_id : Z) : ST Buffer unit :=
  build_header (text "deleteStream") transaction_id;; write_number (F64.of_int stream_id).

Definition build_create_stream_result (transaction_id stream_id : Z) : ST Buffer unit :=
  build_header (text "_result") transaction_id;; write_number stream_id.

Definition build_onstatus (level code description : bytes) : ST Buffer unit :=
  build_header (text "onStatus") F0;;
  write_object_begin;;
  key_string (text "level") level;;
  key_string (text "code") code;;
  key_string (text "description") description;;
  write_object_end.

Definition RECONNECT_REQUEST_CODE : bytes := text "NetConnection.Connect.ReconnectRequest".

Definition build_reconnect_request (tc_url description : option bytes) : ST Buffer unit :=
  build_header (text "onStatus") F0;;
  write_object_begin;;
  key_string (text "level") (text "status");;
  key_string (text "code") RECONNECT_REQUEST_CODE;;
  key_string (text "description") (default (text "Reconnect requested") description);;
  match tc_url with Some url => key_string (text "tcUrl") url | None => mret tt end;;
  write_object_end.

Definition build_pause (pause : bool) : ST Buffer unit :=
  build_header (text "pause") F0;; write_boolean pause.

Definition build_seek (millis : Z) : ST Buffer unit :=
  build_header (text "seek") F0;; write_number millis.

(** * Decoder *)
Section read.
Context {S : Type} `{Source S}.

Definition read_number_value : ST S Z :=
  ty ← read_type;
  guard_st (negb (bool_decide (ty = Number))) Amf;;
  read_number.

Definition read_bool_value : ST S bool :=
  ty ← read_type;
  match ty with
  | Boolean => read_boolean
  | Number => n ← read_number; mret (negb (F64.is_zero n))
  | _ => fail Amf
  end.

(** [read_string_checked]: the array is filled in before a NUL is rejected. *)
Definition read_string_checked : ST (S * bytes) unit :=
  byte ← src (map_err Amf (src_read 1));
  b0 ← lift (zidx byte 0);
  guard_st (negb (b0 =? marker String)) Amf;;
  lb ← src (map_err Amf (src_read 2));
  l0 ← lift (zidx lb 0); l1 ← lift (zidx lb 1);
  let slen := (Z.shiftl l0 8) .| l1 in
  avail ← src available_st;
  guard_st (avail <? slen) Io;;
  a ← out get_st;
  if zlen a =? 0 then src (drain_st slen)
  else if zlen a <=? slen then src (drain_st slen);; fail Amf
  else
    d ← src (map_err Amf (src_read slen));
    filled ← lift (copy_at a 0 d);
    out (put_st filled);;
    guard_st (bool_decide (0 ∈ d)) Amf;;
    ended ← lift (copy_at filled slen [0]);
    out (put_st ended).

Definition peek_name (array : bytes) : ST S (bytes * Z) := rewound (read_string array).

(** The arguments every command starts with: the name, the transaction id and
    the command object. *)
Definition command_header : ST S Z :=
  read_string (zrepeat 0 64);;
  txn ← read_number_value;
  skip_value;;
  mret txn.

(** A capability value that does not parse is skipped; what it stored stays. *)
Definition or_skip {O} (m : ST (S * O) unit) : ST (S * O) unit := λ '(s, o),
  match m (s, o) with
  | (Err _, (s', o')) => src skip_value (src_rewind s s', o')
  | r => r
  end.

Definition ertmp_field (key : bytes) : option (ST (S * ConnectInfo) unit) :=
  if decide (key = text "fourCcList") then
    Some (zoom ci_four_cc_list (λ l i, i <| ci_four_cc_list := l |>) read_four_cc_list_amf;;
          out (modify (λ i, i <| ci_has_four_cc_list := true |>)))
  else if decide (key = text "capsEx") then
    Some (zoom (λ i, (ci_caps_ex i, ci_caps_ex_mask i))
               (λ o i, i <| ci_caps_ex := fst o |> <| ci_caps_ex_mask := snd o |>) read_caps_ex_amf;;
          out (modify (λ i, i <| ci_has_caps_ex := true |>)))
  else if decide (key = text "videoFourCcInfoMap") then
    Some (zoom ci_video_map (λ m i, i <| ci_video_map := m |>) read_video_fourcc_info_map_amf;;
          out (modify (λ i, i <| ci_has_video_map := true |>)))
  else if decide (key = text "reconnect") then
    Some (zoom ci_reconnect (λ r i, i <| ci_reconnect := r |>) read_reconnect_amf;;
          out (modify (λ i, i <| ci_has_reconnect := true |>)))
  else None.

Definition read_connect_ertmp_field (key : bytes) : ST (S * ConnectInfo) bool :=
  match ertmp_field key with
  | Some m => or_skip m;; mret true
  | None => mret false
  end.

Definition string_field (key : bytes) : ST (S * ConnectInfo) unit :=
  if decide (key = text "app") then
    zoom ci_app (λ a i, i <| ci_app := a |>) read_string_checked
  else if decide (key = text "tcUrl") then
    zoom ci_tc_url (λ a i, i <| ci_tc_url := a |>) read_string_checked
  else if decide (key = text "pageUrl") then
    zoom ci_page_url (λ a i, i <| ci_page_url := a |>) read_string_checked
  else if decide (key = text "swfUrl") then
    zoom ci_swf_url (λ a i, i <| ci_swf_url := a |>) read_string_checked
  else if decide (key = text "flashVer") then
    zoom ci_flash_ver (λ a i, i <| ci_flash_ver := a |>) read_string_checked
  else src skip_value.

Definition as_i32_sat (x : Z) : Z := F64.as_int (-2147483648) 2147483647 x.

(** The value returned is [object_encoding]. *)
Definition read_connect_plain_field (key : bytes) (object_encoding : Z) : ST (S * ConnectInfo) Z :=
  value_type ← src (unread_if (λ _, true) read_type);
  match value_type with
  | String => string_field key;; mret object_encoding
  | Number =>
      value ← src read_number_value;
      if decide (key = text "audioCodecs") then
        out (modify (λ i, i <| ci_audio_codecs := as_i32_sat value |>));; mret object_encoding
      else if decide (key = text "videoCodecs") then
        out (modify (λ i, i <| ci_video_codecs := as_i32_sat value |>));; mret object_encoding
      else if decide (key = text "objectEncoding") then mret value
      else mret object_encoding
  | _ => src skip_value;; mret object_encoding
  end.

(** The loop over the connect object: it leaves after at most
    [MAX_CONNECT_OBJECT_KEYS + 1] turns. *)
Fixpoint connect_keys (fuel : nat) (keys object_encoding : Z) : ST (S * ConnectInfo) Z :=
  match fuel with
  | O => lift Panic
  | Datatypes.S fuel =>
      fin ← src is_object_end;
      if fin : bool then src (map_err Amf (src_read 3));; mret object_encoding
      else
        guard_st (MAX_CONNECT_OBJECT_KEYS <=? keys) Amf;;
        '(key, key_len) ← src (read_object_key (zrepeat 0 256));
        key_str ← lift (str_prefix key key_len);
        done ← read_connect_ertmp_field key_str;
        object_encoding ← (if done : bool then mret object_encoding
                           else read_connect_plain_field key_str object_encoding);
        connect_keys fuel (keys + 1) object_encoding
  end.

Definition read_connect_with_encoding : ST (S * ConnectInfo) Z :=
  out (put_st connect_info_default);;
  '(name, name_len) ← src (read_string (zrepeat 0 64));
  d ← lift (slice name 0 name_len);
  stored ← lift (copy_at (ci_name connect_info_default) 0 d);
  out (modify (λ i, i <| ci_name := stored |>));;
  txn ← src read_number_value;
  out (modify (λ i, i <| ci_transaction_id := txn |>));;
  src read_object_begin;;
  connect_keys entries_fuel 0 0.

Definition read_connect : ST (S * ConnectInfo) unit := read_connect_with_encoding;; mret tt.

Definition read_create_stream_partial : ST (S * option Z) unit :=
  src (read_string (zrepeat 0 64));;
  txn ← src read_number_value;
  out (put_st (Some txn));;
  src skip_value.

Definition read_create_stream : ST S Z :=
  '(r, transaction_id) ← with_out read_create_stream_partial None;
  lift r;; mret (default 0 transaction_id).

(** The out parameters [stream_name] and [publish_type]. *)
Definition read_publish : ST (S * (bytes * bytes)) unit :=
  src command_header;;
  zoom fst (λ a o, (a, snd o)) read_string_checked;;
  avail ← src available_st;
  if 0 <? avail then ignore (zoom snd (λ a o, (fst o, a)) read_string_checked)
  else mret tt.

Definition read_play : ST (S * bytes) unit := src command_header;; read_string_checked.

Definition read_release_stream : ST (S * bytes) unit := src command_header;; read_string_checked.

Definition read_pause : ST S bool := command_header;; read_bool_value.

Definition read_seek : ST S Z := command_header;; read_number_value.

Definition read_bool_command : ST S bool := command_header;; read_bool_value.

Definition read_close_stream : ST S (option Z) :=
  command_header;;
  avail ← available_st;
  if avail =? 0 then mret None
  else
    ty ← unread_if (λ ty, negb (bool_decide (ty = Number))) read_type;
    if decide (ty = Number) then n ← read_number; mret (Some (F64.as_uint 4294967295 n))
    else mret None.

(** The fields of the answer a key names. *)
Definition result_field (key : bytes) : option (ST (S * NegotiatedCaps) unit) :=
  if decide (key = text "fourCcList") then
    Some (zoom nc_four_cc_list (λ l i, i <| nc_four_cc_list := l |>) read_four_cc_list_amf;;
          out (modify (λ i, i <| nc_has_four_cc_list := true |>)))
  else if decide (key = text "capsEx") then
    Some (zoom (λ i, (nc_caps_ex i, nc_caps_ex_mask i))
               (λ o i, i <| nc_caps_ex := fst o |> <| nc_caps_ex_mask := snd o |>) read_caps_ex_amf;;
          out (modify (λ i, i <| nc_has_caps_ex := true |>
            <| nc_multitrack_enabled := negb (nc_caps_ex_mask i .& CAPS_EX_MASK_MULTITRACK =? 0) |>)))
  else if decide (key = text "videoFourCcInfoMap") then
    Some (zoom nc_video_map (λ m i, i <| nc_video_map := m |>) read_video_fourcc_info_map_amf;;
          out (modify (λ i, i <| nc_has_video_map := true |>)))
  else if decide (key = text "reconnect") then
    Some (zoom nc_reconnect (λ r i, i <| nc_reconnect := r |>) read_reconnect_amf;;
          out (modify (λ i, i <| nc_has_reconnect := true |>)))
  else None.

Fixpoint result_keys (fuel : nat) (keys : Z) : ST (S * NegotiatedCaps) unit :=
  match fuel with
  | O => lift Panic
  | Datatypes.S fuel =>
      fin ← src is_object_end;
      if fin : bool then src (map_err Amf (src_read 3));; mret tt
      else
        guard_st (MAX_OBJECT_KEYS <? keys + 1) Amf;;
        '(key, key_len) ← src (read_object_key (zrepeat 0 256));
        key_str ← lift (str_prefix key key_len);
        match result_field key_str with
        | Some m => or_skip m
        | None => src skip_value
        end;;
        result_keys fuel (keys + 1)
  end.

Definition parse_connect_result_caps : ST (S * NegotiatedCaps) unit :=
  ty ← src (unread_if (λ ty, negb (bool_decide (ty = Object))) read_type);
  if decide (ty = Object) then result_keys entries_fuel 0
  else src skip_value;; mret tt.

(** [read_connect_result_with_caps(buf, Some(caps))] and [(buf, None)]. *)
Definition read_connect_result_with_caps : ST (S * NegotiatedCaps) Z :=
  out (put_st negotiated_default);;
  txn ← src command_header;
  parse_connect_result_caps;;
  mret txn.

Definition read_connect_result : ST S Z :=
  txn ← command_header;
  skip_value;;
  mret txn.

Definition read_create_stream_result : ST S (Z * Z) :=
  txn ← command_header;
  stream_id ← read_number_value;
  mret (txn, stream_id).

(** The loop of [read_onstatus]: [level] and [code] with their lengths. *)
Fixpoint onstatus_keys (fuel : nat) (keys : Z) (level code : bytes * Z)
    : ST S ((bytes * Z) * (bytes * Z)) :=
  match fuel with
  | O => lift Panic
  | Datatypes.S fuel =>
      fin ← is_object_end;
      if fin : bool then map_err Amf (src_read 3);; mret (level, code)
      else
        guard_st (MAX_OBJECT_KEYS <? keys + 1) Amf;;
        '(key, key_len) ← read_object_key (zrepeat 0 256);
        key_str ← lift (str_prefix key key_len);
        if decide (key_str = text "level") then
          level ← read_string (fst level); onstatus_keys fuel (keys + 1) level code
        else if decide (key_str = text "code") then
          code ← read_string (fst code); onstatus_keys fuel (keys + 1) level code
        else skip_value;; onstatus_keys fuel (keys + 1) level code
  end.

Definition read_onstatus (expected_code : bytes) : ST S bool :=
  command_header;;
  read_object_begin;;
  '(level, code) ← onstatus_keys entries_fuel 0 (zrepeat 0 32, 0) (zrepeat 0 128, 0);
  level_str ← lift (str_prefix (fst level) (snd level));
  guard_st (negb (bool_decide (level_str = text "status"))) Auth;;
  code_str ← lift (str_prefix (fst code) (snd code));
  mret (bool_decide (code_str = expected_code)).

Record ReconnectRequest : Type := mkReconnectRequest {
  rr_tc_url : option bytes;
  rr_description : option bytes;
}.

Fixpoint reconnect_keys (fuel : nat) (keys : Z) (code : bytes * Z) (description tc_url : option bytes)
    : ST S ((bytes * Z) * option bytes * option bytes) :=
  match fuel with
  | O => lift Panic
  | Datatypes.S fuel =>
      fin ← is_object_end;
      if fin : bool then map_err Amf (src_read 3);; mret (code, description, tc_url)
      else
        guard_st (MAX_OBJECT_KEYS <? keys + 1) Amf;;
        '(key, key_len) ← read_object_key (zrepeat 0 256);
        key_str ← lift (str_prefix key key_len);
        if decide (key_str = text "code") then
          code ← read_string (fst code); reconnect_keys fuel (keys + 1) code description tc_url
        else if decide (key_str = text "description") then
          d ← read_string_alloc; reconnect_keys fuel (keys + 1) code (Some d) tc_url
        else if decide (key_str = text "tcUrl") then
          u ← read_string_alloc; reconnect_keys fuel (keys + 1) code description (Some u)
        else skip_value;; reconnect_keys fuel (keys + 1) code description tc_url
  end.

(** [o.filter(|s| !s.is_empty())]. *)
Definition nonempty (o : option bytes) : option bytes :=
  match o with Some (_ :: _) => o | _ => None end.

Definition read_reconnect_request : ST S (option ReconnectRequest) :=
  '(name, name_len) ← read_string (zrepeat 0 64);
  name_str ← lift (slice name 0 name_len);
  guard_st (negb (bool_decide (name_str = text "onStatus"))) Amf;;
  read_number_value;;
  skip_value;;
  read_object_begin;;
  '(code, description, tc_url) ← reconnect_keys entries_fuel 0 (zrepeat 0 128, 0) None None;
  code_str ← lift (slice (fst code) 0 (snd code));
  if decide (code_str = RECONNECT_REQUEST_CODE) then
    mret (Some (mkReconnectRequest (nonempty tc_url) (nonempty description)))
  else mret None.

End read.

(** [decode_route_amf_string]. *)
Definition decode_route_amf_string (array : bytes) : Res bytes :=
  let len := default (zlen array) (Descriptors.position_zero array) in
  value ← slice array 0 len;
  if utf8_valid value then Ok value else Err Amf.

(** * Reading, on a buffer as on its bytes *)

#[local] Abbreviation any := (λ _, True).

Lemma sim_number_value : sim is_u64 read_number_value read_number_value.
Proof.
  eapply sim_bind; [apply sim_read_type|]. intros ty _.
  eapply (sim_bind any); [by apply sim_guard|]. intros _ _. apply sim_read_double.
Qed.

Lemma sim_boolean : sim any read_boolean read_boolean.
Proof. eapply sim_bind; [apply sim_read_u8|]. intros. by apply sim_ret. Qed.

Lemma sim_bool_value : sim any read_bool_value read_bool_value.
Proof.
  eapply sim_bind; [apply sim_read_type|]. intros ty _. destruct ty; try apply sim_fail; [|apply sim_boolean].
  eapply sim_bind; [apply sim_read_double|]. intros. by apply sim_ret.
Qed.

Lemma sim_string_64 : sim (filled 64) (read_string (zrepeat 0 64)) (read_string (zrepeat 0 64)).
Proof. apply (sim_read_string (zrepeat 0 64)), zeros_ok. Qed.

Lemma sim_command_header : sim is_u64 command_header command_header.
Proof.
  eapply sim_bind; [apply sim_string_64|]. intros _ _. eapply sim_bind; [apply sim_number_value|]. intros n Hn.
  eapply sim_bind; [apply sim_skip_value|]. intros. by apply sim_ret.
Qed.

Lemma sim_object_begin : sim any read_object_begin read_object_begin.
Proof. eapply sim_bind; [apply sim_read_u8|]. intros. by apply sim_guard. Qed.

Lemma lor_shl8 a b : is_u8 b → (Z.shiftl a 8) .| b = a * 256 + b.
Proof. intros. rewrite lor_shiftl_add by (eval_pow2; ulia). done. Qed.

Lemma sim_string_checked cap : 0 ≤ cap →
  sim_out (is_array cap) any read_string_checked read_string_checked.
Proof.
  intros Hcap. eapply sim_out_read; [apply sim_map_err, sim_read; lia|]. intros d [L Ho].
  destruct (zidx_byte d 0 Ho) as (b0&E0&_); [lia|]. eapply sim_out_lift; [exact E0|].
  apply sim_out_check. intros _.
  eapply sim_out_read; [apply sim_map_err, sim_read; lia|]. intros lb [L' Ho'].
  destruct (zidx_byte lb 0 Ho') as (l0&E1&?); [lia|]. destruct (zidx_byte lb 1 Ho') as (l1&E2&?); [lia|].
  eapply sim_out_lift; [exact E1|]. eapply sim_out_lift; [exact E2|]. cbv zeta. rewrite lor_shl8 by done.
  set (n := l0 * 256 + l1). assert (0 ≤ n) by ulia.
  eapply sim_out_read; [apply sim_available|]. intros av _. apply sim_out_check. intros _.
  eapply sim_out_store; [apply keeps_get|]. intros a [La Ha].
  destruct (Z.eqb_spec (zlen a) 0); [by apply sim_out_src, sim_drain|].
  destruct (Z.leb_spec (zlen a) n).
  { eapply sim_out_read; [by apply sim_drain|]. intros. apply sim_out_fail. }
  eapply sim_out_read; [apply sim_map_err, sim_read; lia|]. intros s [Ls Hs].
  destruct (copy_at_bytes a 0 s Ha Hs) as (o1&C1&L1&O1); [lia..|]. eapply sim_out_lift; [exact C1|].
  eapply (sim_out_store _ _ any); [apply keeps_put; [split; congruence|done]|]. intros _ _.
  apply sim_out_check. intros _.
  destruct (copy_at_bytes o1 n [0] O1) as (o2&C2&L2&O2); [bytes_lit|lia|change (zlen [0]) with 1; lia|].
  eapply sim_out_lift; [exact C2|]. apply sim_out_out, keeps_put; [split; congruence|done].
Qed.

Lemma sim_or_skip {O} (I : O → Prop) m p : sim_out I any m p → sim_out I any (or_skip m) (or_skip p).
Proof.
  rewrite !sim_out_iff. intros H b o Hb Ho Hi. unfold or_skip.
  destruct (H b o Hb Ho Hi) as (r&b'&o'&->&->&Ha&Hb'&Hi'&Hr). destruct r as [a|e|]; [by exists (Ok a), b', o'| |done].
  destruct (rewind_advanced b b' Hb Ha) as [Ec Har].
  pose proof (sim_skip_value (src_rewind b b') (proj1 (adv_after _ _ Har))) as Hs.
  rewrite Ec in Hs. specialize (Hs Ho). unfold src.
  change (src_rewind (Buffer.contents b) (Buffer.contents b')) with (Buffer.contents b).
  destruct (skip_value (Buffer.contents b)) as [r l]. destruct Hs as (b2&->&?&<-&?&?).
  exists r, b2, o'. split_and!; eauto using advanced_trans.
Qed.

Lemma sim_out_set {O} (I : O → Prop) f (m : ST (Buffer * O) unit) (p : ST (bytes * O) unit) :
  (∀ o, I o → I (f o)) → sim_out I any m p →
  sim_out I any (m;; out (modify f)) (p;; out (modify f)).
Proof. intros Hf H. eapply sim_out_bind; [exact H|]. intros _ _. by apply sim_out_out, keeps_modify. Qed.

(** A [ConnectInfo] as the reader leaves it. *)
Record info_ok (i : ConnectInfo) : Prop := {
  io_name : is_array 64 (ci_name i);
  io_txn : is_u64 (ci_transaction_id i);
  io_app : is_array 256 (ci_app i);
  io_tc_url : is_array 512 (ci_tc_url i);
  io_page_url : is_array 512 (ci_page_url i);
  io_swf_url : is_array 512 (ci_swf_url i);
  io_flash_ver : is_array 64 (ci_flash_ver i);
  io_caps : connect_ok i;
}.

Lemma array_zeros n : 0 ≤ n → is_array n (zrepeat 0 n).
Proof. intros. split; [zlia|apply zeros_ok]. Qed.

Lemma info_default_ok : info_ok connect_info_default.
Proof.
  split; try (by apply array_zeros); [done|].
  by split; [apply ConnectCaps.list_ok_nil|apply ConnectCaps.map_ok_nil|..].
Qed.

Ltac info_field := intros; repeat match goal with H : info_ok _ |- _ => destruct H end;
  repeat match goal with H : connect_ok _ |- _ => destruct H end;
  try done; split; try done; split; done.

Lemma sim_ertmp_field key : match ertmp_field (S:=Buffer) key, ertmp_field (S:=bytes) key with
  | Some m, Some p => sim_out info_ok any m p
  | None, None => True
  | _, _ => False
  end.
Proof.
  unfold ertmp_field. repeat case_decide; try done; (apply sim_out_set; [info_field|]).
  - eapply (sim_out_zoom _ ConnectCaps.list_ok); [info_field..|apply sim_four_cc_list].
  - eapply (sim_out_zoom _ caps_ex_ok); [info_field..|apply sim_caps_ex].
  - eapply (sim_out_zoom _ ConnectCaps.map_ok); [info_field..|apply sim_video_map].
  - eapply (sim_out_zoom _ (λ r, is_u32 (rc_replay r) ∧ is_u32 (rc_limit r))); [info_field..|].
    by apply sim_reconnect.
Qed.

Lemma sim_connect_ertmp_field key :
  sim_out info_ok any (read_connect_ertmp_field key) (read_connect_ertmp_field key).
Proof.
  unfold read_connect_ertmp_field. pose proof (sim_ertmp_field key) as H.
  destruct (ertmp_field (S:=Buffer) key), (ertmp_field (S:=bytes) key); try done; [|by apply sim_out_ret].
  eapply sim_out_bind; [by apply sim_or_skip|]. intros. by apply sim_out_ret.
Qed.

Lemma sim_string_field key : sim_out info_ok any (string_field key) (string_field key).
Proof.
  unfold string_field. repeat case_decide; [..|apply sim_out_src, sim_skip_value].
  - eapply (sim_out_zoom _ (is_array 256)); [info_field..|]. by apply sim_string_checked.
  - eapply (sim_out_zoom _ (is_array 512)); [info_field..|]. by apply sim_string_checked.
  - eapply (sim_out_zoom _ (is_array 512)); [info_field..|]. by apply sim_string_checked.
  - eapply (sim_out_zoom _ (is_array 512)); [info_field..|]. by apply sim_string_checked.
  - eapply (sim_out_zoom _ (is_array 64)); [info_field..|]. by apply sim_string_checked.
Qed.

Lemma sim_connect_plain_field key e : is_u64 e →
  sim_out info_ok is_u64 (read_connect_plain_field key e) (read_connect_plain_field key e).
Proof.
  intros He. eapply sim_out_read; [apply sim_unread_if, sim_read_type|]. intros ty _.
  assert (∀ f, (∀ i, info_ok i → info_ok (f i)) → sim_out info_ok is_u64
    (out (modify f);; mret e : ST (Buffer * _) Z) (out (modify f);; mret e)) as Hset.
  { intros f Hf. eapply (sim_out_store _ _ any); [by apply keeps_modify|]. intros. by apply sim_out_ret. }
  destruct ty;
    try (by (eapply sim_out_read; [apply sim_skip_value|]; intros; apply sim_out_ret)).
  - eapply sim_out_read; [apply sim_number_value|]. intros v Hv.
    case_decide; [apply Hset; info_field|]. case_decide; [apply Hset; info_field|].
    by case_decide; apply sim_out_ret.
  - eapply sim_out_bind; [apply sim_string_field|]. intros. by apply sim_out_ret.
Qed.

Lemma sim_connect_keys fuel keys e : MAX_CONNECT_OBJECT_KEYS - keys < Z.of_nat fuel →
  0 ≤ keys ≤ MAX_CONNECT_OBJECT_KEYS → is_u64 e →
  sim_out info_ok is_u64 (connect_keys fuel keys e) (connect_keys fuel keys e).
Proof.
  revert keys e. induction fuel as [|fuel IH]; intros keys e Hf Hk He; [lia|]. cbn [connect_keys].
  eapply sim_out_read; [apply sim_is_object_end|]. intros [] _.
  { eapply sim_out_read; [apply sim_map_err, sim_read; lia|]. intros. by apply sim_out_ret. }
  apply sim_out_check. intros ?%Z.leb_gt. eapply sim_out_read; [apply sim_key_256|]. intros [key n] Hfill.
  destruct (filled_slice _ _ _ Hfill) as (d&Ed&Hd).
  eapply sim_out_lift; [unfold str_prefix; rewrite Ed; reflexivity|].
  eapply sim_out_bind; [apply sim_connect_ertmp_field|]. intros f _.
  eapply (sim_out_bind _ is_u64).
  - destruct f; [by apply sim_out_ret|by apply sim_connect_plain_field].
  - intros e' He'. apply IH; [lia..|done].
Qed.

Lemma sim_connect : sim_out info_ok is_u64 read_connect_with_encoding read_connect_with_encoding.
Proof.
  eapply (sim_out_store _ _ any); [apply keeps_put; [apply info_default_ok|done]|]. intros _ _.
  eapply sim_out_read; [apply sim_string_64|]. intros [name n] Hfill.
  destruct Hfill as (L&Ho&Hn). cbn [fst snd] in *.
  destruct (ConnectCaps.slice_bytes name 0 n Ho) as (d&Ed&Hd&Ld); [lia..|].
  eapply sim_out_lift; [exact Ed|].
  destruct (copy_at_bytes (ci_name connect_info_default) 0 d) as (st&Es&Ls&Hs);
    [apply zeros_ok|done|lia|change (zlen (ci_name connect_info_default)) with 64; lia|].
  eapply sim_out_lift; [exact Es|]. change (zlen (ci_name connect_info_default)) with 64 in Ls.
  eapply (sim_out_store _ _ any); [apply keeps_modify; [info_field|done]|]. intros _ _.
  eapply sim_out_read; [apply sim_number_value|]. intros t Ht.
  eapply (sim_out_store _ _ any); [apply keeps_modify; [info_field|done]|]. intros _ _.
  eapply sim_out_read; [apply sim_object_begin|]. intros _ _. by apply sim_connect_keys.
Qed.

Lemma sim_create_stream_partial :
  sim_out (λ t, match t with Some t => is_u64 t | None => True end) any
    read_create_stream_partial read_create_stream_partial.
Proof.
  eapply sim_out_read; [apply sim_string_64|]. intros _ _.
  eapply sim_out_read; [apply sim_number_value|]. intros t Ht.
  eapply (sim_out_store _ _ any); [by apply keeps_put|]. intros _ _. apply sim_out_src, sim_skip_value.
Qed.

Lemma sim_publish capn capt : 0 ≤ capn → 0 ≤ capt →
  sim_out (λ o, is_array capn (fst o) ∧ is_array capt (snd o)) any read_publish read_publish.
Proof.
  intros Hn Ht. eapply sim_out_read; [apply sim_command_header|]. intros _ _.
  eapply (sim_out_bind _ any).
  { eapply (sim_out_zoom _ (is_array capn)); [by intros o []|by intros o v []|by apply sim_string_checked]. }
  intros _ _. eapply sim_out_read; [apply sim_available|]. intros a _.
  destruct (0 <? a); [|by apply sim_out_ret]. eapply (sim_out_ignore _ any); [|done].
  eapply (sim_out_zoom _ (is_array capt)); [by intros o []|by intros o v []|by apply sim_string_checked].
Qed.

Lemma sim_play cap : 0 ≤ cap → sim_out (is_array cap) any read_play read_play.
Proof.
  intros Hc. eapply sim_out_read; [apply sim_command_header|]. intros _ _. by apply sim_string_checked.
Qed.

Lemma sim_bool_command : sim any read_bool_command read_bool_command.
Proof. eapply sim_bind; [apply sim_command_header|]. intros _ _. apply sim_bool_value. Qed.

Lemma sim_seek : sim is_u64 read_seek read_seek.
Proof. eapply sim_bind; [apply sim_command_header|]. intros _ _. apply sim_number_value. Qed.

Lemma sim_close_stream :
  sim (λ o, match o with Some n => is_u32 n | None => True end) read_close_stream read_close_stream.
Proof.
  eapply sim_bind; [apply sim_command_header|]. intros _ _. eapply sim_bind; [apply sim_available|]. intros a _.
  destruct (a =? 0); [by apply sim_ret|].
  eapply sim_bind; [apply sim_unread_if, sim_read_type|]. intros ty _. case_decide; [|by apply sim_ret].
  eapply sim_bind; [apply sim_read_double|]. intros n _. apply sim_ret.
  pose proof (as_uint_range 4294967295 n). ulia.
Qed.

(** * Routing keys are read losslessly *)

Lemma position_zero_stored s r : 0 ∉ s → Descriptors.position_zero (s ++ 0 :: r) = Some (zlen s).
Proof.
  induction s as [|b s IH]; [done|]. rewrite not_elem_of_cons. intros [Hb Hs].
  cbn [app Descriptors.position_zero]. destruct (Z.eqb_spec b 0); [congruence|].
  rewrite (IH Hs). simpl. f_equal. zlia.
Qed.

(** A string that fits is stored with a NUL behind it; the rest of the array keeps
    what it held. *)
Lemma string_checked_ok s l a : zlen s < zlen a → zlen s ≤ 65535 → 0 ∉ s →
  read_string_checked (2 :: to_be_bytes16 (zlen s) ++ s ++ l, a)
  = (Ok tt, (l, s ++ 0 :: zdrop (zlen s + 1) a)).
Proof.
  intros Hl Hs H0. unfold read_string_checked.
  rewrite (src_ok _ _ _ _ [2] (to_be_bytes16 (zlen s) ++ s ++ l))
    by (apply map_err_ok, (src_read_app 1 [2]); done).
  rewrite (lift_eq _ 2), guard_pass by done.
  rewrite (src_ok _ _ _ _ (to_be_bytes16 (zlen s)) (s ++ l)) by (apply map_err_ok, src_read_app; done).
  rewrite (lift_eq _ (as_u8 (zlen s >> 8))), (lift_eq _ (as_u8 (zlen s))) by done. cbv zeta.
  rewrite lor_shl8 by auto with ints.
  assert (as_u8 (zlen s >> 8) * 256 + as_u8 (zlen s) = zlen s) as ->
    by (apply (be16_roundtrip (zlen s)); pose proof (zlen_nonneg s); ulia).
  rewrite (src_ok _ _ _ _ (zlen (s ++ l)) (s ++ l)) by done.
  rewrite guard_pass by (apply Z.ltb_ge; zlia). rewrite (out_ok _ _ _ _ a a) by done.
  rewrite (proj2 (Z.eqb_neq (zlen a) 0)), (proj2 (Z.leb_gt (zlen a) (zlen s))) by zlia.
  rewrite (src_ok _ _ _ _ s l) by (by apply map_err_ok, src_read_app).
  destruct (zlen_split a (zlen s)) as (a0&r&->&La); [zlia|]. destruct r as [|x r]; [zlia|].
  rewrite (lift_eq _ (s ++ x :: r)) by (by apply copy_at_front).
  rewrite (out_ok _ _ _ _ tt (s ++ x :: r)) by done.
  rewrite guard_pass by (by apply bool_decide_eq_false).
  rewrite (lift_eq _ (s ++ 0 :: r)) by (by apply (copy_at_middle s [0] [x] r)).
  replace (zdrop (zlen s + 1) (a0 ++ x :: r)) with r; [done|].
  rewrite zdrop_app_r by lia. replace (zlen s + 1 - zlen a0) with 1 by lia. done.
Qed.

(** What the reader accepts, and the key it is decoded to. *)
Lemma string_checked_inv d a l a' : bytes_ok d → 0 < zlen a →
  read_string_checked (d, a) = (Ok tt, (l, a')) →
  ∃ s, d = 2 :: to_be_bytes16 (zlen s) ++ s ++ l ∧ zlen s < zlen a ∧ zlen s ≤ 65535 ∧ (0 ∉ s)
    ∧ a' = s ++ 0 :: zdrop (zlen s + 1) a.
Proof.
  intros Hd Ha E. pose proof E as E0. unfold read_string_checked in E.
  apply src_inv in E as (b&d1&E1%map_err_inv&E). apply src_read_inv in E1 as [-> Lb]; [|lia].
  apply Forall_app in Hd as [Hb Hd]. apply lift_inv in E as (b0&Eb&E).
  apply guard_inv in E as [?%negb_false_iff%Z.eqb_eq E]. subst b0. change (marker String) with 2 in Eb.
  apply src_inv in E as (lb&d2&E2%map_err_inv&E). apply src_read_inv in E2 as [-> Llb]; [|lia].
  apply Forall_app in Hd as [Hlb Hd]. apply lift_inv in E as (l0&El0&E). apply lift_inv in E as (l1&El1&E).
  destruct b as [|y [|]]; [done| |zlia]. apply (Ok_inj y 2) in Eb as ->.
  destruct lb as [|x0 [|x1 [|]]]; [done|done| |zlia].
  apply (Ok_inj x0 l0) in El0 as <-. apply (Ok_inj x1 l1) in El1 as <-.
  apply Forall_cons in Hlb as [? [? _]%Forall_cons]. rewrite lor_shl8 in E by done.
  apply src_inv in E as (av&d3&[= <- <-]&E). apply guard_inv in E as [_ E].
  rewrite (out_ok _ _ _ _ a a) in E by done. rewrite (proj2 (Z.eqb_neq (zlen a) 0)) in E by lia.
  destruct (Z.leb_spec (zlen a) (x0 * 256 + x1)).
  { apply src_inv in E as (?&?&_&?). done. }
  apply src_inv in E as (s&d4&E3%map_err_inv&E). apply src_read_inv in E3 as [-> Ls]; [|ulia].
  exists s. assert (to_be_bytes16 (zlen s) = [x0; x1]) as Eb.
  { rewrite Ls. by apply (to_be_from_be16 x0 x1). }
  destruct (decide (0 ∈ s)) as [Hz|Hz].
  { apply lift_inv in E as (f&_&E). rewrite (out_ok _ _ _ _ tt f) in E by done.
    by rewrite bool_decide_true in E. }
  assert (zlen s < zlen a ∧ zlen s ≤ 65535) as [??] by (split; [lia|ulia]).
  pose proof (string_checked_ok s d4 a ltac:(done) ltac:(done) Hz) as Hok. rewrite Eb in Hok.
  change ([2] ++ [x0; x1] ++ s ++ d4) with (2 :: [x0; x1] ++ s ++ d4) in E0.
  rewrite Hok in E0. injection E0 as <- <-. by rewrite Eb.
Qed.

Lemma route_decoded s r : 0 ∉ s → utf8_valid s = true → decode_route_amf_string (s ++ 0 :: r) = Ok s.
Proof.
  intros H0 Hu. unfold decode_route_amf_string. rewrite position_zero_stored by done. simpl default.
  by rewrite slice_head, Ok_bind, Hu.
Qed.

Lemma route_rejected s r : 0 ∉ s → utf8_valid s = false → decode_route_amf_string (s ++ 0 :: r) = Err Amf.
Proof.
  intros H0 Hu. unfold decode_route_amf_string. rewrite position_zero_stored by done. simpl default.
  by rewrite slice_head, Ok_bind, Hu.
Qed.

(** A stream name as [handle_command] obtains it: read into a fresh array of [cap]
    bytes and decoded. *)
Definition route_key (cap : Z) (d : bytes) : Res bytes :=
  match read_string_checked (Buffer.from_slice d, zrepeat 0 cap) with
  | (Ok _, (_, a)) => decode_route_amf_string a
  | (Err e, _) => Err e
  | (Panic, _) => Panic
  end.

(** C30. Routing keys are lossless. The key a command's AMF0 string is decoded to is
    exactly the string on the wire, and one is produced exactly for the strings
    that fit the array, are free of NUL bytes and are valid UTF-8: no two
    distinct wire strings share a routing key. Anything else is an error, not a
    panic. *)
Theorem route_key_lossless cap d : 0 < cap → bytes_ok d →
  route_key cap d ≠ Panic
  ∧ ∀ key, route_key cap d = Ok key ↔ ∃ rest, d = 2 :: to_be_bytes16 (zlen key) ++ key ++ rest
      ∧ zlen key < cap ∧ zlen key ≤ 65535 ∧ (0 ∉ key) ∧ utf8_valid key = true.
Proof.
  intros Hc Hd. pose proof (sim_string_checked cap ltac:(lia)) as Hs. rewrite sim_out_iff in Hs.
  destruct (Hs (Buffer.from_slice d) (zrepeat 0 cap)) as (r&b'&a'&Em&Ep&_&_&[La _]&Hr);
    [apply Buffer.wf_from_slice|by rewrite Buffer.contents_from_slice|apply array_zeros; lia|].
  rewrite Buffer.contents_from_slice in Ep. unfold route_key. rewrite Em.
  assert (zlen (zrepeat 0 cap) = cap) as Lz by zlia.
  split.
  - destruct r as [[]|e|]; [|done..]. apply string_checked_inv in Ep as (s&->&?&?&Hz&->); [|done|lia].
    by destruct (utf8_valid s) eqn:Hu; [rewrite route_decoded|rewrite route_rejected].
  - intros key. split.
    + intros E. destruct r as [[]|e|]; [|done..].
      apply string_checked_inv in Ep as (s&->&?&?&Hz&->); [|done|lia].
      destruct (utf8_valid s) eqn:Hu; [|by rewrite route_rejected in E].
      rewrite route_decoded in E by done. injection E as <-. eexists. split_and!; [done|lia|done..].
    + intros (rest&->&?&?&?&?). rewrite string_checked_ok in Ep by (done || lia).
      injection Ep as <- _ <-. by apply route_decoded.
Qed.

Lemma route_key_lossless_witness : 0 < 64 ∧ bytes_ok (2 :: to_be_bytes16 4 ++ text "live" ++ [])
  ∧ route_key 64 (2 :: to_be_bytes16 4 ++ text "live" ++ []) = Ok (text "live").
Proof.
  assert (bytes_ok (2 :: to_be_bytes16 4 ++ text "live" ++ [])) as Ho by bytes_lit.
  split; [lia|]. split; [exact Ho|].
  apply (proj2 (route_key_lossless 64 _ ltac:(lia) Ho)). exists [].
  split_and!; [done..| |done]. apply (bool_decide_unpack (0 ∉ text "live")). vm_compute. exact I.
Defined.

End Command.
