(* ===== verification/ConnectWire.v ===== *)
(** The connect exchange on the wire: what [build_connect] writes, with or
    without capabilities, is what [read_connect_with_encoding] reads
    (src/message/command.rs over src/ertmp/connect_amf.rs). *)
From S2P Require Import Prelude Bytes Types F64 Buffer Source Amf0 Ertmp Caps Command.
#[local] Set Warnings "-clear-no-such-hyp".

Module ConnectWire.
Import Amf0 ConnectCaps ConnectAmf Command.

(** [m] reads exactly [d] as [a], and leaves [o'] where [o] was. *)
Definition reads_out {O A} (m : ST (bytes * O) A) (d : bytes) (o : O) (a : A) (o' : O) : Prop :=
  ∀ l, m (d ++ l, o) = (Ok a, (l, o')).

Definition enc_string (s : bytes) : bytes := 2 :: to_be_bytes16 (zlen s) ++ s.
Definition enc_key (k : bytes) : bytes := to_be_bytes16 (zlen k) ++ k.
Definition enc_number (bits : Z) : bytes := 0 :: to_be_bytes64 bits.

(** * Reading the pieces *)

Lemma reads_then_out {O A B} (m : ST (bytes * O) A) k d e o a o1 (b : B) o2 :
  reads_out m d o a o1 → reads_out (k a) e o1 b o2 → reads_out (m ≫= k) (d ++ e) o b o2.
Proof. intros Hm Hk l. rewrite <- app_assoc, (bind_ok _ _ _ _ _ (Hm _)). apply Hk. Qed.

Lemma reads_src {O A} (m : ST bytes A) d (o : O) a : reads m d a → reads_out (src m) d o a o.
Proof. intros H l. unfold src. by rewrite H. Qed.

Lemma reads_store {O B} (f : O → O) (k : ST (bytes * O) B) d o b o' :
  reads_out k d (f o) b o' → reads_out (out (modify f);; k) d o b o'.
Proof. intros H l. apply H. Qed.

Lemma reads_zoom {O P A} (get : O → P) set (m : ST (bytes * P) A) d o a p :
  reads_out m d (get o) a p → reads_out (zoom get set m) d o a (set p o).
Proof. intros H l. unfold zoom. by rewrite H. Qed.

Lemma read_string_enc cap s l : zlen s < cap → zlen s ≤ 65535 →
  ∃ out, read_string (zrepeat 0 cap) (enc_string s ++ l) = (Ok (out, zlen s), l) ∧ slice out 0 (zlen s) = Ok s.
Proof.
  intros Hc Hs. unfold read_string, enc_string. rewrite <- app_comm_cons, <- app_assoc.
  rewrite (bind_ok _ _ _ _ _ (read_u8_app 2 _)). rewrite guard_pass by done.
  pose proof (zlen_nonneg s). apply read_object_key_app; [zlia|done].
Qed.

Lemma zidx_slice_0 out n (s : bytes) x : slice out 0 n = Ok (x :: s) → zidx out 0 = Ok x.
Proof.
  unfold slice. destruct (_ && _); [|done]. rewrite zdrop_nonpos by lia. unfold ztake. intros E.
  destruct out as [|y out], (Z.to_nat (n - 0)); try done. by injection E as -> _.
Qed.

(** * The capability values *)

Definition canonical (e : bytes) : Prop := entry_ok e ∧ entry_of (code e) = Some e ∧ utf8_valid (code e) = true.

Definition enc_list (l : FourCcList) : bytes :=
  10 :: to_be_bytes32 (zlen l) ++ concat ((λ e, enc_string (code e)) <$> l).

Definition enc_map (m : VideoFourCcInfoMap) : bytes :=
  3 :: concat ((λ p, enc_key (code (fst p)) ++ enc_number (F64.of_int (snd p))) <$> m) ++ [0; 0; 9].

Definition enc_reconnect (r : Reconnect) : bytes :=
  12 :: to_be_bytes32 8 ++ to_be_bytes32 (rc_replay r) ++ to_be_bytes32 (rc_limit r).

Lemma code_short e : canonical e → zlen (code e) < 8 ∧ (zlen (code e) = 1 ∧ code e = [42] ∨ zlen (code e) = 4).
Proof. intros (He&_&_). destruct (code_cases e He) as [-> | (L&_)]; [by split; [|left]|lia]. Qed.

Lemma emits_cc_strings l : Forall canonical l →
  emits (write_cc_strings l) (concat ((λ e, enc_string (code e)) <$> l)).
Proof.
  induction 1 as [|e l He Hl IH]; cbn [write_cc_strings]; [apply emits_nil|].
  destruct (code_short e He) as [L _]. destruct He as (He&_&Hu).
  eapply emits_lift; [by apply entry_key_ok|]. rewrite Hu. cbn [fmap list_fmap concat].
  apply (emits_bind (write_string _)); [apply emits_string; lia|done].
Qed.

Lemma emits_list l : list_ok l → Forall canonical l → emits (write_four_cc_list_amf l) (enc_list l).
Proof.
  intros [Hn _] Hl. pose proof (zlen_nonneg l). unfold write_four_cc_list_amf, enc_list.
  unfold MAX_FOURCCS in Hn. rewrite as_u32_id by ulia.
  apply (emits_bind (put _) [_]); [apply emits_put|]. apply emits_bind; [apply emits_put|by apply emits_cc_strings].
Qed.

Lemma add_canonical e acc : canonical e → zlen acc < MAX_FOURCCS →
  fourcc_list_add (code e) acc = (Ok tt, acc ++ [e]).
Proof.
  intros (_&E&_) Hn. unfold fourcc_list_add, get_st, mbind, ST_bind, guard_st.
  rewrite (proj2 (Z.leb_gt _ _)) by done. by rewrite E.
Qed.

Lemma reads_elements l acc : Forall canonical l → zlen acc + zlen l ≤ MAX_FOURCCS →
  reads_out (four_cc_elements (length l)) (concat ((λ e, enc_string (code e)) <$> l)) acc tt (acc ++ l).
Proof.
  intros Hl. revert acc. induction Hl as [|e l He Hl IH]; intros acc Hn r; cbn [length four_cc_elements].
  { by rewrite app_nil_r. }
  destruct (code_short e He) as [L Hcode]. cbn [fmap list_fmap concat]. rewrite <- app_assoc.
  destruct (read_string_enc 8 (code e) (concat ((λ e, enc_string (code e)) <$> l) ++ r)) as (arr&E&Es); [lia..|].
  rewrite (src_ok _ _ _ _ _ _ E).
  assert (∃ c0, zidx arr 0 = Ok c0 ∧ ((zlen (code e) =? 1) && (c0 =? 42)) || (4 <=? zlen (code e)) = true) as (c0&E0&Eb).
  { destruct Hcode as [[L1 Ec]|L4].
    - exists 42. rewrite L1. split; [|done]. rewrite Ec in Es. by eapply zidx_slice_0.
    - destruct (code e) as [|c0 s] eqn:Ec; [done|]. exists c0. split; [by eapply zidx_slice_0|].
      rewrite L4. by rewrite orb_true_r. }
  rewrite (lift_eq _ c0) by done. rewrite Eb.
  rewrite (bind_ok _ _ _ tt (concat ((λ e, enc_string (code e)) <$> l) ++ r, acc ++ [e])).
  - rewrite IH by zlia. by rewrite <- app_assoc.
  - rewrite (lift_eq _ (code e)) by done. unfold out at 1. by rewrite (add_canonical e acc He) by zlia.
Qed.

Lemma reads_list l o : list_ok l → Forall canonical l →
  reads_out read_four_cc_list_amf (enc_list l) o tt l.
Proof.
  intros [Hn _] Hl r. unfold read_four_cc_list_amf, enc_list, MAX_FOURCCS in *. pose proof (zlen_nonneg l).
  rewrite (out_ok _ _ _ _ tt ([] : FourCcList)) by done. rewrite <- app_comm_cons, <- app_assoc.
  rewrite (src_ok _ _ _ _ _ _ (read_type_app StrictArray _)). unfold read_four_cc_strict_array.
  rewrite (src_ok _ _ _ _ _ _ (read_u32_app (zlen l) _ ltac:(ulia))).
  rewrite guard_pass by (unfold MAX_FOURCCS; lia). unfold zlen at 1. rewrite Nat2Z.id.
  by apply (reads_elements l []).
Qed.

(** A key is not the end of an object. *)
Lemma key_not_end k l : 0 < zlen k ≤ 65535 → is_object_end (enc_key k ++ l) = (Ok false, enc_key k ++ l).
Proof.
  intros Hk. destruct (is_object_end_spec (enc_key k ++ l)) as ([]&->&Hb); [|done].
  destruct (proj1 Hb eq_refl) as [r E]. injection E as E1 E2 _.
  pose proof (be16_roundtrip (zlen k) ltac:(ulia)) as Hr. unfold from_be_bytes16 in Hr. lia.
Qed.

Lemma object_closed l : is_object_end ([0; 0; 9] ++ l) = (Ok true, [0; 0; 9] ++ l).
Proof.
  destruct (is_object_end_spec ([0; 0; 9] ++ l)) as ([]&->&Hb); [done|].
  discriminate (proj2 Hb). by exists l.
Qed.

Lemma read_key_enc k l : 0 < zlen k < 256 → ∃ out,
  read_object_key (zrepeat 0 256) (enc_key k ++ l) = (Ok (out, zlen k), l) ∧ slice out 0 (zlen k) = Ok k.
Proof. intros Hk. unfold enc_key. rewrite <- app_assoc. apply read_object_key_app; zlia. Qed.

Lemma close_read (l : bytes) : map_err Amf (src_read 3) ([0; 0; 9] ++ l) = (Ok [0; 0; 9], l).
Proof. by apply map_err_ok, (src_read_app 3 [0; 0; 9]). Qed.

Lemma u32_in_range n : is_u32 n → in_u32_range (F64.of_int n) = true
  ∧ F64.as_uint 4294967295 (F64.of_int n) = n ∧ fract_is_zero (F64.of_int n) = true ∧ is_u64 (F64.of_int n).
Proof.
  intros Hn. destruct (F64.of_int_back n 4294967295) as (E1&E2&E3); [ulia|lia|].
  destruct (F64.scaled_of_int n) as [Hf _]; [ulia|]. unfold in_u32_range, fract_is_zero.
  rewrite Hf, E1, E2. split_and!; [done|done|apply Z.eqb_eq, F64.of_int_fract; ulia|apply F64.of_int_range; ulia].
Qed.

Lemma emits_map_values m : Forall (λ p, canonical (fst p)) m →
  emits (write_map_values m) (concat ((λ p, enc_key (code (fst p)) ++ enc_number (F64.of_int (snd p))) <$> m)).
Proof.
  induction 1 as [|[e mask] m He Hm IH]; cbn [write_map_values]; [apply emits_nil|].
  cbn [fst snd] in *. destruct (code_short e He) as [L _]. destruct He as (He&_&Hu).
  eapply emits_lift; [by apply entry_key_ok|]. apply emits_guard; [by rewrite Hu|].
  cbn [fmap list_fmap concat fst snd]. rewrite <- app_assoc.
  apply emits_bind; [apply emits_object_key; lia|]. apply emits_bind; [apply emits_number|done].
Qed.

Lemma emits_map m : Forall (λ p, canonical (fst p)) m →
  emits (write_video_fourcc_info_map_amf m) (enc_map m).
Proof.
  intros Hm. unfold enc_map. apply (emits_bind (put _) [_]); [apply emits_put|].
  apply emits_bind; [by apply emits_map_values|apply emits_put].
Qed.

Lemma reads_map_keys m fuel keys acc : Forall (λ p, canonical (fst p) ∧ is_u32 (snd p)) m →
  (length m < fuel)%nat → 0 ≤ keys → keys + zlen m ≤ MAX_OBJECT_KEYS → zlen acc + zlen m ≤ MAX_FOURCCS →
  reads_out (video_map_keys fuel keys)
    (concat ((λ p, enc_key (code (fst p)) ++ enc_number (F64.of_int (snd p))) <$> m) ++ [0; 0; 9])
    acc tt (acc ++ m).
Proof.
  intros Hm. revert fuel keys acc. induction Hm as [|[e mask] m [He Hmask] Hm IH];
    intros fuel keys acc Hf Hk0 Hk Hn l; (destruct fuel as [|fuel]; [cbn in Hf; lia|]); cbn [video_map_keys].
  { rewrite app_nil_r. rewrite (src_ok _ _ _ _ _ _ (object_closed l)). by rewrite (src_ok _ _ _ _ _ _ (close_read l)). }
  cbn [fst snd] in *. cbn [fmap list_fmap concat fst snd]. rewrite <- !app_assoc.
  destruct (code_short e He) as [L Hc].
  set (rest := concat _ ++ [0; 0; 9] ++ l).
  rewrite (src_ok _ _ _ _ _ _ (key_not_end (code e) (enc_number (F64.of_int mask) ++ rest) ltac:(lia))).
  rewrite zlen_cons in Hk, Hn. pose proof (zlen_nonneg m). rewrite guard_pass by lia.
  destruct (read_key_enc (code e) (enc_number (F64.of_int mask) ++ rest)) as (arr&Ek&Es); [lia|].
  rewrite (src_ok _ _ _ _ _ _ Ek). destruct (u32_in_range mask Hmask) as (R1&R2&_&R3).
  rewrite (src_ok _ _ _ _ _ _ (read_type_app Number (to_be_bytes64 (F64.of_int mask) ++ rest))).
  rewrite guard_pass by done. rewrite (src_ok _ _ _ _ _ _ (read_number_app _ rest R3)).
  rewrite R1, guard_pass by done. rewrite (lift_eq _ _ _ _ Es), R2.
  rewrite (out_ok _ _ _ _ tt (acc ++ [(e, mask)])).
  - unfold rest. rewrite app_assoc, (IH fuel (keys + 1) (acc ++ [(e, mask)])); [by rewrite <- app_assoc|cbn in Hf; lia|lia|lia|zlia].
  - unfold add_video_map_entry, get_st, mbind, ST_bind, guard_st. rewrite (proj2 (Z.leb_gt _ _)) by lia.
    by rewrite (proj1 (proj2 He)).
Qed.

Lemma reads_map m o : map_ok m → Forall (λ p, canonical (fst p)) m →
  reads_out read_video_fourcc_info_map_amf (enc_map m) o tt m.
Proof.
  intros [Hn Hm] Hc r. unfold read_video_fourcc_info_map_amf, enc_map.
  rewrite (out_ok _ _ _ _ tt ([] : VideoFourCcInfoMap)) by done. rewrite <- app_comm_cons.
  rewrite (src_ok _ _ _ _ _ _ (read_type_app Object _)).
  apply (reads_map_keys m entries_fuel 0 []); unfold MAX_FOURCCS, entries_fuel, MAX_OBJECT_KEYS in *.
  - apply Forall_and. split; [done|]. eapply Forall_impl; [exact Hm|]. by intros [? ?] [].
  - unfold zlen in Hn. lia.
  - done.
  - lia.
  - change (zlen (@nil (bytes * Z))) with 0. lia.
Qed.

Lemma reads_caps_ex mask c k : is_u32 mask →
  reads_out read_caps_ex_amf (enc_number (F64.of_int mask)) (c, k) tt (c, mask).
Proof.
  intros Hm r. destruct (u32_in_range mask Hm) as (R1&R2&R3&R4). unfold read_caps_ex_amf, enc_number.
  rewrite <- app_comm_cons. rewrite (src_ok _ _ _ _ _ _ (read_type_app Number _)).
  rewrite (src_ok _ _ _ _ _ _ (read_number_app _ r R4)). rewrite R1, R3, guard_pass by done. by rewrite R2.
Qed.

Lemma emits_reconnect rc : emits (write_reconnect_amf rc) (enc_reconnect rc).
Proof.
  unfold write_reconnect_amf. eapply (emits_lift _ (8, to_be_bytes32 (rc_replay rc) ++ to_be_bytes32 (rc_limit rc)));
    [done|]. apply emits_guard; [done|].
  apply (emits_long_string (to_be_bytes32 (rc_replay rc) ++ to_be_bytes32 (rc_limit rc))). zlia.
Qed.

Lemma reads_reconnect rc o : is_u32 (rc_replay rc) → is_u32 (rc_limit rc) →
  reads_out read_reconnect_amf (enc_reconnect rc) o tt rc.
Proof.
  intros Hr Hl r. unfold read_reconnect_amf, enc_reconnect. rewrite <- app_comm_cons, <- app_assoc.
  rewrite (src_ok _ _ _ _ _ _ (read_type_app LongString _)).
  set (d := to_be_bytes32 (rc_replay rc) ++ to_be_bytes32 (rc_limit rc)).
  rewrite (src_ok _ _ _ _ d r).
  - unfold out. destruct rc as [p q]. cbn [rc_replay rc_limit] in *. unfold Descriptors.reconnect_parse.
    rewrite guard_pass by (unfold d; zlia).
    pose proof (Descriptors.u32_at_ok [] p (to_be_bytes32 q) Hr) as Ep.
    pose proof (Descriptors.u32_at_ok (to_be_bytes32 p) q [] Hl) as El. rewrite app_nil_r, zlen_be32 in El.
    rewrite (lift_eq _ _ _ _ Ep), (lift_eq _ _ _ _ El). done.
  - unfold read_amf_binary_blob. rewrite (bind_ok _ _ _ _ _ (read_u32_app 8 (d ++ r) ltac:(ulia))).
    rewrite (bind_ok _ _ _ _ _ (eq_refl (available_st (d ++ r)))).
    assert (zlen d = 8) as Ld by (unfold d; zlia).
    rewrite guard_pass; [by apply map_err_ok, src_read_app|].
    apply orb_false_iff. split; [done|]. apply Z.ltb_ge. simpl. zlia.
Qed.

(** * The connect object *)

(** One turn of the loop, after the key. *)
Definition read_field (key : bytes) (e : Z) : ST (bytes * ConnectInfo) Z :=
  fin ← read_connect_ertmp_field key;
  if fin : bool then mret e else read_connect_plain_field key e.

Lemma connect_turn key d e i e' i' fuel keys l :
  0 < zlen key < 256 → utf8_valid key = true → keys < MAX_CONNECT_OBJECT_KEYS →
  reads_out (read_field key e) d i e' i' →
  connect_keys (Datatypes.S fuel) keys e (enc_key key ++ d ++ l, i) = connect_keys fuel (keys + 1) e' (l, i').
Proof.
  intros Hk Hu Hn H. cbn [connect_keys].
  rewrite (src_ok _ _ _ _ _ _ (key_not_end key (d ++ l) ltac:(lia))). rewrite guard_pass by lia.
  destruct (read_key_enc key (d ++ l)) as (arr&Ek&Es); [lia|]. rewrite (src_ok _ _ _ _ _ _ Ek).
  rewrite (lift_eq _ key) by (unfold str_prefix; by rewrite Es, Ok_bind, Hu).
  specialize (H l). unfold read_field in H. unfold mbind, ST_bind in *.
  destruct (read_connect_ertmp_field key (d ++ l, i)) as [[[]|?|] [s1 i1]]; [|by rewrite H|done..].
  by injection H as <- <- <-.
Qed.

Lemma reads_ertmp key m d e i i' : ertmp_field key = Some m → reads_out m d i tt i' →
  reads_out (read_field key e) d i e i'.
Proof.
  intros E H l. unfold read_field, read_connect_ertmp_field. rewrite E. unfold or_skip, mbind, ST_bind.
  by rewrite H.
Qed.

Lemma reads_plain key d e i e' i' : ertmp_field (S:=bytes) key = None →
  reads_out (read_connect_plain_field key e) d i e' i' → reads_out (read_field key e) d i e' i'.
Proof. intros E H l. unfold read_field, read_connect_ertmp_field. rewrite E. exact (H l). Qed.

Lemma peek_type ty (d : bytes) : unread_if (λ _, true) read_type (marker ty :: d) = (Ok ty, marker ty :: d).
Proof. unfold unread_if. by rewrite read_type_app. Qed.

(** What a string array holds after a read. *)
Definition stored (s a : bytes) : bytes := s ++ 0 :: zdrop (zlen s + 1) a.

Record fits (cap : Z) (s : bytes) : Prop := {
  fit_len : zlen s < cap;
  fit_nul : 0 ∉ s;
  fit_utf8 : utf8_valid s = true;
  fit_bytes : bytes_ok s;
}.

Lemma reads_checked cap s a : zlen a = cap → cap ≤ 65536 → fits cap s →
  reads_out read_string_checked (enc_string s) a tt (stored s a).
Proof.
  intros La Hc [Hl H0 _ _] r. unfold enc_string. rewrite <- app_comm_cons, <- app_assoc.
  apply string_checked_ok; [lia..|done].
Qed.

Lemma reads_string_field key s e i i' : ertmp_field (S:=bytes) key = None →
  reads_out (string_field key) (enc_string s) i tt i' → reads_out (read_field key e) (enc_string s) i e i'.
Proof.
  intros He H. apply reads_plain; [done|]. intros l. unfold read_connect_plain_field.
  rewrite (src_ok _ _ (enc_string s ++ l) _ String (enc_string s ++ l) (peek_type String _)). by rewrite (bind_ok _ _ _ _ _ (H l)).
Qed.

Lemma number_value_enc n l : is_u64 n → read_number_value (enc_number n ++ l) = (Ok n, l).
Proof.
  intros Hn. unfold read_number_value, enc_number. rewrite <- app_comm_cons.
  rewrite (bind_ok _ _ _ _ _ (read_type_app Number _)). rewrite guard_pass by done. by apply read_number_app.
Qed.

Lemma reads_audio n e i : -2147483648 ≤ n ≤ 2147483647 →
  reads_out (read_field (text "audioCodecs") e) (enc_number (F64.of_signed n)) i e (i <| ci_audio_codecs := n |>).
Proof.
  intros Hn. apply reads_plain; [done|]. intros l. unfold read_connect_plain_field.
  rewrite (src_ok _ _ (enc_number _ ++ l) _ Number (enc_number _ ++ l) (peek_type Number _)).
  rewrite (src_ok _ _ _ _ _ _ (number_value_enc _ l (F64.of_signed_range n ltac:(lia)))).
  rewrite decide_True by done. unfold as_i32_sat. by rewrite F64.of_signed_back by lia.
Qed.

Lemma reads_video n e i : -2147483648 ≤ n ≤ 2147483647 →
  reads_out (read_field (text "videoCodecs") e) (enc_number (F64.of_signed n)) i e (i <| ci_video_codecs := n |>).
Proof.
  intros Hn. apply reads_plain; [done|]. intros l. unfold read_connect_plain_field.
  rewrite (src_ok _ _ (enc_number _ ++ l) _ Number (enc_number _ ++ l) (peek_type Number _)).
  rewrite (src_ok _ _ _ _ _ _ (number_value_enc _ l (F64.of_signed_range n ltac:(lia)))).
  rewrite decide_False, decide_True by done. unfold as_i32_sat. by rewrite F64.of_signed_back by lia.
Qed.

(** A string under a key the reader does not know is skipped. *)
Lemma skip_string_enc s l : bytes_ok s → zlen s ≤ 65535 → skip_value (enc_string s ++ l) = (Ok tt, l).
Proof.
  intros Hs Hl. apply skip_value_app; [by apply v_string|]. apply bytes_ok_cons; [ulia|].
  by apply Forall_app_2; [apply bytes_ok_be16|].
Qed.

(** * Objects as lists of fields *)

Definition enc_fields (fs : list (bytes * bytes)) : bytes := concat ((λ f, enc_key (fst f) ++ snd f) <$> fs).

Lemma enc_fields_app fs gs : enc_fields (fs ++ gs) = enc_fields fs ++ enc_fields gs.
Proof. unfold enc_fields. by rewrite fmap_app, concat_app. Qed.

(** The loop reads a list of fields, one after the other. *)
Inductive fields_read : list (bytes * bytes) → Z → ConnectInfo → Z → ConnectInfo → Prop :=
  | read_nil e i : fields_read [] e i e i
  | read_cons k d fs e i e1 i1 e2 i2 :
      0 < zlen k < 256 → utf8_valid k = true → reads_out (read_field k e) d i e1 i1 →
      fields_read fs e1 i1 e2 i2 → fields_read ((k, d) :: fs) e i e2 i2.

Lemma fields_read_app fs gs e i e1 i1 e2 i2 :
  fields_read fs e i e1 i1 → fields_read gs e1 i1 e2 i2 → fields_read (fs ++ gs) e i e2 i2.
Proof. induction 1; [done|]. intros. simpl. econstructor; eauto. Qed.

Lemma fields_one k d e i e1 i1 : 0 < zlen k < 256 → utf8_valid k = true →
  reads_out (read_field k e) d i e1 i1 → fields_read [(k, d)] e i e1 i1.
Proof. intros. econstructor; eauto using read_nil. Qed.

Lemma connect_fields fs e i e' i' fuel keys l : fields_read fs e i e' i' →
  (length fs < fuel)%nat → keys + zlen fs ≤ MAX_CONNECT_OBJECT_KEYS →
  connect_keys fuel keys e (enc_fields fs ++ [0; 0; 9] ++ l, i) = (Ok e', (l, i')).
Proof.
  intros H. revert fuel keys. induction H as [e i|k d fs e i e1 i1 e2 i2 Hk Hu Hr Hfs IH]; intros fuel keys Hf Hn;
    (destruct fuel as [|fuel]; [cbn in Hf; lia|]).
  - cbn [connect_keys]. rewrite (src_ok _ _ _ _ _ _ (object_closed l)). by rewrite (src_ok _ _ _ _ _ _ (close_read l)).
  - rewrite zlen_cons in Hn. pose proof (zlen_nonneg fs).
    unfold enc_fields. cbn [fmap list_fmap concat fst snd]. rewrite <- !app_assoc.
    rewrite (connect_turn k d e i e1 i1 fuel keys _ Hk Hu ltac:(lia) Hr). apply IH; [cbn in Hf; lia|lia].
Qed.

(** * The capability fields *)

Definition when (c : bool) (key value : bytes) : list (bytes * bytes) := if c then [(key, value)] else [].

Definition sends_list (c : NegotiatedCaps) : bool := nc_has_four_cc_list c && (0 <? zlen (nc_four_cc_list c)).
Definition sends_map (c : NegotiatedCaps) : bool := nc_has_video_map c && (0 <? zlen (nc_video_map c)).

Definition caps_fields (c : NegotiatedCaps) : list (bytes * bytes) :=
  when (sends_list c) (text "fourCcList") (enc_list (nc_four_cc_list c))
  ++ when (nc_has_caps_ex c) (text "capsEx") (enc_number (F64.of_int (nc_caps_ex_mask c)))
  ++ when (sends_map c) (text "videoFourCcInfoMap") (enc_map (nc_video_map c))
  ++ when (nc_has_reconnect c) (text "reconnect") (enc_reconnect (nc_reconnect c)).

Record sendable (c : NegotiatedCaps) : Prop := {
  sd_ok : negotiated_ok c;
  sd_list : Forall canonical (nc_four_cc_list c);
  sd_map : Forall (λ p, canonical (fst p)) (nc_video_map c);
}.

Lemma emits_field (c : bool) key v m : zlen key ≤ 65535 → emits m v →
  emits (if c then write_object_key key;; m else mret tt) (enc_fields (when c key v)).
Proof.
  intros Hk Hm. destruct c; [|apply emits_nil]. unfold enc_fields, when. cbn [fmap list_fmap concat fst snd]. rewrite app_nil_r.
  apply emits_bind; [by apply emits_object_key|done].
Qed.

Lemma emits_caps c : sendable c → emits (write_negotiated_caps c) (enc_fields (caps_fields c)).
Proof.
  intros [[Hl _ _ _] Hcl Hcm]. unfold write_negotiated_caps, caps_fields. rewrite !enc_fields_app.
  repeat (apply emits_bind; [apply emits_field; [done|]|]);
    [by apply emits_list|apply emits_number|by apply emits_map|].
  apply emits_field; [done|apply emits_reconnect].
Qed.

(** What the fields leave in a [ConnectInfo]. *)
Definition with_list (c : NegotiatedCaps) (i : ConnectInfo) : ConnectInfo :=
  if sends_list c then i <| ci_four_cc_list := nc_four_cc_list c |> <| ci_has_four_cc_list := true |> else i.
Definition with_caps_ex (c : NegotiatedCaps) (i : ConnectInfo) : ConnectInfo :=
  if nc_has_caps_ex c then i <| ci_caps_ex_mask := nc_caps_ex_mask c |> <| ci_has_caps_ex := true |> else i.
Definition with_map (c : NegotiatedCaps) (i : ConnectInfo) : ConnectInfo :=
  if sends_map c then i <| ci_video_map := nc_video_map c |> <| ci_has_video_map := true |> else i.
Definition with_reconnect (c : NegotiatedCaps) (i : ConnectInfo) : ConnectInfo :=
  if nc_has_reconnect c then i <| ci_reconnect := nc_reconnect c |> <| ci_has_reconnect := true |> else i.
Definition with_caps (c : NegotiatedCaps) (i : ConnectInfo) : ConnectInfo :=
  with_reconnect c (with_map c (with_caps_ex c (with_list c i))).

Lemma when_read (c : bool) k d e i i' : 0 < zlen k < 256 → utf8_valid k = true →
  (c = true → reads_out (read_field k e) d i e i') → (c = false → i' = i) →
  fields_read (when c k d) e i e i'.
Proof. intros Hk Hu H1 H0. destruct c; [apply fields_one; auto|rewrite H0 by done; constructor]. Qed.

Lemma caps_fields_read c e i : sendable c → fields_read (caps_fields c) e i e (with_caps c i).
Proof.
  intros [[Hl Hm Hk [Hr Hr']] Hcl Hcm]. unfold caps_fields.
  eapply fields_read_app; [|eapply fields_read_app; [|eapply fields_read_app]].
  - apply (when_read _ _ _ _ _ (with_list c i)); [done|done| |by unfold with_list; intros ->].
    unfold with_list. intros ->. eapply reads_ertmp; [done|]. intros l.
    by rewrite (bind_ok _ _ _ _ _ (reads_zoom _ _ _ _ _ _ _ (reads_list _ _ Hl Hcl) l)).
  - eapply (when_read _ _ _ _ _ (with_caps_ex c _)); [done|done| |by unfold with_caps_ex; intros ->].
    unfold with_caps_ex. intros ->. eapply reads_ertmp; [done|]. intros l.
    rewrite (bind_ok _ _ _ _ _ (reads_zoom (λ i, (ci_caps_ex i, ci_caps_ex_mask i)) _ _ _ _ _ _
      (reads_caps_ex _ _ _ Hk) l)). by destruct (with_list c i).
  - eapply (when_read _ _ _ _ _ (with_map c _)); [done|done| |by unfold with_map; intros ->].
    unfold with_map. intros ->. eapply reads_ertmp; [done|]. intros l.
    by rewrite (bind_ok _ _ _ _ _ (reads_zoom _ _ _ _ _ _ _ (reads_map _ _ Hm Hcm) l)).
  - eapply (when_read _ _ _ _ _ (with_reconnect c _)); [done|done| |by unfold with_reconnect; intros ->].
    unfold with_reconnect. intros ->. eapply reads_ertmp; [done|]. intros l.
    by rewrite (bind_ok _ _ _ _ _ (reads_zoom _ _ _ _ _ _ _ (reads_reconnect _ _ Hr Hr') l)).
Qed.

(** * The whole command *)

(** The arguments of [build_connect]; strings are valid UTF-8 as Rust's [&str]. *)
Record ConnectArgs : Type := mkConnectArgs {
  ca_app : bytes; ca_tc_url : bytes; ca_page_url : bytes; ca_swf_url : bytes; ca_flash_ver : bytes;
  ca_audio : Z; ca_video : Z; ca_caps : option NegotiatedCaps;
}.

#[global] Instance eta_connectargs : Eta ConnectArgs := λ a,
  mkConnectArgs (ca_app a) (ca_tc_url a) (ca_page_url a) (ca_swf_url a) (ca_flash_ver a)
    (ca_audio a) (ca_video a) (ca_caps a).

Record args_ok (a : ConnectArgs) : Prop := {
  ao_app : fits 256 (ca_app a);
  ao_tc_url : fits 512 (ca_tc_url a);
  ao_page_url : fits 512 (ca_page_url a);
  ao_swf_url : fits 512 (ca_swf_url a);
  ao_flash_ver : fits 64 (ca_flash_ver a);
  ao_audio : -2147483648 ≤ ca_audio a ≤ 2147483647;
  ao_video : -2147483648 ≤ ca_video a ≤ 2147483647;
  ao_caps : match ca_caps a with Some c => sendable c | None => True end;
}.

Definition build (a : ConnectArgs) : ST Buffer unit :=
  build_connect (ca_app a) (ca_tc_url a) (ca_page_url a) (ca_swf_url a) (ca_flash_ver a)
    (ca_audio a) (ca_video a) (ca_caps a).

Definition present (s : bytes) : bool := negb (bool_decide (s = [])).

Definition args_fields (a : ConnectArgs) : list (bytes * bytes) :=
  [(text "app", enc_string (ca_app a))] ++ [(text "type", enc_string (text "nonprivate"))]
  ++ [(text "tcUrl", enc_string (ca_tc_url a))]
  ++ when (present (ca_page_url a)) (text "pageUrl") (enc_string (ca_page_url a))
  ++ when (present (ca_swf_url a)) (text "swfUrl") (enc_string (ca_swf_url a))
  ++ when (present (ca_flash_ver a)) (text "flashVer") (enc_string (ca_flash_ver a))
  ++ [(text "audioCodecs", enc_number (F64.of_signed (ca_audio a)))]
  ++ [(text "videoCodecs", enc_number (F64.of_signed (ca_video a)))]
  ++ match ca_caps a with Some c => caps_fields c | None => [] end.

Definition enc_connect (a : ConnectArgs) : bytes :=
  enc_string (text "connect") ++ enc_number F1 ++ [3] ++ enc_fields (args_fields a) ++ [0; 0; 9].

Lemma emits_chk m d : emits m d → emits (chk m) d.
Proof.
  intros H b Hb Hl. destruct (H b Hb Hl) as (b'&E&?). exists b'. split; [|done]. by apply map_err_ok.
Qed.

Lemma emits_chk_field k s m d : zlen k ≤ 65535 → zlen s ≤ 65535 → emits m d →
  emits (chk (write_object_key k);; chk (write_string s);; m) (enc_fields [(k, enc_string s)] ++ d).
Proof.
  intros. unfold enc_fields. cbn [fmap list_fmap concat fst snd]. rewrite app_nil_r, <- app_assoc.
  apply emits_bind; [by apply emits_chk, emits_object_key|]. by apply emits_bind; [apply emits_chk, emits_string|].
Qed.

Lemma emits_chk_number k n m d : zlen k ≤ 65535 → emits m d →
  emits (chk (write_object_key k);; chk (write_number n);; m) (enc_fields [(k, enc_number n)] ++ d).
Proof.
  intros. unfold enc_fields. cbn [fmap list_fmap concat fst snd]. rewrite app_nil_r, <- app_assoc.
  apply emits_bind; [by apply emits_chk, emits_object_key|]. by apply emits_bind; [apply emits_chk, emits_number|].
Qed.

Lemma emits_optional k s : zlen k ≤ 65535 → zlen s ≤ 65535 →
  emits (optional_field k s) (enc_fields (when (present s) k (enc_string s))).
Proof.
  intros Hk Hs. unfold optional_field, present. case_decide; [subst; apply emits_nil|].
  rewrite bool_decide_false by done. cbn [negb when]. unfold enc_fields. cbn [fmap list_fmap concat fst snd].
  rewrite app_nil_r. apply emits_bind; [by apply emits_chk, emits_object_key|by apply emits_chk, emits_string].
Qed.

Lemma emits_connect a : args_ok a → emits (build a) (enc_connect a).
Proof.
  intros [[] [] [] [] [] Ha Hv Hc]. unfold build, build_connect, enc_connect, args_fields.
  rewrite !enc_fields_app, <- !app_assoc.
  apply emits_bind; [by apply emits_chk, emits_string|]. apply emits_bind; [apply emits_chk, emits_number|].
  apply emits_bind; [apply emits_chk, emits_put|].
  do 3 (apply emits_chk_field; [done|lia || done|]).
  do 3 (apply emits_bind; [apply emits_optional; [done|lia]|]).
  do 2 (apply emits_chk_number; [done|]).
  apply emits_bind; [|apply emits_chk, emits_put].
  destruct (ca_caps a); [by apply emits_caps|apply emits_nil].
Qed.

(** * Reading it back *)

Definition arrays (a : ConnectArgs) (i : ConnectInfo) : ConnectInfo :=
  i <| ci_app := stored (ca_app a) (zrepeat 0 256) |>
    <| ci_tc_url := stored (ca_tc_url a) (zrepeat 0 512) |>
    <| ci_page_url := stored (ca_page_url a) (zrepeat 0 512) |>
    <| ci_swf_url := stored (ca_swf_url a) (zrepeat 0 512) |>
    <| ci_flash_ver := stored (ca_flash_ver a) (zrepeat 0 64) |>
    <| ci_audio_codecs := ca_audio a |> <| ci_video_codecs := ca_video a |>.

Definition info_of (a : ConnectArgs) (i : ConnectInfo) : ConnectInfo :=
  match ca_caps a with Some c => with_caps c (arrays a i) | None => arrays a i end.

(** The initial arrays, with only the name and the transaction id set. *)
Record fresh (i : ConnectInfo) : Prop := {
  fr_app : ci_app i = zrepeat 0 256;
  fr_tc_url : ci_tc_url i = zrepeat 0 512;
  fr_page_url : ci_page_url i = zrepeat 0 512;
  fr_swf_url : ci_swf_url i = zrepeat 0 512;
  fr_flash_ver : ci_flash_ver i = zrepeat 0 64;
}.

Lemma stored_nil n : 0 < n → stored [] (zrepeat 0 n) = zrepeat 0 n.
Proof.
  intros Hn. unfold stored, zrepeat, zdrop. simpl. change (Z.to_nat (zlen (@nil Z) + 1)) with 1%nat.
  destruct (Z.to_nat n) eqn:E; [lia|done].
Qed.

Lemma reads_named (get : ConnectInfo → bytes) set key cap s e i :
  ertmp_field (S:=bytes) key = None → string_field key = zoom get set read_string_checked →
  get i = zrepeat 0 cap → 0 < cap ≤ 65536 → fits cap s →
  reads_out (read_field key e) (enc_string s) i e (set (stored s (zrepeat 0 cap)) i).
Proof.
  intros He Hf Hg Hc Hs. apply reads_string_field; [done|]. rewrite Hf. apply reads_zoom. rewrite Hg.
  apply (reads_checked cap); [zlia|lia|done].
Qed.

(** A field that is left out is empty, and so is its array. *)
Lemma optional_read (get : ConnectInfo → bytes) set key cap s e i :
  0 < zlen key < 256 → utf8_valid key = true →
  ertmp_field (S:=bytes) key = None → string_field key = zoom get set read_string_checked →
  get i = zrepeat 0 cap → 0 < cap ≤ 65536 → fits cap s → set (get i) i = i →
  fields_read (when (present s) key (enc_string s)) e i e (set (stored s (zrepeat 0 cap)) i).
Proof.
  intros Hk Hu He Hf Hg Hc Hs Hset. apply when_read; [done|done| |].
  - intros _. by apply (reads_named get).
  - intros ->%negb_false_iff%bool_decide_eq_true. rewrite stored_nil by lia. by rewrite <- Hg, Hset.
Qed.

Lemma args_fields_read a i : args_ok a → fresh i → fields_read (args_fields a) 0 i 0 (info_of a i).
Proof.
  intros [Ha1 Ha2 Ha3 Ha4 Ha5 Ha6 Ha7 Hc] [F1 F2 F3 F4 F5]. unfold args_fields, info_of, arrays.
  eapply fields_read_app.
  { apply fields_one; [done|done|]. by apply (reads_named ci_app (λ a i, i <| ci_app := a |>) _ 256). }
  eapply fields_read_app.
  { apply fields_one; [done|done|]. apply reads_string_field; [done|]. intros l. unfold string_field.
    rewrite !decide_False by done. unfold src. rewrite skip_string_enc; [done|bytes_lit|done]. }
  eapply fields_read_app.
  { apply fields_one; [done|done|]. by apply (reads_named ci_tc_url (λ a i, i <| ci_tc_url := a |>) _ 512). }
  eapply fields_read_app.
  { by apply (optional_read ci_page_url (λ a i, i <| ci_page_url := a |>) _ 512). }
  eapply fields_read_app.
  { by apply (optional_read ci_swf_url (λ a i, i <| ci_swf_url := a |>) _ 512). }
  eapply fields_read_app.
  { by apply (optional_read ci_flash_ver (λ a i, i <| ci_flash_ver := a |>) _ 64). }
  eapply fields_read_app; [apply fields_one; [done|done|by apply reads_audio]|].
  eapply fields_read_app; [apply fields_one; [done|done|by apply reads_video]|].
  destruct (ca_caps a) as [c|]; [by apply caps_fields_read|apply read_nil].
Qed.

(** * Every byte of it is a byte *)

Lemma ok_app k l : bytes_ok k → bytes_ok l → bytes_ok (k ++ l).
Proof. apply Forall_app_2. Qed.

Lemma ok_string s : bytes_ok s → bytes_ok (enc_string s).
Proof. intros. apply bytes_ok_cons; [ulia|]. by apply ok_app; [apply bytes_ok_be16|]. Qed.

Lemma ok_number n : bytes_ok (enc_number n).
Proof. apply bytes_ok_cons; [ulia|apply bytes_ok_be64]. Qed.

Lemma ok_concat (ls : list bytes) : Forall bytes_ok ls → bytes_ok (concat ls).
Proof. induction 1; [constructor|]. by apply ok_app. Qed.

Lemma ok_fields fs : Forall (λ f, bytes_ok (fst f) ∧ bytes_ok (snd f)) fs → bytes_ok (enc_fields fs).
Proof.
  intros H. apply ok_concat, Forall_fmap. eapply Forall_impl; [exact H|]. intros [k d] [??].
  apply ok_app; [|done]. by apply ok_app; [apply bytes_ok_be16|].
Qed.

Lemma code_bytes e : entry_ok e → bytes_ok (code e).
Proof. intros He. destruct (code_cases e He) as [-> | (_&_&?&_)]; [bytes_lit|done]. Qed.

Lemma ok_caps c : sendable c → Forall (λ f, bytes_ok (fst f) ∧ bytes_ok (snd f)) (caps_fields c).
Proof.
  intros [[[_ Hl] [_ Hm] _ _] _ _]. unfold caps_fields.
  assert (∀ b k v, bytes_ok k → bytes_ok v → Forall (λ f, bytes_ok (fst f) ∧ bytes_ok (snd f)) (when b k v)) as Hw.
  { intros [] k v ??; repeat constructor; done. }
  repeat (apply Forall_app_2); apply Hw; try bytes_lit.
  - apply bytes_ok_cons; [ulia|]. apply ok_app; [apply bytes_ok_be32|]. apply ok_concat, Forall_fmap.
    eapply Forall_impl; [exact Hl|]. intros e He. by apply ok_string, code_bytes.
  - apply ok_number.
  - apply bytes_ok_cons; [ulia|]. apply ok_app; [|bytes_lit]. apply ok_concat, Forall_fmap.
    eapply Forall_impl; [exact Hm|]. intros [e m] [He _]. apply ok_app; [|apply ok_number].
    apply ok_app; [apply bytes_ok_be16|by apply code_bytes].
  - apply bytes_ok_cons; [ulia|]. by repeat (apply ok_app; [apply bytes_ok_be32|]); apply bytes_ok_be32.
Qed.

Lemma ok_connect a : args_ok a → bytes_ok (enc_connect a).
Proof.
  intros [[] [] [] [] [] _ _ Hc]. unfold enc_connect, args_fields.
  apply ok_app; [apply ok_string; bytes_lit|]. apply ok_app; [apply ok_number|].
  apply ok_app; [bytes_lit|]. apply ok_app; [|bytes_lit]. apply ok_fields.
  assert (∀ b k v, bytes_ok k → bytes_ok v → Forall (λ f, bytes_ok (fst f) ∧ bytes_ok (snd f)) (when b k v)) as Hw.
  { intros [] k v ??; repeat constructor; done. }
  repeat (apply Forall_app_2); try (apply Hw; [bytes_lit|by apply ok_string]);
    try (apply Forall_singleton; split; [bytes_lit|]); try (by apply ok_string); try apply ok_number;
    [apply ok_string; bytes_lit|].
  destruct (ca_caps a); [by apply ok_caps|constructor].
Qed.

(** * The round trip *)

(** The value of a NUL-terminated array. *)
Lemma stored_decoded cap s a : fits cap s → decode_route_amf_string (stored s a) = Ok s.
Proof. intros [_ ? ? _]. by apply route_decoded. Qed.

(** What a server reads is what the client was called with. *)
Record carries (a : ConnectArgs) (i : ConnectInfo) : Prop := {
  cr_app : decode_route_amf_string (ci_app i) = Ok (ca_app a);
  cr_tc_url : decode_route_amf_string (ci_tc_url i) = Ok (ca_tc_url a);
  cr_page_url : decode_route_amf_string (ci_page_url i) = Ok (ca_page_url a);
  cr_swf_url : decode_route_amf_string (ci_swf_url i) = Ok (ca_swf_url a);
  cr_flash_ver : decode_route_amf_string (ci_flash_ver i) = Ok (ca_flash_ver a);
  cr_codecs : ci_audio_codecs i = ca_audio a ∧ ci_video_codecs i = ca_video a;
  cr_txn : ci_transaction_id i = F1;
  cr_has_list : ci_has_four_cc_list i = match ca_caps a with Some c => sends_list c | None => false end;
  cr_has_map : ci_has_video_map i = match ca_caps a with Some c => sends_map c | None => false end;
  cr_has_caps_ex : ci_has_caps_ex i = match ca_caps a with Some c => nc_has_caps_ex c | None => false end;
  cr_has_reconnect : ci_has_reconnect i = match ca_caps a with Some c => nc_has_reconnect c | None => false end;
  cr_list c : ca_caps a = Some c → sends_list c = true → ci_four_cc_list i = nc_four_cc_list c;
  cr_map c : ca_caps a = Some c → sends_map c = true → ci_video_map i = nc_video_map c;
  cr_caps_ex c : ca_caps a = Some c → nc_has_caps_ex c = true → ci_caps_ex_mask i = nc_caps_ex_mask c;
  cr_reconnect c : ca_caps a = Some c → nc_has_reconnect c = true → ci_reconnect i = nc_reconnect c;
}.

Definition named (i : ConnectInfo) : ConnectInfo :=
  i <| ci_name := text "connect" ++ zrepeat 0 57 |> <| ci_transaction_id := F1 |>.

Lemma info_carries a : args_ok a → carries a (info_of a (named connect_info_default)).
Proof.
  intros [H1 H2 H3 H4 H5 _ _ _].
  pose proof (λ x, stored_decoded _ _ x H1). pose proof (λ x, stored_decoded _ _ x H2).
  pose proof (λ x, stored_decoded _ _ x H3). pose proof (λ x, stored_decoded _ _ x H4).
  pose proof (λ x, stored_decoded _ _ x H5).
  unfold info_of. destruct (ca_caps a) as [c|] eqn:Ec; [|split; rewrite ?Ec; try done; cbn; auto; congruence].
  unfold with_caps, with_reconnect, with_map, with_caps_ex, with_list.
  destruct (sends_list c) eqn:El, (nc_has_caps_ex c) eqn:Ex, (sends_map c) eqn:Em, (nc_has_reconnect c) eqn:Er;
    split; rewrite ?Ec; cbn; try done; auto; intros; simplify_eq; congruence.
Qed.

Lemma object_begin_enc l : read_object_begin ([3] ++ l) = (Ok tt, l).
Proof. unfold read_object_begin. by rewrite (bind_ok _ _ _ _ _ (read_u8_app 3 l)). Qed.

Lemma args_fields_len a : (length (args_fields a) ≤ 12)%nat.
Proof.
  unfold args_fields, caps_fields, when. rewrite !length_app.
  destruct (ca_caps a) as [c|]; repeat case_match; simpl; lia.
Qed.

(** C29. A connect command is read as it was built: for every client call within the
    field sizes, with or without capabilities, [build_connect] writes a message
    from which [read_connect_with_encoding] recovers the application, the URLs,
    the codec masks and every capability that was sent, and nothing is left
    unread; whatever the receiving [ConnectInfo] held before does not matter. *)
Theorem connect_roundtrip a b i0 : args_ok a → info_ok i0 →
  Buffer.wf b → Buffer.contents b = [] → zlen (enc_connect a) ≤ Buffer.limit b →
  ∃ b1 b2 i, build a b = (Ok tt, b1) ∧ read_connect_with_encoding (b1, i0) = (Ok 0, (b2, i))
    ∧ Buffer.contents b2 = [] ∧ carries a i.
Proof.
  intros Ha Hi Hb Hc Hl. destruct (emits_connect a Ha b Hb) as (b1&E1&W1&C1&_); [rewrite Hc; zlia|].
  rewrite Hc in C1. simpl in C1. pose proof sim_connect as Hs. rewrite sim_out_iff in Hs.
  destruct (Hs b1 i0 W1) as (r&b2&i&Em&Ep&_); [rewrite C1; by apply ok_connect|done|].
  exists b1, b2, i. split; [done|]. rewrite Em.
  assert (read_connect_with_encoding (enc_connect a ++ [], i0)
    = (Ok 0, ([], info_of a (named connect_info_default)))) as E.
  { unfold read_connect_with_encoding, enc_connect. rewrite <- !app_assoc.
    rewrite (out_ok _ _ _ _ tt connect_info_default) by done.
    destruct (read_string_enc 64 (text "connect") (enc_number F1 ++ [3] ++ enc_fields (args_fields a) ++ [0; 0; 9] ++ []))
      as (arr&Ek&Es); [done..|]. rewrite (src_ok _ _ _ _ _ _ Ek). rewrite (lift_eq _ _ _ _ Es).
    rewrite (lift_eq _ (text "connect" ++ zrepeat 0 57)) by done.
    rewrite (out_ok _ _ _ _ tt (connect_info_default <| ci_name := text "connect" ++ zrepeat 0 57 |>)) by done.
    rewrite (src_ok _ _ _ _ _ _ (number_value_enc F1 _ ltac:(by vm_compute))).
    rewrite (out_ok _ _ _ _ tt (named connect_info_default)) by done.
    rewrite (src_ok _ _ _ _ tt _ (object_begin_enc (enc_fields (args_fields a) ++ [0; 0; 9] ++ []))).
    pose proof (args_fields_len a). apply connect_fields; [by apply args_fields_read|unfold entries_fuel; lia|].
    unfold zlen, MAX_CONNECT_OBJECT_KEYS. lia. }
  rewrite app_nil_r, <- C1, Ep in E. injection E as -> -> ->. split_and!; [done..|]. by apply info_carries.
Qed.

Definition sample_caps : NegotiatedCaps :=
  negotiated_default <| nc_four_cc_list := [text "hvc1" ++ [0]] |> <| nc_has_four_cc_list := true |>
    <| nc_video_map := [(text "*" ++ zrepeat 0 4, 4)] |> <| nc_has_video_map := true |>
    <| nc_caps_ex_mask := 6 |> <| nc_has_caps_ex := true |>.

Definition sample_args : ConnectArgs :=
  mkConnectArgs (text "live") (text "rtmp://host/live") [] [] (text "LNX 9") 3191 252 (Some sample_caps).

Lemma sample_args_ok : args_ok sample_args.
Proof.
  assert (∀ cap s, bool_decide (zlen s < cap ∧ (0 ∉ s) ∧ utf8_valid s = true ∧ Forall (λ x, 0 ≤ x < 256) s) = true → fits cap s) as Hf.
  { intros cap s (?&?&?&?)%bool_decide_eq_true. by split. }
  assert (canonical (text "hvc1" ++ [0]) ∧ canonical (text "*" ++ zrepeat 0 4)) as [C1 C2].
  { split; (split; [split; [done|bytes_lit]|done]). }
  split; try (apply Hf; vm_compute; reflexivity); [cbn; lia..|].
  split; [split|by apply Forall_singleton|by apply Forall_singleton].
  - split; [done|by apply Forall_singleton, C1].
  - split; [done|apply Forall_singleton; split; [apply C2|ulia]].
  - cbn. ulia.
  - cbn. ulia.
Qed.

Lemma connect_roundtrip_witness : ∃ b1 b2 i, build sample_args Buffer.new = (Ok tt, b1)
  ∧ read_connect_with_encoding (b1, connect_info_default) = (Ok 0, (b2, i))
  ∧ Buffer.contents b2 = [] ∧ carries sample_args i.
Proof.
  apply (connect_roundtrip sample_args Buffer.new connect_info_default);
    [apply sample_args_ok|apply info_default_ok|apply Buffer.wf_new|done|by vm_compute].
Defined.

End ConnectWire.
