(* ===== verification/Session.v ===== *)
(** The state of a session, src/session/: the publish route registry
    (publish_route.rs), streams and the connection state machine (stream.rs,
    state_machine.rs, play.rs, publish.rs), and the record [Conn] with what a
    step of it can see of the world around it. *)
From S2P Require Import Prelude Bytes Types Buffer ChunkState ChunkWriter MediaOut Handshake Caps SharedObject ReadLoop.

(** [PublishRouteRegistry]: one map shared by the connections of a server. A
    lock is only refused after a panic of its holder, which the operations on
    the map do not have. *)
Module PublishRouteRegistry.

Abbreviation table := (gmap (bytes * bytes) Z).

Definition claim (conn_id : Z) (app stream : bytes) (map : table) : bool * table :=
  match map !! (app, stream) with
  | Some owner => if owner =? conn_id then (true, <[(app, stream) := conn_id]> map) else (false, map)
  | None => (true, <[(app, stream) := conn_id]> map)
  end.

Definition release (conn_id : Z) (app stream : bytes) (map : table) : table :=
  if decide (map !! (app, stream) = Some conn_id) then delete (app, stream) map else map.

Definition force_release (app stream : bytes) (map : table) : table := delete (app, stream) map.

End PublishRouteRegistry.

(** * Streams *)

Record Stream : Type := mkStreamState {
  stream_id : Z;
  is_publishing : bool;
  is_playing : bool;
  name : bytes;
  paused : bool;
  receive_audio : bool;
  receive_video : bool;
}.
#[global] Instance eta_stream : Eta Stream := λ s,
  mkStreamState (stream_id s) (is_publishing s) (is_playing s) (name s) (paused s)
    (receive_audio s) (receive_video s).

Module Stream.
Definition new (stream_id : Z) : Stream := mkStreamState stream_id false false [] false true true.
End Stream.

(** [publish::publish_begin] and [play::play_begin]. *)
Definition publish_begin (stream_key : bytes) (s : Stream) : Stream :=
  s <| is_publishing := true |> <| name := stream_key |>.
Definition play_begin (stream_name : bytes) (s : Stream) : Stream :=
  s <| is_playing := true |> <| name := stream_name |>.

(** * The connection state machine *)

Module StateMachine.

(** The discriminants of [ConnState], which order it. *)
Definition rank (s : ConnState) : Z :=
  match s with
  | TcpAccepted => 0 | StHandshake => 1 | Connected => 2 | CapsNegotiated => 3 | AppConnected => 4
  | StreamCreated => 5 | Publishing => 6 | Playing => 7 | Closing => 8 | StClosed => 9
  end.

Definition STATE_NAMES : list bytes :=
  [text "TCP_ACCEPTED"; text "HANDSHAKE"; text "CONNECTED"; text "CAPS_NEGOTIATED";
   text "APP_CONNECTED"; text "STREAM_CREATED"; text "PUBLISHING"; text "PLAYING"; text "CLOSING";
   text "CLOSED"].

Definition conn_state_str (s : ConnState) : bytes :=
  default (text "UNKNOWN") (STATE_NAMES !! Z.to_nat (rank s)).

Definition conn_transition (new_state : ConnState) : ST ConnState unit := λ current,
  let peer_role_switch :=
    match current, new_state with Playing, Publishing | Publishing, Playing => true | _, _ => false end in
  if negb peer_role_switch && (rank new_state <? rank current) then (Err Protocol, current)
  else (Ok tt, new_state).

End StateMachine.

(** * Frames, requests and pings held by a connection *)

Record RelayFrame : Type := mkRelayFrame {
  rf_frame_type : FrameType;
  rf_timestamp : Z;
  rf_payload : bytes;
  rf_cache_payload : option bytes;
  rf_app : bytes;
  rf_stream_name : bytes;
  rf_publisher_conn_id : Z;
}.

Definition cache_payload (f : RelayFrame) : bytes := default (rf_payload f) (rf_cache_payload f).

Definition retained_bytes (f : RelayFrame) : Z :=
  saturating_add (saturating_add (saturating_add
    (zlen (rf_payload f)) (from_option zlen 0 (rf_cache_payload f))) (zlen (rf_app f)))
    (zlen (rf_stream_name f)).

Lemma retained_nonneg f : 0 ≤ retained_bytes f.
Proof.
  unfold retained_bytes, saturating_add, USIZE_MAX. pose proof (zlen_nonneg (rf_payload f)).
  pose proof (zlen_nonneg (rf_app f)). pose proof (zlen_nonneg (rf_stream_name f)).
  assert (0 ≤ from_option zlen 0 (rf_cache_payload f)) by (destruct (rf_cache_payload f); simpl; [apply zlen_nonneg|done]).
  lia.
Qed.

(** A frame as the types of its fields have it. *)
Record frame_ok (f : RelayFrame) : Prop := {
  f_ts : is_u32 (rf_timestamp f);
  f_payload : bytes_ok (rf_payload f);
  f_cache : bytes_ok (cache_payload f);
}.

Record RelayCongestion : Type := mkCongestion { min_backlog : Z; last_progress : Z }.

Record PendingAuth : Type := mkPending {
  pa_stream_name : bytes;
  pa_requested_at : Z;
  pa_request_id : Z;
}.

Record QueuedPing : Type := mkPing { qp_token : Z; qp_queued_at : Z; qp_bytes_until_flushed : Z }.

Inductive AuthorizationResult : Type := Allow | Deny | Pending (request_id : Z).

Inductive PublishRouteClaimOutcome : Type := Claimed | Contended | EvictionQueueFull.

(** * Limits *)

Definition MAX_STREAMS_PER_CONN : Z := 16.
Definition MAX_PENDING_RELAY_FRAMES : Z := 1024.
Definition MAX_PENDING_RELAY_BYTES : Z := 8 * 1024 * 1024.
Definition MAX_PENDING_CACHE_EVICTIONS : Z := 64.
Definition SERVER_WINDOW_ACK_SIZE : Z := 2500000.
Definition SERVER_PEER_BANDWIDTH : Z := 2500000.
Definition PEER_BANDWIDTH_DYNAMIC : Z := 2.
Definition MAX_PENDING_PINGS : Z := 4.
Definition SEND_PROGRESS_BYTES : Z := 4096.
Definition MAX_INBOUND_PING_RESPONSES : Z := 8.
Definition MAX_AGGREGATE_SUBTAGS : Z := 4096.
Definition RESOLVED_AUTH_ID_MEMORY : Z := 8.
Definition INVALID_SOCKET : Z := -1.

(** Durations, in milliseconds. *)
Definition PING_INTERVAL : Z := 5000.
Definition PING_TIMEOUT : Z := 10000.
Definition WRITE_STALL_TIMEOUT : Z := PING_TIMEOUT.
Definition DEFAULT_PENDING_AUTH_TIMEOUT : Z := 15000.
Definition INIT_REPLAY_COOLDOWN : Z := 1000.
Definition PUBLISH_MEDIA_REQUIRED_TIMEOUT : Z := 2000.
Definition INBOUND_PING_WINDOW : Z := 1000.
Definition RTMP_SESSION_SETUP_TIMEOUT : Z := 10000.

(** [now.duration_since(t)], which does not go below zero. *)
Definition since (now t : Z) : Z := Z.max 0 (now - t).

(** * The connection

    [Conn], with the socket and its file descriptor reduced to whether they are
    there ([transport], [client_fd]), the shared registry to whether it is
    installed ([publish_routes]), and time to milliseconds. Left out are what
    only the log reads (the peer's address, the close reason, the creation
    time), telemetry in floating point (the round trip time), the mutex of the
    C interface, and the scratch buffer that keeps a callback's frame alive;
    the callbacks are in [Hooks]. *)
Record Conn : Type := mkConn {
  state : ConnState;
  handshake : Handshake;
  recv_buffer : Buffer;
  send_buffer : Buffer;
  chunk_reg : ChunkRegistry;
  chunk_size : Z;
  active_chunk_size : Z;
  window_ack_size : Z;
  bytes_received : Z;
  bytes_at_last_ack : Z;
  media_bytes_received : Z;
  injected_media_bytes : Z;
  injected_media_bytes_total : Z;
  media_bytes_at_epoch_start : Z;
  injected_bytes_at_epoch_start : Z;
  teardown_grace_media_bytes_received : Z;
  teardown_grace_injected_bytes : Z;
  publish_media_deadline_route : option bytes;
  media_bytes_sent : Z;
  pause_grace_media_bytes_sent : Z;
  client_fd : Z;
  conn_id : Z;
  transport : bool;
  app : bytes;
  relay_key : bytes;
  next_stream_id : Z;
  active_stream_count : Z;
  current_stream : option Stream;
  connect_cb_fired : bool;
  pending_relay : list RelayFrame;
  needs_init_frames : bool;
  compact_media_headers : bool;
  media_out_headers : MediaOut.tracker;
  relay_congestion : option RelayCongestion;
  relay_frames_dropped : Z;
  last_init_replay_request : option Z;
  init_replay_deferred : bool;
  detected_video_codec : option bytes;
  detected_audio_codec : option bytes;
  detected_video_width : option Z;
  detected_video_height : option Z;
  detected_video_framerate : option Z;
  detected_audio_sample_rate : option Z;
  detected_audio_channels : option Z;
  detected_hdr_info : option HdrInfo;
  relay_enabled : bool;
  defer_media_relay : bool;
  max_pending_relay_bytes : Z;
  pending_publish_auth : option PendingAuth;
  pending_play_auth : option PendingAuth;
  resolved_publish_auth_ids : list Z;
  resolved_play_auth_ids : list Z;
  publish_auth_sealed : bool;
  play_auth_sealed : bool;
  publish_routes : bool;
  claimed_publish_route : option bytes;
  pending_cache_evictions : list (bytes * bytes);
  abandoned_relay_routes : list (bytes * bytes);
  pending_pings : gmap Z Z;
  send_progress_bytes : Z;
  staged_media_bytes : Z;
  last_send_progress : option Z;
  last_recv_progress : option Z;
  send_stalled_since : option Z;
  queued_ping : option QueuedPing;
  last_ping_sent : option Z;
  next_ping_token : Z;
  inbound_ping_responses : Z;
  inbound_ping_window_start : option Z;
  budget_exhausted : bool;
  recv_track_budget : Z;
  session_setup_started : Z;
  negotiated_caps : NegotiatedCaps;
  buffer_length_ms : Z;
  connect_object_encoding : Z;
}.
#[global] Instance eta_conn : Eta Conn := λ c,
  mkConn (state c) (handshake c) (recv_buffer c) (send_buffer c) (chunk_reg c) (chunk_size c)
    (active_chunk_size c) (window_ack_size c) (bytes_received c) (bytes_at_last_ack c)
    (media_bytes_received c) (injected_media_bytes c) (injected_media_bytes_total c)
    (media_bytes_at_epoch_start c) (injected_bytes_at_epoch_start c)
    (teardown_grace_media_bytes_received c) (teardown_grace_injected_bytes c)
    (publish_media_deadline_route c) (media_bytes_sent c) (pause_grace_media_bytes_sent c)
    (client_fd c) (conn_id c) (transport c) (app c) (relay_key c) (next_stream_id c)
    (active_stream_count c) (current_stream c) (connect_cb_fired c) (pending_relay c)
    (needs_init_frames c) (compact_media_headers c) (media_out_headers c) (relay_congestion c)
    (relay_frames_dropped c)
    (last_init_replay_request c) (init_replay_deferred c) (detected_video_codec c)
    (detected_audio_codec c) (detected_video_width c) (detected_video_height c)
    (detected_video_framerate c) (detected_audio_sample_rate c) (detected_audio_channels c)
    (detected_hdr_info c) (relay_enabled c) (defer_media_relay c) (max_pending_relay_bytes c)
    (pending_publish_auth c) (pending_play_auth c) (resolved_publish_auth_ids c)
    (resolved_play_auth_ids c) (publish_auth_sealed c) (play_auth_sealed c) (publish_routes c)
    (claimed_publish_route c) (pending_cache_evictions c) (abandoned_relay_routes c)
    (pending_pings c) (send_progress_bytes c) (staged_media_bytes c) (last_send_progress c)
    (last_recv_progress c) (send_stalled_since c) (queued_ping c) (last_ping_sent c)
    (next_ping_token c) (inbound_ping_responses c) (inbound_ping_window_start c) (budget_exhausted
    c) (recv_track_budget c) (session_setup_started c) (negotiated_caps c) (buffer_length_ms c)
    (connect_object_encoding c).

(** The callbacks an application may install, and what it answers. A callback
    that only observes is whether it is there; what it is told is an [Event]. *)
Record Hooks : Type := mkHooks {
  on_frame_cb : bool;
  on_media_cb : option (Z → FrameType → option bytes → bool);
  on_connect_cb : bool;
  on_publish_cb : option (Z → bytes → bytes → bool);
  on_play_cb : option (Z → bytes → bytes → bool);
  on_publish_auth_cb : option (Z → bytes → bytes → AuthorizationResult);
  on_play_auth_cb : option (Z → bytes → bytes → AuthorizationResult);
  c_publish_auth : option (Z → bytes → bytes → Z);
  c_play_auth : option (Z → bytes → bytes → Z);
  on_shared_object_auth_cb : option (Z → SharedObject.SharedObjectMessage → bool);
  on_shared_object_cb : bool;
  on_release_stream_cb : option (Z → bytes → bytes → bool);
}.

Definition no_hooks : Hooks :=
  mkHooks false None false None None None None None None None false None.

Inductive Event : Type :=
  | OnFrame (f : Frame)
  | OnConnect
  | OnSharedObject (so : SharedObject.SharedObjectMessage).

(** What one call reads of its surroundings: the callbacks, the clock, and the
    time and random seeds of a handshake answer. *)
Record Env : Type := mkEnv {
  hooks : Hooks;
  now : Z;
  server_time : Z;
  seed1 : Handshake.seed;
  seed2 : Handshake.seed;
}.

(** The connection, the registry its server shares among all of them, what the
    callbacks were told (latest last), the bytes the socket took, and the
    answers it will give to the coming writes: how many bytes it has room for,
    or an error; it would block when there is none. *)
Record World : Type := mkWorld {
  conn : Conn;
  routes : PublishRouteRegistry.table;
  events : list Event;
  wire : bytes;
  net : list (nat + ErrorCode);
}.
#[global] Instance eta_world : Eta World := λ w,
  mkWorld (conn w) (routes w) (events w) (wire w) (net w).

Module Conn.
(** [Conn::new], at the time [now]. *)
Definition new (now : Z) : Conn :=
  mkConn TcpAccepted Handshake.default Buffer.new Buffer.new (Registry.init Registry.new)
    DEFAULT_CHUNK_SIZE DEFAULT_CHUNK_SIZE 0 0 0 0 0 0 0 0 0 0 None 0 0 INVALID_SOCKET 0 false []
    [] 0 0 None false [] false true MediaOut.new_tracker None 0 None false None None None None None
    None None None false false MAX_PENDING_RELAY_BYTES None None [] [] false false false None []
    [] ∅ 0 0 None None None None None 1 0 None false ReadLoop.MAX_TRACKS_PER_RECV now
    negotiated_default 3000 0.

(** [self], its assignment, and calls on one of its fields. *)
Definition self : ST World Conn := λ w, (Ok (conn w), w).
Definition upd (f : Conn → Conn) : ST World unit := modify (λ w, w <| conn := f (conn w) |>).
(** A method that also returns a value, or may fail, before it assigns. *)
Definition state_conn {A} (f : Conn → A * Conn) : ST World A := λ w,
  let '(a, c) := f (conn w) in (Ok a, w <| conn := c |>).
Definition try_upd (f : Conn → Res Conn) : ST World unit := λ w,
  match f (conn w) with
  | Ok c => (Ok tt, w <| conn := c |>)
  | Err e => (Err e, w)
  | Panic => (Panic, w)
  end.
Definition with_routes {A} (f : PublishRouteRegistry.table → A * PublishRouteRegistry.table) : ST World A :=
  λ w, let '(a, t) := f (routes w) in (Ok a, w <| routes := t |>).
Definition on_field {P A} (get : Conn → P) (set : P → Conn → Conn) (m : ST P A) : ST World A := λ w,
  let '(r, p) := m (get (conn w)) in (r, w <| conn := set p (conn w) |>).
Definition on_send {A} : ST Buffer A → ST World A := on_field send_buffer (λ b c, c <| send_buffer := b |>).
Definition emit (e : Event) : ST World unit := modify (λ w, w <| events := events w ++ [e] |>).
Definition when (c : bool) (m : ST World unit) : ST World unit := if c then m else mret tt.

(** The current stream's flags, [false] when there is none. *)
Definition publishing (c : Conn) : bool := from_option is_publishing false (current_stream c).
Definition playing (c : Conn) : bool := from_option is_playing false (current_stream c).
Definition stream_or (d : Z) (c : Conn) : Z := from_option stream_id d (current_stream c).
Definition upd_stream (f : Stream → Stream) (c : Conn) : Conn :=
  c <| current_stream := f <$> current_stream c |>.

Definition transition (s : ConnState) : ST World unit :=
  ignore (on_field state (λ s c, c <| state := s |>) (StateMachine.conn_transition s)).

End Conn.

(** * Accepted connections *)

(** [ResourceLimits], and the settings a server hands to its connections. *)
Record ResourceLimits : Type := mkLimits {
  rl_max_stream_cache_bytes : Z;
  rl_max_reassembly_bytes : Z;
  rl_max_pending_relay_bytes : Z;
}.

Definition limits_default : ResourceLimits :=
  mkLimits (64 * 1024 * 1024) (32 * 1024 * 1024) (8 * 1024 * 1024).

Record Settings : Type := mkSettings {
  st_limits : ResourceLimits;
  st_chunk_size : Z;
  st_defer_media_relay : bool;
  st_compact_media_headers : bool;
}.

Definition MAX_INBOUND_CHUNK_SIZE : Z := 65536.

(** [(self.config.chunk_size as u32).clamp(..)] when it is positive; it is an [i32]. *)
Definition outbound_chunk_size (configured : Z) : Z :=
  if 0 <? configured then Z.min (Z.max configured DEFAULT_CHUNK_SIZE) MAX_INBOUND_CHUNK_SIZE
  else DEFAULT_CHUNK_SIZE.

(** The connection [Server::add_connection] makes for a socket. *)
Definition accepted (st : Settings) (now fd id : Z) : Conn :=
  let c := Conn.new now in
  c <| chunk_reg := Registry.set_max_reassembly_bytes (rl_max_reassembly_bytes (st_limits st)) (chunk_reg c) |>
    <| max_pending_relay_bytes := rl_max_pending_relay_bytes (st_limits st) |>
    <| chunk_size := outbound_chunk_size (st_chunk_size st) |>
    <| client_fd := fd |> <| conn_id := id |>
    <| defer_media_relay := st_defer_media_relay st |>
    <| compact_media_headers := st_compact_media_headers st |>
    <| transport := true |> <| publish_routes := true |>.
