(* ===== verification/ConnRelay.v ===== *)
(** The publish routes and the relay queue of a connection, src/session/conn.rs:
    claiming and releasing a route in the shared registry, the bounded queues of
    cache evictions and abandoned routes, the frames queued for relay, the
    trusted injection of frames, and the deadlines that reap idle peers. *)
From S2P Require Import Prelude Bytes Types Buffer ChunkState Caps Modex Session.

Module Relay.
Import Conn.

(** * Deadlines *)

Definition received_media_in_current_epoch (c : Conn) : bool :=
  media_bytes_at_epoch_start c <? media_bytes_received c.

Definition media_flowed_since_arm (c : Conn) : bool :=
  (media_bytes_at_epoch_start c <? media_bytes_received c)
  || (injected_bytes_at_epoch_start c <? injected_media_bytes_total c).

Definition publish_media_squat_expired (now : Z) (c : Conn) : bool :=
  negb (received_media_in_current_epoch c) && (injected_media_bytes c =? 0)
  && (PUBLISH_MEDIA_REQUIRED_TIMEOUT <=? since now (session_setup_started c)).

Definition has_pending_publish_authorization (c : Conn) : bool :=
  bool_decide (is_Some (pending_publish_auth c)).
Definition has_pending_play_authorization (c : Conn) : bool :=
  bool_decide (is_Some (pending_play_auth c)).
Definition has_pending_authorization (c : Conn) : bool :=
  has_pending_publish_authorization c || has_pending_play_authorization c.

Definition session_setup_timed_out (now : Z) (c : Conn) : bool :=
  if has_pending_authorization c then false else
  match current_stream c with
  | None =>
      if bool_decide (is_Some (claimed_publish_route c)) then publish_media_squat_expired now c
      else RTMP_SESSION_SETUP_TIMEOUT <=? since now (session_setup_started c)
  | Some stream =>
      let holding_inject_claim := bool_decide (is_Some (claimed_publish_route c)) in
      if is_publishing stream || holding_inject_claim then publish_media_squat_expired now c else
      if bool_decide (is_Some (claimed_publish_route c)) && publish_media_squat_expired now c then true else
      if since now (session_setup_started c) <? RTMP_SESSION_SETUP_TIMEOUT then false else
      if is_playing stream then negb (negb (paused stream) && (0 <? media_bytes_sent c)) else true
  end.

(** * Routes *)

Definition pending_relay_bytes (c : Conn) : Z := foldr (λ f n, retained_bytes f + n) 0 (pending_relay c).

(** [relay_route_key_str]. *)
Definition relay_route_key (c : Conn) : bytes :=
  if decide (relay_key c = []) then from_option name [] (current_stream c) else relay_key c.

Definition accepts_multitrack (c : Conn) : bool :=
  negb (nc_has_caps_ex (negotiated_caps c)) || nc_multitrack_enabled (negotiated_caps c).

(** [!(a == app && r == route)]. *)
Definition other_route (app route : bytes) (x : bytes * bytes) : bool :=
  negb (bool_decide (x = (app, route))).
Definition frame_on (app route : bytes) (f : RelayFrame) : bool :=
  bool_decide (rf_app f = app) && bool_decide (rf_stream_name f = route).

Definition note_abandoned_relay_route (app route : bytes) (c : Conn) : Conn :=
  let l := List.filter (other_route app route) (abandoned_relay_routes c) in
  match l with
  | (old_app, old_route) :: rest =>
      if MAX_PENDING_CACHE_EVICTIONS <=? zlen l then
        c <| pending_relay := List.filter (λ f, negb (frame_on old_app old_route f)) (pending_relay c) |>
          <| abandoned_relay_routes := rest ++ [(app, route)] |>
      else c <| abandoned_relay_routes := l ++ [(app, route)] |>
  | [] => c <| abandoned_relay_routes := l ++ [(app, route)] |>
  end.

Definition try_push_pending_cache_eviction (app route_key : bytes) (c : Conn) : Conn :=
  let c := match pending_cache_evictions c with
    | (old_app, old_route) :: rest =>
        if MAX_PENDING_CACHE_EVICTIONS <=? zlen (pending_cache_evictions c) then
          note_abandoned_relay_route old_app old_route (c <| pending_cache_evictions := rest |>)
        else c
    | [] => c
    end in
  c <| pending_cache_evictions := pending_cache_evictions c ++ [(app, route_key)] |>.

(** Whether there was room, and the connection. *)
Definition push_pending_cache_eviction (app route_key : bytes) (c : Conn) : bool * Conn :=
  if MAX_PENDING_CACHE_EVICTIONS <=? zlen (pending_cache_evictions c) then (false, c)
  else (true, c <| pending_cache_evictions := pending_cache_evictions c ++ [(app, route_key)] |>).

(** Evict each key once, the empty one never. *)
Fixpoint evict_keys (app : bytes) (evicted keys : list bytes) (c : Conn) : Conn :=
  match keys with
  | [] => c
  | k :: keys =>
      if bool_decide (k = []) || bool_decide (k ∈ evicted) then evict_keys app evicted keys c
      else evict_keys app (k :: evicted) keys (try_push_pending_cache_eviction app k c)
  end.

Definition clear_detected_stream_metadata (c : Conn) : Conn :=
  c <| detected_video_codec := None |> <| detected_audio_codec := None |>
    <| detected_video_width := None |> <| detected_video_height := None |>
    <| detected_video_framerate := None |> <| detected_audio_sample_rate := None |>
    <| detected_audio_channels := None |> <| detected_hdr_info := None |>.

(** [if let Some(routes) = self.publish_routes { routes.release(..) }]. *)
Definition release_route (route : bytes) : ST World unit :=
  c ← self;
  when (publish_routes c)
    (with_routes (λ t, (tt, PublishRouteRegistry.release (conn_id c) (app c) route t))).
Definition claim_route (route : bytes) : ST World bool :=
  c ← self; with_routes (PublishRouteRegistry.claim (conn_id c) (app c) route).

Definition release_claimed_publish_route : ST World unit :=
  c ← self;
  match claimed_publish_route c with
  | Some claimed => upd (λ c, c <| claimed_publish_route := None |>);; release_route claimed
  | None => mret tt
  end.

Definition evict_active_publish_route : ST World unit :=
  c ← self;
  let claimed_route := claimed_publish_route c in
  release_claimed_publish_route;;
  if negb (publishing c) then
    match claimed_route with
    | Some route_key =>
        when (negb (bool_decide (route_key = [])))
          (upd (λ c, try_push_pending_cache_eviction (app c) route_key c))
    | None => mret tt
    end;;
    upd (λ c, c <| injected_media_bytes := 0 |>)
  else
    upd (λ c, evict_keys (app c) [] (option_list claimed_route ++ [relay_route_key c]) c);;
    upd clear_detected_stream_metadata;;
    upd (λ c, c <| injected_media_bytes := 0 |>).

Definition detach_lost_publish_route (c : Conn) : Conn :=
  match claimed_publish_route c with
  | None => c
  | Some claimed =>
      let live := relay_route_key c in
      let c := c <| claimed_publish_route := None |> <| relay_enabled := false |> in
      let c := c <| pending_relay := List.filter
        (λ f, negb (frame_on (app c) claimed f || frame_on (app c) live f)) (pending_relay c) |> in
      evict_keys (app c) [] [claimed; live] c
  end.

Definition relay_route_abandoned (app route : bytes) (c : Conn) : bool :=
  existsb (λ x, bool_decide (x = (app, route))) (abandoned_relay_routes c).

Definition claim_publish_route (stream : bytes) : ST World PublishRouteClaimOutcome :=
  c ← self;
  if negb (publish_routes c) then
    upd (λ c, c <| claimed_publish_route := Some stream |>);; mret Claimed
  else
    claimed ← claim_route stream;
    if negb claimed then mret Contended else
    match claimed_publish_route c with
    | None => upd (λ c, c <| claimed_publish_route := Some stream |>);; mret Claimed
    | Some prev =>
        if decide (prev = stream) then mret Claimed else
        upd (λ c, c <| claimed_publish_route := None |>);;
        release_route prev;;
        room ← (if decide (prev = []) then mret true
                else state_conn (λ c, push_pending_cache_eviction (app c) prev c));
        if room : bool then
          upd (λ c, c <| claimed_publish_route := Some stream |>);; mret Claimed
        else
          release_route stream;;
          claim_route prev;;
          upd (λ c, c <| claimed_publish_route := Some prev |>);; mret EvictionQueueFull
    end.

(** * The relay queue *)

(** [max_msg_length.min(RTMP_WIRE_MAX_MSG_LENGTH)]. *)
Definition max_len (c : Conn) : Z := Z.min (max_msg_length (chunk_reg c)) RTMP_WIRE_MAX_MSG_LENGTH.

(** The bytes for classification are kept only when they are not the payload
    itself, which a [Cow::Borrowed] is. *)
Definition owned_payload (cache : Modex.Cow) : option bytes :=
  match cache with Modex.Borrowed _ => None | Modex.Owned p => Some p end.

Definition queue_relay_frame (frame_type : FrameType) (timestamp : Z) (payload : bytes)
    (cache : Modex.Cow) : ST World unit :=
  c ← self;
  guard_st (max_len c <? zlen payload) Internal;;
  let frame := mkRelayFrame frame_type timestamp payload (owned_payload cache) (app c)
                 (relay_route_key c) (conn_id c) in
  guard_st ((MAX_PENDING_RELAY_FRAMES <=? zlen (pending_relay c))
    || (max_pending_relay_bytes c <? saturating_add (pending_relay_bytes c) (retained_bytes frame))) Internal;;
  upd (λ c, c <| abandoned_relay_routes :=
    List.filter (other_route (app c) (relay_route_key c)) (abandoned_relay_routes c) |>);;
  upd (λ c, c <| pending_relay := pending_relay c ++ [frame] |>).

(** [.saturating_add((payload.len() as u64).max(1))]. *)
Definition count_inject (n : Z) (payload : bytes) : Z := saturating_add n (Z.max (zlen payload) 1).

Definition inject_relay_frame (frame_type : FrameType) (timestamp : Z) (payload : bytes) : ST World unit :=
  c ← self;
  guard_st (max_len c <? zlen payload) Internal;;
  guard_st (playing c && negb (publishing c)) Internal;;
  let stream_name := relay_route_key c in
  guard_st (bool_decide (app c = []) || bool_decide (stream_name = [])) Internal;;
  guard_st ((1024 <? zlen (app c)) || (1024 <? zlen stream_name)) Internal;;
  let previous_claim := claimed_publish_route c in
  let eviction_len_before := zlen (pending_cache_evictions c) in
  let already_owned_route := bool_decide (claimed_publish_route c = Some stream_name) in
  outcome ← claim_publish_route stream_name;
  match outcome with
  | Claimed =>
      normalized ← lift (Modex.normalize_modex_payload_with_frame_type payload CAPS_EX_MASK_MODEX frame_type);
      (λ w, match queue_relay_frame frame_type timestamp payload normalized w with
            | (Err e, w) =>
                (when (negb already_owned_route)
                   (release_claimed_publish_route;;
                    upd (λ c, c <| pending_cache_evictions :=
                      ztake eviction_len_before (pending_cache_evictions c) |>);;
                    match previous_claim with
                    | Some prev =>
                        c ← self;
                        when (publish_routes c) (claim_route prev;; mret tt);;
                        upd (λ c, c <| claimed_publish_route := Some prev |>);;
                        upd (λ c, c <| relay_key := prev |>)
                    | None => mret tt
                    end);;
                 fail e) w
            | r => r
            end);;
      upd (λ c, c <| injected_media_bytes := count_inject (injected_media_bytes c) payload |>);;
      upd (λ c, c <| injected_media_bytes_total := count_inject (injected_media_bytes_total c) payload |>)
  | _ =>
      upd (λ c, match claimed_publish_route c with
                | Some claimed => c <| relay_key := claimed |>
                | None => c
                end);;
      fail Internal
  end.

(** * Init frames for a new player, and teardown grace *)

Section clock.
Context (now : Z).

Definition cooling (c : Conn) : bool :=
  match last_init_replay_request c with
  | Some last => since now last <? INIT_REPLAY_COOLDOWN
  | None => false
  end.

Definition request_init_replay (c : Conn) : Conn :=
  if cooling c then c <| init_replay_deferred := true |>
  else c <| last_init_replay_request := Some now |> <| init_replay_deferred := false |>
         <| needs_init_frames := true |>.

Definition rearm_deferred_init_replay (c : Conn) : Conn :=
  if negb (init_replay_deferred c) then c else
  if needs_init_frames c then c <| init_replay_deferred := false |> else
  if cooling c then c
  else c <| last_init_replay_request := Some now |> <| needs_init_frames := true |>
         <| init_replay_deferred := false |>.

Definition teardown_refreshes_setup_timer (c : Conn) : bool * Conn :=
  let media_since_last_grant :=
    (teardown_grace_media_bytes_received c <? media_bytes_received c)
    || (teardown_grace_injected_bytes c <? injected_media_bytes_total c) in
  if negb media_since_last_grant && (media_bytes_sent c <=? pause_grace_media_bytes_sent c)
  then (false, c)
  else (true, c <| teardown_grace_media_bytes_received := media_bytes_received c |>
                <| teardown_grace_injected_bytes := injected_media_bytes_total c |>
                <| pause_grace_media_bytes_sent := media_bytes_sent c |>).

(** [if was_active && self.teardown_refreshes_setup_timer() { .. = Instant::now() }]. *)
Definition refresh_setup_timer (was_active : bool) (c : Conn) : Conn :=
  if was_active then
    let '(granted, c) := teardown_refreshes_setup_timer c in
    if granted then c <| session_setup_started := now |> else c
  else c.
End clock.

Definition is_publisher_stream (msg_stream_id : Z) (c : Conn) : bool :=
  negb (has_pending_publish_authorization c)
  && match current_stream c with
     | Some stream => is_publishing stream && (stream_id stream =? msg_stream_id)
     | None => false
     end.

Definition is_active_publisher_stream (msg_stream_id : Z) (c : Conn) : bool :=
  relay_enabled c && is_publisher_stream msg_stream_id c.

Definition publishing_metadata_allowed (msg_stream_id : Z) (c : Conn) : bool :=
  let expected_stream_id :=
    match current_stream c with Some s => if is_publishing s then stream_id s else 0 | None => 0 end in
  (msg_stream_id =? expected_stream_id) && negb (expected_stream_id =? 0).

End Relay.
