(* ===== verification/ConnSend.v ===== *)
(** What a connection sends, src/session/conn.rs: control messages, command
    replies and media into the send buffer, the send buffer and staged media to
    the socket, and the ping that measures whether the peer is alive. *)
From S2P Require Import Prelude Bytes Types Buffer F64 ChunkState ChunkWriter MediaOut Amf0 Control Caps Command SharedObject Session.

Module Sender.
Import Conn Amf0.

(** * Messages *)

(** [ChunkMessage::default] with the fields a sender sets. *)
Definition outgoing (csid : Z) (ty len msg_stream_id : Z) : ChunkMessage :=
  mkMsg csid 0 0 (as_u32 len) ty msg_stream_id false.

Definition send_message (csid ty msg_stream_id : Z) (data : bytes) : ST World unit :=
  c ← self;
  on_send (Writer.chunk_write (outgoing csid ty (zlen data) msg_stream_id) data (zlen data)
             (active_chunk_size c)).

Definition send_control (ty : Z) (data : bytes) : ST World unit := send_message 2 ty 0 data.
Definition send_command (msg_stream_id : Z) (amf_data : bytes) : ST World unit :=
  send_message 3 20 msg_stream_id amf_data.
Definition send_acknowledgement (seq : Z) : ST World unit := send_control 3 (to_be_bytes32 seq).

(** What [m] writes into a buffer made for it, [amf_buf.as_slice()]. *)
Definition encoded (capacity : Z) (m : ST Buffer unit) : Res bytes :=
  match m (Buffer.with_capacity capacity) with
  | (Ok _, b) => Buffer.as_slice b
  | (Err e, _) => Err e
  | (Panic, _) => Panic
  end.

Definition RTMP_MSG_USER_CONTROL : Z := 4.
Definition RTMP_MSG_AMF3_SHARED_OBJECT : Z := 16.

Definition send_user_control (capacity : Z) (m : ST Buffer unit) : ST World unit :=
  d ← lift (encoded capacity m); send_control RTMP_MSG_USER_CONTROL d.

Definition send_user_control_ping_request (timestamp : Z) : ST World unit :=
  send_user_control 6 (Control.write_user_control_ping_request timestamp).
Definition send_user_control_ping_response (timestamp : Z) : ST World unit :=
  send_user_control 6 (Control.write_user_control_ping_response timestamp).

Definition send_stream_lifecycle_begin (stream_id : Z) : ST World unit :=
  send_user_control 14 (Control.write_user_control_stream_begin stream_id);;
  c ← self;
  send_user_control 14 (Control.write_user_control_set_buffer_length stream_id (buffer_length_ms c)).
Definition send_stream_lifecycle_eof (stream_id : Z) : ST World unit :=
  send_user_control 6 (Control.write_user_control_stream_eof stream_id).

Definition send_shared_object (so : SharedObject.SharedObjectMessage) : ST World unit :=
  d ← lift (encoded 256 (SharedObject.write so));
  send_message 3 RTMP_MSG_AMF3_SHARED_OBJECT 0 (0 :: d).

Definition CONNECT_FMS_VERSION : bytes := text "FMS/3,0,1,123".
Definition CONNECT_CAPABILITIES : Z := F64.of_int 31.

Definition connect_result (transaction_id object_encoding : Z) (caps : option NegotiatedCaps)
    : ST Buffer unit :=
  write_string (text "_result");; write_number transaction_id;;
  write_object_begin;;
  write_object_key (text "fmsVer");; write_string CONNECT_FMS_VERSION;;
  write_object_key (text "capabilities");; write_number CONNECT_CAPABILITIES;;
  write_object_key (text "mode");; write_number (F64.of_int 1);;
  write_object_end;;
  write_object_begin;;
  write_object_key (text "level");; write_string (text "status");;
  write_object_key (text "code");; write_string (text "NetConnection.Connect.Success");;
  write_object_key (text "description");; write_string (text "Connection succeeded.");;
  write_object_key (text "objectEncoding");; write_number object_encoding;;
  match caps with Some caps => ConnectAmf.write_negotiated_caps caps | None => mret tt end;;
  write_object_end.

Definition send_connect_response (transaction_id : Z) (caps : option NegotiatedCaps) : ST World unit :=
  send_control 5 (to_be_bytes32 SERVER_WINDOW_ACK_SIZE);;
  send_control 6 (to_be_bytes32 SERVER_PEER_BANDWIDTH ++ [PEER_BANDWIDTH_DYNAMIC]);;
  c ← self;
  send_control 1 (to_be_bytes32 (chunk_size c));;
  upd (λ c, c <| active_chunk_size := chunk_size c |>);;
  c ← self;
  d ← lift (encoded 512 (connect_result transaction_id (connect_object_encoding c) caps));
  send_command 0 d.

Definition send_command_error (transaction_id : Z) (code description : bytes) : ST World unit :=
  d ← lift (encoded 256 (Command.build_error transaction_id code description)); send_command 0 d.

Definition send_create_stream_response (transaction_id stream_id : Z) : ST World unit :=
  d ← lift (encoded 256 (Command.build_create_stream_result transaction_id (F64.of_int stream_id)));
  send_command 0 d.

Definition send_onstatus (stream_id : Z) (level code description : bytes) : ST World unit :=
  d ← lift (encoded 512 (Command.build_onstatus level code description)); send_command stream_id d.

Definition send_reconnect_request (tc_url description : option bytes) : ST World unit :=
  d ← lift (encoded 512 (Command.build_reconnect_request tc_url description)); send_command 0 d.

Definition send_publish_denied : ST World unit :=
  send_onstatus 0 (text "error") (text "NetStream.Publish.BadName") (text "Publish not authorized").
Definition send_play_denied : ST World unit :=
  send_onstatus 0 (text "error") (text "NetStream.Play.Failed") (text "Play not authorized").

(** * Media *)

Definition media_chunk_size (c : Conn) : Z := if active_chunk_size c =? 0 then 128 else active_chunk_size c.
Definition media_stream_id (c : Conn) : Z := stream_or 1 c.

(** The send buffer and the header tracker. *)
Definition on_media {A} : ST MediaOut.mstate A → ST World A :=
  on_field (λ c, (send_buffer c, media_out_headers c))
    (λ p c, c <| send_buffer := p.1 |> <| media_out_headers := p.2 |>).
Definition count_sent (n : Z) : ST World unit :=
  upd (λ c, c <| media_bytes_sent := saturating_add (media_bytes_sent c) n |>).

Definition send_frame (frame_type : FrameType) (timestamp : Z) (payload : bytes) : ST World unit :=
  c ← self;
  on_media (MediaOut.write_media_message (compact_media_headers c)
    (MediaOut.mkInfo frame_type (media_stream_id c) timestamp) payload (media_chunk_size c));;
  count_sent (zlen payload).

Definition send_data_message (timestamp : Z) (payload : bytes) : ST World unit :=
  send_frame Script timestamp payload.

Definition send_encoded_media_body (frame_type : FrameType) (timestamp payload_len : Z) (body : bytes)
    : ST World unit :=
  c ← self;
  on_media (MediaOut.write_media_message_with_body (compact_media_headers c)
    (MediaOut.mkInfo frame_type (media_stream_id c) timestamp) payload_len body);;
  count_sent payload_len.

Definition can_stage_media (tls : bool) (c : Conn) : bool :=
  (Buffer.available (send_buffer c) =? 0) && negb (client_fd c =? INVALID_SOCKET)
  && (transport c && negb tls).

(** [headers] is the caller's buffer, returned with the header appended. *)
Definition stage_encoded_media_body (frame_type : FrameType) (timestamp payload_len body_len : Z)
    (headers : Buffer) : ST World (Z * Buffer) := λ w,
  let c := conn w in
  match MediaOut.choose (media_out_headers c) (compact_media_headers c) frame_type (media_stream_id c)
          timestamp payload_len with
  | Ok header =>
      let head_len := MediaOut.encoded_len header in
      match (Buffer.reserve head_len;; MediaOut.write_header header) headers with
      | (Ok _, headers) =>
          match MediaOut.commit header (media_out_headers c) with
          | Ok t =>
              (Ok (head_len, headers),
               w <| conn := c <| media_out_headers := t |>
                 <| media_bytes_sent := saturating_add (media_bytes_sent c) payload_len |>
                 <| staged_media_bytes := saturating_add (staged_media_bytes c) (head_len + body_len) |> |>)
          | Err e => (Err e, w)
          | Panic => (Panic, w)
          end
      | (Err e, _) => (Err e, w)
      | (Panic, _) => (Panic, w)
      end
  | Err e => (Err e, w)
  | Panic => (Panic, w)
  end.

(** * To the socket *)

Section clock.
Context (now : Z).

Definition note_bytes_sent (n : Z) (c : Conn) : Conn :=
  let c := if 0 <? n then c <| send_stalled_since := None |> else c in
  let c := c <| send_progress_bytes := saturating_add (send_progress_bytes c) n |> in
  let c := if SEND_PROGRESS_BYTES <=? send_progress_bytes c
    then c <| send_progress_bytes := 0 |> <| last_send_progress := Some now |> else c in
  match queued_ping c with
  | Some q => c <| queued_ping := Some (mkPing (qp_token q) (qp_queued_at q)
                (saturating_sub (qp_bytes_until_flushed q) n)) |>
  | None => c
  end.

Definition commit_flushed_ping (c : Conn) : Conn :=
  match queued_ping c with
  | None => c
  | Some queued =>
      if 0 <? qp_bytes_until_flushed queued then c
      else c <| pending_pings := <[qp_token queued := now]> (pending_pings c) |>
             <| last_ping_sent := Some now |> <| queued_ping := None |>
  end.

(** The loop of [flush], one turn per answer of the socket. *)
Fixpoint flush_loop (answers : list (nat + ErrorCode)) (c : Conn) (wire : bytes)
    : Res unit * Conn * bytes * list (nat + ErrorCode) :=
  if (Buffer.available (send_buffer c) <=? 0) || negb (transport c) then (Ok tt, c, wire, answers) else
  match answers with
  | [] => (Ok tt, c, wire, [])
  | answer :: answers =>
      match Buffer.peek (send_buffer c), answer with
      | Ok data, inl sent =>
          let n := Z.min (Z.of_nat sent) (zlen data) in
          if n =? 0 then (Ok tt, c, wire, answers)
          else flush_loop answers
                 (note_bytes_sent n (c <| send_buffer := Buffer.drain n (send_buffer c) |>))
                 (wire ++ ztake n data)
      | Ok _, inr e => (Err e, c, wire, answers)
      | Err e, _ => (Err e, c, wire, answers)
      | Panic, _ => (Panic, c, wire, answers)
      end
  end.

Definition flush : ST World unit := λ w,
  let c := conn w in
  if (client_fd c =? INVALID_SOCKET) || (Buffer.available (send_buffer c) =? 0)
  then (Ok tt, w <| conn := commit_flushed_ping c |>)
  else
    let '(r, c, sent, answers) := flush_loop (net w) c (wire w) in
    let w := w <| conn := c |> <| wire := sent |> <| net := answers |> in
    match r with
    | Ok _ =>
        let c := if Buffer.available (send_buffer c) =? 0
          then c <| send_buffer := Buffer.reset (send_buffer c) |> <| send_stalled_since := None |>
          else if transport c && negb (bool_decide (is_Some (send_stalled_since c)))
          then c <| send_stalled_since := Some now |> else c in
        (Ok tt, w <| conn := commit_flushed_ping c |>)
    | _ => (r, w)
    end.

Definition disconnect_transport (c : Conn) : Conn :=
  c <| transport := false |> <| client_fd := INVALID_SOCKET |>.

(** Skip [sent] bytes of [parts] from [offset] of the first: the parts left,
    the offset into the first of them. *)
Fixpoint advance (sent : Z) (parts : list bytes) (offset : Z) : Res (list bytes * Z) :=
  if sent <=? 0 then Ok (parts, offset) else
  match parts with
  | [] => Panic
  | p :: parts' =>
      let left := zlen p - offset in
      if sent <? left then Ok (parts, offset + sent) else advance (sent - left) parts' 0
  end.

(** What the parts hold from [offset] of the first on. *)
Definition remaining (parts : list bytes) (offset : Z) : bytes := zdrop offset (concat parts).

Fixpoint send_parts (answers : list (nat + ErrorCode)) (parts : list bytes) (offset : Z) (c : Conn)
    (wire : bytes) : Res (list bytes * Z) * Conn * bytes * list (nat + ErrorCode) :=
  match parts with
  | [] => (Ok (parts, offset), c, wire, answers)
  | _ =>
      if negb (transport c) then (Ok (parts, offset), c, wire, answers) else
      match answers with
      | [] => (Ok (parts, offset), c, wire, [])
      | inl n :: answers =>
          let rest := remaining parts offset in
          let sent := Z.min (Z.of_nat n) (zlen rest) in
          if sent =? 0 then (Ok (parts, offset), c, wire, answers) else
          let c := note_bytes_sent sent c in
          let wire := wire ++ ztake sent rest in
          match advance sent parts offset with
          | Ok (parts, offset) => send_parts answers parts offset c wire
          | _ => (Panic, c, wire, answers)
          end
      | inr e :: answers => (Err e, c, wire, answers)
      end
  end.

Definition write_parts (parts : list bytes) : ST Buffer unit :=
  foldr (λ p m, Buffer.write p;; m) (mret tt) parts.

Definition send_staged_media (parts : list bytes) : ST World unit := λ w,
  let c := (conn w) <| staged_media_bytes := 0 |> in
  let '(r, c, sent, answers) := send_parts (net w) parts 0 c (wire w) in
  let w := w <| conn := c |> <| wire := sent |> <| net := answers |> in
  match r with
  | Ok (p :: rest, offset) =>
      on_send (Buffer.reserve (zlen p - offset + foldr (λ q n, zlen q + n) 0 rest);;
               first ← lift (slice p offset (zlen p)); Buffer.write first;; write_parts rest) w
  | Ok ([], _) => (Ok tt, w)
  | Err e => (Err e, w)
  | Panic => (Panic, w)
  end.

(** * Pings *)

Definition within (d : Z) (t : option Z) : bool :=
  match t with Some t => since now t <? d | None => false end.

Definition peer_is_draining (c : Conn) : bool := within PING_TIMEOUT (last_send_progress c).
Definition peer_is_sending (c : Conn) : bool := within PING_TIMEOUT (last_recv_progress c).

Definition fresh_pings (p : gmap Z Z) : gmap Z Z := filter (λ kv : Z * Z, since now kv.2 < PING_TIMEOUT) p.

(** Some ping is stale when the fresh ones are not all of them. *)
Definition has_stale_ping (p : gmap Z Z) : bool := negb (bool_decide (fresh_pings p = p)).

Definition maybe_send_ping : ST World unit :=
  c ← self;
  if StateMachine.rank (state c) <? StateMachine.rank AppConnected then mret tt else
  guard_st (match send_stalled_since c with
            | Some t => WRITE_STALL_TIMEOUT <=? since now t | None => false end) Protocol;;
  if within PING_INTERVAL (last_ping_sent c) then mret tt else
  let media_to_peer := peer_is_draining c in
  let data_from_peer := peer_is_sending c in
  let draining := media_to_peer || data_from_peer in
  when (data_from_peer && negb media_to_peer) (upd (λ c, c <| pending_pings := fresh_pings (pending_pings c) |>));;
  c ← self;
  match queued_ping c with
  | Some queued => guard_st (negb draining && (PING_TIMEOUT <=? since now (qp_queued_at queued))) Protocol
  | None =>
      if draining && negb (bool_decide (pending_pings c = ∅)) then mret tt else
      let had_stale_ping := negb draining && has_stale_ping (pending_pings c) in
      when (negb draining) (upd (λ c, c <| pending_pings := fresh_pings (pending_pings c) |>));;
      guard_st had_stale_ping Protocol;;
      c ← self;
      guard_st (MAX_PENDING_PINGS <=? Z.of_nat (base.size (pending_pings c))
        + Z.b2z (bool_decide (is_Some (queued_ping c)))) Protocol;;
      let token := next_ping_token c in
      upd (λ c, c <| next_ping_token := as_u32 (next_ping_token c + 1) |>);;
      send_user_control_ping_request token;;
      upd (λ c, c <| queued_ping := Some (mkPing token now (Buffer.available (send_buffer c))) |>)
  end.
End clock.

End Sender.
