(* ===== verification/ConnMedia.v ===== *)
(** The media and data messages of a publisher, src/session/conn.rs: the codec
    a payload announces, its authorization, the callbacks, the relay queue, and
    the stream description an onMetaData event carries. *)
From S2P Require Import Prelude Bytes Types Buffer F64 Source ChunkState Amf0 Ertmp Modex Multitrack InitCache ColorInfo Session ConnRelay.

Module Ingest.
Import Conn Amf0 Multitrack.

(** * Codec labels *)

Definition hex_digit (n : Z) : Z := if n <? 10 then 48 + n else 87 + n.
Definition hex_byte (b : Z) : bytes := [hex_digit (b >> 4); hex_digit (b .& 15)].

Definition is_wildcard_media_fourcc (fourcc : bytes) : Res bool := b ← zidx fourcc 0; Ok (b =? 42).

(** A FourCC has four bytes, so the label of a valid one is not empty. *)
Definition fourcc_auth_label (fourcc : bytes) : bytes :=
  if utf8_valid fourcc && negb (bool_decide (fourcc = [])) then fourcc
  else text "fourcc:" ++ concat (hex_byte <$> fourcc).

Definition media_fourcc_auth_label (fourcc : bytes) : Res (option bytes) :=
  w ← is_wildcard_media_fourcc fourcc;
  Ok (if w : bool then None else Some (fourcc_auth_label fourcc)).

Definition VIDEO_COMMAND_CODEC_LABEL : bytes := text "command".

Definition detect_video_codec (payload : bytes) : Res (option bytes) :=
  cc ← Multitrack.first_track_fourcc Video payload;
  match cc with
  | Some cc => media_fourcc_auth_label cc
  | None =>
      hdr ← InitCache.parse_video payload;
      match hdr with
      | None => Ok None
      | Some hdr =>
          if negb (v_is_ex_header hdr =? 0) then
            if (v_frame_type hdr =? ExVideo.VIDEO_FRAME_TYPE_COMMAND)
               && negb (v_packet_type hdr =? ERTMP_PACKET_TYPE_METADATA)
               && negb (v_packet_type hdr =? ExVideo.ERTMP_PACKET_TYPE_MODEX)
            then Ok (Some VIDEO_COMMAND_CODEC_LABEL)
            else if v_packet_type hdr =? ExVideo.ERTMP_PACKET_TYPE_MODEX then Ok None
            else fourcc ← slice (v_fourcc hdr) 0 4; media_fourcc_auth_label fourcc
          else
            b0 ← zidx payload 0;
            let nibble := b0 .& 15 in
            Ok (Some (if nibble =? 7 then text "avc1" else if nibble =? 12 then text "hvc1"
                      else if nibble =? 13 then text "av01" else text "legacy:" ++ [hex_digit nibble]))
      end
  end.

(** [{other:?}]. *)
Definition audio_codec_name (c : AudioCodec) : bytes :=
  match c with
  | Pcm => text "Pcm" | Adpcm => text "Adpcm" | Mp3 => text "Mp3" | PcmLe => text "PcmLe"
  | Nelly16k => text "Nelly16k" | Nelly8k => text "Nelly8k" | Nelly => text "Nelly"
  | G711A => text "G711A" | G711U => text "G711U" | Aac => text "Aac" | Speex => text "Speex"
  | Opus => text "Opus"
  end.

Definition detect_audio_codec (payload : bytes) : Res (option bytes) :=
  cc ← Multitrack.first_track_fourcc Audio payload;
  match cc with
  | Some cc => media_fourcc_auth_label cc
  | None =>
      hdr ← InitCache.parse_audio payload;
      match hdr with
      | None => Ok None
      | Some hdr =>
          if negb (a_is_ex_header hdr =? 0) then
            if a_packet_type hdr =? ExVideo.ERTMP_PACKET_TYPE_MODEX then Ok None
            else fourcc ← slice (a_fourcc hdr) 0 4; media_fourcc_auth_label fourcc
          else
            Ok (Some (match a_audio_codec hdr with
                      | Aac => text "mp4a" | Mp3 => text "mp3" | Opus => text "Opus"
                      | other => text "legacy:" ++ audio_codec_name other
                      end))
      end
  end.

(** * Script data *)

Definition positive_f64_to_u32 (v : Z) : option Z :=
  if F64.is_finite v && F64.ge_int v 0 && F64.le_int v 4294967295
  then Some (F64.as_uint 4294967295 v) else None.

Definition sane_framerate (v : Z) : bool :=
  F64.is_finite v && negb (F64.le_int v 0) && F64.le_int v 1000.

(** [match m { Ok(a) => k(a), Err(_) => return false }]. *)
Definition or_false {S A} (m : ST S A) (k : A → ST S bool) : ST S bool := λ s,
  match m s with
  | (Ok a, s') => k a s'
  | (Err _, s') => (Ok false, s')
  | (Panic, s') => (Panic, s')
  end.

Section metadata.
Context {S : Type} `{Source S}.

(** A key whose value is a number the connection records. *)
Definition number_field (ty : Amf0Type) (store : Z → Conn → Conn) : ST (S * Conn) bool :=
  if decide (ty = Number) then or_false (src read_number) (λ v, out (modify (store v));; mret true)
  else or_false (src (skip_value_after_type ty)) (λ _, mret true).

Definition store_u32 (set : Z → Conn → Conn) (v : Z) (c : Conn) : Conn :=
  match positive_f64_to_u32 v with Some n => set n c | None => c end.

Definition apply_metadata_key (key : bytes) : ST (S * Conn) bool :=
  or_false (src read_type) (λ ty,
  if decide (key = text "width") then
    number_field ty (store_u32 (λ n c, c <| detected_video_width := Some n |>))
  else if decide (key = text "height") then
    number_field ty (store_u32 (λ n c, c <| detected_video_height := Some n |>))
  else if bool_decide (key = text "framerate") || bool_decide (key = text "videoframerate") then
    number_field ty (λ v c, if sane_framerate v then c <| detected_video_framerate := Some v |> else c)
  else if decide (key = text "audiosamplerate") then
    number_field ty (store_u32 (λ n c, c <| detected_audio_sample_rate := Some n |>))
  else if decide (key = text "audiochannels") then
    number_field ty (store_u32 (λ n c,
      if (0 <? n) && (n <=? 32) then c <| detected_audio_channels := Some n |> else c))
  else if decide (key = text "stereo") then
    if decide (ty = Boolean) then
      or_false (src read_boolean) (λ stereo,
        out (modify (λ c, c <| detected_audio_channels := Some (if stereo : bool then 2 else 1) |>));; mret true)
    else or_false (src (skip_value_after_type ty)) (λ _, mret true)
  else or_false (src (skip_value_after_type ty)) (λ _, mret true)).

(** The loop over the keys; the result says whether the end was reached. *)
Fixpoint metadata_keys (fuel : nat) (keys : Z) : ST (S * Conn) bool :=
  match fuel with
  | O => lift Panic
  | Datatypes.S fuel =>
      fin ← src is_object_end;
      if fin : bool then mret true else
      if MAX_OBJECT_KEYS <? keys + 1 then mret false else
      or_false (src (read_object_key (zrepeat 0 256))) (λ '(key, _),
        let key_len := default (zlen key) (Descriptors.position_zero key) in
        key_str ← lift (str_prefix key key_len);
        more ← apply_metadata_key key_str;
        if more : bool then metadata_keys fuel (keys + 1) else mret false)
  end.

Definition parse_on_metadata_object : ST (S * Conn) unit :=
  or_false (src read_type) (λ ty,
    if negb (bool_decide (ty = Object)) && negb (bool_decide (ty = EcmaArray)) then mret false
    else if decide (ty = EcmaArray)
         then or_false (src (src_read 4)) (λ _, metadata_keys 257 0)
         else metadata_keys 257 0) ≫= λ more,
  if more : bool then or_false (src (src_read 3)) (λ _, mret true);; mret tt else mret tt.

Definition handle_data_message_body : ST (S * Conn) unit :=
  name ← src ColorInfo.event_name;
  match name with
  | None => mret tt
  | Some name_str =>
      event ← (if decide (name_str = text "@setDataFrame") then src ColorInfo.event_name
               else mret (Some name_str));
      if bool_decide (event = Some (text "onMetaData")) then
        out (modify Relay.clear_detected_stream_metadata);; parse_on_metadata_object
      else mret tt
  end.
End metadata.

Definition handle_data_message (payload : bytes) : ST World unit := λ w,
  let '(r, (_, c)) := handle_data_message_body (Buffer.from_slice payload, conn w) in
  (r, w <| conn := c |>).

(** * Media *)

(** [Frame { frame_type, timestamp, size, data, track_id, ..Default::default() }]. *)
Definition frame_of (frame_type : FrameType) (timestamp : Z) (payload : bytes) (track_id : Z) : Frame :=
  mkFrame frame_type timestamp 0 (as_u32 (zlen payload)) payload audio_codec_default 0 0 0 fourcc_default
    video_codec_default fourcc_default 0 0 track_id.

Section hooks.
Context (h : Hooks).

Definition media_allowed (c : Conn) (frame_type : FrameType) (codec : option bytes) : bool :=
  match on_media_cb h with
  | None => true
  | Some cb =>
      if (bool_decide (frame_type = Video) || bool_decide (frame_type = Audio)) && negb (bool_decide (is_Some codec))
      then false else cb (conn_id c) frame_type codec
  end.

(** The closure of [authorize_media_frame] run over the tracks: how many it
    counted, and whether one was denied. *)
Fixpoint authorize_tracks (c : Conn) (frame_type : FrameType) (tracks : Z) (ts : list MediaTrackSlice)
    : Res (Z * bool) :=
  match ts with
  | [] => Ok (tracks, false)
  | t :: ts =>
      label ← media_fourcc_auth_label (t_fourcc t);
      if media_allowed c frame_type label then authorize_tracks c frame_type (tracks + 1) ts
      else Ok (tracks + 1, true)
  end.

Definition authorize_media_frame (c : Conn) (frame_type : FrameType) (parse_payload : bytes)
    (current_codec : option bytes) (is_multitrack : bool) : Res Z :=
  match on_media_cb h with
  | None => Ok 1
  | Some _ =>
      if negb is_multitrack then
        if media_allowed c frame_type current_codec then Ok 1 else Err Auth
      else
        '(valid, ts) ← Multitrack.foreach_track frame_type parse_payload;
        '(tracks, denied) ← authorize_tracks c frame_type 0 ts;
        if negb valid then Err Protocol else if denied : bool then Err Auth else Ok (Z.max tracks 1)
  end.

Definition update_detected_media_metadata (frame_type : FrameType) (current_codec : option bytes)
    (is_multitrack : bool) (parse_payload : bytes) (c : Conn) : Res Conn :=
  let c := match frame_type with
    | Video =>
        if bool_decide (is_Some (detected_video_codec c))
           || bool_decide (current_codec = Some VIDEO_COMMAND_CODEC_LABEL) then c
        else c <| detected_video_codec := current_codec |>
    | Audio =>
        if bool_decide (is_Some (detected_audio_codec c)) then c
        else c <| detected_audio_codec := current_codec |>
    | _ => c
    end in
  if bool_decide (frame_type = Video) && negb is_multitrack then
    info ← ColorInfo.parse_video_metadata_hdr parse_payload;
    Ok (match info with Some i => c <| detected_hdr_info := Some i |> | None => c end)
  else Ok c.

Definition invoke_multitrack_on_frame_cb (frame_type : FrameType) (timestamp : Z) (t : MediaTrackSlice)
    : ST World unit :=
  f ← lift (InitCache.populate_multitrack_frame (frame_of frame_type timestamp (t_payload t) (t_track_id t))
    (t_fourcc t) (t_packet_type t) (t_video_frame_type t));
  emit (OnFrame f).

Definition invoke_on_frame_cb (frame_type : FrameType) (timestamp track_id : Z) (payload : bytes)
    : ST World unit :=
  f ← lift (InitCache.populate_av_frame (frame_of frame_type timestamp payload track_id) payload);
  emit (OnFrame f).

Fixpoint dispatch_tracks (frame_type : FrameType) (timestamp : Z) (ts : list MediaTrackSlice) : ST World unit :=
  match ts with
  | [] => mret tt
  | t :: ts =>
      when (on_frame_cb h) (invoke_multitrack_on_frame_cb frame_type timestamp t);;
      dispatch_tracks frame_type timestamp ts
  end.

Definition dispatch_media_frame_callbacks (frame_type : FrameType) (timestamp : Z) (parse_payload : bytes)
    (is_multitrack : bool) : ST World Z :=
  '(parsed, ts) ← lift (Multitrack.foreach_track frame_type parse_payload);
  dispatch_tracks frame_type timestamp ts;;
  if is_multitrack then
    guard_st (negb parsed) Protocol;; mret (Z.max (zlen ts) 1)
  else
    when (on_frame_cb h) (invoke_on_frame_cb frame_type timestamp 255 parse_payload);; mret 1.

Definition count_received (payload : bytes) : ST World unit :=
  upd (λ c, c <| media_bytes_received := saturating_add (media_bytes_received c) (zlen payload) |>).
Definition charge_tracks (n : Z) : ST World unit :=
  upd (λ c, c <| recv_track_budget := saturating_sub (recv_track_budget c) n |>).

Definition current_codec_of (frame_type : FrameType) (parse_payload : bytes) : Res (option bytes) :=
  match frame_type with
  | Video => detect_video_codec parse_payload
  | Audio => detect_audio_codec parse_payload
  | _ => Ok None
  end.

Definition handle_media_frame (msg_stream_id : Z) (frame_type : FrameType) (timestamp : Z) (payload : bytes)
    : ST World unit :=
  c ← self;
  if negb (Relay.is_active_publisher_stream msg_stream_id c) then
    when (Relay.is_publisher_stream msg_stream_id c) (count_received payload)
  else
    normalized ← lift (Modex.normalize_modex_payload_with_frame_type payload CAPS_EX_MASK_MODEX frame_type);
    let parse_payload := Modex.view normalized in
    current_codec ← lift (current_codec_of frame_type parse_payload);
    let is_multitrack := Multitrack.is_multitrack_container frame_type parse_payload in
    track_work ← lift (authorize_media_frame c frame_type parse_payload current_codec is_multitrack);
    charge_tracks track_work;;
    try_upd (update_detected_media_metadata frame_type current_codec is_multitrack parse_payload);;
    count_received payload;;
    dispatched ← dispatch_media_frame_callbacks frame_type timestamp parse_payload is_multitrack;
    charge_tracks (saturating_sub dispatched track_work);;
    map_err Internal (Relay.queue_relay_frame frame_type timestamp payload normalized).

Definition handle_publisher_data_message (msg_stream_id timestamp : Z) (payload : bytes) : ST World unit :=
  c ← self;
  if negb (Relay.publishing_metadata_allowed msg_stream_id c) then mret tt else
  is_metadata ← lift (ColorInfo.is_on_metadata_payload payload);
  let relay_metadata := is_metadata && relay_enabled c && negb (Relay.has_pending_publish_authorization c)
                        && publishing c in
  guard_st (relay_metadata && negb (media_allowed c Script None)) Auth;;
  handle_data_message payload;;
  when relay_metadata
    (when (on_frame_cb h)
       (emit (OnFrame (InitCache.set_is_metadata 1 (frame_of Script timestamp payload 255))));;
     Relay.queue_relay_frame Script timestamp payload (Modex.Borrowed payload)).

(** * Aggregates *)

Definition RTMP_MSG_AUDIO : Z := 8.
Definition RTMP_MSG_VIDEO : Z := 9.
Definition RTMP_MSG_AMF0_DATA : Z := 18.

(** The tag header at [pos]: its type, data size and timestamp. *)
Definition subtag_header (payload : bytes) (pos : Z) : Res (Z * Z * Z) :=
  tag_type ← zidx payload pos;
  d1 ← zidx payload (pos + 1); d2 ← zidx payload (pos + 2); d3 ← zidx payload (pos + 3);
  t1 ← zidx payload (pos + 4); t2 ← zidx payload (pos + 5); t3 ← zidx payload (pos + 6);
  t0 ← zidx payload (pos + 7);
  Ok (tag_type, ((d1 <<32 16) .| (d2 <<32 8)) .| d3,
      (((t1 <<32 16) .| (t2 <<32 8)) .| t3) .| (t0 <<32 24)).

(** The sub-tag's own message. *)
Definition handle_subtag (msg_stream_id tag_type timestamp : Z) (tag_payload : bytes) : ST World unit :=
  if tag_type =? RTMP_MSG_AUDIO then handle_media_frame msg_stream_id Audio timestamp tag_payload
  else if tag_type =? RTMP_MSG_VIDEO then handle_media_frame msg_stream_id Video timestamp tag_payload
  else if tag_type =? RTMP_MSG_AMF0_DATA then handle_publisher_data_message msg_stream_id timestamp tag_payload
  else mret tt.

(** The loop from [pos], with the timestamp of the first sub-tag once there was
    one; the result is the message budget left. *)
Fixpoint aggregate_loop (fuel : nat) (msg_stream_id base_timestamp : Z) (payload : bytes)
    (pos : Z) (sub_base : option Z) (subtags mb : Z) : ST World Z :=
  match fuel with
  | O => lift Panic
  | Datatypes.S fuel =>
      if zlen payload <? pos + 11 then mret mb else
      guard_st (MAX_AGGREGATE_SUBTAGS <=? subtags) Protocol;;
      '(tag_type, data_size, ts) ← lift (subtag_header payload pos);
      let body := pos + 11 in
      guard_st (zlen payload <? body + data_size) Protocol;;
      guard_st (data_size =? 0) Protocol;;
      c ← self;
      if (mb =? 0) || (recv_track_budget c =? 0) then mret mb else
      let mb := saturating_sub mb 1 in
      let sub_base_ts := default ts sub_base in
      let out_ts := wrapping_add32 base_timestamp (wrapping_sub32 ts sub_base_ts) in
      tag_payload ← lift (slice payload body (body + data_size));
      handle_subtag msg_stream_id tag_type out_ts tag_payload;;
      aggregate_loop fuel msg_stream_id base_timestamp payload (body + data_size + 4)
        (Some sub_base_ts) (subtags + 1) mb
  end.

Definition handle_aggregate (msg_stream_id base_timestamp : Z) (payload : bytes) (mb : Z) : ST World Z :=
  aggregate_loop 4097 msg_stream_id base_timestamp payload 0 None 0 mb.
End hooks.

End Ingest.
