(* ===== verification/ConnAuth.v ===== *)
(** The authorization of publishers and players, src/session/conn.rs: granting
    the two roles, the requests an application leaves pending, their completion,
    withdrawal and timeout. *)
From S2P Require Import Prelude Bytes Types Buffer ChunkState Session ConnRelay ConnSend.

Module Auth.
Import Conn Sender.

Definition has_nul (s : bytes) : bool := bool_decide (0 ∈ s).

(** [c_auth_allows]: a name with a NUL cannot be passed to C. *)
Definition c_auth_allows (cb : Z → bytes → bytes → Z) (conn_id : Z) (app stream_name : bytes) : bool :=
  if has_nul app || has_nul stream_name then false else cb conn_id app stream_name =? 0.

Definition installed {A} (o : option A) : bool := bool_decide (is_Some o).

Definition requires_explicit_publish_auth (h : Hooks) : bool :=
  installed (on_play_cb h) || installed (on_play_auth_cb h) || installed (c_play_auth h)
  || installed (on_media_cb h) || on_frame_cb h || on_shared_object_cb h
  || installed (on_shared_object_auth_cb h) || installed (on_release_stream_cb h).

Definition requires_explicit_play_auth (h : Hooks) : bool :=
  installed (on_publish_cb h) || installed (on_publish_auth_cb h) || installed (c_publish_auth h)
  || installed (on_media_cb h) || on_frame_cb h || on_shared_object_cb h
  || installed (on_shared_object_auth_cb h) || installed (on_release_stream_cb h).

(** * Answered requests *)

Definition remember_resolved_auth_id (ids : list Z) (request_id : Z) : list Z :=
  if decide (request_id ∈ ids) then ids
  else (if RESOLVED_AUTH_ID_MEMORY <=? zlen ids then tail ids else ids) ++ [request_id].

Definition remember_publish_auth_id (request_id : Z) (c : Conn) : Conn :=
  c <| resolved_publish_auth_ids := remember_resolved_auth_id (resolved_publish_auth_ids c) request_id |>.
Definition remember_play_auth_id (request_id : Z) (c : Conn) : Conn :=
  c <| resolved_play_auth_ids := remember_resolved_auth_id (resolved_play_auth_ids c) request_id |>.

(** [if let Some(pending) = self.pending_publish_auth.take() { remember(..) }]:
    whether there was one. *)
Definition take_pending_publish (c : Conn) : bool * Conn :=
  match pending_publish_auth c with
  | Some p => (true, remember_publish_auth_id (pa_request_id p) (c <| pending_publish_auth := None |>))
  | None => (false, c)
  end.
Definition take_pending_play (c : Conn) : bool * Conn :=
  match pending_play_auth c with
  | Some p => (true, remember_play_auth_id (pa_request_id p) (c <| pending_play_auth := None |>))
  | None => (false, c)
  end.

Definition drop_pending_authorizations (c : Conn) : Conn :=
  (take_pending_play (take_pending_publish c).2).2.

Definition deny_pending_publish_auth : ST World unit :=
  there ← state_conn take_pending_publish; when there send_publish_denied.

Definition deny_pending_play_auth : ST World unit :=
  there ← state_conn take_pending_play; when there send_play_denied.

(** * The roles *)

Section clock.
Context (now : Z).

(** Whether a publish on [next_route_key] starts a new media deadline. *)
Definition starts_window (next_route_key : bytes) (was_publishing was_playing : bool) (c : Conn) : bool :=
  negb (bool_decide (publish_media_deadline_route c = Some next_route_key)) || was_playing
  || (negb was_publishing && Relay.media_flowed_since_arm c).

Definition arm_media_deadline (next_route_key : bytes) (c : Conn) : Conn :=
  c <| session_setup_started := now |> <| injected_media_bytes := 0 |>
    <| media_bytes_at_epoch_start := media_bytes_received c |>
    <| injected_bytes_at_epoch_start := injected_media_bytes_total c |>
    <| publish_media_deadline_route := Some next_route_key |>.

Definition gate_relay (name_str : bytes) (was_publishing : bool) (c : Conn) : Conn :=
  if defer_media_relay c then
    let publish_name_changed :=
      match current_stream c with Some s => negb (bool_decide (name s = name_str)) | None => true end in
    if playing c || (was_publishing && publish_name_changed)
    then c <| relay_enabled := false |> <| pending_relay := [] |> else c
  else c <| relay_enabled := true |>.

(** The grant, once the route is held. *)
Definition grant_publish (name_str next_route_key : bytes) (was_publishing was_playing : bool)
    : ST World unit :=
  deny_pending_play_auth;;
  upd (λ c, if starts_window next_route_key was_publishing was_playing c
            then arm_media_deadline next_route_key c else c);;
  upd (gate_relay name_str was_publishing);;
  upd (upd_stream (λ s, s <| is_publishing := true |> <| is_playing := false |> <| name := name_str |>));;
  upd Relay.clear_detected_stream_metadata;;
  transition Publishing;;
  c ← self;
  send_onstatus (stream_or 0 c) (text "status") (text "NetStream.Publish.Start") (text "Publishing").

Definition send_bad_name (description : bytes) : ST World unit :=
  send_onstatus 0 (text "error") (text "NetStream.Publish.BadName") description.

Definition complete_publish_authorized (name_str : bytes) : ST World unit :=
  c ← self;
  let was_publishing := publishing c in
  let was_playing := playing c in
  let prev_route_key := Relay.relay_route_key c in
  let next_route_key := if decide (relay_key c = []) then name_str else relay_key c in
  let renaming_route := was_publishing && negb (bool_decide (prev_route_key = []))
                        && negb (bool_decide (prev_route_key = next_route_key)) in
  let eviction_len_before_claim := zlen (pending_cache_evictions c) in
  outcome ← Relay.claim_publish_route next_route_key;
  match outcome with
  | Contended => send_bad_name (text "Route already publishing")
  | EvictionQueueFull => send_bad_name (text "Publish not authorized")
  | Claimed =>
      c ← self;
      let claim_queued_prev_eviction :=
        existsb (λ x : bytes * bytes, bool_decide (x.2 = prev_route_key))
          (zdrop eviction_len_before_claim (pending_cache_evictions c)) in
      room ← (if renaming_route && negb claim_queued_prev_eviction
              then state_conn (λ c, Relay.push_pending_cache_eviction (app c) prev_route_key c)
              else mret true);
      if room : bool then grant_publish name_str next_route_key was_publishing was_playing
      else
        Relay.release_route next_route_key;;
        when (publish_routes c) (Relay.claim_route prev_route_key;; mret tt);;
        upd (λ c, c <| claimed_publish_route := Some prev_route_key |>);;
        send_bad_name (text "Publish not authorized")
  end.

Definition complete_play_authorized (name_str : bytes) : ST World unit :=
  deny_pending_publish_auth;;
  upd (λ c, if defer_media_relay c then c else c <| relay_enabled := true |>);;
  Relay.evict_active_publish_route;;
  c ← self;
  let already_playing_same :=
    match current_stream c with
    | Some s => is_playing s && bool_decide (name s = name_str)
    | None => false
    end in
  upd (upd_stream (λ s, s <| is_playing := true |> <| is_publishing := false |> <| paused := false |>
                          <| name := name_str |>));;
  upd (λ c, c <| relay_congestion := None |>);;
  when (negb already_playing_same)
    (upd (λ c, c <| pause_grace_media_bytes_sent := media_bytes_sent c |>);;
     upd (Relay.request_init_replay now));;
  transition Playing;;
  c ← self;
  let sid := stream_or 0 c in
  send_onstatus sid (text "status") (text "NetStream.Play.Start") (text "Playing");;
  send_stream_lifecycle_begin sid.

(** * Completion of a pending request *)

Definition complete_publish_authorization (request_id : Z) (allow : bool) : ST World unit :=
  c ← self;
  match pending_publish_auth c with
  | Some pending =>
      if negb (pa_request_id pending =? request_id) then mret tt else
      upd (λ c, remember_publish_auth_id request_id (c <| pending_publish_auth := None |>));;
      if allow then
        c ← self;
        let next_route := if decide (relay_key c = []) then pa_stream_name pending else relay_key c in
        let already_publishing_same_route :=
          publishing c && bool_decide (publish_media_deadline_route c = Some next_route) in
        when (negb already_publishing_same_route) (upd (λ c, c <| publish_media_deadline_route := None |>));;
        complete_publish_authorized (pa_stream_name pending)
      else send_publish_denied
  | None => mret tt
  end.

Definition complete_play_authorization (request_id : Z) (allow : bool) : ST World unit :=
  c ← self;
  match pending_play_auth c with
  | Some pending =>
      if negb (pa_request_id pending =? request_id) then mret tt else
      upd (λ c, remember_play_auth_id request_id (c <| pending_play_auth := None |>));;
      if allow then complete_play_authorized (pa_stream_name pending) else send_play_denied
  | None => mret tt
  end.

Definition overdue (timeout : Z) (p : option PendingAuth) : option Z :=
  match p with
  | Some p => if timeout <=? since now (pa_requested_at p) then Some (pa_request_id p) else None
  | None => None
  end.

(** Whether a request was denied. *)
Definition reap_timed_out_pending_auth (timeout : Z) : ST World bool :=
  c ← self;
  publish ← match overdue timeout (pending_publish_auth c) with
    | Some request_id =>
        upd (λ c, c <| publish_auth_sealed := true |>);;
        ignore (complete_publish_authorization request_id false);; mret true
    | None => mret false
    end;
  c ← self;
  match overdue timeout (pending_play_auth c) with
  | Some request_id =>
      upd (λ c, c <| play_auth_sealed := true |>);;
      ignore (complete_play_authorization request_id false);; mret true
  | None => mret publish
  end.

(** * A request to publish or play *)

Context (h : Hooks).

Definition authorize_publish (name_str : bytes) : ST World unit :=
  c ← self;
  if installed (pending_publish_auth c) || publish_auth_sealed c then send_publish_denied else
  match c_publish_auth h, on_publish_auth_cb h with
  | Some cb, _ =>
      if c_auth_allows cb (conn_id c) (app c) name_str then complete_publish_authorized name_str
      else send_publish_denied
  | None, Some cb =>
      match cb (conn_id c) (app c) name_str with
      | Allow => complete_publish_authorized name_str
      | Deny => send_publish_denied
      | Pending request_id =>
          if decide (request_id ∈ resolved_publish_auth_ids c) then send_publish_denied
          else upd (λ c, c <| pending_publish_auth := Some (mkPending name_str now request_id) |>)
      end
  | None, None =>
      match on_publish_cb h with
      | None =>
          if requires_explicit_publish_auth h then send_publish_denied
          else complete_publish_authorized name_str
      | Some cb =>
          if cb (conn_id c) (app c) name_str then complete_publish_authorized name_str
          else send_publish_denied
      end
  end.

Definition authorize_play (name_str : bytes) : ST World unit :=
  c ← self;
  if installed (pending_play_auth c) || play_auth_sealed c then send_play_denied else
  match c_play_auth h, on_play_auth_cb h with
  | Some cb, _ =>
      if c_auth_allows cb (conn_id c) (app c) name_str then complete_play_authorized name_str
      else send_play_denied
  | None, Some cb =>
      match cb (conn_id c) (app c) name_str with
      | Allow => complete_play_authorized name_str
      | Deny => send_play_denied
      | Pending request_id =>
          if decide (request_id ∈ resolved_play_auth_ids c) then send_play_denied
          else upd (λ c, c <| pending_play_auth := Some (mkPending name_str now request_id) |>)
      end
  | None, None =>
      match on_play_cb h with
      | None =>
          if requires_explicit_play_auth h then send_play_denied
          else complete_play_authorized name_str
      | Some cb =>
          if cb (conn_id c) (app c) name_str then complete_play_authorized name_str
          else send_play_denied
      end
  end.
End clock.

End Auth.
