(* ===== verification/ConnCommand.v ===== *)
(** The commands of a peer, [Conn::handle_command] of src/session/conn.rs. *)
From S2P Require Import Prelude Bytes Types Buffer F64 Source ChunkState Amf0 Caps Command Session ConnRelay ConnSend ConnAuth.

Module Commands.
Import Conn Sender.

(** The result of a reader that is only asked whether it succeeded. *)
Definition attempt {A} (r : Res A) : ST World (option A) :=
  match r with Ok a => mret (Some a) | Err _ => mret None | Panic => lift Panic end.

(** [.trim_end_matches('\0')]. *)
Fixpoint trim_nuls (s : bytes) : bytes :=
  match s with
  | [] => []
  | b :: s => match trim_nuls s with [] => if b =? 0 then [] else [b] | t => b :: t end
  end.

Definition command_name (array : bytes) : bytes := trim_nuls (if utf8_valid array then array else []).

Definition before_app (c : Conn) : bool := StateMachine.rank (state c) <? StateMachine.rank AppConnected.

Definition needs_caps (info : ConnectInfo) : bool :=
  ci_has_four_cc_list info || ci_has_caps_ex info || ci_has_video_map info || ci_has_reconnect info.

Definition active (c : Conn) : bool := publishing c || playing c.

(** [refuse_stream_request] and [read_stream_name]: [None] when the client was
    answered. [publish] says whether the body carries a publish type. *)
Definition refuse_stream_request (code desc : bytes) : ST World (option bytes) :=
  send_onstatus 0 (text "error") code desc;; mret None.

Definition read_stream_name (buf : Buffer) (publish : bool) (code no_stream_code : bytes)
    : ST World (option bytes) :=
  let '(r, (_, stream_name)) :=
    if publish then
      let '(r, (b, o)) := Command.read_publish (buf, (zrepeat 0 256, zrepeat 0 64)) in (r, (b, o.1))
    else Command.read_play (buf, zrepeat 0 256) in
  read ← attempt r;
  match read with
  | None => refuse_stream_request code (text "Invalid stream name")
  | Some _ =>
      decoded ← attempt (Command.decode_route_amf_string stream_name);
      match decoded with
      | None => refuse_stream_request code (text "Invalid stream name")
      | Some nm =>
          if decide (nm = []) then refuse_stream_request code (text "Empty stream name") else
          c ← self;
          if negb (Auth.installed (current_stream c))
          then refuse_stream_request no_stream_code (text "No stream created")
          else mret (Some nm)
      end
  end.

Section env.
Context (e : Env).

Definition on_connect (buf : Buffer) : ST World unit :=
  c ← self;
  if negb (before_app c) then mret tt else
  let '(r, (_, info)) := Command.read_connect_with_encoding (buf, connect_info_default) in
  let rejected desc := send_command_error (ci_transaction_id info)
    (text "NetConnection.Connect.Rejected") desc in
  read ← attempt r;
  match read with
  | None => rejected (text "Invalid connect command or capability negotiation.")
  | Some object_encoding =>
      decoded ← attempt (Command.decode_route_amf_string (ci_app info));
      match decoded with
      | None => rejected (text "Invalid connect app name.")
      | Some name =>
          upd (λ c, c <| app := name |>);;
          if decide (name = []) then rejected (text "Empty connect app name.") else
          when (needs_caps info) (transition CapsNegotiated);;
          negotiated ←
            (if needs_caps info then
               caps ← lift (ConnectAmf.negotiate_caps info);
               upd (λ c, c <| negotiated_caps := caps |>);; mret (Some caps)
             else mret None);
          upd (λ c, c <| connect_object_encoding := object_encoding |>);;
          transition AppConnected;;
          send_connect_response (ci_transaction_id info) negotiated;;
          c ← self;
          when (negb (connect_cb_fired c))
            (upd (λ c, c <| connect_cb_fired := true |>);;
             when (on_connect_cb (hooks e)) (emit OnConnect))
      end
  end.

Definition on_create_stream (buf : Buffer) : ST World unit :=
  c ← self;
  if before_app c then
    send_onstatus 0 (text "error") (text "NetStream.Failed") (text "connect required before createStream")
  else
  let '(r, (_, txn)) := Command.read_create_stream_partial (buf, None) in
  parsed ← attempt r;
  match txn with
  | None => send_onstatus 0 (text "error") (text "NetStream.Failed") (text "Invalid createStream")
  | Some txn =>
      if negb (Auth.installed parsed) then
        send_command_error txn (text "NetStream.Failed") (text "Invalid createStream") else
      let projected_stream_count :=
        if Auth.installed (current_stream c) then active_stream_count c
        else Z.min 4294967295 (active_stream_count c + 1) in
      if MAX_STREAMS_PER_CONN <? projected_stream_count then
        send_command_error txn (text "NetStream.Failed") (text "Too many streams")
      else
        Relay.evict_active_publish_route;;
        upd (λ c, c <| relay_enabled := false |>);;
        upd Auth.drop_pending_authorizations;;
        upd (λ c, c <| active_stream_count := projected_stream_count |>);;
        upd (λ c, c <| next_stream_id := as_u32 (next_stream_id c + 1) |>);;
        upd (λ c, c <| current_stream := Some (Stream.new (next_stream_id c)) |>);;
        upd (Relay.refresh_setup_timer (now e) (active c));;
        transition StreamCreated;;
        c ← self;
        send_create_stream_response txn (next_stream_id c)
  end.

Definition on_publish (buf : Buffer) : ST World unit :=
  n ← read_stream_name buf true (text "NetStream.Publish.BadName") (text "NetStream.Publish.BadConnection");
  match n with
  | None => mret tt
  | Some name_str => Auth.authorize_publish (now e) (hooks e) name_str
  end.

Definition on_play (buf : Buffer) : ST World unit :=
  n ← read_stream_name buf false (text "NetStream.Play.Failed") (text "NetStream.Play.BadConnection");
  match n with
  | None => mret tt
  | Some name_str => Auth.authorize_play (now e) (hooks e) name_str
  end.

(** The end of a role, common to FCUnpublish, deleteStream and closeStream. *)
Definition teardown : ST World unit :=
  c ← self;
  Relay.evict_active_publish_route;;
  upd (upd_stream (λ s, s <| is_publishing := false |> <| is_playing := false |> <| paused := false |>));;
  upd (λ c, c <| relay_congestion := None |>);;
  upd (λ c, c <| active_stream_count := saturating_sub (active_stream_count c) 1 |>);;
  upd (Relay.refresh_setup_timer (now e) (active c));;
  upd (λ c, c <| relay_enabled := false |>);;
  upd Auth.drop_pending_authorizations.

Definition on_unpublish : ST World unit :=
  teardown;;
  c ← self;
  match current_stream c with
  | Some s => ignore (send_stream_lifecycle_eof (stream_id s))
  | None => mret tt
  end.

Definition on_close_stream (buf : Buffer) : ST World unit :=
  read ← attempt (fst (Command.read_close_stream buf));
  c ← self;
  let current := stream_id <$> current_stream c in
  let target_id := match read with
    | Some (Some id) => id
    | _ => default 0 current
    end in
  if decide (current = Some target_id) then
    teardown;; ignore (send_stream_lifecycle_eof target_id)
  else mret tt.

Definition on_release_stream (buf : Buffer) : ST World unit :=
  let '(r, (_, stream_name)) := Command.read_release_stream (buf, zrepeat 0 256) in
  read ← attempt r;
  decoded ← match read with
    | Some _ => attempt (Command.decode_route_amf_string stream_name)
    | None => mret None
    end;
  match decoded with
  | Some name_str =>
      c ← self;
      let authorized := match on_release_stream_cb (hooks e) with
        | Some cb => cb (conn_id c) (app c) name_str
        | None => false
        end in
      when (negb (bool_decide (name_str = [])) && authorized && publish_routes c)
        (with_routes (λ t, (tt, PublishRouteRegistry.force_release (app c) name_str t));;
         when (negb (bool_decide (relay_key c = [])) && negb (bool_decide (relay_key c = name_str))
               && negb (playing c))
           (with_routes (λ t, (tt, PublishRouteRegistry.force_release (app c) (relay_key c) t))))
  | None => mret tt
  end.

Definition on_pause (buf : Buffer) : ST World unit :=
  read ← attempt (fst (Command.read_pause buf));
  match read with
  | None => mret tt
  | Some pause_flag =>
      upd (λ c, match current_stream c with
        | Some s =>
            let c := if pause_flag && is_playing s && negb (paused s)
                        && (pause_grace_media_bytes_sent c <? media_bytes_sent c)
              then c <| session_setup_started := now e |>
                     <| pause_grace_media_bytes_sent := media_bytes_sent c |>
              else c in
            upd_stream (λ s, s <| paused := pause_flag |>) c
        | None => c
        end);;
      when (negb pause_flag) (upd (λ c, c <| relay_congestion := None |>));;
      c ← self;
      if pause_flag : bool
      then send_onstatus (stream_or 0 c) (text "status") (text "NetStream.Pause.Notify") (text "Paused")
      else send_onstatus (stream_or 0 c) (text "status") (text "NetStream.Unpause.Notify") (text "Unpaused")
  end.

Definition on_seek (buf : Buffer) : ST World unit :=
  attempt (fst (Command.read_seek buf));;
  c ← self;
  send_onstatus (stream_or 0 c) (text "status") (text "NetStream.Seek.Notify") (text "Seeking").

Definition on_receive (set : bool → Stream → Stream) (buf : Buffer) : ST World unit :=
  read ← attempt (fst (Command.read_bool_command buf));
  match read with
  | Some flag => upd (upd_stream (set flag))
  | None => mret tt
  end.

Definition handle_command (payload : bytes) : ST World unit :=
  let '(r, buf) := Command.peek_name (zrepeat 0 64) (Buffer.from_slice payload) in
  peeked ← attempt r;
  match peeked with
  | None => mret tt
  | Some (name_buf, _) =>
      let name := command_name name_buf in
      if decide (name = text "connect") then on_connect buf else
      if decide (name = text "createStream") then on_create_stream buf else
      if decide (name = text "publish") then on_publish buf else
      if decide (name = text "play") then on_play buf else
      if decide (name = text "FCUnpublish") then on_unpublish else
      if decide (name = text "deleteStream") then on_unpublish else
      if decide (name = text "FCPublish") then mret tt else
      if decide (name = text "releaseStream") then on_release_stream buf else
      if decide (name = text "pause") then on_pause buf else
      if decide (name = text "seek") then on_seek buf else
      if decide (name = text "receiveAudio") then on_receive (λ b s, s <| receive_audio := b |>) buf else
      if decide (name = text "receiveVideo") then on_receive (λ b s, s <| receive_video := b |>) buf else
      if decide (name = text "closeStream") then on_close_stream buf else mret tt
  end.
End env.

End Commands.
