(* ===== verification/ConnRecv.v ===== *)
(** What a connection does with the bytes of its peer, src/session/conn.rs:
    control messages, the dispatch of messages, the message loop, the handshake
    and [Conn::recv], which drives them. *)
From S2P Require Import Prelude Bytes Types Buffer ChunkState ChunkWriter ChunkReader ReadLoop Handshake Control SharedObject Session ConnRelay ConnSend ConnMedia ConnAuth ConnCommand.

Module Receiver.
Import Conn Sender.

Definition RTMP_MSG_SET_CHUNK_SIZE : Z := 1.
Definition RTMP_MSG_ABORT_MESSAGE : Z := 2.
Definition RTMP_MSG_ACKNOWLEDGEMENT : Z := 3.
Definition RTMP_MSG_WINDOW_ACK_SIZE : Z := 5.
Definition RTMP_MSG_SET_PEER_BANDWIDTH : Z := 6.
Definition RTMP_MSG_AMF3_DATA : Z := 15.
Definition RTMP_MSG_AMF3_COMMAND : Z := 17.
Definition RTMP_MSG_AMF0_COMMAND : Z := 20.
Definition RTMP_MSG_AGGREGATE : Z := 22.

(** * Control messages *)

(** A reader whose error is dropped. *)
Definition if_ok {A} (r : Res A) (k : A → ST World unit) : ST World unit :=
  match r with Ok a => k a | Err _ => mret tt | Panic => lift Panic end.

Definition handle_control (msg_type_id : Z) (payload : bytes) : ST World unit :=
  if msg_type_id =? RTMP_MSG_SET_CHUNK_SIZE then
    cs ← lift (Control.read_set_chunk_size payload);
    upd (λ c, c <| chunk_reg := Registry.set_all_chunk_size cs (chunk_reg c) |>)
  else if msg_type_id =? RTMP_MSG_ABORT_MESSAGE then
    when (4 <=? zlen payload) (if_ok (Control.read_abort_message payload) (λ csid,
      c ← self;
      r ← lift (Registry.abort_stream csid (chunk_reg c));
      upd (λ c, c <| chunk_reg := r |>)))
  else if msg_type_id =? RTMP_MSG_WINDOW_ACK_SIZE then
    when (4 <=? zlen payload) (if_ok (Control.read_window_ack_size payload) (λ win,
      upd (λ c, c <| window_ack_size := win |>)))
  else if msg_type_id =? RTMP_MSG_ACKNOWLEDGEMENT then
    when (4 <=? zlen payload) (if_ok (Control.read_acknowledgement_size payload) (λ _, mret tt))
  else if msg_type_id =? RTMP_MSG_SET_PEER_BANDWIDTH then
    when (5 <=? zlen payload) (if_ok (Control.read_set_peer_bandwidth payload) (λ _, mret tt))
  else mret tt.

Definition apply_chunk_size (n : Z) (c : Conn) : Conn :=
  c <| chunk_size := n |> <| active_chunk_size := n |>
    <| chunk_reg := Registry.set_all_chunk_size n (chunk_reg c) |>.

Section env.
Context (e : Env).

(** A new window of ping answers when the last one is over. *)
Definition roll_ping_window (c : Conn) : Conn :=
  match inbound_ping_window_start c with
  | Some start =>
      if INBOUND_PING_WINDOW <=? since (now e) start
      then c <| inbound_ping_window_start := Some (now e) |> <| inbound_ping_responses := 0 |> else c
  | None => c <| inbound_ping_window_start := Some (now e) |>
  end.

Definition handle_user_control (payload : bytes) : ST World unit :=
  if zlen payload <? 6 then mret tt else
  p0 ← lift (zidx payload 0); p1 ← lift (zidx payload 1);
  '(event_type, param1, param2) ←
    (if (p0 <<16 8) .| p1 =? Control.UCTRL_SET_BUFFER_LENGTH
     then lift (Control.read_user_control payload true)
     else '(ty, p1, _) ← lift (Control.read_user_control payload false); mret (ty, p1, None));
  if event_type =? Control.UCTRL_PING_RESPONSE then
    upd (λ c, c <| pending_pings := delete param1 (pending_pings c) |>)
  else if event_type =? Control.UCTRL_PING_REQUEST then
    upd roll_ping_window;;
    c ← self;
    guard_st (MAX_INBOUND_PING_RESPONSES <=? inbound_ping_responses c) Protocol;;
    upd (λ c, c <| inbound_ping_responses := inbound_ping_responses c + 1 |>);;
    send_user_control_ping_response param1
  else if event_type =? Control.UCTRL_SET_BUFFER_LENGTH then
    match param2 with
    | Some ms => upd (λ c, c <| buffer_length_ms := ms |>)
    | None => mret tt
    end
  else mret tt.

(** * Shared objects *)

(** Whether a shared object may be delivered. *)
Definition shared_object_allowed (c : Conn) (so : SharedObject.SharedObjectMessage) : bool :=
  let h := hooks e in
  match on_shared_object_auth_cb h with
  | Some auth_cb => auth_cb (conn_id c) so
  | None =>
      negb (Auth.installed (on_publish_cb h) || Auth.installed (on_play_cb h)
            || Auth.installed (on_publish_auth_cb h) || Auth.installed (on_play_auth_cb h)
            || Auth.installed (c_publish_auth h) || Auth.installed (c_play_auth h)
            || Auth.installed (on_media_cb h) || on_frame_cb h || Auth.installed (on_release_stream_cb h))
  end.

Definition handle_amf3_shared_object (payload : bytes) : ST World unit :=
  c ← self;
  if Commands.before_app c then mret tt else
  if_ok (SharedObject.parse payload) (λ so,
    when (on_shared_object_cb (hooks e) && shared_object_allowed c so) (emit (OnSharedObject so))).

(** * Dispatch *)

(** The AMF3 marker byte ahead of an AMF0 body. *)
Definition strip_marker (payload : bytes) : bytes :=
  match payload with 0 :: rest => rest | _ => payload end.

Definition dispatch (msg : ChunkMessage) (payload : bytes) : ST World unit :=
  let ty := msg_type_id msg in
  let sid := msg_stream_id msg in
  let ts := timestamp msg in
  if (ty =? RTMP_MSG_SET_CHUNK_SIZE) || (ty =? RTMP_MSG_ABORT_MESSAGE) || (ty =? RTMP_MSG_ACKNOWLEDGEMENT)
     || (ty =? RTMP_MSG_WINDOW_ACK_SIZE) || (ty =? RTMP_MSG_SET_PEER_BANDWIDTH)
  then handle_control ty payload
  else if ty =? RTMP_MSG_USER_CONTROL then handle_user_control payload
  else if ty =? RTMP_MSG_AMF0_COMMAND then Commands.handle_command e payload
  else if ty =? RTMP_MSG_AMF3_COMMAND then Commands.handle_command e (strip_marker payload)
  else if ty =? Ingest.RTMP_MSG_AUDIO then Ingest.handle_media_frame (hooks e) sid Audio ts payload
  else if ty =? Ingest.RTMP_MSG_VIDEO then Ingest.handle_media_frame (hooks e) sid Video ts payload
  else if ty =? Ingest.RTMP_MSG_AMF0_DATA then
    Ingest.handle_publisher_data_message (hooks e) sid ts payload
  else if ty =? RTMP_MSG_AMF3_DATA then
    Ingest.handle_publisher_data_message (hooks e) sid ts (strip_marker payload)
  else if ty =? RTMP_MSG_AMF3_SHARED_OBJECT then handle_amf3_shared_object (strip_marker payload)
  else mret tt.

(** The result is the message budget left. *)
Definition handle_message (msg : ChunkMessage) (payload : bytes) (mb : Z) : ST World Z :=
  if msg_type_id msg =? RTMP_MSG_AGGREGATE then
    Ingest.handle_aggregate (hooks e) (msg_stream_id msg) (timestamp msg) payload mb
  else if mb =? 0 then mret mb
  else dispatch msg payload;; mret (saturating_sub mb 1).

(** * The message loop *)

(** [chunk_read_owned] on the connection's buffer and registry, with a fresh
    message: the code, the message and the payload. *)
Definition next_chunk : ST World (Z * ChunkMessage * bytes) := λ w,
  let c := conn w in
  let '(r, s) := Reader.chunk_read_owned
    (Reader.mkR (recv_buffer c) (chunk_reg c) ReadLoop.default_msg None 0) in
  let w := w <| conn := c <| recv_buffer := Reader.r_buf s |> <| chunk_reg := Reader.r_reg s |> |> in
  match r with
  | Ok (rc, payload) => (Ok (rc, Reader.r_msg s, payload), w)
  | Err err => (Err err, w)
  | Panic => (Panic, w)
  end.

Definition unread (c : Conn) : Z := Buffer.available (recv_buffer c).

(** [loop] of [read_messages]: the code returned and the message budget left. *)
Fixpoint message_loop (fuel : nat) (processed mb : Z) : ST World (Z * Z) := λ w,
  match fuel with
  | O => (Panic, w)
  | Datatypes.S fuel =>
      if (ReadLoop.MAX_MESSAGES_PER_READ <=? processed) || (mb =? 0) || (recv_track_budget (conn w) =? 0)
      then (Ok (1, mb), w <| conn := (conn w) <| budget_exhausted := true |> |>)
      else
        let before := unread (conn w) in
        match next_chunk w with
        | (Ok (rc, msg, payload), w) =>
            if rc =? 1 then
              if is_complete msg then
                match handle_message msg payload mb w with
                | (Ok mb, w) =>
                    (when (negb (needs_init_frames (conn w))) (ignore (flush (now e)));;
                     message_loop fuel (processed + 1) mb) w
                | (Err err, w) => (Ok (ReadLoop.handler_code err, mb), w)
                | (Panic, w) => (Panic, w)
                end
              else message_loop fuel processed mb w
            else if before <=? unread (conn w) then (Ok (1, mb), w)
            else message_loop fuel processed mb w
        | (Err err, w) => (Ok (ReadLoop.reader_code err, mb), w)
        | (Panic, w) => (Panic, w)
        end
  end.

Definition read_messages (mb : Z) : ST World (Z * Z) :=
  upd (λ c, if recv_track_budget c =? 0 then c <| recv_track_budget := ReadLoop.MAX_TRACKS_PER_RECV |> else c);;
  upd (λ c, c <| budget_exhausted := false |>);;
  c ← self;
  message_loop (S (Z.to_nat (unread c))) 0 mb.

(** * The handshake *)

(** [e as i32]. *)
Definition code (err : ErrorCode) : Z :=
  match err with
  | EOk => 0 | Io => -1 | Timeout => -2 | Protocol => -3 | Prelude.Handshake => -4 | Chunk => -5 | Amf => -6
  | Unsupported => -7 | Prelude.Auth => -8 | Internal => -9
  end.

Definition on_handshake {A} : ST Handshake.hstate A → ST World A :=
  on_field (λ c, (handshake c, recv_buffer c)) (λ p c, c <| handshake := p.1 |> <| recv_buffer := p.2 |>).

(** A handshake call whose shortage of bytes is the code 0. *)
Definition coded {A} (m : ST World A) (k : A → ST World Z) : ST World Z := λ w,
  match m w with
  | (Ok a, w) => k a w
  | (Err Io, w) => (Ok 0, w)
  | (Err err, w) => (Ok (code err), w)
  | (Panic, w) => (Panic, w)
  end.

Definition do_handshake_recurse : ST World Z :=
  coded (on_handshake (Handshake.server_read_c1_mode (server_time e) (seed1 e) (seed2 e))) (λ _,
    c ← self;
    queued ←
      (if negb (client_fd c =? INVALID_SOCKET) then λ w,
         match (on_send (Buffer.write [3]);;
                out_data ← lift (Buffer.peek (hs_out (handshake c))); on_send (Buffer.write out_data)) w with
         | (Ok _, w) => (Ok true, w)
         | (Err _, w) => (Ok false, w)
         | (Panic, w) => (Panic, w)
         end
       else mret true);
    if negb queued then mret (code Internal) else
    upd (λ c, c <| handshake := Handshake.set_out (Buffer.reset (hs_out (handshake c))) (handshake c) |>);;
    mret 1).

Definition do_handshake : ST World Z :=
  c ← self;
  match hs_state (handshake c) with
  | ServerWaitC0 =>
      upd (λ c, c <| handshake := Handshake.server_init (handshake c) |>);;
      coded (on_handshake Handshake.server_read_c0) (λ _,
        upd (λ c, c <| state := StHandshake |>);; do_handshake_recurse)
  | ServerWaitC1 => do_handshake_recurse
  | ServerWaitC2 =>
      coded (on_handshake Handshake.server_read_c2) (λ _,
        upd (λ c, c <| state := Connected |>);; mret 1)
  | Done => upd (λ c, c <| state := Connected |>);; mret 1
  | _ => mret (-1)
  end.

(** * [process] and [recv] *)

(** The code and the message budget left. *)
Definition process (mb : Z) : ST World (Z * Z) :=
  c ← self;
  match state c with
  | TcpAccepted | StHandshake => rc ← do_handshake; mret (rc, mb)
  | Closing | StClosed => mret (0, mb)
  | _ => read_messages mb
  end.

Definition error_of (rc : Z) : ErrorCode :=
  match rc with
  | -1 => Io | -2 => Timeout | -3 => Protocol | -4 => Prelude.Handshake | -5 => Chunk | -6 => Amf
  | -7 => Unsupported | -8 => Prelude.Auth | _ => Internal
  end.

(** The loop [while max_iter > 0]. *)
Fixpoint recv_loop (max_iter : nat) (no_progress mb : Z) : ST World unit :=
  match max_iter with
  | O => mret tt
  | Datatypes.S max_iter =>
      c ← self;
      if (mb =? 0) || (recv_track_budget c =? 0) then upd (λ c, c <| budget_exhausted := true |>) else
      let before := unread c in
      if (before =? 0) && negb (bool_decide (state c = StHandshake)) then mret tt else
      '(rc, mb) ← process mb;
      if rc <? 0 then fail (error_of rc) else
      c ← self;
      let after := unread c in
      let no_progress := if after =? before then no_progress + 1 else 0 in
      if (after =? before) && (3 <? no_progress) then mret tt else
      if (after =? 0) && (StateMachine.rank (state c) <? StateMachine.rank Closing) then mret tt
      else recv_loop max_iter no_progress mb
  end.

Definition recv (data : bytes) : ST World unit :=
  c ← self;
  guard_st (negb (bool_decide (data = []))
            && (ReadLoop.MAX_RECV_BUFFER_BYTES <? saturating_add (unread c) (zlen data))) Protocol;;
  map_err Internal (on_field recv_buffer (λ b c, c <| recv_buffer := b |>) (Buffer.write data));;
  upd (λ c, c <| bytes_received := saturating_add (bytes_received c) (zlen data) |>);;
  when (negb (bool_decide (data = []))) (upd (λ c, c <| last_recv_progress := Some (now e) |>));;
  upd (λ c, c <| budget_exhausted := false |>);;
  upd (λ c, c <| recv_track_budget := ReadLoop.MAX_TRACKS_PER_RECV |>);;
  recv_loop 256 0 ReadLoop.MAX_MESSAGES_PER_RECV;;
  c ← self;
  b ← lift (Buffer.release_excess RECV_BUFFER_KEEP_CAPACITY (recv_buffer c));
  upd (λ c, c <| recv_buffer := b |>);;
  c ← self;
  if (0 <? window_ack_size c)
     && (window_ack_size c <=? saturating_sub (bytes_received c) (bytes_at_last_ack c)) then
    send_acknowledgement (as_u32 (bytes_received c));;
    upd (λ c, c <| bytes_at_last_ack := bytes_received c |>)
  else mret tt.
End env.

End Receiver.
