(* ===== verification/SessionTotal.v ===== *)
(** The functions a session applies to the payloads of its peer return on every
    byte string: no access of theirs is out of range. *)
From S2P Require Import Prelude Bytes Types Buffer F64 Source ChunkState Amf0 Ertmp Modex Multitrack InitCache ColorInfo Control Caps Command SharedObject Session ConnRelay ConnSend ConnMedia.

#[local] Set Warnings "-clear-no-such-hyp".

Module Total.
Import Amf0 Multitrack Ingest.

#[local] Abbreviation any := (λ _, True).

Lemma retag_u8 h x : is_u8 h → 0 ≤ x < 16 → is_u8 ((h .& 240) .| x).
Proof.
  intros Hh Hx. pose proof (byte_forall (λ h, ((h .& 240) mod 16 =? 0) && (0 <=? h .& 240)
    && (h .& 240 <=? 240)) eq_refl h Hh) as H. cbv beta in H.
  apply andb_true_iff in H as [[H1%Z.eqb_eq H2%Z.leb_le]%andb_true_iff H3%Z.leb_le].
  rewrite (lor_low _ _ 4) by (lia || done). unfold is_u8. lia.
Qed.

Lemma peel_u8 fuel payload pos header p h : bytes_ok payload → 0 ≤ pos → is_u8 header →
  Modex.peel fuel payload pos header = Some (p, h) → is_u8 h.
Proof.
  intros Ho. revert pos header. induction fuel as [|fuel IH]; intros pos header Hp Hh; [done|]. simpl.
  destruct (Modex.parse_modex_layer payload pos) as [l|] eqn:El; [|done]. simpl.
  destruct (Modex.parse_layer_bounds _ _ _ Ho Hp El) as [Hb Hn]. pose proof (retag_u8 header _ Hh Hn).
  case_match; [apply IH; [lia|done]|by intros [= <- <-]].
Qed.

Lemma normalize_total payload mask ft : bytes_ok payload → ∃ c,
  Modex.normalize_modex_payload_with_frame_type payload mask ft = Ok c ∧ bytes_ok (Modex.view c).
Proof.
  intros Ho. destruct payload as [|b0 l]; [by eexists|]. rewrite Modex.normalize_wrapped.
  destruct (Modex.wrapped b0 mask ft); [|by eexists].
  destruct (Modex.peel _ (b0 :: l) 1 b0) as [[pos h]|] eqn:Ep; [|by eexists].
  pose proof (proj1 (proj1 (Forall_cons _ _ _) Ho)) as Hb0.
  destruct (Modex.peel_result _ _ 1 _ _ _ Ho ltac:(lia) Ep) as [Hp _].
  pose proof (peel_u8 _ _ 1 _ _ _ Ho ltac:(lia) Hb0 Ep) as Hh.
  rewrite slice_suffix by done. eexists. split; [done|]. apply bytes_ok_cons; [done|].
  by apply Forall_zdrop.
Qed.

Lemma foreach_total ft payload : bytes_ok payload → ∃ ok ts,
  foreach_track ft payload = Ok (ok, ts)
  ∧ Forall (λ t, zlen (t_fourcc t) = 4 ∧ bytes_ok (t_payload t)) ts.
Proof.
  intros Ho. destruct (foreach_cases ft payload Ho) as [(c&Hc&->&->)|[-> _]]; eexists _, _; (split; [done|]);
    [|constructor].
  pose proof (InitCache.container_tracks ft c Hc Ho) as H. eapply Forall_impl; [exact H|]. naive_solver.
Qed.

(** * Tag headers *)

Lemma parse_video_total payload : bytes_ok payload → ∃ r, InitCache.parse_video payload = Ok r
  ∧ ∀ h, r = Some h → payload ≠ [] ∧ 1 ≤ v_header_size h ≤ zlen payload
    ∧ (v_is_ex_header h ≠ 0 → ExVideo.is_command (v_frame_type h) (v_packet_type h) = false →
       zlen (v_fourcc h) = 5).
Proof.
  intros Ho. pose proof (ExVideo.parse_total payload video_header_default Ho) as H.
  assert (∀ h, ExVideo.exvideo_parse payload video_header_default = (Ok tt, h) →
    v_is_ex_header h = 0 ∨ v_is_ex_header h = 1) as Hex.
  { clear. intros h. unfold ExVideo.exvideo_parse, put_st, guard_st, lift, mbind, ST_bind, mret, ST_ret.
    destruct (zlen payload =? 0); [done|]. destruct (zidx payload 0) as [b|e|]; [|done..].
    destruct (negb (b .& 128 =? 0)); simpl; repeat case_match; intros; simplify_eq; simpl; auto. }
  unfold InitCache.parse_video.
  destruct (ExVideo.exvideo_parse payload video_header_default) as [[[]|e|] h] eqn:E; [|by eexists|done].
  exists (Some h). split; [done|]. intros ? [= <-]. destruct H as [Hs Ht]. split_and!; [|lia..|].
  { intros ->. change (zlen []) with 0 in Hs. lia. }
  intros Hx Hc. destruct (Hex h eq_refl) as [|H1]; [done|].
  destruct (Ht H1 Hc) as (b0&cc&rest&n&_&_&_&Hcc&_&->&_). simpl. rewrite zlen_app. zlia.
Qed.

Lemma parse_audio_total payload : bytes_ok payload → ∃ r, InitCache.parse_audio payload = Ok r
  ∧ ∀ h, r = Some h → a_is_ex_header h ≠ 0 → zlen (a_fourcc h) = 5.
Proof.
  intros Ho. destruct payload as [|b0 l]; [by exists None|].
  inversion Ho as [|?? Hb Hl]; subst. destruct (decide ((b0 >> 4) .& 15 = 9)) as [H9|H9].
  - destruct (decide (4 ≤ zlen l)) as [H4|H4]; [|rewrite InitCache.parse_audio_short by lia; by exists None].
    destruct (zlen_split l 4) as (cc&rest&->&Hc); [lia|].
    destruct (InitCache.parse_audio_ex b0 cc rest Hb H9 Hc) as (c&->). eexists. split; [done|].
    intros ? [= <-] _. simpl. rewrite zlen_app. zlia.
  - pose proof (InitCache.parse_audio_legacy b0 l H9) as H.
    destruct (ExAudio.legacy_codec _); [|exists None; split; [by rewrite H|done]..].
    destruct H as (h&->&Hx&_). eexists. split; [done|]. by intros ? [= <-].
Qed.

(** * Codec labels *)

Lemma label_total cc : zlen cc = 4 → ∃ r, media_fourcc_auth_label cc = Ok r.
Proof.
  intros H. destruct cc as [|b cc]; [done|]. unfold media_fourcc_auth_label, is_wildcard_media_fourcc.
  change (zidx (b :: cc) 0) with (Ok b). by eexists.
Qed.

Lemma first_fourcc_total ft payload : bytes_ok payload → ∃ r,
  first_track_fourcc ft payload = Ok r ∧ ∀ cc, r = Some cc → zlen cc = 4.
Proof.
  intros Ho. unfold first_track_fourcc. destruct (foreach_total ft payload Ho) as (ok&ts&->&H).
  rewrite Ok_bind. eexists. split; [done|]. intros cc. destruct ok; [|done].
  destruct H as [|t ts [? _] _]; [done|]. by intros [= <-].
Qed.

Lemma slice_5 (d : bytes) : zlen d = 5 → ∃ cc, slice d 0 4 = Ok cc ∧ zlen cc = 4.
Proof. intros H. rewrite slice_ok by lia. eexists. split; [done|]. zlia. Qed.

Lemma codec_total ft payload : bytes_ok payload → ∃ r, current_codec_of ft payload = Ok r.
Proof.
  intros Ho. destruct ft; simpl; [| |by eexists..].
  - unfold detect_audio_codec. destruct (first_fourcc_total Audio payload Ho) as ([cc|]&->&H);
      rewrite Ok_bind; [by apply label_total, H|].
    destruct (parse_audio_total payload Ho) as ([h|]&->&Hh); rewrite Ok_bind; [|by eexists].
    destruct (Z.eqb_spec (a_is_ex_header h) 0) as [|Hx]; simpl; [by eexists|].
    case_match; [by eexists|]. destruct (slice_5 _ (Hh h eq_refl Hx)) as (cc&->&?).
    rewrite Ok_bind. by apply label_total.
  - unfold detect_video_codec. destruct (first_fourcc_total Video payload Ho) as ([cc|]&->&H);
      rewrite Ok_bind; [by apply label_total, H|].
    destruct (parse_video_total payload Ho) as ([h|]&->&Hh); rewrite Ok_bind; [|by eexists].
    destruct (Hh h eq_refl) as (Hne&_&Hcc). destruct (Z.eqb_spec (v_is_ex_header h) 0) as [|Hx]; simpl.
    { destruct payload as [|b l]; [done|]. change (zidx (b :: l) 0) with (Ok b). by eexists. }
    fold (ExVideo.is_command (v_frame_type h) (v_packet_type h)).
    destruct (ExVideo.is_command _ _) eqn:Hc; [by eexists|]. case_match; [by eexists|].
    destruct (slice_5 _ (Hcc Hx eq_refl)) as (cc&->&?). rewrite Ok_bind. by apply label_total.
Qed.
(** * Frames *)

Lemma from_slice_total {A} (Q : A → Prop) m p d : sim Q m p → bytes_ok d →
  returns Q (fst (m (Buffer.from_slice d))).
Proof.
  intros Hs Ho. specialize (Hs _ (Buffer.wf_from_slice d)). rewrite Buffer.contents_from_slice in Hs.
  specialize (Hs Ho). destruct (p d) as [r l]. by destruct Hs as (b'&->&_&_&_&Hr).
Qed.

Lemma metadata_hdr_total payload : bytes_ok payload →
  returns any (ColorInfo.parse_video_metadata_hdr payload).
Proof.
  intros Ho. unfold ColorInfo.parse_video_metadata_hdr.
  destruct (parse_video_total payload Ho) as ([h|]&->&Hh); rewrite Ok_bind; [|done].
  destruct (Hh h eq_refl) as (_&Hs&_). case_match; [done|]. rewrite slice_suffix by lia.
  rewrite Ok_bind. eapply from_slice_total; [apply ColorInfo.sim_color_info|by apply Forall_zdrop].
Qed.

Lemma on_metadata_total payload : bytes_ok payload →
  returns any (ColorInfo.is_on_metadata_payload payload).
Proof. intros Ho. eapply from_slice_total; [apply ColorInfo.sim_on_metadata|done]. Qed.

Lemma populate_track_total ft ts t : zlen (t_fourcc t) = 4 → returns any
  (InitCache.populate_multitrack_frame (frame_of ft ts (t_payload t) (t_track_id t)) (t_fourcc t)
     (t_packet_type t) (t_video_frame_type t)).
Proof.
  intros H. unfold InitCache.populate_multitrack_frame. by rewrite ExVideo.fourcc_copy by done.
Qed.

Lemma populate_total ft ts id payload : bytes_ok payload →
  returns any (InitCache.populate_av_frame (frame_of ft ts payload id) payload).
Proof.
  intros Ho. unfold InitCache.populate_av_frame. destruct ft; simpl; [| |done..].
  - unfold InitCache.populate_audio_frame.
    destruct (parse_audio_total payload Ho) as ([h|]&->&_); rewrite Ok_bind; [|done].
    case_match; [done|]. by destruct (negb _).
  - unfold InitCache.populate_video_frame.
    destruct (parse_video_total payload Ho) as ([h|]&->&Hh); rewrite Ok_bind; [|done].
    destruct (Hh h eq_refl) as (Hne&_). case_match; [done|]. destruct (negb _); [done|].
    destruct payload as [|b l]; [done|]. by change (zidx (b :: l) 0) with (Ok b).
Qed.

Lemma authorize_total h c ft payload codec multi : bytes_ok payload →
  returns any (authorize_media_frame h c ft payload codec multi).
Proof.
  intros Ho. unfold authorize_media_frame. case_match; [|done]. destruct multi; simpl; [|by case_match].
  destruct (foreach_total ft payload Ho) as (ok&ts&->&Hts). rewrite Ok_bind.
  assert (∀ n, ∃ x, authorize_tracks h c ft n ts = Ok x) as Ha.
  { induction Hts as [|t ts [Ht _] _ IH]; intros n; simpl; [by eexists|].
    destruct (label_total _ Ht) as (l&->). rewrite Ok_bind. case_match; [apply IH|by eexists]. }
  destruct (Ha 0) as ([n d]&->). rewrite Ok_bind. by destruct ok, d.
Qed.

(** * Aggregates *)

Lemma subtag_total payload pos : bytes_ok payload → 0 ≤ pos → pos + 11 ≤ zlen payload →
  ∃ ty n ts, subtag_header payload pos = Ok (ty, n, ts) ∧ 0 ≤ n.
Proof.
  intros Ho Hp Hl. unfold subtag_header.
  destruct (zidx_byte payload pos Ho) as (ty&->&_); [lia|].
  destruct (zidx_byte payload (pos + 1) Ho) as (d1&->&H1); [lia|].
  destruct (zidx_byte payload (pos + 2) Ho) as (d2&->&H2); [lia|].
  destruct (zidx_byte payload (pos + 3) Ho) as (d3&->&H3); [lia|].
  destruct (zidx_byte payload (pos + 4) Ho) as (t1&->&_); [lia|].
  destruct (zidx_byte payload (pos + 5) Ho) as (t2&->&_); [lia|].
  destruct (zidx_byte payload (pos + 6) Ho) as (t3&->&_); [lia|].
  destruct (zidx_byte payload (pos + 7) Ho) as (t4&->&_); [lia|].
  eexists _, _, _. split; [reflexivity|]. rewrite !Z.lor_nonneg. unfold as_u32, is_u8 in *. split_and!; [apply Z.mod_pos_bound; lia..|lia].
Qed.

(** * What a session encodes *)

Abbreviation writes m := (keeps Buffer.wf any m).

Lemma writes_put d : writes (put d).
Proof.
  intros b Hb. unfold put. destruct (Buffer.write_spec d b Hb) as (b'&W&_&_&H).
  unfold map_err, mbind, ST_bind. destruct (_ || _); destruct H as [-> _]; by split.
Qed.

Ltac writes := repeat first
  [ apply writes_put | apply keeps_map_err | apply (keeps_ret _ any); exact I
  | apply (keeps_guard _ any); intros; exact I | apply (keeps_bind _ any); [|intros ? _] | case_match ].

Lemma writes_string s : writes (write_string s).
Proof. unfold write_string. writes. Qed.
Lemma writes_key s : writes (write_object_key s).
Proof. unfold write_object_key. writes. Qed.
Lemma writes_number n : writes (write_number n).
Proof. unfold write_number. writes. Qed.
Lemma writes_key_string k v : writes (Command.key_string k v).
Proof. apply (keeps_bind _ any); [apply writes_key|intros ? _; apply writes_string]. Qed.
Lemma writes_header n t : writes (Command.build_header n t).
Proof.
  apply (keeps_bind _ any); [apply writes_string|intros ? _].
  apply (keeps_bind _ any); [apply writes_number|intros ? _]. apply writes_put.
Qed.

Ltac encodes := repeat match goal with
  | |- keeps _ _ (_ ≫= _) => apply (keeps_bind _ any); [|intros ? _]
  | |- keeps _ _ (put _) => apply writes_put
  | |- keeps _ _ (write_string _) => apply writes_string
  | |- keeps _ _ (write_object_key _) => apply writes_key
  | |- keeps _ _ (write_number _) => apply writes_number
  | |- keeps _ _ (Command.key_string _ _) => apply writes_key_string
  | |- keeps _ _ (Command.build_header _ _) => apply writes_header
  | |- keeps _ _ (guard_st _ _) => apply (keeps_guard _ any); intros; exact I
  | |- keeps _ _ (mret _) => apply (keeps_ret _ any); exact I
  | |- keeps _ _ (map_err _ _) => apply keeps_map_err
  | |- keeps _ _ write_object_begin => apply writes_put
  | |- keeps _ _ write_object_end => apply writes_put
  | |- keeps _ _ write_null => apply writes_put
  end.

Lemma writes_error t c d : writes (Command.build_error t c d).
Proof. unfold Command.build_error. encodes. Qed.
Lemma writes_onstatus l c d : writes (Command.build_onstatus l c d).
Proof. unfold Command.build_onstatus. encodes. Qed.
Lemma writes_stream_result t i : writes (Command.build_create_stream_result t i).
Proof. unfold Command.build_create_stream_result. encodes. Qed.
Lemma writes_reconnect u d : writes (Command.build_reconnect_request u d).
Proof. unfold Command.build_reconnect_request. encodes. case_match; encodes. Qed.

Lemma writes_shared_object m : writes (SharedObject.write m).
Proof.
  unfold SharedObject.write. encodes. induction (SharedObject.so_events m); simpl; encodes; done.
Qed.

Lemma writes_negotiated o : ConnectAmf.negotiated_ok o → writes (ConnectAmf.write_negotiated_caps o).
Proof.
  intros [[_ Hl] [_ Hm] _ _]. unfold ConnectAmf.write_negotiated_caps.
  repeat (apply (keeps_bind _ any); [case_match; [|by apply (keeps_ret _ any)]|intros ? _]);
    [..|case_match; [|by apply (keeps_ret _ any)]];
    (apply (keeps_bind _ any); [apply writes_key|intros ? _]).
  - unfold ConnectAmf.write_four_cc_list_amf. encodes. clear H.
    induction Hl as [|e l He _ IH]; simpl; [by apply (keeps_ret _ any)|].
    apply (keeps_bind _ any); [apply keeps_lift; by rewrite ConnectAmf.entry_key_ok|intros ? _].
    apply (keeps_bind _ any); [apply writes_string|done].
  - apply writes_number.
  - unfold ConnectAmf.write_video_fourcc_info_map_amf. encodes. clear H.
    induction Hm as [|[e m] l [He _] _ IH]; simpl; [by apply (keeps_ret _ any)|].
    apply (keeps_bind _ any); [apply keeps_lift; by rewrite ConnectAmf.entry_key_ok|intros ? _].
    encodes. done.
  - unfold ConnectAmf.write_reconnect_amf. apply (keeps_bind _ any); [apply keeps_lift|].
    { done. }
    intros [n d] _. unfold write_long_string_bytes. encodes.
Qed.

Lemma writes_connect_result t o caps : (∀ c, caps = Some c → ConnectAmf.negotiated_ok c) →
  writes (Sender.connect_result t o caps).
Proof.
  intros H. unfold Sender.connect_result. encodes.
  destruct caps; [by apply writes_negotiated, H|by apply (keeps_ret _ any)].
Qed.

(** [encoded] returns what was written, or the error of the writer. *)
Lemma encoded_total cap m : 0 ≤ cap → writes m → returns any (Sender.encoded cap m).
Proof.
  intros Hc Hm. unfold Sender.encoded. destruct (Hm (Buffer.with_capacity cap)) as [Hw Hr].
  { unfold Buffer.wf, Buffer.with_capacity. simpl. zlia. }
  destruct (m _) as [[[]|e|] b]; [|done..]. unfold Buffer.as_slice. by rewrite slice_ok by (destruct Hw; simpl in *; lia).
Qed.

(** * Strings in arrays *)

Lemma position_zero_bound l n : Descriptors.position_zero l = Some n → 0 ≤ n < zlen l.
Proof.
  revert n. induction l as [|b l IH]; intros n; simpl; [done|]. rewrite zlen_cons. pose proof (zlen_nonneg l).
  case_match; [intros [= <-]; lia|]. destruct (Descriptors.position_zero l); [|done].
  intros [= <-]. specialize (IH _ eq_refl). lia.
Qed.

Lemma array_len_bound l : 0 ≤ default (zlen l) (Descriptors.position_zero l) ≤ zlen l.
Proof.
  pose proof (zlen_nonneg l). destruct (Descriptors.position_zero l) eqn:E; simpl; [|lia].
  apply position_zero_bound in E. lia.
Qed.

Lemma array_str_total l : ∃ s, str_prefix l (default (zlen l) (Descriptors.position_zero l)) = Ok s.
Proof.
  unfold str_prefix. pose proof (array_len_bound l). rewrite slice_ok by lia. rewrite Ok_bind. by eexists.
Qed.

Lemma decode_route_total l : returns any (Command.decode_route_amf_string l).
Proof.
  unfold Command.decode_route_amf_string. pose proof (array_len_bound l). rewrite slice_ok by lia.
  rewrite Ok_bind. by case_match.
Qed.

(** * Script data *)

(** [c] up to what an onMetaData event describes. *)
Definition undescribed : Conn → Conn := Relay.clear_detected_stream_metadata.

Lemma undescribed_idem c : undescribed (undescribed c) = undescribed c.
Proof. destruct c. vm_compute. reflexivity. Qed.

Section metadata.
Context (c0 : Conn).
#[local] Abbreviation same := (λ c, undescribed c = undescribed c0).
#[local] Abbreviation sim_md := (sim_out same any).

Lemma sim_or_false {A} (Q : A → Prop) m p k q : sim_out same Q m p → (∀ a, Q a → sim_md (k a) (q a)) →
  sim_md (or_false m k) (or_false p q).
Proof.
  intros H Hk. apply sim_out_iff. intros b o Hb Ho Hi. rewrite sim_out_iff in H. unfold or_false.
  destruct (H b o Hb Ho Hi) as (r&b'&o'&->&->&Ha&?&?&Hr). destruct r as [a|e|];
    [|exists (Ok false), b', o'; by split_and!|done].
  specialize (Hk a Hr). rewrite sim_out_iff in Hk. destruct (Hk b' o') as (r&b2&o2&->&->&?&?&?&?);
    [by apply Ha|done..|]. exists r, b2, o2. split_and!; eauto using advanced_trans.
Qed.

Lemma sim_or_false_src {A} (Q : A → Prop) m p k q : sim Q m p → (∀ a, Q a → sim_md (k a) (q a)) →
  sim_md (or_false (src m) k) (or_false (src p) q).
Proof. intros H. by apply sim_or_false, sim_out_src. Qed.

Lemma sim_skip_field ty : sim_md (or_false (src (skip_value_after_type ty)) (λ _, mret true))
  (or_false (src (skip_value_after_type ty)) (λ _, mret true)).
Proof. eapply sim_or_false_src; [by apply sim_skip_depth|]. intros. by apply sim_out_ret. Qed.

Lemma sim_store f : (∀ c, undescribed (f c) = undescribed c) →
  sim_md (out (modify f);; mret true) (out (modify f);; mret true).
Proof.
  intros Hf. eapply (sim_out_store _ _ any); [apply keeps_modify; [intros; by rewrite Hf|done]|].
  intros. by apply sim_out_ret.
Qed.

Lemma sim_number_field ty store : (∀ v c, undescribed (store v c) = undescribed c) →
  sim_md (number_field ty store) (number_field ty store).
Proof.
  intros Hf. unfold number_field. case_decide; [|apply sim_skip_field].
  eapply sim_or_false_src; [apply sim_read_double|]. intros v _. by apply sim_store.
Qed.

Lemma sim_metadata_key key : sim_md (apply_metadata_key key) (apply_metadata_key key).
Proof.
  assert (∀ set, (∀ n c, undescribed (set n c) = undescribed c) → ∀ v c,
    undescribed (store_u32 set v c) = undescribed c) as Hu.
  { intros set Hs v c. unfold store_u32. by case_match. }
  eapply sim_or_false_src; [apply sim_read_type|]. intros ty _.
  assert (∀ v c, undescribed (if sane_framerate v then c <| detected_video_framerate := Some v |> else c)
    = undescribed c) as Hr by (intros; by case_match).
  do 2 (case_decide; [by apply sim_number_field, Hu|]).
  destruct (bool_decide _ || _); [by apply sim_number_field|].
  case_decide; [by apply sim_number_field, Hu|].
  case_decide; [apply sim_number_field, Hu; intros; by case_match|].
  do 2 (case_decide; [|apply sim_skip_field]).
  eapply sim_or_false_src; [apply Command.sim_boolean|]. intros b _. by apply sim_store.
Qed.

Lemma sim_metadata_keys fuel keys : MAX_OBJECT_KEYS - keys < Z.of_nat fuel → 0 ≤ keys ≤ MAX_OBJECT_KEYS →
  sim_md (metadata_keys fuel keys) (metadata_keys fuel keys).
Proof.
  revert keys. induction fuel as [|fuel IH]; intros keys Hf Hk; [lia|]. cbn [metadata_keys].
  eapply sim_out_read; [apply sim_is_object_end|]. intros [] _; [by apply sim_out_ret|].
  destruct (Z.ltb_spec MAX_OBJECT_KEYS (keys + 1)); [by apply sim_out_ret|].
  eapply sim_or_false_src; [apply ConnectAmf.sim_key_256|]. intros [key n] _.
  destruct (array_str_total key) as (s&Es). eapply sim_out_lift; [exact Es|].
  eapply sim_out_bind; [apply sim_metadata_key|]. intros [] _; [apply IH; lia|by apply sim_out_ret].
Qed.

Lemma sim_metadata_object : sim_md parse_on_metadata_object parse_on_metadata_object.
Proof.
  eapply (sim_out_bind _ any).
  - eapply sim_or_false_src; [apply sim_read_type|]. intros ty _. destruct (negb _ && _); [by apply sim_out_ret|].
    case_decide; [|by apply sim_metadata_keys].
    eapply sim_or_false_src; [apply sim_read; lia|]. intros. by apply sim_metadata_keys.
  - intros [] _; [|by apply sim_out_ret]. eapply (sim_out_bind _ any); [|intros; by apply sim_out_ret].
    eapply sim_or_false_src; [apply sim_read; lia|]. intros. by apply sim_out_ret.
Qed.

Lemma sim_data_message_body : sim_md handle_data_message_body handle_data_message_body.
Proof.
  eapply sim_out_read; [apply ColorInfo.sim_event_name|]. intros [nm|] _; [|by apply sim_out_ret].
  eapply (sim_out_bind _ any).
  { case_decide; [apply sim_out_src, ColorInfo.sim_event_name|by apply sim_out_ret]. }
  intros ev _. destruct (bool_decide _); [|by apply sim_out_ret].
  eapply (sim_out_store _ _ any); [apply keeps_modify; [|exact I]|].
  { intros c <-. apply undescribed_idem. }
  intros _ _. apply sim_metadata_object.
Qed.
End metadata.

(** A script message changes nothing but the description of the stream. *)
Lemma data_message_described payload w : bytes_ok payload → ∃ r c,
  handle_data_message payload w = (r, w <| conn := c |>) ∧ undescribed c = undescribed (conn w)
  ∧ returns any r.
Proof.
  intros Ho. unfold handle_data_message. pose proof (sim_data_message_body (conn w)) as H.
  rewrite sim_out_iff in H. destruct (H (Buffer.from_slice payload) (conn w)) as (r&b'&c&->&_&_&_&Hc&Hr);
    [apply Buffer.wf_from_slice|by rewrite Buffer.contents_from_slice|done|]. by exists r, c.
Qed.

End Total.
