(* ===== verification/SessionInv.v ===== *)
(** The invariant of a session, kept by every operation of a connection on
    every input of its peer: buffers and registries are well formed and the
    queues bounded, the routes held in the shared registry are the ones the
    connection has claimed, and no role is held that was not granted. *)
From S2P Require Import Prelude Bytes Types Buffer F64 Source ChunkState ChunkWriter ChunkReader MediaOut Handshake Control Caps Command Modex Multitrack ColorInfo SharedObject Session ConnRelay ConnSend ConnMedia ConnAuth ConnCommand ConnRecv SessionTotal.
#[local] Set Warnings "-clear-no-such-hyp".

Module Invariant.
Import Conn Total.

#[local] Abbreviation any := (λ _, True).
#[local] Opaque F64.of_int.

(** * Well-formed connections *)

Definition pings (c : Conn) : Z :=
  Z.of_nat (base.size (pending_pings c)) + Z.b2z (bool_decide (is_Some (queued_ping c))).

(** A frame connection [id] may queue: one the wire can carry, under its id. *)
Record queued (id : Z) (f : RelayFrame) : Prop := {
  q_frame : frame_ok f;
  q_len : zlen (rf_payload f) ≤ RTMP_WIRE_MAX_MSG_LENGTH;
  q_id : rf_publisher_conn_id f = id;
}.

Record conn_ok (c : Conn) : Prop := {
  ok_recv : Buffer.wf (recv_buffer c);
  ok_bytes : bytes_ok (Buffer.contents (recv_buffer c));
  ok_send : Buffer.wf (send_buffer c);
  ok_reg : Registry.wf (chunk_reg c);
  ok_hs : Handshake.hs_ok (handshake c);
  ok_sizes : 0 ≤ chunk_size c ∧ 0 ≤ active_chunk_size c;
  ok_tracker : MediaOut.tracker_ok (media_out_headers c);
  ok_frames : zlen (pending_relay c) ≤ MAX_PENDING_RELAY_FRAMES;
  ok_relay : Relay.pending_relay_bytes c ≤ max_pending_relay_bytes c ≤ ISIZE_MAX;
  ok_queue : Forall (queued (conn_id c)) (pending_relay c);
  ok_evictions : zlen (pending_cache_evictions c) ≤ MAX_PENDING_CACHE_EVICTIONS;
  ok_abandoned : zlen (abandoned_relay_routes c) ≤ MAX_PENDING_CACHE_EVICTIONS;
  ok_publish_ids : zlen (resolved_publish_auth_ids c) ≤ RESOLVED_AUTH_ID_MEMORY;
  ok_play_ids : zlen (resolved_play_auth_ids c) ≤ RESOLVED_AUTH_ID_MEMORY;
  ok_streams : 0 ≤ active_stream_count c ≤ MAX_STREAMS_PER_CONN;
  ok_pings : pings c ≤ MAX_PENDING_PINGS;
  ok_inbound : 0 ≤ inbound_ping_responses c ≤ MAX_INBOUND_PING_RESPONSES;
  ok_next : is_u32 (next_stream_id c);
}.

(** What a connection holds once the connect command has succeeded. *)
Definition holds_nothing (c : Conn) : Prop :=
  app c = [] ∧ current_stream c = None ∧ claimed_publish_route c = None
  ∧ pending_publish_auth c = None ∧ pending_play_auth c = None.

(** The routes a connection may have in the registry, when there is one. *)
Definition holds (c : Conn) : list bytes :=
  if publish_routes c then option_list (claimed_publish_route c) else [].

(** The fields the invariant reads; the others may change freely. *)
Definition resources (c : Conn) :=
  (recv_buffer c, send_buffer c, chunk_reg c, handshake c, chunk_size c, active_chunk_size c,
   media_out_headers c, pending_relay c, max_pending_relay_bytes c, pending_cache_evictions c,
   abandoned_relay_routes c, resolved_publish_auth_ids c, resolved_play_auth_ids c,
   active_stream_count c, pending_pings c, queued_ping c, inbound_ping_responses c,
   next_stream_id c, conn_id c).
Definition roles (c : Conn) :=
  (state c, conn_id c, app c, current_stream c, publish_routes c, claimed_publish_route c,
   pending_publish_auth c, pending_play_auth c, recv_buffer c).

Lemma conn_ok_resources c c' : resources c' = resources c → conn_ok c → conn_ok c'.
Proof.
  unfold resources. intros E H. injection E as E1 E2 E3 E4 E5 E6 E7 E8 E9 E10 E11 E12 E13 E14 E15 E16 E17 E18 E19.
  destruct H. split; rewrite ?E1, ?E2, ?E3, ?E4, ?E5, ?E6, ?E7, ?E8, ?E9, ?E10, ?E11, ?E12, ?E13, ?E14, ?E17, ?E18, ?E19;
    try done; [unfold Relay.pending_relay_bytes; by rewrite E8|unfold pings; by rewrite E15, E16].
Qed.

(** * What the application decides

    The C callback comes first, then the one that may answer later, then the
    plain one; with none, the request is allowed unless some other callback
    shows that the application polices its peers. *)
Definition verdict (allow : bool) : AuthorizationResult := if allow then Allow else Deny.

Definition publish_decision (h : Hooks) (id : Z) (app name : bytes) : AuthorizationResult :=
  match c_publish_auth h, on_publish_auth_cb h, on_publish_cb h with
  | Some cb, _, _ => verdict (Auth.c_auth_allows cb id app name)
  | None, Some cb, _ => cb id app name
  | None, None, Some cb => verdict (cb id app name)
  | None, None, None => verdict (negb (Auth.requires_explicit_publish_auth h))
  end.

Definition play_decision (h : Hooks) (id : Z) (app name : bytes) : AuthorizationResult :=
  match c_play_auth h, on_play_auth_cb h, on_play_cb h with
  | Some cb, _, _ => verdict (Auth.c_auth_allows cb id app name)
  | None, Some cb, _ => cb id app name
  | None, None, Some cb => verdict (cb id app name)
  | None, None, None => verdict (negb (Auth.requires_explicit_play_auth h))
  end.

(** * The queues of a connection *)

Lemma zlen_filter {B} (f : B → bool) (l : list B) : zlen (List.filter f l) ≤ zlen l.
Proof. induction l as [|x l IH]; simpl; [done|]. case_match; rewrite ?zlen_cons; lia. Qed.

Definition frames_bytes (l : list RelayFrame) : Z := foldr (λ f n, retained_bytes f + n) 0 l.

Lemma frames_bytes_filter p l : frames_bytes (List.filter p l) ≤ frames_bytes l.
Proof.
  induction l as [|f l IH]; simpl; [done|]. pose proof (retained_nonneg f).
  case_match; simpl; fold (frames_bytes l); fold (frames_bytes (List.filter p l)); unfold frames_bytes in *; lia.
Qed.

Lemma frames_bytes_nonneg l : 0 ≤ frames_bytes l.
Proof.
  induction l as [|f l IH]; simpl; [done|]. pose proof (retained_nonneg f). unfold frames_bytes in *. simpl. lia.
Qed.

Lemma frames_bytes_snoc l f : frames_bytes (l ++ [f]) = frames_bytes l + retained_bytes f.
Proof. unfold frames_bytes. induction l as [|g l IH]; simpl; lia. Qed.

(** The two queues of routes. *)
Lemma conn_ok_abandoned l c : zlen l ≤ MAX_PENDING_CACHE_EVICTIONS → conn_ok c →
  conn_ok (c <| abandoned_relay_routes := l |>).
Proof. intros Hl []. by split. Qed.

Lemma conn_ok_evictions l c : zlen l ≤ MAX_PENDING_CACHE_EVICTIONS → conn_ok c →
  conn_ok (c <| pending_cache_evictions := l |>).
Proof. intros Hl []. by split. Qed.

Lemma conn_ok_relay l c : zlen l ≤ MAX_PENDING_RELAY_FRAMES → frames_bytes l ≤ max_pending_relay_bytes c →
  Forall (queued (conn_id c)) l → conn_ok c → conn_ok (c <| pending_relay := l |>).
Proof. intros Hl Hb Hq []. split; try done. split; [done|by apply ok_relay0]. Qed.

Lemma Forall_list_filter {B} (P : B → Prop) p l : Forall P l → Forall P (List.filter p l).
Proof. induction 1 as [|x l Hx Hl IH]; simpl; [constructor|]. case_match; [by constructor|done]. Qed.

Lemma conn_ok_relay_filter p c : conn_ok c →
  conn_ok (c <| pending_relay := List.filter p (pending_relay c) |>).
Proof.
  intros H. apply conn_ok_relay; [..|done].
  - etrans; [apply zlen_filter|apply H].
  - etrans; [apply frames_bytes_filter|apply (ok_relay _ H)].
  - apply Forall_list_filter, H.
Qed.

Lemma note_abandoned_ok a r c : conn_ok c → conn_ok (Relay.note_abandoned_relay_route a r c).
Proof.
  intros H. unfold Relay.note_abandoned_relay_route.
  pose proof (zlen_filter (Relay.other_route a r) (abandoned_relay_routes c)) as Hl.
  pose proof (ok_abandoned _ H) as Hm. unfold MAX_PENDING_CACHE_EVICTIONS in *.
  destruct (List.filter _ _) as [|[oa orr] rest] eqn:E; [by apply conn_ok_abandoned|].
  rewrite zlen_cons in *. case_match.
  - apply conn_ok_abandoned; [rewrite zlen_app; change (zlen [_]) with 1; unfold MAX_PENDING_CACHE_EVICTIONS; lia|].
    by apply conn_ok_relay_filter.
  - apply conn_ok_abandoned; [|done].
    rewrite zlen_app, zlen_cons. change (zlen [_]) with 1. unfold MAX_PENDING_CACHE_EVICTIONS. lia.
Qed.

Lemma note_abandoned_roles a r c : roles (Relay.note_abandoned_relay_route a r c) = roles c
  ∧ pending_cache_evictions (Relay.note_abandoned_relay_route a r c) = pending_cache_evictions c.
Proof. unfold Relay.note_abandoned_relay_route. by repeat case_match. Qed.

Lemma try_push_ok a r c : conn_ok c → conn_ok (Relay.try_push_pending_cache_eviction a r c)
  ∧ roles (Relay.try_push_pending_cache_eviction a r c) = roles c.
Proof.
  intros H. unfold Relay.try_push_pending_cache_eviction. pose proof (ok_evictions _ H) as Hm.
  assert (∀ c' l, conn_ok c' → zlen l < MAX_PENDING_CACHE_EVICTIONS →
    conn_ok (c' <| pending_cache_evictions := l ++ [(a, r)] |>)) as Hadd.
  { intros c' l H' Hl. apply conn_ok_evictions; [|done]. rewrite zlen_app. change (zlen [_]) with 1. lia. }
  destruct (pending_cache_evictions c) as [|[oa orr] rest] eqn:E.
  { rewrite E. split; [|done]. by apply Hadd. }
  rewrite zlen_cons in *. case_match eqn:El; rewrite ?E.
  - set (c1 := c <| pending_cache_evictions := rest |>).
    destruct (note_abandoned_roles oa orr c1) as [Hr He]. split; [|exact Hr].
    apply Hadd; [|rewrite He; unfold c1; simpl; lia]. apply note_abandoned_ok, conn_ok_evictions; [lia|done].
  - split; [|done]. apply Hadd; [done|]. rewrite zlen_cons. lia.
Qed.

Lemma evict_keys_ok a seen keys c : conn_ok c → conn_ok (Relay.evict_keys a seen keys c)
  ∧ roles (Relay.evict_keys a seen keys c) = roles c.
Proof.
  revert seen c. induction keys as [|k keys IH]; intros seen c H; simpl; [done|].
  destruct (_ || _); [by apply IH|]. destruct (try_push_ok a k c H) as [H1 H2].
  destruct (IH (k :: seen) _ H1) as [H3 H4]. split; [done|]. by rewrite H4.
Qed.

Section inv.
(** The connection's id, the registry when the call began, the connection's
    application, whether it has connected to it and what it has left to read
    ([phase] of [before_app] and the receive buffer), and who may publish and play what: a name is [granted], or [waiting] for the
    completion of a request. *)
Context (id : Z) (R0 : PublishRouteRegistry.table) (A : bytes) (phase : bool → Buffer → Prop).
Context (granted_publish granted_play : bytes → Prop) (waiting_publish waiting_play : bytes → Z → Prop).

(** The entries of this connection are routes of its application in [S]. *)
Definition within (S : list bytes) (t : PublishRouteRegistry.table) : Prop :=
  ∀ a r, t !! (a, r) = Some id → a = A ∧ r ∈ S.
(** The call adds no entry of another connection. *)
Definition foreign (t : PublishRouteRegistry.table) : Prop :=
  ∀ k i, t !! k = Some i → i ≠ id → R0 !! k = Some i.

Record roles_ok (c : Conn) (t : PublishRouteRegistry.table) : Prop := {
  r_id : conn_id c = id;
  r_app : app c = A;
  r_phase : phase (Commands.before_app c) (recv_buffer c);
  r_early : Commands.before_app c = true → holds_nothing c;
  (** An entry of this connection is the route it has claimed. *)
  r_backed : within (holds c) t;
  r_foreign : foreign t;
  r_stream : ∀ s, current_stream c = Some s → is_u32 (stream_id s);
  r_publish : ∀ s, current_stream c = Some s → is_publishing s = true → granted_publish (name s);
  r_play : ∀ s, current_stream c = Some s → is_playing s = true → granted_play (name s);
  r_waiting_publish : ∀ p, pending_publish_auth c = Some p →
    waiting_publish (pa_stream_name p) (pa_request_id p);
  r_waiting_play : ∀ p, pending_play_auth c = Some p →
    waiting_play (pa_stream_name p) (pa_request_id p);
}.

Definition inv (w : World) : Prop := conn_ok (conn w) ∧ roles_ok (conn w) (routes w).

Lemma roles_ok_roles c c' t : roles c' = roles c → roles_ok c t → roles_ok c' t.
Proof.
  unfold roles. intros E H. injection E as E1 E2 E3 E4 E5 E6 E7 E8 E9.
  destruct H. split; unfold holds_nothing, holds, Commands.before_app;
    rewrite ?E1, ?E2, ?E3, ?E4, ?E5, ?E6, ?E7, ?E8, ?E9; done.
Qed.

Lemma inv_same c w : resources c = resources (conn w) → roles c = roles (conn w) →
  inv w → inv (w <| conn := c |>).
Proof. intros E1 E2 [H1 H2]. split; [by apply (conn_ok_resources (conn w))|by apply (roles_ok_roles (conn w))]. Qed.

(** * Steps *)

(** An operation that returns and keeps the invariant. *)
#[local] Abbreviation fine m := (keeps inv any m).
(** The connection at some point of the call. *)
Definition seen (c : Conn) : Prop := conn_ok c ∧ ∃ t, roles_ok c t.

Lemma fine_self : keeps inv seen self.
Proof. intros w [H1 H2]. split; [done|]. split; [done|by exists (routes w)]. Qed.

Lemma fine_with_self {B} (m : Conn → ST World B) : (∀ c, seen c → fine (m c)) → fine (c ← self; m c).
Proof. intros H. eapply keeps_bind; [apply fine_self|done]. Qed.

Lemma fine_seq {B C} (m : ST World B) (k : B → ST World C) : fine m → (∀ b, fine (k b)) → fine (m ≫= k).
Proof. intros H Hk. by apply (keeps_bind _ any). Qed.

Lemma fine_read {B C} (Q : B → Prop) r (k : B → ST World C) : returns Q r → (∀ b, Q b → fine (k b)) →
  fine (lift r ≫= k).
Proof. intros H Hk. eapply keeps_bind; [by apply keeps_lift|done]. Qed.

Lemma fine_ret {B} (b : B) : fine (mret b).
Proof. by apply keeps_ret. Qed.

Lemma fine_when c m : fine m → fine (when c m).
Proof. intros H. destruct c; [done|apply fine_ret]. Qed.

Lemma fine_ignore {B} (m : ST World B) : fine m → fine (ignore m).
Proof. intros H. by apply (keeps_ignore _ any any). Qed.

Lemma fine_guard c e : fine (guard_st c e).
Proof. by apply (keeps_guard _ any). Qed.

Lemma fine_emit e : fine (emit e).
Proof. by apply (keeps_modify _ any). Qed.

Lemma fine_attempt {B} (r : Res B) : returns any r → fine (Commands.attempt r).
Proof. by destruct r. Qed.

Lemma fine_upd f : (∀ w, inv w → inv (w <| conn := f (conn w) |>)) → fine (upd f).
Proof. intros H. by apply (keeps_modify _ any). Qed.

(** An update of fields the invariant does not read. *)
Lemma fine_note f : (∀ c, resources (f c) = resources c) → (∀ c, roles (f c) = roles c) → fine (upd f).
Proof. intros H1 H2. apply fine_upd. intros w H. by apply inv_same; [apply H1|apply H2|]. Qed.

(** An update of the roles, or of the resources, alone. *)
Lemma fine_resources f : (∀ c, conn_ok c → conn_ok (f c)) → (∀ c, roles (f c) = roles c) → fine (upd f).
Proof. intros H1 H2. apply fine_upd. intros w [H H']. split; [exact (H1 _ H)|exact (roles_ok_roles _ _ _ (H2 _) H')]. Qed.

Lemma fine_roles f : (∀ c, resources (f c) = resources c) →
  (∀ c t, roles_ok c t → roles_ok (f c) t) → fine (upd f).
Proof. intros H1 H2. apply fine_upd. intros w [H H']. split; [exact (conn_ok_resources _ _ (H1 _) H)|exact (H2 _ _ H')]. Qed.

(** * Sending *)

Lemma conn_ok_send b c : Buffer.wf b → conn_ok c → conn_ok (c <| send_buffer := b |>).
Proof. intros Hb []. by split. Qed.

Lemma fine_on_send {B} (m : ST Buffer B) : keeps Buffer.wf any m → fine (on_send m).
Proof.
  intros Hm w [H1 H2]. unfold on_send, on_field. destruct (Hm _ (ok_send _ H1)) as [Hw Hr].
  destruct (m (send_buffer (conn w))) as [r b]. split; [|done].
  split; [by apply conn_ok_send|by apply (roles_ok_roles (conn w))].
Qed.

Lemma writes_chunk msg d n cs : 0 ≤ cs → 0 ≤ n → keeps Buffer.wf any (Writer.chunk_write msg d n cs).
Proof.
  intros Hc Hn b Hb. destruct (Writer.chunk_write_spec msg d n cs b Hb Hc Hn) as (b'&Hw&_&H).
  destruct (Writer.refusal _ _ _); [|cbv zeta in H; case_match]; destruct H as [-> _]; done.
Qed.

Lemma fine_message csid ty sid d : fine (Sender.send_message csid ty sid d).
Proof.
  apply fine_with_self. intros c [H _]. apply fine_on_send, writes_chunk; [apply H|apply zlen_nonneg].
Qed.

Lemma fine_control ty d : fine (Sender.send_control ty d).
Proof. unfold Sender.send_control. apply fine_message. Qed.
Lemma fine_command sid d : fine (Sender.send_command sid d).
Proof. unfold Sender.send_command. apply fine_message. Qed.

Lemma fine_encoded {B} cap m (k : bytes → ST World B) : 0 ≤ cap → writes m → (∀ d, fine (k d)) →
  fine (lift (Sender.encoded cap m) ≫= k).
Proof. intros Hc Hm Hk. eapply (fine_read any); [by apply encoded_total|done]. Qed.

Lemma fine_user_control cap m : 0 ≤ cap → writes m → fine (Sender.send_user_control cap m).
Proof. intros Hc Hm. apply fine_encoded; [done..|]. intros. apply fine_control. Qed.

Lemma fine_lifecycle_begin sid : fine (Sender.send_stream_lifecycle_begin sid).
Proof.
  apply fine_seq; [|intros _; apply fine_with_self; intros c _]; (apply fine_user_control; [done|]).
  - unfold Control.write_user_control_stream_begin. encodes.
  - unfold Control.write_user_control_set_buffer_length. encodes.
Qed.

Lemma fine_lifecycle_eof sid : fine (Sender.send_stream_lifecycle_eof sid).
Proof. apply fine_user_control; [done|]. unfold Control.write_user_control_stream_eof. encodes. Qed.

Lemma fine_ping_request n : fine (Sender.send_user_control_ping_request n).
Proof. apply fine_user_control; [done|]. unfold Control.write_user_control_ping_request. encodes. Qed.

Lemma fine_ping_response n : fine (Sender.send_user_control_ping_response n).
Proof. apply fine_user_control; [done|]. unfold Control.write_user_control_ping_response. encodes. Qed.

Lemma fine_onstatus sid l c d : fine (Sender.send_onstatus sid l c d).
Proof. apply fine_encoded; [done|apply writes_onstatus|]. intros. apply fine_command. Qed.

Lemma fine_command_error t c d : fine (Sender.send_command_error t c d).
Proof. apply fine_encoded; [done|apply writes_error|]. intros. apply fine_command. Qed.

Lemma fine_stream_response t i : fine (Sender.send_create_stream_response t i).
Proof.
  unfold Sender.send_create_stream_response. apply fine_encoded; [done|apply writes_stream_result|].
  intros. apply fine_command.
Qed.

Lemma fine_connect_response t caps : (∀ c, caps = Some c → ConnectAmf.negotiated_ok c) →
  fine (Sender.send_connect_response t caps).
Proof.
  intros Hc. do 2 (apply fine_seq; [apply fine_control|intros _]). apply fine_with_self. intros c _.
  apply fine_seq; [apply fine_control|intros _]. apply fine_seq; [|intros _].
  { apply fine_resources; [|done]. intros c' []. split; try done. split; apply ok_sizes0. }
  apply fine_with_self. intros c' _. apply fine_encoded; [done|by apply writes_connect_result|].
  intros. apply fine_command.
Qed.

(** * Routes *)

Lemma within_weaken S S' t : S ⊆ S' → within S t → within S' t.
Proof. intros Hs H a r E. destruct (H a r E). auto. Qed.

Lemma within_delete S k t : within S t → within S (delete k t).
Proof. intros H a r [_ E]%lookup_delete_Some. by apply H. Qed.

Lemma within_release S r t : within (r :: S) t → within S (PublishRouteRegistry.release id A r t).
Proof.
  intros H a x. unfold PublishRouteRegistry.release. case_decide as E.
  - intros [Hne Ex]%lookup_delete_Some. destruct (H a x Ex) as [-> Hx%elem_of_cons].
    split; [done|]. destruct Hx; [congruence|done].
  - intros Ex. destruct (H a x Ex) as [-> Hx%elem_of_cons]. split; [done|]. destruct Hx; [congruence|done].
Qed.

Lemma within_claim S r t : within S t → within (r :: S) (PublishRouteRegistry.claim id A r t).2.
Proof.
  intros H. assert (within (r :: S) (<[(A, r) := id]> t)) as Hi.
  { intros a x [[Ek _]|[_ E]]%lookup_insert_Some; [simplify_eq; split; [done|constructor]|].
    destruct (H a x E). split; [done|by constructor]. }
  unfold PublishRouteRegistry.claim. case_match; [|done]. case_match; [done|].
  eapply within_weaken; [|done]. intros y Hy. by constructor.
Qed.

(** A refused claim changes nothing. *)
Lemma claim_refused r t : (PublishRouteRegistry.claim id A r t).1 = false →
  (PublishRouteRegistry.claim id A r t).2 = t.
Proof. unfold PublishRouteRegistry.claim. by repeat case_match. Qed.

Lemma foreign_delete k t : foreign t → foreign (delete k t).
Proof. intros H k' i [_ E]%lookup_delete_Some. by apply H. Qed.

Lemma foreign_release r t : foreign t → foreign (PublishRouteRegistry.release id A r t).
Proof. intros H. unfold PublishRouteRegistry.release. case_decide; [by apply foreign_delete|done]. Qed.

Lemma foreign_claim r t : foreign t → foreign (PublishRouteRegistry.claim id A r t).2.
Proof.
  intros H. assert (foreign (<[(A, r) := id]> t)) as Hi.
  { intros k i [[_ ?]|[_ E]]%lookup_insert_Some ?; [done|by apply H]. }
  unfold PublishRouteRegistry.claim. by repeat case_match.
Qed.

(** Everything of the roles but the claim. *)
Definition fixed_roles (c : Conn) :=
  (state c, conn_id c, app c, current_stream c, publish_routes c, pending_publish_auth c,
   pending_play_auth c, recv_buffer c).

Lemma roles_ok_claimed c t c' t' : Commands.before_app c = false → fixed_roles c' = fixed_roles c →
  roles_ok c t → within (holds c') t' → foreign t' → roles_ok c' t'.
Proof.
  unfold fixed_roles. intros Hb E H ??. injection E as E1 E2 E3 E4 E5 E6 E7 E8. destruct H.
  assert (Commands.before_app c' = false) as Hb' by (unfold Commands.before_app; by rewrite E1).
  split; rewrite ?E2, ?E3, ?E4, ?E6, ?E7, ?E8; try done; rewrite Hb'; [by rewrite Hb in *|done].
Qed.

Lemma push_eviction_ok a r c : conn_ok c → conn_ok (Relay.push_pending_cache_eviction a r c).2
  ∧ roles (Relay.push_pending_cache_eviction a r c).2 = roles c.
Proof.
  intros H. unfold Relay.push_pending_cache_eviction. case_match eqn:E; (split; [|done]); [done|]. apply conn_ok_evictions; [|done].
  rewrite zlen_app. change (zlen [(a, r)]) with 1. unfold MAX_PENDING_CACHE_EVICTIONS in *. lia.
Qed.

(** * From one state

    [lands Q m w]: from [w], [m] returns a result and a world in [Q], or an
    error in a world that keeps the invariant. *)
Definition lands {B} (Q : B → World → Prop) (m : ST World B) (w : World) : Prop :=
  match m w with
  | (Ok b, w') => Q b w'
  | (Err _, w') => inv w'
  | (Panic, _) => False
  end.

Lemma lands_bind {B C} (Q : C → World → Prop) (m : ST World B) k w :
  lands (λ b, lands Q (k b)) m w → lands Q (m ≫= k) w.
Proof. unfold lands, mbind, ST_bind. by destruct (m w) as [[b|e|] w']. Qed.

Lemma lands_self {C} (Q : C → World → Prop) k w : lands Q (k (conn w)) w → lands Q (self ≫= k) w.
Proof. done. Qed.

Lemma lands_upd (Q : unit → World → Prop) f w : Q tt (w <| conn := f (conn w) |>) → lands Q (upd f) w.
Proof. done. Qed.

Lemma lands_state_conn {B} (Q : B → World → Prop) f w :
  Q (f (conn w)).1 (w <| conn := (f (conn w)).2 |>) → lands Q (state_conn f) w.
Proof. unfold lands, state_conn. by destruct (f (conn w)). Qed.

Lemma lands_keeps {B} (P : B → Prop) (Q : B → World → Prop) m w : keeps inv P m → inv w →
  (∀ b w', P b → inv w' → Q b w') → lands Q m w.
Proof. intros Hm Hw HQ. destruct (Hm w Hw) as [Hi Hr]. unfold lands. destruct (m w) as [[b|e|] w']; auto. Qed.

Lemma keeps_lands {B} (P : B → Prop) m : (∀ w, inv w → lands (λ b w', P b ∧ inv w') m w) → keeps inv P m.
Proof. intros H w Hw. specialize (H w Hw). unfold lands in H. destruct (m w) as [[b|e|] w']; naive_solver. Qed.

Lemma lands_weaken {B} (P Q : B → World → Prop) m w : (∀ b w', P b w' → Q b w') → lands P m w → lands Q m w.
Proof. unfold lands. intros H. destruct (m w) as [[b|e|] w']; auto. Qed.

Lemma fine_lands {B} (m : ST World B) : (∀ w, inv w → lands (λ _, inv) m w) → fine m.
Proof. intros H. apply keeps_lands. intros w Hw. eapply lands_weaken; [|by apply H]. auto. Qed.

Lemma lands_claim (Q : bool → World → Prop) r w : conn_id (conn w) = id → app (conn w) = A →
  (let t := PublishRouteRegistry.claim id A r (routes w) in Q t.1 (w <| routes := t.2 |>)) →
  lands Q (Relay.claim_route r) w.
Proof.
  intros Hid Happ H. unfold Relay.claim_route. apply lands_self. rewrite Hid, Happ.
  unfold lands, with_routes. by destruct (PublishRouteRegistry.claim _ _ _ _).
Qed.

Lemma lands_release (Q : unit → World → Prop) r w : conn_id (conn w) = id → app (conn w) = A →
  (publish_routes (conn w) = true → Q tt (w <| routes := PublishRouteRegistry.release id A r (routes w) |>)) →
  (publish_routes (conn w) = false → Q tt w) → lands Q (Relay.release_route r) w.
Proof.
  intros Hid Happ H1 H2. unfold Relay.release_route. apply lands_self. rewrite Hid, Happ.
  destruct (publish_routes (conn w)); [by apply H1|by apply H2].
Qed.

(** What a registry operation leaves, with the resources kept. *)
Lemma inv_claimed w w' : inv w → Commands.before_app (conn w) = false →
  fixed_roles (conn w') = fixed_roles (conn w) → conn_ok (conn w') →
  within (holds (conn w')) (routes w') → foreign (routes w') → inv w'.
Proof. intros [_ Hr] Hb Hf Hok Hw Hfo. split; [done|]. by eapply roles_ok_claimed. Qed.

Lemma claimed_connected w r : inv w → claimed_publish_route (conn w) = Some r →
  Commands.before_app (conn w) = false.
Proof.
  intros [_ H] Hc. destruct (Commands.before_app (conn w)) eqn:E; [|done].
  destruct (r_early _ _ H E) as (_&_&?&_). congruence.
Qed.

Lemma lands_guard (Q : unit → World → Prop) c e w : inv w → (c = false → Q tt w) → lands Q (guard_st c e) w.
Proof. intros Hw H. unfold lands. destruct c; [done|by apply H]. Qed.

Section connected.
Hypothesis connected : ∀ b x, phase b x → b = false.

Lemma inv_connected w : inv w → Commands.before_app (conn w) = false.
Proof. intros [_ H]. eapply connected, H. Qed.

(** A claim replaced: the world, up to the queue of evictions, when the old
    route is released and the new one held. *)
Lemma inv_held w w' cl : inv w → publish_routes (conn w) = true →
  fixed_roles (conn w') = fixed_roles (conn w) → claimed_publish_route (conn w') = Some cl →
  conn_ok (conn w') → within [cl] (routes w') → foreign (routes w') → inv w'.
Proof.
  intros Hw Hp Hf Hc Hok Hwi Hfo. eapply (inv_claimed w); try done; [by apply inv_connected|].
  unfold holds. rewrite Hc. unfold fixed_roles in Hf. injection Hf as _ _ _ _ -> _ _ _. by rewrite Hp.
Qed.

(** What [claim_publish_route] leaves. *)
Definition claims (stream : bytes) (o : PublishRouteClaimOutcome) (w : World) : Prop :=
  inv w ∧ (o = Claimed → claimed_publish_route (conn w) = Some stream).

(** The rest of [claim_publish_route] once the registry has the new route too. *)
Lemma lands_replace prev stream w t : inv w → publish_routes (conn w) = true →
  within [stream; prev] t → foreign t →
  lands (claims stream)
    (upd (λ c, c <| claimed_publish_route := None |>);;
     Relay.release_route prev;;
     room ← (if decide (prev = []) then mret true
             else state_conn (λ c, Relay.push_pending_cache_eviction (app c) prev c));
     if room : bool then upd (λ c, c <| claimed_publish_route := Some stream |>);; mret Claimed
     else Relay.release_route stream;; Relay.claim_route prev;;
       upd (λ c, c <| claimed_publish_route := Some prev |>);; mret EvictionQueueFull)
    (w <| routes := t |>).
Proof.
  intros Hw Hp Hwi Hfo. pose proof Hw as [Hok [Hid Happ _ _ _ _ _ _ _ _ _]].
  apply lands_bind, lands_upd. apply lands_bind, lands_release; [done..| |cbn; congruence]. intros _.
  assert (within [stream] (PublishRouteRegistry.release id A prev t)) as Hwr.
  { apply within_release. eapply within_weaken; [|exact Hwi]. set_solver. }
  pose proof (foreign_release prev _ Hfo) as Hfr. apply lands_bind.
  assert (∀ c, conn_ok c → fixed_roles c = fixed_roles (conn w) → inv (w
    <| conn := c <| claimed_publish_route := Some stream |> |>
    <| routes := PublishRouteRegistry.release id A prev t |>)) as Hyes.
  { intros c Hc Hf. by apply (inv_held w _ stream); try apply (conn_ok_resources c). }
  case_decide as Hn.
  { apply lands_bind, lands_upd. split; [|done]. apply (Hyes (conn w)); done. }
  apply lands_state_conn. destruct (push_eviction_ok A prev ((conn w) <| claimed_publish_route := None |>))
    as [Hpok Hpr]; [by apply (conn_ok_resources (conn w))|].
  set (w1 := w <| routes := t |> <| conn := _ |> <| routes := _ |>).
  change (Relay.push_pending_cache_eviction (app (conn w1)) prev (conn w1))
    with (Relay.push_pending_cache_eviction (app (conn w)) prev ((conn w) <| claimed_publish_route := None |>)).
  rewrite Happ. destruct (Relay.push_pending_cache_eviction A prev _) as [room c']. cbn [fst snd] in *.
  unfold roles in Hpr. injection Hpr as E1 E2 E3 E4 E5 E6 E7 E8 E9.
  assert (fixed_roles c' = fixed_roles (conn w)) as Hf.
  { unfold fixed_roles. by rewrite E1, E2, E3, E4, E5, E7, E8, E9. }
  destruct room.
  { apply lands_bind, lands_upd. split; [|done]. by apply (Hyes c'). }
  apply lands_bind, lands_release; [cbn; congruence..| |cbn; congruence]. intros _.
  apply lands_bind, lands_claim; [cbn; congruence..|]. cbv zeta. apply lands_bind, lands_upd.
  split; [|done]. apply (inv_held w _ prev); try done; [by apply (conn_ok_resources c')|..].
  - apply within_claim. by apply within_release.
  - by apply foreign_claim, foreign_release.
Qed.

Lemma lands_claim_publish_route stream w : inv w → lands (claims stream) (Relay.claim_publish_route stream) w.
Proof.
  intros Hw. pose proof Hw as [Hok [Hid Happ _ _ Hwi Hfo _ _ _ _ _]].
  apply lands_self. unfold holds in Hwi. destruct (publish_routes (conn w)) eqn:Ep; cbn [negb].
  2:{ apply lands_bind, lands_upd. split; [|done]. eapply (inv_claimed w); try done;
        [by apply inv_connected|by apply (conn_ok_resources (conn w))|].
      unfold holds. simpl. by rewrite Ep. }
  apply lands_bind, lands_claim; [done..|]. pose proof (within_claim _ stream _ Hwi) as Hwc.
  pose proof (foreign_claim stream _ Hfo) as Hfc. cbv zeta.
  destruct (PublishRouteRegistry.claim id A stream (routes w)) as [ok t] eqn:Ec. cbn [fst snd] in *.
  destruct ok; cbn [negb].
  2:{ split; [|done]. eapply (inv_claimed w); try done; [by apply inv_connected|].
      pose proof (claim_refused stream (routes w)) as Hr. rewrite Ec in Hr.
      rewrite <- (Hr eq_refl) in Hwi. unfold holds. simpl. by rewrite Ep. }
  destruct (claimed_publish_route (conn w)) as [prev|] eqn:El; simpl option_list in *.
  - case_decide as Hs; [|by apply lands_replace]. subst prev. split; [|done].
    apply (inv_held w _ stream); try done. eapply within_weaken; [|exact Hwc]. set_solver.
  - apply lands_bind, lands_upd. split; [|done]. apply (inv_held w _ stream); try done.
    by apply (conn_ok_resources (conn w)).
Qed.
End connected.

Lemma fine_release_claimed : fine Relay.release_claimed_publish_route.
Proof.
  apply fine_lands. intros w Hw. apply lands_self.
  destruct (claimed_publish_route (conn w)) as [r|] eqn:Ec; [|done].
  pose proof (claimed_connected w r Hw Ec) as Hb. pose proof Hw as [Hok [Hid Happ _ _ Hwi Hfo _ _ _ _ _]].
  unfold holds in Hwi. rewrite Ec in Hwi. apply lands_bind, lands_upd.
  apply lands_release; [done..| |]; intros Hp; cbn in Hp; rewrite Hp in Hwi;
    (apply (inv_claimed w); try done; [by apply (conn_ok_resources (conn w))|..]).
  - unfold holds. simpl. rewrite Hp. by apply within_release.
  - by apply foreign_release.
  - unfold holds. simpl. by rewrite Hp.
Qed.

Lemma fine_evict_active : fine Relay.evict_active_publish_route.
Proof.
  apply fine_with_self. intros c _. apply fine_seq; [apply fine_release_claimed|intros _].
  assert (∀ k, fine (upd (λ c, Relay.try_push_pending_cache_eviction (app c) k c))) as Hpush.
  { intros k. apply fine_upd. intros w [H1 H2]. destruct (try_push_ok (app (conn w)) k (conn w) H1) as [H3 H4].
    split; [exact H3|exact (roles_ok_roles _ _ _ H4 H2)]. }
  destruct (negb (publishing c)).
  - apply fine_seq; [|intros _; by apply fine_note].
    destruct (claimed_publish_route c); [|apply fine_ret]. apply fine_when, Hpush.
  - apply fine_seq; [|intros _; apply fine_seq; [by apply fine_note|intros _; by apply fine_note]].
    apply fine_upd. intros w [H1 H2].
    match goal with |- context [Relay.evict_keys ?a ?d ?k ?c] =>
      destruct (evict_keys_ok a d k c H1) as [H3 H4] end.
    split; [exact H3|exact (roles_ok_roles _ _ _ H4 H2)].
Qed.

Lemma fine_queue ft ts payload cache : is_u32 ts → bytes_ok payload → bytes_ok (Modex.view cache) →
  fine (Relay.queue_relay_frame ft ts payload cache).
Proof.
  intros Hts Ho Hc. apply fine_lands. intros w Hw. apply lands_self. apply lands_bind, lands_guard; [done|intros Hlen%Z.ltb_ge].
  set (f := mkRelayFrame _ _ _ _ _ _ _). apply lands_bind, lands_guard; [done|].
  intros [G1 G2]%orb_false_iff. apply Z.leb_gt in G1. apply Z.ltb_ge in G2.
  pose proof Hw as [Hok Hr]. pose proof (ok_relay _ Hok) as Hm.
  apply lands_bind, lands_upd, lands_upd. split; [|by apply (roles_ok_roles (conn w))].
  change (conn_ok ((conn w) <| abandoned_relay_routes := List.filter (Relay.other_route (app (conn w))
    (Relay.relay_route_key (conn w))) (abandoned_relay_routes (conn w)) |>
    <| pending_relay := pending_relay (conn w) ++ [f] |>)).
  apply conn_ok_relay; [..|apply conn_ok_abandoned; [|done]].
  - rewrite zlen_app. change (zlen [f]) with 1. lia.
  - change (frames_bytes (pending_relay (conn w) ++ [f]) ≤ max_pending_relay_bytes (conn w)).
    rewrite frames_bytes_snoc. change (frames_bytes (pending_relay (conn w))) with (Relay.pending_relay_bytes (conn w)).
    unfold saturating_add, USIZE_MAX in G2. unfold ISIZE_MAX in Hm. lia.
  - change (Forall (queued (conn_id (conn w))) (pending_relay (conn w) ++ [f])).
    apply Forall_app. split; [apply Hok|]. apply Forall_singleton. split; [|unfold Relay.max_len in Hlen; simpl; lia|done].
    split; [done..|]. by destruct cache.
  - etrans; [apply zlen_filter|apply Hok].
Qed.

(** * Media *)

Lemma fine_try_upd f : (∀ c, returns (λ c', resources c' = resources c ∧ roles c' = roles c) (f c)) →
  fine (try_upd f).
Proof.
  intros H w Hw. unfold try_upd. specialize (H (conn w)). destruct (f (conn w)) as [c'|e|]; [|done..].
  split; [|done]. destruct H as [H1 H2]. by apply inv_same.
Qed.

Section media.
Context (h : Hooks).

Lemma fine_update_detected ft codec multi payload : bytes_ok payload →
  fine (try_upd (Ingest.update_detected_media_metadata ft codec multi payload)).
Proof.
  intros Ho. apply fine_try_upd. intros c. unfold Ingest.update_detected_media_metadata.
  set (c1 := match ft with Audio => _ | _ => _ end).
  assert (resources c1 = resources c ∧ roles c1 = roles c) as [H1 H2].
  { unfold c1. destruct ft; [by case_match| |done..]. by destruct (_ || _). }
  destruct (_ && _); [|done]. pose proof (metadata_hdr_total payload Ho) as H.
  destruct (ColorInfo.parse_video_metadata_hdr payload) as [[i|]|e|]; done.
Qed.

Lemma fine_dispatch_tracks ft ts l : Forall (λ t, zlen (Multitrack.t_fourcc t) = 4 ∧ bytes_ok (Multitrack.t_payload t)) l →
  fine (Ingest.dispatch_tracks h ft ts l).
Proof.
  induction 1 as [|t l [Ht _] _ IH]; simpl; [apply fine_ret|]. apply fine_seq; [|done].
  apply fine_when. eapply fine_read; [by apply populate_track_total|]. intros. apply fine_emit.
Qed.

Lemma fine_dispatch_callbacks ft ts payload multi : bytes_ok payload →
  fine (Ingest.dispatch_media_frame_callbacks h ft ts payload multi).
Proof.
  intros Ho. unfold Ingest.dispatch_media_frame_callbacks.
  destruct (foreach_total ft payload Ho) as (ok&l&->&Hl).
  eapply (fine_read (λ x, x = (ok, l))); [done|]. intros ? ->.
  apply fine_seq; [by apply fine_dispatch_tracks|intros _]. destruct multi.
  - apply fine_seq; [apply fine_guard|intros _; apply fine_ret].
  - apply fine_seq; [apply fine_when|intros _; apply fine_ret].
    eapply fine_read; [by apply populate_total|]. intros. apply fine_emit.
Qed.

Lemma fine_media_frame sid ft ts payload : is_u32 ts → bytes_ok payload →
  fine (Ingest.handle_media_frame h sid ft ts payload).
Proof.
  intros Hts Ho. apply fine_with_self. intros c _. destruct (negb _).
  { apply fine_when. by apply fine_note. }
  destruct (normalize_total payload CAPS_EX_MASK_MODEX ft Ho) as (n&->&Hn).
  eapply (fine_read (λ x, x = n)); [done|]. intros ? ->. cbv zeta.
  destruct (codec_total ft _ Hn) as (codec&->). eapply (fine_read any); [done|]. intros codec' _.
  eapply fine_read; [by apply authorize_total|]. intros work _.
  apply fine_seq; [by apply fine_note|intros _].
  apply fine_seq; [by apply fine_update_detected|intros _].
  apply fine_seq; [by apply fine_note|intros _].
  apply fine_seq; [by apply fine_dispatch_callbacks|intros n'].
  apply fine_seq; [by apply fine_note|intros _]. by apply keeps_map_err, fine_queue.
Qed.

Lemma fine_data_message payload : bytes_ok payload → fine (Ingest.handle_data_message payload).
Proof.
  intros Ho w Hw. destruct (data_message_described payload w Ho) as (r&c&->&Hc&Hr). split; [|done].
  apply inv_same; [..|done].
  - change (resources (undescribed c) = resources (undescribed (conn w))). by rewrite Hc.
  - change (roles (undescribed c) = roles (undescribed (conn w))). by rewrite Hc.
Qed.

Lemma fine_publisher_data sid ts payload : is_u32 ts → bytes_ok payload →
  fine (Ingest.handle_publisher_data_message h sid ts payload).
Proof.
  intros Hts Ho. apply fine_with_self. intros c _. case_match; [apply fine_ret|].
  eapply fine_read; [by apply on_metadata_total|]. intros md _. cbv zeta.
  apply fine_seq; [apply fine_guard|intros _]. apply fine_seq; [by apply fine_data_message|intros _].
  apply fine_when, fine_seq; [apply fine_when, fine_emit|intros _; by apply fine_queue].
Qed.

Lemma fine_subtag sid ty ts payload : is_u32 ts → bytes_ok payload → fine (Ingest.handle_subtag h sid ty ts payload).
Proof.
  intros Hts Ho. unfold Ingest.handle_subtag.
  repeat case_match; [by apply fine_media_frame..|by apply fine_publisher_data|apply fine_ret].
Qed.

(** Every turn of the loop consumes a sub-tag, of which there are at most
    [MAX_AGGREGATE_SUBTAGS]. *)
Lemma fine_aggregate_loop fuel sid base payload pos sub subtags mb : bytes_ok payload →
  MAX_AGGREGATE_SUBTAGS - subtags < Z.of_nat fuel → 0 ≤ pos → 0 ≤ subtags ≤ MAX_AGGREGATE_SUBTAGS →
  fine (Ingest.aggregate_loop h fuel sid base payload pos sub subtags mb).
Proof.
  intros Ho. revert pos sub subtags mb.
  induction fuel as [|fuel IH]; intros pos sub subtags mb Hf Hp Hs; [lia|]. cbn [Ingest.aggregate_loop].
  destruct (Z.ltb_spec (zlen payload) (pos + 11)); [apply fine_ret|].
  eapply (keeps_bind _ (λ _, subtags < MAX_AGGREGATE_SUBTAGS)); [apply keeps_guard; cbv beta; lia|].
  intros _ Hlt. cbv beta in Hlt.
  destruct (subtag_total payload pos) as (ty&n&ts&->&Hn); [done|lia..|].
  eapply (fine_read (λ x, x = (ty, n, ts))); [done|]. intros ? ->. cbv zeta.
  eapply (keeps_bind _ (λ _, pos + 11 + n ≤ zlen payload)); [apply keeps_guard; cbv beta; lia|].
  intros _ Hfit. cbv beta in Hfit. apply fine_seq; [apply fine_guard|intros _].
  apply fine_with_self. intros c _. destruct (_ || _); [apply fine_ret|].
  destruct (ConnectCaps.slice_bytes payload (pos + 11) (pos + 11 + n)) as (d&->&Hd&_); [done|lia..|].
  eapply (fine_read (λ x, x = d)); [done|]. intros ? ->. apply fine_seq; [|intros _; apply IH; lia].
  apply fine_subtag; [apply Reader.wrapping_add32_range|done].
Qed.

Lemma fine_aggregate sid base payload mb : bytes_ok payload →
  fine (Ingest.handle_aggregate h sid base payload mb).
Proof. intros Ho. by apply fine_aggregate_loop. Qed.
End media.

(** * Authorization *)

Lemma remember_bound ids r : zlen ids ≤ RESOLVED_AUTH_ID_MEMORY →
  zlen (Auth.remember_resolved_auth_id ids r) ≤ RESOLVED_AUTH_ID_MEMORY.
Proof.
  intros H. unfold Auth.remember_resolved_auth_id. case_decide; [done|]. rewrite zlen_app.
  change (zlen [r]) with 1. unfold RESOLVED_AUTH_ID_MEMORY in *. case_match; [|lia].
  destruct ids as [|i ids]; [done|]. rewrite zlen_cons in *. simpl. lia.
Qed.

Lemma fine_state_conn {B} (f : Conn → B * Conn) : (∀ w, inv w → inv (w <| conn := (f (conn w)).2 |>)) →
  fine (state_conn f).
Proof. intros H. apply fine_lands. intros w Hw. apply lands_state_conn. by apply H. Qed.

Lemma take_publish_ok w : inv w → inv (w <| conn := (Auth.take_pending_publish (conn w)).2 |>).
Proof.
  intros Hw. unfold Auth.take_pending_publish.
  destruct (pending_publish_auth (conn w)); [|exact Hw]. destruct Hw as [[] []].
  split; split; try done; [by apply remember_bound|].
  intros He. destruct (r_early0 He) as (?&?&?&_&?). done.
Qed.

Lemma take_play_ok w : inv w → inv (w <| conn := (Auth.take_pending_play (conn w)).2 |>).
Proof.
  intros Hw. unfold Auth.take_pending_play.
  destruct (pending_play_auth (conn w)); [|exact Hw]. destruct Hw as [[] []].
  split; split; try done; [by apply remember_bound|].
  intros He. destruct (r_early0 He) as (?&?&?&?&_). done.
Qed.

Lemma fine_deny_publish : fine Auth.deny_pending_publish_auth.
Proof.
  apply fine_seq; [apply fine_state_conn, take_publish_ok|]. intros b. apply fine_when, fine_onstatus.
Qed.

Lemma fine_deny_play : fine Auth.deny_pending_play_auth.
Proof.
  apply fine_seq; [apply fine_state_conn, take_play_ok|]. intros b. apply fine_when, fine_onstatus.
Qed.

Lemma fine_drop_pending : fine (upd Auth.drop_pending_authorizations).
Proof.
  apply fine_upd. intros w Hw. apply take_publish_ok in Hw. by apply take_play_ok in Hw.
Qed.

Section roles.
Hypothesis connected : ∀ b x, phase b x → b = false.
Context (now : Z).

Lemma fine_transition st : 4 ≤ StateMachine.rank st → fine (transition st).
Proof.
  intros Hst. apply fine_ignore. intros w Hw. pose proof (inv_connected connected w Hw) as Hb.
  unfold on_field, StateMachine.conn_transition. destruct (negb _ && _); (split; [|done]).
  { by apply (inv_same ((conn w) <| state := state (conn w) |>)). }
  destruct Hw as [H []]. split; [by apply (conn_ok_resources (conn w))|].
  assert (Commands.before_app ((conn w) <| state := st |>) = false) as Hb' by (apply Z.ltb_ge; simpl; lia).
  split; try done; [change (phase (Commands.before_app ((conn w) <| state := st |>)) (recv_buffer (conn w)))|change
    (Commands.before_app ((conn w) <| state := st |>) = true → holds_nothing ((conn w) <| state := st |>))];
    rewrite Hb'; [by rewrite Hb in *|done].
Qed.

Lemma fine_gate_relay n was : fine (upd (Auth.gate_relay n was)).
Proof.
  apply fine_resources; [|intros c; unfold Auth.gate_relay; by repeat case_match].
  intros c H. unfold Auth.gate_relay. destruct (defer_media_relay c);
    [|by apply (conn_ok_resources c)]. destruct (_ || _); [|done].
  apply conn_ok_relay; [done| |constructor|by apply (conn_ok_resources c)].
  change (0 ≤ max_pending_relay_bytes c). pose proof (frames_bytes_nonneg (pending_relay c)).
  pose proof (ok_relay _ H). change (Relay.pending_relay_bytes c) with (frames_bytes (pending_relay c)) in *. lia.
Qed.

(** An update of the stream that takes no role it was not granted. *)
Record modest (f : Stream → Stream) : Prop := {
  m_id s : stream_id (f s) = stream_id s;
  m_publish s : is_publishing (f s) = true →
    granted_publish (name (f s)) ∨ is_publishing s = true ∧ name (f s) = name s;
  m_play s : is_playing (f s) = true →
    granted_play (name (f s)) ∨ is_playing s = true ∧ name (f s) = name s;
}.

Lemma modest_roles f c t : modest f → roles_ok c t → roles_ok (upd_stream f c) t.
Proof.
  intros [Hid Hpub Hplay] []. split; try done; unfold upd_stream; simpl.
  - intros He. destruct (r_early0 He) as (?&E&?&?&?). unfold holds_nothing. simpl. by rewrite E.
  - intros s. destruct (current_stream c) as [s'|]; [|done]. intros [= <-]. rewrite Hid. by apply r_stream0.
  - intros s. destruct (current_stream c) as [s'|]; [|done]. intros [= <-] Hs.
    destruct (Hpub s' Hs) as [|[? ->]]; [done|]. by apply r_publish0.
  - intros s. destruct (current_stream c) as [s'|]; [|done]. intros [= <-] Hs.
    destruct (Hplay s' Hs) as [|[? ->]]; [done|]. by apply r_play0.
Qed.

Lemma fine_upd_stream f : modest f → fine (upd (upd_stream f)).
Proof. intros Hf. apply fine_roles; [done|]. intros c t. by apply modest_roles. Qed.

Lemma fine_grant_publish n r was_pub was_play : granted_publish n →
  fine (Auth.grant_publish now n r was_pub was_play).
Proof.
  intros Hg. apply fine_seq; [apply fine_deny_play|intros _].
  apply fine_seq; [apply fine_note; intros c; by case_match|intros _].
  apply fine_seq; [apply fine_gate_relay|intros _].
  apply fine_seq; [apply fine_upd_stream; split; by auto|intros _].
  apply fine_seq; [by apply fine_note|intros _]. apply fine_seq; [by apply fine_transition|intros _].
  apply fine_with_self. intros. apply fine_onstatus.
Qed.

(** A claim given back: the route [next] released and [prev] claimed instead. *)
Lemma fine_give_back next prev w (k : ST World unit) pr : inv w → claimed_publish_route (conn w) = Some next →
  publish_routes (conn w) = pr → fine k →
  lands (λ _, inv) (Relay.release_route next;; when pr (Relay.claim_route prev;; mret tt);;
    upd (λ c, c <| claimed_publish_route := Some prev |>);; k) w.
Proof.
  intros Hw Hcl <- Hk. pose proof Hw as [Hok [Hid Happ _ _ Hwi Hfo _ _ _ _ _]].
  unfold holds in Hwi. rewrite Hcl in Hwi. apply lands_bind, lands_release; [done..| |]; intros Hp; rewrite Hp in *.
  - apply lands_bind. cbn [when]. apply lands_bind, lands_claim; [done..|]. cbv zeta.
    apply lands_bind, lands_upd. apply (lands_keeps any); [done| |done].
    apply (inv_held connected w _ prev); try done; [by apply (conn_ok_resources (conn w))|..].
    + by apply within_claim, within_release.
    + by apply foreign_claim, foreign_release.
  - cbn [when]. apply lands_bind. apply lands_bind, lands_upd. apply (lands_keeps any); [done| |done].
    apply (inv_claimed w); try done; [by apply inv_connected|by apply (conn_ok_resources (conn w))|].
    unfold holds. simpl. by rewrite Hp.
Qed.

Lemma lands_push (b : bool) k next w : inv w → claimed_publish_route (conn w) = Some next →
  lands (λ _ w', inv w' ∧ claimed_publish_route (conn w') = Some next
           ∧ publish_routes (conn w') = publish_routes (conn w))
    (if b then state_conn (λ c, Relay.push_pending_cache_eviction (app c) k c) else mret true) w.
Proof.
  intros Hw Hcl. destruct b; [|done]. apply lands_state_conn. destruct Hw as [Hok Hr].
  destruct (push_eviction_ok (app (conn w)) k (conn w) Hok) as [H1 H2]. split; [split; [exact H1|]|].
  - exact (roles_ok_roles _ _ _ H2 Hr).
  - unfold roles in H2. injection H2 as _ _ _ _ E1 E2 _ _ _. cbn. by rewrite E2.
Qed.

Lemma fine_complete_publish n : granted_publish n → fine (Auth.complete_publish_authorized now n).
Proof.
  intros Hg. apply fine_lands. intros w0 Hw0. apply lands_self. cbv zeta.
  apply lands_bind. eapply lands_weaken; [|by apply (lands_claim_publish_route connected)].
  intros o w [Hw Hcl]. destruct o; [|by apply (lands_keeps any); [apply fine_onstatus| |]..].
  specialize (Hcl eq_refl). apply lands_self, lands_bind. eapply lands_weaken; [|by apply lands_push].
  intros room w1 (Hw1&Hcl1&Hp1). destruct room.
  - apply (lands_keeps any); [by apply fine_grant_publish|done..].
  - apply fine_give_back; [done..|apply fine_onstatus].
Qed.

Lemma fine_complete_play n : granted_play n → fine (Auth.complete_play_authorized now n).
Proof.
  intros Hg. apply fine_seq; [apply fine_deny_publish|intros _].
  apply fine_seq; [apply fine_note; intros; by case_match|intros _].
  apply fine_seq; [apply fine_evict_active|intros _]. apply fine_with_self. intros c _. cbv zeta.
  apply fine_seq; [apply fine_upd_stream; split; by auto|intros _].
  apply fine_seq; [by apply fine_note|intros _].
  apply fine_seq; [|intros _; apply fine_seq; [by apply fine_transition|intros _]].
  - apply fine_when, fine_seq; [by apply fine_note|intros _].
    apply fine_note; intros; unfold Relay.request_init_replay; by case_match.
  - apply fine_with_self. intros c' _. cbv zeta. apply fine_seq; [apply fine_onstatus|intros _].
    apply fine_lifecycle_begin.
Qed.

Lemma pending_publish_step rid w p : inv w → pending_publish_auth (conn w) = Some p →
  inv (w <| conn := Auth.remember_publish_auth_id rid ((conn w) <| pending_publish_auth := None |>) |>).
Proof.
  intros [[] []] _. split; split; try done; [by apply remember_bound|].
  intros He. destruct (r_early0 He) as (?&?&?&_&?). done.
Qed.

Lemma pending_play_step rid w p : inv w → pending_play_auth (conn w) = Some p →
  inv (w <| conn := Auth.remember_play_auth_id rid ((conn w) <| pending_play_auth := None |>) |>).
Proof.
  intros [[] []] _. split; split; try done; [by apply remember_bound|].
  intros He. destruct (r_early0 He) as (?&?&?&?&_). done.
Qed.

Lemma fine_complete_publish_authorization rid allow :
  (allow = true → ∀ n, waiting_publish n rid → granted_publish n) →
  fine (Auth.complete_publish_authorization now rid allow).
Proof.
  intros Hg. apply fine_lands. intros w Hw. apply lands_self.
  destruct (pending_publish_auth (conn w)) as [p|] eqn:Ep; [|done].
  destruct (Z.eqb_spec (pa_request_id p) rid) as [Hid|]; [|done]. cbn [negb].
  apply lands_bind, lands_upd. apply (lands_keeps any); [|by eapply pending_publish_step|done].
  destruct allow; [|apply fine_onstatus]. apply fine_with_self. intros c _. cbv zeta.
  apply fine_seq; [by apply fine_when, fine_note|intros _]. apply fine_complete_publish, Hg; [done|].
  rewrite <- Hid. by apply Hw.
Qed.

Lemma fine_complete_play_authorization rid allow :
  (allow = true → ∀ n, waiting_play n rid → granted_play n) →
  fine (Auth.complete_play_authorization now rid allow).
Proof.
  intros Hg. apply fine_lands. intros w Hw. apply lands_self.
  destruct (pending_play_auth (conn w)) as [p|] eqn:Ep; [|done].
  destruct (Z.eqb_spec (pa_request_id p) rid) as [Hid|]; [|done]. cbn [negb].
  apply lands_bind, lands_upd. apply (lands_keeps any); [|by eapply pending_play_step|done].
  destruct allow; [|apply fine_onstatus]. apply fine_complete_play, Hg; [done|].
  rewrite <- Hid. by apply Hw.
Qed.

Lemma fine_reap timeout : fine (Auth.reap_timed_out_pending_auth now timeout).
Proof.
  apply fine_with_self. intros c _. apply fine_seq.
  - destruct (Auth.overdue _ _ _); [|apply fine_ret]. apply fine_seq; [by apply fine_note|intros _].
    apply fine_seq; [by apply fine_ignore, fine_complete_publish_authorization|intros _; apply fine_ret].
  - intros b. apply fine_with_self. intros c' _. destruct (Auth.overdue _ _ _); [|apply fine_ret].
    apply fine_seq; [by apply fine_note|intros _].
    apply fine_seq; [by apply fine_ignore, fine_complete_play_authorization|intros _; apply fine_ret].
Qed.

(** A request, decided by the callbacks. *)
Lemma fine_authorize_publish h n : (publish_decision h id A n = Allow → granted_publish n) →
  (∀ rid, publish_decision h id A n = Pending rid → waiting_publish n rid) →
  fine (Auth.authorize_publish now h n).
Proof.
  intros Hg Hw. apply fine_with_self. intros c [Hok [t Hr]]. destruct (_ || _); [apply fine_onstatus|].
  pose proof (r_id _ _ Hr) as Hid. pose proof (r_app _ _ Hr) as Happ. rewrite Hid, Happ.
  assert (fine (match publish_decision h id A n with
    | Allow => Auth.complete_publish_authorized now n
    | Deny => Sender.send_publish_denied
    | Pending rid =>
        if decide (rid ∈ resolved_publish_auth_ids c) then Sender.send_publish_denied
        else upd (λ c, c <| pending_publish_auth := Some (mkPending n now rid) |>)
    end)) as H.
  { destruct (publish_decision h id A n) as [| |rid] eqn:E; [by apply fine_complete_publish, Hg|apply fine_onstatus|].
    case_decide; [apply fine_onstatus|]. specialize (Hw rid eq_refl).
    apply fine_upd. intros w Hi. pose proof (inv_connected connected w Hi) as Hb. destruct Hi as [Ho []].
    split; [by apply (conn_ok_resources (conn w))|]. split; try done; [|by intros ? [= <-]].
    intros He. change (Commands.before_app (conn w) = true) in He. congruence. }
  clear Hg Hw. unfold publish_decision, verdict in H.
  destruct (c_publish_auth h); [by destruct (Auth.c_auth_allows _ _ _ _)|].
  destruct (on_publish_auth_cb h); [exact H|].
  destruct (on_publish_cb h) as [cb|]; [by destruct (cb id A n)|by destruct (Auth.requires_explicit_publish_auth h)].
Qed.

Lemma fine_authorize_play h n : (play_decision h id A n = Allow → granted_play n) →
  (∀ rid, play_decision h id A n = Pending rid → waiting_play n rid) →
  fine (Auth.authorize_play now h n).
Proof.
  intros Hg Hw. apply fine_with_self. intros c [Hok [t Hr]]. destruct (_ || _); [apply fine_onstatus|].
  pose proof (r_id _ _ Hr) as Hid. pose proof (r_app _ _ Hr) as Happ. rewrite Hid, Happ.
  assert (fine (match play_decision h id A n with
    | Allow => Auth.complete_play_authorized now n
    | Deny => Sender.send_play_denied
    | Pending rid =>
        if decide (rid ∈ resolved_play_auth_ids c) then Sender.send_play_denied
        else upd (λ c, c <| pending_play_auth := Some (mkPending n now rid) |>)
    end)) as H.
  { destruct (play_decision h id A n) as [| |rid] eqn:E; [by apply fine_complete_play, Hg|apply fine_onstatus|].
    case_decide; [apply fine_onstatus|]. specialize (Hw rid eq_refl).
    apply fine_upd. intros w Hi. pose proof (inv_connected connected w Hi) as Hb. destruct Hi as [Ho []].
    split; [by apply (conn_ok_resources (conn w))|]. split; try done; [|by intros ? [= <-]].
    intros He. change (Commands.before_app (conn w) = true) in He. congruence. }
  clear Hg Hw. unfold play_decision, verdict in H.
  destruct (c_play_auth h); [by destruct (Auth.c_auth_allows _ _ _ _)|].
  destruct (on_play_auth_cb h); [exact H|].
  destruct (on_play_cb h) as [cb|]; [by destruct (cb id A n)|by destruct (Auth.requires_explicit_play_auth h)].
Qed.
End roles.
End inv.
End Invariant.
