(* ===== verification/SessionStep.v ===== *)
(** Every step of a session keeps the invariant, whatever its peer sends: the
    commands, the control messages, the handshake, the message loop and
    [Conn::recv] as a whole, none of which panics. *)
From S2P Require Import Prelude Bytes Types Buffer Source ChunkState ChunkWriter ChunkReader MediaOut ReadLoop Handshake Amf0 Control Caps Command SharedObject Session ConnRelay ConnSend ConnMedia ConnAuth ConnCommand ConnRecv SessionTotal SessionInv.
#[local] Set Warnings "-clear-no-such-hyp".

Module Step.
Import Conn Total Invariant.

#[local] Abbreviation any := (λ _, True).

(** * Parsed commands *)

Definition input (b : Buffer) : Prop := Buffer.wf b ∧ bytes_ok (Buffer.contents b).

Lemma returns_any {B} (Q : B → Prop) r : returns Q r → returns any r.
Proof. by destruct r. Qed.

Lemma parsed {B} (Q : B → Prop) m p b : sim Q m p → input b → returns Q (fst (m b)) ∧ input (snd (m b)).
Proof.
  intros H [Hb Ho]. specialize (H b Hb Ho). destruct (p (Buffer.contents b)) as [r l].
  destruct H as (b'&->&[Ha _]&<-&Ho'&Hr). split; [done|]. split; [|done]. apply Ha.
Qed.

Lemma parsed_out {O B} (I : O → Prop) (Q : B → Prop) m p b o : sim_out I Q m p → input b → I o →
  returns Q (fst (m (b, o))) ∧ I (snd (snd (m (b, o)))).
Proof.
  intros H [Hb Ho] Hi. rewrite sim_out_iff in H.
  by destruct (H b o Hb Ho Hi) as (r&b'&o'&->&_&_&_&?&?).
Qed.

Section step.
Context (id : Z) (R0 : PublishRouteRegistry.table).
Context (granted_publish granted_play : bytes → bytes → Prop).
Context (waiting_publish waiting_play : bytes → bytes → Z → Prop).
Context (left : Buffer → Prop).

(** The invariant of a connection to [A] with [left] to read, before or after
    the connect command, and after it. *)
Definition at_app (A : bytes) : World → Prop :=
  inv id R0 A (λ _, left) (granted_publish A) (granted_play A) (waiting_publish A) (waiting_play A).
Definition live (A : bytes) : World → Prop :=
  inv id R0 A (λ b x, b = false ∧ left x) (granted_publish A) (granted_play A) (waiting_publish A) (waiting_play A).
Definition session (w : World) : Prop := ∃ A, at_app A w.

Lemma live_at_app A w : live A w ↔ at_app A w ∧ Commands.before_app (conn w) = false.
Proof.
  split.
  - intros [H []]. destruct r_phase0. split; [split; [done|by split]|done].
  - intros [[H []] ?]. split; [done|by split].
Qed.

#[local] Abbreviation fine A m := (keeps (at_app A) any m).

(** An operation may be checked before and after the connect command apart. *)
Lemma phases {B} A (m : ST World B) : keeps (live A) any m →
  (∀ w, at_app A w → Commands.before_app (conn w) = true → at_app A (snd (m w)) ∧ returns any (fst (m w))) →
  fine A m.
Proof.
  intros H1 H2 w Hw. destruct (Commands.before_app (conn w)) eqn:E; [by apply H2|].
  destruct (H1 w) as [H Hr]; [by apply live_at_app|]. split; [|done]. by apply live_at_app in H as [].
Qed.

Lemma connected (b : bool) x : b = false ∧ left x → b = false.
Proof. by intros []. Qed.

Section commands.
Context (e : Env).

Lemma fine_refresh A ph b : keeps (inv id R0 A ph (granted_publish A) (granted_play A) (waiting_publish A)
  (waiting_play A)) any (upd (Relay.refresh_setup_timer (now e) b)).
Proof.
  apply fine_note; intros c; (destruct b; [|done]); simpl; unfold Relay.teardown_refreshes_setup_timer;
    by destruct (_ && _).
Qed.

Hypothesis grants_publish : ∀ A n, publish_decision (hooks e) id A n = Allow → granted_publish A n.
Hypothesis grants_play : ∀ A n, play_decision (hooks e) id A n = Allow → granted_play A n.
Hypothesis waits_publish : ∀ A n rid, publish_decision (hooks e) id A n = Pending rid → waiting_publish A n rid.
Hypothesis waits_play : ∀ A n rid, play_decision (hooks e) id A n = Pending rid → waiting_play A n rid.

Lemma fine_create_stream A buf : input buf → fine A (Commands.on_create_stream e buf).
Proof.
  intros Hin. apply phases.
  2:{ intros w Hw Hb. unfold Commands.on_create_stream, mbind, ST_bind, self. rewrite Hb. by apply fine_onstatus. }
  unfold Commands.on_create_stream. apply fine_with_self. intros c Hc. case_match; [apply fine_onstatus|].
  destruct (parsed_out _ _ _ _ buf None Command.sim_create_stream_partial Hin I) as [Hr _].
  destruct (Command.read_create_stream_partial (buf, None)) as [r [b txn]]. cbn [fst snd] in *.
  apply fine_seq; [by apply fine_attempt|]. intros parsed.
  destruct txn as [txn|]; [|apply fine_onstatus]. case_match; [apply fine_command_error|]. cbv zeta.
  set (n := if Auth.installed (current_stream c) then _ else _).
  destruct (Z.ltb_spec MAX_STREAMS_PER_CONN n) as [|Hn]; [apply fine_command_error|].
  assert (0 ≤ n) as Hn0. { pose proof (ok_streams _ (proj1 Hc)). unfold n. case_match; lia. }
  apply fine_seq; [apply fine_evict_active|intros _]. apply fine_seq; [by apply fine_note|intros _].
  apply fine_seq; [apply fine_drop_pending|intros _].
  apply fine_seq; [apply fine_resources; [intros c' []; by split|done]|intros _].
  apply fine_seq; [apply fine_resources; [|done]|intros _].
  { intros c' []. split; try done. apply as_u32_range. }
  apply fine_seq; [|intros _].
  { apply fine_upd. intros w Hw. pose proof (inv_connected _ _ _ _ _ _ _ _ connected w Hw) as Hb.
    destruct Hw as [Ho []]. split; [by apply (conn_ok_resources (conn w))|]. split; try done.
    - intros He. change (Commands.before_app (conn w) = true) in He. congruence.
    - intros s [= <-]. apply Ho.
    - by intros s [= <-].
    - by intros s [= <-]. }
  apply fine_seq; [apply fine_refresh|intros _].
  apply fine_seq; [by apply fine_transition; [apply connected|]|intros _]. apply fine_with_self. intros. apply fine_stream_response.
Qed.

(** * Streams *)

Lemma fine_teardown A : fine A (Commands.teardown e).
Proof.
  apply fine_with_self. intros c _. apply fine_seq; [apply fine_evict_active|intros _].
  apply fine_seq; [by apply fine_upd_stream; split|intros _]. apply fine_seq; [by apply fine_note|intros _].
  apply fine_seq; [|intros _; apply fine_seq; [apply fine_refresh|intros _]].
  { apply fine_resources; [|done]. intros c' []. split; try done. unfold saturating_sub. simpl. lia. }
  apply fine_seq; [by apply fine_note|intros _]. apply fine_drop_pending.
Qed.

Lemma fine_unpublish A : fine A (Commands.on_unpublish e).
Proof.
  apply fine_seq; [apply fine_teardown|intros _]. apply fine_with_self. intros c _.
  case_match; [apply fine_ignore, fine_lifecycle_eof|apply fine_ret].
Qed.

Lemma fine_close_stream A buf : input buf → fine A (Commands.on_close_stream e buf).
Proof.
  intros Hin. apply fine_seq; [eapply fine_attempt, returns_any, (parsed _ _ _ _ Command.sim_close_stream Hin)|].
  intros r. apply fine_with_self. intros c _. cbv zeta. case_decide; [|apply fine_ret].
  apply fine_seq; [apply fine_teardown|intros _; apply fine_ignore, fine_lifecycle_eof].
Qed.

Lemma fine_release_stream A buf : input buf → fine A (Commands.on_release_stream e buf).
Proof.
  intros Hin. unfold Commands.on_release_stream.
  destruct (parsed_out _ _ _ _ buf (zrepeat 0 256) (Command.sim_play 256 ltac:(lia)) Hin
    (Command.array_zeros 256 ltac:(lia))) as [Hr _].
  change (Command.read_release_stream (buf, zrepeat 0 256)) with (Command.read_play (buf, zrepeat 0 256)).
  destruct (Command.read_play (buf, zrepeat 0 256)) as [r [b nm]]. cbn [fst snd] in *.
  apply fine_seq; [by apply fine_attempt|]. intros o.
  apply fine_seq; [destruct o; [apply fine_attempt, decode_route_total|apply fine_ret]|]. intros o'.
  destruct o' as [n|]; [|apply fine_ret]. apply fine_with_self. intros c _. cbv zeta.
  assert (∀ k r, fine A (with_routes (λ t, (tt, PublishRouteRegistry.force_release k r t)))) as H.
  { intros k x w [Ho []]. split; [|done]. split; [done|]. split; try done;
      [by apply within_delete|by apply foreign_delete]. }
  apply fine_when, fine_seq; [apply H|intros _; apply fine_when, H].
Qed.

Lemma fine_pause A buf : input buf → fine A (Commands.on_pause e buf).
Proof.
  intros Hin. apply fine_seq; [eapply fine_attempt, returns_any, (parsed _ _ _ _ Command.sim_bool_command Hin)|].
  intros [flag|]; [|apply fine_ret]. apply fine_seq; [|intros _].
  - apply fine_upd. intros w [Ho Hr]. destruct (current_stream (conn w)) as [s|]; [|exact (conj Ho Hr)].
    cbv zeta. set (c1 := if _ && _ then (_ : Conn) else _). set (g := λ s : Stream, s <| paused := flag |>).
    assert (resources (upd_stream g c1) = resources (conn w) ∧ roles (upd_stream g c1) = roles (upd_stream g (conn w))) as [E1 E2].
    { unfold c1. by destruct (_ && _). }
    split; [exact (conn_ok_resources _ _ E1 Ho)|].
    refine (roles_ok_roles _ _ _ _ _ _ _ _ _ _ _ E2 (modest_roles _ _ _ _ _ _ _ _ g _ _ _ Hr)).
    split; auto.
  - apply fine_seq; [by apply fine_when, fine_note|intros _]. apply fine_with_self. intros c _.
    case_match; apply fine_onstatus.
Qed.

Lemma fine_seek A buf : input buf → fine A (Commands.on_seek buf).
Proof.
  intros Hin. apply fine_seq; [eapply fine_attempt, returns_any, (parsed _ _ _ _ Command.sim_seek Hin)|].
  intros _. apply fine_with_self. intros c _. apply fine_onstatus.
Qed.

Lemma fine_receive A set buf : modest (granted_publish A) (granted_play A) (set true) →
  modest (granted_publish A) (granted_play A) (set false) → input buf → fine A (Commands.on_receive set buf).
Proof.
  intros Ht Hf Hin.
  apply fine_seq; [eapply fine_attempt, returns_any, (parsed _ _ _ _ Command.sim_bool_command Hin)|].
  intros [[]|]; [by apply fine_upd_stream..|apply fine_ret].
Qed.

(** * Requests for a role *)

#[local] Abbreviation ends A :=
  (lands id R0 A (λ _, left) (granted_publish A) (granted_play A) (waiting_publish A) (waiting_play A)).

Lemma stream_live A w : at_app A w → is_Some (current_stream (conn w)) → live A w.
Proof.
  intros Hw [s Hs]. apply live_at_app. split; [done|]. destruct Hw as [_ Hr].
  destruct (Commands.before_app (conn w)) eqn:E; [|done]. destruct (r_early _ _ _ _ _ _ _ _ _ _ Hr E) as (_&?&_).
  congruence.
Qed.

(** What [read_stream_name] parsed, before it looks at it. *)
Lemma stream_name_parsed buf publish : input buf →
  returns any (fst (if publish : bool then
    let '(r, (b, o)) := Command.read_publish (buf, (zrepeat 0 256, zrepeat 0 64)) in (r, (b, o.1))
    else Command.read_play (buf, zrepeat 0 256))).
Proof.
  intros Hin. destruct publish.
  - pose proof (parsed_out _ _ _ _ buf (zrepeat 0 256, zrepeat 0 64)
      (Command.sim_publish 256 64 ltac:(lia) ltac:(lia)) Hin
      (conj (Command.array_zeros 256 ltac:(lia)) (Command.array_zeros 64 ltac:(lia)))) as [H _].
    destruct (Command.read_publish _) as [r [b o]]. exact H.
  - apply (parsed_out _ _ _ _ buf (zrepeat 0 256) (Command.sim_play 256 ltac:(lia)) Hin).
    by apply Command.array_zeros.
Qed.

(** A name was read only when there is a stream, so after the connect command. *)
Lemma read_stream_name_live A buf p c1 c2 w : input buf → at_app A w →
  ends A (λ o w, at_app A w ∧ (is_Some o → live A w)) (Commands.read_stream_name buf p c1 c2) w.
Proof.
  intros Hin Hw. unfold Commands.read_stream_name. pose proof (stream_name_parsed buf p Hin) as Hr.
  match goal with |- context [if p then ?x else ?y] => destruct (if p then x else y) as [r [b nm]] end.
  cbn [fst] in Hr.
  assert (∀ code desc w, at_app A w → ends A (λ o w, at_app A w ∧ (is_Some o → live A w))
    (Commands.refuse_stream_request code desc) w) as Hno.
  { intros code desc w' Hw'. apply lands_bind. apply (lands_keeps _ _ _ _ _ _ _ _ any); [apply fine_onstatus|done|].
    intros _ w1 _ H1. split; [exact H1|]. by intros [? [=]]. }
  apply lands_bind, (lands_keeps _ _ _ _ _ _ _ _ any); [by apply fine_attempt|done|]. intros [[]|] w1 _ H1; [|by apply Hno].
  apply lands_bind, (lands_keeps _ _ _ _ _ _ _ _ any); [apply fine_attempt, decode_route_total|done|].
  intros [n|] w2 _ H2; [|by apply Hno]. case_decide; [by apply Hno|]. apply lands_self.
  unfold Auth.installed. destruct (bool_decide_reflect (is_Some (current_stream (conn w2)))) as [Hs|]; [|by apply Hno].
  split; [exact H2|]. intros _. by apply stream_live.
Qed.

(** A live operation, from a state known to be live. *)
Lemma ends_live {B} A (Q : B → World → Prop) m w : keeps (live A) any m → live A w →
  (∀ b w', at_app A w' → Q b w') → ends A Q m w.
Proof.
  intros Hm Hw HQ. destruct (Hm w Hw) as [Hi Hr]. apply live_at_app in Hi as [Hi _]. unfold lands.
  destruct (m w) as [[b|err|] w']; auto.
Qed.

Lemma fine_publish A buf : input buf → fine A (Commands.on_publish e buf).
Proof.
  intros Hin. apply fine_lands. intros w Hw. apply lands_bind.
  eapply lands_weaken; [|by apply read_stream_name_live]. intros [n|] w' [Hw' Hl]; [|done].
  apply ends_live; [|by apply Hl|done]. apply fine_authorize_publish; eauto using connected.
Qed.

Lemma fine_play A buf : input buf → fine A (Commands.on_play e buf).
Proof.
  intros Hin. apply fine_lands. intros w Hw. apply lands_bind.
  eapply lands_weaken; [|by apply read_stream_name_live]. intros [n|] w' [Hw' Hl]; [|done].
  apply ends_live; [|by apply Hl|done]. apply fine_authorize_play; eauto using connected.
Qed.

(** * The connect command *)

Lemma transition_up st w : StateMachine.rank (state (conn w)) ≤ StateMachine.rank st →
  transition st w = (Ok tt, w <| conn := (conn w) <| state := st |> |>).
Proof.
  intros H. unfold transition, ignore, on_field, StateMachine.conn_transition.
  rewrite (proj2 (Z.ltb_ge _ _) H), andb_false_r. done.
Qed.

(** A connection that holds nothing may connect to any application. *)
Lemma connect_inv A w c : at_app A w → Commands.before_app (conn w) = true →
  resources c = resources (conn w) → state c = AppConnected → conn_id c = conn_id (conn w) →
  current_stream c = current_stream (conn w) → claimed_publish_route c = claimed_publish_route (conn w) →
  pending_publish_auth c = pending_publish_auth (conn w) → pending_play_auth c = pending_play_auth (conn w) → recv_buffer c = recv_buffer (conn w) →
  at_app (app c) (w <| conn := c |>).
Proof.
  intros [Ho []] Hb Hres Hst Hid Hcs Hcl Hpp Hpl Hrb. destruct (r_early0 Hb) as (_&Es&Ec&Ep&El).
  split; [by apply (conn_ok_resources (conn w))|].
  assert (∀ a r, routes w !! (a, r) ≠ Some id) as Hno.
  { intros a r E. destruct (r_backed0 a r E) as [_ Hin]. unfold holds in Hin. rewrite Ec in Hin.
    destruct (publish_routes (conn w)); by apply elem_of_nil in Hin. }
  split; cbn [conn set_field]; try done; try congruence.
  - change (Commands.before_app c = true → holds_nothing c). unfold Commands.before_app. by rewrite Hst.
  - intros a r E. by destruct (Hno a r).
Qed.

(** The state after the capabilities were negotiated. *)
Lemma negotiation_steps info w : ConnectAmf.connect_ok info → StateMachine.rank (state (conn w)) < 4 →
  ∃ o c, (when (Commands.needs_caps info) (transition CapsNegotiated);;
      (if Commands.needs_caps info then
         caps ← lift (ConnectAmf.negotiate_caps info);
         upd (λ c, c <| negotiated_caps := caps |>);; mret (Some caps)
       else mret None)) w = (Ok o, w <| conn := c |>)
    ∧ (∀ caps, o = Some caps → ConnectAmf.negotiated_ok caps)
    ∧ StateMachine.rank (state c) < 4 ∧ resources c = resources (conn w)
    ∧ roles (c <| state := AppConnected |>) = roles ((conn w) <| state := AppConnected |>).
Proof.
  intros Hi Hs. destruct (Commands.needs_caps info); cbn [when].
  - rewrite (bind_ok _ _ _ _ _ (transition_up CapsNegotiated w ltac:(simpl; lia))).
    destruct (ConnectAmf.negotiate_caps_spec info Hi) as (caps&->&Hc&_).
    exists (Some caps), ((conn w) <| state := CapsNegotiated |> <| negotiated_caps := caps |>).
    split; [done|]. split; [by intros ? [= <-]|done].
  - exists None, (conn w). by destruct w.
Qed.

(** [fine] operations keep the invariant of the session, whatever it is connected to. *)
Lemma session_fine {B} (m : ST World B) : (∀ A, fine A m) → keeps session any m.
Proof. intros H w [A Hw]. destruct (H A w Hw) as [Hi Hr]. split; [by exists A|done]. Qed.

(** The end of the command, once the application is set. *)
Lemma fine_connected A t caps : (∀ c, caps = Some c → ConnectAmf.negotiated_ok c) →
  fine A (Sender.send_connect_response t caps;; c ← self;
    when (negb (connect_cb_fired c))
      (upd (λ c, c <| connect_cb_fired := true |>);; when (on_connect_cb (hooks e)) (emit OnConnect))).
Proof.
  intros Hc. apply fine_seq; [by apply fine_connect_response|intros _]. apply fine_with_self. intros c _.
  apply fine_when, fine_seq; [by apply fine_note|intros _]. apply fine_when, fine_emit.
Qed.

(** [m] returns from [w] and leaves a session. *)
Definition goes {B} (m : ST World B) (w : World) : Prop := session (snd (m w)) ∧ returns any (fst (m w)).

Lemma goes_ok {B C} (m : ST World B) (k : B → ST World C) w b w' : m w = (Ok b, w') → goes (k b) w' →
  goes (m ≫= k) w.
Proof. intros E H. unfold goes. by rewrite (bind_ok _ _ _ _ _ E). Qed.

Lemma goes_fine {B} A (m : ST World B) w : at_app A w → fine A m → goes m w.
Proof. intros Hw H. destruct (H w Hw). split; [by exists A|done]. Qed.

Lemma goes_attempt {B C} (r : Res B) (k : option B → ST World C) w : returns any r →
  (∀ o, goes (k o) w) → goes (Commands.attempt r ≫= k) w.
Proof. destruct r; [intros _ H; exact (H _)..|done]. Qed.

Lemma session_connect buf : input buf → keeps session any (Commands.on_connect e buf).
Proof.
  intros Hin w [A Hw]. eapply goes_ok; [done|].
  destruct (Commands.before_app (conn w)) eqn:Hb; cbn [negb]; [|by apply (goes_fine A), fine_ret].
  destruct (parsed_out _ _ _ _ buf connect_info_default Command.sim_connect Hin Command.info_default_ok) as [Hr Hi].
  destruct (Command.read_connect_with_encoding (buf, connect_info_default)) as [r [b info]]. cbn [fst snd] in *.
  cbv zeta. apply goes_attempt; [by eapply returns_any|].
  intros [oe|]; [|apply (goes_fine A), fine_command_error; done].
  apply goes_attempt; [apply decode_route_total|].
  intros [nm|]; [|apply (goes_fine A), fine_command_error; done].
  eapply goes_ok; [done|]. cbv beta. set (w1 := w <| conn := (conn w) <| app := nm |> |>).
  case_decide as Hn.
  { apply (goes_fine A), fine_command_error. subst nm. apply inv_same; [done| |done].
    pose proof Hw as [_ Hro]. destruct (r_early _ _ _ _ _ _ _ _ _ _ Hro Hb) as (E&_). unfold roles. simpl. by rewrite E. }
  assert (StateMachine.rank (state (conn w)) < 4) as Hst by (apply Z.ltb_lt; exact Hb).
  destruct (negotiation_steps info w1 (Command.io_caps _ Hi) Hst) as (o&c&E&Ho&Hc&Hres&Hro).
  destruct (bind_inv _ _ _ _ _ E) as (u&w2&E1&E2).
  eapply goes_ok; [exact E1|]. eapply goes_ok; [exact E2|]. eapply goes_ok; [done|].
  eapply goes_ok; [apply transition_up; cbn; lia|].
  set (c' := c <| connect_object_encoding := oe |> <| state := AppConnected |>).
  unfold roles in Hro. injection Hro as R1 R2 R3 _ R4 R5 R6 R7.
  apply (goes_fine nm); [|by apply fine_connected].
  assert (app c' = nm) as <- by exact R2.
  change (at_app (app c') (w <| conn := c' |>)). apply (connect_inv A); try done.
Qed.

Lemma session_command payload : bytes_ok payload → keeps session any (Commands.handle_command e payload).
Proof.
  intros Ho. unfold Commands.handle_command.
  destruct (parsed _ _ _ (Buffer.from_slice payload) (sim_rewound _ _ _ Command.sim_string_64)) as [Hr Hb].
  { split; [apply Buffer.wf_from_slice|by rewrite Buffer.contents_from_slice]. }
  unfold Command.peek_name.
  destruct (rewound (Amf0.read_string (zrepeat 0 64)) (Buffer.from_slice payload)) as [r buf]. cbn [fst snd] in *.
  intros w Hw. apply goes_attempt; [by eapply returns_any|]. intros [[nb n]|]; [|by split]. cbv zeta.
  set (nm := Commands.command_name nb). case_decide; [by apply session_connect|].
  revert w Hw. apply session_fine. intros A.
  case_decide; [by apply fine_create_stream|]. case_decide; [by apply fine_publish|].
  case_decide; [by apply fine_play|]. do 2 (case_decide; [apply fine_unpublish|]).
  case_decide; [apply fine_ret|]. case_decide; [by apply fine_release_stream|].
  case_decide; [by apply fine_pause|]. case_decide; [by apply fine_seek|].
  do 2 (case_decide; [by apply fine_receive; [split; auto|split; auto|]|]).
  case_decide; [by apply fine_close_stream|apply fine_ret].
Qed.
End commands.
End step.
End Step.
