(* ===== verification/SessionRecv.v ===== *)
(** [Conn::recv] and what drives it keep the invariant of a session: control
    messages, dispatch, the message loop, the handshake, [flush] and pings. The
    loops end, and no byte of a peer makes any of it panic. *)
From S2P Require Import Prelude Bytes Types Buffer Source ChunkState ChunkWriter ChunkReader RoundTrip MediaOut ReadLoop Handshake Amf0 Control Caps Command SharedObject Session ConnRelay ConnSend ConnMedia ConnAuth ConnCommand ConnRecv SessionTotal SessionInv SessionStep.
#[local] Set Warnings "-clear-no-such-hyp".

Module Recv.
Import Conn Total Invariant Step.

#[local] Abbreviation any := (λ _, True).

(** * To the socket *)

Lemma note_bytes_ok now n c : conn_ok c → conn_ok (Sender.note_bytes_sent now n c)
  ∧ roles (Sender.note_bytes_sent now n c) = roles c.
Proof.
  intros H. unfold Sender.note_bytes_sent.
  set (c1 := if 0 <? n then (_ : Conn) else c). set (c2 := c1 <| send_progress_bytes := _ |>).
  set (c3 := if SEND_PROGRESS_BYTES <=? _ then (_ : Conn) else c2).
  assert (resources c3 = resources c ∧ roles c3 = roles c) as [E1 E2].
  { unfold c3. assert (resources c1 = resources c ∧ roles c1 = roles c) by (unfold c1; by case_match). by case_match. }
  pose proof (conn_ok_resources _ _ E1 H) as H3. clearbody c3. destruct (queued_ping c3) as [q|] eqn:Eq; [|done].
  split; [|by rewrite <- E2]. destruct H3. split; try done. unfold pings in *. by rewrite Eq in *.
Qed.

Lemma commit_ping_ok now c : conn_ok c → conn_ok (Sender.commit_flushed_ping now c)
  ∧ roles (Sender.commit_flushed_ping now c) = roles c.
Proof.
  intros H. unfold Sender.commit_flushed_ping. destruct (queued_ping c) as [q|] eqn:Eq; [|done].
  case_match; [done|]. split; [|done]. destruct H. split; try done. unfold pings in *. rewrite Eq in *.
  rewrite bool_decide_true in ok_pings0 by done. simpl in *. rewrite map_size_insert. case_match; simpl; lia.
Qed.

Lemma flush_loop_ok now answers c wire : conn_ok c → ∃ r c' wire' answers',
  Sender.flush_loop now answers c wire = (r, c', wire', answers')
  ∧ conn_ok c' ∧ roles c' = roles c ∧ returns any r.
Proof.
  revert c wire. induction answers as [|a answers IH]; intros c wire H; simpl.
  { case_match; by eexists _, _, _, _. }
  destruct (_ || _); [by eexists _, _, _, _|]. rewrite Buffer.peek_contents by apply H.
  destruct a as [n|e]; [|by eexists _, _, _, _]. cbv zeta. case_match; [by eexists _, _, _, _|].
  set (c1 := c <| send_buffer := _ |>).
  destruct (note_bytes_ok now (Z.of_nat n `min` zlen (Buffer.contents (send_buffer c))) c1) as [H1 E1].
  { apply conn_ok_send; [|done]. apply Buffer.drain_after; [apply H|]. pose proof (zlen_nonneg (Buffer.contents (send_buffer c))). lia. }
  destruct (IH _ (wire ++ ztake (Z.of_nat n `min` zlen (Buffer.contents (send_buffer c))) (Buffer.contents (send_buffer c))) H1)
    as (r&c'&w'&a'&->&?&E2&?).
  eexists _, _, _, _. split; [done|]. split; [done|]. split; [by rewrite E2, E1|done].
Qed.

Section step.
Context (id : Z) (R0 : PublishRouteRegistry.table).
Context (granted_publish granted_play : bytes → bytes → Prop).
Context (waiting_publish waiting_play : bytes → bytes → Z → Prop).

Section fine.
Context (A : bytes) (left : Buffer → Prop).
#[local] Abbreviation inside :=
  (at_app id R0 granted_publish granted_play waiting_publish waiting_play left A).
#[local] Abbreviation fine m := (keeps inside any m).

Lemma fine_flush now : fine (Sender.flush now).
Proof.
  intros w [Ho Hr]. unfold Sender.flush. case_match.
  { destruct (commit_ping_ok now (conn w) Ho) as [H1 H2]. split; [|done].
    split; [exact H1|exact (roles_ok_roles _ _ _ _ _ _ _ _ _ _ _ H2 Hr)]. }
  destruct (flush_loop_ok now (net w) (conn w) (wire w) Ho) as (r&c&wi&an&->&Hc&Ec&Hret).
  destruct r as [[]|err|]; [|split; [|done]; split; [exact Hc|exact (roles_ok_roles _ _ _ _ _ _ _ _ _ _ _ Ec Hr)]|done].
  cbv zeta. set (c1 := if _ =? _ then (_ : Conn) else _).
  assert (conn_ok c1 ∧ roles c1 = roles c) as [H1 E1].
  { unfold c1. case_match; [split; [|done]|].
    - apply (conn_ok_resources (c <| send_buffer := Buffer.reset (send_buffer c) |>)); [done|].
      apply conn_ok_send; [|done]. apply Buffer.reset_spec, Hc.
    - destruct (_ && _); [|done]. split; [by apply (conn_ok_resources c)|done]. }
  destruct (commit_ping_ok now c1 H1) as [H2 E2]. split; [|done]. split; [exact H2|].
  exact (roles_ok_roles _ _ _ _ _ _ _ _ _ _ _ (eq_trans E2 (eq_trans E1 Ec)) Hr).
Qed.

(** * Control messages *)

Lemma fine_if_ok {B} (Q : B → Prop) (r : Res B) k : returns Q r → (∀ b, Q b → fine (k b)) →
  fine (Receiver.if_ok r k).
Proof. destruct r; simpl; auto; intros; [by apply fine_ret|done]. Qed.

Lemma word_total payload : bytes_ok payload → 4 ≤ zlen payload → returns any (ntoh32 payload).
Proof. intros Ho Hl. by destruct (ntoh32_ok payload Ho Hl) as (n&->&_). Qed.

Lemma fine_registry r : Registry.wf r → fine (upd (λ c, c <| chunk_reg := r |>)).
Proof. intros Hr. apply fine_resources; [|done]. intros c []. by split. Qed.

Lemma fine_handle_control ty payload : bytes_ok payload → fine (Receiver.handle_control ty payload).
Proof.
  intros Ho. unfold Receiver.handle_control. repeat case_match; [..|apply fine_ret].
  - eapply (fine_read _ _ _ _ _ _ _ _ any).
    + unfold Control.read_set_chunk_size. destruct (Z.ltb_spec (zlen payload) 4); [done|].
      destruct (ntoh32_ok payload Ho) as (n&->&_); [done|]. rewrite Ok_bind. by case_match.
    + intros n _. apply fine_resources; [|done]. intros c []. split; try done. by apply Registry.wf_set_all_chunk_size.
  - destruct (Z.leb_spec 4 (zlen payload)); [|apply fine_ret]. eapply (fine_if_ok any).
    { unfold Control.read_abort_message. case_match; [done|]. by apply word_total. }
    intros csid _. apply fine_with_self. intros c [Hc _].
    destruct (Registry.abort_stream_spec csid (chunk_reg c) (ok_reg _ Hc)) as (r&->&Hr&_).
    eapply (fine_read _ _ _ _ _ _ _ _ (λ x, x = r)); [done|]. intros ? ->. by apply fine_registry.
  - destruct (Z.leb_spec 4 (zlen payload)); [|apply fine_ret]. eapply (fine_if_ok any).
    { unfold Control.read_window_ack_size. case_match; [done|].
      destruct (ntoh32_ok payload Ho) as (n&->&_); [done|]. rewrite Ok_bind. by case_match. }
    intros n _. by apply fine_note.
  - destruct (Z.leb_spec 4 (zlen payload)); [|apply fine_ret]. eapply (fine_if_ok any).
    { unfold Control.read_acknowledgement_size. case_match; [done|]. by apply word_total. }
    intros n _. apply fine_ret.
  - destruct (Z.leb_spec 5 (zlen payload)); [|apply fine_ret]. eapply (fine_if_ok any).
    { unfold Control.read_set_peer_bandwidth. case_match; [done|].
      destruct (ntoh32_ok payload Ho) as (n&->&_); [lia|].
      destruct (zidx_byte payload 4 Ho) as (b&->&_); [lia|]. done. }
    intros n _. apply fine_ret.
Qed.

Lemma user_control_total payload p2 : bytes_ok payload → 6 ≤ zlen payload →
  returns any (Control.read_user_control payload p2).
Proof.
  intros Ho Hl. unfold Control.read_user_control. case_match; [done|].
  destruct (zidx_byte payload 0 Ho) as (b0&->&_); [lia|]. destruct (zidx_byte payload 1 Ho) as (b1&->&_); [lia|].
  rewrite !Ok_bind.
  destruct (ConnectCaps.slice_bytes payload 2 (zlen payload)) as (t&->&Ht&Lt); [done|lia..|]. rewrite Ok_bind.
  destruct (ntoh32_ok t Ht) as (v&->&_); [lia|]. rewrite Ok_bind. destruct (_ && _) eqn:E; [|done].
  apply andb_true_iff in E as [_ E%Z.leb_le].
  destruct (ConnectCaps.slice_bytes payload 6 (zlen payload)) as (t'&->&Ht'&Lt'); [done|lia..|]. rewrite Ok_bind.
  destruct (ntoh32_ok t' Ht') as (v'&->&_); [lia|]. done.
Qed.

Lemma fine_user_control_message e payload : bytes_ok payload → fine (Receiver.handle_user_control e payload).
Proof.
  intros Ho. unfold Receiver.handle_user_control. destruct (Z.ltb_spec (zlen payload) 6); [apply fine_ret|].
  destruct (zidx_byte payload 0 Ho) as (b0&->&_); [lia|]. destruct (zidx_byte payload 1 Ho) as (b1&->&_); [lia|].
  do 2 (eapply (fine_read _ _ _ _ _ _ _ _ any); [done|intros ? _]). apply fine_seq.
  { case_match; [by apply keeps_lift, user_control_total|].
    eapply (fine_read _ _ _ _ _ _ _ _ any); [by apply user_control_total|]. intros [[? ?] ?] _. apply fine_ret. }
  intros [[ty p1] p2]. case_match.
  { apply fine_resources; [|done]. intros c []. split; try done. unfold pings in *. simpl.
    rewrite map_size_delete. case_match; [lia|done]. }
  case_match; [|case_match; [case_match; [by apply fine_note|apply fine_ret]|apply fine_ret]].
  apply fine_seq; [|intros _].
  { apply fine_resources; intros c; unfold Receiver.roll_ping_window; [|by repeat case_match].
    intros []. case_match; [case_match|]; split; done. }
  apply fine_lands. intros w Hw. apply lands_self. apply lands_bind, lands_guard; [done|].
  intros G%Z.leb_gt. apply lands_bind, lands_upd.
  apply (lands_keeps _ _ _ _ _ _ _ _ any); [apply fine_ping_response| |done].
  destruct Hw as [[] Hr]. split; [split; try done; simpl; lia|by apply (roles_ok_roles _ _ _ _ _ _ _ _ (conn w))].
Qed.

Lemma fine_shared_object e payload : bytes_ok payload → fine (Receiver.handle_amf3_shared_object e payload).
Proof.
  intros Ho. apply fine_with_self. intros c _. case_match; [apply fine_ret|]. eapply (fine_if_ok any).
  { unfold SharedObject.parse. eapply from_slice_total; [apply SharedObject.sim_parse_body|done]. }
  intros so _. apply fine_when, fine_emit.
Qed.
End fine.

(** * Messages *)

#[local] Abbreviation session left :=
  (Step.session id R0 granted_publish granted_play waiting_publish waiting_play left).

Lemma bytes_strip payload : bytes_ok payload → bytes_ok (Receiver.strip_marker payload).
Proof. intros H. destruct payload as [|[] l]; try done. by inversion H. Qed.

(** The invariant with less, or exactly, known of what is left to read. *)
Lemma session_weaken (left left' : Buffer → Prop) w : session left w →
  left' (recv_buffer (conn w)) → session left' w.
Proof. intros [A [Ho []]] Hl. exists A. split; [done|by split]. Qed.

Section env.
Context (e : Env).
Hypothesis grants_publish : ∀ A n, publish_decision (hooks e) id A n = Allow → granted_publish A n.
Hypothesis grants_play : ∀ A n, play_decision (hooks e) id A n = Allow → granted_play A n.
Hypothesis waits_publish : ∀ A n rid, publish_decision (hooks e) id A n = Pending rid → waiting_publish A n rid.
Hypothesis waits_play : ∀ A n rid, play_decision (hooks e) id A n = Pending rid → waiting_play A n rid.

Lemma session_dispatch left msg payload : bytes_ok payload → is_u32 (timestamp msg) →
  keeps (session left) any (Receiver.dispatch e msg payload).
Proof.
  intros Ho Hts. pose proof (bytes_strip payload Ho) as Hs. unfold Receiver.dispatch. cbv zeta.
  destruct (_ || _ || _ || _ || _); [apply session_fine; intros; by apply fine_handle_control|].
  case_match; [apply session_fine; intros; by apply fine_user_control_message|].
  case_match; [by apply session_command|]. case_match; [by apply session_command|].
  apply session_fine. intros A. repeat case_match; [by apply fine_media_frame..|by apply fine_publisher_data
    |by apply fine_publisher_data|by apply fine_shared_object|apply fine_ret].
Qed.

Lemma session_message left msg payload mb : bytes_ok payload → is_u32 (timestamp msg) →
  keeps (session left) any (Receiver.handle_message e msg payload mb).
Proof.
  intros Ho Hts. unfold Receiver.handle_message. case_match.
  { apply session_fine. intros. by apply fine_aggregate. }
  case_match; [by apply keeps_ret|]. eapply (keeps_bind _ any); [by apply session_dispatch|].
  intros. by apply keeps_ret.
Qed.

(** One chunk: nothing to read yet, a refusal, or a chunk consumed. *)
Lemma next_chunk_cases w : session any w → ∃ r w', Receiver.next_chunk w = (r, w') ∧ session any w'
  ∧ match r with
    | Ok (rc, msg, payload) =>
        if rc =? 1 then is_complete msg = true ∧ bytes_ok payload ∧ is_u32 (timestamp msg) ∧ Receiver.unread (conn w') < Receiver.unread (conn w)
        else True
    | Err _ => True
    | Panic => False
    end.
Proof.
  intros [A [Ho Hr]]. unfold Receiver.next_chunk.
  set (s := Reader.mkR (recv_buffer (conn w)) (chunk_reg (conn w)) ReadLoop.default_msg None 0).
  assert (Reader.input_ok s) as Hin by (split; apply Ho).
  pose proof (Reader.chunk_read_owned_bytes s Hin) as Hbytes.
  destruct (Reader.chunk_read_owned_cases s Hin) as [[_ ->]|[[_ ->]|(n&r'&out&i&b'&Es&Hn&Hwf&->&[Hb _]&Hc&Hm)]].
  - eexists _, _. split; [done|]. split; [|done]. exists A. by apply inv_same.
  - eexists _, _. split; [done|]. split; [|done]. exists A. by apply inv_same.
  - eexists _, _. split; [done|].
    assert (bytes_ok (Buffer.contents b')) as Hbo by (rewrite Hc; apply Forall_zdrop, Ho).
    assert (session any (w <| conn := (conn w) <| recv_buffer := b' |> <| chunk_reg := r' |> |>)) as Hs.
    { exists A. destruct Ho, Hr. split; by split. }
    destruct out as [[m d]|]; cbn [Reader.outputs Reader.rc_of Reader.r_buf Reader.r_reg Reader.r_msg] in *; split; try done.
    destruct (Hbytes _ _ _ _ Es). do 3 (split; [done|]). unfold Receiver.unread. cbn.
    rewrite !Buffer.available_contents by (done || apply Ho). rewrite Hc. change (Reader.r_buf s) with (recv_buffer (conn w)) in *.
    autorewrite with zlen. lia.
Qed.

Lemma session_left w : session any w → session (λ b, b = recv_buffer (conn w)) w.
Proof. intros H. by eapply session_weaken. Qed.

Lemma session_any left w : session left w → session any w.
Proof. intros H. by eapply session_weaken. Qed.

Lemma left_eq B w : session (λ b, b = B) w → recv_buffer (conn w) = B.
Proof. intros [A [_ []]]. exact r_phase0. Qed.

(** Every turn of the loop that goes on has consumed a byte. *)
Lemma message_loop_total fuel processed mb w : session any w → Receiver.unread (conn w) < Z.of_nat fuel →
  session any (snd (Receiver.message_loop e fuel processed mb w))
  ∧ returns any (fst (Receiver.message_loop e fuel processed mb w)).
Proof.
  revert processed mb w. induction fuel as [|fuel IH]; intros processed mb w Hw Hf.
  { unfold Receiver.unread in Hf. destruct Hw as [A [Ho _]].
    rewrite Buffer.available_contents in Hf by apply Ho. pose proof (zlen_nonneg (Buffer.contents (recv_buffer (conn w)))). lia. }
  cbn [Receiver.message_loop]. destruct (_ || _ || _).
  { split; [|done]. destruct Hw as [A Hw]. exists A. by apply inv_same. }
  destruct (next_chunk_cases w Hw) as (r&w1&->&Hw1&Hr). destruct r as [[[rc msg] payload]|err|]; [|by split|done].
  destruct (rc =? 1); [|destruct (Z.leb_spec (Receiver.unread (conn w)) (Receiver.unread (conn w1)));
    [by split|apply IH; [done|lia]]].
  destruct Hr as (->&Hb&Hts&Hlt).
  destruct (session_message _ msg payload mb Hb Hts w1 (session_left w1 Hw1)) as [Hw2 Hret].
  destruct (Receiver.handle_message e msg payload mb w1) as [[mb'|err|] w2]; cbn [fst snd] in *;
    [|split; [by eapply session_any|done]|done].
  assert (∀ b, keeps (session (λ x, x = recv_buffer (conn w1))) any (when b (ignore (Sender.flush (now e))))) as Hfl.
  { intros b. apply session_fine. intros A. apply fine_when, fine_ignore, fine_flush. }
  destruct (Hfl (negb (needs_init_frames (conn w2))) w2 Hw2) as [Hw3 Hret3].
  unfold mbind, ST_bind.
  destruct (when (negb (needs_init_frames (conn w2))) (ignore (Sender.flush (now e))) w2) as [[[]|err|] w3];
    cbn [fst snd] in *; [|split; [by eapply session_any|done]|done].
  apply IH; [by eapply session_any|]. unfold Receiver.unread in *. rewrite (left_eq _ _ Hw3). lia.
Qed.

Lemma unread_nonneg w : session any w → 0 ≤ Receiver.unread (conn w).
Proof.
  intros [A [Ho _]]. unfold Receiver.unread. rewrite Buffer.available_contents by apply Ho. apply zlen_nonneg.
Qed.

Lemma session_read_messages mb : keeps (session any) any (Receiver.read_messages e mb).
Proof.
  eapply (keeps_bind _ any); [apply session_fine; intros; apply fine_note; intros; by case_match|intros _ _].
  eapply (keeps_bind _ any); [apply session_fine; intros; by apply fine_note|intros _ _].
  intros w Hw. apply message_loop_total; [done|]. pose proof (unread_nonneg w Hw). lia.
Qed.

(** * The handshake *)

Lemma handshake_call_ok c hs b : Handshake.hs_ok hs → input b →
  let out := Handshake.run_call c (hs, b) in
  returns any out.1 ∧ Handshake.hs_ok out.2.1 ∧ input out.2.2.
Proof.
  intros Hh [Hb Ho]. cbv zeta. destruct (decide (zlen (Buffer.contents b) < Handshake.need c)) as [Hs|Hl].
  { by rewrite Handshake.run_short. }
  pose proof (Handshake.run_full c hs b Hh Hb Ho ltac:(lia)) as H. unfold Handshake.stepped in H.
  destruct (Handshake.run_call c (hs, b)) as [r [hs' b']]. destruct H as (?&[? _]&Ec&Hr). cbn [fst snd].
  split; [case_match; by destruct Hr as [-> _]|]. split; [done|]. split; [done|]. rewrite Ec. by apply Forall_zdrop.
Qed.

(** The same of C1, whose call also returns the mode. *)
Lemma handshake_c1_ok t r1 r2 hs b : Handshake.hs_ok hs → input b →
  let out := Handshake.server_read_c1_mode t r1 r2 (hs, b) in
  returns any out.1 ∧ Handshake.hs_ok out.2.1 ∧ input out.2.2.
Proof.
  intros Hh Hb. pose proof (handshake_call_ok (Handshake.ReadC1 t r1 r2) hs b Hh Hb) as H. cbv zeta in *.
  unfold Handshake.run_call, Handshake.server_read_c1, mbind, ST_bind in H.
  by destruct (Handshake.server_read_c1_mode t r1 r2 (hs, b)) as [[m|err|] [hs' b']].
Qed.

(** The invariant before the connect command. *)
Definition early (A : bytes) : World → Prop :=
  inv id R0 A (λ b _, b = true) (granted_publish A) (granted_play A) (waiting_publish A) (waiting_play A).

Lemma early_at A w : early A w ↔ at_app id R0 granted_publish granted_play waiting_publish waiting_play any A w
  ∧ Commands.before_app (conn w) = true.
Proof.
  split; [intros [H []]; split; [split; [done|by split]|done]|intros [[H []] ?]; split; [done|by split]].
Qed.

Lemma early_on_handshake {B} A (m : ST Handshake.hstate B) :
  (∀ hs b, Handshake.hs_ok hs → input b →
    let out := m (hs, b) in returns any out.1 ∧ Handshake.hs_ok out.2.1 ∧ input out.2.2) →
  keeps (early A) any (Receiver.on_handshake m).
Proof.
  intros H w [Ho Hr]. unfold Receiver.on_handshake, on_field.
  destruct (H (handshake (conn w)) (recv_buffer (conn w))) as (H1&H2&[H3 H4]); [apply Ho|split; apply Ho|].
  destruct (m (handshake (conn w), recv_buffer (conn w))) as [r [hs b]]. cbn [fst snd] in *.
  split; [|done]. destruct Ho, Hr. split; by split.
Qed.

Lemma early_state A st : StateMachine.rank st < 4 → keeps (early A) any (upd (λ c, c <| state := st |>)).
Proof.
  intros Hst. apply fine_roles; [done|]. intros c t [].
  assert (Commands.before_app (c <| state := st |>) = true) as Hb by (apply Z.ltb_lt; exact Hst).
  split; try done. intros _. exact (r_early0 r_phase0).
Qed.

Lemma early_coded {B} A (m : ST World B) k : keeps (early A) any m → (∀ b, keeps (early A) any (k b)) →
  keeps (early A) any (Receiver.coded m k).
Proof.
  intros Hm Hk w Hw. destruct (Hm w Hw) as [H1 H2]. unfold Receiver.coded.
  destruct (m w) as [[b|err|] w']; [by apply Hk|by destruct err|done].
Qed.

Lemma writes_raw d : writes (Buffer.write d).
Proof.
  intros b Hb. destruct (Buffer.write_spec d b Hb) as (b'&W&_&_&H).
  case_match; destruct H as [-> _]; by split.
Qed.

Lemma early_queued {B} A (m : ST World B) : keeps (early A) any m → keeps (early A) any (λ w,
  match m w with (Ok _, w) => (Ok true, w) | (Err _, w) => (Ok false, w) | (Panic, w) => (Panic, w) end : Res bool * World).
Proof. intros H w Hw. destruct (H w Hw). by destruct (m w) as [[b|err|] w']. Qed.

Lemma early_answer A : keeps (early A) any (Receiver.do_handshake_recurse e).
Proof.
  apply early_coded; [apply early_on_handshake, handshake_c1_ok|]. intros _. apply fine_with_self. intros c [Hc _].
  apply fine_seq.
  { case_match; [|apply fine_ret]. apply (early_queued A), fine_seq; [apply fine_on_send, writes_raw|intros _].
    destruct (ok_hs _ Hc) as [Hw _]. rewrite Buffer.peek_contents by done.
    eapply (fine_read _ _ _ _ _ _ _ _ any); [done|]. intros d _. apply fine_on_send, writes_raw. }
  intros []; [|apply fine_ret]. apply fine_seq; [|intros _; apply fine_ret].
  apply fine_resources; [|done]. intros c' []. split; try done.
  destruct ok_hs0 as [Hw Ho]. destruct (Buffer.reset_spec _ Hw) as (H1&_&H2&_). split; [exact H1|].
  change (owned (Buffer.reset (hs_out (handshake c'))) = true). congruence.
Qed.

Lemma early_handshake A : keeps (early A) any (Receiver.do_handshake e).
Proof.
  apply fine_with_self. intros c _. destruct (hs_state (handshake c)); try apply fine_ret.
  - apply fine_seq; [|intros _].
    { apply fine_resources; [|done]. intros c' []. split; try done. }
    apply early_coded; [apply early_on_handshake, (handshake_call_ok Handshake.ReadC0)|]. intros _.
    apply fine_seq; [by apply early_state|intros _; apply early_answer].
  - apply early_answer.
  - apply early_coded; [apply early_on_handshake, (handshake_call_ok Handshake.ReadC2)|]. intros _.
    apply fine_seq; [by apply early_state|intros _; apply fine_ret].
  - apply fine_seq; [by apply early_state|intros _; apply fine_ret].
Qed.

(** * [process] and [recv] *)

Lemma session_handshake w : session any w → Commands.before_app (conn w) = true →
  goes id R0 granted_publish granted_play waiting_publish waiting_play any (Receiver.do_handshake e) w.
Proof.
  intros [A Hw] Hb. destruct (early_handshake A w) as [H Hr]; [by apply early_at|].
  split; [|done]. exists A. by apply early_at in H as [].
Qed.

Lemma session_process mb : keeps (session any) any (Receiver.process e mb).
Proof.
  intros w Hw. eapply goes_ok; [done|].
  assert (state (conn w) = TcpAccepted ∨ state (conn w) = StHandshake → goes id R0 granted_publish granted_play
    waiting_publish waiting_play any (rc ← Receiver.do_handshake e; mret (rc, mb)) w) as Hh.
  { intros Hs. destruct (session_handshake w Hw) as [H1 H2].
    { unfold Commands.before_app. by destruct Hs as [-> | ->]. }
    unfold goes, mbind, ST_bind. by destruct (Receiver.do_handshake e w) as [[rc|err|] w']. }
  destruct (state (conn w)) eqn:Es;
    [by apply Hh; left|by apply Hh; right|by apply session_read_messages..|by split|by split].
Qed.

Lemma session_note f : (∀ c, resources (f c) = resources c) → (∀ c, roles (f c) = roles c) →
  keeps (session any) any (upd f).
Proof. intros H1 H2. apply session_fine. intros. by apply fine_note. Qed.

Lemma session_self : keeps (session any) any self.
Proof. by intros w Hw. Qed.

Lemma session_recv_loop n no_progress mb : keeps (session any) any (Receiver.recv_loop e n no_progress mb).
Proof.
  revert no_progress mb. induction n as [|n IH]; intros no_progress mb; cbn [Receiver.recv_loop]; [by apply keeps_ret|].
  eapply (keeps_bind _ any); [apply session_self|intros c _].
  case_match; [by apply session_note|]. cbv zeta. case_match; [by apply keeps_ret|].
  eapply (keeps_bind _ any); [apply session_process|]. intros [rc mb'] _. case_match; [apply keeps_fail|].
  eapply (keeps_bind _ any); [apply session_self|intros c' _].
  repeat case_match; try (by apply keeps_ret); apply IH.
Qed.

(** The receive buffer may be replaced by one with the same kind of bytes. *)
Lemma session_store b w : session any w → input b → session any (w <| conn := (conn w) <| recv_buffer := b |> |>).
Proof. intros [A [[] []]] []. exists A. split; by split. Qed.

Lemma session_append data : bytes_ok data → keeps (session any) any
  (on_field recv_buffer (λ b c, c <| recv_buffer := b |>) (Buffer.write data)).
Proof.
  intros Hd w Hw. pose proof Hw as [A [Ho _]]. unfold on_field.
  destruct (Buffer.write_spec data (recv_buffer (conn w)) (ok_recv _ Ho)) as (b&Hb&_&_&H).
  destruct (_ || _); destruct H as [-> Hc]; (split; [|done]); apply session_store; try done;
    (split; [done|]); rewrite Hc; [apply Forall_app_2|]; (done || apply Ho).
Qed.

Lemma session_recv data : bytes_ok data → keeps (session any) any (Receiver.recv e data).
Proof.
  intros Hd. eapply (keeps_bind _ any); [apply session_self|intros c _].
  eapply (keeps_bind _ any); [by apply (keeps_guard _ any)|intros _ _].
  eapply (keeps_bind _ any); [by apply keeps_map_err, session_append|intros _ _].
  eapply (keeps_bind _ any); [by apply session_note|intros _ _].
  eapply (keeps_bind _ any); [apply session_fine; intros; by apply fine_when, fine_note|intros _ _].
  do 2 (eapply (keeps_bind _ any); [by apply session_note|intros _ _]).
  eapply (keeps_bind _ any); [apply session_recv_loop|intros _ _].
  intros w Hw. eapply goes_ok; [done|]. pose proof Hw as [A [Ho _]].
  destruct (Buffer.release_excess_spec RECV_BUFFER_KEEP_CAPACITY (recv_buffer (conn w)) (ok_recv _ Ho)) as (b&->&Hb&Hc&_);
    [done|]. eapply goes_ok; [done|]. eapply goes_ok; [done|].
  assert (input b) as Hin by (split; [done|rewrite Hc; apply Ho]).
  pose proof (session_store b w Hw Hin) as Hw'.
  match goal with |- goes _ _ _ _ _ _ _ _ ?x => change (session any x) in Hw'; revert Hw'; generalize x end.
  clear w Hw Ho Hb Hc Hin. intros w Hw. eapply goes_ok; [done|].
  destruct (_ && _); [|by split]. apply (session_fine _ _ _ _ _ _ _); [|done]. intros A'.
  unfold Sender.send_acknowledgement. apply fine_seq; [apply fine_control|].
  intros _. by apply fine_note.
Qed.
End env.
End step.

(** On a control message other than Abort the handler does to the registry what
    the round trip through it assumes. *)
Lemma control_resizes m payload w : msg_type_id m ≠ Receiver.RTMP_MSG_ABORT_MESSAGE →
  fst (Receiver.handle_control (msg_type_id m) payload w) = Ok tt →
  chunk_reg (conn (snd (Receiver.handle_control (msg_type_id m) payload w)))
  = RoundTrip.resized (m, payload) (chunk_reg (conn w)).
Proof.
  intros Ha. unfold Receiver.handle_control, RoundTrip.resized, RoundTrip.announced. cbn [fst snd].
  change Receiver.RTMP_MSG_SET_CHUNK_SIZE with RoundTrip.SET_CHUNK_SIZE.
  destruct (msg_type_id m =? RoundTrip.SET_CHUNK_SIZE).
  { unfold mbind, ST_bind, lift. by destruct (Control.read_set_chunk_size payload). }
  destruct (Z.eqb_spec (msg_type_id m) Receiver.RTMP_MSG_ABORT_MESSAGE); [done|].
  unfold Receiver.if_ok, lift, when. repeat case_match; done.
Qed.
End Recv.
