(* ===== verification/SessionCalls.v ===== *)
(** The calls a server makes on a connection besides [Conn::recv] keep the
    invariant as well: pings, media to a player, injected media, completions
    and timeouts of requests, and the loss of a route. A session is any
    sequence of calls, with the registry changed by others in between. *)
From S2P Require Import Prelude Bytes Types Buffer Source ChunkState ChunkWriter ChunkReader MediaOut ReadLoop F64 Handshake Amf0 Control Caps Command Modex SharedObject Session ConnRelay ConnSend ConnMedia ConnAuth ConnCommand ConnRecv SessionTotal SessionInv SessionStep SessionRecv.
#[local] Set Warnings "-clear-no-such-hyp".

Module Calls.
Import Conn Total Invariant Step Recv.

#[local] Abbreviation any := (λ _, True).

Section step.
Context (id : Z) (R0 : PublishRouteRegistry.table).
Context (granted_publish granted_play : bytes → bytes → Prop).
Context (waiting_publish waiting_play : bytes → bytes → Z → Prop).
#[local] Abbreviation session := (Step.session id R0 granted_publish granted_play waiting_publish waiting_play any).

Section fine.
Context (A : bytes).
#[local] Abbreviation inside :=
  (at_app id R0 granted_publish granted_play waiting_publish waiting_play any A).
#[local] Abbreviation inlive :=
  (live id R0 granted_publish granted_play waiting_publish waiting_play any A).
#[local] Abbreviation fine m := (keeps inside any m).
#[local] Abbreviation ends := (lands id R0 A (λ _ _, True) (granted_publish A) (granted_play A) (waiting_publish A) (waiting_play A)).

(** * Pings *)

Lemma fresh_pings_size now p : (base.size (Sender.fresh_pings now p) ≤ base.size p)%nat.
Proof. apply map_subseteq_size, map_filter_subseteq. Qed.

Lemma fine_fresh_pings now : fine (upd (λ c, c <| pending_pings := Sender.fresh_pings now (pending_pings c) |>)).
Proof.
  apply fine_resources; [|done]. intros c []. split; try done. unfold pings in *.
  pose proof (fresh_pings_size now (pending_pings c)). simpl. lia.
Qed.

(** A message only changes the send buffer. *)
Lemma message_pings csid ty sid d w : inside w → ends (λ _ w', inside w'
    ∧ pending_pings (conn w') = pending_pings (conn w)) (Sender.send_message csid ty sid d) w.
Proof.
  intros Hw. pose proof (fine_message id R0 A (λ _ _, True) (granted_publish A) (granted_play A) (waiting_publish A)
    (waiting_play A) csid ty sid d w Hw) as [H1 H2].
  unfold lands. revert H1 H2. unfold Sender.send_message, self, mbind, ST_bind, on_send, on_field.
  destruct (Writer.chunk_write _ _ _ _ _) as [[[]|err|] b]; cbn [fst snd]; done.
Qed.

Lemma fine_maybe_send_ping now : fine (Sender.maybe_send_ping now).
Proof.
  apply fine_with_self. intros c _. case_match; [apply fine_ret|].
  apply fine_seq; [apply fine_guard|intros _]. case_match; [apply fine_ret|]. cbv zeta.
  apply fine_seq; [apply fine_when, fine_fresh_pings|intros _].
  apply fine_with_self. intros c1 _. destruct (queued_ping c1); [apply fine_guard|].
  destruct (_ && _); [apply fine_ret|]. apply fine_seq; [apply fine_when, fine_fresh_pings|intros _].
  apply fine_seq; [apply fine_guard|intros _]. apply fine_lands. intros w Hw. apply lands_self.
  apply lands_bind, lands_guard; [done|]. intros G%Z.leb_gt.
  apply lands_bind, lands_upd. set (w1 := w <| conn := _ |>).
  assert (inside w1) as Hw1 by (by apply inv_same).
  unfold Sender.send_user_control_ping_request, Sender.send_user_control.
  pose proof (encoded_total 6 (Control.write_user_control_ping_request (next_ping_token (conn w)))) as He.
  destruct (Sender.encoded 6 _) as [d|err|]; [|done|].
  2:{ exfalso. apply He; [done|]. unfold Control.write_user_control_ping_request. encodes. }
  apply lands_bind. eapply lands_weaken; [|apply (message_pings 2 Sender.RTMP_MSG_USER_CONTROL 0 d w1 Hw1)].
  intros _ w2 [Hw2 Hp]. apply lands_upd. destruct Hw2 as [[] Hr].
  split; [|by apply (roles_ok_roles _ _ _ _ _ _ _ _ (conn w2))]. split; try done. unfold pings in *. simpl.
  rewrite Hp. change (pending_pings (conn w1)) with (pending_pings (conn w)).
  destruct (bool_decide (is_Some (queued_ping (conn w)))); simpl in *; lia.
Qed.

(** * Media to a player *)

(** A frame the wire format can carry. *)
Definition carriable (ts : Z) (payload : bytes) : Prop := is_u32 ts ∧ is_u24 (zlen payload) ∧ bytes_ok payload.

Lemma fine_send_frame ft ts payload : carriable ts payload → fine (Sender.send_frame ft ts payload).
Proof.
  intros (Hts&Hl&Ho). apply fine_lands. intros w Hw. pose proof Hw as [Hok Hr]. apply lands_self.
  assert (MediaOut.sendable (MediaOut.mkInfo ft (Sender.media_stream_id (conn w)) ts) payload) as Hse.
  { split; try done. unfold Sender.media_stream_id, stream_or. simpl.
    destruct (current_stream (conn w)) eqn:E; simpl; [by apply Hr|by vm_compute]. }
  apply lands_bind. unfold lands, Sender.on_media, on_field.
  destruct (MediaOut.write_media_spec (media_out_headers (conn w)) (compact_media_headers (conn w)) _ payload
    (Sender.media_chunk_size (conn w)) (send_buffer (conn w)) (ok_tracker _ Hok) Hse) as (h&t'&b'&_&_&Ht&Hb&_&Hd);
    [|apply Hok|].
  { unfold Sender.media_chunk_size. pose proof (ok_sizes _ Hok). case_match; lia. }
  cbv zeta in Hd. case_match.
  - rewrite (proj1 Hd). cbn [fst snd]. apply lands_upd. split; [destruct Hok; by split|by apply (roles_ok_roles _ _ _ _ _ _ _ _ (conn w))].
  - rewrite (proj1 Hd). cbn [fst snd]. split; [destruct Hok; by split|by apply (roles_ok_roles _ _ _ _ _ _ _ _ (conn w))].
Qed.

(** * Lost routes *)

Definition displaced (w : World) : bool :=
  publish_routes (conn w)
  && match claimed_publish_route (conn w) with
     | Some claimed => negb (bool_decide (routes w !! (app (conn w), claimed) = Some (conn_id (conn w))))
     | None => false
     end.

Lemma fine_detach w : inside w → displaced w = true →
  inside (w <| conn := Relay.detach_lost_publish_route (conn w) |>).
Proof.
  intros Hw Hd. apply andb_true_iff in Hd as [Hp Hd]. unfold Relay.detach_lost_publish_route.
  destruct (claimed_publish_route (conn w)) as [cl|] eqn:Ec; [|done].
  pose proof (claimed_connected _ _ _ _ _ _ _ _ w cl Hw Ec) as Hb. pose proof Hw as [Hok Hr].
  apply negb_true_iff, bool_decide_eq_false in Hd. cbv zeta.
  set (c1 := (conn w) <| claimed_publish_route := None |> <| relay_enabled := false |>).
  set (c2 := c1 <| pending_relay := _ |>).
  assert (conn_ok c2) as H2 by (apply conn_ok_relay_filter; by apply (conn_ok_resources (conn w))).
  destruct (evict_keys_ok (app c2) [] [cl; Relay.relay_route_key (conn w)] c2 H2) as [H3 E3].
  revert H3 E3. generalize (Relay.evict_keys (app c2) [] [cl; Relay.relay_route_key (conn w)] c2). intros c3 H3 E3.
  unfold roles in E3. injection E3 as R1 R2 R3 R4 R5 R6 R7 R8 R9.
  apply (inv_claimed _ _ _ _ _ _ _ _ w); [exact Hw|done| |exact H3| |apply Hr].
  - unfold fixed_roles. cbn. by rewrite R1, R2, R3, R4, R5, R7, R8, R9.
  - unfold holds. cbn. rewrite R5, R6. cbn.
    rewrite Hp. intros a r E. destruct (r_backed _ _ _ _ _ _ _ _ _ _ Hr a r E) as [-> Hin].
    unfold holds in Hin. rewrite Ec, Hp in Hin. apply list_elem_of_singleton in Hin as ->.
    destruct Hr. congruence.
Qed.

(** * Injected media *)

#[local] Abbreviation ends_live := (lands id R0 A (λ b x, b = false ∧ True) (granted_publish A) (granted_play A) (waiting_publish A) (waiting_play A)).

(** The claim an injection took is given back when its frame is refused. *)
Lemma undo_claim n prev : keeps inlive any
  (Relay.release_claimed_publish_route;;
   upd (λ c, c <| pending_cache_evictions := ztake n (pending_cache_evictions c) |>);;
   match prev with
   | Some prev =>
       c ← self;
       when (publish_routes c) (Relay.claim_route prev;; mret tt);;
       upd (λ c, c <| claimed_publish_route := Some prev |>);;
       upd (λ c, c <| relay_key := prev |>)
   | None => mret tt
   end).
Proof.
  apply fine_lands. intros w Hw.
  apply lands_bind. eapply (lands_weaken _ _ _ _ _ _ _ _ (λ _ w', inlive w' ∧ claimed_publish_route (conn w') = None)).
  2:{ pose proof (fine_release_claimed _ _ _ _ _ _ _ _ w Hw) as [H1 H2]. unfold lands. revert H1 H2.
      unfold Relay.release_claimed_publish_route, self, mbind, ST_bind.
      destruct (claimed_publish_route (conn w)) as [r|] eqn:Ec; [|done].
      unfold Relay.release_route, upd, modify, self, mbind, ST_bind. cbn.
      destruct (publish_routes (conn w)); done. }
  intros _ w1 [Hw1 Hc1]. apply lands_bind, lands_upd.
  set (w2 := w1 <| conn := _ |>). assert (inlive w2) as Hw2.
  { pose proof Hw1 as [Hok Hr]. split; [|by apply (roles_ok_roles _ _ _ _ _ _ _ _ (conn w1))].
    apply conn_ok_evictions; [|done]. etrans; [|apply (ok_evictions _ Hok)].
    rewrite zlen_ztake. lia. }
  destruct prev as [prev|]; [|exact Hw2]. apply lands_self.
  assert (inlive (w2 <| routes := if publish_routes (conn w2) then (PublishRouteRegistry.claim id A prev (routes w2)).2
    else routes w2 |> <| conn := (conn w2) <| claimed_publish_route := Some prev |> |>)) as Hw3.
  { pose proof Hw2 as [Hok [Hid Happ Hph _ Hwi Hfo _ _ _ _ _]]. unfold holds in Hwi.
    change (claimed_publish_route (conn w2)) with (claimed_publish_route (conn w1)) in Hwi. rewrite Hc1 in Hwi.
    destruct (publish_routes (conn w2)) eqn:Ep.
    - apply (inv_held _ _ _ _ _ _ _ _ (connected _) w2 _ prev); try done;
        [by apply (conn_ok_resources (conn w2))|..].
      + exact (within_claim id A [] prev _ Hwi).
      + exact (foreign_claim id R0 A prev _ Hfo).
    - apply (inv_claimed _ _ _ _ _ _ _ _ w2); try done; [apply Hph|by apply (conn_ok_resources (conn w2))|].
      change (within id A (if publish_routes (conn w2) then [prev] else []) (routes w2)). by rewrite Ep. }
  apply lands_bind. destruct Hw2 as [_ [Hid Happ _ _ _ _ _ _ _ _ _]].
  destruct (publish_routes (conn w2)); cbn [when].
  - apply lands_bind, lands_claim; [done..|]. cbv zeta. apply lands_bind, lands_upd.
    apply (lands_keeps _ _ _ _ _ _ _ _ any); [by apply fine_note|exact Hw3|done].
  - apply lands_bind, lands_upd. apply (lands_keeps _ _ _ _ _ _ _ _ any); [by apply fine_note|exact Hw3|done].
Qed.

(** Before the connect command there is no application to inject into. *)
Lemma inject_early ft ts payload w : inside w → Commands.before_app (conn w) = true →
  ∃ err, Relay.inject_relay_frame ft ts payload w = (Err err, w).
Proof.
  intros [_ Hr] Hb. destruct (r_early _ _ _ _ _ _ _ _ _ _ Hr Hb) as (Ha&_).
  unfold Relay.inject_relay_frame, self, mbind, ST_bind. rewrite Ha. change (bool_decide ([] = [])) with true.
  unfold guard_st. destruct (_ <? _); [by eexists|]. destruct (_ && _); by eexists.
Qed.

Lemma live_inject ft ts payload : is_u32 ts → bytes_ok payload → keeps inlive any (Relay.inject_relay_frame ft ts payload).
Proof.
  intros Hts Ho. apply fine_with_self. intros c _. do 2 (apply fine_seq; [apply fine_guard|intros _]). cbv zeta.
  do 2 (apply fine_seq; [apply fine_guard|intros _]).
  apply fine_lands. intros w Hw. apply lands_bind.
  eapply lands_weaken; [|by apply (lands_claim_publish_route _ _ _ _ _ _ _ _ (connected _))].
  intros o w1 [Hw1 _].
  assert (∀ m : ST World unit, keeps inlive any m → ends_live (λ _, inlive) m w1) as Hk.
  { intros m Hm. by apply (lands_keeps _ _ _ _ _ _ _ _ any). }
  destruct (normalize_total payload CAPS_EX_MASK_MODEX ft Ho) as (nz&Ez&Hnz).
  apply Hk. destruct o.
  - rewrite Ez. eapply (fine_read _ _ _ _ _ _ _ _ (λ x, x = nz)); [done|]. intros ? ->.
    apply fine_seq; [|intros _; apply fine_seq; [by apply fine_note|intros _; by apply fine_note]].
    intros w2 Hw2. destruct (fine_queue _ _ _ _ _ _ _ _ ft ts payload nz Hts Ho Hnz w2 Hw2) as [H1 H2].
    destruct (Relay.queue_relay_frame ft ts payload nz w2) as [[[]|err|] w3]; [done| |done].
    refine (fine_seq _ _ _ _ _ _ _ _ _ _ _ _ w3 H1); [|intros _; apply keeps_fail].
    apply fine_when, undo_claim.
  - apply fine_seq; [apply fine_note; intros; by case_match|intros _; apply keeps_fail].
  - apply fine_seq; [apply fine_note; intros; by case_match|intros _; apply keeps_fail].
Qed.

Lemma fine_inject ft ts payload : is_u32 ts → bytes_ok payload → fine (Relay.inject_relay_frame ft ts payload).
Proof.
  intros Hts Ho. apply phases; [by apply live_inject|]. intros w Hw Hb.
  by destruct (inject_early ft ts payload w Hw Hb) as (err&->).
Qed.

(** * Completions *)

Lemma fine_publish_completed now rid allow : (allow = true → ∀ n, waiting_publish A n rid → granted_publish A n) →
  fine (Auth.complete_publish_authorization now rid allow).
Proof.
  intros Hg. apply phases; [by apply fine_complete_publish_authorization; [apply connected|]|].
  intros w Hw Hb. pose proof Hw as [_ Hr]. destruct (r_early _ _ _ _ _ _ _ _ _ _ Hr Hb) as (_&_&_&Hp&_).
  unfold Auth.complete_publish_authorization, self, mbind, ST_bind. by rewrite Hp.
Qed.

Lemma fine_play_completed now rid allow : (allow = true → ∀ n, waiting_play A n rid → granted_play A n) →
  fine (Auth.complete_play_authorization now rid allow).
Proof.
  intros Hg. apply phases; [by apply fine_complete_play_authorization; [apply connected|]|].
  intros w Hw Hb. pose proof Hw as [_ Hr]. destruct (r_early _ _ _ _ _ _ _ _ _ _ Hr Hb) as (_&_&_&_&Hp).
  unfold Auth.complete_play_authorization, self, mbind, ST_bind. by rewrite Hp.
Qed.

Lemma fine_reap_pending now timeout : fine (Auth.reap_timed_out_pending_auth now timeout).
Proof.
  apply phases; [by apply fine_reap, connected|].
  intros w Hw Hb. pose proof Hw as [_ Hr]. destruct (r_early _ _ _ _ _ _ _ _ _ _ Hr Hb) as (_&_&_&Hp&Hq).
  unfold Auth.reap_timed_out_pending_auth, self, mbind, ST_bind. rewrite Hp. cbn. by rewrite Hq.
Qed.
End fine.
End step.

(** * Sessions *)

(** What happens to a connection: a call of its server, the answers its socket
    will give, or what the others do to the registry meanwhile. *)
Inductive Call : Type :=
  | Recv (e : Env) (data : bytes)
  | CompletePublish (now request_id : Z) (allow : bool)
  | CompletePlay (now request_id : Z) (allow : bool)
  | ReapPendingAuth (now timeout : Z)
  | Flush (now : Z)
  | MaybeSendPing (now : Z)
  | SendFrame (frame_type : FrameType) (timestamp : Z) (payload : bytes)
  | InjectRelayFrame (frame_type : FrameType) (timestamp : Z) (payload : bytes)
  | DetachLostRoute
  | SocketAnswers (answers : list (nat + ErrorCode))
  | Elsewhere (t : PublishRouteRegistry.table).

(** The registry as others leave it: they take entries of this connection away
    (releaseStream) but give it none. *)
Definition elsewhere (t : PublishRouteRegistry.table) (w : World) : PublishRouteRegistry.table :=
  filter (λ kv : (bytes * bytes) * Z, kv.2 = conn_id (conn w) → routes w !! kv.1 = Some kv.2) t.

Definition call (c : Call) : ST World unit :=
  match c with
  | Recv e data => Receiver.recv e data
  | CompletePublish now request_id allow => Auth.complete_publish_authorization now request_id allow
  | CompletePlay now request_id allow => Auth.complete_play_authorization now request_id allow
  | ReapPendingAuth now timeout => Auth.reap_timed_out_pending_auth now timeout;; mret tt
  | Flush now => Sender.flush now
  | MaybeSendPing now => Sender.maybe_send_ping now
  | SendFrame frame_type timestamp payload => Sender.send_frame frame_type timestamp payload
  | InjectRelayFrame frame_type timestamp payload => Relay.inject_relay_frame frame_type timestamp payload
  | DetachLostRoute => λ w,
      (Ok tt, if displaced w then w <| conn := Relay.detach_lost_publish_route (conn w) |> else w)
  | SocketAnswers answers => modify (λ w, w <| net := answers |>)
  | Elsewhere t => modify (λ w, w <| routes := elsewhere t w |>)
  end.

(** The arguments are bytes, and media fits the wire format. *)
Definition call_ok (c : Call) : Prop :=
  match c with
  | Recv _ data => bytes_ok data
  | SendFrame _ timestamp payload => carriable timestamp payload
  | InjectRelayFrame _ timestamp payload => is_u32 timestamp ∧ bytes_ok payload
  | _ => True
  end.

Definition run (calls : list Call) (w : World) : World := foldl (λ w c, snd (call c w)) w calls.

Definition start (st : Settings) (now fd id : Z) (t : PublishRouteRegistry.table) : World :=
  mkWorld (accepted st now fd id) t [] [] [].

Definition settings_ok (st : Settings) : Prop :=
  0 ≤ rl_max_reassembly_bytes (st_limits st) ≤ USIZE_MAX
  ∧ 0 ≤ rl_max_pending_relay_bytes (st_limits st) ≤ ISIZE_MAX.

(** ** What a call may grant *)

(** The call is one of [Conn::recv], under callbacks that decide so about this
    connection, application and name. *)
Definition decided (decision : Hooks → Z → bytes → bytes → AuthorizationResult) (id : Z) (app name : bytes)
    (r : AuthorizationResult) (c : Call) : Prop :=
  match c with Recv e _ => decision (hooks e) id app name = r | _ => False end.

Definition completes_publish (rid : Z) (c : Call) : Prop :=
  match c with CompletePublish _ r true => r = rid | _ => False end.
Definition completes_play (rid : Z) (c : Call) : Prop :=
  match c with CompletePlay _ r true => r = rid | _ => False end.

(** Roles and requests of a connection. *)
Definition publishing (w : World) (A n : bytes) : Prop :=
  app (conn w) = A ∧ ∃ s, current_stream (conn w) = Some s ∧ is_publishing s = true ∧ name s = n.
Definition playing (w : World) (A n : bytes) : Prop :=
  app (conn w) = A ∧ ∃ s, current_stream (conn w) = Some s ∧ is_playing s = true ∧ name s = n.
Definition publish_pending (w : World) (A n : bytes) (rid : Z) : Prop :=
  app (conn w) = A ∧ ∃ p, pending_publish_auth (conn w) = Some p ∧ pa_stream_name p = n ∧ pa_request_id p = rid.
Definition play_pending (w : World) (A n : bytes) (rid : Z) : Prop :=
  app (conn w) = A ∧ ∃ p, pending_play_auth (conn w) = Some p ∧ pa_stream_name p = n ∧ pa_request_id p = rid.

(** The call decides the request at once, or allows one that was pending. *)
Definition granted (decision : Hooks → Z → bytes → bytes → AuthorizationResult) (completes : Z → Call → Prop)
    (pending : World → bytes → bytes → Z → Prop) (id : Z) (w : World) (c : Call) (A n : bytes) : Prop :=
  decided decision id A n Allow c ∨ ∃ rid, completes rid c ∧ pending w A n rid.

(** Predicates that a call respects. *)
Record respects (id : Z) (gp gl : bytes → bytes → Prop) (wp wl : bytes → bytes → Z → Prop) (c : Call) : Prop := {
  rs_publish : ∀ A n, decided publish_decision id A n Allow c → gp A n;
  rs_play : ∀ A n, decided play_decision id A n Allow c → gl A n;
  rs_publish_waits : ∀ A n rid, decided publish_decision id A n (Pending rid) c → wp A n rid;
  rs_play_waits : ∀ A n rid, decided play_decision id A n (Pending rid) c → wl A n rid;
  rs_publish_done : ∀ A n rid, completes_publish rid c → wp A n rid → gp A n;
  rs_play_done : ∀ A n rid, completes_play rid c → wl A n rid → gl A n;
}.

(** What a connection holds is within these predicates, and its registry in
    order. *)
Definition held (id : Z) (gp gl : bytes → bytes → Prop) (wp wl : bytes → bytes → Z → Prop) (w : World) : Prop :=
  ∃ R0, Step.session id R0 gp gl wp wl any w.

Lemma held_fine {B} id gp gl wp wl (m : ST World B) w : (∀ R0 A, keeps (at_app id R0 gp gl wp wl any A) any m) →
  held id gp gl wp wl w → held id gp gl wp wl (snd (m w)) ∧ returns any (fst (m w)).
Proof.
  intros Hm [R0 Hw]. destruct (session_fine _ _ _ _ _ _ _ m (Hm R0) w Hw) as [H1 H2].
  split; [by exists R0|done].
Qed.

Lemma call_keeps id gp gl wp wl c w : call_ok c → respects id gp gl wp wl c → held id gp gl wp wl w →
  held id gp gl wp wl (snd (call c w)) ∧ returns any (fst (call c w)).
Proof.
  intros Hc [P1 P2 P3 P4 P5 P6] Hw. destruct c; cbn [call].
  - destruct Hw as [R Hw].
    destruct (session_recv id R gp gl wp wl e P1 P2 P3 P4 data Hc w Hw) as [H1 H2]. split; [by exists R|done].
  - apply held_fine; [|done]. intros R A. apply fine_publish_completed. intros -> n Ha. by eapply P5.
  - apply held_fine; [|done]. intros R A. apply fine_play_completed. intros -> n Ha. by eapply P6.
  - apply held_fine; [|done]. intros R A. eapply (keeps_bind _ any);
      [apply fine_reap_pending|intros; by apply keeps_ret].
  - apply held_fine; [|done]. intros R A. apply fine_flush.
  - apply held_fine; [|done]. intros R A. apply fine_maybe_send_ping.
  - apply held_fine; [|done]. intros R A. by apply fine_send_frame.
  - destruct Hc. apply held_fine; [|done]. intros R A. by apply fine_inject.
  - split; [|done]. destruct (displaced w) eqn:Ed; [|done]. destruct Hw as [R [A Hw]]. exists R, A. by apply fine_detach.
  - split; [|done]. destruct Hw as [R [A Hw]]. exists R, A. exact Hw.
  - split; [|done]. destruct Hw as [R [A [Ho []]]]. exists (elsewhere t w), A. split; [done|].
    split; try done; [|by intros k i E _].
    intros a r E. apply map_lookup_filter_Some in E as [_ Hk]. apply r_backed0. cbn in Hk.
    apply Hk. congruence.
Qed.

(** The same, whatever is granted. *)
#[local] Abbreviation sound id := (held id (λ _ _, True) (λ _ _, True) (λ _ _ _, True) (λ _ _ _, True)).

Lemma call_sound id c w : call_ok c → sound id w → sound id (snd (call c w)) ∧ returns any (fst (call c w)).
Proof. intros Hc. by apply call_keeps. Qed.

(** A sound connection holds exactly what it holds. *)
Lemma held_roles id w (gp gl : bytes → bytes → Prop) (wp wl : bytes → bytes → Z → Prop) : sound id w →
  (∀ A n, publishing w A n → gp A n) → (∀ A n, playing w A n → gl A n) →
  (∀ A n rid, publish_pending w A n rid → wp A n rid) → (∀ A n rid, play_pending w A n rid → wl A n rid) →
  held id gp gl wp wl w.
Proof.
  intros (R&A&Ho&[]) H1 H2 H3 H4. exists R, A. split; [done|]. split; try done.
  - intros s E Hs. apply H1. split; [done|]. by exists s.
  - intros s E Hs. apply H2. split; [done|]. by exists s.
  - intros p E. apply H3. split; [done|]. by exists p.
  - intros p E. apply H4. split; [done|]. by exists p.
Qed.

Lemma roles_held id w gp gl wp wl : held id gp gl wp wl w →
  (∀ A n, publishing w A n → gp A n) ∧ (∀ A n, playing w A n → gl A n)
  ∧ (∀ A n rid, publish_pending w A n rid → wp A n rid) ∧ (∀ A n rid, play_pending w A n rid → wl A n rid).
Proof.
  intros (R&A&_&[]). split_and!.
  - intros A' n (<-&s&E&Hs&<-). rewrite r_app0. by apply r_publish0.
  - intros A' n (<-&s&E&Hs&<-). rewrite r_app0. by apply r_play0.
  - intros A' n rid (<-&p&E&<-&<-). rewrite r_app0. by apply r_waiting_publish0.
  - intros A' n rid (<-&p&E&<-&<-). rewrite r_app0. by apply r_waiting_play0.
Qed.

Lemma run_snoc calls c w : run (calls ++ [c]) w = snd (call c (run calls w)).
Proof. unfold run. by rewrite foldl_app. Qed.

Lemma start_sound st now fd id t : settings_ok st → (∀ k, t !! k ≠ Some id) → sound id (start st now fd id t).
Proof.
  intros [Hm Hr] Ht. exists t, []. split.
  - split; try done.
    + change (bytes_ok (Buffer.contents Buffer.new)). rewrite Buffer.contents_new. constructor.
    + split; [|done]. change (0 ≤ outbound_chunk_size (st_chunk_size st)). unfold outbound_chunk_size.
      case_match; unfold DEFAULT_CHUNK_SIZE, MAX_INBOUND_CHUNK_SIZE; lia.
    + apply MediaOut.new_tracker_ok.
  - split; try done; [|by intros k i E _]. intros a r E. by destruct (Ht (a, r)).
Qed.

Lemma run_sound st now fd id t calls : settings_ok st → (∀ k, t !! k ≠ Some id) → Forall call_ok calls →
  sound id (run calls (start st now fd id t)).
Proof.
  intros Hs Ht. induction calls as [|c calls IH] using rev_ind; intros H; [by apply start_sound|].
  apply Forall_app in H as [Hcs Hc]. rewrite run_snoc. apply call_sound; [by inversion Hc|by apply IH].
Qed.

(** * Properties of sessions *)

(** C32. Whatever a peer sends and whatever order the calls of the server come
    in ([recv], completions and timeouts of requests, flushes, pings, frames for
    a player, injected frames, the loss of a route, with any answers of the
    socket and changes of the registry by others in between), a connection stays
    well formed (buffers and chunk registry consistent,
    at most 1,024 frames and the configured bytes queued for relay, 64 pending
    evictions and abandoned routes, 8 remembered request ids, 16 streams, 4
    unanswered pings, 8 ping answers in a window), and the next call returns:
    no input makes the session panic, and no loop runs out of turns. *)
Theorem session_never_panics st now fd id t calls c : settings_ok st → (∀ k, t !! k ≠ Some id) →
  Forall call_ok (calls ++ [c]) →
  let w := run calls (start st now fd id t) in conn_ok (conn w) ∧ fst (call c w) ≠ Panic.
Proof.
  intros Hs Ht [Hcs Hc]%Forall_app. pose proof (run_sound st now fd id t calls Hs Ht Hcs) as Hw. split.
  - by destruct Hw as (R&A&?&_).
  - destruct (call_sound id c _ ltac:(by inversion Hc) Hw) as [_ Hr]. intros E. by rewrite E in Hr.
Qed.

(** C33. No role without permission. A call that leaves a connection publishing
    (playing) under a name, in an application, either found it so; or is a call
    of [recv] under whose callbacks exactly this connection, application and
    name are allowed; or completes, with leave, a request for exactly this name
    that was pending under the given id. A request is pending after a call only
    if it was before, or if the call is one of [recv] whose callback left it
    pending under this id. The callbacks allow what the one in charge (the C
    callback, else the one that may answer later, else the plain one) allows
    when asked about it; if none is installed they allow everything, unless
    another callback shows that the application polices its peers. *)
Theorem roles_are_earned st now fd id t calls c : settings_ok st → (∀ k, t !! k ≠ Some id) →
  Forall call_ok (calls ++ [c]) →
  let w := run calls (start st now fd id t) in
  let w' := snd (call c w) in
  (∀ A n, publishing w' A n →
     publishing w A n ∨ granted publish_decision completes_publish publish_pending id w c A n)
  ∧ (∀ A n, playing w' A n →
     playing w A n ∨ granted play_decision completes_play play_pending id w c A n)
  ∧ (∀ A n rid, publish_pending w' A n rid →
     publish_pending w A n rid ∨ decided publish_decision id A n (Pending rid) c)
  ∧ (∀ A n rid, play_pending w' A n rid →
     play_pending w A n rid ∨ decided play_decision id A n (Pending rid) c).
Proof.
  intros Hs Ht [Hcs Hc]%Forall_app w w'. pose proof (run_sound st now fd id t calls Hs Ht Hcs) as Hw. fold w in Hw.
  apply (roles_held id). apply call_keeps; [by inversion Hc| |apply held_roles; auto].
  split; unfold granted; auto.
  - intros A n rid Hd [Hp|Hp]; [right; eauto|by destruct c].
  - intros A n rid Hd [Hp|Hp]; [right; eauto|by destruct c].
Qed.

(** ** A sample session: a publisher whose request is left pending *)

Definition sample_settings : Settings := mkSettings limits_default 4096 false true.
Definition sample_hooks (on_publish_auth : Z → bytes → bytes → AuthorizationResult) : Hooks :=
  mkHooks false None false None None (Some on_publish_auth) None None None None false None.
Definition sample_env (h : Hooks) : Env :=
  mkEnv h 1000 5 (Handshake.mkSeed 1 2 3) (Handshake.mkSeed 4 5 6).

Definition message_of (csid ty sid : Z) (d : bytes) : bytes :=
  match Writer.chunk_write (Sender.outgoing csid ty (zlen d) sid) d (zlen d) 128 Buffer.new with
  | (Ok _, b) => Buffer.contents b
  | _ => []
  end.
Definition command_of (sid : Z) (m : ST Buffer unit) : bytes :=
  match Sender.encoded 256 m with Ok d => message_of 3 20 sid d | _ => [] end.

Definition sample_calls : list Call :=
  let e := sample_env (sample_hooks (λ _ _ _, Pending 9)) in
  [ Recv e (3 :: zrepeat 0 1536 ++ zrepeat 0 1536);
    Recv e (command_of 0 (Command.build_connect (text "live") (text "rtmp://x/live") [] [] []
              (F64.of_int 0) (F64.of_int 0) None));
    Recv e (command_of 0 (Command.build_create_stream (F64.of_int 2)));
    Recv e (command_of 1 (Command.build_publish (text "cam") (text "live")));
    CompletePublish 1200 9 true ].

Lemma sample_calls_ok : Forall call_ok sample_calls.
Proof.
  unfold sample_calls. cbv zeta.
  do 4 (apply Forall_cons; split; [apply bytes_okb_ok; vm_compute; reflexivity|]).
  apply Forall_cons; split; [exact I|apply Forall_nil_2].
Qed.

Lemma sample_settings_ok : settings_ok sample_settings.
Proof. by vm_compute. Qed.

Lemma empty_free (id : Z) (k : bytes * bytes) : (∅ : PublishRouteRegistry.table) !! k ≠ Some id.
Proof. by rewrite lookup_empty. Qed.

#[local] Abbreviation sample_start := (start sample_settings 0 5 7 ∅).

Lemma session_never_panics_witness :
  let w := run sample_calls sample_start in
  conn_ok (conn w) ∧ fst (call (Recv (sample_env no_hooks) (message_of 6 9 1 [23; 1; 0; 0; 0; 1; 2])) w) ≠ Panic.
Proof.
  apply (session_never_panics sample_settings 0 5 7 ∅ sample_calls
    (Recv (sample_env no_hooks) (message_of 6 9 1 [23; 1; 0; 0; 0; 1; 2]))).
  - apply sample_settings_ok.
  - apply empty_free.
  - apply Forall_app. split; [apply sample_calls_ok|]. apply Forall_singleton, bytes_okb_ok. by vm_compute.
Defined.

(** The completion makes a publisher of the client, of the name it had asked. *)
Lemma roles_are_earned_witness :
  let calls := ztake 4 sample_calls in
  let w := run calls sample_start in
  let c := CompletePublish 1200 9 true in
  publishing (snd (call c w)) (text "live") (text "cam")
  ∧ granted publish_decision completes_publish publish_pending 7 w c (text "live") (text "cam").
Proof.
  intros calls w c.
  destruct (roles_are_earned sample_settings 0 5 7 ∅ calls c sample_settings_ok (empty_free 7) sample_calls_ok) as [H _].
  assert (publishing (snd (call c w)) (text "live") (text "cam")) as Hp.
  { split; [vm_compute; reflexivity|]. exists (mkStreamState 1 true false (text "cam") false true true).
    split; [vm_compute; reflexivity|done]. }
  split; [exact Hp|]. destruct (H _ _ Hp) as [(_&s&E&Hs&_)|Hg]; [|exact Hg]. exfalso.
  assert (is_publishing <$> current_stream (conn w) = Some false) as En by (vm_compute; reflexivity).
  unfold w in En. rewrite E in En. injection En as En. congruence.
Defined.
End Calls.
