(* ===== verification/SessionLoop.v ===== *)
(** The message loop of [Conn::read_messages] ends, and reads all there is. *)
From S2P Require Import Prelude Bytes Types Buffer Source ChunkState ChunkWriter ChunkReader ReadLoop Session ConnRelay ConnSend ConnRecv SessionTotal SessionInv SessionStep SessionRecv SessionCalls.
#[local] Set Warnings "-clear-no-such-hyp".

Module Loop.
Import Conn Invariant.

#[local] Abbreviation any := (λ _, True).

Section step.
Context (id : Z) (R0 : PublishRouteRegistry.table).
Context (granted_publish granted_play : bytes → bytes → Prop).
Context (waiting_publish waiting_play : bytes → bytes → Z → Prop).
#[local] Abbreviation session := (Step.session id R0 granted_publish granted_play waiting_publish waiting_play any).
Context (e : Env)
  (Hallow : ∀ A n, publish_decision (hooks e) id A n = Allow → granted_publish A n)
  (Hallow' : ∀ A n, play_decision (hooks e) id A n = Allow → granted_play A n)
  (Hpend : ∀ A n r, publish_decision (hooks e) id A n = Pending r → waiting_publish A n r)
  (Hpend' : ∀ A n r, play_decision (hooks e) id A n = Pending r → waiting_play A n r).

(** Nothing but part of a chunk is unread. *)
Definition drained (c : Conn) : Prop :=
  Reader.spec_owned (chunk_reg c) (Buffer.contents (recv_buffer c)) = Ok None.

(** A turn of the loop: it stops, with all chunks read or without budget or with
    an error, or it goes on in a session that has less to read. *)
Definition turn (processed mb : Z) (w : World) : (Res (Z * Z) * World) + (Z * Z * World) :=
  if (ReadLoop.MAX_MESSAGES_PER_READ <=? processed) || (mb =? 0) || (recv_track_budget (conn w) =? 0)
  then inl (Ok (1, mb), w <| conn := (conn w) <| budget_exhausted := true |> |>)
  else
    let before := Receiver.unread (conn w) in
    match Receiver.next_chunk w with
    | (Ok (rc, msg, payload), w) =>
        if rc =? 1 then
          if is_complete msg then
            match Receiver.handle_message e msg payload mb w with
            | (Ok mb, w) =>
                match when (negb (needs_init_frames (conn w))) (ignore (Sender.flush (now e))) w with
                | (Ok _, w) => inr (processed + 1, mb, w)
                | (Err err, w) => inl (Err err, w)
                | (Panic, w) => inl (Panic, w)
                end
            | (Err err, w) => inl (Ok (ReadLoop.handler_code err, mb), w)
            | (Panic, w) => inl (Panic, w)
            end
          else inr (processed, mb, w)
        else if before <=? Receiver.unread (conn w) then inl (Ok (1, mb), w)
        else inr (processed, mb, w)
    | (Err err, w) => inl (Ok (ReadLoop.reader_code err, mb), w)
    | (Panic, w) => inl (Panic, w)
    end.

Lemma message_loop_turn fuel processed mb w : Receiver.message_loop e (S fuel) processed mb w
  = match turn processed mb w with
    | inl out => out
    | inr (processed, mb, w) => Receiver.message_loop e fuel processed mb w
    end.
Proof.
  cbn [Receiver.message_loop]. unfold turn. destruct (_ || _ || _); [done|].
  destruct (Receiver.next_chunk w) as [[[[rc msg] payload]|err|] w1]; [|done..].
  destruct (rc =? 1); [|by destruct (_ <=? _)]. destruct (is_complete msg); [|done].
  destruct (Receiver.handle_message e msg payload mb w1) as [[mb'|err|] w2]; [|done..].
  unfold mbind, ST_bind. by destruct (when _ _ w2) as [[[]|err|] w3].
Qed.

Lemma next_chunk_idle w rc msg payload w1 : session w → Receiver.next_chunk w = (Ok (rc, msg, payload), w1) →
  rc ≠ 1 → Receiver.unread (conn w) ≤ Receiver.unread (conn w1) → drained (conn w1).
Proof.
  intros [A [Ho Hr]] E Hrc Hu. unfold Receiver.next_chunk in E.
  set (s := Reader.mkR (recv_buffer (conn w)) (chunk_reg (conn w)) ReadLoop.default_msg None 0) in *.
  assert (Reader.input_ok s) as Hin by (split; apply Ho).
  destruct (Reader.chunk_read_owned_cases s Hin) as [[Es E1]|[[_ E1]|(n&r'&out&i&b'&Es&Hn&Hwf&E1&[Hb _]&Hc&Hm)]];
    rewrite E1 in E; [| |]; cbv iota in E; [|done|].
  - injection E as <- <- <- <-. exact Es.
  - injection E as <- <- <- <-. exfalso. destruct out as [[m d]|]; [done|]. unfold Receiver.unread in Hu. cbn in Hu.
    rewrite !Buffer.available_contents in Hu by (done || apply Ho). rewrite Hc in Hu.
    change (Reader.r_buf s) with (recv_buffer (conn w)) in *. autorewrite with zlen in Hu. lia.
Qed.

Lemma turn_cases processed mb w : session w → match turn processed mb w with
  | inl (r, w') => session w' ∧ r ≠ Panic
      ∧ ∀ mb', r = Ok (1, mb') → budget_exhausted (conn w') = true ∨ drained (conn w')
  | inr (_, _, w') => session w' ∧ Receiver.unread (conn w') < Receiver.unread (conn w)
  end.
Proof.
  intros Hw. unfold turn. destruct (_ || _ || _).
  { split; [|by split; [|left]]. destruct Hw as [A Hw]. exists A. by apply inv_same. }
  destruct (Recv.next_chunk_cases _ _ _ _ _ _ w Hw) as (r&w1&E1&Hw1&Hr). rewrite E1.
  destruct r as [[[rc msg] payload]|err|]; [|split; [done|]; split; [done|]; intros mb' [= Hc _]; by destruct err|done].
  destruct (Z.eqb_spec rc 1) as [->|Hrc].
  2: { destruct (Z.leb_spec (Receiver.unread (conn w)) (Receiver.unread (conn w1))) as [Hu|]; [|done].
       split; [done|]. split; [done|]. intros mb' _. right. exact (next_chunk_idle w rc msg payload w1 Hw E1 Hrc Hu). }
  destruct Hr as (->&Hb&Hts&Hlt).
  destruct (Recv.session_message id R0 granted_publish granted_play waiting_publish waiting_play e Hallow Hallow' Hpend Hpend'
    _ msg payload mb Hb Hts w1 (Recv.session_left _ _ _ _ _ _ w1 Hw1)) as [Hw2 Hret].
  destruct (Receiver.handle_message e msg payload mb w1) as [[mb'|err|] w2]; cbn [fst snd] in *;
    [|split; [by eapply Recv.session_any|]; split; [done|]; intros mb'' [= Hc _]; by destruct err|done].
  destruct (Step.session_fine id R0 granted_publish granted_play waiting_publish waiting_play _
    (when (negb (needs_init_frames (conn w2))) (ignore (Sender.flush (now e)))) ltac:(intros A;
      apply fine_when, fine_ignore, Recv.fine_flush) w2 Hw2) as [Hw3 Hret3].
  destruct (when (negb (needs_init_frames (conn w2))) (ignore (Sender.flush (now e))) w2) as [[[]|err|] w3];
    cbn [fst snd] in *; [|split; [by eapply Recv.session_any|]; by split|done].
  split; [by eapply Recv.session_any|]. unfold Receiver.unread in *. rewrite (Recv.left_eq _ _ _ _ _ _ _ _ Hw3). lia.
Qed.

(** More turns than bytes are enough, and how many more does not matter. *)
Lemma message_loop_ends n m processed mb w : session w → Receiver.unread (conn w) < Z.of_nat n →
  Receiver.unread (conn w) < Z.of_nat m → let out := Receiver.message_loop e n processed mb w in
  out = Receiver.message_loop e m processed mb w ∧ fst out ≠ Panic
  ∧ ∀ mb', fst out = Ok (1, mb') → budget_exhausted (conn (snd out)) = true ∨ drained (conn (snd out)).
Proof.
  revert m processed mb w. induction n as [|n IH]; intros m processed mb w Hw Hn Hm.
  { pose proof (Recv.unread_nonneg _ _ _ _ _ _ w Hw). lia. }
  destruct m as [|m]; [pose proof (Recv.unread_nonneg _ _ _ _ _ _ w Hw); lia|].
  cbv zeta. rewrite !message_loop_turn. pose proof (turn_cases processed mb w Hw) as Ht.
  destruct (turn processed mb w) as [[r w']|[[p' mb'] w']]; [by destruct Ht as (_&?&?)|].
  apply IH; [apply Ht|lia|lia].
Qed.
End step.

(** C36. The message loop terminates, at any point of a session: with more turns
    than there are unread bytes it never runs out of them, whichever number it
    is given, so the loop of the code, which counts none, returns what it
    returns. When it ends without an error, either its budget is used up, which
    it reports, or what is left unread is no more than part of a chunk. *)
Theorem message_loop_terminates st now fd id t calls e processed mb n : Calls.settings_ok st →
  (∀ k, t !! k ≠ Some id) → Forall Calls.call_ok calls →
  let w := Calls.run calls (Calls.start st now fd id t) in
  Receiver.unread (conn w) < Z.of_nat n →
  let out := Receiver.message_loop e n processed mb w in
  fst out ≠ Panic
  ∧ out = Receiver.message_loop e (S (Z.to_nat (Receiver.unread (conn w)))) processed mb w
  ∧ ∀ mb', fst out = Ok (1, mb') → budget_exhausted (conn (snd out)) = true ∨ drained (conn (snd out)).
Proof.
  intros Hs Ht Hc w Hn. destruct (Calls.run_sound st now fd id t calls Hs Ht Hc) as [R0 Hw]. fold w in Hw.
  pose proof (Recv.unread_nonneg _ _ _ _ _ _ w Hw).
  destruct (message_loop_ends id R0 (λ _ _, True) (λ _ _, True) (λ _ _ _, True) (λ _ _ _, True) e
    ltac:(done) ltac:(done) ltac:(done) ltac:(done) n (S (Z.to_nat (Receiver.unread (conn w)))) processed mb w Hw Hn)
    as (E&Hp&Hd); [lia|]. by split_and!.
Qed.

(** A publisher's message, half of it arrived. *)
Lemma message_loop_terminates_witness :
  let e := Calls.sample_env no_hooks in
  let w := Calls.run (Calls.sample_calls ++ [Calls.Recv e (ztake 9 (Calls.message_of 6 9 1 [23; 1; 0; 0; 0; 1; 2]))])
    (Calls.start Calls.sample_settings 0 5 7 ∅) in
  Receiver.unread (conn w) = 9 ∧ fst (Receiver.message_loop e 100 0 256 w) ≠ Panic.
Proof.
  intros e. set (cs := Calls.sample_calls ++ _). intros w.
  assert (Forall Calls.call_ok cs) as Hc.
  { apply Forall_app. split; [apply Calls.sample_calls_ok|]. apply Forall_singleton, bytes_okb_ok. by vm_compute. }
  assert (Receiver.unread (conn w) = 9) as E by (vm_compute; reflexivity). split; [exact E|].
  refine (proj1 (message_loop_terminates Calls.sample_settings 0 5 7 ∅ cs e 0 256 100
    Calls.sample_settings_ok (Calls.empty_free 7) Hc _)).
  fold w. rewrite E. done.
Defined.
End Loop.
