(* ===== verification/SessionMedia.v ===== *)
(** What becomes of the media of a publisher: the exact outcome of
    [Conn::handle_media_frame], error by error, and an aggregate message as the
    sequence of the messages inside it. *)
From S2P Require Import Prelude Bytes Types Buffer Source ChunkState Amf0 Ertmp Modex Multitrack InitCache ColorInfo Session ConnRelay ConnSend ConnMedia ConnAuth ConnCommand SessionTotal SessionInv SessionCalls.
#[local] Set Warnings "-clear-no-such-hyp".

Module Media.
Import Conn Total Invariant.

#[local] Abbreviation any := (λ _, True).

(** * The verdict on a frame *)

(** * Scanning for colour information has no error of its own *)

Definition noerr {S A} (m : ST S A) : Prop := ∀ s, match fst (m s) with Err _ => False | _ => True end.

Lemma noerr_ret {S A} (a : A) : noerr (S := S) (mret a).
Proof. done. Qed.
Lemma noerr_lift {S A} (r : Res A) : match r with Err _ => False | _ => True end → noerr (S := S) (lift r).
Proof. intros H s. exact H. Qed.
Lemma noerr_bind {S A B} (m : ST S A) (k : A → ST S B) : noerr m → (∀ a, noerr (k a)) → noerr (m ≫= k).
Proof.
  intros Hm Hk s. specialize (Hm s). unfold mbind, ST_bind. destruct (m s) as [[a|e|] s']; [|done|done]. apply Hk.
Qed.
Lemma noerr_zidx {S A} (l : list A) n : noerr (S := S) (lift (zidx l n)).
Proof. apply noerr_lift. unfold zidx. by destruct (zget l n). Qed.
Lemma noerr_prefix {S} l n : noerr (S := S) (lift (Amf0.str_prefix l n)).
Proof. apply noerr_lift. unfold Amf0.str_prefix, slice. by repeat case_match. Qed.
Lemma noerr_or_none {S A B} (m : ST S A) (k : A → ST S (option B)) : (∀ a, noerr (k a)) → noerr (ok_or_none m k).
Proof. intros Hk s. unfold ok_or_none. destruct (m s) as [[a|e|] s']; [apply Hk|done|done]. Qed.
Lemma noerr_peek : noerr (peek_st (S := bytes)).
Proof. intros b. done. Qed.
Create HintDb noerr.
#[local] Hint Resolve noerr_ret noerr_zidx noerr_prefix noerr_peek : noerr.
#[local] Ltac noerr_steps := repeat first [apply noerr_bind; intros | apply noerr_or_none; intros | case_decide | case_match];
  auto with noerr.

Lemma noerr_object_end : noerr (Amf0.is_object_end (S := bytes)).
Proof. unfold Amf0.is_object_end. noerr_steps. Qed.
#[local] Hint Resolve noerr_object_end : noerr.

Lemma noerr_scan_keys fuel nested hdr found nr keys : match nested with Some m => noerr m | None => True end →
  noerr (ColorInfo.scan_keys (S := bytes) fuel nested hdr found nr keys).
Proof.
  intros Hn. revert hdr found nr keys. induction fuel as [|fuel IH]; intros hdr found nr keys; [done|].
  cbn [ColorInfo.scan_keys]. apply noerr_bind; [apply noerr_object_end|]. intros []; [noerr_steps|].
  destruct (_ <? _); [done|]. apply noerr_or_none. intros [key n]. apply noerr_bind; [apply noerr_prefix|intros ks].
  apply noerr_or_none. intros ty. apply noerr_bind; [noerr_steps|]. intros []; [done|].
  destruct (_ && _); [noerr_steps|]. destruct nested as [m|]; [|by apply noerr_or_none].
  destruct (_ && _); [|by apply noerr_or_none]. apply noerr_bind; auto.
Qed.

Lemma noerr_scan_object d : noerr (ColorInfo.scan_object_for_color_info (S := bytes) d).
Proof. induction d as [|d IH]; cbn [ColorInfo.scan_object_for_color_info]; by apply noerr_scan_keys. Qed.
#[local] Hint Resolve noerr_scan_object : noerr.

Lemma noerr_color_info : noerr (ColorInfo.color_info (S := bytes)).
Proof.
  unfold ColorInfo.color_info. apply noerr_or_none. intros ty. case_decide.
  - apply noerr_or_none. intros d. do 2 (apply noerr_bind; [apply noerr_zidx|intros ?]). destruct (negb _); [done|].
    apply noerr_or_none. intros name. case_decide; [done|]. apply noerr_or_none. intros vt.
    case_decide; [done|]. case_decide; [done|]. apply noerr_bind; [apply noerr_object_end|].
    intros []; [done|apply noerr_scan_object].
  - case_decide; [done|apply noerr_scan_object].
Qed.

Lemma hdr_read payload : bytes_ok payload → ∃ i, ColorInfo.parse_video_metadata_hdr payload = Ok i.
Proof.
  intros Ho. pose proof (metadata_hdr_total payload Ho) as Ht. unfold ColorInfo.parse_video_metadata_hdr in *.
  destruct (parse_video_total payload Ho) as ([h|]&E&Hh); rewrite E in *; rewrite Ok_bind in *; [|by eexists].
  destruct (_ || _); [by eexists|]. destruct (Hh h eq_refl) as (_&Hs&_). rewrite slice_suffix in * by lia.
  rewrite Ok_bind in *. revert Ht. unfold ColorInfo.parse_color_info_amf.
  destruct (sim_from_slice any ColorInfo.color_info ColorInfo.color_info (zdrop (v_header_size h) payload)
    ColorInfo.sim_color_info) as [-> _]; [by apply Forall_zdrop|].
  pose proof (noerr_color_info (zdrop (v_header_size h) payload)) as Hn.
  destruct (fst _) as [i|e|]; [by eexists|done|done].
Qed.

(** * The verdict on a frame *)

Section hooks.
Context (h : Hooks).

(** The frame that is queued: the payload as it came. *)
Definition relayed (c : Conn) (ft : FrameType) (timestamp : Z) (payload : bytes) (n : Modex.Cow) : RelayFrame :=
  mkRelayFrame ft timestamp payload (Relay.owned_payload n) (app c) (Relay.relay_route_key c) (conn_id c).

(** The relay queue has room for it. *)
Definition has_room (c : Conn) (f : RelayFrame) : Prop :=
  zlen (rf_payload f) ≤ Relay.max_len c ∧ zlen (pending_relay c) < MAX_PENDING_RELAY_FRAMES
  ∧ saturating_add (Relay.pending_relay_bytes c) (retained_bytes f) ≤ max_pending_relay_bytes c.

Definition track_allowed (c : Conn) (ft : FrameType) (t : Multitrack.MediaTrackSlice) : Prop := ∀ label,
  Ingest.media_fourcc_auth_label (Multitrack.t_fourcc t) = Ok label → Ingest.media_allowed h c ft label = true.

(** The application admits what the payload, out of its ModEx wrappers, holds:
    each track of a container, which has to be well formed, or else its codec. *)
Definition admitted (c : Conn) (ft : FrameType) (p : bytes) (codec : option bytes) : Prop :=
  if Multitrack.is_multitrack_container ft p
  then ∃ ts, Multitrack.foreach_track ft p = Ok (true, ts) ∧ Forall (track_allowed c ft) ts
  else Ingest.media_allowed h c ft codec = true.

Lemma no_callback c ft codec : on_media_cb h = None → Ingest.media_allowed h c ft codec = true.
Proof. intros E. unfold Ingest.media_allowed. by rewrite E. Qed.

Lemma authorize_tracks_spec c ft ts n : Forall (λ t, zlen (Multitrack.t_fourcc t) = 4 ∧ bytes_ok (Multitrack.t_payload t)) ts →
  ∃ m d, Ingest.authorize_tracks h c ft n ts = Ok (m, d) ∧ (d = false ↔ Forall (track_allowed c ft) ts).
Proof.
  intros Hts. revert n. induction Hts as [|t ts [Ht _] _ IH]; intros n; simpl; [by eexists _, false|].
  destruct (label_total _ Ht) as (l&E). rewrite E, Ok_bind.
  assert (track_allowed c ft t ↔ Ingest.media_allowed h c ft l = true) as Ha.
  { unfold track_allowed. rewrite E. split; [auto|]. by intros ? l' [= ->]. }
  destruct (Ingest.media_allowed h c ft l).
  - destruct (IH (n + 1)) as (m&d&->&Hd). exists m, d. split; [done|]. rewrite Forall_cons, Hd. naive_solver.
  - exists (n + 1), true. split; [done|]. rewrite Forall_cons. naive_solver.
Qed.

(** Authorization and the parse of the tracks that follows decide exactly that. *)
Lemma admitted_iff c ft p codec ok ts : bytes_ok p → Multitrack.foreach_track ft p = Ok (ok, ts) →
  let multi := Multitrack.is_multitrack_container ft p in
  admitted c ft p codec ↔ is_ok (Ingest.authorize_media_frame h c ft p codec multi) && (negb multi || ok) = true.
Proof.
  intros Ho E multi. destruct (foreach_total ft p Ho) as (ok'&ts'&E'&Hts). rewrite E in E'.
  injection E' as <- <-. unfold admitted, Ingest.authorize_media_frame. fold multi. rewrite E, Ok_bind.
  destruct (authorize_tracks_spec c ft ts 0 Hts) as (m&d&Ed&Hd). rewrite Ed, Ok_bind.
  destruct (on_media_cb h) as [cb|] eqn:Ec.
  - destruct multi; simpl; [|by case_match]. destruct ok; simpl; [|naive_solver].
    destruct d; simpl; naive_solver.
  - destruct multi; simpl; [|rewrite no_callback by done; done]. destruct ok; simpl; [|naive_solver].
    split; [done|]. intros _. exists ts. split; [done|]. apply Forall_true. intros t l _. by apply no_callback.
Qed.

(** * The steps *)

Lemma dispatch_tracks_outcome ft ts l w :
  Forall (λ t, zlen (Multitrack.t_fourcc t) = 4 ∧ bytes_ok (Multitrack.t_payload t)) l →
  ∃ ev, Ingest.dispatch_tracks h ft ts l w = (Ok tt, w <| events := ev |>).
Proof.
  intros Hl. revert w. induction Hl as [|t l [Ht _] _ IH]; intros w; simpl; [exists (events w); by destruct w|].
  assert (∃ ev, when (on_frame_cb h) (Ingest.invoke_multitrack_on_frame_cb ft ts t) w = (Ok tt, w <| events := ev |>))
    as [ev E].
  { unfold Ingest.invoke_multitrack_on_frame_cb, InitCache.populate_multitrack_frame, when.
    rewrite ExVideo.fourcc_copy, Ok_bind by done. destruct (on_frame_cb h); [by eexists|].
    exists (events w). by destruct w. }
  unfold mbind at 1, ST_bind at 1. rewrite E. destruct (IH (w <| events := ev |>)) as [ev' ->]. by exists ev'.
Qed.

Lemma populate_read ft ts id payload : bytes_ok payload →
  ∃ f, InitCache.populate_av_frame (Ingest.frame_of ft ts payload id) payload = Ok f.
Proof.
  intros Ho. unfold InitCache.populate_av_frame. destruct ft; simpl; [| |by eexists..].
  - unfold InitCache.populate_audio_frame.
    destruct (parse_audio_total payload Ho) as ([hd|]&->&_); rewrite Ok_bind; [|by eexists].
    destruct (_ && _); [by eexists|]. destruct (negb _); by eexists.
  - unfold InitCache.populate_video_frame.
    destruct (parse_video_total payload Ho) as ([hd|]&->&Hh); rewrite Ok_bind; [|by eexists].
    destruct (Hh hd eq_refl) as (Hne&_). destruct (_ && _); [by eexists|]. destruct (negb _); [by eexists|].
    destruct payload as [|b l]; [done|]. change (zidx (b :: l) 0) with (Ok b). by eexists.
Qed.

Lemma dispatch_outcome ft ts p multi ok l w : bytes_ok p → Multitrack.foreach_track ft p = Ok (ok, l) →
  ∃ n ev, Ingest.dispatch_media_frame_callbacks h ft ts p multi w
    = (if negb multi || ok then Ok n else Err Protocol, w <| events := ev |>).
Proof.
  intros Ho E. destruct (foreach_total ft p Ho) as (ok'&l'&E'&Hl). rewrite E in E'. injection E' as <- <-.
  unfold Ingest.dispatch_media_frame_callbacks. rewrite E. unfold lift. unfold mbind at 1, ST_bind at 1.
  destruct (dispatch_tracks_outcome ft ts l w Hl) as (ev&Ed). unfold mbind at 1, ST_bind at 1. rewrite Ed.
  destruct multi; simpl.
  - destruct ok; [by eexists _, ev|by exists 0, ev].
  - destruct (on_frame_cb h); [|by exists 1, ev]. unfold Ingest.invoke_on_frame_cb, when.
    destruct (populate_read ft ts 255 p Ho) as (f&->). by eexists 1, _.
Qed.

Lemma detected_outcome ft codec multi p c : bytes_ok p → ∃ c',
  Ingest.update_detected_media_metadata ft codec multi p c = Ok c' ∧ undescribed c' = undescribed c.
Proof.
  intros Ho. unfold Ingest.update_detected_media_metadata. set (c1 := match ft with Audio => _ | _ => _ end).
  assert (undescribed c1 = undescribed c) as H1.
  { unfold c1. destruct ft; [by case_match| |done..]. by destruct (_ || _). }
  destruct (_ && _); [|by exists c1]. destruct (hdr_read p Ho) as ([i|]&->); rewrite Ok_bind; eexists; split; [done|..|done|].
  all: rewrite <- H1; done.
Qed.

Lemma map_err_outcome {S} e (m : ST S unit) s : snd (map_err e m s) = snd (m s)
  ∧ is_ok (fst (map_err e m s)) = is_ok (fst (m s)) ∧ (fst (map_err e m s) = Ok tt ↔ fst (m s) = Ok tt).
Proof. unfold map_err. by destruct (m s) as [[[]|?|] s']. Qed.

(** What the queue looks at. *)
Definition queue_view (c : Conn) :=
  (pending_relay c, max_pending_relay_bytes c, chunk_reg c, app c, relay_key c, current_stream c, conn_id c).

Lemma queue_outcome ft ts payload n w c : queue_view (conn w) = queue_view c →
  let f := relayed c ft ts payload n in
  let out := Relay.queue_relay_frame ft ts payload n w in
  (fst out = Ok tt ↔ has_room c f)
  ∧ pending_relay (conn (snd out)) = pending_relay c ++ (if is_ok (fst out) then [f] else [])
  ∧ routes (snd out) = routes w.
Proof.
  intros E. injection E as E1 E2 E3 E4 E5 E6 E7. cbv zeta.
  unfold relayed, has_room, Relay.max_len, Relay.pending_relay_bytes, Relay.relay_route_key.
  rewrite <- E1, <- E2, <- E3, <- E4, <- E5, <- E6, <- E7.
  unfold Relay.queue_relay_frame, self, Relay.max_len, Relay.pending_relay_bytes, Relay.relay_route_key,
    mbind, ST_bind, guard_st. cbn [rf_payload].
  destruct (Z.ltb_spec (Z.min (max_msg_length (chunk_reg (conn w))) RTMP_WIRE_MAX_MSG_LENGTH) (zlen payload)); cbn.
  { rewrite app_nil_r. split_and!; [split; [done|lia]|done..]. }
  destruct (Z.leb_spec MAX_PENDING_RELAY_FRAMES (zlen (pending_relay (conn w)))); cbn.
  { rewrite app_nil_r. split_and!; [split; [done|lia]|done..]. }
  match goal with |- context [?a <? ?b] => destruct (Z.ltb_spec a b) as [Hl|Hl] end; cbn.
  { rewrite app_nil_r. split_and!; [split; [done|intros (_&_&Hr); exact (False_ind _ (Zle_not_lt _ _ Hr Hl))]|done..]. }
  split_and!; [|done..]. split; [|done]. intros _. split_and!; [lia|lia|exact Hl].
Qed.

(** Up to the queue, a frame of the publisher changes nothing the queue sees. *)
Lemma handle_media_steps sid ft ts payload n codec ok l w :
  Relay.is_active_publisher_stream sid (conn w) = true → bytes_ok (Modex.view n) →
  Modex.normalize_modex_payload_with_frame_type payload CAPS_EX_MASK_MODEX ft = Ok n →
  Ingest.current_codec_of ft (Modex.view n) = Ok codec →
  Multitrack.foreach_track ft (Modex.view n) = Ok (ok, l) →
  let multi := Multitrack.is_multitrack_container ft (Modex.view n) in
  let auth := Ingest.authorize_media_frame h (conn w) ft (Modex.view n) codec multi in
  ∃ w' r, queue_view (conn w') = queue_view (conn w) ∧ routes w' = routes w ∧ is_ok r = false
  ∧ Ingest.handle_media_frame h sid ft ts payload w
    = if is_ok auth && (negb multi || ok)
      then map_err Internal (Relay.queue_relay_frame ft ts payload n) w' else (r, w').
Proof.
  intros Ha Ho En Ec Ef multi auth. unfold Ingest.handle_media_frame. erewrite bind_ok by reflexivity.
  rewrite Ha. cbn [negb]. rewrite En. erewrite bind_ok by reflexivity. cbv zeta.
  rewrite Ec. erewrite bind_ok by reflexivity. fold multi. fold auth.
  destruct auth as [work|e|] eqn:Ea; [|exists w, (Err e)|exists w, Panic]; [|by split_and!..].
  erewrite bind_ok by reflexivity.
  set (c1 := (conn w) <| recv_track_budget := saturating_sub (recv_track_budget (conn w)) work |>).
  rewrite (bind_ok (Ingest.charge_tracks work) _ w tt (w <| conn := c1 |>) eq_refl).
  destruct (detected_outcome ft codec multi (Modex.view n) c1 Ho) as (c2&E2&H2).
  assert (try_upd (Ingest.update_detected_media_metadata ft codec multi (Modex.view n)) (w <| conn := c1 |>)
    = (Ok tt, w <| conn := c2 |>)) as Et.
  { unfold try_upd. change (conn (w <| conn := c1 |>)) with c1. by rewrite E2. }
  rewrite (bind_ok _ _ _ _ _ Et).
  erewrite bind_ok by reflexivity.
  match goal with |- context [(Ingest.dispatch_media_frame_callbacks h ft ts ?p multi ≫= _) ?w3] =>
    destruct (dispatch_outcome ft ts p multi ok l w3 Ho Ef) as (k&ev&Ed); set (w4 := w3 <| events := ev |>) in * end.
  assert (queue_view (conn w4) = queue_view (conn w)) as Hq.
  { change (queue_view (undescribed c2) = queue_view (undescribed c1)). by rewrite H2. }
  destruct (negb multi || ok).
  - rewrite (bind_ok _ _ _ _ _ Ed). erewrite bind_ok by reflexivity. eexists _, Panic.
    split_and!; [..|reflexivity]; [exact Hq|done|done].
  - rewrite (bind_err _ _ _ _ _ Ed). by exists w4, (Err Protocol).
Qed.

(** C34. A media message is relayed verbatim or not at all. A connection queues
    nothing for a stream it is not the active publisher of. For its own stream,
    the call succeeds exactly when the application admits the codec of the
    payload out of its ModEx wrappers (every track of it, when it is a
    well-formed container of several) and the queue has room in frames and
    bytes; then the queue grows by the payload as it came, with its timestamp
    and the route it was published on, and otherwise it is left as it was. The
    route registry is not touched. *)
Theorem media_frame_relayed sid ft ts payload w : bytes_ok payload →
  let c := conn w in
  let out := Ingest.handle_media_frame h sid ft ts payload w in
  let queue := pending_relay (conn (snd out)) in
  routes (snd out) = routes w
  ∧ if Relay.is_active_publisher_stream sid c
    then ∃ n codec, Modex.normalize_modex_payload_with_frame_type payload CAPS_EX_MASK_MODEX ft = Ok n
      ∧ Ingest.current_codec_of ft (Modex.view n) = Ok codec
      ∧ (let f := relayed c ft ts payload n in
         (fst out = Ok tt ↔ admitted c ft (Modex.view n) codec ∧ has_room c f)
         ∧ queue = pending_relay c ++ (if is_ok (fst out) then [f] else []))
    else fst out = Ok tt ∧ queue = pending_relay c.
Proof.
  intros Ho c out queue. destruct (Relay.is_active_publisher_stream sid c) eqn:Ha.
  - destruct (normalize_total payload CAPS_EX_MASK_MODEX ft Ho) as (n&En&Hn).
    destruct (codec_total ft _ Hn) as (codec&Ec). destruct (foreach_total ft _ Hn) as (ok&l&Ef&_).
    destruct (handle_media_steps sid ft ts payload n codec ok l w Ha Hn En Ec Ef) as (w'&r&Hq&Hr&Hf&E).
    pose proof (admitted_iff c ft (Modex.view n) codec ok l Hn Ef) as Hadm. cbv zeta in Hadm.
    destruct (queue_outcome ft ts payload n w' c Hq) as (Q1&Q2&Q3). subst out queue. rewrite E.
    change (conn w) with c. destruct (_ && _); cbn [fst snd].
    + destruct (map_err_outcome Internal (Relay.queue_relay_frame ft ts payload n) w') as (->&->&M3).
      split; [congruence|]. exists n, codec. split_and!; [done..| |done]. rewrite M3, Q1. tauto.
    + split; [done|]. exists n, codec. cbn [fst snd]. rewrite Hf, app_nil_r. injection Hq as Hp _ _ _ _ _ _. split_and!; [done..| |done].
      split; [by intros ->|]. intros [Hc _]. by apply Hadm in Hc.
  - subst out queue. unfold Ingest.handle_media_frame. erewrite bind_ok by reflexivity. fold c. rewrite Ha.
    cbn [negb]. by destruct (Relay.is_publisher_stream sid c).
Qed.
End hooks.

(** A publisher's frame, after the sample session. *)
Definition publisher : World := Calls.run Calls.sample_calls (Calls.start Calls.sample_settings 0 7 1 ∅).

Lemma media_frame_relayed_witness :
  let out := Ingest.handle_media_frame no_hooks 1 Video 40 [23; 1; 0; 0; 0] publisher in
  routes (snd out) = routes publisher ∧ fst out = Ok tt
  ∧ rf_payload <$> pending_relay (conn (snd out)) = [[23; 1; 0; 0; 0]].
Proof.
  assert (bytes_ok [23; 1; 0; 0; 0]) as Ho by bytes_lit.
  destruct (media_frame_relayed no_hooks 1 Video 40 [23; 1; 0; 0; 0] publisher Ho) as [Hr _].
  split; [exact Hr|]. vm_compute. auto.
Defined.
End Media.
