(* ===== verification/SessionHandshake.v ===== *)
(** The handshake of a connection reaches its end: however a network cuts the
    peer's C0, C1 and C2 into pieces, the calls of [Conn::recv] that bring them
    leave the connection connected and its answer queued. *)
From S2P Require Import Prelude Bytes Types Buffer Source ChunkState Handshake ReadLoop Session ConnRelay ConnSend ConnRecv SessionCalls.

Module Liveness.
Import Conn.

Section blocks.
Context (c1 c2 : bytes) (B1 : Handshake.is_block c1) (B2 : Handshake.is_block c2).
(** The surroundings of the calls. *)
Context (P : Env → Prop).

(** ** The stages *)

(** What is still to be read at a stage, and how much of it is read at once. *)
Definition pending (g : nat) : bytes :=
  match g with O => 3 :: c1 ++ c2 | S O => c1 ++ c2 | S (S O) => c2 | _ => [] end.
Definition need (g : nat) : Z :=
  match g with O => 1 | S O | S (S O) => HANDSHAKE_SIZE | _ => 0 end.

(** The answer, queued from stage 2 on. *)
Definition answered (out : bytes) : Prop := ∃ e s1 s2 mode,
  P e ∧ Handshake.answered c1 s1 s2 (server_time e) mode ∧ out = 3 :: s1 ++ s2.
Definition queued (g : nat) (out : bytes) : Prop := match g with O | S O => out = [] | _ => answered out end.

(** At stage [g], with [l] unread. *)
Record at_stage (g : nat) (l : bytes) (c : Conn) : Prop := {
  sg_recv : Buffer.wf (recv_buffer c) ∧ Buffer.limit (recv_buffer c) = BUFFER_MAX_SIZE;
  sg_unread : Buffer.contents (recv_buffer c) = l;
  sg_hs : Handshake.hs_ok (handshake c);
  sg_send : Buffer.wf (send_buffer c) ∧ Buffer.limit (send_buffer c) = BUFFER_MAX_SIZE;
  sg_queued : queued g (Buffer.contents (send_buffer c));
  sg_fd : client_fd c ≠ INVALID_SOCKET;
  sg_window : window_ack_size c = 0;
  sg_budget : recv_track_budget c ≠ 0;
  sg_state : (state c, hs_state (handshake c)) = match g with
    | O => (TcpAccepted, ServerWaitC0) | S O => (StHandshake, ServerWaitC1)
    | S (S O) => (StHandshake, ServerWaitC2) | _ => (Connected, Done) end;
}.

Lemma hs_size : HANDSHAKE_SIZE = 1536.
Proof. done. Qed.

Lemma write_room d b : Buffer.wf b ∧ Buffer.limit b = BUFFER_MAX_SIZE →
  zlen (Buffer.contents b) + zlen d ≤ BUFFER_MAX_SIZE → ∃ b', Buffer.write d b = (Ok (zlen d), b')
  ∧ (Buffer.wf b' ∧ Buffer.limit b' = BUFFER_MAX_SIZE) ∧ Buffer.contents b' = Buffer.contents b ++ d.
Proof.
  intros [Hb El] Hl. destruct (Buffer.write_spec d b Hb) as (b'&W&O&L&H).
  rewrite El, (proj2 (Z.leb_le _ _) Hl), orb_true_r in H. destruct H as [E C]. exists b'. split_and!; congruence.
Qed.

Section env.
Context (e : Env) (He : P e).

Lemma recurse_short l w : at_stage 1 l (conn w) → zlen l < HANDSHAKE_SIZE → ∃ w',
  Receiver.do_handshake_recurse e w = (Ok 0, w') ∧ at_stage 1 l (conn w').
Proof.
  intros [] Hl. unfold Receiver.do_handshake_recurse, Receiver.coded, Receiver.on_handshake, on_field.
  unfold Handshake.server_read_c1_mode.
  rewrite (bind_err _ _ _ Io (handshake (conn w), recv_buffer (conn w))).
  2: { apply Handshake.read_block_short; [apply sg_recv0|]. by rewrite sg_unread0. }
  eexists. split; [reflexivity|]. by split.
Qed.

Lemma recurse_full rest w : at_stage 1 (c1 ++ rest) (conn w) → ∃ w',
  Receiver.do_handshake_recurse e w = (Ok 1, w') ∧ at_stage 2 rest (conn w').
Proof.
  intros []. destruct (Handshake.read_c1_ok (server_time e) (seed1 e) (seed2 e) _ _ c1 rest sg_hs0
    (proj1 sg_recv0) sg_unread0 B1) as (mode&s1&s2&hs&b&E&H1&H2&H3&_&_&[H4 H5]&H6&H7).
  unfold Receiver.do_handshake_recurse, Receiver.coded, Receiver.on_handshake, on_field. rewrite E.
  set (w1 := w <| conn := (conn w) <| handshake := hs |> <| recv_buffer := b |> |>).
  rewrite (bind_ok self _ w1 (conn w1) w1 eq_refl).
  change (client_fd (conn w1)) with (client_fd (conn w)). rewrite (proj2 (Z.eqb_neq _ _) sg_fd0). cbn [negb].
  destruct (write_room [3] (send_buffer (conn w)) sg_send0) as (o1&W1&O1&C1);
    [rewrite sg_queued0; done|]. rewrite sg_queued0 in C1.
  destruct (write_room (s1 ++ s2) o1 O1) as (o2&W2&O2&C2).
  { rewrite C1. rewrite (zlen_app s1 s2), (proj1 (proj1 H7)), (proj1 (proj1 (proj2 H7))). done. }
  set (w2 := w1 <| conn := (conn w1) <| send_buffer := o2 |> |>).
  assert ((on_send (Buffer.write [3]);;
    out_data ← lift (Buffer.peek (hs_out (handshake (conn w1)))); on_send (Buffer.write out_data)) w1
    = (Ok (zlen (s1 ++ s2)), w2)) as Ew.
  { change (handshake (conn w1)) with hs. rewrite Buffer.peek_contents, H3 by apply H1.
    unfold on_send, on_field, mbind, ST_bind, lift. change (send_buffer (conn w1)) with (send_buffer (conn w)).
    rewrite W1. change (send_buffer (conn (w1 <| conn := (conn w1) <| send_buffer := o1 |> |>))) with o1.
    by rewrite W2. }
  erewrite bind_ok by (rewrite Ew; reflexivity). cbn [negb].
  eexists. split; [reflexivity|]. split; try done.
  - split; [exact H4|]. rewrite <- (proj2 sg_recv0). exact H5.
  - destruct H1 as [Hw Ho]. destruct (Buffer.reset_spec _ Hw) as (R1&_&R2&_). split; [exact R1|].
    change (owned (Buffer.reset (hs_out hs)) = true). congruence.
  - exists e, s1, s2, mode. split_and!; [done..|]. change (Buffer.contents o2 = 3 :: s1 ++ s2). by rewrite C2, C1.
  - change ((state (conn w), hs_state hs) = (StHandshake, ServerWaitC2)). injection sg_state0 as -> _. by rewrite H2.
Qed.

(** Stage 1 again, once C0 is read. *)
Lemma recurse_stage l rest w : at_stage 1 l (conn w) → l ++ rest = c1 ++ c2 → ∃ rc g l' w',
  Receiver.do_handshake_recurse e w = (Ok rc, w') ∧ 0 ≤ rc ∧ at_stage g l' (conn w') ∧ l' ++ rest = pending g
  ∧ (zlen l < HANDSHAKE_SIZE ∧ g = 1%nat ∧ l' = l ∨ HANDSHAKE_SIZE ≤ zlen l ∧ g = 2%nat ∧ zlen l' < zlen l).
Proof.
  intros Hw El. destruct (decide (zlen l < HANDSHAKE_SIZE)) as [Hs|Hs].
  - destruct (recurse_short l w Hw Hs) as (w'&E&H). exists 0, 1%nat, l, w'. split_and!; auto. lia.
  - assert (∃ x, l = c1 ++ x) as [x ->].
    { exists (zdrop HANDSHAKE_SIZE l). pose proof (proj1 B1) as L1.
      assert (ztake HANDSHAKE_SIZE (l ++ rest) = ztake HANDSHAKE_SIZE (c1 ++ c2)) as Et by congruence.
      rewrite ztake_app_l, ztake_app_len in Et by lia. by rewrite <- Et, ztake_zdrop_app. }
    destruct (recurse_full x w Hw) as (w'&E&H). rewrite <- (assoc_L (++)) in El. apply app_inv_head in El.
    exists 1, 2%nat, x, w'. rewrite zlen_app, (proj1 B1). split_and!; auto; [lia|]. right.
    unfold HANDSHAKE_SIZE in *. rewrite zlen_app, (proj1 B1) in Hs. zlia.
Qed.

(** One turn: either the stage's bytes are there and it is left, or nothing
    happens. *)
Definition progress (g g' : nat) (l l' : bytes) : Prop :=
  zlen l < need g ∧ g' = g ∧ l' = l ∨ need g ≤ zlen l ∧ (g < g' ≤ 3)%nat ∧ zlen l' < zlen l.

Lemma c2_stage l rest w : at_stage 2 l (conn w) → l ++ rest = c2 → ∃ rc g l' w',
  Receiver.do_handshake e w = (Ok rc, w') ∧ 0 ≤ rc ∧ at_stage g l' (conn w') ∧ l' ++ rest = pending g
  ∧ progress 2 g l l'.
Proof.
  intros [] El. injection sg_state0 as Es Eh. unfold Receiver.do_handshake.
  rewrite (bind_ok self _ w (conn w) w eq_refl), Eh. unfold Receiver.coded, Receiver.on_handshake, on_field.
  pose proof (proj1 B2) as L2. rewrite <- El in L2. rewrite zlen_app in L2. pose proof (zlen_nonneg rest).
  destruct (decide (zlen l < HANDSHAKE_SIZE)) as [Hs|Hs].
  - unfold Handshake.server_read_c2.
    rewrite (bind_err _ _ _ Io (handshake (conn w), recv_buffer (conn w))).
    2: { apply Handshake.read_block_short; [apply sg_recv0|]. by rewrite sg_unread0. }
    eexists 0, 2%nat, l, _. split; [reflexivity|]. split; [done|]. split; [|by split; [|left]].
    split; try done. change ((state (conn w), hs_state (handshake (conn w))) = (StHandshake, ServerWaitC2)). congruence.
  - assert (rest = []) as -> by (apply zlen_0_nil; lia). rewrite app_nil_r in *. subst l.
    destruct (Handshake.read_last_ok (handshake (conn w)) (recv_buffer (conn w)) c2 [] (proj1 sg_recv0)) as (b&[H1 H2]&H3&E&_);
      [by rewrite app_nil_r|exact (proj1 B2)|]. rewrite E.
    eexists 1, 3%nat, [], _. split; [reflexivity|]. split; [done|].
    split; [|split; [done|]; right; split; [change (need 2) with HANDSHAKE_SIZE; lia|split; [lia|]]; rewrite El, (proj1 B2); done].
    split; try done. split; [exact H1|]. rewrite <- (proj2 sg_recv0). exact H2.
Qed.

Lemma process_stage g l rest mb w : (g < 3)%nat → at_stage g l (conn w) → l ++ rest = pending g →
  (g = O → l ≠ []) → ∃ rc g' l' w', Receiver.process e mb w = (Ok (rc, mb), w') ∧ 0 ≤ rc
  ∧ at_stage g' l' (conn w') ∧ l' ++ rest = pending g' ∧ progress g g' l l'.
Proof.
  intros Hg Hw El H0. assert (∃ rc g' l' w', Receiver.do_handshake e w = (Ok rc, w') ∧ 0 ≤ rc
    ∧ at_stage g' l' (conn w') ∧ l' ++ rest = pending g' ∧ progress g g' l l') as (rc&g'&l'&w'&E&H).
  2: { exists rc, g', l', w'. split; [|exact H]. unfold Receiver.process. rewrite (bind_ok self _ w (conn w) w eq_refl).
       pose proof (sg_state _ _ _ Hw) as Es. destruct g as [|[|[|g]]]; [..|lia]; injection Es as Es _; rewrite Es;
       by rewrite (bind_ok _ _ _ _ _ E). }
  destruct g as [|[|[|g]]]; [| | |lia].
  - specialize (H0 eq_refl). destruct l as [|v l]; [done|]. injection El as -> El. destruct Hw.
    injection sg_state0 as Es Eh. unfold Receiver.do_handshake. rewrite (bind_ok self _ w (conn w) w eq_refl), Eh.
    erewrite bind_ok by reflexivity. unfold Receiver.coded, Receiver.on_handshake, on_field.
    set (w0 := w <| conn := _ |>).
    destruct (Handshake.read_version_cons ServerWaitC1 (handshake (conn w0)) (recv_buffer (conn w0)) 3 l
      (proj1 sg_recv0) sg_unread0) as (b&[H1 H2]&H3&E).
    unfold Handshake.server_read_c0. rewrite E. change (3 =? RTMP_VERSION) with true. cbv iota.
    erewrite bind_ok by reflexivity. match goal with |- context [Receiver.do_handshake_recurse e ?x] => set (w1 := x) end.
    destruct (recurse_stage l rest w1) as (rc&g&l'&w'&E'&Hrc&Hw'&El'&Hd); [|done|].
    { split; try done. split; [exact H1|]. rewrite <- (proj2 sg_recv0). exact H2. }
    exists rc, g, l', w'. split_and!; try done. right. change (need 0) with 1. rewrite zlen_cons. pose proof (zlen_nonneg l).
    destruct Hd as [(_&->&->)|(_&->&?)]; (split; [lia|]); split; lia.
  - unfold Receiver.do_handshake. rewrite (bind_ok self _ w (conn w) w eq_refl).
    pose proof (sg_state _ _ _ Hw) as Es. injection Es as _ Eh. rewrite Eh.
    destruct (recurse_stage l rest w Hw El) as (rc&g&l'&w'&E'&Hrc&Hw'&El'&Hd). exists rc, g, l', w'. split_and!; try done.
    destruct Hd as [?|(?&->&?)]; [by left|]. right. split; [done|]. split; [lia|done].
  - by apply c2_stage.
Qed.

(** The loop of [recv] goes on until the stage it is at lacks bytes: three
    stages, and at most four turns at one of them. *)
Definition settled (g : nat) (l : bytes) : Prop := (g ≤ 3)%nat ∧ (zlen l < need g ∨ g = 3%nat).

Lemma unread_stage g l w : at_stage g l (conn w) → Receiver.unread (conn w) = zlen l.
Proof. intros []. unfold Receiver.unread. by rewrite Buffer.available_contents, sg_unread0 by apply sg_recv0. Qed.

(** The loop's own test for having nothing to do. *)
Lemma stops g l rest w : at_stage g l (conn w) → (g ≤ 3)%nat → l ++ rest = pending g →
  let stop := (zlen l =? 0) && negb (bool_decide (state (conn w) = StHandshake)) in
  stop = true ∧ settled g l ∨ stop = false ∧ (g < 3)%nat ∧ (g = O → l ≠ []).
Proof.
  intros [] Hg El stop. unfold stop. destruct g as [|[|[|g]]]; injection sg_state0 as -> _.
  - destruct l as [|x l]; [by left; split; [|split; [lia|left]]|]. right. rewrite zlen_cons.
    pose proof (zlen_nonneg l). rewrite (proj2 (Z.eqb_neq _ _)) by lia. split_and!; [done|lia|done].
  - right. rewrite andb_false_r. split_and!; [done|lia|done].
  - right. rewrite andb_false_r. split_and!; [done|lia|done].
  - apply app_eq_nil in El as [-> _]. left. split; [done|]. split; [done|right; lia].
Qed.

Lemma recv_loop_settles n np mb g l rest w : at_stage g l (conn w) → (g ≤ 3)%nat → l ++ rest = pending g → mb ≠ 0 →
  0 ≤ np ≤ 3 → 8 * (3 - Z.of_nat g) + 4 - np ≤ Z.of_nat n → ∃ g' l' w',
  Receiver.recv_loop e n np mb w = (Ok tt, w') ∧ at_stage g' l' (conn w') ∧ l' ++ rest = pending g' ∧ settled g' l'.
Proof.
  revert np g l w. induction n as [|n IH]; intros np g l w Hw Hg El Hmb Hnp Hn; [lia|]. cbn [Receiver.recv_loop].
  rewrite (bind_ok self _ w (conn w) w eq_refl). rewrite (proj2 (Z.eqb_neq _ _) Hmb), (proj2 (Z.eqb_neq _ _) (sg_budget _ _ _ Hw)).
  cbn [orb]. cbv zeta. rewrite (unread_stage g l w Hw).
  destruct (stops g l rest w Hw Hg El) as [[-> Hset]|[-> [Hg3 H0]]]; [by exists g, l, w|].
  destruct (process_stage g l rest mb w Hg3 Hw El H0) as (rc&g'&l'&w'&E&Hrc&Hw'&El'&Hp).
  rewrite (bind_ok _ _ _ _ _ E). rewrite (proj2 (Z.ltb_ge _ _) Hrc). rewrite (bind_ok self _ w' (conn w') w' eq_refl).
  rewrite (unread_stage g' l' w' Hw'). destruct Hp as [(Hs&->&->)|(Hs&Hg'&Hl)].
  - assert (settled g l) as Hset by (split; [lia|by left]). rewrite Z.eqb_refl. cbn [andb].
    destruct (Z.ltb_spec 3 (np + 1)); [by exists g, l, w'|]. destruct (_ && _); [by exists g, l, w'|].
    apply (IH (np + 1) g l); try done; lia.
  - rewrite (proj2 (Z.eqb_neq (zlen l') (zlen l))) by lia. cbn [andb].
    destruct ((zlen l' =? 0) && _) eqn:E0.
    + apply andb_true_iff in E0 as [E0%Z.eqb_eq _]. exists g', l', w'. split_and!; try done; split; [lia|].
      rewrite E0. destruct g' as [|[|[|g']]]; [lia|by left..|right; lia].
    + apply (IH 0 g' l'); try done; lia.
Qed.

(** One call. *)
Lemma recv_settles g l d rest w : at_stage g l (conn w) → settled g l → l ++ d ++ rest = pending g → ∃ g' l' w',
  Receiver.recv e d w = (Ok tt, w') ∧ at_stage g' l' (conn w') ∧ l' ++ rest = pending g' ∧ settled g' l'.
Proof.
  intros Hw [Hg _] El. assert (zlen l + zlen d ≤ 4 * HANDSHAKE_SIZE) as Hl.
  { assert (zlen (l ++ d ++ rest) ≤ 4 * HANDSHAKE_SIZE) as H.
    { rewrite El. pose proof (proj1 B1). pose proof (proj1 B2). rewrite hs_size in *.
      destruct g as [|[|[|g]]]; cbn [pending]; rewrite ?zlen_cons, ?zlen_app, ?zlen_nil; lia. }
    rewrite !zlen_app in H. pose proof (zlen_nonneg rest). lia. }
  rewrite hs_size in Hl. unfold Receiver.recv. rewrite (bind_ok self _ w (conn w) w eq_refl), (unread_stage g l w Hw).
  rewrite (bind_ok _ _ w tt w).
  2: { unfold guard_st. rewrite (proj2 (Z.ltb_ge _ _)); [by rewrite andb_false_r|]. unfold saturating_add.
       etrans; [apply Z.le_min_r|]. etrans; [exact Hl|done]. }
  pose proof Hw as []. destruct (write_room d (recv_buffer (conn w)) sg_recv0) as (b&E&Hb&Cb).
  { rewrite sg_unread0. etrans; [exact Hl|done]. }
  rewrite (bind_ok _ _ w (zlen d) (w <| conn := (conn w) <| recv_buffer := b |> |>))
    by (apply map_err_ok; unfold on_field; by rewrite E).
  erewrite bind_ok by reflexivity.
  assert (∀ c (k : ST World unit) w, (when c (upd (λ c, c <| last_recv_progress := Some (now e) |>));; k) w
    = k (if c then w <| conn := (conn w) <| last_recv_progress := Some (now e) |> |> else w)) as Hwhen by by intros [].
  rewrite Hwhen. do 2 erewrite bind_ok by reflexivity.
  match goal with |- context [(Receiver.recv_loop e 256 0 _ ≫= _) ?x] => set (w1 := x) end.
  assert (at_stage g (l ++ d) (conn w1)) as Hw1.
  { unfold w1. destruct (negb _); (split; try done); change (Buffer.contents b = l ++ d); congruence. }
  destruct (recv_loop_settles 256 0 ReadLoop.MAX_MESSAGES_PER_RECV g (l ++ d) rest w1) as (g'&l'&w2&E2&Hw2&El2&Hs2);
    [done|done|by rewrite <- (assoc_L (++))|done|done|lia|].
  rewrite (bind_ok _ _ _ _ _ E2). clear -Hw2 El2 Hs2. destruct Hw2.
  rewrite (bind_ok self _ w2 (conn w2) w2 eq_refl).
  destruct (Buffer.release_excess_spec RECV_BUFFER_KEEP_CAPACITY (recv_buffer (conn w2)) (proj1 sg_recv0)) as (b&->&Hb&Cb&_&Lb);
    [done|]. do 3 erewrite bind_ok by reflexivity.
  change (window_ack_size (conn (w2 <| conn := (conn w2) <| recv_buffer := b |> |>))) with (window_ack_size (conn w2)).
  rewrite sg_window0. cbn [Z.ltb andb]. eexists g', l', _. split; [reflexivity|]. split; [|done].
  split; try done; [split; [exact Hb|]|].
  - rewrite <- (proj2 sg_recv0). exact Lb.
  - rewrite <- sg_unread0. exact Cb.
Qed.
End env.

(** Many calls. *)
Lemma run_settles segs g l rest w : Forall (λ p, P p.1) segs → at_stage g l (conn w) → settled g l →
  l ++ concat (snd <$> segs) ++ rest = pending g → let w' := Calls.run (uncurry Calls.Recv <$> segs) w in
  ∃ g' l', at_stage g' l' (conn w') ∧ settled g' l' ∧ l' ++ rest = pending g'.
Proof.
  intros HP. revert g l w. induction HP as [|[e d] segs He _ IH]; intros g l w Hw Hs El; [by exists g, l|].
  simpl in El. rewrite <- (assoc_L (++)) in El.
  destruct (recv_settles e He g l d _ w Hw Hs El) as (g1&l1&w1&E&Hw1&El1&Hs1).
  destruct (IH g1 l1 w1 Hw1 Hs1 El1) as (g2&l2&H). exists g2, l2. unfold Calls.run in *. simpl. by rewrite E.
Qed.
End blocks.

Lemma start_stage c1 P st now fd id t : fd ≠ INVALID_SOCKET →
  at_stage c1 P 0 [] (conn (Calls.start st now fd id t)).
Proof. intros Hf. by split. Qed.

(** C35. A handshake reaches its end. Let a peer's C0, C1 and C2 arrive cut into
    segments in any way, each brought by a call of [recv] with its own clock and
    random seeds. Every one of these calls succeeds, and after the last one the
    connection is connected, nothing is left unread, and exactly S0, S1 and S2
    are queued, where S1 and S2 answer this C1 (in plain or digest mode, as it
    asks for). *)
Theorem handshake_completes st now fd id t c1 c2 segs : fd ≠ INVALID_SOCKET →
  Handshake.is_block c1 → Handshake.is_block c2 → concat (snd <$> segs) = 3 :: c1 ++ c2 →
  let w n := Calls.run (uncurry Calls.Recv <$> take n segs) (Calls.start st now fd id t) in
  let c := conn (w (length segs)) in
  (∀ n e d, segs !! n = Some (e, d) → fst (Receiver.recv e d (w n)) = Ok tt)
  ∧ state c = Connected ∧ Buffer.contents (recv_buffer c) = []
  ∧ ∃ e d s1 s2 mode, (e, d) ∈ segs ∧ Handshake.answered c1 s1 s2 (server_time e) mode
    ∧ Buffer.contents (send_buffer c) = 3 :: s1 ++ s2.
Proof.
  intros Hf B1 B2 Hc w c. set (P := λ e, ∃ d, (e, d) ∈ segs).
  assert (∀ n, ∃ g l, at_stage c1 P g l (conn (w n)) ∧ settled g l ∧ l ++ concat (snd <$> drop n segs) = pending c1 c2 g) as Hr.
  { intros n. apply (run_settles c1 c2 B1 B2 P (take n segs) 0 []).
    - apply Forall_forall. intros [e d] Hin. exists d. by apply elem_of_take in Hin as (?&?%list_elem_of_lookup_2&_).
    - by apply start_stage.
    - split; [lia|by left].
    - by rewrite <- concat_app, <- fmap_app, take_drop. }
  split.
  { intros n e d En. destruct (Hr n) as (g&l&Hw&Hs&El). rewrite (drop_S _ _ _ En) in El.
    destruct (recv_settles c1 c2 B1 B2 P e (ex_intro _ d (list_elem_of_lookup_2 _ _ _ En)) g l d _ (w n) Hw Hs El)
      as (g'&l'&w'&->&_). done. }
  destruct (Hr (length segs)) as (g&l&[]&[Hg Hs]&El). rewrite drop_all, app_nil_r in El. rewrite El in *. clear l El.
  assert (g = 3%nat) as ->.
  { pose proof (proj1 B1). pose proof (proj1 B2). unfold HANDSHAKE_SIZE in *. destruct Hs as [Hs|?]; [|done]. exfalso.
    destruct g as [|[|[|g]]]; cbn [pending need] in Hs; unfold HANDSHAKE_SIZE in Hs;
      rewrite ?zlen_cons, ?zlen_app, ?zlen_nil in Hs; lia. }
  injection sg_state0 as Es _. split; [exact Es|]. split; [exact sg_unread0|].
  destruct sg_queued0 as (e&s1&s2&mode&[d Hin]&Ha&Ho). by exists e, d, s1, s2, mode.
Qed.

(** Three segments that cut C1 and C2 in the middle. *)
Lemma handshake_completes_witness : let e := Calls.sample_env no_hooks in
  state (conn (Calls.run [Calls.Recv e (3 :: zrepeat 0 1000); Calls.Recv e (zrepeat 0 1000);
    Calls.Recv e (zrepeat 0 1072)] (Calls.start Calls.sample_settings 0 7 1 ∅))) = Connected.
Proof.
  intros e. assert (Handshake.is_block (zrepeat 0 1536)) as B by (apply Handshake.zero_block).
  destruct (handshake_completes Calls.sample_settings 0 7 1 ∅ (zrepeat 0 1536) (zrepeat 0 1536)
    [(e, 3 :: zrepeat 0 1000); (e, zrepeat 0 1000); (e, zrepeat 0 1072)]) as (_&H&_); [done|exact B|exact B| |exact H].
  vm_compute. reflexivity.
Defined.
End Liveness.
