(* ===== verification/SessionSend.v ===== *)
(** The sending side of a connection in a fan-out: media staged for a vectored
    write or queued behind a shared body keeps the invariant of the session, and
    no sending changes a role, a queue for relay or the registry. *)
From S2P Require Import Prelude Bytes Types Buffer Source ChunkState ChunkWriter MediaOut Control Command Session ConnRelay ConnSend ConnAuth ConnCommand SessionTotal SessionInv SessionStep SessionRecv SessionCalls.
#[local] Set Warnings "-clear-no-such-hyp".

Module Sending.
Import Conn Total Invariant Step Recv Calls.

#[local] Abbreviation any := (λ _, True).

(** * Media *)

Section fine.
Context (id : Z) (R0 : PublishRouteRegistry.table).
Context (granted_publish granted_play : bytes → bytes → Prop).
Context (waiting_publish waiting_play : bytes → bytes → Z → Prop).
Context (A : bytes).
#[local] Abbreviation inside :=
  (at_app id R0 granted_publish granted_play waiting_publish waiting_play any A).
#[local] Abbreviation fine m := (keeps inside any m).
#[local] Abbreviation ends := (lands id R0 A (λ _ _, True) (granted_publish A) (granted_play A) (waiting_publish A) (waiting_play A)).

Lemma media_sendable ft ts payload w : carriable ts payload → inside w →
  MediaOut.sendable (MediaOut.mkInfo ft (Sender.media_stream_id (conn w)) ts) payload.
Proof.
  intros (?&?&?) [_ Hr]. split; try done. unfold Sender.media_stream_id, stream_or. simpl.
  destruct (current_stream (conn w)) eqn:E; simpl; [by apply Hr|by vm_compute].
Qed.

Lemma chosen ft ts payload w : carriable ts payload → inside w → ∃ h t,
  MediaOut.choose (media_out_headers (conn w)) (compact_media_headers (conn w)) ft (Sender.media_stream_id (conn w)) ts
    (zlen payload) = Ok h
  ∧ Writer.csid_ok (MediaOut.h_csid h) ∧ 0 ≤ MediaOut.h_fmt h ≤ 2
  ∧ MediaOut.commit h (media_out_headers (conn w)) = Ok t ∧ MediaOut.tracker_ok t.
Proof.
  intros Hc Hw. pose proof (media_sendable ft ts payload w Hc Hw) as Hs. pose proof Hw as [Hok _].
  destruct (MediaOut.choose_ok _ (compact_media_headers (conn w)) _ _ (ok_tracker _ Hok) Hs) as (h&prev&E&Ecs&Esl&Ecur&_&Hf).
  cbn in *. pose proof (MediaOut.slot_of_bounds ft).
  destruct (MediaOut.commit_ok h _ (ok_tracker _ Hok)) as (t&Et&Ht&_); [lia|rewrite Ecur; apply Hs|].
  exists h, t. split_and!; try done; [rewrite Ecs; apply MediaOut.csid_of_ok|..];
    destruct Hf as [[-> _]|(?&_&[->|[-> _]]&_)]; lia.
Qed.

Lemma fine_send_body ft ts payload body : carriable ts payload →
  fine (Sender.send_encoded_media_body ft ts (zlen payload) body).
Proof.
  intros Hc. apply fine_lands. intros w Hw. apply lands_self. pose proof Hw as [Hok Hr].
  destruct (chosen ft ts payload w Hc Hw) as (h&t&Eh&_&_&Et&Ht). apply lands_bind. unfold lands, Sender.on_media, on_field.
  destruct (MediaOut.write_with_body_spec _ (compact_media_headers (conn w))
    (MediaOut.mkInfo ft (Sender.media_stream_id (conn w)) ts) payload body (send_buffer (conn w)) (ok_tracker _ Hok)
    (media_sendable ft ts payload w Hc Hw) (ok_send _ Hok) h t Eh Et) as (b'&Hb&_&E&_).
  rewrite E. case_match; cbn [fst snd].
  - apply lands_upd. split; [destruct Hok; by split|by apply (roles_ok_roles _ _ _ _ _ _ _ _ (conn w))].
  - split; [destruct Hok; by split|by apply (roles_ok_roles _ _ _ _ _ _ _ _ (conn w))].
Qed.

(** A staged message is a header appended to the shared ones. *)
Lemma stage_body ft ts payload n headers w : carriable ts payload → Buffer.wf headers → inside w →
  ends (λ x w', inside w' ∧ Buffer.wf x.2 ∧ ∃ header, x.1 = zlen header
    ∧ Buffer.contents x.2 = Buffer.contents headers ++ header)
    (Sender.stage_encoded_media_body ft ts (zlen payload) n headers) w.
Proof.
  intros Hc Hh Hw. pose proof Hw as [Hok Hr]. destruct (chosen ft ts payload w Hc Hw) as (h&t&Eh&Hcs&Hfm&Et&Ht).
  unfold lands, Sender.stage_encoded_media_body. rewrite Eh. cbv zeta.
  pose proof (MediaOut.media_header_emits h Hcs Hfm) as He.
  set (d := Writer.header_bytes _ _ _ _ _ _) in He.
  assert (MediaOut.encoded_len h = zlen d) as -> by (unfold d, MediaOut.encoded_len; by rewrite Writer.zlen_header_bytes).
  destruct (Buffer.make_room_spec (zlen d) headers Hh (zlen_nonneg d)) as (b0&(W0&C0&_&L0)&HR).
  rewrite Buffer.available_contents in HR by done.
  destruct (Z.leb_spec (zlen (Buffer.contents headers) + zlen d) (Buffer.limit headers)).
  - destruct HR as [E0 _]. destruct (He b0 W0) as (b1&E1&W1&C1&_&_); [rewrite C0, L0; lia|].
    rewrite (bind_ok _ _ _ tt b0 E0), E1, Et. split; [|split; [done|]; exists d; cbn [fst snd]; by rewrite C1, C0].
    split; [destruct Hok; by split|by apply (roles_ok_roles _ _ _ _ _ _ _ _ (conn w))].
  - by rewrite (bind_err _ _ _ _ _ (HR : Buffer.reserve (zlen d) headers = _)).
Qed.

(** ** The vectored write *)

Definition offset_ok (parts : list bytes) (offset : Z) : Prop :=
  0 ≤ offset ∧ match parts with p :: _ => offset ≤ zlen p | [] => offset = 0 end.

Lemma advance_total parts : ∀ sent offset, offset_ok parts offset → 0 ≤ sent ≤ zlen (Sender.remaining parts offset) →
  ∃ parts' offset', Sender.advance sent parts offset = Ok (parts', offset') ∧ offset_ok parts' offset'.
Proof.
  induction parts as [|p parts IH]; intros sent offset Ho Hs; unfold Sender.remaining in Hs; cbn [concat] in Hs.
  - rewrite zdrop_all in Hs by (change (zlen []) with 0; apply Ho). change (zlen []) with 0 in Hs.
    simpl. rewrite (proj2 (Z.leb_le _ _)) by lia. by eexists _, _.
  - cbn [Sender.advance]. destruct (Z.leb_spec sent 0); [by eexists _, _|]. cbv zeta. destruct Ho as [H0 H1].
    pose proof (zlen_nonneg (concat parts)). pose proof (zlen_nonneg p).
    rewrite zlen_zdrop, zlen_app in Hs by lia.
    destruct (Z.ltb_spec sent (zlen p - offset)).
    + eexists _, _. split; [done|]. split; [lia|]. cbn. lia.
    + destruct (IH (sent - (zlen p - offset)) 0) as (parts'&offset'&E&H').
      * split; [done|]. by destruct parts; [|apply zlen_nonneg].
      * unfold Sender.remaining. rewrite zdrop_nonpos by lia. lia.
      * exists parts', offset'. split; [exact E|done].
Qed.

Lemma send_parts_ok now answers : ∀ parts offset c wire, conn_ok c → offset_ok parts offset →
  ∃ r c' wire' answers', Sender.send_parts now answers parts offset c wire = (r, c', wire', answers')
    ∧ conn_ok c' ∧ roles c' = roles c ∧ pending_relay c' = pending_relay c
    ∧ returns (λ x, offset_ok x.1 x.2) r.
Proof.
  induction answers as [|a answers IH]; intros parts offset c wire Hc Ho.
  { destruct parts as [|p parts]; cbn [Sender.send_parts]; [by eexists _, _, _, _|]. destruct (negb _); by eexists _, _, _, _. }
  destruct parts as [|p parts]; cbn [Sender.send_parts]; [by eexists _, _, _, _|].
  destruct (negb _); [by eexists _, _, _, _|]. destruct a as [n|e]; [|by eexists _, _, _, _]. cbv zeta.
  set (sent := Z.min _ _). destruct (Z.eqb_spec sent 0); [by eexists _, _, _, _|].
  pose proof (zlen_nonneg (Sender.remaining (p :: parts) offset)) as Hn.
  destruct (advance_total (p :: parts) sent offset Ho) as (parts'&offset'&->&Ho'); [unfold sent; lia|].
  destruct (note_bytes_ok now sent c Hc) as [H1 E1].
  destruct (IH parts' offset' (Sender.note_bytes_sent now sent c) (wire ++ ztake sent (Sender.remaining (p :: parts) offset)) H1 Ho')
    as (r&c'&w'&a'&E&H2&E2&E3&H3).
  exists r, c', w', a'. split; [exact E|]. split_and!; [done|by rewrite E2, E1| |done].
  rewrite E3. unfold Sender.note_bytes_sent. by repeat case_match.
Qed.

Lemma write_parts_ok parts : writes (Sender.write_parts parts).
Proof.
  induction parts as [|p parts IH]; [by apply (keeps_ret _ any)|].
  eapply (keeps_bind _ any); [apply writes_raw|intros; apply IH].
Qed.

Lemma writes_reserve n : 0 ≤ n → writes (Buffer.reserve n).
Proof.
  intros Hn b Hb. destruct (Buffer.make_room_spec n b Hb Hn) as (b'&(W&_)&H). unfold Buffer.reserve.
  case_match; [destruct H as [-> _]|rewrite H]; done.
Qed.

Lemma parts_len_nonneg (parts : list bytes) : 0 ≤ foldr (λ q n, zlen q + n) 0 parts.
Proof. induction parts as [|p parts IH]; [done|]. simpl. pose proof (zlen_nonneg p). lia. Qed.

Lemma fine_send_staged now parts : fine (Sender.send_staged_media now parts).
Proof.
  intros w [Ho Hr]. unfold Sender.send_staged_media. cbv zeta.
  destruct (send_parts_ok now (net w) parts 0 ((conn w) <| staged_media_bytes := 0 |>) (wire w))
    as (r&c&wi&an&->&Hc&Ec&_&Hret).
  { by apply (conn_ok_resources (conn w)). }
  { split; [done|]. by destruct parts; [|apply zlen_nonneg]. }
  assert (inside (w <| conn := c |> <| wire := wi |> <| net := an |>)) as Hw'.
  { split; [exact Hc|]. exact (roles_ok_roles _ _ _ _ _ _ _ _ _ _ _ (Ec : roles c = roles (conn w)) Hr). }
  destruct r as [[[|p rest] offset]|err|]; [done| |done|done]. destruct Hret as [H0 H1]. cbn in H0, H1.
  refine (fine_on_send _ _ _ _ _ _ _ _ _ _ _ Hw').
  eapply (keeps_bind _ any); [apply writes_reserve; pose proof (parts_len_nonneg rest); lia|intros _ _].
  rewrite slice_ok by lia. eapply (keeps_bind _ any); [by apply keeps_lift|intros first _].
  eapply (keeps_bind _ any); [apply writes_raw|intros; apply write_parts_ok].
Qed.
End fine.

(** * What sending leaves alone *)

Definition carried (c : Conn) := (roles c, pending_relay c, max_pending_relay_bytes c).
Definition view (w : World) := (carried (conn w), routes w).
Definition steady {B} (m : ST World B) : Prop := ∀ w, view (snd (m w)) = view w.

Lemma steady_bind {B C} (m : ST World B) (k : B → ST World C) : steady m → (∀ b, steady (k b)) → steady (m ≫= k).
Proof.
  intros Hm Hk w. specialize (Hm w). unfold mbind, ST_bind. destruct (m w) as [[b|e|] w']; [|done..].
  by rewrite (Hk b w').
Qed.
Lemma steady_ret {B} (b : B) : steady (mret b).
Proof. done. Qed.
Lemma steady_self : steady self.
Proof. done. Qed.
Lemma steady_guard c e : steady (guard_st c e).
Proof. by destruct c. Qed.
Lemma steady_lift {B} (r : Res B) : steady (lift r).
Proof. by destruct r. Qed.
Lemma steady_when c m : steady m → steady (when c m).
Proof. by destruct c. Qed.
Lemma steady_upd f : (∀ c, carried (f c) = carried c) → steady (upd f).
Proof. intros H w. unfold view. cbn. by rewrite H. Qed.
Lemma steady_field {P B} (get : Conn → P) set (m : ST P B) :
  (∀ p c, carried (set p c) = carried c) → steady (on_field get set m).
Proof. intros H w. unfold on_field. destruct (m (get (conn w))). unfold view. cbn. by rewrite H. Qed.

Lemma steady_send_frame ft ts payload : steady (Sender.send_frame ft ts payload).
Proof. apply steady_bind; [done|intros c]. apply steady_bind; [by apply steady_field|intros; by apply steady_upd]. Qed.

Lemma steady_send_body ft ts n body : steady (Sender.send_encoded_media_body ft ts n body).
Proof. apply steady_bind; [done|intros c]. apply steady_bind; [by apply steady_field|intros; by apply steady_upd]. Qed.

Lemma steady_stage_body ft ts n m headers : steady (Sender.stage_encoded_media_body ft ts n m headers).
Proof. intros w. unfold Sender.stage_encoded_media_body. by repeat case_match. Qed.

Lemma note_bytes_carried now n c : carried (Sender.note_bytes_sent now n c) = carried c.
Proof. unfold Sender.note_bytes_sent. by repeat case_match. Qed.

Lemma send_parts_carried now answers : ∀ parts offset c wire r c' wire' answers',
  Sender.send_parts now answers parts offset c wire = (r, c', wire', answers') → carried c' = carried c.
Proof.
  induction answers as [|a answers IH]; intros parts offset c wire r c' wire' answers'.
  - destruct parts; cbn [Sender.send_parts]; [congruence|]. destruct (negb _); congruence.
  - destruct parts as [|p parts]; cbn [Sender.send_parts]; [congruence|]. destruct (negb _); [congruence|].
    destruct a as [n|e]; [|congruence]. cbv zeta. destruct (_ =? 0); [congruence|].
    destruct (Sender.advance _ _ _) as [[ps o]|e|]; intros E;
      [apply IH in E; by rewrite E, note_bytes_carried|simplify_eq; apply note_bytes_carried..].
Qed.

Lemma steady_send_staged now parts : steady (Sender.send_staged_media now parts).
Proof.
  intros w. unfold Sender.send_staged_media. cbv zeta.
  destruct (Sender.send_parts now (net w) parts 0 ((conn w) <| staged_media_bytes := 0 |>) (wire w)) as [[[r c] wi] an] eqn:E.
  apply send_parts_carried in E. set (w1 := w <| conn := c |> <| wire := wi |> <| net := an |>).
  assert (view w1 = view w) as Hv by (unfold view, w1; cbn; by rewrite E).
  destruct r as [[[|p rest] offset]|err|]; [done| |done|done]. rewrite <- Hv. by apply steady_field.
Qed.

Lemma flush_loop_carried now answers : ∀ c wire r c' wire' answers',
  Sender.flush_loop now answers c wire = (r, c', wire', answers') → carried c' = carried c.
Proof.
  induction answers as [|a answers IH]; intros c wire r c' wire' answers'; cbn [Sender.flush_loop]; destruct (_ || _);
    [congruence..|]. destruct (Buffer.peek _) as [d|e|], a as [n|e']; try congruence. cbv zeta. destruct (_ =? 0); [congruence|].
  intros E. apply IH in E. by rewrite E, note_bytes_carried.
Qed.

Lemma commit_ping_carried now c : carried (Sender.commit_flushed_ping now c) = carried c.
Proof. unfold Sender.commit_flushed_ping. by repeat case_match. Qed.

Lemma steady_flush now : steady (Sender.flush now).
Proof.
  intros w. unfold Sender.flush. cbv zeta. destruct (_ || _); [unfold view; cbn; by rewrite commit_ping_carried|].
  destruct (Sender.flush_loop now (net w) (conn w) (wire w)) as [[[r c] wi] an] eqn:E. apply flush_loop_carried in E.
  destruct r as [[]|e|]; unfold view; cbn; rewrite <- E; [|done..]. rewrite commit_ping_carried. by repeat case_match.
Qed.

Lemma steady_ping now : steady (Sender.maybe_send_ping now).
Proof.
  unfold Sender.maybe_send_ping. apply steady_bind; [done|intros c]. case_match; [done|].
  apply steady_bind; [apply steady_guard|intros _]. case_match; [done|]. cbv zeta.
  apply steady_bind; [apply steady_when; by apply steady_upd|intros _]. apply steady_bind; [done|intros c1].
  destruct (queued_ping c1); [apply steady_guard|]. case_match; [done|].
  apply steady_bind; [apply steady_when; by apply steady_upd|intros _]. apply steady_bind; [apply steady_guard|intros _].
  apply steady_bind; [done|intros c2]. apply steady_bind; [apply steady_guard|intros _].
  apply steady_bind; [by apply steady_upd|intros _]. apply steady_bind; [|intros; by apply steady_upd].
  apply steady_bind; [apply steady_lift|intros d]. apply steady_bind; [done|intros c3]. by apply steady_field.
Qed.
End Sending.
