(* ===== verification/RelayQueue.v ===== *)
(** The queues a server moves media through, src/server/mod.rs: ids of
    socket-less publishers, the bounded export buffer, and the fair merge of
    the frames of all publishers into one batch. *)
From S2P Require Import Prelude Bytes Types Delivery Session.

#[local] Set Warnings "-clear-no-such-hyp".

Module RelayQueue.

(** * External publishers *)

Definition EXTERNAL_PUBLISHER_ID_BIT : Z := 2 ^ 63.

(** [id & EXTERNAL_PUBLISHER_ID_BIT != 0]. *)
Definition is_external_publisher_id (id : Z) : bool := Z.testbit id 63.

Abbreviation Route := (bytes * bytes)%type.

(** [*seq = next.wrapping_add(1); if *seq == 0 { *seq = 1 }], and the id. *)
Definition allocate_external_publisher_id (routes : gmap Route Z) (seq : Z) (key : Route)
    : Z * gmap Route Z * Z :=
  match routes !! key with
  | Some id => (id, routes, seq)
  | None =>
      let next := if seq =? 0 then 1 else seq in
      let id := Z.lor EXTERNAL_PUBLISHER_ID_BIT (Z.land next (EXTERNAL_PUBLISHER_ID_BIT - 1)) in
      let seq := as_u64 (next + 1) in
      (id, <[key := id]> routes, if seq =? 0 then 1 else seq)
  end.

(** * The export buffer *)

Record RelayExportBuffer : Type := mkExport {
  ex_frames : list (RelayFrame * Delivery.DeliveryHint);
  ex_max_frames : Z;
  ex_max_bytes : Z;
  ex_bytes : Z;
}.
#[global] Instance eta_export : Eta RelayExportBuffer := λ b,
  mkExport (ex_frames b) (ex_max_frames b) (ex_max_bytes b) (ex_bytes b).

Module RelayExportBuffer.

Definition new (max_frames max_bytes : Z) : RelayExportBuffer := mkExport [] max_frames max_bytes 0.

Definition over (n_frames bytes frame_bytes max_frames max_bytes : Z) : bool :=
  (max_frames <=? n_frames) || (max_bytes <? saturating_add bytes frame_bytes).

(** [while !frames.is_empty() && (..) { frames.pop_front() .. }]. *)
Fixpoint drop_oldest (frames : list (RelayFrame * Delivery.DeliveryHint)) (bytes frame_bytes max_frames max_bytes : Z)
    : list (RelayFrame * Delivery.DeliveryHint) * Z :=
  match frames with
  | [] => ([], bytes)
  | (old, _) :: rest =>
      if over (zlen frames) bytes frame_bytes max_frames max_bytes
      then drop_oldest rest (saturating_sub bytes (retained_bytes old)) frame_bytes max_frames max_bytes
      else (frames, bytes)
  end.

Definition push_clone (frame : RelayFrame) (hint : Delivery.DeliveryHint) (b : RelayExportBuffer)
    : RelayExportBuffer :=
  if ex_max_frames b =? 0 then b else
  let frame_bytes := retained_bytes frame in
  if ex_max_bytes b <? frame_bytes then b <| ex_frames := [] |> <| ex_bytes := 0 |> else
  let '(frames, bytes) := drop_oldest (ex_frames b) (ex_bytes b) frame_bytes (ex_max_frames b) (ex_max_bytes b) in
  if over (zlen frames) bytes frame_bytes (ex_max_frames b) (ex_max_bytes b)
  then b <| ex_frames := frames |> <| ex_bytes := bytes |>
  else b <| ex_frames := frames ++ [(frame, hint)] |> <| ex_bytes := saturating_add bytes frame_bytes |>.

Definition drain (b : RelayExportBuffer) : list (RelayFrame * Delivery.DeliveryHint) * RelayExportBuffer :=
  (ex_frames b, b <| ex_frames := [] |> <| ex_bytes := 0 |>).

End RelayExportBuffer.

(** * Merging *)

Definition route_of (f : RelayFrame) : Route := (rf_app f, rf_stream_name f).

(** [route_order] and [by_route]. *)
Abbreviation grouped := (list Route * gmap Route (list RelayFrame))%type.

Definition push (g : grouped) (f : RelayFrame) : grouped :=
  let key := route_of f in
  (if decide (is_Some (snd g !! key)) then fst g else fst g ++ [key],
   <[key := default [] (snd g !! key) ++ [f]]> (snd g)).

(** [route_order.into_iter().filter_map(|k| by_route.remove(&k))]. *)
Fixpoint take_queues (order : list Route) (by_route : gmap Route (list RelayFrame)) : list (list RelayFrame) :=
  match order with
  | [] => []
  | k :: order =>
      match by_route !! k with
      | Some q => q :: take_queues order (delete k by_route)
      | None => take_queues order by_route
      end
  end.

Definition group (frames : list RelayFrame) : list (list RelayFrame) :=
  let g := foldl push ([], ∅) frames in take_queues (fst g) (snd g).

(** [if let Some(frame) = iters[j].next() { out.push(frame); progressed = true }]. *)
Definition visit (st : list (list RelayFrame) * list RelayFrame * bool) (j : nat)
    : list (list RelayFrame) * list RelayFrame * bool :=
  let '(iters, out, progressed) := st in
  match iters !! j with
  | Some (f :: q) => (<[j := q]> iters, out ++ [f], true)
  | _ => st
  end.

(** [loop { for i in 0..n { .. iters[(start + i) % n] .. } if !progressed { break } }];
    [rotate_nat_add start i n] is [(start + i) mod n]. *)
Fixpoint rounds (fuel n start : nat) (iters : list (list RelayFrame)) (out : list RelayFrame) : Res (list RelayFrame) :=
  match fuel with
  | O => Panic
  | S fuel =>
      let '(iters, out, progressed) := foldl visit (iters, out, false) ((λ i, rotate_nat_add start i n) <$> seq 0 n) in
      if progressed : bool then rounds fuel n start iters out else Ok out
  end.

Definition round_robin_relay_queues (queues : list (list RelayFrame)) (start : Z) : Res (list RelayFrame) :=
  match queues with
  | [] => Ok []
  | _ =>
      match group (concat queues) with
      | [] => Ok []
      | route_queues =>
          let n := length route_queues in
          rounds (S (length (concat route_queues))) n (Z.to_nat (start mod Z.of_nat n)) route_queues []
      end
  end.

Definition from_inject (q : list RelayFrame) : bool :=
  match q with f :: _ => is_external_publisher_id (rf_publisher_conn_id f) | [] => false end.

Fixpoint position {A} (p : A → bool) (l : list A) : option Z :=
  match l with
  | [] => None
  | x :: l => if p x then Some 0 else Z.succ <$> position p l
  end.

Definition merge_local_and_injected_by_route (local injected : list RelayFrame) (inject_first : bool)
    : Res (list RelayFrame) :=
  let route_queues := group (local ++ injected) in
  let start := if inject_first then default 0 (position from_inject route_queues) else 0 in
  round_robin_relay_queues route_queues start.

(** * What the merge computes *)

(** The [k]-th frame of every queue that has one. *)
Definition column (k : nat) (qs : list (list RelayFrame)) : list RelayFrame := omap (λ q, q !! k) qs.

(** The first [m] rounds. *)
Definition interleave (m : nat) (qs : list (list RelayFrame)) : list RelayFrame :=
  concat ((λ k, column k qs) <$> seq 0 m).

Definition on_route (key : Route) (frames : list RelayFrame) : list RelayFrame :=
  filter (λ f, route_of f = key) frames.

(** ** Grouping *)

Definition grouped_ok (g : grouped) (frames : list RelayFrame) : Prop :=
  NoDup (fst g) ∧ (∀ k, k ∈ fst g ↔ is_Some (snd g !! k)) ∧
  (∀ k, snd g !! k = if decide (on_route k frames = []) then None else Some (on_route k frames)).

Lemma on_route_app k fs gs : on_route k (fs ++ gs) = on_route k fs ++ on_route k gs.
Proof. apply filter_app. Qed.

Lemma on_route_one k f : on_route k [f] = if decide (route_of f = k) then [f] else [].
Proof. unfold on_route. rewrite filter_cons. by case_decide. Qed.

Lemma push_ok g frames f : grouped_ok g frames → grouped_ok (push g f) (frames ++ [f]).
Proof.
  intros (Hnd & Hdom & Hq). unfold push. split_and!; simpl.
  - destruct (decide (is_Some _)) as [|Hn]; [done|]. rewrite <- Hdom in Hn.
    apply NoDup_app. split_and!; [done| |apply NoDup_singleton].
    by intros k Hk ->%list_elem_of_singleton.
  - intros k. rewrite lookup_insert_is_Some'. destruct (decide (is_Some _)) as [Hs|Hn].
    + rewrite Hdom. split; [auto|]. by intros [<-|?].
    + rewrite elem_of_app, list_elem_of_singleton, Hdom. clear. intuition congruence.
  - intros k. rewrite on_route_app, on_route_one. destruct (decide (route_of f = k)) as [<-|Hne].
    + rewrite lookup_insert_eq, Hq. destruct (decide (on_route (route_of f) frames = [])) as [->|]; [done|].
      simpl. case_decide as He; [|done]. by apply app_eq_nil in He as [??].
    + by rewrite lookup_insert_ne, app_nil_r by done.
Qed.

Lemma pushes_ok frames : grouped_ok (foldl push ([], ∅) frames) frames.
Proof.
  induction frames as [|f frames IH] using rev_ind.
  - split_and!; simpl; [constructor|..]; intros k; rewrite ?lookup_empty; [|done].
    split; [set_solver|by intros [? ?]].
  - rewrite foldl_app. by apply push_ok.
Qed.

Lemma take_queues_fmap (order : list Route) (m : gmap Route (list RelayFrame)) (q : Route → list RelayFrame) :
  NoDup order → (∀ k, k ∈ order → m !! k = Some (q k)) → take_queues order m = q <$> order.
Proof.
  revert m. induction order as [|k order IH]; intros m Hnd Hm; [done|].
  apply NoDup_cons in Hnd as [Hk Hnd]. simpl. rewrite (Hm k) by set_solver. f_equal.
  apply IH; [done|]. intros k' Hk'. rewrite lookup_delete_ne by congruence. apply Hm. set_solver.
Qed.

Definition order_of (frames : list RelayFrame) : list Route := fst (foldl push ([], ∅) frames).

Lemma order_nodup frames : NoDup (order_of frames).
Proof. apply pushes_ok. Qed.

Lemma order_in frames k : k ∈ order_of frames ↔ on_route k frames ≠ [].
Proof.
  destruct (pushes_ok frames) as (_ & Hdom & Hq). unfold order_of. rewrite Hdom, Hq.
  case_decide as E; rewrite ?E; by split; try done; intros [? ?].
Qed.

(** The queues are the frames of each route, routes in order of appearance. *)
Lemma group_spec frames : group frames = (λ k, on_route k frames) <$> order_of frames.
Proof.
  destruct (pushes_ok frames) as (Hnd & Hdom & Hq). unfold group, order_of. set (g := foldl push _ _) in *.
  apply take_queues_fmap; [done|]. intros k Hk. apply Hdom in Hk as [q Hk]. rewrite Hk.
  rewrite Hq in Hk. by case_decide; simplify_eq.
Qed.

Lemma order_run q : ∀ g k, Forall (λ f, route_of f = k) q → is_Some (snd g !! k) → fst (foldl push g q) = fst g.
Proof.
  induction q as [|f q IH]; intros g k Hq Hs; [done|]. apply Forall_cons in Hq as [Hf Hq]. cbn [foldl].
  rewrite (IH _ k) by (done || (unfold push; simpl; rewrite Hf, lookup_insert_eq; eauto)).
  unfold push. simpl. by rewrite Hf, decide_True.
Qed.

Lemma on_route_all k frames : Forall (λ f, route_of f = k) (on_route k frames).
Proof. apply Forall_forall. intros f Hf. unfold on_route in Hf. by apply list_elem_of_filter in Hf as [? _]. Qed.

Lemma on_route_other k k' q : k' ≠ k → Forall (λ f, route_of f = k') q → on_route k q = [].
Proof.
  intros Hne Hq. induction Hq as [|f q Hf Hq IH]; [done|]. unfold on_route in *.
  by rewrite filter_cons, decide_False by congruence.
Qed.

Lemma on_route_queues k frames (order : list Route) : NoDup order →
  on_route k (concat ((λ k, on_route k frames) <$> order)) = if decide (k ∈ order) then on_route k frames else [].
Proof.
  induction order as [|k' order IH]; intros Hnd; [done|]. apply NoDup_cons in Hnd as [Hk Hnd].
  rewrite fmap_cons. cbn [concat]. rewrite on_route_app, IH by done.
  assert (on_route k (on_route k' frames) = if decide (k' = k) then on_route k frames else []) as ->.
  { destruct (decide (k' = k)) as [->|Hne].
    - unfold on_route. rewrite list_filter_filter. apply list_filter_iff. by intuition.
    - apply (on_route_other k k'); [done|apply on_route_all]. }
  destruct (decide (k' = k)) as [->|Hne]; simpl.
  - rewrite decide_False by done. by rewrite decide_True, app_nil_r by set_solver.
  - apply decide_ext. rewrite elem_of_cons. clear -Hne. intuition congruence.
Qed.

(** Queues that are grouped already stay in their order. *)
Lemma order_queues frames (order : list Route) : NoDup order → (∀ k, k ∈ order → on_route k frames ≠ []) →
  order_of (concat ((λ k, on_route k frames) <$> order)) = order.
Proof.
  induction order as [|k order IH] using rev_ind; intros Hnd Hne; [done|].
  apply NoDup_app in Hnd as (Hnd & Hk & _). rewrite fmap_app, concat_app. unfold order_of in *.
  rewrite foldl_app. specialize (IH Hnd (λ k' Hk', Hne k' (proj2 (elem_of_app _ _ k') (or_introl Hk')))).
  set (fs := concat _) in *. destruct (pushes_ok fs) as (_ & Hdom & _). set (g := foldl push _ _) in *.
  cbn [fmap list_fmap concat]. rewrite app_nil_r. pose proof (on_route_all k frames) as Hall.
  destruct (on_route k frames) as [|f q] eqn:E; [by destruct (Hne k); [set_solver|]|].
  apply Forall_cons in Hall as [Hf Hq]. cbn [foldl].
  rewrite (order_run _ _ k) by (done || (unfold push; simpl; rewrite Hf, lookup_insert_eq; eauto)).
  unfold push. cbn [fst]. rewrite Hf, IH, decide_False; [done|].
  rewrite <- Hdom, IH. intros ?. by apply (Hk k); [|set_solver].
Qed.

Lemma regroup_order frames : order_of (concat (group frames)) = order_of frames.
Proof. rewrite group_spec. apply order_queues; [apply order_nodup|]. intros k. apply order_in. Qed.

Lemma regroup_routes k frames : on_route k (concat (group frames)) = on_route k frames.
Proof.
  rewrite group_spec, on_route_queues by apply order_nodup. case_decide as Hk; [done|].
  rewrite order_in in Hk. by apply dec_stable in Hk.
Qed.

(** ** Rounds *)

Lemma visit_in iters out b j q : iters !! j = Some q →
  visit (iters, out, b) j = (<[j := tail q]> iters, out ++ option_list (head q), b || bool_decide (q ≠ [])).
Proof.
  intros E. unfold visit. rewrite E. destruct q as [|f q]; simpl.
  - by rewrite list_insert_id, app_nil_r, orb_false_r.
  - by rewrite orb_true_r.
Qed.

Lemma omap_ext_in {A B} (f g : A → option B) (l : list A) : (∀ x, x ∈ l → f x = g x) → omap f l = omap g l.
Proof.
  induction l as [|x l IH]; intros Hfg; [done|]. cbn [omap list_omap]. rewrite (Hfg x) by set_solver.
  by rewrite IH by set_solver.
Qed.

(** A round visits every queue once. *)
Lemma visits js : ∀ iters out b, NoDup js → Forall (λ j, j < length iters)%nat js →
  foldl visit (iters, out, b) js =
    (imap (λ j q, if decide (j ∈ js) then tail q else q) iters,
     out ++ omap (λ j, iters !! j ≫= head) js,
     b || bool_decide (omap (λ j, iters !! j ≫= head) js ≠ [])).
Proof.
  induction js as [|j js IH]; intros iters out b Hnd Hlt.
  - simpl. rewrite app_nil_r, orb_false_r. do 2 f_equal. apply list_eq. intros i.
    rewrite list_lookup_imap. by destruct (iters !! i).
  - apply NoDup_cons in Hnd as [Hj Hnd]. apply Forall_cons in Hlt as [Hl Hlt].
    destruct (lookup_lt_is_Some_2 _ _ Hl) as [q Eq]. cbn [foldl]. rewrite (visit_in _ _ _ _ _ Eq).
    rewrite IH by (done || (by rewrite length_insert)).
    assert (omap (λ j0, <[j := tail q]> iters !! j0 ≫= head) js = omap (λ j0, iters !! j0 ≫= head) js) as ->.
    { apply omap_ext_in. intros k Hk. by rewrite list_lookup_insert_ne by congruence. }
    cbn [omap list_omap]. rewrite Eq. simpl. f_equal; [f_equal|].
    + apply list_eq. intros i. rewrite !list_lookup_imap. destruct (decide (i = j)) as [->|Hne].
      * rewrite list_lookup_insert_eq, Eq by done. simpl. rewrite decide_False by done. by rewrite decide_True by set_solver.
      * rewrite list_lookup_insert_ne by done. destruct (iters !! i); simpl; [|done]. f_equal.
        apply decide_ext. rewrite elem_of_cons. clear -Hne. intuition.
    + destruct q; simpl; by rewrite <- ?app_assoc.
    + destruct q; simpl; by rewrite ?orb_false_r, ?orb_true_r, <- ?orb_assoc.
Qed.

Lemma omap_of_fmap {A B C} (f : B → option C) (g : A → B) (l : list A) : omap f (g <$> l) = omap (f ∘ g) l.
Proof. induction l as [|x l IH]; [done|]. simpl. destruct (f (g x)); [f_equal|]; apply IH. Qed.

Lemma omap_lookup_seq {A B} (g : A → option B) (l : list A) :
  omap (λ i, l !! i ≫= g) (seq 0 (length l)) = omap g l.
Proof.
  induction l as [|x l IH]; [done|]. cbn [length seq]. rewrite <- fmap_S_seq. cbn [omap list_omap].
  rewrite omap_of_fmap. unfold compose. simpl. by rewrite IH.
Qed.

Lemma column_rotate_0 iters start n : length iters = n → (start < n)%nat →
  omap (λ j, iters !! j ≫= head) ((λ i, rotate_nat_add start i n) <$> seq 0 n) = column 0 (rotate start iters).
Proof.
  intros Hn Hs. trans (omap (λ i, rotate start iters !! i ≫= head) (seq 0 n)).
  - rewrite omap_of_fmap. apply omap_ext_in. intros i Hi%elem_of_seq. unfold compose.
    by rewrite lookup_rotate_r, Hn by lia.
  - rewrite <- Hn, <- (length_rotate iters start), omap_lookup_seq. apply omap_ext_in. by intros [].
Qed.

Lemma rotate_indices start n : (start < n)%nat →
  NoDup ((λ i, rotate_nat_add start i n) <$> seq 0 n) ∧
  (∀ j, (j < n)%nat ↔ j ∈ (λ i, rotate_nat_add start i n) <$> seq 0 n).
Proof.
  intros Hs. split.
  - apply NoDup_fmap_2_strong; [|apply NoDup_seq]. intros i j Hi%elem_of_seq Hj%elem_of_seq E.
    apply (f_equal (λ k, rotate_nat_sub start k n)) in E. by rewrite !rotate_nat_sub_add in E by lia.
  - intros j. rewrite list_elem_of_fmap. split.
    + intros Hj. exists (rotate_nat_sub start j n). rewrite rotate_nat_add_sub, elem_of_seq by lia.
      pose proof (rotate_nat_sub_lt start j n). split; [done|lia].
    + intros (i & -> & Hi%elem_of_seq). apply rotate_nat_add_lt. lia.
Qed.

Lemma round_spec iters out start n : length iters = n → (start < n)%nat →
  foldl visit (iters, out, false) ((λ i, rotate_nat_add start i n) <$> seq 0 n) =
    (tail <$> iters, out ++ column 0 (rotate start iters), bool_decide (column 0 (rotate start iters) ≠ [])).
Proof.
  intros Hn Hs. destruct (rotate_indices start n Hs) as [Hnd Hin].
  rewrite visits; [|done|apply Forall_forall; intros j Hj; rewrite Hn; by apply Hin].
  rewrite column_rotate_0 by done. simpl. do 2 f_equal.
  apply list_eq. intros i. rewrite list_lookup_imap, list_lookup_fmap.
  destruct (iters !! i) as [q|] eqn:E; simpl; [|done]. rewrite decide_True; [done|].
  apply Hin. rewrite <- Hn. by eapply lookup_lt_Some.
Qed.

Lemma rotate_fmap {A B} (f : A → B) n l : rotate n (f <$> l) = f <$> rotate n l.
Proof. unfold rotate. by rewrite length_fmap, fmap_app, fmap_drop, fmap_take. Qed.

Lemma rotate_perm {A} n (l : list A) : rotate n l ≡ₚ l.
Proof. unfold rotate. rewrite Permutation_app_comm. by rewrite take_drop. Qed.

Lemma column_S k qs : column (S k) qs = column k (tail <$> qs).
Proof. unfold column. rewrite omap_of_fmap. apply omap_ext_in. intros q _. unfold compose. by rewrite lookup_tail. Qed.

Lemma interleave_S m qs : interleave (S m) qs = column 0 qs ++ interleave m (tail <$> qs).
Proof.
  unfold interleave. cbn [seq]. rewrite <- fmap_S_seq, fmap_cons. cbn [concat]. f_equal. f_equal.
  rewrite <- list_fmap_compose. apply list_fmap_ext. intros i k _. apply column_S.
Qed.

Lemma column_nil k qs : Forall (λ q, q = []) qs → column k qs = [].
Proof. intros H. induction H as [|q qs -> ? IH]; [done|]. exact IH. Qed.

Lemma interleave_nil m qs : Forall (λ q, q = []) qs → interleave m qs = [].
Proof.
  intros H. unfold interleave. induction (seq 0 m) as [|k ks IH]; [done|]. rewrite fmap_cons. cbn [concat]. by rewrite column_nil, IH.
Qed.

Lemma column_0_nil qs : column 0 qs = [] → Forall (λ q, q = []) qs.
Proof.
  induction qs as [|q qs IH]; intros E; [done|]. unfold column in *. destruct q as [|f q]; simpl in E; [|done].
  constructor; auto.
Qed.

Lemma concat_tail_length qs : length (concat qs) = (length (column 0 qs) + length (concat (tail <$> qs)))%nat.
Proof.
  induction qs as [|[|f q] qs IH]; [done|exact IH|].
  change (S (length (q ++ concat qs)) = (S (length (column 0 qs)) + length (q ++ concat (tail <$> qs)))%nat).
  rewrite !length_app. lia.
Qed.

Lemma column_rotate_length n qs : length (column 0 (rotate n qs)) = length (column 0 qs).
Proof. unfold column. by rewrite (rotate_perm n qs). Qed.

Lemma rounds_spec fuel : ∀ n start iters out m, length iters = n → (start < n)%nat →
  (length (concat iters) < fuel)%nat → Forall (λ q, length q <= m)%nat iters →
  rounds fuel n start iters out = Ok (out ++ interleave m (rotate start iters)).
Proof.
  induction fuel as [|fuel IH]; intros n start iters out m Hn Hs Hf Hm; [lia|]. cbn [rounds].
  rewrite round_spec by done. case_bool_decide as Hc.
  - assert (column 0 iters ≠ []) as Hc'.
    { intros E. apply Hc, length_zero_iff_nil. by rewrite column_rotate_length, E. }
    pose proof (concat_tail_length iters) as Hl. destruct m as [|m].
    { destruct Hc'. apply column_nil. eapply Forall_impl; [done|]. intros [|??]; simpl; [done|lia]. }
    erewrite (IH _ _ _ _ m); rewrite ?length_fmap; [|done|done| |].
    + by rewrite interleave_S, rotate_fmap, app_assoc.
    + destruct (column 0 iters); [done|simpl in Hl; lia].
    + apply Forall_fmap. eapply Forall_impl; [done|]. intros [|??]; simpl; lia.
  - rewrite interleave_nil, Hc by by apply column_0_nil. by rewrite app_nil_r.
Qed.

Lemma on_route_length k frames : (length (on_route k frames) <= length frames)%nat.
Proof. apply length_filter. Qed.

Lemma rotate_nil {A} n : rotate n (@nil A) = [].
Proof. unfold rotate. by rewrite drop_nil, take_nil. Qed.

Lemma rotate_wrap {A} start (l : list A) : 0 <= start →
  rotate (Z.to_nat (start mod Z.of_nat (length l))) l = rotate (Z.to_nat start) l.
Proof.
  intros Hs. destruct l as [|x l]; [by rewrite !rotate_nil|]. set (l' := x :: l) in *.
  assert (Z.of_nat (length l') ≠ 0) by (simpl; lia). unfold rotate.
  rewrite Z2Nat.inj_mod, Nat2Z.id, Nat.Div0.mod_mod by lia. done.
Qed.

(** Merging is the interleaving of the routes, some route leading. *)
Definition merged (frames : list RelayFrame) (start : Z) : list RelayFrame :=
  interleave (length frames) ((λ k, on_route k frames) <$> rotate (Z.to_nat start) (order_of frames)).

Lemma round_robin_spec queues start : 0 <= start →
  round_robin_relay_queues queues start = Ok (merged (concat queues) start).
Proof.
  intros Hs. unfold round_robin_relay_queues, merged.
  destruct queues as [|q queues]; [done|]. set (frames := concat (q :: queues)). clearbody frames.
  pose proof (group_spec frames) as Hg. destruct (group frames) as [|q0 iters] eqn:E.
  { symmetry in Hg. apply fmap_nil_inv in Hg. by rewrite Hg, rotate_nil, interleave_nil. }
  set (iters' := q0 :: iters) in *. rewrite (rounds_spec _ _ _ _ _ (length frames)); [| done | | lia |].
  - by rewrite rotate_wrap, Hg, rotate_fmap.
  - pose proof (Z.mod_pos_bound start (Z.of_nat (length iters'))). subst iters'. simpl in *. lia.
  - rewrite Hg. apply Forall_fmap, Forall_forall. intros k' _. apply on_route_length.
Qed.

(** ** What the merge keeps *)

Lemma on_route_column k i frames (order : list Route) : NoDup order →
  on_route k (column i ((λ k, on_route k frames) <$> order)) =
  if decide (k ∈ order) then option_list (on_route k frames !! i) else [].
Proof.
  induction order as [|k' order IH]; intros Hnd; [done|]. apply NoDup_cons in Hnd as [Hk Hnd].
  unfold column in *. rewrite fmap_cons. cbn [omap list_omap].
  assert (∀ f, on_route k' frames !! i = Some f → route_of f = k') as Hr.
  { intros f Hf%list_elem_of_lookup_2. unfold on_route in Hf. by apply list_elem_of_filter in Hf as [? _]. }
  trans (on_route k (option_list (on_route k' frames !! i)) ++
         if decide (k ∈ order) then option_list (on_route k frames !! i) else []).
  { rewrite <- IH by done. destruct (on_route k' frames !! i); [|done]. apply (on_route_app k [_]). }
  destruct (on_route k' frames !! i) as [f|] eqn:E.
  - change (option_list (Some f)) with [f]. rewrite on_route_one, (Hr f) by done. destruct (decide (k' = k)) as [->|Hne].
    + rewrite decide_False by done. rewrite decide_True by set_solver. by rewrite E.
    + apply decide_ext. rewrite elem_of_cons. clear -Hne. intuition congruence.
  - simpl. destruct (decide (k' = k)) as [->|Hne].
    + rewrite decide_False by done. rewrite decide_True by set_solver. by rewrite E.
    + apply decide_ext. rewrite elem_of_cons. clear -Hne. intuition congruence.
Qed.

Lemma concat_lookups {A} (l : list A) m : (length l <= m)%nat →
  concat ((λ i, option_list (l !! i)) <$> seq 0 m) = l.
Proof.
  revert m. induction l as [|x l IH]; intros m Hm.
  - induction (seq 0 m) as [|i js IHi]; [done|]. rewrite fmap_cons. exact IHi.
  - destruct m as [|m]; simpl in Hm; [lia|]. cbn [seq]. rewrite <- fmap_S_seq, fmap_cons, <- list_fmap_compose.
    change (x :: concat ((λ i, option_list (l !! i)) <$> seq 0 m) = x :: l). f_equal. apply IH. lia.
Qed.

Lemma on_route_interleave k m frames (order : list Route) : NoDup order →
  (∀ k, k ∈ order ↔ on_route k frames ≠ []) → (length frames <= m)%nat →
  on_route k (interleave m ((λ k, on_route k frames) <$> order)) = on_route k frames.
Proof.
  intros Hnd Hin Hm.
  trans (concat ((λ i, option_list (on_route k frames !! i)) <$> seq 0 m)).
  - unfold interleave. induction (seq 0 m) as [|i js IH]; [done|]. rewrite !fmap_cons. cbn [concat].
    rewrite on_route_app, IH, on_route_column by done. f_equal. case_decide as Hk; [done|].
    rewrite Hin in Hk. apply dec_stable in Hk. by rewrite Hk.
  - apply concat_lookups. pose proof (on_route_length k frames). lia.
Qed.

Lemma first_on_route k l f l1 : on_route k l = f :: l1 →
  ∃ a b, l = a ++ f :: b ∧ on_route k a = [] ∧ on_route k b = l1.
Proof.
  induction l as [|g l IH]; intros E; [done|]. unfold on_route in *. rewrite filter_cons in E.
  case_decide as Hg.
  - simplify_eq. by exists [], l.
  - destruct (IH E) as (a & b & -> & Ha & Hb). exists (g :: a), b. split_and!; [done| |done].
    by rewrite filter_cons, decide_False.
Qed.

(** The frames route by route determine them up to order. *)
Lemma routes_perm l : ∀ l', (∀ k, on_route k l = on_route k l') → l ≡ₚ l'.
Proof.
  induction l as [|f l IH]; intros l' Hk.
  - destruct l' as [|f l']; [done|]. specialize (Hk (route_of f)). unfold on_route in Hk.
    by rewrite filter_cons, decide_True in Hk.
  - pose proof (Hk (route_of f)) as Hf. unfold on_route in Hf at 1. rewrite filter_cons, decide_True in Hf by done.
    symmetry in Hf. apply first_on_route in Hf as (a & b & -> & Ha & Hb).
    rewrite <- Permutation_middle. constructor. apply IH. intros k. specialize (Hk k).
    rewrite on_route_app in *. change (f :: l) with ([f] ++ l) in Hk. change (f :: b) with ([f] ++ b) in Hk.
    rewrite !on_route_app, on_route_one in Hk. destruct (decide (route_of f = k)) as [<-|]; [|done].
    rewrite Ha, Hb. done.
Qed.

Lemma merged_routes frames start k : on_route k (merged frames start) = on_route k frames.
Proof.
  unfold merged. apply on_route_interleave; [| |done].
  - rewrite rotate_perm. apply order_nodup.
  - intros k'. rewrite elem_of_rotate. apply order_in.
Qed.

Lemma merged_perm frames start : merged frames start ≡ₚ frames.
Proof. apply routes_perm. intros k. apply merged_routes. Qed.

(** Merging depends only on the frames of each route and the route order. *)
Lemma merged_regroup frames start : merged (concat (group frames)) start = merged frames start.
Proof.
  unfold merged. rewrite regroup_order.
  assert (concat (group frames) ≡ₚ frames) as Hp by (apply routes_perm; intros; apply regroup_routes).
  rewrite (Permutation_length Hp). f_equal. apply list_fmap_ext. intros i k _. apply regroup_routes.
Qed.

Definition lead (frames : list RelayFrame) (inject_first : bool) : Z :=
  if inject_first then default 0 (position from_inject (group frames)) else 0.

Lemma position_bound {A} (p : A → bool) l i : position p l = Some i →
  0 <= i < zlen l ∧ ∃ x, l !! Z.to_nat i = Some x ∧ p x = true.
Proof.
  revert i. induction l as [|x l IH]; intros i E; [done|]. simpl in E. rewrite zlen_cons.
  pose proof (zlen_nonneg l). destruct (p x) eqn:Ex; simplify_eq.
  - split; [lia|by exists x].
  - destruct (position p l) as [j|]; simplify_eq/=. destruct (IH j eq_refl) as (Hj & y & Hy & Hp).
    split; [lia|]. exists y. replace (Z.to_nat (Z.succ j)) with (S (Z.to_nat j)) by lia. done.
Qed.

Lemma position_found {A} (p : A → bool) l x : x ∈ l → p x = true → ∃ i, position p l = Some i.
Proof.
  intros Hx Hp. induction Hx as [x l|x y l Hx IH]; simpl; [rewrite Hp; eauto|].
  destruct (p y); [eauto|]. destruct (IH Hp) as [i ->]. simpl. eauto.
Qed.

Lemma merge_spec local injected inject_first :
  merge_local_and_injected_by_route local injected inject_first =
    Ok (merged (local ++ injected) (lead (local ++ injected) inject_first)).
Proof.
  unfold merge_local_and_injected_by_route. fold (lead (local ++ injected) inject_first).
  rewrite round_robin_spec; [by rewrite merged_regroup|]. unfold lead. destruct inject_first; [|done].
  destruct (position _ _) as [i|] eqn:E; simpl; [|done]. apply position_bound in E as [? _]. lia.
Qed.

(** ** Fairness *)

(** A prefix of a concatenation ends inside one of its parts. *)
Lemma concat_prefix {A} (ls : list (list A)) : ∀ p rest, concat ls = p ++ rest →
  ∃ j p' rest', p = concat (take j ls) ++ p' ∧ (ls !! j = Some (p' ++ rest') ∨ p' = [] ∧ (length ls <= j)%nat).
Proof.
  induction ls as [|l ls IH]; intros p rest E.
  - exists 0%nat, [], []. symmetry in E. apply app_nil in E as [-> _]. split; [done|]. right. split; [done|]. simpl. lia.
  - simpl in E. destruct (decide (length p <= length l)%nat) as [Hl|Hl].
    + exists 0%nat, p, (drop (length p) l). split; [done|]. left. simpl. f_equal.
      rewrite <- (take_drop (length p) l) at 1. f_equal. apply (f_equal (take (length p))) in E.
      by rewrite take_app_le, take_app_length in E by done.
    + assert (p = l ++ drop (length l) p) as Ep.
      { rewrite <- (take_drop (length l) p) at 1. f_equal. apply (f_equal (take (length l))) in E.
        by rewrite take_app_length, take_app_le in E by lia. }
      rewrite Ep, <- app_assoc in E. apply app_inv_head in E. destruct (IH _ _ E) as (j & p' & rest' & E1 & H).
      exists (S j), p', rest'. split.
      * rewrite Ep, E1. cbn [take concat]. by rewrite app_assoc.
      * simpl. destruct H as [H|[-> H]]; [by left|right; split; [done|lia]].
Qed.

Lemma concat_lookups_take {A} (l : list A) j : concat ((λ i, option_list (l !! i)) <$> seq 0 j) = take j l.
Proof.
  induction j as [|j IH]; [done|]. rewrite seq_S, fmap_app, concat_app, IH. simpl. rewrite app_nil_r.
  destruct (l !! j) as [x|] eqn:E; simpl.
  - by rewrite (take_S_r _ _ x).
  - apply lookup_ge_None in E. by rewrite app_nil_r, !take_ge by lia.
Qed.

(** After any part of a merged batch, each route has sent its first [j] frames,
    and perhaps one more. *)
Lemma merged_prefix frames start p rest : merged frames start = p ++ rest →
  ∃ j, ∀ k, on_route k p = take j (on_route k frames) ∨ on_route k p = take (S j) (on_route k frames).
Proof.
  intros E. unfold merged, interleave in E. set (order := rotate (Z.to_nat start) (order_of frames)) in *.
  assert (NoDup order) as Hnd by (unfold order; rewrite rotate_perm; apply order_nodup).
  assert (∀ k, k ∈ order ↔ on_route k frames ≠ []) as Hin.
  { intros k. unfold order. rewrite elem_of_rotate. apply order_in. }
  set (qs := (λ k, on_route k frames) <$> order) in *.
  assert (∀ k i, on_route k (column i qs) = option_list (on_route k frames !! i)) as Hcol.
  { intros k i. unfold qs. rewrite on_route_column by done. case_decide as Hk; [done|].
    rewrite Hin in Hk. apply dec_stable in Hk. by rewrite Hk. }
  assert (∀ k js, on_route k (concat ((λ i, column i qs) <$> js)) = concat ((λ i, option_list (on_route k frames !! i)) <$> js)) as Hcols.
  { intros k js. induction js as [|i js IH]; [done|]. rewrite !fmap_cons. cbn [concat]. by rewrite on_route_app, IH, Hcol. }
  destruct (concat_prefix _ _ _ E) as (j & p' & rest' & -> & H). rewrite <- fmap_take.
  destruct H as [H|[-> H]].
  - apply list_lookup_fmap_Some in H as (i & Hp & Hi). apply lookup_seq in Hi as [-> Hi]. rewrite take_seq, Nat.min_l by lia.
    exists j. intros k. rewrite on_route_app, Hcols, concat_lookups_take. simpl in Hp.
    pose proof (Hcol k j) as Hk. rewrite <- Hp, on_route_app in Hk.
    destruct (on_route k frames !! j) as [f|] eqn:Ef; simpl in Hk.
    + destruct (on_route k p') as [|g l]; [left; by rewrite app_nil_r|right].
      rewrite (take_S_r _ _ f) by done. injection Hk as -> Hn. apply app_nil in Hn as [-> _]. done.
    + apply app_nil in Hk as [-> _]. left. by rewrite app_nil_r.
  - exists j. intros k. left. rewrite app_nil_r, Hcols. rewrite length_fmap, length_seq in H.
    rewrite take_ge by (rewrite length_seq; lia). rewrite concat_lookups_take.
    pose proof (on_route_length k frames). by rewrite !take_ge by lia.
Qed.

(** The leading frame is the first of the leading route. *)
Lemma merged_head frames start k : order_of frames !! Z.to_nat start = Some k →
  head (merged frames start) = head (on_route k frames).
Proof.
  intros Hk. unfold merged. pose proof (lookup_lt_Some _ _ _ Hk) as Hl.
  assert (rotate (Z.to_nat start) (order_of frames) !! 0%nat = Some k) as Hr.
  { rewrite lookup_rotate_r by lia. by rewrite rotate_nat_add_0, Hk. }
  destruct (rotate (Z.to_nat start) (order_of frames)) as [|k' order]; [done|]. simpl in Hr. simplify_eq.
  assert (on_route k frames ≠ []) as Hne by (apply order_in; by eapply list_elem_of_lookup_2).
  destruct (on_route k frames) as [|f q] eqn:Eq; [done|].
  destruct (length frames) as [|m] eqn:Em.
  { pose proof (on_route_length k frames) as Hn. rewrite Eq, Em in Hn. simpl in Hn. lia. }
  rewrite interleave_S. unfold column. rewrite fmap_cons. cbn [omap list_omap]. by rewrite Eq.
Qed.

(** * What the export buffer holds *)

Section export.
Context (max_frames max_bytes : Z).
Hypothesis max_frames_ok : 0 ≤ max_frames.
Hypothesis max_bytes_ok : 0 ≤ max_bytes < USIZE_MAX.

#[local] Abbreviation Exported := (RelayFrame * Delivery.DeliveryHint)%type.

Definition total_bytes (l : list Exported) : Z := sumZ (λ e, retained_bytes (fst e)) l.
Definition fits (l : list Exported) : bool := (zlen l <=? max_frames) && (total_bytes l <=? max_bytes).

(** The longest suffix within both limits. *)
Fixpoint newest (l : list Exported) : list Exported :=
  match l with
  | [] => []
  | x :: rest => if fits l then l else newest rest
  end.

Lemma total_nonneg l : 0 ≤ total_bytes l.
Proof. induction l as [|[f h] l IH]; unfold total_bytes in *; simpl; [done|]. pose proof (retained_nonneg f). lia. Qed.

Lemma total_snoc l f h : total_bytes (l ++ [(f, h)]) = total_bytes l + retained_bytes f.
Proof. unfold total_bytes. rewrite sumZ_app. simpl. lia. Qed.

Lemma fits_suffix x l : fits (x :: l) = true → fits l = true.
Proof.
  unfold fits. rewrite !andb_true_iff, !Z.leb_le, zlen_cons. pose proof (retained_nonneg (fst x)).
  unfold total_bytes. simpl. pose proof (zlen_nonneg l). lia.
Qed.

Lemma newest_fits l : fits (newest l) = true.
Proof.
  induction l as [|x l IH]; simpl; [|by case_match].
  apply andb_true_iff. change (zlen (@nil Exported)) with 0. change (total_bytes []) with 0. lia.
Qed.

Lemma newest_cons x l : newest (x :: l) = if fits (x :: l) then x :: l else newest l.
Proof. done. Qed.

Lemma newest_id l : fits l = true → newest l = l.
Proof. destruct l; simpl; [done|]. by intros ->. Qed.

(** Adding a frame at the end keeps the suffix of a suffix. *)
Lemma newest_snoc l y : newest (l ++ [y]) = newest (newest l ++ [y]).
Proof.
  induction l as [|x l IH]; [done|]. simpl. destruct (fits (x :: l)) eqn:E; [done|].
  rewrite <- IH. destruct (fits (x :: l ++ [y])) eqn:E'; [|done].
  assert (fits (x :: l) = true); [|congruence]. unfold fits in *.
  rewrite !andb_true_iff, !Z.leb_le, !zlen_cons, ?zlen_app in *. unfold total_bytes in *. simpl in *.
  rewrite sumZ_app in *. simpl in *. destruct y as [f h]. pose proof (retained_nonneg f). simpl in *.
  change (zlen [(f, h)]) with 1 in *. lia.
Qed.

Lemma drop_oldest_newest f h l : total_bytes l ≤ max_bytes → retained_bytes f ≤ max_bytes → 0 < max_frames →
  ∃ l', RelayExportBuffer.drop_oldest l (total_bytes l) (retained_bytes f) max_frames max_bytes = (l', total_bytes l')
    ∧ newest (l ++ [(f, h)]) = l' ++ [(f, h)] ∧ fits (l' ++ [(f, h)]) = true.
Proof.
  intros Hl Hf Hm. pose proof (retained_nonneg f). induction l as [|[g hg] l IH].
  - exists []. assert (fits [(f, h)] = true) as E.
    { unfold fits, total_bytes. simpl. change (zlen [(f, h)]) with 1. lia. }
    split_and!; [done|by apply (newest_id [_])|done].
  - pose proof (retained_nonneg g). assert (total_bytes ((g, hg) :: l) = retained_bytes g + total_bytes l) as Et by done.
    pose proof (total_nonneg l). cbn [RelayExportBuffer.drop_oldest].
    assert (fits (((g, hg) :: l) ++ [(f, h)]) = negb (RelayExportBuffer.over (zlen ((g, hg) :: l))
      (total_bytes ((g, hg) :: l)) (retained_bytes f) max_frames max_bytes)) as Eo.
    { unfold fits, RelayExportBuffer.over. rewrite total_snoc, zlen_app. change (zlen [(f, h)]) with 1.
      unfold saturating_add. destruct (Z.leb_spec max_frames (zlen ((g, hg) :: l))), (Z.ltb_spec max_bytes
        (USIZE_MAX `min` (total_bytes ((g, hg) :: l) + retained_bytes f))); simpl; lia. }
    destruct (RelayExportBuffer.over _ _ _ _ _).
    + replace (saturating_sub (total_bytes ((g, hg) :: l)) (retained_bytes g)) with (total_bytes l)
        by (unfold saturating_sub; lia).
      destruct IH as (l' & E & En & Ef); [lia|]. exists l'. split_and!; [done| |done].
      change (((g, hg) :: l) ++ [(f, h)]) with ((g, hg) :: (l ++ [(f, h)])) in *. by rewrite newest_cons, Eo.
    + exists ((g, hg) :: l). split_and!; [done| |done]. by apply newest_id.
Qed.

Definition exports (l : list Exported) : RelayExportBuffer :=
  foldl (λ b e, RelayExportBuffer.push_clone (fst e) (snd e) b) (RelayExportBuffer.new max_frames max_bytes) l.

Lemma exports_spec l : exports l = mkExport (newest l) max_frames max_bytes (total_bytes (newest l)).
Proof.
  induction l as [|[f h] l IH] using rev_ind; [done|]. unfold exports in *. rewrite foldl_app, IH. cbn [foldl fst snd].
  rewrite newest_snoc. pose proof (newest_fits l) as Hfit. set (k := newest l) in *. clearbody k. clear IH l.
  unfold RelayExportBuffer.push_clone. cbn [ex_max_frames ex_max_bytes ex_frames ex_bytes].
  pose proof (total_nonneg k). pose proof (zlen_nonneg k). unfold fits in Hfit. pose proof (retained_nonneg f).
  destruct (Z.eqb_spec max_frames 0) as [E|E].
  { assert (k = []) as -> by (destruct k; [done|rewrite zlen_cons in *; pose proof (zlen_nonneg k); lia]).
    change ([] ++ [(f, h)]) with [(f, h)]. rewrite newest_cons. unfold fits. change (zlen [(f, h)]) with 1. by rewrite (proj2 (Z.leb_gt 1 max_frames)) by lia. }
  destruct (Z.ltb_spec max_bytes (retained_bytes f)).
  { assert (∀ l, newest (l ++ [(f, h)]) = []) as ->; [|done].
    assert (∀ l, fits (l ++ [(f, h)]) = false) as Hno.
    { intros l. unfold fits. rewrite total_snoc. pose proof (total_nonneg l). lia. }
    intros l. induction l as [|x l IH].
    - change ([] ++ [(f, h)]) with [(f, h)]. rewrite newest_cons. by rewrite (Hno [] : fits [(f, h)] = false).
    - change ((x :: l) ++ [(f, h)]) with (x :: (l ++ [(f, h)])). rewrite newest_cons.
      by rewrite (Hno (x :: l) : fits (x :: (l ++ [(f, h)])) = false). }
  destruct (drop_oldest_newest f h k) as (l' & -> & -> & Hf'); [lia..|].
  rewrite total_snoc. unfold fits in Hf'. rewrite total_snoc, zlen_app in Hf'. change (zlen [(f, h)]) with 1 in Hf'.
  pose proof (total_nonneg l').
  assert (RelayExportBuffer.over (zlen l') (total_bytes l') (retained_bytes f) max_frames max_bytes = false) as ->.
  { unfold RelayExportBuffer.over, saturating_add. lia. }
  unfold set_field, eta_export. simpl. f_equal. unfold saturating_add. lia.
Qed.

Lemma newest_suffix l : ∃ lost, l = lost ++ newest l.
Proof.
  induction l as [|x l [lost IH]]; [by exists []|]. rewrite newest_cons.
  destruct (fits (x :: l)); [by exists []|]. exists (x :: lost). simpl. by rewrite <- IH.
Qed.

Lemma newest_longest l k1 k2 : l = k1 ++ k2 → fits k2 = true → (length k2 <= length (newest l))%nat.
Proof.
  revert k1. induction l as [|x l IH]; intros k1 E Hf.
  - symmetry in E. by apply app_nil in E as [-> ->].
  - rewrite newest_cons. destruct (fits (x :: l)) eqn:Ef; [rewrite E, length_app; lia|].
    destruct k1 as [|y k1]; simplify_eq/=; [congruence|]. by eapply IH.
Qed.
End export.

(** The export ring keeps the newest frames: whatever was pushed, a drain
    returns, in order and each with its hint, the longest run of the latest
    frames that is within the frame limit and the byte limit, and leaves the
    ring as new. *)
Theorem export_keeps_newest max_frames max_bytes l : 0 ≤ max_frames → 0 ≤ max_bytes < USIZE_MAX →
  ∃ lost kept, l = lost ++ kept
    ∧ RelayExportBuffer.drain (exports max_frames max_bytes l) = (kept, RelayExportBuffer.new max_frames max_bytes)
    ∧ zlen kept ≤ max_frames ∧ sumZ (λ e, retained_bytes (fst e)) kept ≤ max_bytes
    ∧ ∀ older latest, l = older ++ latest → zlen latest ≤ max_frames →
        sumZ (λ e, retained_bytes (fst e)) latest ≤ max_bytes → zlen latest ≤ zlen kept.
Proof.
  intros Hf Hb. destruct (newest_suffix max_frames max_bytes l) as [lost El].
  pose proof (newest_fits max_frames max_bytes Hf Hb l) as Hn. unfold fits in Hn.
  exists lost, (newest max_frames max_bytes l). split; [exact El|]. rewrite exports_spec by done. split; [done|].
  unfold total_bytes in Hn. split; [lia|]. split; [lia|]. intros older latest E H1 H2.
  pose proof (newest_longest max_frames max_bytes l older latest E) as H. unfold fits, total_bytes in H.
  rewrite (proj2 (Z.leb_le _ _) H1), (proj2 (Z.leb_le _ _) H2) in H. specialize (H eq_refl). unfold zlen. lia.
Qed.

Lemma export_keeps_newest_witness : ∃ lost kept,
  (λ ts, (mkRelayFrame Audio ts [175; 1; 2] None (text "live") (text "cam") 3, Delivery.Droppable)) <$> [10; 20; 30]
    = lost ++ kept ∧ zlen kept = 2.
Proof.
  set (l := (λ ts, (mkRelayFrame Audio ts [175; 1; 2] None (text "live") (text "cam") 3, Delivery.Droppable)) <$> [10; 20; 30]).
  destruct (export_keeps_newest 5 20 l) as (lost & kept & E & Ed & _ & _ & Hmax); [done|done|].
  exists lost, kept. split; [exact E|]. assert (kept = drop 1 l) as ->; [|done].
  apply (f_equal fst) in Ed. symmetry. etrans; [|exact Ed]. vm_compute. reflexivity.
Defined.
End RelayQueue.
