(* ===== verification/StreamCache.v ===== *)
(** The init cache of a server, src/server/mod.rs: the codec headers, metadata
    and last keyframe of each route, replayed to players that join late, and
    which publisher each entry is kept for. *)
From S2P Require Import Prelude Bytes Types Modex Multitrack InitCache ColorInfo Session RelayQueue.

Module Cache.
Import RelayQueue.

Definition MAX_STREAM_CACHE_ENTRIES : Z := 1024.
Definition MAX_STREAM_CACHE_KEYS_PER_PUBLISHER : Z := 64.
Definition MAX_CACHED_INIT_FRAME_BYTES : Z := 64 * 1024.
Definition MAX_CACHED_KEYFRAME_BYTES : Z := 2 * 1024 * 1024.

(** * State *)

Record StreamCache : Type := mkStreamCache {
  avc_header : option bytes;
  video_track_headers : gmap Z bytes;
  aac_header : option bytes;
  audio_track_headers : gmap Z bytes;
  metadata : option bytes;
  last_keyframe : option (Z * bytes);
}.
#[global] Instance eta_stream_cache : Eta StreamCache := λ c,
  mkStreamCache (avc_header c) (video_track_headers c) (aac_header c) (audio_track_headers c)
    (metadata c) (last_keyframe c).

Definition empty_stream_cache : StreamCache := mkStreamCache None ∅ None ∅ None None.

(** The two maps of the server, and its limit on the bytes of the first. *)
Record Caches : Type := mkCaches {
  stream_cache : gmap Route StreamCache;
  publisher_cache_keys : gmap Z (list Route);
  max_cache_bytes : Z;
}.
#[global] Instance eta_caches : Eta Caches := λ s,
  mkCaches (stream_cache s) (publisher_cache_keys s) (max_cache_bytes s).

(** * Sizes

    A sum of lengths of live allocations does not reach [usize::MAX]. *)

Definition opt_len (o : option bytes) : Z := from_option zlen 0 o.
Definition tracks_len : gmap Z bytes → Z := msum (λ _ v, zlen v).
Definition keyframe_len (o : option (Z * bytes)) : Z := from_option (zlen ∘ snd) 0 o.

Definition key_bytes (key : Route) : Z := saturating_add (zlen (fst key)) (zlen (snd key)).

Definition stream_cache_entry_bytes (key : Route) (c : StreamCache) : Z :=
  saturating_add (saturating_add (saturating_add (saturating_add (saturating_add (saturating_add
    (key_bytes key)
    (opt_len (avc_header c))) (tracks_len (video_track_headers c)))
    (opt_len (aac_header c))) (tracks_len (audio_track_headers c)))
    (opt_len (metadata c))) (keyframe_len (last_keyframe c)).

Definition stream_cache_bytes : gmap Route StreamCache → Z := msum stream_cache_entry_bytes.

Definition stream_cache_is_empty (c : StreamCache) : bool :=
  bool_decide (avc_header c = None) && bool_decide (video_track_headers c = ∅)
  && bool_decide (aac_header c = None) && bool_decide (audio_track_headers c = ∅)
  && bool_decide (metadata c = None) && bool_decide (last_keyframe c = None).

(** * Owners *)

Definition track_publisher_cache_key (publisher : Z) (key : Route) (keys : gmap Z (list Route)) : gmap Z (list Route) :=
  let publisher_keys := default [] (keys !! publisher) in
  <[publisher := if decide (key ∈ publisher_keys) then publisher_keys else publisher_keys ++ [key]]> keys.

(** [publisher_cache_keys.values().any(|v| v.contains(&key))]. *)
Definition still_owned (keys : gmap Z (list Route)) (key : Route) : bool :=
  bool_decide (map_Exists (λ _ tracked, key ∈ tracked) keys).

Definition cache_key_co_tracked (s : Caches) (publisher : Z) (key : Route) : bool :=
  bool_decide (map_Exists (λ id tracked, id ≠ publisher ∧ key ∈ tracked) (publisher_cache_keys s)).

Definition publisher_cache_key_count (s : Caches) (publisher : Z) : Z :=
  zlen (default [] (publisher_cache_keys s !! publisher)).

Definition without (key : Route) (tracked : list Route) : list Route := List.filter (λ k, bool_decide (k ≠ key)) tracked.

Definition evict_stream_cache_key (key : Route) (s : Caches) : Caches :=
  s <| stream_cache := delete key (stream_cache s) |>
    <| publisher_cache_keys :=
         filter (λ kv : Z * list Route, kv.2 ≠ []) (without key <$> publisher_cache_keys s) |>.

(** Forgetting the keys of a publisher that is gone: an entry goes when no
    other publisher tracks it. *)
Definition drop_unowned (keys : list Route) (s : Caches) : Caches :=
  foldl (λ s key, if still_owned (publisher_cache_keys s) key then s
                  else s <| stream_cache := delete key (stream_cache s) |>) s keys.
Definition forget_publisher (publisher : Z) (s : Caches) : Caches :=
  match publisher_cache_keys s !! publisher with
  | Some keys => drop_unowned keys (s <| publisher_cache_keys := delete publisher (publisher_cache_keys s) |>)
  | None => s
  end.

(** A publisher that abandons a route, in [drain_pending_cache_evictions]. *)
Definition abandon (publisher : Z) (key : Route) (s : Caches) : Caches :=
  match publisher_cache_keys s !! publisher with
  | Some keys =>
      if decide (key ∈ keys) then
        let s := s <| publisher_cache_keys :=
          match without key keys with
          | [] => delete publisher (publisher_cache_keys s)
          | keys => <[publisher := keys]> (publisher_cache_keys s)
          end |> in
        if still_owned (publisher_cache_keys s) key then s
        else s <| stream_cache := delete key (stream_cache s) |>
      else s
  | None => s
  end.

Section eviction.
(** The order in which a [HashMap] is iterated. *)
Context (iter : gmap Z (list Route) → list (Z * list Route)).

(** * Eviction under pressure *)

Definition evictable (s : Caches) (publisher : Z) (except_key key : Route) : bool :=
  bool_decide (key ≠ except_key) && negb (cache_key_co_tracked s publisher key).

Definition evict_stream_cache_for_publisher (publisher : Z) (except_key : Route) (s : Caches) : bool * Caches :=
  match List.find (evictable s publisher except_key) (default [] (publisher_cache_keys s !! publisher)) with
  | Some key => (true, evict_stream_cache_key key s)
  | None => (false, s)
  end.

Fixpoint external_victim (s : Caches) (except_key : Route) (l : list (Z * list Route)) : option Route :=
  match l with
  | [] => None
  | (id, keys) :: l =>
      if negb (is_external_publisher_id id) then external_victim s except_key l else
      match List.find (evictable s id except_key) keys with
      | Some key => Some key
      | None => external_victim s except_key l
      end
  end.

Definition evict_any_external_stream_cache (except_key : Route) (s : Caches) : bool * Caches :=
  match external_victim s except_key (iter (publisher_cache_keys s)) with
  | Some key => (true, evict_stream_cache_key key s)
  | None => (false, s)
  end.

Definition evict_for_stream_cache_pressure (publisher : Z) (except_key : Route) (s : Caches) : bool * Caches :=
  match evict_stream_cache_for_publisher publisher except_key s with
  | (true, s) => (true, s)
  | (false, s) => evict_any_external_stream_cache except_key s
  end.

Definition stream_cache_freeable_bytes (s : Caches) (key : Route) (publisher : Z) : Z :=
  stream_cache_bytes (filter (λ kv : Route * StreamCache, kv.1 ≠ key
    ∧ cache_key_co_tracked s publisher kv.1 = false
    ∧ map_Exists (λ id tracked, kv.1 ∈ tracked ∧ (id = publisher ∨ is_external_publisher_id id = true))
        (publisher_cache_keys s)) (stream_cache s)).

(** * Reserving room *)

(** The bytes after [key]'s field of [existing] bytes becomes [incoming] bytes. *)
Definition projected (s : Caches) (key : Route) (incoming existing : Z) : Z :=
  let add_key_bytes := if decide (is_Some (stream_cache s !! key)) then 0 else key_bytes key in
  saturating_sub (saturating_add (saturating_add (stream_cache_bytes (stream_cache s)) incoming) add_key_bytes) existing.

(** [while projected_total > max_cache_bytes && self.evict_for_stream_cache_pressure(..)]. *)
Fixpoint make_room (fuel : nat) (key : Route) (incoming existing publisher total : Z) (s : Caches) : Res bool * Caches :=
  if max_cache_bytes s <? total then
    match fuel with
    | O => (Panic, s)
    | S fuel =>
        match evict_for_stream_cache_pressure publisher key s with
        | (true, s) => make_room fuel key incoming existing publisher (projected s key incoming existing) s
        | (false, s) => (Ok false, s)
        end
    end
  else (Ok true, s).

(** Each eviction leaves fewer keys tracked. *)
Definition tracked_keys (m : gmap Z (list Route)) : nat := Z.to_nat (msum (λ _ keys, zlen keys) m).

Definition reserve_stream_cache_storage (key : Route) (incoming existing publisher : Z) : ST Caches bool := λ s,
  let is_new_key := bool_decide (stream_cache s !! key = None) in
  let irreducible :=
    match stream_cache s !! key with
    | Some c => saturating_add (saturating_sub (stream_cache_entry_bytes key c) existing) incoming
    | None => saturating_add incoming (key_bytes key)
    end in
  if max_cache_bytes s <? irreducible then (Ok false, s) else
  let total := projected s key incoming existing in
  if (max_cache_bytes s <? total)
     && (max_cache_bytes s <? saturating_sub total (stream_cache_freeable_bytes s key publisher))
  then (Ok false, s) else
  let own_cap := is_new_key && (MAX_STREAM_CACHE_KEYS_PER_PUBLISHER <=? publisher_cache_key_count s publisher) in
  let '(room, s, total) :=
    if own_cap then
      let '(evicted, s) := evict_stream_cache_for_publisher publisher key s in
      (evicted, s, projected s key incoming existing)
    else (true, s, total) in
  if negb room then (Ok false, s) else
  let entry_cap := (MAX_STREAM_CACHE_ENTRIES <=? Z.of_nat (base.size (stream_cache s))) && is_new_key in
  let '(room, s, total) :=
    if entry_cap then
      let '(evicted, s) := evict_for_stream_cache_pressure publisher key s in
      (evicted, s, projected s key incoming existing)
    else (true, s, total) in
  if negb room then (Ok false, s) else
  make_room (S (tracked_keys (publisher_cache_keys s))) key incoming existing publisher total s.

(** * Caching a frame *)

Definition multitrack_sequence_track_ids (frame_type : FrameType) (payload : bytes) : Res (list Z) :=
  if Multitrack.is_multitrack_container frame_type payload then
    '(_, tracks) ← Multitrack.foreach_track frame_type payload;
    Ok (Multitrack.t_track_id <$> List.filter (λ t, Multitrack.t_packet_type t =? 0) tracks)
  else Ok [].

(** A sequence header for one track of several is kept in the track's slot and
    replaces a combined header; any other is the combined header. *)
Definition set_header (seq_tracks : list Z) (payload : bytes) (tracks : gmap Z bytes) : option bytes * gmap Z bytes :=
  match seq_tracks with
  | [track_id] => (None, <[track_id := payload]> tracks)
  | _ => (Some payload, ∅)
  end.
Definition clear_header (seq_tracks : list Z) (tracks : gmap Z bytes) : gmap Z bytes :=
  match seq_tracks with [track_id] => delete track_id tracks | _ => ∅ end.
Definition replaced_len (seq_tracks : list Z) (combined : option bytes) (tracks : gmap Z bytes) : Z :=
  match seq_tracks with
  | [track_id] => saturating_add (opt_len combined) (opt_len (tracks !! track_id))
  | _ => saturating_add (opt_len combined) (tracks_len tracks)
  end.

Definition video_header_unchanged (c : StreamCache) (seq_tracks : list Z) (payload : bytes) : bool :=
  match seq_tracks with
  | [track_id] => bool_decide (avc_header c = None) && bool_decide (video_track_headers c !! track_id = Some payload)
  | _ => bool_decide (avc_header c = Some payload) && bool_decide (video_track_headers c = ∅)
  end.

Definition stale_keyframe_len (c : StreamCache) (seq_tracks : list Z) (payload : bytes) : Z :=
  if video_header_unchanged c seq_tracks payload then 0 else keyframe_len (last_keyframe c).

(** What kind of frame is stored, with the tracks a sequence header is for. *)
Inductive Slot : Type :=
  | MetadataSlot
  | VideoHeaderSlot (seq_tracks : list Z)
  | AudioHeaderSlot (seq_tracks : list Z)
  | KeyframeSlot.

(** The previously cached copy is dropped when the new one is too large. *)
Definition clear_slot (slot : Slot) (c : StreamCache) : StreamCache :=
  match slot with
  | VideoHeaderSlot seq_tracks =>
      c <| last_keyframe := None |> <| avc_header := None |>
        <| video_track_headers := clear_header seq_tracks (video_track_headers c) |>
  | KeyframeSlot => c <| last_keyframe := None |>
  | AudioHeaderSlot seq_tracks =>
      c <| aac_header := None |> <| audio_track_headers := clear_header seq_tracks (audio_track_headers c) |>
  | MetadataSlot => c
  end.

Definition existing_field_len (slot : Slot) (payload : bytes) (c : StreamCache) : Z :=
  match slot with
  | MetadataSlot => opt_len (metadata c)
  | VideoHeaderSlot seq_tracks =>
      saturating_add (replaced_len seq_tracks (avc_header c) (video_track_headers c))
        (stale_keyframe_len c seq_tracks payload)
  | KeyframeSlot => keyframe_len (last_keyframe c)
  | AudioHeaderSlot seq_tracks => replaced_len seq_tracks (aac_header c) (audio_track_headers c)
  end.

Definition store_slot (slot : Slot) (timestamp : Z) (payload : bytes) (c : StreamCache) : StreamCache :=
  match slot with
  | MetadataSlot => c <| metadata := Some payload |>
  | VideoHeaderSlot seq_tracks =>
      let c := if video_header_unchanged c seq_tracks payload then c else c <| last_keyframe := None |> in
      let '(header, tracks) := set_header seq_tracks payload (video_track_headers c) in
      c <| avc_header := header |> <| video_track_headers := tracks |>
  | KeyframeSlot => c <| last_keyframe := Some (timestamp, payload) |>
  | AudioHeaderSlot seq_tracks =>
      let '(header, tracks) := set_header seq_tracks payload (audio_track_headers c) in
      c <| aac_header := header |> <| audio_track_headers := tracks |>
  end.

(** Reserve, track and store. *)
Definition store (slot : Slot) (f : RelayFrame) : ST Caches unit := λ s,
  let key := route_of f in
  let existing := from_option (existing_field_len slot (rf_payload f)) 0 (stream_cache s !! key) in
  match reserve_stream_cache_storage key (zlen (rf_payload f)) existing (rf_publisher_conn_id f) s with
  | (Ok true, s) =>
      (Ok tt, s <| publisher_cache_keys :=
                     track_publisher_cache_key (rf_publisher_conn_id f) key (publisher_cache_keys s) |>
                <| stream_cache :=
                     <[key := store_slot slot (rf_timestamp f) (rf_payload f)
                                (default empty_stream_cache (stream_cache s !! key))]> (stream_cache s) |>)
  | (Ok false, s) => (Ok tt, s)
  | (Err e, s) => (Err e, s)
  | (Panic, s) => (Panic, s)
  end.

(** A frame too large to cache. *)
Definition drop_oversized (slot : Slot) (key : Route) (s : Caches) : Caches :=
  let s := match stream_cache s !! key with
           | Some c => s <| stream_cache := <[key := clear_slot slot c]> (stream_cache s) |>
           | None => s
           end in
  if from_option stream_cache_is_empty false (stream_cache s !! key) then evict_stream_cache_key key s else s.

(** What of a frame is cached, if anything. *)
Definition slot_of (f : RelayFrame) : Res (option Slot) :=
  kind ← InitCache.classify_cache_frame (rf_frame_type f) (cache_payload f);
  match kind with
  | InitCache.VideoSequenceHeader =>
      tracks ← multitrack_sequence_track_ids Video (cache_payload f); Ok (Some (VideoHeaderSlot tracks))
  | InitCache.VideoKeyframe => Ok (Some KeyframeSlot)
  | InitCache.AudioSequenceHeader =>
      tracks ← multitrack_sequence_track_ids Audio (cache_payload f); Ok (Some (AudioHeaderSlot tracks))
  | InitCache.LiveOnly => Ok None
  end.

Definition cache_relay_frame (f : RelayFrame) : ST Caches unit :=
  match rf_frame_type f with
  | Script | Metadata =>
      cached ← lift (if bool_decide (rf_frame_type f = Script) then ColorInfo.is_on_metadata_payload (rf_payload f) else Ok true);
      if negb cached then mret tt
      else if MAX_CACHED_INIT_FRAME_BYTES <? zlen (rf_payload f) then mret tt
      else store MetadataSlot f
  | Audio | Video =>
      slot ← lift (slot_of f);
      match slot with
      | None => mret tt
      | Some slot =>
          let cap := match slot with KeyframeSlot => MAX_CACHED_KEYFRAME_BYTES | _ => MAX_CACHED_INIT_FRAME_BYTES end in
          if cap <? zlen (rf_payload f) then modify (drop_oversized slot (route_of f)) else store slot f
      end
  end.

End eviction.
End Cache.
