(* ===== verification/CacheInv.v ===== *)
(** The init cache keeps its bounds, and never replays a keyframe under another
    configuration than the one it was received with. *)
From S2P Require Import Prelude Bytes Types Source Modex Multitrack InitCache ColorInfo Session SessionTotal RelayQueue StreamCache.

#[local] Set Warnings "-clear-no-such-hyp".

Module CacheInv.
Import RelayQueue Cache.

(** * Owners *)

Definition tracked (m : gmap Z (list Route)) (k : Route) : Prop := ∃ id keys, m !! id = Some keys ∧ k ∈ keys.

Lemma still_owned_spec m k : still_owned m k = true ↔ tracked m k.
Proof. unfold still_owned. rewrite bool_decide_eq_true. by rewrite map_Exists_lookup. Qed.

Lemma co_tracked_spec s p k : cache_key_co_tracked s p k = true ↔
  ∃ id keys, publisher_cache_keys s !! id = Some keys ∧ id ≠ p ∧ k ∈ keys.
Proof. unfold cache_key_co_tracked. rewrite bool_decide_eq_true. by rewrite map_Exists_lookup. Qed.

Lemma elem_without k k' keys : k ∈ without k' keys ↔ k ∈ keys ∧ k ≠ k'.
Proof. unfold without. rewrite list_elem_of_In, filter_In, bool_decide_eq_true, <- list_elem_of_In. done. Qed.

Lemma without_nodup k keys : NoDup keys → NoDup (without k keys).
Proof. rewrite !NoDup_ListNoDup. apply List.NoDup_filter. Qed.

Lemma without_length k keys : zlen (without k keys) ≤ zlen keys.
Proof. induction keys as [|x keys IH]; [done|]. unfold without in *. simpl. case_match; rewrite ?zlen_cons; lia. Qed.

Lemma without_shorter k keys : k ∈ keys → zlen (without k keys) < zlen keys.
Proof.
  intros Hk. induction Hk as [k keys|k x keys Hk IH]; unfold without in *; simpl; rewrite zlen_cons.
  - rewrite bool_decide_eq_false_2 by auto. pose proof (without_length k keys). unfold without in *. lia.
  - case_match; rewrite ?zlen_cons; lia.
Qed.

Lemma evicted_keys key s id keys : publisher_cache_keys (evict_stream_cache_key key s) !! id = Some keys ↔
  keys ≠ [] ∧ ∃ old, publisher_cache_keys s !! id = Some old ∧ keys = without key old.
Proof.
  unfold evict_stream_cache_key. cbn. rewrite map_lookup_filter_Some. cbn. rewrite lookup_fmap, fmap_Some. naive_solver.
Qed.

(** Evicting a key that someone tracks leaves fewer keys tracked. *)
Lemma evict_fewer key s : tracked (publisher_cache_keys s) key →
  (tracked_keys (publisher_cache_keys (evict_stream_cache_key key s)) < tracked_keys (publisher_cache_keys s))%nat.
Proof.
  intros (id & keys & E & Hk). unfold tracked_keys. set (f := λ (_ : Z) (l : list Route), zlen l).
  assert (∀ k v, 0 ≤ f k v) as Hf by (intros; apply zlen_nonneg).
  assert (msum f (publisher_cache_keys (evict_stream_cache_key key s)) < msum f (publisher_cache_keys s)).
  { eapply Z.le_lt_trans; [apply (msum_subseteq f Hf _ (without key <$> publisher_cache_keys s)), map_filter_subseteq|].
    clear Hf. set (m := publisher_cache_keys s) in *. clearbody m. revert E.
    assert (∀ m, msum f (without key <$> m) ≤ msum f m) as Hle.
    { intros m'. induction m' as [|i l m' Ei IH] using map_ind; [by rewrite fmap_empty|].
      rewrite fmap_insert, !msum_insert by (done || by rewrite lookup_fmap, Ei).
      pose proof (without_length key l). unfold f at 1 3. lia. }
    intros E. rewrite (msum_delete f m id keys) by done.
    rewrite (msum_delete f (without key <$> m) id (without key keys)) by (by rewrite lookup_fmap, E).
    rewrite <- fmap_delete. pose proof (Hle (delete id m)). pose proof (without_shorter key keys Hk).
    unfold f at 1 3. lia. }
  pose proof (msum_nonneg f Hf (publisher_cache_keys (evict_stream_cache_key key s))). lia.
Qed.

(** * The invariant *)

Definition small (cap : Z) (p : bytes) : Prop := zlen p ≤ cap ∧ bytes_ok p.

Record entry_wf (c : StreamCache) : Prop := {
  (** Headers are combined or per track, not both. *)
  e_video : avc_header c = None ∨ video_track_headers c = ∅;
  e_audio : aac_header c = None ∨ audio_track_headers c = ∅;
  e_avc : ∀ p, avc_header c = Some p → small MAX_CACHED_INIT_FRAME_BYTES p;
  e_video_tracks : map_Forall (λ _, small MAX_CACHED_INIT_FRAME_BYTES) (video_track_headers c);
  e_aac : ∀ p, aac_header c = Some p → small MAX_CACHED_INIT_FRAME_BYTES p;
  e_audio_tracks : map_Forall (λ _, small MAX_CACHED_INIT_FRAME_BYTES) (audio_track_headers c);
  e_metadata : ∀ p, metadata c = Some p → small MAX_CACHED_INIT_FRAME_BYTES p;
  e_keyframe : ∀ ts p, last_keyframe c = Some (ts, p) → is_u32 ts ∧ small MAX_CACHED_KEYFRAME_BYTES p;
}.
Definition entry_ok (c : StreamCache) : Prop := entry_wf c ∧ stream_cache_is_empty c = false.

Record cache_ok (s : Caches) : Prop := {
  (** An entry is there exactly as long as some publisher tracks it. *)
  c_tracked : ∀ k, is_Some (stream_cache s !! k) ↔ tracked (publisher_cache_keys s) k;
  c_keys : map_Forall (λ _ keys, keys ≠ [] ∧ NoDup keys) (publisher_cache_keys s);
  c_bytes : stream_cache_bytes (stream_cache s) ≤ max_cache_bytes s;
  c_entries : Z.of_nat (base.size (stream_cache s)) ≤ MAX_STREAM_CACHE_ENTRIES;
  c_entry : map_Forall (λ _, entry_ok) (stream_cache s);
}.

Lemma entry_bytes_nonneg k c : 0 ≤ stream_cache_entry_bytes k c.
Proof.
  unfold stream_cache_entry_bytes, key_bytes, saturating_add, USIZE_MAX.
  pose proof (zlen_nonneg (fst k)). pose proof (zlen_nonneg (snd k)).
  assert (∀ o, 0 ≤ opt_len o) as Ho by (intros []; unfold opt_len; simpl; [apply zlen_nonneg|done]).
  assert (∀ m, 0 ≤ tracks_len m) as Ht by (intros; apply msum_nonneg; intros; apply zlen_nonneg).
  assert (∀ o, 0 ≤ keyframe_len o) as Hk by (intros [[]|]; unfold keyframe_len; simpl; [apply zlen_nonneg|done]).
  pose proof (Ho (avc_header c)). pose proof (Ho (aac_header c)). pose proof (Ho (metadata c)).
  pose proof (Ht (video_track_headers c)). pose proof (Ht (audio_track_headers c)).
  pose proof (Hk (last_keyframe c)). lia.
Qed.

(** Fewer entries, each as it was. *)
Lemma cache_ok_fewer s s' : cache_ok s → stream_cache s' ⊆ stream_cache s → max_cache_bytes s' = max_cache_bytes s →
  (∀ k, is_Some (stream_cache s' !! k) ↔ tracked (publisher_cache_keys s') k) →
  map_Forall (λ _ keys, keys ≠ [] ∧ NoDup keys) (publisher_cache_keys s') → cache_ok s'.
Proof.
  intros [] Hs Hm Ht Hk. split; try done.
  - rewrite Hm. etrans; [|done]. apply msum_subseteq; [apply entry_bytes_nonneg|done].
  - etrans; [|done]. apply inj_le, map_subseteq_size, Hs.
  - intros k c E. by apply (c_entry0 k), (lookup_weaken _ _ _ _ E).
Qed.

Lemma evict_key_ok key s : cache_ok s → cache_ok (evict_stream_cache_key key s).
Proof.
  intros H. apply (cache_ok_fewer s); [done|apply delete_subseteq|done|..].
  - intros k. change (stream_cache (evict_stream_cache_key key s)) with (delete key (stream_cache s)).
    rewrite lookup_delete_is_Some, (c_tracked _ H).
    split.
    + intros (Hne & id & keys & E & Hk). exists id, (without key keys).
      assert (k ∈ without key keys) as Hw by (apply elem_without; auto). split; [|done].
      apply evicted_keys. split; [|eauto]. intros Hn. rewrite Hn in Hw. by apply not_elem_of_nil in Hw.
    + intros (id & keys & (Hn & old & E & ->)%evicted_keys & [Hk Hne]%elem_without). split; [done|]. by exists id, old.
  - intros id keys (Hn & old & E & ->)%evicted_keys. split; [done|].
    by apply without_nodup, (c_keys _ H id).
Qed.

Lemma drop_unowned_spec keys : ∀ s, publisher_cache_keys (drop_unowned keys s) = publisher_cache_keys s
  ∧ max_cache_bytes (drop_unowned keys s) = max_cache_bytes s
  ∧ ∀ k, stream_cache (drop_unowned keys s) !! k =
      if bool_decide (k ∈ keys) && negb (still_owned (publisher_cache_keys s) k) then None else stream_cache s !! k.
Proof.
  induction keys as [|key keys IH]; intros s; [done|]. unfold drop_unowned in *. cbn [foldl].
  set (s1 := if still_owned _ _ then _ else _).
  assert (publisher_cache_keys s1 = publisher_cache_keys s ∧ max_cache_bytes s1 = max_cache_bytes s) as [E1 E2]
    by (unfold s1; by case_match).
  destruct (IH s1) as (-> & -> & H). rewrite E1, E2. split_and!; [done..|]. intros k. rewrite H, E1.
  destruct (decide (k = key)) as [->|Hne].
  - rewrite (bool_decide_eq_true_2 (key ∈ key :: keys)) by set_solver. unfold s1.
    destruct (still_owned _ key); [by rewrite andb_false_r|]. simpl. rewrite lookup_delete_eq. by case_match.
  - rewrite (bool_decide_ext (k ∈ key :: keys) (k ∈ keys)) by set_solver.
    assert (stream_cache s1 !! k = stream_cache s !! k) as -> by (unfold s1; case_match; [done|]; by apply lookup_delete_ne).
    done.
Qed.

Lemma tracked_delete m id keys k : m !! id = Some keys → tracked m k ↔ k ∈ keys ∨ tracked (delete id m) k.
Proof.
  intros E. split.
  - intros (i & l & Ei & Hk). destruct (decide (i = id)) as [->|]; [left; congruence|].
    right. exists i, l. by rewrite lookup_delete_ne.
  - intros [Hk|(i & l & [? Ei]%lookup_delete_Some & Hk)]; [by exists id, keys|by exists i, l].
Qed.

(** A publisher is forgotten with the entries that only it tracked. *)
Lemma forget_ok publisher s : cache_ok s → cache_ok (forget_publisher publisher s).
Proof.
  intros H. unfold forget_publisher. destruct (publisher_cache_keys s !! publisher) as [keys|] eqn:E; [|done].
  destruct (drop_unowned_spec keys (s <| publisher_cache_keys := delete publisher (publisher_cache_keys s) |>))
    as (E1 & E2 & Hl).
  change (publisher_cache_keys (s <| publisher_cache_keys := _ |>)) with (delete publisher (publisher_cache_keys s)) in *.
  change (stream_cache (s <| publisher_cache_keys := _ |>)) with (stream_cache s) in *.
  set (s' := drop_unowned _ _) in *.
  apply (cache_ok_fewer s); [done| |done|..].
  - apply map_subseteq_spec. intros k c. rewrite Hl. by case_match.
  - intros k. rewrite Hl, E1. pose proof (c_tracked _ H k) as Ht. rewrite (tracked_delete _ _ _ _ E) in Ht.
    pose proof (still_owned_spec (delete publisher (publisher_cache_keys s)) k) as Ho.
    destruct (still_owned _ k); simpl; [rewrite andb_false_r, Ht; naive_solver|].
    rewrite andb_true_r. case_bool_decide; rewrite ?Ht; [split; [by intros [? ?]|naive_solver]|naive_solver].
  - rewrite E1. intros i l [? Ei]%lookup_delete_Some. by apply (c_keys _ H i).
Qed.

Lemma abandoned_keys publisher key keys (m : gmap Z (list Route)) id l :
  match without key keys with [] => delete publisher m | keys => <[publisher := keys]> m end !! id = Some l ↔
  (id ≠ publisher ∧ m !! id = Some l) ∨ (id = publisher ∧ l ≠ [] ∧ l = without key keys).
Proof.
  destruct (without key keys) as [|k ks] eqn:E.
  - rewrite lookup_delete_Some. naive_solver.
  - rewrite lookup_insert_Some. naive_solver.
Qed.

Lemma abandon_ok publisher key s : cache_ok s → cache_ok (abandon publisher key s).
Proof.
  intros H. unfold abandon. destruct (publisher_cache_keys s !! publisher) as [keys|] eqn:E; [|done].
  case_decide as Hk; [|done]. cbv zeta. pose proof (abandoned_keys publisher key keys (publisher_cache_keys s)) as Hm.
  set (m := match without key keys with [] => _ | _ => _ end) in *. clearbody m.
  assert (∀ k, k ≠ key → tracked m k ↔ tracked (publisher_cache_keys s) k) as Ho.
  { intros k Hne. unfold tracked. setoid_rewrite Hm. split.
    - intros (id & l & [[? El]|(-> & _ & ->)] & Hkl); [by exists id, l|].
      apply elem_without in Hkl as [? _]. by exists publisher, keys.
    - intros (id & l & El & Hkl). destruct (decide (id = publisher)) as [->|]; [|by exists id, l; auto].
      exists publisher, (without key keys). assert (k ∈ without key keys) as Hw by (apply elem_without; naive_solver).
      split; [|done]. right. split_and!; [done| |done]. intros Hn. rewrite Hn in Hw. by apply not_elem_of_nil in Hw. }
  assert (map_Forall (λ _ keys, keys ≠ [] ∧ NoDup keys) m) as Hf.
  { intros id l [[_ El]|(-> & Hn & ->)]%Hm; [by apply (c_keys _ H id)|].
    split; [done|]. by apply without_nodup, (c_keys _ H publisher). }
  pose proof (still_owned_spec m key) as Hs. change (publisher_cache_keys (s <| publisher_cache_keys := m |>)) with m.
  destruct (still_owned m key).
  - apply (cache_ok_fewer s); [done..| |done]. intros k. change (is_Some (stream_cache s !! k) ↔ tracked m k).
    rewrite (c_tracked _ H). destruct (decide (k = key)) as [->|]; [|by rewrite Ho].
    split; [intros; by apply Hs|]. intros _. by exists publisher, keys.
  - apply (cache_ok_fewer s); [done|apply delete_subseteq|done| |done]. intros k.
    change (is_Some (delete key (stream_cache s) !! k) ↔ tracked m k). rewrite lookup_delete_is_Some, (c_tracked _ H).
    destruct (decide (k = key)) as [->|]; [naive_solver|]. rewrite Ho; naive_solver.
Qed.

(** * Evictions *)

(** Other keys than [key] are evicted. *)
Inductive evictions (key : Route) (s : Caches) : Caches → Prop :=
  | evicts_none : evictions key s s
  | evicts_key k s' : evictions key s s' → k ≠ key → tracked (publisher_cache_keys s') k →
      evictions key s (evict_stream_cache_key k s').

Lemma evictions_trans key s s1 s2 : evictions key s s1 → evictions key s1 s2 → evictions key s s2.
Proof. intros H1 H2. induction H2; [done|]. by constructor. Qed.

Lemma evictions_ok key s s' : evictions key s s' → cache_ok s → cache_ok s'.
Proof. induction 1; [done|]. intros. apply evict_key_ok. auto. Qed.

Lemma evictions_spec key s s' : evictions key s s' →
  stream_cache s' ⊆ stream_cache s ∧ stream_cache s' !! key = stream_cache s !! key
  ∧ max_cache_bytes s' = max_cache_bytes s.
Proof.
  induction 1 as [|k s' _ (IH1 & IH2 & IH3) Hne _]; [done|].
  change (stream_cache (evict_stream_cache_key k s')) with (delete k (stream_cache s')). split_and!; [|..|done].
  - etrans; [apply delete_subseteq|done].
  - by rewrite lookup_delete_ne.
Qed.

Section eviction.
Context (iter : gmap Z (list Route) → list (Z * list Route)).
Hypothesis iter_perm : ∀ m, iter m ≡ₚ map_to_list m.

Lemma find_evictable s p except keys key : List.find (evictable s p except) keys = Some key →
  key ∈ keys ∧ key ≠ except.
Proof.
  intros [Hin He]%find_some. apply list_elem_of_In in Hin. split; [done|].
  apply andb_true_iff in He as [He _]. by apply bool_decide_eq_true in He.
Qed.

Lemma own_cases p except s : (∃ key, evict_stream_cache_for_publisher p except s = (true, evict_stream_cache_key key s)
    ∧ tracked (publisher_cache_keys s) key ∧ key ≠ except)
  ∨ evict_stream_cache_for_publisher p except s = (false, s).
Proof.
  unfold evict_stream_cache_for_publisher. destruct (List.find _ _) as [key|] eqn:E; [left|by right].
  apply find_evictable in E as [Hk Hne]. exists key. split_and!; [done| |done].
  destruct (publisher_cache_keys s !! p) as [keys|] eqn:Ep; simpl in Hk; [by exists p, keys|by apply not_elem_of_nil in Hk].
Qed.

Lemma victim_tracked s except l key : external_victim s except l = Some key →
  key ≠ except ∧ ∃ id keys, (id, keys) ∈ l ∧ key ∈ keys.
Proof.
  induction l as [|[id keys] l IH]; intros E; [done|]. simpl in E.
  assert (external_victim s except l = Some key → key ≠ except ∧ ∃ id' keys', (id', keys') ∈ (id, keys) :: l ∧ key ∈ keys') as Hr.
  { intros (? & i & k & ? & ?)%IH. split; [done|]. exists i, k. split; [by right|done]. }
  destruct (negb _); [auto|]. destruct (List.find _ _) as [k|] eqn:Ef; [|auto]. simplify_eq.
  apply find_evictable in Ef as [? ?]. split; [done|]. exists id, keys. split; [by left|done].
Qed.

Lemma pressure_cases p except s :
  (∃ key, evict_for_stream_cache_pressure iter p except s = (true, evict_stream_cache_key key s)
    ∧ tracked (publisher_cache_keys s) key ∧ key ≠ except)
  ∨ evict_for_stream_cache_pressure iter p except s = (false, s).
Proof.
  unfold evict_for_stream_cache_pressure. destruct (own_cases p except s) as [(key & -> & ?)| ->]; [left; eauto|].
  unfold evict_any_external_stream_cache. destruct (external_victim _ _ _) as [key|] eqn:E; [left|by right].
  apply victim_tracked in E as (Hne & id & keys & Hin & Hk). exists key. split_and!; [done| |done].
  exists id, keys. split; [|done]. rewrite iter_perm in Hin. by apply elem_of_map_to_list.
Qed.

(** ** Reserving *)

Lemma cache_room_spec key inc ex p fuel : ∀ s, (tracked_keys (publisher_cache_keys s) < fuel)%nat →
  ∃ b s', make_room iter fuel key inc ex p (projected s key inc ex) s = (Ok b, s') ∧ evictions key s s'
    ∧ (b = true → projected s' key inc ex ≤ max_cache_bytes s').
Proof.
  induction fuel as [|fuel IH]; intros s Hf; [lia|]. cbn [make_room].
  destruct (Z.ltb_spec (max_cache_bytes s) (projected s key inc ex)).
  - destruct (pressure_cases p key s) as [(k & -> & Ht & Hne)| ->].
    + pose proof (evict_fewer k s Ht). destruct (IH (evict_stream_cache_key k s)) as (b & s' & E & Hev & Hb); [lia|].
      exists b, s'. split_and!; [done| |done]. eapply evictions_trans; [|done]. by repeat constructor.
    + exists false, s. split_and!; [done|constructor|done].
  - exists true, s. split_and!; [done|constructor|done].
Qed.

Lemma evict_size k s : cache_ok s → tracked (publisher_cache_keys s) k →
  base.size (stream_cache s) = S (base.size (stream_cache (evict_stream_cache_key k s))).
Proof.
  intros H [c Hc]%(c_tracked _ H). change (stream_cache (evict_stream_cache_key k s)) with (delete k (stream_cache s)).
  rewrite map_size_delete_Some by eauto. pose proof (map_size_ne_0_lookup_2 (stream_cache s) k (mk_is_Some _ _ Hc)). lia.
Qed.

Definition reserved (key : Route) (inc ex : Z) (s : Caches) (r : Res bool * Caches) : Prop :=
  ∃ b s', r = (Ok b, s') ∧ evictions key s s'
    ∧ (b = true → projected s' key inc ex ≤ max_cache_bytes s'
        ∧ (stream_cache s !! key = None → Z.of_nat (base.size (stream_cache s')) < MAX_STREAM_CACHE_ENTRIES)).

Lemma reserved_not key inc ex s s' : evictions key s s' → reserved key inc ex s (Ok false, s').
Proof. intros H. by exists false, s'. Qed.

(** The rest of a reservation, from a state with room in the entry table. *)
Lemma reserve_rest key inc ex p s s1 : cache_ok s1 → evictions key s s1 →
  (stream_cache s !! key = None → Z.of_nat (base.size (stream_cache s1)) < MAX_STREAM_CACHE_ENTRIES) →
  reserved key inc ex s
    (make_room iter (S (tracked_keys (publisher_cache_keys s1))) key inc ex p (projected s1 key inc ex) s1).
Proof.
  intros H He Hn. destruct (cache_room_spec key inc ex p (S (tracked_keys (publisher_cache_keys s1))) s1)
    as (b & s' & E & Hev & Hb); [lia|].
  exists b, s'. split_and!; [done|by eapply evictions_trans|]. intros ->. split; [auto|]. intros Hk%Hn.
  pose proof (map_subseteq_size _ _ (proj1 (evictions_spec _ _ _ Hev))). lia.
Qed.

Lemma reserve_spec key inc ex p s : cache_ok s →
  reserved key inc ex s (reserve_stream_cache_storage iter key inc ex p s).
Proof.
  intros H. unfold reserve_stream_cache_storage. cbv zeta.
  destruct (_ <? _); [apply reserved_not, evicts_none|].
  destruct (_ && _); [apply reserved_not, evicts_none|]. set (own := if _ && _ then _ else _).
  assert (∃ room s1, own = (room, s1, projected s1 key inc ex) ∧ evictions key s s1) as (room & s1 & -> & He1).
  { unfold own. case_match; [|by exists true, s; repeat constructor].
    destruct (own_cases p key s) as [(k & -> & ? & ?)| ->]; eexists _, _; (split; [done|by repeat constructor]). }
  destruct room; cbn [negb]; [|by apply reserved_not]. pose proof (evictions_ok _ _ _ He1 H) as H1.
  destruct (_ && bool_decide _) eqn:Ecap.
  - destruct (pressure_cases p key s1) as [(k & -> & Ht & Hne)| ->]; cbn [negb]; [|by apply reserved_not].
    pose proof (evict_size k s1 H1 Ht). pose proof (c_entries _ H1).
    apply reserve_rest; [by apply evict_key_ok|by constructor|]. intros _. lia.
  - apply reserve_rest; [done..|]. intros Hk. rewrite (bool_decide_eq_true_2 _ Hk), andb_true_r in Ecap. lia.
Qed.
End eviction.

(** * Storing *)

Lemma opt_len_nonneg o : 0 ≤ opt_len o.
Proof. destruct o; unfold opt_len; simpl; [apply zlen_nonneg|done]. Qed.
Lemma tracks_len_nonneg m : 0 ≤ tracks_len m.
Proof. apply msum_nonneg. intros. apply zlen_nonneg. Qed.
Lemma keyframe_len_nonneg o : 0 ≤ keyframe_len o.
Proof. destruct o as [[]|]; unfold keyframe_len; simpl; [apply zlen_nonneg|done]. Qed.

(** The bytes of an entry, and those a stored frame replaces, without a limit. *)
Definition key_sum (key : Route) : Z := zlen (fst key) + zlen (snd key).
Definition entry_sum (key : Route) (c : StreamCache) : Z :=
  key_sum key + opt_len (avc_header c) + tracks_len (video_track_headers c) + opt_len (aac_header c)
  + tracks_len (audio_track_headers c) + opt_len (metadata c) + keyframe_len (last_keyframe c).
Definition replaced_sum (seq_tracks : list Z) (combined : option bytes) (tracks : gmap Z bytes) : Z :=
  opt_len combined + match seq_tracks with [t] => opt_len (tracks !! t) | _ => tracks_len tracks end.
Definition existing_sum (slot : Slot) (payload : bytes) (c : StreamCache) : Z :=
  match slot with
  | MetadataSlot => opt_len (metadata c)
  | VideoHeaderSlot l => replaced_sum l (avc_header c) (video_track_headers c) + stale_keyframe_len c l payload
  | KeyframeSlot => keyframe_len (last_keyframe c)
  | AudioHeaderSlot l => replaced_sum l (aac_header c) (audio_track_headers c)
  end.

#[local] Ltac lens c := pose proof (opt_len_nonneg (avc_header c)); pose proof (opt_len_nonneg (aac_header c));
  pose proof (opt_len_nonneg (metadata c)); pose proof (tracks_len_nonneg (video_track_headers c));
  pose proof (tracks_len_nonneg (audio_track_headers c)); pose proof (keyframe_len_nonneg (last_keyframe c)).

Lemma entry_bytes_sum key c : stream_cache_entry_bytes key c = Z.min USIZE_MAX (entry_sum key c).
Proof.
  lens c. pose proof (zlen_nonneg (fst key)). pose proof (zlen_nonneg (snd key)).
  unfold stream_cache_entry_bytes, key_bytes, saturating_add, entry_sum, key_sum, USIZE_MAX. lia.
Qed.

Lemma track_slot_len (tracks : gmap Z bytes) t : opt_len (tracks !! t) ≤ tracks_len tracks.
Proof.
  destruct (tracks !! t) as [p|] eqn:E; [|apply tracks_len_nonneg].
  apply (msum_lookup (λ _ v, zlen v)) in E; [done|]. intros. apply zlen_nonneg.
Qed.

Lemma replaced_bounds l o m : 0 ≤ replaced_sum l o m ≤ opt_len o + tracks_len m.
Proof.
  pose proof (opt_len_nonneg o). pose proof (tracks_len_nonneg m). unfold replaced_sum.
  destruct l as [|t [|]]; try lia. pose proof (track_slot_len m t). pose proof (opt_len_nonneg (m !! t)). lia.
Qed.

Lemma existing_bounds key slot payload c : 0 ≤ existing_sum slot payload c ≤ entry_sum key c - key_sum key.
Proof.
  lens c. unfold entry_sum. destruct slot as [|l|l|]; cbn [existing_sum]; try lia.
  - pose proof (replaced_bounds l (avc_header c) (video_track_headers c)). unfold stale_keyframe_len. case_match; lia.
  - pose proof (replaced_bounds l (aac_header c) (audio_track_headers c)). lia.
Qed.

Lemma existing_len_sum slot payload c : existing_sum slot payload c ≤ USIZE_MAX →
  existing_field_len slot payload c = existing_sum slot payload c.
Proof.
  destruct slot as [|l|l|]; cbn [existing_sum existing_field_len]; try done; intros H.
  - assert (0 ≤ stale_keyframe_len c l payload).
    { unfold stale_keyframe_len. case_match; [done|apply keyframe_len_nonneg]. }
    unfold replaced_len, replaced_sum, saturating_add in *. destruct l as [|t [|]]; lia.
  - unfold replaced_len, replaced_sum, saturating_add in *. destruct l as [|t [|]]; lia.
Qed.

Lemma set_header_len l payload o tracks header tracks' : set_header l payload tracks = (header, tracks') →
  opt_len header + tracks_len tracks' = opt_len o + tracks_len tracks - replaced_sum l o tracks + zlen payload.
Proof.
  unfold set_header, replaced_sum. intros E.
  assert (tracks_len ∅ = 0) as He by apply msum_empty.
  destruct l as [|t [|]]; simplify_eq; unfold opt_len; simpl; try lia.
  destruct (tracks !! t) as [p|] eqn:Et; simpl; unfold tracks_len in *.
  - rewrite (msum_replace _ tracks t p) by done. lia.
  - rewrite msum_insert by done. lia.
Qed.

(** Storing replaces exactly the bytes that were counted. *)
Lemma store_sum key slot ts payload c :
  entry_sum key (store_slot slot ts payload c) = entry_sum key c - existing_sum slot payload c + zlen payload.
Proof.
  unfold entry_sum. destruct slot as [|l|l|]; cbn [store_slot existing_sum].
  - unfold opt_len at 3. simpl. lia.
  - unfold stale_keyframe_len. destruct (video_header_unchanged c l payload); cbv zeta.
    + destruct (set_header l payload (video_track_headers c)) as [h t] eqn:E.
      pose proof (set_header_len _ _ (avc_header c) _ _ _ E). simpl. lia.
    + change (video_track_headers (c <| last_keyframe := None |>)) with (video_track_headers c).
      destruct (set_header l payload (video_track_headers c)) as [h t] eqn:E.
      pose proof (set_header_len _ _ (avc_header c) _ _ _ E). simpl. lia.
  - destruct (set_header l payload (audio_track_headers c)) as [h t] eqn:E.
    pose proof (set_header_len _ _ (aac_header c) _ _ _ E). simpl. lia.
  - unfold keyframe_len. simpl. lia.
Qed.

(** ** Entries *)

Definition slot_cap (slot : Slot) : Z :=
  match slot with KeyframeSlot => MAX_CACHED_KEYFRAME_BYTES | _ => MAX_CACHED_INIT_FRAME_BYTES end.

Lemma set_header_wf l payload tracks header tracks' : set_header l payload tracks = (header, tracks') →
  map_Forall (λ _, small MAX_CACHED_INIT_FRAME_BYTES) tracks → small MAX_CACHED_INIT_FRAME_BYTES payload →
  (header = None ∨ tracks' = ∅) ∧ (∀ p, header = Some p → small MAX_CACHED_INIT_FRAME_BYTES p)
  ∧ map_Forall (λ _, small MAX_CACHED_INIT_FRAME_BYTES) tracks' ∧ (header ≠ None ∨ tracks' ≠ ∅).
Proof.
  unfold set_header. intros E Ht Hp. destruct l as [|t [|]]; simplify_eq.
  - split_and!; [by right|by intros ? [= <-]|apply map_Forall_empty|by left].
  - split_and!; [by left|done|by apply map_Forall_insert_2|right; apply insert_non_empty].
  - split_and!; [by right|by intros ? [= <-]|apply map_Forall_empty|by left].
Qed.

Lemma is_empty_spec c : stream_cache_is_empty c = true ↔ c = empty_stream_cache.
Proof.
  unfold stream_cache_is_empty. rewrite !andb_true_iff, !bool_decide_eq_true. destruct c. simpl.
  unfold empty_stream_cache. naive_solver.
Qed.

Lemma empty_wf : entry_wf empty_stream_cache.
Proof. split; try done; try (by left); apply map_Forall_empty. Qed.

Lemma not_empty c : c ≠ empty_stream_cache → stream_cache_is_empty c = false.
Proof. intros H. apply not_true_iff_false. by rewrite is_empty_spec. Qed.

Lemma store_slot_ok slot ts payload c : entry_wf c → is_u32 ts → small (slot_cap slot) payload →
  entry_ok (store_slot slot ts payload c).
Proof.
  intros H Hts Hp. destruct slot as [|l|l|]; cbn [store_slot slot_cap] in *.
  - split; [|apply not_empty; by destruct c]. destruct H. split; try done. by intros ? [= <-].
  - set (c1 := if video_header_unchanged c l payload then c else _).
    assert (entry_wf c1) as H1 by (unfold c1; case_match; [done|]; by destruct H). clearbody c1. cbv zeta.
    destruct (set_header l payload (video_track_headers c1)) as [h t] eqn:E.
    apply set_header_wf in E as (E1 & E2 & E3 & E4); [|by destruct H1|done].
    split; [destruct H1; by split|]. apply not_empty. intros [= ? ?]. naive_solver.
  - destruct (set_header l payload (audio_track_headers c)) as [h t] eqn:E.
    apply set_header_wf in E as (E1 & E2 & E3 & E4); [|by destruct H|done].
    split; [destruct H; by split|]. apply not_empty. intros [= ? ?]. naive_solver.
  - split; [|apply not_empty; by destruct c]. destruct H. split; try done. by intros ? ? [= <- <-].
Qed.

Lemma clear_slot_wf slot c : entry_wf c → entry_wf (clear_slot slot c).
Proof.
  intros []. destruct slot as [|l|l|]; cbn [clear_slot]; split; try done; try (by left).
  - unfold clear_header. destruct l as [|t [|]]; simpl; (apply map_Forall_empty || by apply map_Forall_delete).
  - unfold clear_header. destruct l as [|t [|]]; simpl; (apply map_Forall_empty || by apply map_Forall_delete).
Qed.

(** ** Frames *)

Lemma on_metadata_ok payload : bytes_ok payload → ∃ b, ColorInfo.is_on_metadata_payload payload = Ok b.
Proof.
  intros Ho. unfold ColorInfo.is_on_metadata_payload.
  destruct (sim_from_slice (λ _, True) _ _ payload ColorInfo.sim_on_metadata Ho) as [-> _].
  unfold ColorInfo.on_metadata. destruct (ColorInfo.event_name_total payload Ho) as (r & l & E & Hl).
  rewrite (bind_ok _ _ _ _ _ E). destruct r as [nm|]; [|by eexists]. case_decide; [|by eexists].
  destruct (ColorInfo.event_name_total l Hl) as (r' & l' & E' & _). rewrite (bind_ok _ _ _ _ _ E'). by eexists.
Qed.

Lemma classify_ok ft payload : bytes_ok payload → ∃ k, InitCache.classify_cache_frame ft payload = Ok k.
Proof.
  intros Ho. destruct ft; simpl; [|..|by eexists|by eexists].
  - destruct (InitCache.classify_audio_exact payload Ho) as (b & -> & _). by eexists.
  - destruct (InitCache.classify_video_exact payload Ho) as (k & -> & _). by eexists.
Qed.

Lemma track_ids_ok ft payload : bytes_ok payload → ∃ l, multitrack_sequence_track_ids ft payload = Ok l.
Proof.
  intros Ho. unfold multitrack_sequence_track_ids. case_match; [|by eexists].
  destruct (Total.foreach_total ft payload Ho) as (ok & ts & -> & _). by eexists.
Qed.

Lemma slot_of_ok f : bytes_ok (cache_payload f) → ∃ slot, slot_of f = Ok slot ∧ slot ≠ Some MetadataSlot.
Proof.
  intros Ho. unfold slot_of. destruct (classify_ok (rf_frame_type f) _ Ho) as (k & ->). rewrite Ok_bind.
  destruct k; [by eexists| | |by eexists].
  - destruct (track_ids_ok Video _ Ho) as (l & ->). by eexists.
  - destruct (track_ids_ok Audio _ Ho) as (l & ->). by eexists.
Qed.

(** Sizes stay below [usize::MAX]. *)
Definition addressable (s : Caches) (f : RelayFrame) : Prop :=
  max_cache_bytes s + zlen (rf_payload f) + key_sum (route_of f) < USIZE_MAX.

Lemma stored_bytes s f slot : cache_ok s → addressable s f →
  let key := route_of f in
  let ex := from_option (existing_field_len slot (rf_payload f)) 0 (stream_cache s !! key) in
  projected s key (zlen (rf_payload f)) ex ≤ max_cache_bytes s →
  stream_cache_bytes (<[key := store_slot slot (rf_timestamp f) (rf_payload f)
    (default empty_stream_cache (stream_cache s !! key))]> (stream_cache s)) ≤ max_cache_bytes s.
Proof.
  intros H Ha. cbv zeta. unfold projected, addressable in *. pose proof (c_bytes _ H) as Hb.
  set (key := route_of f) in *. set (p := rf_payload f) in *.
  assert (0 ≤ stream_cache_bytes (stream_cache s)) by (apply msum_nonneg, entry_bytes_nonneg).
  pose proof (zlen_nonneg p). pose proof (zlen_nonneg (fst key)). pose proof (zlen_nonneg (snd key)).
  destruct (stream_cache s !! key) as [c|] eqn:E; cbn [from_option default].
  - rewrite decide_True by eauto. unfold stream_cache_bytes in *. rewrite (msum_replace _ _ _ c) by done.
    pose proof (msum_lookup _ entry_bytes_nonneg _ _ _ E) as Hc.
    rewrite !entry_bytes_sum, store_sum in *. pose proof (existing_bounds key slot p c).
    unfold key_sum in *. unfold saturating_add, saturating_sub. rewrite existing_len_sum by lia. unfold id. lia.
  - rewrite decide_False by (by intros [? ?]). unfold stream_cache_bytes in *. rewrite msum_insert by done.
    rewrite entry_bytes_sum, store_sum. pose proof (existing_bounds key slot p empty_stream_cache) as He.
    change (entry_sum key empty_stream_cache) with (key_sum key + 0 + 0 + 0 + 0 + 0 + 0) in *.
    unfold key_bytes, key_sum, saturating_add, saturating_sub in *. lia.
Qed.

Lemma tracked_track publisher key m k : tracked (track_publisher_cache_key publisher key m) k ↔ k = key ∨ tracked m k.
Proof.
  unfold track_publisher_cache_key, tracked. set (old := default [] (m !! publisher)). split.
  - intros (id & keys & [[<- <-]|[? E]]%lookup_insert_Some & Hk); [|right; by exists id, keys].
    assert (k = key ∨ k ∈ old) as [?|Hold] by (case_decide; set_solver); [by left|]. right. unfold old in Hold.
    destruct (m !! publisher) as [l|] eqn:E; [by exists publisher, l|by apply not_elem_of_nil in Hold].
  - intros [->|(id & keys & E & Hk)].
    + exists publisher. eexists. rewrite lookup_insert_eq. split; [done|]. case_decide; set_solver.
    + destruct (decide (id = publisher)) as [->|]; [|by exists id, keys; rewrite lookup_insert_ne].
      exists publisher. eexists. rewrite lookup_insert_eq. split; [done|]. unfold old. rewrite E. simpl. case_decide; set_solver.
Qed.

Lemma track_keys_ok publisher key m : map_Forall (λ _ keys, keys ≠ [] ∧ NoDup keys) m →
  map_Forall (λ _ keys, keys ≠ [] ∧ NoDup keys) (track_publisher_cache_key publisher key m).
Proof.
  intros H. apply map_Forall_insert_2; [|done].
  assert (NoDup (default [] (m !! publisher))) as Hn.
  { destruct (m !! publisher) as [l|] eqn:E; [by apply (H publisher)|constructor]. }
  case_decide as Hk.
  - split; [|done]. intros E. rewrite E in Hk. by apply not_elem_of_nil in Hk.
  - split; [by intros []%app_nil|]. apply NoDup_app. split_and!; [done| |apply NoDup_singleton].
    intros k Hk' ->%list_elem_of_singleton. done.
Qed.

Section frames.
Context (iter : gmap Z (list Route) → list (Z * list Route)).
Hypothesis iter_perm : ∀ m, iter m ≡ₚ map_to_list m.

(** What storing leaves of the route's entry. *)
Definition stored (slot : Slot) (f : RelayFrame) (s : Caches) : StreamCache :=
  store_slot slot (rf_timestamp f) (rf_payload f) (default empty_stream_cache (stream_cache s !! route_of f)).

Lemma store_spec slot f s : cache_ok s → addressable s f → frame_ok f → zlen (rf_payload f) ≤ slot_cap slot →
  ∃ s', store iter slot f s = (Ok tt, s') ∧ cache_ok s' ∧ max_cache_bytes s' = max_cache_bytes s
    ∧ (∀ k c, k ≠ route_of f → stream_cache s' !! k = Some c → stream_cache s !! k = Some c)
    ∧ (stream_cache s' !! route_of f = Some (stored slot f s)
       ∨ stream_cache s' !! route_of f = stream_cache s !! route_of f).
Proof.
  intros H Ha Hf Hl. unfold store. cbv zeta. set (key := route_of f). set (ex := from_option _ 0 _).
  destruct (reserve_spec iter iter_perm key (zlen (rf_payload f)) ex (rf_publisher_conn_id f) s H)
    as (b & s1 & -> & Hev & Hb).
  pose proof (evictions_ok _ _ _ Hev H) as H1. destruct (evictions_spec _ _ _ Hev) as (Hs & Hk & Hm).
  assert (∀ k c, stream_cache s1 !! k = Some c → stream_cache s !! k = Some c) as Hs'
    by (intros k c E; by apply (lookup_weaken _ _ _ _ E)).
  assert (ex = from_option (existing_field_len slot (rf_payload f)) 0 (stream_cache s1 !! key)) as Hex
    by (unfold ex; by rewrite Hk). clearbody ex.
  destruct b; [|exists s1; split_and!; eauto]. destruct Hb as [Hp Hn]; [done|]. unfold stored. fold key.
  rewrite <- Hk in *.
  set (c' := store_slot _ _ _ _). eexists. split; [reflexivity|]. split_and!; [|done|..].
  - split.
    + intros k. change (is_Some (<[key := c']> (stream_cache s1) !! k) ↔
        tracked (track_publisher_cache_key (rf_publisher_conn_id f) key (publisher_cache_keys s1)) k).
      rewrite tracked_track, lookup_insert_is_Some', (c_tracked _ H1). naive_solver.
    + apply track_keys_ok, H1.
    + apply (stored_bytes s1 f slot); [done|by unfold addressable; rewrite Hm|].
      fold key. by rewrite <- Hex.
    + change (Z.of_nat (base.size (<[key := c']> (stream_cache s1))) ≤ MAX_STREAM_CACHE_ENTRIES).
      pose proof (c_entries _ H1). destruct (stream_cache s1 !! key) as [c|] eqn:E.
      * rewrite map_size_insert_Some by eauto. done.
      * rewrite map_size_insert_None by done. specialize (Hn eq_refl). lia.
    + apply map_Forall_insert_2; [|apply H1]. apply store_slot_ok; [|apply Hf|by split; [|apply Hf]].
      destruct (stream_cache s1 !! key) as [c|] eqn:E; [|apply empty_wf]. by apply (c_entry _ H1 key).
  - intros k c Hne E. apply Hs'. revert E. simpl. by rewrite lookup_insert_ne.
  - left. simpl. by rewrite lookup_insert_eq.
Qed.

Lemma clear_header_len l m : tracks_len (clear_header l m) ≤ tracks_len m.
Proof.
  assert (∀ (k : Z) (v : bytes), 0 ≤ zlen v) as Hz by (intros; apply zlen_nonneg).
  apply (msum_subseteq _ Hz). unfold clear_header.
  destruct l as [|t [|]]; (apply map_empty_subseteq || apply delete_subseteq).
Qed.

Lemma clear_sum key slot c : entry_sum key (clear_slot slot c) ≤ entry_sum key c.
Proof.
  pose proof (opt_len_nonneg (avc_header c)). pose proof (opt_len_nonneg (aac_header c)).
  pose proof (keyframe_len_nonneg (last_keyframe c)).
  unfold entry_sum. destruct slot as [|l|l|]; cbn [clear_slot]; simpl; change (opt_len None) with 0;
    change (keyframe_len None) with 0; try lia.
  - pose proof (clear_header_len l (video_track_headers c)). lia.
  - pose proof (clear_header_len l (audio_track_headers c)). lia.
Qed.

Definition cleared (slot : Slot) (c : StreamCache) : option StreamCache :=
  if stream_cache_is_empty (clear_slot slot c) then None else Some (clear_slot slot c).

Lemma drop_spec slot key s : cache_ok s →
  cache_ok (drop_oversized slot key s)
  ∧ max_cache_bytes (drop_oversized slot key s) = max_cache_bytes s
  ∧ (∀ k, k ≠ key → stream_cache (drop_oversized slot key s) !! k = stream_cache s !! k)
  ∧ stream_cache (drop_oversized slot key s) !! key = stream_cache s !! key ≫= cleared slot.
Proof.
  intros H. unfold drop_oversized. destruct (stream_cache s !! key) as [c|] eqn:E; [|by rewrite E].
  set (s1 := s <| stream_cache := <[key := clear_slot slot c]> (stream_cache s) |>).
  change (stream_cache s1) with (<[key := clear_slot slot c]> (stream_cache s)).
  rewrite lookup_insert_eq. simpl. unfold cleared. destruct (stream_cache_is_empty (clear_slot slot c)) eqn:Ee.
  - assert (evict_stream_cache_key key s1 = evict_stream_cache_key key s) as ->.
    { unfold evict_stream_cache_key. simpl. unfold s1. destruct s as [sc pk mx]. unfold set_field. simpl. f_equal.
      apply delete_insert_eq. }
    change (stream_cache (evict_stream_cache_key key s)) with (delete key (stream_cache s)).
    split_and!; [by apply evict_key_ok|done|intros; by apply lookup_delete_ne|apply lookup_delete_eq].
  - split_and!; [|done|intros; by apply lookup_insert_ne|apply lookup_insert_eq].
    pose proof (c_tracked _ H) as Ht. pose proof (c_bytes _ H). pose proof (c_entries _ H).
    split; change (stream_cache s1) with (<[key := clear_slot slot c]> (stream_cache s)).
    + intros k. rewrite lookup_insert_is_Some', Ht. split; [|auto]. intros [<-|?]; [|done]. apply Ht. eauto.
    + apply H.
    + unfold stream_cache_bytes in *. rewrite (msum_replace _ _ _ c) by done. rewrite !entry_bytes_sum.
      pose proof (clear_sum key slot c). change (max_cache_bytes s1) with (max_cache_bytes s). lia.
    + rewrite map_size_insert_Some by eauto. done.
    + apply map_Forall_insert_2; [|apply H]. split; [|done]. apply clear_slot_wf. by apply (c_entry _ H key).
Qed.

(** ** What caching a frame does *)

(** The slot a frame goes to. *)
Definition goes_to (f : RelayFrame) (slot : Slot) : Prop :=
  match rf_frame_type f with
  | Script | Metadata => slot = MetadataSlot
  | Audio | Video => slot_of f = Ok (Some slot)
  end.

Definition effect (f : RelayFrame) (s s' : Caches) : Prop :=
  let key := route_of f in
  stream_cache s' !! key = stream_cache s !! key
  ∨ ∃ slot, goes_to f slot ∧
      (stream_cache s' !! key = Some (stored slot f s)
       ∨ stream_cache s' !! key = stream_cache s !! key ≫= cleared slot).

Lemma cache_frame_spec f s : cache_ok s → addressable s f → frame_ok f →
  ∃ s', cache_relay_frame iter f s = (Ok tt, s') ∧ cache_ok s' ∧ max_cache_bytes s' = max_cache_bytes s
    ∧ (∀ k c, k ≠ route_of f → stream_cache s' !! k = Some c → stream_cache s !! k = Some c)
    ∧ effect f s s'.
Proof.
  intros H Ha Hf.
  assert (∃ s', (Ok tt, s) = (Ok tt, s') ∧ cache_ok s' ∧ max_cache_bytes s' = max_cache_bytes s
    ∧ (∀ k c, k ≠ route_of f → stream_cache s' !! k = Some c → stream_cache s !! k = Some c)
    ∧ effect f s s') as Hsame by (exists s; split_and!; [done..|by left]).
  assert (∀ slot, goes_to f slot → zlen (rf_payload f) ≤ slot_cap slot → ∃ s', store iter slot f s = (Ok tt, s')
    ∧ cache_ok s' ∧ max_cache_bytes s' = max_cache_bytes s
    ∧ (∀ k c, k ≠ route_of f → stream_cache s' !! k = Some c → stream_cache s !! k = Some c)
    ∧ effect f s s') as Hst.
  { intros slot Hg Hl. destruct (store_spec slot f s H Ha Hf Hl) as (s' & E & ? & ? & ? & [?|?]);
      exists s'; (split_and!; [done..|]); [right; exists slot; auto|by left]. }
  unfold cache_relay_frame. destruct (rf_frame_type f) eqn:Et.
  1,2: destruct (slot_of_ok f (f_cache _ Hf)) as ([slot|] & E & Hm); rewrite E, lift_ok; [|exact Hsame];
    assert (goes_to f slot) as Hg by (unfold goes_to; by rewrite Et);
    change (match slot with KeyframeSlot => _ | _ => _ end) with (slot_cap slot);
    (destruct (Z.ltb_spec (slot_cap slot) (zlen (rf_payload f))); [|by apply Hst]);
    destruct (drop_spec slot (route_of f) s H) as (? & ? & Hk & ?); eexists; (split_and!; [done..| |]);
    [intros k c Hne; by rewrite Hk|right; exists slot; auto].
  all: match goal with |- context [lift ?r] => assert (∃ b, r = Ok b) as [b Eb] end;
    [case_match; [by apply on_metadata_ok, Hf|by eexists]|]; rewrite Eb, lift_ok;
    (destruct b; [|exact Hsame]); cbn [negb];
    (destruct (Z.ltb_spec MAX_CACHED_INIT_FRAME_BYTES (zlen (rf_payload f))); [exact Hsame|]);
    apply Hst; [unfold goes_to; by rewrite Et|done].
Qed.
End frames.

(** * Histories *)

(** What a server does to its cache: it caches a frame (the owners being
    iterated in some order), a publisher abandons a route, or one is forgotten. *)
Inductive Op : Type :=
  | CacheFrame (iter : gmap Z (list Route) → list (Z * list Route)) (f : RelayFrame)
  | Abandon (publisher : Z) (key : Route)
  | Forget (publisher : Z).

Definition op (o : Op) : ST Caches unit :=
  match o with
  | CacheFrame iter f => cache_relay_frame iter f
  | Abandon publisher key => modify (abandon publisher key)
  | Forget publisher => modify (forget_publisher publisher)
  end.

Definition start (max_bytes : Z) : Caches := mkCaches ∅ ∅ max_bytes.
Definition run (max_bytes : Z) (ops : list Op) : Caches := foldl (λ s o, snd (op o s)) (start max_bytes) ops.

Definition op_ok (max_bytes : Z) (o : Op) : Prop :=
  match o with
  | CacheFrame iter f => (∀ m, iter m ≡ₚ map_to_list m) ∧ frame_ok f ∧ addressable (start max_bytes) f
  | _ => True
  end.

Lemma op_keeps o s : op_ok (max_cache_bytes s) o → cache_ok s →
  fst (op o s) = Ok tt ∧ cache_ok (snd (op o s)) ∧ max_cache_bytes (snd (op o s)) = max_cache_bytes s.
Proof.
  intros Ho H. destruct o as [iter f|p key|p]; cbn [op].
  - destruct Ho as (Hi & Hf & Ha). destruct (cache_frame_spec iter Hi f s H Ha Hf) as (s' & -> & ? & ? & _). done.
  - split_and!; [done|by apply abandon_ok|]. simpl. unfold abandon. by repeat case_match.
  - split_and!; [done|by apply forget_ok|]. simpl. unfold forget_publisher. case_match; [|done].
    by destruct (drop_unowned_spec l (s <| publisher_cache_keys := delete p (publisher_cache_keys s) |>)) as (_ & -> & _).
Qed.

Lemma cache_start_ok max_bytes : 0 ≤ max_bytes → cache_ok (start max_bytes).
Proof.
  intros H. split; simpl.
  - intros k. rewrite lookup_empty. split; [by intros [? ?]|]. intros (id & keys & E & _). by rewrite lookup_empty in E.
  - apply map_Forall_empty.
  - unfold stream_cache_bytes. by rewrite msum_empty.
  - by rewrite map_size_empty.
  - apply map_Forall_empty.
Qed.

Lemma cache_run_snoc max_bytes ops o : run max_bytes (ops ++ [o]) = snd (op o (run max_bytes ops)).
Proof. unfold run. by rewrite foldl_app. Qed.

Lemma run_ok max_bytes ops : 0 ≤ max_bytes → Forall (op_ok max_bytes) ops →
  cache_ok (run max_bytes ops) ∧ max_cache_bytes (run max_bytes ops) = max_bytes.
Proof.
  intros Hm. induction ops as [|o ops IH] using rev_ind; intros H; [split; [by apply cache_start_ok|done]|].
  apply Forall_app in H as [Hs [Ho _]%Forall_cons]. destruct (IH Hs) as [H1 H2]. rewrite cache_run_snoc.
  destruct (op_keeps o (run max_bytes ops)) as (_ & ? & E); [by rewrite H2|done|].
  split; [done|by rewrite E].
Qed.

(** C37. The init cache stays bounded whatever frames publishers send and in
    whichever order owners are visited when entries are evicted: its bytes,
    route names included, stay within the limit it was made with and its entries
    within 1,024; headers and metadata are at most 64 KiB and keyframes 2 MiB;
    a route has a combined header or per-track headers, not both; no entry is
    empty, and an entry is there exactly as long as some publisher tracks it.
    No operation panics, and eviction ends. *)
Theorem cache_stays_bounded max_bytes ops o : 0 ≤ max_bytes → Forall (op_ok max_bytes) (ops ++ [o]) →
  cache_ok (run max_bytes ops) ∧ max_cache_bytes (run max_bytes ops) = max_bytes
  ∧ fst (op o (run max_bytes ops)) = Ok tt.
Proof.
  intros Hm [Hs [Ho _]%Forall_cons]%Forall_app. destruct (run_ok max_bytes ops Hm Hs) as [H1 H2].
  split_and!; [done..|]. apply op_keeps; [by rewrite H2|done].
Qed.

(** ** Keyframes *)

Definition video_headers (c : StreamCache) : option bytes * gmap Z bytes := (avc_header c, video_track_headers c).

(** A keyframe stays only under the headers it came with. *)
Lemma store_keyframe slot ts payload c kf : last_keyframe (store_slot slot ts payload c) = Some kf →
  slot = KeyframeSlot ∧ kf = (ts, payload) ∧ video_headers (store_slot slot ts payload c) = video_headers c
  ∨ last_keyframe c = Some kf ∧ video_headers (store_slot slot ts payload c) = video_headers c.
Proof.
  destruct slot as [|l|l|]; cbn [store_slot].
  - auto.
  - unfold video_header_unchanged, set_header. destruct l as [|t [|t' l]]; cbv zeta.
    2: { case_match eqn:E; simpl; [|done]. apply andb_true_iff in E as [E1%bool_decide_eq_true E2%bool_decide_eq_true].
         intros ?. right. split; [done|]. unfold video_headers. simpl. by rewrite E1, insert_id. }
    all: case_match eqn:E; simpl; [|done]; apply andb_true_iff in E as [E1%bool_decide_eq_true E2%bool_decide_eq_true];
      intros ?; right; split; [done|]; unfold video_headers; simpl; by rewrite E1, E2.
  - destruct (set_header l payload (audio_track_headers c)). auto.
  - intros [= <-]. by left.
Qed.

Lemma clear_keyframe slot c kf : last_keyframe (clear_slot slot c) = Some kf →
  last_keyframe c = Some kf ∧ video_headers (clear_slot slot c) = video_headers c.
Proof. destruct slot; cbn [clear_slot]; auto; done. Qed.

(** The operations other than caching a frame of the route only remove entries. *)
Lemma drop_subset o s : op_ok (max_cache_bytes s) o → cache_ok s → ∀ k c,
  stream_cache (snd (op o s)) !! k = Some c →
  stream_cache s !! k = Some c ∨ ∃ iter f, o = CacheFrame iter f ∧ route_of f = k ∧ effect f s (snd (op o s)).
Proof.
  intros Ho H k c. destruct o as [iter f|p key|p]; cbn [op].
  - destruct Ho as (Hi & Hf & Ha). destruct (cache_frame_spec iter Hi f s H Ha Hf) as (s' & -> & _ & _ & Hk & He).
    simpl. intros E. destruct (decide (k = route_of f)) as [->|]; [right; by exists iter, f|left; by eapply Hk].
  - simpl. intros E. left. revert E. unfold abandon. repeat case_match; try done; simpl;
      rewrite lookup_delete_Some; naive_solver.
  - simpl. intros E. left. revert E. unfold forget_publisher. case_match; [|done].
    destruct (drop_unowned_spec l (s <| publisher_cache_keys := delete p (publisher_cache_keys s) |>)) as (_ & _ & ->).
    by case_match.
Qed.

(** One step: the keyframe is the frame just cached, or it and its headers were there. *)
Lemma keyframe_step o s k c kf : op_ok (max_cache_bytes s) o → cache_ok s →
  stream_cache (snd (op o s)) !! k = Some c → last_keyframe c = Some kf →
  (∃ iter f, o = CacheFrame iter f ∧ route_of f = k ∧ goes_to f KeyframeSlot ∧ kf = (rf_timestamp f, rf_payload f))
  ∨ ∃ c0, stream_cache s !! k = Some c0 ∧ last_keyframe c0 = Some kf ∧ video_headers c = video_headers c0.
Proof.
  intros Ho H E Hkf. destruct (drop_subset o s Ho H k c E) as [E0|(iter & f & -> & <- & He)]; [right; by exists c|].
  set (s' := snd _) in *. destruct He as [He|(slot & Hg & [He|He])]; rewrite E in He.
  - right. by exists c.
  - injection He as ->. unfold stored in Hkf |- *. apply store_keyframe in Hkf as [(-> & -> & _)|[Hkf Hv]].
    + left. by exists iter, f.
    + right. destruct (stream_cache s !! route_of f) as [c0|]; [by exists c0|done].
  - right. destruct (stream_cache s !! route_of f) as [c0|]; [|done]. simpl in He. unfold cleared in He.
    case_match; [done|]. injection He as ->. apply clear_keyframe in Hkf as [? ?]. by exists c0.
Qed.

Definition headers_after (max_bytes : Z) (ops : list Op) (k : Route) : option (option bytes * gmap Z bytes) :=
  video_headers <$> stream_cache (run max_bytes ops) !! k.

(** C38. A late joiner never gets a keyframe under the wrong configuration: when
    the cache of a route holds a keyframe, it is the payload of a frame of that
    route classified as one, and the video sequence headers cached now are
    exactly those that were cached when that frame was. *)
Theorem keyframe_has_its_headers max_bytes ops k c ts payload : 0 ≤ max_bytes → Forall (op_ok max_bytes) ops →
  stream_cache (run max_bytes ops) !! k = Some c → last_keyframe c = Some (ts, payload) →
  ∃ before iter f after, ops = before ++ CacheFrame iter f :: after
    ∧ route_of f = k ∧ slot_of f = Ok (Some KeyframeSlot) ∧ rf_timestamp f = ts ∧ rf_payload f = payload
    ∧ headers_after max_bytes ops k = headers_after max_bytes (before ++ [CacheFrame iter f]) k.
Proof.
  intros Hm. revert c. induction ops as [|o ops IH] using rev_ind; intros c H E Hkf.
  { unfold run in E. simpl in E. by rewrite lookup_empty in E. }
  apply Forall_app in H as [Hs [Ho _]%Forall_cons]. destruct (run_ok max_bytes ops Hm Hs) as [H1 H2].
  pose proof E as E'. rewrite cache_run_snoc in E'.
  destruct (keyframe_step o (run max_bytes ops) k c (ts, payload)) as [(iter & f & -> & Hr & Hg & [= -> ->])|(c0 & E0 & Hk0 & Hv)];
    [by rewrite H2|done..| |].
  - exists ops, iter, f, []. split_and!; try done. unfold goes_to in Hg. by case_match.
  - destruct (IH c0 Hs E0 Hk0) as (before & iter & f & after & -> & ? & ? & ? & ? & Hh).
    exists before, iter, f, (after ++ [o]). split_and!; try done.
    + by rewrite <- app_assoc.
    + rewrite <- Hh. unfold headers_after. rewrite E, E0. simpl. by rewrite Hv.
Qed.

(** * Pressure on the bytes *)

(** Only entries that the publisher alone tracks count as freeable. *)
Lemma freeable_own s key p : (∀ k, k ∈ default [] (publisher_cache_keys s !! p) → k = key) →
  stream_cache_freeable_bytes s key p = 0.
Proof.
  intros Hp. unfold stream_cache_freeable_bytes. rewrite map_empty_filter_2; [apply msum_empty|].
  intros k c _ (Hne & Hco & (id & keys & Ei & Hk & _)%map_Exists_lookup). simpl in *.
  apply not_true_iff_false in Hco. apply Hco, co_tracked_spec. exists id, keys. split_and!; [done| |done].
  intros ->. apply Hne, Hp. by rewrite Ei.
Qed.

(** C39. A reservation that needs bytes freed is refused, and nothing is evicted,
    when the publisher tracks no other route, however many routes of other
    external publishers the eviction loop could drop: the check before the loop
    counts a route of another publisher as tracked by somebody else, and so as
    not freeable. *)
Theorem pressure_spares_external_routes iter s key incoming existing publisher :
  max_cache_bytes s < projected s key incoming existing →
  (∀ k, k ∈ default [] (publisher_cache_keys s !! publisher) → k = key) →
  reserve_stream_cache_storage iter key incoming existing publisher s = (Ok false, s).
Proof.
  intros Ht Hp. unfold reserve_stream_cache_storage. cbv zeta. destruct (_ <? _); [done|].
  rewrite (proj2 (Z.ltb_lt _ _) Ht), freeable_own by done.
  assert (saturating_sub (projected s key incoming existing) 0 = projected s key incoming existing) as ->.
  { unfold projected, saturating_sub. lia. }
  by rewrite (proj2 (Z.ltb_lt _ _) Ht).
Qed.

(** ** Samples *)

Definition sample_iter : gmap Z (list Route) → list (Z * list Route) := map_to_list.
Definition sample_route (n : Z) : Route := (text "live", [n]).
(** An AVC sequence header with one sequence and one picture parameter set. *)
Definition sample_header (x : Z) : bytes :=
  [23; 0; 0; 0; 0; 1; 66; 0; 30; 255; 225; 0; 4; 103; 66; 0; x; 1; 0; 1; 104].
Definition sample_keyframe : bytes := [23; 1; 0; 0; 0; 0; 0; 0; 1; 101].
Definition sample_frame (n publisher ts : Z) (payload : bytes) : RelayFrame :=
  mkRelayFrame Video ts payload None (text "live") [n] publisher.
Definition sample_ops : list Op :=
  [CacheFrame sample_iter (sample_frame 1 7 0 (sample_header 30));
   CacheFrame sample_iter (sample_frame 1 7 40 sample_keyframe);
   CacheFrame sample_iter (sample_frame 1 7 80 (sample_header 30))].

Lemma sample_ops_ok : Forall (op_ok 1000) sample_ops.
Proof.
  unfold sample_ops. repeat (apply Forall_cons; split; [|]); [..|apply Forall_nil_2];
    (split; [intros; done|split; [split; [done|apply bytes_okb_ok; by vm_compute|apply bytes_okb_ok; by vm_compute]|by vm_compute]]).
Qed.

Lemma cache_stays_bounded_witness :
  cache_ok (run 1000 sample_ops) ∧ max_cache_bytes (run 1000 sample_ops) = 1000
  ∧ fst (op (Forget 7) (run 1000 sample_ops)) = Ok tt.
Proof.
  apply (cache_stays_bounded 1000 sample_ops (Forget 7)); [done|].
  apply Forall_app. split; [apply sample_ops_ok|by apply Forall_singleton].
Defined.

Lemma keyframe_has_its_headers_witness : ∃ c before iter f after,
  stream_cache (run 1000 sample_ops) !! sample_route 1 = Some c ∧ last_keyframe c = Some (40, sample_keyframe)
  ∧ sample_ops = before ++ CacheFrame iter f :: after ∧ rf_payload f = sample_keyframe
  ∧ headers_after 1000 sample_ops (sample_route 1) = headers_after 1000 (before ++ [CacheFrame iter f]) (sample_route 1).
Proof.
  set (c := mkStreamCache (Some (sample_header 30)) ∅ None ∅ None (Some (40, sample_keyframe))).
  assert (stream_cache (run 1000 sample_ops) !! sample_route 1 = Some c) as E by (vm_compute; reflexivity).
  destruct (keyframe_has_its_headers 1000 sample_ops (sample_route 1) c 40 sample_keyframe ltac:(lia) sample_ops_ok E eq_refl)
    as (before & iter & f & after & H1 & _ & _ & _ & H2 & H3).
  exists c, before, iter, f, after. exact (conj E (conj eq_refl (conj H1 (conj H2 H3)))).
Defined.

(** Two injected routes: the first fills the cache, the second is refused,
    although dropping the first would make room. *)
Definition sample_full : Caches :=
  snd (cache_relay_frame sample_iter (sample_frame 1 (EXTERNAL_PUBLISHER_ID_BIT + 1) 0 (sample_header 30)) (start 30)).

Lemma pressure_spares_external_routes_witness :
  reserve_stream_cache_storage sample_iter (sample_route 2) 21 0 (EXTERNAL_PUBLISHER_ID_BIT + 2) sample_full
    = (Ok false, sample_full)
  ∧ is_Some (stream_cache sample_full !! sample_route 1)
  ∧ (let '(evicted, s) := evict_for_stream_cache_pressure sample_iter (EXTERNAL_PUBLISHER_ID_BIT + 2) (sample_route 2) sample_full in
     evicted = true ∧ projected s (sample_route 2) 21 0 ≤ max_cache_bytes s).
Proof.
  split; [|split; [vm_compute; by eexists|vm_compute; by split]].
  apply (pressure_spares_external_routes sample_iter sample_full (sample_route 2) 21 0 (EXTERNAL_PUBLISHER_ID_BIT + 2)).
  - by vm_compute.
  - replace (publisher_cache_keys sample_full !! (EXTERNAL_PUBLISHER_ID_BIT + 2)) with (@None (list Route))
      by (vm_compute; reflexivity). intros k Hk. by apply not_elem_of_nil in Hk.
Defined.
End CacheInv.
