(* ===== verification/Staging.v ===== *)
(** Zero-copy staging of a fan-out, src/server/mod.rs [StagedRelayMedia]: each
    frame's chunk body is encoded once per chunk size and shared, and every
    connection's messages are a linked list through one vector. *)
From S2P Require Import Prelude Bytes Types Buffer Source ChunkWriter MediaOut Session RelayQueue.
#[local] Set Warnings "-clear-no-such-hyp".

Record StagedRelayMessage : Type := mkStagedMessage {
  sm_header : Z * Z;
  sm_body : nat;
  sm_next : option nat;
}.

Record StagedRelayMedia : Type := mkStaged {
  sg_bodies : list ((nat * Z) * Buffer * bool);
  sg_spare : option Buffer;
  sg_headers : Buffer;
  sg_messages : list StagedRelayMessage;
  sg_lists : list (option (nat * nat));
  sg_conns : list nat;
}.
#[global] Instance eta_staged : Eta StagedRelayMedia := λ s,
  mkStaged (sg_bodies s) (sg_spare s) (sg_headers s) (sg_messages s) (sg_lists s) (sg_conns s).

Module Staging.

Definition default : StagedRelayMedia := mkStaged [] None Buffer.new [] [] [].

(** [bodies.iter().rposition(|(k, _, _)| *k == key)]. *)
Fixpoint rposition (key : nat * Z) (bodies : list ((nat * Z) * Buffer * bool)) : option nat :=
  match bodies with
  | [] => None
  | e :: bodies =>
      match rposition key bodies with
      | Some i => Some (S i)
      | None => if decide (e.1.1 = key) then Some 0%nat else None
      end
  end.

Definition body_for (frame_index : nat) (frame : RelayFrame) (chunk_size : Z) : ST StagedRelayMedia (option nat) := λ s,
  let key := (frame_index, chunk_size) in
  match rposition key (sg_bodies s) with
  | Some i => (Ok (Some i), s)
  | None =>
      let body := stdpp.option.default Buffer.new (sg_spare s) in
      let s := s <| sg_spare := None |> in
      match MediaOut.encode_media_body (rf_frame_type frame) (rf_timestamp frame) (rf_payload frame) chunk_size body with
      | (Ok _, body) =>
          (Ok (Some (length (sg_bodies s))), s <| sg_bodies := sg_bodies s ++ [(key, body, false)] |>)
      | (Err _, _) => (Ok None, s)
      | (Panic, _) => (Panic, s)
      end
  end.

(** [while bodies.last() is not staged { pop, reset, keep as spare }], on the
    bodies from the last on. *)
Fixpoint release (rev_bodies : list ((nat * Z) * Buffer * bool)) (spare : option Buffer)
    : list ((nat * Z) * Buffer * bool) * option Buffer :=
  match rev_bodies with
  | (_, body, false) :: rev_bodies => release rev_bodies (Some (Buffer.reset body))
  | _ => (rev_bodies, spare)
  end.
Definition release_unstaged_bodies (s : StagedRelayMedia) : StagedRelayMedia :=
  let '(rev_bodies, spare) := release (rev (sg_bodies s)) (sg_spare s) in
  s <| sg_bodies := rev rev_bodies |> <| sg_spare := spare |>.

(** [lists.resize(conn + 1, None)] when it is shorter. *)
Definition grown (conn : nat) (lists : list (option (nat * nat))) : list (option (nat * nat)) :=
  lists ++ replicate (conn + 1 - length lists) None.

Definition push_message (conn : nat) (header : Z * Z) (body : nat) : ST StagedRelayMedia unit := λ s,
  let index := length (sg_messages s) in
  let s := s <| sg_messages := sg_messages s ++ [mkStagedMessage header body None] |>
             <| sg_lists := grown conn (sg_lists s) |> in
  match sg_lists s !! conn with
  | None => (Panic, s)
  | Some (Some (head, tail)) =>
      match sg_messages s !! tail with
      | None => (Panic, s)
      | Some m =>
          (Ok tt, s <| sg_messages := <[tail := mkStagedMessage (sm_header m) (sm_body m) (Some index)]> (sg_messages s) |>
                    <| sg_lists := <[conn := Some (head, index)]> (sg_lists s) |>)
      end
  | Some None =>
      (Ok tt, s <| sg_lists := <[conn := Some (index, index)]> (sg_lists s) |> <| sg_conns := sg_conns s ++ [conn] |>)
  end.

(** The iterator of [messages_of], with a bound on its turns. *)
Fixpoint follow (fuel : nat) (messages : list StagedRelayMessage) (next : option nat) : Res (list StagedRelayMessage) :=
  match next with
  | None => Ok []
  | Some i =>
      match fuel, messages !! i with
      | S fuel, Some m => rest ← follow fuel messages (sm_next m); Ok (m :: rest)
      | _, _ => Panic
      end
  end.
Definition messages_of (s : StagedRelayMedia) (conn : nat) : Res (list StagedRelayMessage) :=
  follow (length (sg_messages s)) (sg_messages s) (fst <$> mjoin (sg_lists s !! conn)).

(** [parts] of one connection: a header and a body per message. *)
Fixpoint parts_from (headers : bytes) (bodies : list ((nat * Z) * Buffer * bool)) (l : list StagedRelayMessage)
    : Res (list bytes) :=
  match l with
  | [] => Ok []
  | m :: l =>
      header ← slice headers (fst (sm_header m)) (snd (sm_header m));
      match bodies !! sm_body m with
      | None => Panic
      | Some (_, body, _) => body ← Buffer.peek body; rest ← parts_from headers bodies l; Ok (header :: body :: rest)
      end
  end.
Definition parts_of (s : StagedRelayMedia) (conn : nat) : Res (list bytes) :=
  headers ← Buffer.peek (sg_headers s);
  l ← messages_of s conn;
  parts_from headers (sg_bodies s) l.

(** A message staged behind a header that was just appended to [headers]:
    [staged.bodies[body].2 = true; staged.push_message(..)]. *)
Definition stage_message (conn : nat) (header : Z * Z) (body : nat) : ST StagedRelayMedia unit := λ s,
  match sg_bodies s !! body with
  | None => (Panic, s)
  | Some (key, b, _) => push_message conn header body (s <| sg_bodies := <[body := (key, b, true)]> (sg_bodies s) |>)
  end.

(** * The linked lists *)

(** A staged message: connection, header and body. *)
Abbreviation pushed := (nat * (Z * Z) * nat)%type.

Definition of_conn (c : nat) (l : list pushed) : list pushed := filter (λ p : pushed, p.1.1 = c) l.

Fixpoint first_of (c : nat) (l : list pushed) : option nat :=
  match l with
  | [] => None
  | p :: l => if decide (p.1.1 = c) then Some 0%nat else S <$> first_of c l
  end.
Fixpoint last_of (c : nat) (l : list pushed) : option nat :=
  match l with
  | [] => None
  | p :: l => match last_of c l with Some j => Some (S j) | None => if decide (p.1.1 = c) then Some 0%nat else None end
  end.
Definition next_same (l : list pushed) (c i : nat) : option nat := (λ j, (S i + j)%nat) <$> first_of c (drop (S i) l).

Definition link (l : list pushed) (i : nat) (p : pushed) : StagedRelayMessage :=
  mkStagedMessage p.1.2 p.2 (next_same l p.1.1 i).

(** Connections in the order of their first message. *)
Definition conns_of (l : list pushed) : list nat :=
  foldl (λ cs p, if decide (p.1.1 ∈ cs) then cs else cs ++ [p.1.1]) [] l.

(** The head and the tail of a connection's list. *)
Definition ends_of (c : nat) (l : list pushed) : option (nat * nat) :=
  first_of c l ≫= λ h, (λ t, (h, t)) <$> last_of c l.

Record linked (l : list pushed) (s : StagedRelayMedia) : Prop := {
  l_messages : sg_messages s = imap (link l) l;
  l_lists : ∀ c, mjoin (sg_lists s !! c) = ends_of c l;
  l_conns : sg_conns s = conns_of l;
}.

Lemma first_of_some c l j : first_of c l = Some j →
  ∃ p, l !! j = Some p ∧ p.1.1 = c ∧ of_conn c l = p :: of_conn c (drop (S j) l).
Proof.
  revert j. induction l as [|p l IH]; intros j E; [done|]. unfold of_conn in *. simpl in E. rewrite filter_cons.
  destruct (decide (p.1.1 = c)) as [Hp|Hp]; simplify_eq.
  - exists p. split_and!; [done..|]. cbn [drop]. by rewrite drop_0.
  - destruct (first_of c l) as [k|]; simplify_eq/=. destruct (IH k eq_refl) as (q & Hq & Ho & ->). by exists q.
Qed.

Lemma first_of_none c l : first_of c l = None → of_conn c l = [].
Proof.
  induction l as [|p l IH]; intros E; [done|]. unfold of_conn in *. simpl in E. rewrite filter_cons.
  destruct (decide (p.1.1 = c)); [done|]. apply IH. by destruct (first_of c l).
Qed.

Lemma first_of_snoc c l p : first_of c (l ++ [p]) =
  match first_of c l with Some j => Some j | None => if decide (p.1.1 = c) then Some (length l) else None end.
Proof.
  induction l as [|q l IH]; simpl; [by case_decide|]. destruct (decide (q.1.1 = c)); [done|]. rewrite IH.
  destruct (first_of c l); [done|]. by case_decide.
Qed.

Lemma last_of_snoc c l p : last_of c (l ++ [p]) = if decide (p.1.1 = c) then Some (length l) else last_of c l.
Proof.
  induction l as [|q l IH]; simpl; [done|]. rewrite IH. by destruct (decide (p.1.1 = c)).
Qed.

Lemma next_same_snoc l p c i : (i < length l)%nat → next_same (l ++ [p]) c i =
  match next_same l c i with Some j => Some j | None => if decide (p.1.1 = c) then Some (length l) else None end.
Proof.
  intros Hi. unfold next_same. rewrite drop_app_le by lia. rewrite first_of_snoc.
  destruct (first_of c (drop (S i) l)); simpl; [done|]. case_decide; simpl; [|done]. f_equal. rewrite length_drop. lia.
Qed.

(** The last message of a connection is the one without a successor. *)
Lemma last_of_next l c i p : l !! i = Some p → p.1.1 = c → last_of c l = Some i ↔ next_same l c i = None.
Proof.
  revert i. induction l as [|q l IH] using rev_ind; intros i E Hp; [done|]. rewrite last_of_snoc.
  destruct (decide (i < length l)%nat) as [Hi|Hi].
  - rewrite lookup_app_l in E by done. rewrite next_same_snoc by done. specialize (IH i E Hp).
    destruct (next_same l c i) eqn:En; case_decide; try naive_solver.
    + split; [|done]. intros [= <-]. lia.
    + split; [intros [= <-]; lia|done].
  - assert (i = length l) as ->.
    { apply lookup_lt_Some in E. rewrite length_app in E. simpl in E. lia. }
    rewrite lookup_app_r, Nat.sub_diag in E by lia. simplify_eq/=. rewrite decide_True by done.
    unfold next_same. rewrite drop_ge by (rewrite length_app; simpl; lia). done.
Qed.

Lemma last_of_some c l t : last_of c l = Some t → ∃ p, l !! t = Some p ∧ p.1.1 = c.
Proof.
  revert t. induction l as [|q l IH] using rev_ind; intros t; [done|]. rewrite last_of_snoc. case_decide.
  - intros [= <-]. exists q. rewrite lookup_app_r, Nat.sub_diag by lia. done.
  - intros (p & Hp & ?)%IH. exists p. split; [|done]. rewrite lookup_app_l; [done|by eapply lookup_lt_Some].
Qed.

Lemma first_last_none c l : first_of c l = None ↔ last_of c l = None.
Proof.
  induction l as [|p l IH] using rev_ind; [done|]. rewrite first_of_snoc, last_of_snoc.
  destruct (first_of c l), (last_of c l); case_decide; naive_solver.
Qed.

Lemma imap_link_snoc l p : imap (link (l ++ [p])) (l ++ [p]) =
  imap (λ i q, if decide (q.1.1 = p.1.1 ∧ next_same l q.1.1 i = None)
               then mkStagedMessage q.1.2 q.2 (Some (length l)) else link l i q) l
  ++ [mkStagedMessage p.1.2 p.2 None].
Proof.
  rewrite imap_app. f_equal.
  - apply imap_ext. intros i q Hq%lookup_lt_Some. unfold link. rewrite next_same_snoc by done.
    destruct (next_same l q.1.1 i); [by rewrite decide_False by naive_solver|].
    destruct (decide (p.1.1 = q.1.1)) as [E|E]; [by rewrite decide_True|by rewrite decide_False by naive_solver].
  - simpl. unfold compose, link, next_same. rewrite Nat.add_0_r, drop_ge by (rewrite length_app; simpl; lia). done.
Qed.

Lemma grown_lookup c lists c' : mjoin (grown c lists !! c') = mjoin (lists !! c') ∧ is_Some (grown c lists !! c).
Proof.
  unfold grown. split.
  - destruct (decide (c' < length lists)%nat); [by rewrite lookup_app_l|]. rewrite lookup_app_r by lia.
    rewrite (lookup_ge_None_2 lists) by lia. destruct (replicate _ _ !! _) as [o|] eqn:E; [|done].
    by apply lookup_replicate in E as [-> _].
  - apply lookup_lt_is_Some_2. rewrite length_app, length_replicate. lia.
Qed.

Lemma conns_of_in l c : c ∈ conns_of l ↔ first_of c l ≠ None.
Proof.
  induction l as [|p l IH] using rev_ind; [split; [by intros ?%not_elem_of_nil|done]|].
  unfold conns_of in *. rewrite foldl_app, first_of_snoc. simpl. set (cs := foldl _ [] l) in *.
  destruct (first_of c l) eqn:E; case_decide; destruct (decide (p.1.1 = c)) as [<-|]; set_solver.
Qed.

(** Appending a message keeps the lists. *)
Lemma push_linked l s c h b : linked l s → ∃ s', push_message c h b s = (Ok tt, s')
  ∧ linked (l ++ [(c, h, b)]) s'
  ∧ sg_bodies s' = sg_bodies s ∧ sg_headers s' = sg_headers s ∧ sg_spare s' = sg_spare s.
Proof.
  intros [Hm Hl Hc]. unfold push_message. cbv zeta.
  set (s1 := s <| sg_messages := _ |> <| sg_lists := _ |>).
  assert (sg_messages s1 = imap (link l) l ++ [mkStagedMessage h b None]) as E1 by (unfold s1; simpl; by rewrite Hm).
  assert (length (sg_messages s) = length l) as Hlen by (by rewrite Hm, length_imap).
  destruct (proj2 (grown_lookup c (sg_lists s) c)) as [o Eo]. pose proof (proj1 (grown_lookup c (sg_lists s) c)) as Ej.
  change (sg_lists s1) with (grown c (sg_lists s)). rewrite Eo in *. simpl in Ej. rewrite Hl in Ej. unfold ends_of in Ej.
  assert (∀ c', c' ≠ c → mjoin (grown c (sg_lists s) !! c') = ends_of c' (l ++ [(c, h, b)])) as Hother.
  { intros c' Hne. rewrite (proj1 (grown_lookup c (sg_lists s) c')), Hl. unfold ends_of. rewrite first_of_snoc, last_of_snoc. simpl.
    rewrite !decide_False by done. by destruct (first_of c' l). }
  assert (c < length (grown c (sg_lists s)))%nat as Hcl by (by eapply lookup_lt_Some).
  destruct o as [[head tail]|].
  - destruct (first_of c l) as [f|] eqn:Ef; simpl in Ej; [|done].
    destruct (last_of c l) as [tl|] eqn:Et; simpl in Ej; [|done]. injection Ej as <- <-.
    destruct (last_of_some c l tail Et) as (p & Hp & Hpc).
    assert (imap (link l) l !! tail = Some (link l tail p)) as Hlk by (by rewrite list_lookup_imap, Hp).
    assert (tail < length l)%nat as Htl by (by eapply lookup_lt_Some).
    rewrite E1. rewrite lookup_app_l by (by rewrite length_imap). rewrite Hlk. eexists. split; [reflexivity|].
    split; [|done]. split; simpl.
    + rewrite imap_link_snoc, insert_app_l by (by rewrite length_imap). f_equal. apply list_eq. intros i.
      rewrite list_lookup_imap. destruct (decide (i = tail)) as [->|Hne].
      * rewrite list_lookup_insert_eq by (by rewrite length_imap). rewrite Hp. simpl.
        rewrite decide_True; [by rewrite Hlen|]. split; [done|]. by apply (last_of_next l p.1.1 tail p); [|done|rewrite Hpc].
      * rewrite list_lookup_insert_ne, list_lookup_imap by done. destruct (l !! i) as [q|] eqn:Eq; simpl; [|done].
        rewrite decide_False; [done|]. intros [Eqc En]. apply (last_of_next l q.1.1 i q) in En; [|done..]. congruence.
    + intros c'. destruct (decide (c' = c)) as [->|Hne].
      * rewrite list_lookup_insert_eq by done. simpl. unfold ends_of. rewrite first_of_snoc, last_of_snoc, Ef, decide_True by done.
        simpl. by rewrite Hlen.
      * rewrite list_lookup_insert_ne by done. by apply Hother.
    + rewrite Hc. unfold conns_of. rewrite foldl_app. simpl. rewrite decide_True; [done|].
      apply conns_of_in. by rewrite Ef.
  - destruct (first_of c l) as [f|] eqn:Ef.
    { destruct (last_of c l) as [t|] eqn:Et; [done|]. apply first_last_none in Et. congruence. }
    pose proof (proj1 (first_last_none c l) Ef) as El. eexists. split; [reflexivity|]. split; [|done]. split; simpl.
    + rewrite Hm, imap_link_snoc. f_equal. apply imap_ext. intros i q Hq. rewrite decide_False; [done|].
      intros [Eqc En]. apply (last_of_next l q.1.1 i q) in En; [|done..]. simpl in Eqc. congruence.
    + intros c'. destruct (decide (c' = c)) as [->|Hne].
      * rewrite list_lookup_insert_eq by done. simpl. unfold ends_of. rewrite first_of_snoc, last_of_snoc, Ef, !decide_True by done.
        simpl. by rewrite Hlen.
      * rewrite list_lookup_insert_ne by done. by apply Hother.
    + rewrite Hc. unfold conns_of. rewrite foldl_app. simpl. rewrite decide_False; [done|].
      intros ?%conns_of_in. congruence.
Qed.

Lemma of_conn_head p l : of_conn p.1.1 (p :: l) = p :: of_conn p.1.1 l.
Proof. unfold of_conn. by rewrite filter_cons, decide_True. Qed.

(** Following the links from a message of [c] gives the messages of [c] from there. *)
Lemma follow_linked l fuel : ∀ i p, l !! i = Some p → (length l <= i + fuel)%nat →
  ∃ ms, follow fuel (imap (link l) l) (Some i) = Ok ms
    ∧ (λ m, (p.1.1, sm_header m, sm_body m)) <$> ms = of_conn p.1.1 (drop i l).
Proof.
  induction fuel as [|fuel IH]; intros i p E Hf; [apply lookup_lt_Some in E; lia|]. cbn [follow].
  rewrite list_lookup_imap, E. cbn [fmap option_fmap option_map]. rewrite (drop_S l p i), of_conn_head by done.
  change (sm_next (link l i p)) with (next_same l p.1.1 i). unfold next_same.
  destruct (first_of p.1.1 (drop (S i) l)) as [j|] eqn:Ej; cbn [fmap option_fmap option_map].
  - apply first_of_some in Ej as (q & Hq & Hqc & Ho). rewrite lookup_drop in Hq.
    destruct (IH (S i + j)%nat q Hq) as (ms & -> & Hms); [lia|]. rewrite Ok_bind. eexists. split; [reflexivity|].
    rewrite Hqc in Hms. cbn [fmap list_fmap]. rewrite Hms. simpl. f_equal; [by destruct p as [[? ?] ?]|].
    rewrite (drop_S l q), Ho, <- Hqc, of_conn_head, drop_drop by done. do 2 f_equal. f_equal. lia.
  - apply first_of_none in Ej. assert (∀ k ms, follow k ms None = Ok []) as -> by (by intros []).
    rewrite Ok_bind. eexists. split; [reflexivity|]. rewrite Ej. simpl. by destruct p as [[? ?] ?].
Qed.

Lemma messages_linked l s c : linked l s → ∃ ms, messages_of s c = Ok ms
  ∧ (λ m, (c, sm_header m, sm_body m)) <$> ms = of_conn c l.
Proof.
  intros [Hm Hl _]. unfold messages_of. rewrite Hl, Hm, length_imap. unfold ends_of.
  destruct (first_of c l) as [i|] eqn:Ef.
  - destruct (last_of c l) eqn:Et; [|apply first_last_none in Et; congruence]. simpl.
    destruct (first_of_some c l i Ef) as (p & Hp & Hpc & Ho).
    destruct (follow_linked l (length l) i p Hp) as (ms & E & Hms); [lia|]. exists ms. split; [done|].
    rewrite (drop_S l p), of_conn_head in Hms by done. rewrite Hpc in Hms. by rewrite Hms, Ho.
  - simpl. exists []. split; [by destruct (length l)|]. symmetry. by apply first_of_none.
Qed.

(** * What is staged *)

Section content.
(** The frames of the batch. *)
Context (frames : nat → RelayFrame).

Definition body_of (i : nat) (chunk_size : Z) : bytes :=
  Writer.body_bytes (MediaOut.csid_of (rf_frame_type (frames i))) (rf_payload (frames i)) chunk_size
    (Writer.ext_field (rf_timestamp (frames i))).

(** What a connection is to be sent: a header and a body. *)
Abbreviation entry := (nat * bytes * bytes)%type.

Definition backed (s : StagedRelayMedia) (p : pushed) (e : entry) : Prop :=
  p.1.1 = e.1.1 ∧ 0 ≤ p.1.2.1 ∧ p.1.2.1 ≤ p.1.2.2 ≤ zlen (Buffer.contents (sg_headers s))
  ∧ ztake (p.1.2.2 - p.1.2.1) (zdrop p.1.2.1 (Buffer.contents (sg_headers s))) = e.1.2
  ∧ ∃ k b, sg_bodies s !! p.2 = Some (k, b, true) ∧ Buffer.contents b = e.2.

Record staged_ok (log : list entry) (s : StagedRelayMedia) : Prop := {
  s_linked : ∃ l, linked l s ∧ Forall2 (backed s) l log;
  s_headers : Buffer.wf (sg_headers s);
  s_bodies : Forall (λ e : (nat * Z) * Buffer * bool, Buffer.wf e.1.2 ∧ 0 ≤ e.1.1.2
    ∧ Buffer.contents e.1.2 = body_of e.1.1.1 e.1.1.2) (sg_bodies s);
  s_spare : ∀ b, sg_spare s = Some b → Buffer.wf b ∧ Buffer.contents b = [];
}.

Lemma default_staged : staged_ok [] default.
Proof.
  split; [|apply Buffer.wf_new|constructor|done]. exists []. split; [|constructor]. split; try done.
Qed.

Lemma rposition_some key bodies i : rposition key bodies = Some i → ∃ b f, bodies !! i = Some (key, b, f).
Proof.
  revert i. induction bodies as [|[[k b] f] bodies IH]; intros i E; [done|]. simpl in E.
  destruct (rposition key bodies) as [j|].
  - injection E as <-. destruct (IH j eq_refl) as (b' & f' & ?). by exists b', f'.
  - case_decide; simplify_eq/=. by exists b, f.
Qed.

Lemma backed_bodies s s' p e : sg_headers s' = sg_headers s →
  (∀ i k b, sg_bodies s !! i = Some (k, b, true) → sg_bodies s' !! i = Some (k, b, true)) →
  backed s p e → backed s' p e.
Proof. intros E Hb (? & ? & ? & ? & k & b & ? & ?). unfold backed. rewrite E. do 4 (split; [done|]). eauto. Qed.

Lemma linked_same l s s' : sg_messages s' = sg_messages s → sg_lists s' = sg_lists s → sg_conns s' = sg_conns s →
  linked l s → linked l s'.
Proof. intros E1 E2 E3 []. split; by rewrite ?E1, ?E2, ?E3. Qed.

Lemma chunk_body_cases csid payload cs ext b : Writer.csid_ok csid → 0 ≤ cs → Buffer.wf b →
  (∃ b', Writer.write_chunk_body csid payload cs ext b = (Ok tt, b') ∧ Buffer.wf b'
     ∧ Buffer.contents b' = Buffer.contents b ++ Writer.body_bytes csid payload cs ext)
  ∨ ∃ e b', Writer.write_chunk_body csid payload cs ext b = (Err e, b').
Proof.
  intros Hc Hs Hb. destruct (Z.leb_spec (zlen (Buffer.contents b)
    + zlen (Writer.body_bytes csid payload cs ext)) (Buffer.limit b)) as [Hf|Hf].
  - left. destruct (Writer.emits_chunk_body csid payload cs ext Hc Hs b Hb Hf) as (b1 & E1 & ? & ? & _). eauto.
  - right. unfold Writer.write_chunk_body. pose proof Hc as Hc'. unfold Writer.csid_ok in Hc'.
    rewrite (proj2 (Z.ltb_ge RTMP_MAX_CSID csid)), (proj2 (Z.ltb_ge csid RTMP_MIN_CSID)) by lia.
    do 2 erewrite bind_ok by reflexivity. cbv zeta.
    destruct (Buffer.make_room_spec (zlen (Writer.body_bytes csid payload cs ext)) b Hb ltac:(zlia)) as (b1 & _ & H).
    rewrite Buffer.available_contents, (proj2 (Z.leb_gt _ _) Hf) in H by done.
    rewrite Writer.zlen_body_bytes in H by done. exists Internal, b1. apply bind_err. unfold map_err, Buffer.reserve.
    unfold Writer.chunk_body_len in *. rewrite Writer.eff_chunk_size_idem. by rewrite H.
Qed.

(** A body is encoded at most once, and is the frame's at that chunk size. *)
Lemma body_for_spec log s i cs : staged_ok log s → 0 ≤ cs →
  ∃ o s', body_for i (frames i) cs s = (Ok o, s') ∧ staged_ok log s'
    ∧ sg_headers s' = sg_headers s
    ∧ ∀ n, o = Some n → ∃ b f, sg_bodies s' !! n = Some ((i, cs), b, f) ∧ Buffer.wf b ∧ Buffer.contents b = body_of i cs.
Proof.
  intros H Hcs. pose proof H as [[l [Hl Hb]] Hh Hbs Hsp]. unfold body_for. cbv zeta.
  destruct (rposition (i, cs) (sg_bodies s)) as [n|] eqn:E.
  { exists (Some n), s. split_and!; try done. intros ? [= <-]. destruct (rposition_some _ _ _ E) as (b & f & En).
    exists b, f. split; [done|]. pose proof (Forall_lookup_1 _ _ _ _ Hbs En) as (? & _ & ?). done. }
  set (body := stdpp.option.default Buffer.new (sg_spare s)).
  assert (Buffer.wf body ∧ Buffer.contents body = []) as [Hw Hc].
  { unfold body. destruct (sg_spare s); simpl; [by apply Hsp|]. split; [apply Buffer.wf_new|apply Buffer.contents_new]. }
  assert (MediaOut.encode_media_body (rf_frame_type (frames i)) (rf_timestamp (frames i)) (rf_payload (frames i)) cs =
    Writer.write_chunk_body (MediaOut.csid_of (rf_frame_type (frames i))) (rf_payload (frames i)) cs
      (Writer.ext_field (rf_timestamp (frames i)))) as -> by (by destruct (rf_frame_type (frames i))).
  destruct (chunk_body_cases (MediaOut.csid_of (rf_frame_type (frames i))) (rf_payload (frames i)) cs
    (Writer.ext_field (rf_timestamp (frames i))) body (MediaOut.csid_of_ok _) Hcs Hw) as [(b' & -> & Hw' & Hc')|(e & b' & ->)].
  - rewrite Hc in Hc'. cbn [app] in Hc'. eexists _, _. split; [reflexivity|]. split_and!; [|done|].
    + split; simpl; [|done| |done].
      * exists l. split; [by apply (linked_same l s)|]. eapply Forall2_impl; [exact Hb|]. intros p e.
        apply backed_bodies; [done|]. intros k kk b Hk. simpl. by apply lookup_app_l_Some.
      * apply Forall_app. split; [done|]. by apply Forall_singleton.
    + intros ? [= <-]. exists b', false. simpl. rewrite lookup_app_r, Nat.sub_diag by lia. done.
  - eexists None, _. split; [reflexivity|]. split_and!; [|done..]. split; simpl; try done.
    exists l. split; [by apply (linked_same l s)|]. eapply Forall2_impl; [exact Hb|]. intros p en. by apply backed_bodies.
Qed.

Lemma release_prefix r spare r' spare' : release r spare = (r', spare') →
  ∃ d, r = d ++ r' ∧ Forall (λ e : (nat * Z) * Buffer * bool, e.2 = false) d
    ∧ (spare' = spare ∨ ∃ e, e ∈ d ∧ spare' = Some (Buffer.reset e.1.2)).
Proof.
  revert spare. induction r as [|[[k b] f] r IH]; intros spare E; simpl in E.
  - simplify_eq. exists []. split_and!; [done|constructor|by left].
  - destruct f; [simplify_eq; exists []; split_and!; [done|constructor|by left]|].
    destruct (IH _ E) as (d & -> & Hd & Hs). exists ((k, b, false) :: d). split_and!; [done|by constructor|].
    right. destruct Hs as [->|(e & ? & ->)]; [exists (k, b, false); split; [by left|done]|]. exists e. split; [by right|done].
Qed.

Lemma release_spec log s : staged_ok log s → staged_ok log (release_unstaged_bodies s).
Proof.
  intros [[l [Hl Hb]] Hh Hbs Hsp]. unfold release_unstaged_bodies.
  destruct (release (rev (sg_bodies s)) (sg_spare s)) as [r sp] eqn:E.
  apply release_prefix in E as (d & Er & Hd & Hs). apply (f_equal (@rev _)) in Er. rewrite rev_involutive, rev_app_distr in Er.
  assert (Forall (λ e : (nat * Z) * Buffer * bool, e.2 = false) (rev d)) as Hd'.
  { apply Forall_forall. intros e He. rewrite Forall_forall in Hd. apply Hd. apply list_elem_of_In, in_rev, list_elem_of_In, He. }
  split; simpl.
  - exists l. split; [by apply (linked_same l s)|]. eapply Forall2_impl; [exact Hb|]. intros p e.
    apply backed_bodies; [done|]. intros i k b Ei. simpl. rewrite Er in Ei. apply lookup_app_Some in Ei as [Ei|[_ Ei]]; [done|].
    pose proof (Forall_lookup_1 _ _ _ _ Hd' Ei). done.
  - done.
  - rewrite Er in Hbs. by apply Forall_app in Hbs as [? _].
  - intros b ->. destruct Hs as [Hs|(e & He & [= ->])]; [by apply Hsp|].
    assert (e ∈ sg_bodies s) as Hin.
    { rewrite Er. apply elem_of_app. right. apply list_elem_of_In. apply -> in_rev. by apply list_elem_of_In. }
    rewrite Forall_forall in Hbs. destruct (Hbs e Hin) as (Hw & _). pose proof (Buffer.reset_spec e.1.2 Hw). naive_solver.
Qed.

(** A header appended to the headers, and the message behind it. *)
Lemma stage_spec log s c i n cs b f header headers : staged_ok log s → sg_bodies s !! n = Some ((i, cs), b, f) →
  Buffer.wf headers → Buffer.contents headers = Buffer.contents (sg_headers s) ++ header →
  let start := Buffer.available (sg_headers s) in
  ∃ s', stage_message c (start, start + zlen header) n (s <| sg_headers := headers |>) = (Ok tt, s')
    ∧ staged_ok (log ++ [(c, header, Buffer.contents b)]) s' ∧ sg_headers s' = headers.
Proof.
  intros [[l [Hl Hb]] Hh Hbs Hsp] En Hw Hc. cbv zeta. rewrite Buffer.available_contents by done.
  unfold stage_message. change (sg_bodies (s <| sg_headers := headers |>)) with (sg_bodies s). rewrite En.
  set (s1 := s <| sg_headers := headers |> <| sg_bodies := _ |>).
  assert (linked l s1) as Hl1 by (by apply (linked_same l s)).
  set (start := zlen (Buffer.contents (sg_headers s))).
  destruct (push_linked l s1 c (start, start + zlen header) n Hl1) as (s' & -> & Hl' & Eb & Eh & Es).
  exists s'. split; [done|]. assert (sg_headers s' = headers) as Eh' by done. split; [|done].
  assert (sg_bodies s' = <[n := (i, cs, b, true)]> (sg_bodies s)) as Eb' by done.
  assert (n < length (sg_bodies s))%nat as Hn by (by eapply lookup_lt_Some).
  pose proof (zlen_nonneg header). pose proof (zlen_nonneg (Buffer.contents (sg_headers s))) as Hs0. split.
  - exists (l ++ [(c, (start, start + zlen header), n)]). split; [done|]. apply Forall2_app.
    + eapply Forall2_impl; [exact Hb|]. intros p e (H1 & H2 & H3 & H4 & k & b0 & H5 & H6).
      unfold backed. rewrite Eh', Hc. split_and!; [done|done|lia|rewrite zlen_app; lia| |].
      * rewrite zdrop_app_l by lia. rewrite ztake_app_l; [done|]. rewrite zlen_zdrop by lia. lia.
      * destruct (decide (p.2 = n)) as [E|Hne].
        -- exists (i, cs), b. rewrite Eb', E, list_lookup_insert_eq by done. split; [done|]. rewrite E in H5. simplify_eq. done.
        -- exists k, b0. by rewrite Eb', list_lookup_insert_ne.
    + apply Forall2_cons. split; [|constructor]. unfold backed. simpl. rewrite Eh', Hc. split_and!.
      * done.
      * done.
      * lia.
      * rewrite zlen_app. unfold start. lia.
      * unfold start. rewrite zdrop_app_exact. apply ztake_all. lia.
      * exists (i, cs), b. by rewrite Eb', list_lookup_insert_eq.
  - by rewrite Eh'.
  - rewrite Eb'. apply Forall_insert; [done|]. pose proof (Forall_lookup_1 _ _ _ _ Hbs En). done.
  - intros b0. rewrite Es. apply Hsp.
Qed.

(** The parts handed to a connection are what was staged for it. *)
Definition parts_for (c : nat) (log : list entry) : list bytes :=
  concat ((λ e : entry, [e.1.2; e.2]) <$> filter (λ e : entry, e.1.1 = c) log).

Lemma parts_spec log s c : staged_ok log s → parts_of s c = Ok (parts_for c log).
Proof.
  intros [[l [Hl Hb]] Hh Hbs Hsp]. unfold parts_of. rewrite Buffer.peek_contents, Ok_bind by done.
  destruct (messages_linked l s c Hl) as (ms & -> & Hms). rewrite Ok_bind. clear Hl.
  unfold parts_for, of_conn in *. revert ms Hms. induction Hb as [|p e l log Hp Hb IH]; intros ms Hms.
  - by destruct ms.
  - rewrite filter_cons in Hms. rewrite filter_cons. destruct Hp as (Ec & H1 & H2 & H3 & k & b & H4 & H5).
    destruct (decide (p.1.1 = c)) as [Hpc|Hpc].
    + rewrite decide_True by congruence. destruct ms as [|m ms]; [done|]. rewrite fmap_cons in Hms.
      injection Hms as Hm Hms. rewrite fmap_cons. cbn [concat parts_from].
      destruct p as [[pc [a z]] pb]. simpl in *. injection Hm as -> Hm <-. rewrite Hm. simpl.
      rewrite slice_ok by lia. rewrite Ok_bind, H4.
      assert (Buffer.wf b) as Hwb by (pose proof (Forall_lookup_1 _ _ _ _ Hbs H4) as [? _]; done).
      rewrite Buffer.peek_contents, Ok_bind by done. rewrite (IH ms Hms), Ok_bind. do 2 f_equal; [done|]. by f_equal.
    + rewrite decide_False by congruence. by apply IH.
Qed.

(** ** A fan-out *)

(** What the fan-out of a batch does: stage a frame for a connection behind a
    header, encode it for a connection that cannot stage, or go on to the next
    frame. *)
Inductive Step : Type :=
  | Stage (conn frame_index : nat) (chunk_size : Z) (header : bytes)
  | Encode (frame_index : nat) (chunk_size : Z)
  | NextFrame.

Definition step (o : Step) : ST StagedRelayMedia (option entry) := λ s,
  match o with
  | Stage c i cs header =>
      match body_for i (frames i) cs s with
      | (Ok (Some n), s) =>
          let start := Buffer.available (sg_headers s) in
          match Buffer.write header (sg_headers s) with
          | (Ok _, headers) =>
              match stage_message c (start, start + zlen header) n (s <| sg_headers := headers |>) with
              | (Ok _, s) => (Ok (Some (c, header, body_of i cs)), s)
              | (Err e, s) => (Err e, s)
              | (Panic, s) => (Panic, s)
              end
          | (Err _, headers) => (Ok None, s <| sg_headers := headers |>)
          | (Panic, headers) => (Panic, s <| sg_headers := headers |>)
          end
      | (Ok None, s) => (Ok None, s)
      | (Err e, s) => (Err e, s)
      | (Panic, s) => (Panic, s)
      end
  | Encode i cs => match body_for i (frames i) cs s with
                   | (Panic, s) => (Panic, s)
                   | (_, s) => (Ok None, s)
                   end
  | NextFrame => (Ok None, release_unstaged_bodies s)
  end.

Definition step_ok (o : Step) : Prop := match o with Stage _ _ cs _ | Encode _ cs => 0 ≤ cs | NextFrame => True end.

(** The steps in order, and what was staged. *)
Fixpoint fan_out (steps : list Step) (log : list entry) (s : StagedRelayMedia) : Res (list entry) * StagedRelayMedia :=
  match steps with
  | [] => (Ok log, s)
  | o :: steps =>
      match step o s with
      | (Ok e, s) => fan_out steps (log ++ option_list e) s
      | (Err e, s) => (Err e, s)
      | (Panic, s) => (Panic, s)
      end
  end.

Lemma step_spec log o s : step_ok o → staged_ok log s →
  ∃ e s', step o s = (Ok e, s') ∧ staged_ok (log ++ option_list e) s'.
Proof.
  intros Ho H. destruct o as [c i cs header|i cs|]; cbn [step].
  - destruct (body_for_spec log s i cs H Ho) as (n & s1 & -> & H1 & _ & Hn).
    destruct n as [n|]; [|exists None, s1; simpl; by rewrite app_nil_r].
    destruct (Hn n eq_refl) as (b & f & En & Hwb & Hcb).
    destruct (Buffer.write_spec header (sg_headers s1) (s_headers _ _ H1)) as (hs & Hw & _ & _ & E).
    case_match; destruct E as [-> Hc].
    + destruct (stage_spec log s1 c i n cs b f header hs H1 En Hw Hc) as (s' & E & Hs' & _). cbv zeta in E.
      rewrite E. eexists _, _. split; [reflexivity|]. cbn [option_list option_rect]. by rewrite <- Hcb.
    + eexists None, _. split; [reflexivity|]. simpl. rewrite app_nil_r. destruct H1 as [[l [Hl Hb]] ? ? ?].
      split; try done. exists l. split; [by apply (linked_same l s1)|]. eapply Forall2_impl; [exact Hb|].
      intros p e. unfold backed. simpl. by rewrite Hc.
  - destruct (body_for_spec log s i cs H Ho) as (n & s1 & -> & H1 & _). exists None, s1. simpl. by rewrite app_nil_r.
  - eexists None, _. split; [reflexivity|]. simpl. rewrite app_nil_r. by apply release_spec.
Qed.

Lemma fan_out_spec steps : ∀ log s, Forall step_ok steps → staged_ok log s →
  ∃ log' s', fan_out steps log s = (Ok log', s') ∧ staged_ok log' s'.
Proof.
  induction steps as [|o steps IH]; intros log s Ho H; [by exists log, s|]. apply Forall_cons in Ho as [Ho Hos].
  cbn [fan_out]. destruct (step_spec log o s Ho H) as (e & s1 & -> & H1). by apply IH.
Qed.
End content.

(** Distinct connections in the order of their first entry. *)
Definition conns_in (log : list (nat * bytes * bytes)) : list nat :=
  foldl (λ cs e, if decide (e.1.1 ∈ cs) then cs else cs ++ [e.1.1]) [] log.

Lemma backed_conns s l log : Forall2 (backed s) l log → conns_of l = conns_in log.
Proof.
  intros H. unfold conns_of, conns_in. generalize (@nil nat) at 2 4.
  induction H as [|p e l log (E & _) _ IH]; [done|]. intros cs. simpl. rewrite E. apply IH.
Qed.

(** C40. Staging refines a queue per connection: whatever is staged, encoded and
    released in a fan-out, it does not panic, and each connection is handed
    exactly the header and the body of every frame staged for it, in the order
    of staging, although bodies are encoded once per chunk size and shared,
    unused ones are dropped on the way, and the messages of all connections
    are linked through one vector. The connections are visited in the order of
    their first message. *)
Theorem staging_refines_queues frames steps : Forall step_ok steps →
  ∃ log s, fan_out frames steps [] default = (Ok log, s)
    ∧ (∀ c, parts_of s c = Ok (parts_for c log)) ∧ sg_conns s = conns_in log.
Proof.
  intros Ho. destruct (fan_out_spec frames steps [] default Ho (default_staged frames)) as (log & s & E & H).
  exists log, s. split_and!; [done|intros c; by apply (parts_spec frames)|].
  destruct (s_linked _ _ _ H) as (l & [_ _ ->] & Hb). by apply (backed_conns s).
Qed.

Definition sample_frames (i : nat) : RelayFrame :=
  mkRelayFrame Video (40 * Z.of_nat i) [23; 1; 0; 0; 0; Z.of_nat i] None (text "live") (text "cam") 1.
Definition sample_steps : list Step :=
  [Stage 2 0 4 [70]; Encode 0 128; Stage 5 0 4 [71]; NextFrame; Stage 5 1 128 [72]; Encode 1 4; NextFrame; Stage 2 2 4 [73]].

Lemma staging_refines_queues_witness : ∃ log s, fan_out sample_frames sample_steps [] default = (Ok log, s)
  ∧ parts_of s 5 = Ok (parts_for 5 log) ∧ sg_conns s = conns_in log.
Proof.
  destruct (staging_refines_queues sample_frames sample_steps) as (log & s & E & Hp & Hc).
  - unfold sample_steps. repeat (apply Forall_cons; split; [by vm_compute|]). apply Forall_nil_2.
  - exists log, s. exact (conj E (conj (Hp 5%nat) Hc)).
Defined.
End Staging.
