(* ===== verification/Server.v ===== *)
(** The server, src/server/mod.rs: the connection table, admission, socket-less
    publishers, and one tick of the relay (receive, evict, detach, batch,
    replay, fan out, flush, remove). *)
From stdpp Require Import sorting.
From S2P Require Import Prelude Bytes Types Buffer ChunkState Modex Multitrack Delivery MediaOut Handshake Session ConnRelay ConnSend ConnMedia ConnAuth ConnCommand ConnRecv RelayQueue StreamCache Staging.

(** The order in which a [HashMap] is iterated: some order of its entries. *)
Class Iteration : Type := iterate : ∀ K `{Countable K} V, gmap K V → list (K * V).
Arguments iterate {_ K _ _ V} m.
Class IterationLaws {order : Iteration} : Prop :=
  iterate_perm : ∀ K `{Countable K} V (m : gmap K V), iterate m ≡ₚ map_to_list m.

(** An address of a peer: 32 and 128 bits. *)
Inductive IpAddr : Type := V4 (addr : Z) | V6 (addr : Z).
#[global] Instance IpAddr_eq_dec : EqDecision IpAddr.
Proof. solve_decision. Defined.

(** What a read of a socket returns: bytes, none of them at the end of the
    stream, or the two errors. *)
Inductive Received : Type := Data (d : bytes) | WouldBlock | Failed.

(** A connection with its socket: the address, whether it is TLS, the bytes it
    took, the answers it will give to writes and reads, and the callbacks it
    was accepted with. *)
Record Peer : Type := mkPeer {
  peer_conn : Conn;
  peer_hooks : Hooks;
  peer_addr : IpAddr;
  peer_tls : bool;
  peer_wire : bytes;
  peer_net : list (nat + ErrorCode);
  peer_incoming : list Received;
}.
#[global] Instance eta_peer : Eta Peer := λ p,
  mkPeer (peer_conn p) (peer_hooks p) (peer_addr p) (peer_tls p) (peer_wire p) (peer_net p) (peer_incoming p).

Record PlayerFlowLimits : Type := mkFlow { soft : Z; hard : Z; congestion_timeout : Z }.

(** [Server], without its listeners and pending TLS handshakes. The two cache
    maps are in [caches]. *)
Record Server : Type := mkServer {
  settings : Settings;
  max_connections : Z;
  max_connections_per_addr : Z;
  max_relay_sends_per_poll : Z;
  flow_limits : PlayerFlowLimits;
  pending_auth_timeout : Z;
  server_hooks : Hooks;
  running : bool;
  connections : list Peer;
  caches : Cache.Caches;
  next_conn_id : Z;
  conn_ids_issued : bool;
  active_publish_routes : PublishRouteRegistry.table;
  relay_export : option RelayQueue.RelayExportBuffer;
  pending_injected_relay : list RelayFrame;
  orphaned_relay : list RelayFrame;
  relay_interleave_inject_first : bool;
  relay_local_rr_offset : Z;
  external_route_ids : gmap (bytes * bytes) Z;
  external_route_seq : Z;
  inject_route_last_seen : gmap (bytes * bytes) Z;
  server_events : list Event;
}.
#[global] Instance eta_server : Eta Server := λ s,
  mkServer (settings s) (max_connections s) (max_connections_per_addr s) (max_relay_sends_per_poll s)
    (flow_limits s) (pending_auth_timeout s) (server_hooks s) (running s) (connections s) (caches s)
    (next_conn_id s) (conn_ids_issued s) (active_publish_routes s) (relay_export s)
    (pending_injected_relay s) (orphaned_relay s) (relay_interleave_inject_first s)
    (relay_local_rr_offset s) (external_route_ids s) (external_route_seq s) (inject_route_last_seen s)
    (server_events s).

(** Outcomes of [player_flow_decision] and [relay_frame_to_player]. *)
Inductive PlayerFlow : Type := Send | Skip | Disconnect.
Inductive PlayerOutcome : Type := Skipped | Delivered | DeliveryFailed | Dropped.

Record FrameDelivery : Type := mkFrameDelivery {
  fd_delivery : Delivery.DeliveryHint;
  audio_waits_for_video : bool;
  route_video_multitrack : option bool;
}.

Record StreamInitSnapshot : Type := mkSnapshot {
  snap_metadata : option bytes;
  snap_avc_header : option bytes;
  snap_aac_header : option bytes;
  snap_video_track_headers : list (Z * bytes);
  snap_audio_track_headers : list (Z * bytes);
  snap_last_keyframe : option (Z * bytes);
}.

(** What one tick reads of its surroundings: the clock, and the time and random
    seeds of the handshake answer each connection may give. *)
Record Tick : Type := mkTick {
  tick_now : Z;
  tick_time : Z;
  tick_seeds : Z → Handshake.seed * Handshake.seed;
}.

(** A fan-out: the staged media, the sends counted so far, the hints of the
    frames done, the connections to close, the frames left for later. *)
Record FanOut : Type := mkFanOut {
  fo_staged : StagedRelayMedia;
  fo_sends : Z;
  fo_hints : list Delivery.DeliveryHint;
  fo_closed : list nat;
  fo_rest : list RelayFrame;
}.

Module Server.
Import Conn RelayQueue Cache.

Abbreviation Route := (bytes * bytes)%type.

Definition DEFAULT_MAX_CONNECTIONS_PER_ADDR : Z := 4.
Definition DEFAULT_MAX_RELAY_SENDS_PER_POLL : Z := 4096.
Definition DEFAULT_PLAYER_SEND_BUFFER_SOFT_LIMIT : Z := 4 * 1024 * 1024.
Definition DEFAULT_PLAYER_SEND_BUFFER_HARD_LIMIT : Z := 32 * 1024 * 1024.
Definition DEFAULT_PLAYER_CONGESTION_TIMEOUT : Z := 15000.
Definition MAX_INJECT_ROUTE_COMPONENT_BYTES : Z := 1024.
Definition MAX_EXTERNAL_PUBLISH_ROUTES : Z := 1024.
Definition INJECT_ROUTE_STALE : Z := 120000.
Definition MAX_RECV_BYTES_PER_CONN_PER_POLL : Z := 256 * 1024.
Definition MAX_ACCEPTS_PER_POLL : Z := 256.
Definition MAX_BUDGET_DRAIN_PASSES_PER_CONN_PER_POLL : nat := 3.

(** [Server::with_tls_ctx], with what an integrator sets before it listens. *)
Definition with_tls_ctx (st : Settings) (max_conns max_per_addr : Z) (h : Hooks) : Server :=
  mkServer st max_conns max_per_addr DEFAULT_MAX_RELAY_SENDS_PER_POLL
    (mkFlow DEFAULT_PLAYER_SEND_BUFFER_SOFT_LIMIT DEFAULT_PLAYER_SEND_BUFFER_HARD_LIMIT
       DEFAULT_PLAYER_CONGESTION_TIMEOUT)
    DEFAULT_PENDING_AUTH_TIMEOUT h false [] (mkCaches ∅ ∅ (rl_max_stream_cache_bytes (st_limits st)))
    1 false ∅ None [] [] true 0 ∅ 1 ∅ [].

(** * Calls on connections *)

Definition world_of (p : Peer) (s : Server) : World :=
  mkWorld (peer_conn p) (active_publish_routes s) (server_events s) (peer_wire p) (peer_net p).
Definition peer_of (w : World) (p : Peer) : Peer :=
  p <| peer_conn := conn w |> <| peer_wire := wire w |> <| peer_net := net w |>.

(** A call on [self.connections[i]]. *)
Definition on_peer {A} (i : nat) (m : Peer → ST World A) : ST Server A := λ s,
  match connections s !! i with
  | None => (Panic, s)
  | Some p =>
      let '(r, w) := m p (world_of p s) in
      (r, s <| connections := <[i := peer_of w p]> (connections s) |>
            <| active_publish_routes := routes w |> <| server_events := events w |>)
  end.
Definition upd_conn (i : nat) (f : Conn → Conn) : ST Server unit := on_peer i (λ _, upd f).
(** [self.connections[i].incoming] when some of it has been read. *)
Definition upd_peer (i : nat) (f : Peer → Peer) : ST Server unit :=
  modify (λ s, s <| connections := alter f i (connections s) |>).

(** [m.is_err()]. *)
Definition is_err {S A} (m : ST S A) : ST S bool := λ s,
  match m s with
  | (Ok _, s) => (Ok false, s)
  | (Err _, s) => (Ok true, s)
  | (Panic, s) => (Panic, s)
  end.

(** [for (i, conn) in connections.iter_mut().enumerate()], where [f i] says
    whether [i] is pushed to [closed]. *)
Fixpoint each (ixs : list nat) (f : nat → ST Server bool) : ST Server (list nat) :=
  match ixs with
  | [] => mret []
  | i :: ixs => b ← f i; closed ← each ixs f; mret (if b : bool then i :: closed else closed)
  end.
Definition indices (s : Server) : list nat := seq 0 (length (connections s)).
Definition each_connection (f : nat → ST Server bool) : ST Server (list nat) := λ s, each (indices s) f s.

(** [self.connections.iter_mut().find(|c| c.conn_id == conn_id)], as its index. *)
Fixpoint find_index {A} (p : A → bool) (l : list A) : option nat :=
  match l with
  | [] => None
  | x :: l => if p x then Some 0%nat else S <$> find_index p l
  end.
Definition find_conn (id : Z) (s : Server) : option nat :=
  find_index (λ p, conn_id (peer_conn p) =? id) (connections s).

Definition release_all_publish_routes (id : Z) (s : Server) : Server :=
  s <| active_publish_routes := filter (λ kv : Route * Z, kv.2 ≠ id) (active_publish_routes s) |>.

(** * Admission *)

(** IPv4-mapped addresses are the IPv4 address. *)
Definition canonical_ip (ip : IpAddr) : IpAddr :=
  match ip with
  | V6 a => if a >> 32 =? 65535 then V4 (a .& 4294967295) else V6 a
  | V4 a => V4 a
  end.
Definition peer_ip : IpAddr → IpAddr := canonical_ip.

Definition max_connections_reached (s : Server) : bool :=
  (0 <? max_connections s) && (max_connections s <=? zlen (connections s)).
Definition max_per_addr (s : Server) : Z :=
  if 0 <? max_connections_per_addr s then max_connections_per_addr s else DEFAULT_MAX_CONNECTIONS_PER_ADDR.
Definition active_connections_for_ip (ip : IpAddr) (s : Server) : Z :=
  zlen (List.filter (λ p, bool_decide (peer_ip (peer_addr p) = ip)) (connections s)).

Definition allocate_conn_id (s : Server) : option Z * Server :=
  let id := next_conn_id s in
  if (id =? 0) || (EXTERNAL_PUBLISHER_ID_BIT <=? id) then (None, s)
  else (Some id, s <| next_conn_id := id + 1 |> <| conn_ids_issued := true |>).

Definition add_connection (now fd : Z) (tls : bool) (addr : IpAddr) (s : Server) : bool * Server :=
  if max_connections_reached s then (false, s) else
  if max_per_addr s <=? active_connections_for_ip (peer_ip addr) s then (false, s) else
  match allocate_conn_id s with
  | (None, s) => (false, s)
  | (Some id, s) =>
      (true, s <| connections := connections s
                 ++ [mkPeer (accepted (settings s) now fd id) (server_hooks s) addr tls [] [] []] |>)
  end.

(** [assert!]s on the base. *)
Definition set_conn_id_base (base : Z) : ST Server unit := λ s,
  if (base =? 0) || (EXTERNAL_PUBLISHER_ID_BIT <=? base)
     || conn_ids_issued s || negb (bool_decide (connections s = []))
  then (Panic, s) else (Ok tt, s <| next_conn_id := base |>).

(** The sockets the listeners hand out, in the order they are accepted. *)
Fixpoint accept_new_connections (now : Z) (backlog : list (Z * bool * IpAddr)) (serviced : Z) (s : Server) : Server :=
  match backlog with
  | [] => s
  | (fd, tls, addr) :: backlog =>
      if max_connections_reached s then s else
      if MAX_ACCEPTS_PER_POLL <=? serviced then s
      else accept_new_connections now backlog (serviced + 1) (snd (add_connection now fd tls addr s))
  end.

Section iteration.
Context {order : Iteration}.

(** * Socket-less publishers *)

Definition external_claims (t : PublishRouteRegistry.table) : Z :=
  Z.of_nat (base.size (filter (λ kv : Route * Z, is_external_publisher_id kv.2 = true) t)).

(** The id under which a route may be injected: the one it is claimed with, or
    a new one. *)
Definition claim_external (key : Route) (s : Server) : Res Z * Server :=
  match active_publish_routes s !! key with
  | Some owner =>
      if decide (external_route_ids s !! key = Some owner) then (Ok owner, s) else (Err Internal, s)
  | None =>
      if MAX_EXTERNAL_PUBLISH_ROUTES <=? external_claims (active_publish_routes s) then (Err Internal, s) else
      let '(id, ids, seq) := allocate_external_publisher_id (external_route_ids s) (external_route_seq s) key in
      (Ok id, s <| external_route_ids := ids |> <| external_route_seq := seq |>
                <| active_publish_routes := <[key := id]> (active_publish_routes s) |>)
  end.

Definition inject_relay_frame (now : Z) (app stream_name : bytes) (frame_type : FrameType) (timestamp : Z)
    (payload : bytes) : ST Server unit :=
  guard_st (Z.min DEFAULT_MAX_MSG_LENGTH RTMP_WIRE_MAX_MSG_LENGTH <? zlen payload) Internal;;
  guard_st (bool_decide (app = []) || bool_decide (stream_name = [])) Internal;;
  guard_st ((MAX_INJECT_ROUTE_COMPONENT_BYTES <? zlen app)
            || (MAX_INJECT_ROUTE_COMPONENT_BYTES <? zlen stream_name)) Internal;;
  normalized ← lift (Modex.normalize_modex_payload_with_frame_type payload CAPS_EX_MASK_MODEX frame_type);
  let cache := Relay.owned_payload normalized in
  s ← get_st;
  let retained := retained_bytes (mkRelayFrame frame_type timestamp payload cache app stream_name 0) in
  let pending := sumZ retained_bytes (pending_injected_relay s) in
  guard_st ((MAX_PENDING_RELAY_FRAMES <=? zlen (pending_injected_relay s))
            || (rl_max_pending_relay_bytes (st_limits (settings s)) <? saturating_add pending retained)) Internal;;
  let key := (app, stream_name) in
  id ← claim_external key;
  modify (λ s, s <| pending_injected_relay := pending_injected_relay s
                      ++ [mkRelayFrame frame_type timestamp payload cache app stream_name id] |>
                 <| inject_route_last_seen := <[key := now]> (inject_route_last_seen s) |>).

Definition release_injected_route (key : Route) (s : Server) : Server :=
  let s := s <| inject_route_last_seen := delete key (inject_route_last_seen s) |> in
  let external_id := external_route_ids s !! key in
  let s := s <| external_route_ids := delete key (external_route_ids s) |>
             <| pending_injected_relay :=
                  List.filter (λ f, negb (bool_decide (route_of f = key))) (pending_injected_relay s) |> in
  match external_id with
  | None => s
  | Some id =>
      let s := s <| caches := forget_publisher id (caches s) |> in
      if decide (active_publish_routes s !! key = Some id)
      then s <| active_publish_routes := delete key (active_publish_routes s) |> else s
  end.

Definition release_all_injected_routes (s : Server) : Server :=
  let external := filter (λ kv : Route * Z, is_external_publisher_id kv.2 = true) (active_publish_routes s) in
  let s := foldl (λ s kv, release_injected_route kv.1 s) s (iterate external) in
  s <| external_route_ids := ∅ |>.

Definition reap_stale_inject_routes (now : Z) (s : Server) : Server :=
  let pending_routes := route_of <$> pending_injected_relay s in
  let expired := filter (λ kv : Route * Z, INJECT_ROUTE_STALE < since now kv.2 ∧ kv.1 ∉ pending_routes)
                   (inject_route_last_seen s) in
  foldl (λ s kv, release_injected_route kv.1 s) s (iterate expired).

(** * Authorization *)

Definition complete_publish_authorization (now id request_id : Z) (allow : bool) : ST Server unit := λ s,
  match find_conn id s with
  | None => (Ok tt, s)
  | Some i =>
      (on_peer i (λ _, Auth.complete_publish_authorization now request_id allow);;
       ignore (on_peer i (λ _, Sender.flush now))) s
  end.

Definition reap_timed_out_pending_auth (now : Z) : ST Server (list nat) :=
  each_connection (λ i,
    s ← get_st;
    reaped ← on_peer i (λ _, Auth.reap_timed_out_pending_auth now (pending_auth_timeout s));
    ignore (on_peer i (λ _, Sender.flush now));;
    if reaped : bool then upd_conn i Sender.disconnect_transport;; mret true else mret false).

Definition request_reconnect (now id : Z) (tc_url description : option bytes) : ST Server unit := λ s,
  match find_conn id s with
  | None => (Err Internal, s)
  | Some i =>
      (on_peer i (λ _, Sender.send_reconnect_request tc_url description);; on_peer i (λ _, Sender.flush now)) s
  end.

(** * Evictions *)

(** One key a connection abandons. *)
Definition abandon_key (i : nat) (key : Route) (s : Server) : Server :=
  match connections s !! i with
  | None => s
  | Some p =>
      s <| connections := <[i := p <| peer_conn := Relay.note_abandoned_relay_route key.1 key.2 (peer_conn p) |>]> (connections s) |>
        <| caches := abandon (conn_id (peer_conn p)) key (caches s) |>
  end.

Definition drain_connection_evictions (i : nat) (s : Server) : gset (Route * Z) * Server :=
  match connections s !! i with
  | None => (∅, s)
  | Some p =>
      let c := peer_conn p in
      let pending := pending_cache_evictions c ++ abandoned_relay_routes c in
      let s := s <| connections := <[i := p <| peer_conn := c <| pending_cache_evictions := [] |> |>]> (connections s) |> in
      (list_to_set ((λ key, (key, conn_id c)) <$> pending), foldl (λ s key, abandon_key i key s) s pending)
  end.

Definition drain_pending_cache_evictions (s : Server) : gset (Route * Z) * Server :=
  foldl (λ '(abandoned, s) i, let '(keys, s) := drain_connection_evictions i s in (abandoned ∪ keys, s))
    (∅, s) (indices s).

Definition detach_displaced_route_owners (closed : list nat) (s : Server) : Server :=
  let closed_ids := omap (λ i, (λ p, conn_id (peer_conn p)) <$> connections s !! i) closed in
  let routes := active_publish_routes s in
  let displaced p :=
    let c := peer_conn p in
    negb (bool_decide (conn_id c ∈ closed_ids)) && publish_routes c
    && match claimed_publish_route c with
       | None => false
       | Some claimed => negb (bool_decide (routes !! (app c, claimed) = Some (conn_id c)))
       end in
  s <| connections :=
         (λ p, if displaced p then p <| peer_conn := Relay.detach_lost_publish_route (peer_conn p) |> else p)
           <$> connections s |>.

Definition drop_stale_pending_relay_for_abandoned_routes (abandoned : gset (Route * Z)) (s : Server) : Server :=
  s <| connections :=
         (λ p, let c := peer_conn p in
               if defer_media_relay c && negb (relay_enabled c) && negb (bool_decide (abandoned = ∅))
               then p <| peer_conn := c <| pending_relay :=
                      List.filter (λ f, negb (bool_decide ((route_of f, conn_id c) ∈ abandoned))) (pending_relay c) |> |>
               else p)
           <$> connections s |>.

(** * Receiving *)

(** Reads until the budget is spent, the socket would block, or the connection
    is to be closed, which is the answer. *)
Fixpoint recv_drain_one_connection (e : Env) (incoming : list Received) (bytes_drained : Z)
    : ST World (bool * list Received) := λ w,
  if MAX_RECV_BYTES_PER_CONN_PER_POLL <=? bytes_drained then (Ok (false, incoming), w) else
  if negb (transport (conn w)) then (Ok (true, incoming), w) else
  match incoming with
  | [] => (Ok (false, []), w)
  | Data [] :: incoming => (Ok (true, incoming), w)
  | Data d :: incoming =>
      match Receiver.recv e d w with
      | (Ok _, w) => recv_drain_one_connection e incoming (bytes_drained + zlen d) w
      | (Err _, w) => (Ok (true, incoming), w)
      | (Panic, w) => (Panic, w)
      end
  | WouldBlock :: incoming => (Ok (false, incoming), w)
  | Failed :: incoming => (Ok (true, incoming), w)
  end.

Fixpoint drain_buffered_messages (passes : nat) (e : Env) : ST World bool :=
  match passes with
  | O => mret false
  | S passes =>
      c ← self;
      if negb (budget_exhausted c) then mret false else
      closed ← is_err (Receiver.recv e []);
      if closed : bool then mret true else drain_buffered_messages passes e
  end.

(** * Replaying the init cache *)

Definition cached_payload_is_multitrack (frame_type : FrameType) (payload : bytes) : Res bool :=
  normalized ← Modex.normalize_modex_payload_with_frame_type payload CAPS_EX_MASK_MODEX frame_type;
  Ok (Multitrack.is_multitrack_container frame_type (Modex.view normalized)).

(** [if !cached_payload_is_multitrack(..) || conn.accepts_multitrack() { send_frame }]. *)
Definition replay_payload (frame_type : FrameType) (timestamp : Z) (payload : bytes) : ST World bool :=
  multitrack ← lift (cached_payload_is_multitrack frame_type payload);
  c ← self;
  if negb multitrack || Relay.accepts_multitrack c
  then is_err (Sender.send_frame frame_type timestamp payload) else mret false.

Definition replay_tracks (frame_type : FrameType) (tracks : gmap Z bytes) : ST World bool :=
  foldr (λ kv m,
    c ← self;
    failed ← if Relay.accepts_multitrack c then is_err (Sender.send_frame frame_type 0 kv.2) else mret false;
    rest ← m;
    mret (failed || rest)) (mret false) (iterate tracks).

Definition replay_headers (frame_type : FrameType) (header : option bytes) (tracks : gmap Z bytes) : ST World bool :=
  failed ← match header with Some hdr => replay_payload frame_type 0 hdr | None => mret false end;
  rest ← replay_tracks frame_type tracks;
  mret (failed || rest).

Definition replay_cached_video_headers (cache : StreamCache) : ST World bool :=
  replay_headers Video (avc_header cache) (video_track_headers cache).
Definition replay_cached_audio_headers (cache : StreamCache) : ST World bool :=
  replay_headers Audio (aac_header cache) (audio_track_headers cache).
Definition replay_cached_keyframe (cache : StreamCache) : ST World bool :=
  match last_keyframe cache with
  | Some (ts, kf) => replay_payload Video ts kf
  | None => mret false
  end.

Definition replay_cached_headers_to_conn (cache : StreamCache) (audio video : bool) : ST World bool :=
  failed ← match metadata cache with
           | Some md => if audio || video then is_err (Sender.send_data_message 0 md) else mret false
           | None => mret false
           end;
  headers_failed ← (if video then replay_cached_video_headers cache else mret false);
  let failed := failed || headers_failed in
  failed ← (if audio && negb failed then replay_cached_audio_headers cache else mret failed);
  if video && negb failed then replay_cached_keyframe cache else mret failed.

Definition replay_init_frames_for_conn (cache : gmap Route StreamCache) : ST World bool :=
  c ← self;
  if negb (transport c) || negb (needs_init_frames c) then mret false else
  match current_stream c with
  | None => mret false
  | Some stream =>
      if negb (is_playing stream) || negb (relay_enabled c) || Relay.has_pending_play_authorization c then mret false else
      upd (λ c, c <| needs_init_frames := false |>);;
      match cache !! (app c, Relay.relay_route_key c) with
      | None => mret false
      | Some entry =>
          send_failed ← replay_cached_headers_to_conn entry (receive_audio stream) (receive_video stream);
          when send_failed (upd (λ c, Sender.disconnect_transport
            (c <| relay_enabled := false |> <| needs_init_frames := false |>)));;
          mret send_failed
      end
  end.

Definition replay_init_frames_for_new_players : ST Server (list nat) :=
  each_connection (λ i, s ← get_st; on_peer i (λ _, replay_init_frames_for_conn (stream_cache (caches s)))).

Definition complete_play_authorization (now id request_id : Z) (allow : bool) : ST Server unit := λ s,
  match find_conn id s with
  | None => (Ok tt, s)
  | Some i =>
      (on_peer i (λ _, Auth.complete_play_authorization now request_id allow);;
       s ← get_st;
       failed ← on_peer i (λ _, replay_init_frames_for_conn (stream_cache (caches s)));
       if failed : bool then mret tt else ignore (on_peer i (λ _, Sender.flush now))) s
  end.

(** * The receive phase *)

Definition env_of (t : Tick) (p : Peer) : Env :=
  let seeds := tick_seeds t (conn_id (peer_conn p)) in
  mkEnv (peer_hooks p) (tick_now t) (tick_time t) (fst seeds) (snd seeds).

(** [a || b], where the right call is made only when the left one is false. *)
Definition or_else {S} (a b : ST S bool) : ST S bool := x ← a; if x : bool then mret true else b.

(** One connection of [recv_and_reap_connections]: whether it closed, whether
    an eviction is queued by now, and what is left to read. *)
Definition serve (e : Env) (readable : option (gset Z)) (cache : gmap Route StreamCache)
    (evictions_queued : bool) (incoming : list Received) : ST World (bool * bool * list Received) :=
  c ← self;
  let timed_out := Relay.session_setup_timed_out (now e) c in
  when timed_out (upd Sender.disconnect_transport);;
  let closed := timed_out || negb (transport c) in
  let skip_recv := match readable with Some r => negb (bool_decide (conn_id c ∈ r)) | None => false end in
  '(recv_closed, incoming) ← if closed || skip_recv then mret (false, incoming)
                             else recv_drain_one_connection e incoming 0;
  let closed := closed || recv_closed in
  closed ← or_else (mret closed) (drain_buffered_messages MAX_BUDGET_DRAIN_PASSES_PER_CONN_PER_POLL e);
  c ← self;
  let evictions_queued := evictions_queued || negb (bool_decide (pending_cache_evictions c = [])) in
  upd (Relay.rearm_deferred_init_replay (now e));;
  c ← self;
  closed ← (if negb closed && negb evictions_queued && needs_init_frames c
            then or_else (replay_init_frames_for_conn cache)
                   (c ← self;
                    if needs_init_frames c then mret false else is_err (Sender.flush (now e)))
            else mret closed);
  when closed (with_routes (λ t, (tt, filter (λ kv : Route * Z, kv.2 ≠ conn_id c) t)));;
  mret (closed, evictions_queued, incoming).

Fixpoint serve_all (t : Tick) (readable : option (gset Z)) (evictions_queued : bool) (ixs : list nat)
    : ST Server (list nat) :=
  match ixs with
  | [] => mret []
  | i :: ixs =>
      s ← get_st;
      '(closed, evictions_queued, incoming) ←
        on_peer i (λ p, serve (env_of t p) readable (stream_cache (caches s)) evictions_queued (peer_incoming p));
      upd_peer i (λ p, p <| peer_incoming := incoming |>);;
      rest ← serve_all t readable evictions_queued ixs;
      mret (if closed : bool then i :: rest else rest)
  end.
Definition recv_and_reap_connections (t : Tick) (readable : option (gset Z)) : ST Server (list nat) := λ s,
  serve_all t readable false (indices s) s.

(** * The batch *)

(** A queue that passes the filter is taken; the others are kept. *)
Definition gives_batch (c : Conn) : bool :=
  negb (defer_media_relay c) || relay_enabled c || (0 <? injected_media_bytes c)
  || negb (bool_decide (pending_relay c = [])).

Definition build_relay_frame_batch : ST Server (list RelayFrame) := λ s,
  let local_queues := List.filter (λ q, negb (bool_decide (q = [])))
    ((λ p, pending_relay (peer_conn p)) <$> List.filter (λ p, gives_batch (peer_conn p)) (connections s)) in
  let s := s <| connections :=
    (λ p, if gives_batch (peer_conn p) then p <| peer_conn := (peer_conn p) <| pending_relay := [] |> |> else p)
      <$> connections s |> in
  let '(start, s) :=
    if bool_decide (local_queues = []) then (0, s)
    else (relay_local_rr_offset s mod zlen local_queues,
          s <| relay_local_rr_offset := as_u64 (relay_local_rr_offset s + 1) |>) in
  (local_frames ← lift (round_robin_relay_queues local_queues start);
   s ← get_st;
   let local_frames := orphaned_relay s ++ local_frames in
   let injected_frames := pending_injected_relay s in
   let inject_first := relay_interleave_inject_first s in
   modify (λ s, s <| orphaned_relay := [] |> <| pending_injected_relay := [] |>
                  <| relay_interleave_inject_first := negb inject_first |>);;
   lift (merge_local_and_injected_by_route local_frames injected_frames inject_first)) s.

(** * Flow control *)

Definition route_video (frame : RelayFrame) (s : Server) : Res (option bool) :=
  match stream_cache (caches s) !! route_of frame with
  | None => Ok None
  | Some cache =>
      let tracks := negb (bool_decide (video_track_headers cache = ∅)) in
      if bool_decide (is_Some (avc_header cache)) || bool_decide (is_Some (last_keyframe cache)) || tracks then
        if tracks then Ok (Some true) else
        header ← match avc_header cache with
                 | Some header => cached_payload_is_multitrack Video header | None => Ok false end;
        if header : bool then Ok (Some true) else
        keyframe ← match last_keyframe cache with
                   | Some (_, keyframe) => cached_payload_is_multitrack Video keyframe | None => Ok false end;
        Ok (Some keyframe)
      else Ok None
  end.

Definition delivery_hint (frame : RelayFrame) (route_has_video : bool) : Res Delivery.DeliveryHint :=
  Delivery.classify (rf_frame_type frame) (cache_payload frame) route_has_video.
Definition export_hint (frame : RelayFrame) (s : Server) : Res Delivery.DeliveryHint :=
  video ← route_video frame s;
  delivery_hint frame (bool_decide (is_Some video)).

Definition always : FrameDelivery := mkFrameDelivery Delivery.Critical false None.
Definition frame_delivery (frame : RelayFrame) (s : Server) : Res FrameDelivery :=
  video ← route_video frame s;
  delivery ← delivery_hint frame (bool_decide (is_Some video));
  Ok (mkFrameDelivery delivery
        (bool_decide (delivery = Delivery.Droppable) && bool_decide (rf_frame_type frame = Audio)) video).

Definition conn_receives_route_video (c : Conn) (multitrack : option bool) : bool :=
  from_option receive_video false (current_stream c)
  && (negb (default false multitrack) || Relay.accepts_multitrack c).
Definition for_player (d : FrameDelivery) (c : Conn) : Delivery.DeliveryHint :=
  if audio_waits_for_video d && negb (conn_receives_route_video c (route_video_multitrack d))
  then Delivery.ResyncPoint else fd_delivery d.

Definition player_flow_decision (limits : PlayerFlowLimits) (delivery : Delivery.DeliveryHint)
    (backlog now : Z) (c : Conn) : PlayerFlow * Conn :=
  if hard limits <=? backlog then (Disconnect, c) else
  let soft := soft limits in
  if (soft =? 0) || bool_decide (delivery = Delivery.Critical) then (Send, c) else
  match relay_congestion c with
  | None =>
      if backlog <=? soft then (Send, c)
      else (Skip, c <| relay_congestion := Some (mkCongestion backlog now) |>)
  | Some congestion =>
      if bool_decide (delivery = Delivery.ResyncPoint) && (backlog <=? soft / 2)
      then (Send, c <| relay_congestion := None |>) else
      if (backlog <? min_backlog congestion) || (backlog =? 0)
      then (Skip, c <| relay_congestion := Some (mkCongestion backlog now) |>) else
      if congestion_timeout limits <=? since now (last_progress congestion) then (Disconnect, c)
      else (Skip, c)
  end.

Definition stop_relay_player (c : Conn) : Conn :=
  Sender.disconnect_transport (c <| relay_enabled := false |> <| needs_init_frames := false |>).

(** * Fan-out *)

Definition conn_will_receive_relay_frame (c : Conn) (frame : RelayFrame) : bool :=
  match current_stream c with
  | None => false
  | Some stream =>
      if negb (relay_enabled c) || negb (transport c) || negb (bool_decide (app c = rf_app frame))
         || negb (is_playing stream) || negb (bool_decide (Relay.relay_route_key c = rf_stream_name frame))
         || paused stream || Relay.has_pending_play_authorization c
      then false else
      if bool_decide (rf_frame_type frame = Audio) && negb (receive_audio stream) then false else
      if bool_decide (rf_frame_type frame = Video) && negb (receive_video stream) then false else
      let is_data := match rf_frame_type frame with Script | Metadata => true | _ => false end in
      if is_data && negb (receive_audio stream) && negb (receive_video stream) then false else
      negb (negb is_data && Multitrack.is_multitrack_container (rf_frame_type frame) (cache_payload frame)
            && negb (Relay.accepts_multitrack c))
  end.

(** The connections a frame goes to. *)
Definition players (frame : RelayFrame) (s : Server) : list nat :=
  omap (λ '(i, p), if conn_will_receive_relay_frame (peer_conn p) frame then Some i else None)
    (zip (indices s) (connections s)).
Definition count_relay_players (frame : RelayFrame) (s : Server) : Z :=
  zlen (List.filter (λ p, conn_will_receive_relay_frame (peer_conn p) frame) (connections s)).

(** [send_result] of [relay_frame_to_player]: whether it is an error. *)
Definition deliver (tls : bool) (i frame_index : nat) (frame : RelayFrame) (staged : StagedRelayMedia)
    : ST World (bool * StagedRelayMedia) := λ w,
  let ft := rf_frame_type frame in
  let ts := rf_timestamp frame in
  let len := zlen (rf_payload frame) in
  match Staging.body_for frame_index frame (Sender.media_chunk_size (conn w)) staged with
  | (Ok None, staged) => (Ok (true, staged), w)
  | (Ok (Some body), staged) =>
      match sg_bodies staged !! body with
      | None => (Panic, w)
      | Some (_, b, _) =>
          if Sender.can_stage_media tls (conn w) then
            match Sender.stage_encoded_media_body ft ts len (Buffer.available b) (sg_headers staged) w with
            | (Ok (header_len, headers), w) =>
                let header_start := Buffer.available (sg_headers staged) in
                match Staging.stage_message i (header_start, header_start + header_len) body
                        (staged <| sg_headers := headers |>) with
                | (Ok _, staged) => (Ok (false, staged), w)
                | _ => (Panic, w)
                end
            | (Err _, w) => (Ok (true, staged), w)
            | (Panic, w) => (Panic, w)
            end
          else
            (payload ← lift (Buffer.peek b);
             failed ← is_err (Sender.send_encoded_media_body ft ts len payload);
             mret (failed, staged)) w
      end
  | (_, _) => (Panic, w)
  end.

Definition relay_frame_to_player (t : Tick) (limits : PlayerFlowLimits) (tls : bool) (i frame_index : nat)
    (frame : RelayFrame) (delivery : FrameDelivery) (staged : StagedRelayMedia)
    : ST World (PlayerOutcome * StagedRelayMedia) :=
  c ← self;
  let backlog := Buffer.available (send_buffer c) + staged_media_bytes c in
  flow ← state_conn (player_flow_decision limits (for_player delivery c) backlog (tick_now t));
  match flow with
  | Skip =>
      upd (λ c, c <| relay_frames_dropped := saturating_add (relay_frames_dropped c) 1 |>);;
      mret (Skipped, staged)
  | Disconnect => upd stop_relay_player;; mret (Dropped, staged)
  | Send =>
      '(failed, staged) ← deliver tls i frame_index frame staged;
      when failed (upd stop_relay_player);;
      mret (if failed : bool then DeliveryFailed else Delivered, staged)
  end.

(** One frame to its players: the deliveries and the connections to close. *)
Fixpoint relay_frame_to_players (t : Tick) (limits : PlayerFlowLimits) (frame_index : nat) (frame : RelayFrame)
    (delivery : FrameDelivery) (staged : StagedRelayMedia) (ixs : list nat)
    : ST Server (Z * list nat * StagedRelayMedia) :=
  match ixs with
  | [] => mret (0, [], staged)
  | i :: ixs =>
      '(outcome, staged) ← on_peer i (λ p,
        relay_frame_to_player t limits (peer_tls p) i frame_index frame delivery staged);
      '(delivered, closed, staged) ← relay_frame_to_players t limits frame_index frame delivery staged ixs;
      mret (match outcome with
            | Skipped => (delivered, closed, staged)
            | Delivered => (1 + delivered, closed, staged)
            | DeliveryFailed => (1 + delivered, i :: closed, staged)
            | Dropped => (delivered, i :: closed, staged)
            end)
  end.

Definition on_caches {A} (m : ST Caches A) : ST Server A := λ s,
  let '(r, c) := m (caches s) in (r, s <| caches := c |>).

Definition cache_relay_frame_unless_orphaned (frame : RelayFrame) (abandoned : gset (Route * Z)) : ST Server unit := λ s,
  let id := rf_publisher_conn_id frame in
  if bool_decide ((route_of frame, id) ∈ abandoned) then (Ok tt, s) else
  let publisher := peer_conn <$> (find_conn id s ≫= λ i, connections s !! i) in
  let local_publisher_gone := negb (is_external_publisher_id id) && bool_decide (publisher = None) in
  let route_abandoned :=
    match publisher with
    | Some c => Relay.relay_route_abandoned (rf_app frame) (rf_stream_name frame) c
    | None => false
    end in
  if negb local_publisher_gone && negb route_abandoned
  then on_caches (cache_relay_frame iterate frame) s else (Ok tt, s).

(** * Frames left over *)

Definition export_frame (frame : RelayFrame) (hint : Delivery.DeliveryHint) (s : Server) : Server :=
  match relay_export s with
  | None => s
  | Some export => s <| relay_export := Some (RelayExportBuffer.push_clone frame hint export) |>
  end.

Definition export_orphaned_relay_frame (frame : RelayFrame) : ST Server unit :=
  if is_external_publisher_id (rf_publisher_conn_id frame) then mret tt else
  s ← get_st;
  hint ← lift (export_hint frame s);
  modify (export_frame frame hint).

(** The [while] of [push_orphaned_relay], on the frames and their bytes. *)
Fixpoint drop_orphans (frame_bytes max_bytes : Z) (orphans : list RelayFrame) (pending_bytes : Z)
    : ST Server (list RelayFrame * Z) :=
  match orphans with
  | [] => mret ([], pending_bytes)
  | dropped :: rest =>
      if (MAX_PENDING_RELAY_FRAMES <=? zlen orphans) || (max_bytes <? saturating_add pending_bytes frame_bytes)
      then export_orphaned_relay_frame dropped;;
           drop_orphans frame_bytes max_bytes rest (saturating_sub pending_bytes (retained_bytes dropped))
      else mret (orphans, pending_bytes)
  end.

Definition push_orphaned_relay (frame : RelayFrame) : ST Server unit :=
  s ← get_st;
  let frame_bytes := retained_bytes frame in
  let max_bytes := rl_max_pending_relay_bytes (st_limits (settings s)) in
  if (max_bytes <? frame_bytes) || (MAX_PENDING_RELAY_FRAMES =? 0) then export_orphaned_relay_frame frame else
  '(orphans, pending_bytes) ←
    drop_orphans frame_bytes max_bytes (orphaned_relay s) (sumZ retained_bytes (orphaned_relay s));
  modify (λ s, s <| orphaned_relay := orphans |>);;
  if (MAX_PENDING_RELAY_FRAMES <=? zlen orphans) || (max_bytes <? saturating_add pending_bytes frame_bytes)
  then export_orphaned_relay_frame frame
  else modify (λ s, s <| orphaned_relay := orphaned_relay s ++ [frame] |>).

Definition requeue_relay_frame (frame : RelayFrame) : ST Server unit := λ s,
  if is_external_publisher_id (rf_publisher_conn_id frame)
  then (Ok tt, s <| pending_injected_relay := pending_injected_relay s ++ [frame] |>) else
  match find_conn (rf_publisher_conn_id frame) s with
  | Some i => upd_conn i (λ c, c <| pending_relay := pending_relay c ++ [frame] |>) s
  | None => push_orphaned_relay frame s
  end.

(** [for x in l { f(x) }]. *)
Definition for_each {A} (f : A → ST Server unit) (l : list A) : ST Server unit := foldr (λ x m, f x;; m) (mret tt) l.

(** [StagedRelayMedia::send]. *)
Fixpoint send_staged (t : Tick) (staged : StagedRelayMedia) (conns : list nat) : ST Server (list nat) :=
  match conns with
  | [] => mret []
  | i :: conns =>
      parts ← lift (Staging.parts_of staged i);
      failed ← on_peer i (λ _,
        c ← self;
        if negb (transport c) then mret false else
        failed ← is_err (Sender.send_staged_media (tick_now t) parts);
        when failed (upd stop_relay_player);;
        mret failed);
      rest ← send_staged t staged conns;
      mret (if failed : bool then i :: rest else rest)
  end.

(** The loop of [send_and_export_relay_frames]. *)
Fixpoint fan_out (t : Tick) (limits : PlayerFlowLimits) (abandoned : gset (Route * Z)) (frame_index : nat)
    (staged : StagedRelayMedia) (relay_sends : Z) (frames : list RelayFrame) : ST Server FanOut :=
  match frames with
  | [] => mret (mkFanOut staged relay_sends [] [] [])
  | frame :: rest =>
      s ← get_st;
      let ixs := players frame s in
      let player_count := zlen ixs in
      if (0 <? player_count) && (0 <? relay_sends)
         && (max_relay_sends_per_poll s <? saturating_add relay_sends player_count)
      then mret (mkFanOut staged relay_sends [] [] frames) else
      cache_relay_frame_unless_orphaned frame abandoned;;
      s ← get_st;
      hints ← (match relay_export s with
               | Some _ => hint ← lift (export_hint frame s); mret [hint]
               | None => mret []
               end);
      delivery ← (if bool_decide (ixs = []) || (soft limits =? 0) then mret always else lift (frame_delivery frame s));
      '(delivered, closed, staged) ← relay_frame_to_players t limits frame_index frame delivery staged ixs;
      let staged := Staging.release_unstaged_bodies staged in
      o ← fan_out t limits abandoned (S frame_index) staged (relay_sends + delivered) rest;
      mret (mkFanOut (fo_staged o) (fo_sends o) (hints ++ fo_hints o) (closed ++ fo_closed o) (fo_rest o))
  end.

(** The closed connections, and the sends counted so far. *)
Definition send_and_export_relay_frames (t : Tick) (frames : list RelayFrame) (abandoned : gset (Route * Z))
    (relay_sends : Z) : ST Server (list nat * Z) :=
  s ← get_st;
  o ← fan_out t (flow_limits s) abandoned 0 Staging.default relay_sends frames;
  send_closed ← send_staged t (fo_staged o) (sg_conns (fo_staged o));
  let processed := take (length frames - length (fo_rest o)) frames in
  modify (λ s, foldl (λ s '(frame, hint),
    if is_external_publisher_id (rf_publisher_conn_id frame) then s else export_frame frame hint s)
    s (zip processed (fo_hints o)));;
  for_each requeue_relay_frame (fo_rest o);;
  mret (fo_closed o ++ send_closed, fo_sends o).

(** * Flush and teardown *)

Definition flush_connections (t : Tick) : ST Server (list nat) :=
  each_connection (λ i, on_peer i (λ _,
    c ← self;
    if negb (transport c) then mret true else
    or_else (is_err (Sender.maybe_send_ping (tick_now t))) (is_err (Sender.flush (tick_now t))))).

(** [closed.dedup()]: repeated neighbours. *)
Fixpoint dedup (l : list nat) : list nat :=
  match l with
  | i :: l => match l with
              | j :: _ => if decide (i = j) then dedup l else i :: dedup l
              | [] => [i]
              end
  | [] => []
  end.

Definition remove_connection (i : nat) : ST Server unit := λ s,
  match connections s !! i with
  | None => (Panic, s)
  | Some p =>
      let c := peer_conn p in
      (upd_conn i (λ c, c <| pending_relay := [] |>);;
       for_each (λ frame, if is_external_publisher_id (rf_publisher_conn_id frame) then mret tt
                          else push_orphaned_relay frame) (pending_relay c);;
       modify (λ s, (release_all_publish_routes (conn_id c) s)
                      <| caches := forget_publisher (conn_id c) (caches s) |>
                      <| connections := delete i (connections s) |>)) s
  end.
Definition remove_closed_connections (closed : list nat) : ST Server unit :=
  for_each remove_connection (rev (dedup (merge_sort (≤)%nat closed))).

(** * A tick *)

(** [relay_sends] is the tick's send counter. *)
Definition process_connections_impl (t : Tick) (readable : option (gset Z)) (relay_sends : Z) : ST Server Z :=
  closed1 ← reap_timed_out_pending_auth (tick_now t);
  modify (λ s, snd (drain_pending_cache_evictions s));;
  modify (reap_stale_inject_routes (tick_now t));;
  closed2 ← recv_and_reap_connections t readable;
  abandoned1 ← (λ s, let '(a, s) := drain_pending_cache_evictions s in (Ok a, s));
  modify (detach_displaced_route_owners (closed1 ++ closed2));;
  abandoned2 ← (λ s, let '(a, s) := drain_pending_cache_evictions s in (Ok a, s));
  let abandoned := abandoned1 ∪ abandoned2 in
  modify (drop_stale_pending_relay_for_abandoned_routes abandoned);;
  frames ← build_relay_frame_batch;
  closed3 ← replay_init_frames_for_new_players;
  '(closed4, relay_sends) ← send_and_export_relay_frames t frames abandoned relay_sends;
  closed5 ← flush_connections t;
  remove_closed_connections (closed1 ++ closed2 ++ closed3 ++ closed4 ++ closed5);;
  mret relay_sends.

Definition process_connections (t : Tick) : ST Server unit := ignore (process_connections_impl t None 0).
Definition process_connections_ready (t : Tick) (readable : gset Z) : ST Server unit :=
  ignore (process_connections_impl t (Some readable) 0).

(** [backlog] is what the listeners accept during the call. *)
Definition poll_impl (t : Tick) (readable : option (gset Z)) (backlog : list (Z * bool * IpAddr)) : ST Server unit :=
  s ← get_st;
  guard_st (negb (running s)) Internal;;
  let relay_inject_first := relay_interleave_inject_first s in
  relay_sends ← process_connections_impl t readable 0;
  s ← get_st;
  let next_conn_id_before_accept := next_conn_id s in
  modify (accept_new_connections (tick_now t) backlog 0);;
  s ← get_st;
  let new_conns := List.filter (λ id, next_conn_id_before_accept <=? id)
                     ((λ p, conn_id (peer_conn p)) <$> connections s) in
  if bool_decide (new_conns = []) then mret tt else
  modify (λ s, s <| relay_interleave_inject_first := relay_inject_first |>);;
  ignore (process_connections_impl t (Some (list_to_set new_conns)) relay_sends).
Definition poll (t : Tick) : list (Z * bool * IpAddr) → ST Server unit := poll_impl t None.
Definition poll_ready (t : Tick) (readable : gset Z) : list (Z * bool * IpAddr) → ST Server unit := poll_impl t (Some readable).

(** [bind_listener] when the bind succeeds. *)
Definition bind_listener (s : Server) : Server := s <| running := true |>.

Definition stop (s : Server) : Server :=
  let ids := (λ p, conn_id (peer_conn p)) <$> connections s in
  let s := foldl (λ s id, release_all_publish_routes id s) (s <| running := false |>) ids in
  let s := release_all_injected_routes (s <| connections := [] |>) in
  s <| pending_injected_relay := [] |> <| orphaned_relay := [] |>
    <| caches := (caches s) <| publisher_cache_keys := ∅ |> <| stream_cache := ∅ |> |>.

(** * Export *)

Definition enable_relay_export (max_frames max_bytes : Z) (s : Server) : Server :=
  s <| relay_export := Some (RelayExportBuffer.new max_frames max_bytes) |>.
Definition disable_relay_export (s : Server) : Server := s <| relay_export := None |>.
Definition drain_exported_relay_frames_with_hints (s : Server) : list (RelayFrame * Delivery.DeliveryHint) * Server :=
  match relay_export s with
  | Some buf => let '(frames, buf) := RelayExportBuffer.drain buf in (frames, s <| relay_export := Some buf |>)
  | None => ([], s)
  end.
Definition drain_exported_relay_frames (s : Server) : list RelayFrame * Server :=
  let '(frames, s) := drain_exported_relay_frames_with_hints s in (fst <$> frames, s).

(** Track headers sorted by track id. *)
Definition by_track (a b : Z * bytes) : Prop := a.1 ≤ b.1.
#[global] Instance by_track_dec : RelDecision by_track := λ a b, Z_le_dec a.1 b.1.
Definition stream_init_snapshot (key : Route) (s : Server) : option StreamInitSnapshot :=
  cache ← stream_cache (caches s) !! key;
  let sorted m := merge_sort by_track (iterate m) in
  Some (mkSnapshot (metadata cache) (avc_header cache) (aac_header cache) (sorted (video_track_headers cache))
          (sorted (audio_track_headers cache)) (last_keyframe cache)).
End iteration.
End Server.
