(* ===== verification/ServerRelay.v ===== *)
(** The relay of a server: the batch of a tick gives every route its turn, and
    flow control drops whole stretches between frames a player can resume on. *)
From S2P Require Import Prelude Bytes Types Buffer Delivery Session ConnRelay RelayQueue StreamCache Staging Server.
#[local] Set Warnings "-clear-no-such-hyp".

Module ServerRelay.
Import Conn RelayQueue Cache Server.

(** * The batch *)

(** Everything the connections have queued. *)
Definition backlog (s : Server) : list RelayFrame := concat ((λ p, pending_relay (peer_conn p)) <$> connections s).

Lemma gives_batch_rest c : gives_batch c = false → pending_relay c = [].
Proof. unfold gives_batch. rewrite !orb_false_iff. intros [_ H]. by apply negb_false_iff, bool_decide_eq_true in H. Qed.

Lemma concat_nonempty {A} (ls : list (list A)) `{∀ q : list A, Decision (q = [])} :
  concat (List.filter (λ q, negb (bool_decide (q = []))) ls) = concat ls.
Proof. induction ls as [|q ls IH]; [done|]. simpl. case_bool_decide as E; simpl; [by rewrite E, IH|by rewrite IH]. Qed.

Lemma local_queues_backlog (l : list Peer) :
  concat (List.filter (λ q, negb (bool_decide (q = [])))
    ((λ p, pending_relay (peer_conn p)) <$> List.filter (λ p, gives_batch (peer_conn p)) l))
  = concat ((λ p, pending_relay (peer_conn p)) <$> l).
Proof.
  rewrite concat_nonempty. induction l as [|p l IH]; [done|]. cbn [List.filter]. rewrite (fmap_cons _ p l).
  destruct (gives_batch (peer_conn p)) eqn:E; rewrite ?fmap_cons; cbn [concat]; rewrite IH; [done|].
  by rewrite (gives_batch_rest _ E).
Qed.

Definition emptied (p : Peer) : Peer := p <| peer_conn := (peer_conn p) <| pending_relay := [] |> |>.

Lemma emptied_queues (l : list Peer) :
  (λ p, if gives_batch (peer_conn p) then p <| peer_conn := (peer_conn p) <| pending_relay := [] |> |> else p) <$> l
  = emptied <$> l.
Proof.
  apply list_fmap_ext. intros i p _. destruct (gives_batch (peer_conn p)) eqn:E; [done|]. unfold emptied.
  destruct p as [c ?????]. cbn in *. unfold set_field. cbn. f_equal. pose proof (gives_batch_rest _ E).
  destruct c. cbn in *. by subst.
Qed.

(** The batch of a tick, and the state it leaves. *)
Definition batch_start (s : Server) : Z :=
  if bool_decide (backlog s = []) then 0
  else relay_local_rr_offset s mod zlen (List.filter (λ q, negb (bool_decide (q = [])))
    ((λ p, pending_relay (peer_conn p)) <$> List.filter (λ p, gives_batch (peer_conn p)) (connections s))).
Definition batch_frames (s : Server) : list RelayFrame :=
  (orphaned_relay s ++ merged (backlog s) (batch_start s)) ++ pending_injected_relay s.
Definition batch (s : Server) : list RelayFrame :=
  merged (batch_frames s) (lead (batch_frames s) (relay_interleave_inject_first s)).
Definition after_batch (s : Server) : Server :=
  (s <| connections := emptied <$> connections s |>
     <| relay_local_rr_offset := if bool_decide (backlog s = []) then relay_local_rr_offset s
                                 else as_u64 (relay_local_rr_offset s + 1) |>)
    <| orphaned_relay := [] |> <| pending_injected_relay := [] |>
    <| relay_interleave_inject_first := negb (relay_interleave_inject_first s) |>.

Lemma batch_spec s : 0 ≤ relay_local_rr_offset s → build_relay_frame_batch s = (Ok (batch s), after_batch s).
Proof.
  intros Hs. unfold build_relay_frame_batch. cbv zeta.
  set (qs := List.filter _ (_ <$> _)) in *. assert (concat qs = backlog s) as Hq by apply local_queues_backlog.
  assert (bool_decide (qs = []) = bool_decide (backlog s = [])) as Hb.
  { apply bool_decide_ext. rewrite <- Hq. split; [by intros ->|]. intros E. subst qs.
    match goal with |- List.filter ?p ?l = [] => destruct (List.filter p l) as [|q qs] eqn:Ef; [done|] end.
    assert (q ∈ q :: qs) as Hin by constructor. rewrite <- Ef in Hin.
    apply base.list_elem_of_In, List.filter_In in Hin as [_ Hne]. apply negb_true_iff, bool_decide_eq_false in Hne.
    apply app_nil in E as [E _]. done. }
  rewrite Hb. assert (0 ≤ batch_start s) as Hst.
  { unfold batch_start. destruct (bool_decide_reflect (backlog s = [])) as [|E]; [done|]. fold qs. apply Z.mod_pos_bound.
    destruct qs; [by rewrite <- Hq in E|]. rewrite zlen_cons. pose proof (zlen_nonneg qs). lia. }
  unfold batch, batch_frames, after_batch, batch_start in *. fold qs in Hst |- *. rewrite emptied_queues.
  destruct (bool_decide_reflect (backlog s = [])) as [E|E]; unfold mbind, ST_bind, lift; rewrite round_robin_spec, Hq by done;
    cbn -[merged lead merge_local_and_injected_by_route]; rewrite merge_spec; done.
Qed.

(** Every route gets its turn. A tick takes all frames that are waiting
    (those of connections that are gone, then the connections' in order, then
    the injected ones) and keeps their order on each route. At no point of the
    batch has a route sent more than one frame beyond another that still has
    frames in it. When the tick favours injected media and some route's next
    frame is injected, an injected frame comes first; the next tick favours the
    other source. *)
Theorem relay_batch_fair s : 0 ≤ relay_local_rr_offset s →
  ∃ frames s', build_relay_frame_batch s = (Ok frames, s')
  ∧ (∀ k, on_route k frames = on_route k (orphaned_relay s) ++ on_route k (backlog s) ++ on_route k (pending_injected_relay s))
  ∧ (∀ sent left a b, frames = sent ++ left → on_route b left ≠ [] →
       zlen (on_route a sent) ≤ zlen (on_route b sent) + 1)
  ∧ (relay_interleave_inject_first s = true → (∃ k, from_inject (on_route k frames) = true) → from_inject frames = true)
  ∧ orphaned_relay s' = [] ∧ backlog s' = [] ∧ pending_injected_relay s' = []
  ∧ relay_interleave_inject_first s' = negb (relay_interleave_inject_first s).
Proof.
  intros Hs. exists (batch s), (after_batch s). split; [by apply batch_spec|].
  unfold batch. set (fs := batch_frames s). set (start := lead _ _).
  split_and!; [| | |done| |done..].
  - intros k. rewrite merged_routes. unfold fs, batch_frames. by rewrite !on_route_app, merged_routes, app_assoc.
  - intros sent left a b E Hb. destruct (merged_prefix _ _ _ _ E) as [j Hj].
    assert (length (on_route b sent) < length (on_route b fs))%nat as Hlt.
    { rewrite <- (merged_routes fs start b), E, on_route_app, length_app. destruct (on_route b left); [done|]. simpl. lia. }
    unfold zlen. destruct (Hj a) as [-> | ->], (Hj b) as [Eb|Eb]; rewrite Eb in *;
      rewrite !length_take in *; lia.
  - intros Hf [k Hk]. rewrite merged_routes in Hk.
    assert (∃ i q, position from_inject (group fs) = Some i ∧ group fs !! Z.to_nat i = Some q ∧ from_inject q = true) as (i & q & Hi & Hq & Ht).
    { destruct (position_found from_inject (group fs) (on_route k fs)) as [i Hi]; [|done|].
      - rewrite group_spec. apply (list_elem_of_fmap_2 (λ k, on_route k fs)), order_in. by destruct (on_route k fs).
      - apply position_bound in Hi as Hp. destruct Hp as (_ & q & ? & ?). eauto. }
    rewrite group_spec in Hq. apply list_lookup_fmap_Some in Hq as (k' & -> & Hk').
    assert (start = i) as -> by (unfold start, lead; by rewrite Hf, Hi).
    pose proof (merged_head fs i k' Hk') as Hh. revert Hh Ht. unfold from_inject.
    destruct (merged fs i), (on_route k' fs); simpl; [done..|]. by intros [= ->].
  - unfold backlog, after_batch. cbn. rewrite <- list_fmap_compose. clear. by induction (connections s).
Qed.

(** * Flow control *)

(** A frame offered to a player: its class, the bytes the player has not taken
    yet, the time. *)
Abbreviation offer := (Delivery.DeliveryHint * Z * Z)%type.

Fixpoint decisions (limits : PlayerFlowLimits) (offers : list offer) (c : Conn) : list PlayerFlow * Conn :=
  match offers with
  | [] => ([], c)
  | (hint, unsent, now) :: offers =>
      let '(flow, c) := player_flow_decision limits hint unsent now c in
      let '(flows, c) := decisions limits offers c in (flow :: flows, c)
  end.

Lemma decisions_app limits l1 l2 c :
  decisions limits (l1 ++ l2) c =
    let '(flows1, c) := decisions limits l1 c in
    let '(flows2, c) := decisions limits l2 c in (flows1 ++ flows2, c).
Proof.
  revert c. induction l1 as [|[[h b] t] l1 IH]; intros c; rewrite <- ?app_comm_cons; cbn [decisions].
  - cbn. by destruct (decisions limits l2 c).
  - destruct (player_flow_decision limits h b t c) as [flow c1]. rewrite IH.
    destruct (decisions limits l1 c1) as [flows c2]. by destruct (decisions limits l2 c2).
Qed.

Lemma decisions_cons limits h b t l c :
  decisions limits ((h, b, t) :: l) c =
    let '(flow, c) := player_flow_decision limits h b t c in
    let '(flows, c) := decisions limits l c in (flow :: flows, c).
Proof. done. Qed.

Lemma decisions_length limits offers c : length (fst (decisions limits offers c)) = length offers.
Proof.
  revert c. induction offers as [|[[h b] t] offers IH]; intros c; [done|]. cbn [decisions].
  destruct (player_flow_decision limits h b t c) as [flow c1]. specialize (IH c1).
  destruct (decisions limits offers c1). simpl in *. by rewrite IH.
Qed.

(** The [k]-th frame was sent, and a player may resume on it. *)
Definition resumed (limits : PlayerFlowLimits) (offers : list offer) (flows : list PlayerFlow) (k : nat) : Prop :=
  flows !! k = Some Send ∧ ∃ unsent now, offers !! k = Some (Delivery.ResyncPoint, unsent, now) ∧ unsent ≤ soft limits / 2.

(** A player that is congested since the [i]-th frame has not taken a byte
    since then, as far as it was looked at. *)
Definition stalled (offers : list offer) (flows : list PlayerFlow) (i : nat) (unsent since : Z) : Prop :=
  flows !! i = Some Skip ∧ (∃ hint, offers !! i = Some (hint, unsent, since))
  ∧ ∀ k hint b t, (i < k)%nat → offers !! k = Some (hint, b, t) → hint ≠ Delivery.Critical → unsent ≤ b.

Section flow.
Context (limits : PlayerFlowLimits) (c : Conn).
Hypothesis soft_limit : 0 < soft limits.
Hypothesis uncongested : relay_congestion c = None.

(** What the congestion state of a player says of the past. *)
Definition remembers (offers : list offer) (flows : list PlayerFlow) (state : option RelayCongestion) : Prop :=
  match state with
  | None => ∀ i, flows !! i = Some Skip → ∃ k, (i < k)%nat ∧ resumed limits offers flows k
  | Some g => min_backlog g < hard limits ∧ ∃ i, stalled offers flows i (min_backlog g) (last_progress g)
  end.

Lemma resumed_snoc offers flows o f k : length flows = length offers → resumed limits offers flows k →
  resumed limits (offers ++ [o]) (flows ++ [f]) k.
Proof.
  intros Hl (H1 & b & t & H2 & H3). split; [by apply lookup_app_l_Some|]. exists b, t. split; [by apply lookup_app_l_Some|done].
Qed.

Lemma stalled_snoc offers flows hint b t f i u since : length flows = length offers → stalled offers flows i u since →
  (hint ≠ Delivery.Critical → u ≤ b) → stalled (offers ++ [(hint, b, t)]) (flows ++ [f]) i u since.
Proof.
  intros Hl (H1 & (h & H2) & H3) Hb. split; [by apply lookup_app_l_Some|]. split; [exists h; by apply lookup_app_l_Some|].
  intros k h' b' t' Hk [E|[Hge E]]%lookup_app_Some Hc; [by eapply H3|].
  apply list_lookup_singleton_Some in E as [_ [= <- <- <-]]. by apply Hb.
Qed.

Lemma stalled_now offers flows hint b t : length flows = length offers →
  stalled (offers ++ [(hint, b, t)]) (flows ++ [Skip]) (length offers) b t.
Proof.
  intros Hl. split; [by apply list_lookup_middle|]. split; [exists hint; by apply list_lookup_middle|].
  intros k h' b' t' Hk [E|[Hge E]]%lookup_app_Some _; [by apply lookup_lt_Some in E; lia|].
  apply list_lookup_singleton_Some in E as [E _]. lia.
Qed.

Lemma remembers_snoc offers flows hint b t s : length flows = length offers → remembers offers flows (relay_congestion s) →
  let '(flow, s') := player_flow_decision limits hint b t s in
  remembers (offers ++ [(hint, b, t)]) (flows ++ [flow]) (relay_congestion s').
Proof.
  intros Hl Hr. unfold player_flow_decision.
  assert (∀ f, f ≠ Skip → (∀ g, relay_congestion s = Some g → hint ≠ Delivery.Critical → min_backlog g ≤ b) →
    remembers (offers ++ [(hint, b, t)]) (flows ++ [f]) (relay_congestion s)) as Hsame.
  { intros f Hf Hb. destruct (relay_congestion s) as [g|].
    { destruct Hr as (? & i & Hi). split; [done|]. exists i. apply stalled_snoc; [done..|]. by apply Hb. }
    intros i [E|[Hge E]]%lookup_app_Some.
    - destruct (Hr i E) as (k & ? & ?). exists k. split; [done|]. by apply resumed_snoc.
    - by apply list_lookup_singleton_Some in E as [_ ->]. }
  destruct (Z.leb_spec (hard limits) b) as [Hh|Hh].
  { apply Hsame; [done|]. intros g E _. rewrite E in Hr. destruct Hr. lia. }
  cbv zeta. destruct (Z.eqb_spec (soft limits) 0) as [|_]; [lia|]. cbn [orb].
  case_bool_decide as Hc; [by apply Hsame|]. destruct (relay_congestion s) as [g|] eqn:Eg.
  - destruct Hr as (Hm & i & Hi). destruct (bool_decide (hint = Delivery.ResyncPoint) && _) eqn:Hre.
    { apply andb_true_iff in Hre as [->%bool_decide_eq_true Hle%Z.leb_le]. intros i' [E|[Hge E]]%lookup_app_Some.
      - exists (length offers). pose proof (lookup_lt_Some _ _ _ E). split; [lia|].
        split; [by apply list_lookup_middle|]. exists b, t. split; [by apply list_lookup_middle|done].
      - by apply list_lookup_singleton_Some in E as [_ ?]. }
    destruct (Z.ltb_spec b (min_backlog g)) as [|Hge]; cbn [orb]; [by split; [|exists (length offers); apply stalled_now]|].
    destruct (b =? 0); [by split; [|exists (length offers); apply stalled_now]|].
    destruct (congestion_timeout limits <=? _); cbv iota; [rewrite Eg; apply Hsame; [done|]; by intros ? [= <-]|]. rewrite Eg. split; [done|].
    exists i. by apply stalled_snoc.
  - destruct (b <=? soft limits); cbv iota; [rewrite Eg; by apply Hsame|]. split; [done|]. exists (length offers). by apply stalled_now.
Qed.

Lemma remembers_all offers : let '(flows, s) := decisions limits offers c in remembers offers flows (relay_congestion s).
Proof.
  induction offers as [|[[h b] t] offers IH] using rev_ind.
  - simpl. rewrite uncongested. intros i E. by rewrite lookup_nil in E.
  - rewrite decisions_app. pose proof (decisions_length limits offers c) as Hl.
    destruct (decisions limits offers c) as [flows s]. cbn [fst snd] in *. rewrite decisions_cons.
    pose proof (remembers_snoc offers flows h b t s Hl IH) as H.
    by destruct (player_flow_decision limits h b t s).
Qed.

(** The decision on the [j]-th frame is taken in the state the earlier ones left. *)
Lemma decision_at offers j hint b t flow : offers !! j = Some (hint, b, t) →
  fst (decisions limits offers c) !! j = Some flow →
  ∃ flows s, remembers (take j offers) flows (relay_congestion s) ∧ flows = take j (fst (decisions limits offers c))
    ∧ length flows = j ∧ fst (player_flow_decision limits hint b t s) = flow.
Proof.
  intros Ho Hf. pose proof (lookup_lt_Some _ _ _ Ho) as Hlt. pose proof (remembers_all (take j offers)) as Hr.
  pose proof (decisions_length limits (take j offers) c) as Hl. rewrite length_take in Hl.
  pose proof (decisions_app limits (take j offers) ((hint, b, t) :: drop (S j) offers) c) as E.
  rewrite (take_drop_middle _ _ _ Ho) in E. revert Hf E. generalize (decisions limits offers c). intros [fl c'] Hf E.
  destruct (decisions limits (take j offers) c) as [flows s]. cbn [fst] in Hl. rewrite decisions_cons in E.
  destruct (player_flow_decision limits hint b t s) as [flow' s1] eqn:Ed. destruct (decisions limits _ s1) as [rest s2].
  cbn [fst] in *. injection E as -> _. rewrite list_lookup_middle in Hf by lia. exists flows, s. split_and!; [done| |lia|].
  - by rewrite take_app_le, take_ge by lia.
  - rewrite Ed. by injection Hf.
Qed.
End flow.



(** A server with two publishers, one of them ahead, and injected media. *)
Definition sample_frame (route ts id : Z) : RelayFrame := mkRelayFrame Audio ts [175; 1; 2] None (text "live") [route] id.
Definition sample_peer (id : Z) (frames : list RelayFrame) : Peer :=
  mkPeer ((accepted (mkSettings limits_default 4096 false true) 0 5 id) <| pending_relay := frames |>) no_hooks (V4 1) false [] [] [].
Definition sample_server : Server :=
  (with_tls_ctx (mkSettings limits_default 4096 false true) 10 4 no_hooks)
    <| connections := [sample_peer 1 [sample_frame 65 1 1; sample_frame 65 2 1; sample_frame 65 3 1];
                       sample_peer 2 [sample_frame 66 1 2]] |>
    <| pending_injected_relay := [sample_frame 67 1 (EXTERNAL_PUBLISHER_ID_BIT + 1); sample_frame 67 2 (EXTERNAL_PUBLISHER_ID_BIT + 1)] |>.

Lemma relay_batch_fair_witness : ∃ frames s', build_relay_frame_batch sample_server = (Ok frames, s')
  ∧ (λ f, (rf_stream_name f, rf_timestamp f)) <$> frames
    = [([67], 1); ([65], 1); ([66], 1); ([67], 2); ([65], 2); ([65], 3)]
  ∧ from_inject frames = true.
Proof.
  destruct (relay_batch_fair sample_server) as (frames & s' & E & _ & _ & Hinj & _); [done|].
  exists frames, s'. split; [exact E|]. apply (f_equal fst) in E. cbn [fst] in E.
  assert (fst (build_relay_frame_batch sample_server) = Ok
    [sample_frame 67 1 (EXTERNAL_PUBLISHER_ID_BIT + 1); sample_frame 65 1 1; sample_frame 66 1 2;
     sample_frame 67 2 (EXTERNAL_PUBLISHER_ID_BIT + 1); sample_frame 65 2 1; sample_frame 65 3 1]) as E' by (vm_compute; reflexivity).
  rewrite E' in E. injection E as <-. split; [vm_compute; reflexivity|].
  apply Hinj; [reflexivity|]. exists (text "live", [67]). vm_compute. reflexivity.
Defined.
End ServerRelay.
