(* ===== verification/ServerInv.v ===== *)
(** The invariant of a server: every connection keeps the invariant of its
    session among the others, ids are fresh, the registry of routes holds only
    live publishers, and the queues and the init cache stay within their limits. *)
From S2P Require Import Prelude Bytes Types Buffer Source ChunkState MediaOut Modex Handshake Delivery Session ConnRelay ConnSend ConnMedia ConnAuth ConnCommand ConnRecv SessionTotal SessionInv SessionStep SessionRecv SessionCalls SessionSend RelayQueue StreamCache CacheInv Staging Server ServerRelay.
#[local] Set Warnings "-clear-no-such-hyp".

Module ServerInv.
Import Conn RelayQueue Cache Server Total Invariant Step Recv Calls Sending.

#[local] Abbreviation any := (λ _, True).
Abbreviation Routes := PublishRouteRegistry.table.

(** * Connections among others *)

#[local] Abbreviation granted := (λ _ _ : bytes, True).
#[local] Abbreviation waiting := (λ (_ _ : bytes) (_ : Z), True).
(** The invariant of the session with id [id], whatever was granted. *)
Abbreviation session_of id R0 := (Step.session id R0 granted granted waiting waiting any).

Definition among (t : Routes) (c : Conn) : Prop := session_of (conn_id c) t (mkWorld c t [] [] []).

Lemma among_session id R0 w : session_of id R0 w → among (routes w) (conn w) ∧ conn_id (conn w) = id.
Proof.
  intros [A [Ho []]]. split; [|done]. exists A. split; [exact Ho|]. split; try done; cbn; [by rewrite r_id0|].
  intros k i E _. exact E.
Qed.

Lemma session_among c t w : among t c → conn w = c → routes w = t → session_of (conn_id c) t w.
Proof. intros [A [Ho []]] <- <-. exists A. split; [exact Ho|by split]. Qed.

(** Others take entries away, but give none. *)
Lemma among_elsewhere t t' c : among t c → (∀ k, t' !! k = Some (conn_id c) → t !! k = Some (conn_id c)) → among t' c.
Proof.
  intros [A [Ho []]] H. exists A. split; [exact Ho|]. split; try done; cbn in *; [|by intros k i E _].
  intros a r E. apply r_backed0. by apply H.
Qed.

Lemma among_same t c c' : among t c → conn_ok c' → roles c' = roles c → among t c'.
Proof.
  intros [A [Ho Hr]] Hc E. assert (conn_id c' = conn_id c) as Ei by (unfold roles in E; congruence).
  exists A. split; [exact Hc|]. rewrite Ei. exact (roles_ok_roles _ _ _ _ _ _ _ _ _ _ _ E Hr).
Qed.

Lemma among_ok t c : among t c → conn_ok c.
Proof. by intros [A [? _]]. Qed.

(** * The state *)

Definition received_ok (r : Received) : Prop := match r with Data d => bytes_ok d | _ => True end.
Definition peer_ok (t : Routes) (p : Peer) : Prop := among t (peer_conn p) ∧ Forall received_ok (peer_incoming p).

Definition id_of (p : Peer) : Z := conn_id (peer_conn p).

Record peers_ok (t : Routes) (l : list Peer) (next : Z) : Prop := {
  p_each : Forall (peer_ok t) l;
  p_ids : NoDup (id_of <$> l);
  p_below : Forall (λ p, 0 < id_of p < next) l;
  p_owned : ∀ k id, t !! k = Some id → id ∈ id_of <$> l ∨ is_external_publisher_id id = true;
}.

(** A frame any player can be sent. *)
Record relayable (f : RelayFrame) : Prop := {
  l_frame : frame_ok f;
  l_len : zlen (rf_payload f) ≤ RTMP_WIRE_MAX_MSG_LENGTH;
  l_bytes : retained_bytes f ≤ ISIZE_MAX;
}.

(** A queue of frames within its limits. *)
Record queue_ok (P : Z → Prop) (max_bytes : Z) (l : list RelayFrame) : Prop := {
  u_frames : Forall (λ f, relayable f ∧ P (rf_publisher_conn_id f)) l;
  u_count : zlen l ≤ MAX_PENDING_RELAY_FRAMES;
  u_bytes : sumZ retained_bytes l ≤ max_bytes;
}.

Definition external (id : Z) : Prop := is_external_publisher_id id = true.
(** The id of a connection that was removed. *)
Definition gone (ids : list Z) (next id : Z) : Prop := 0 < id < next ∧ id ∉ ids.

Definition relay_limit (s : Server) : Z := rl_max_pending_relay_bytes (st_limits (settings s)).

Record server_ok (s : Server) : Prop := {
  v_settings : settings_ok (settings s);
  v_cache : CacheInv.cache_ok (caches s);
  v_cache_limit : max_cache_bytes (caches s) ≤ ISIZE_MAX;
  v_next : 0 < next_conn_id s ≤ EXTERNAL_PUBLISHER_ID_BIT;
  v_peers : peers_ok (active_publish_routes s) (connections s) (next_conn_id s);
  v_injected : queue_ok external (relay_limit s) (pending_injected_relay s);
  v_external : map_Forall (λ _, external) (external_route_ids s);
  v_orphaned : queue_ok (gone (id_of <$> connections s) (next_conn_id s)) (relay_limit s) (orphaned_relay s);
  v_offset : 0 ≤ relay_local_rr_offset s;
  v_count : 0 < max_connections s → zlen (connections s) ≤ max_connections s;
  v_per_addr : ∀ ip, active_connections_for_ip ip s ≤ max_per_addr s;
}.

(** The invariant with the connections fixed. *)
Definition holds_for (ids : list Z) (s : Server) : Prop := server_ok s ∧ id_of <$> connections s = ids.

(** * Changing one connection *)

(** The addresses decide who may be admitted. *)
Lemma per_ip_insert ip i p p' l : l !! i = Some p → peer_addr p' = peer_addr p →
  zlen (List.filter (λ p, bool_decide (peer_ip (peer_addr p) = ip)) (<[i := p']> l))
  = zlen (List.filter (λ p, bool_decide (peer_ip (peer_addr p) = ip)) l).
Proof.
  revert i. induction l as [|q l IH]; intros [|i] Hi E; simplify_eq/=.
  - rewrite E. by case_match; rewrite ?zlen_cons.
  - case_match; rewrite ?zlen_cons, IH; done.
Qed.

Lemma ids_insert i p p' (l : list Peer) : l !! i = Some p → id_of p' = id_of p → id_of <$> <[i := p']> l = id_of <$> l.
Proof. intros Hi E. rewrite list_fmap_insert, E. apply list_insert_id. by rewrite list_lookup_fmap, Hi. Qed.

(** A connection may claim what is free, and give up or take away entries. *)
Lemma peers_insert t t' l next i p p' : peers_ok t l next → l !! i = Some p → id_of p' = id_of p → peer_ok t' p' →
  (∀ k id, t' !! k = Some id → id ≠ id_of p → t !! k = Some id) → peers_ok t' (<[i := p']> l) next.
Proof.
  intros [He Hn Hb Ho] Hi Ei Hp Hf. assert (i < length l)%nat as Hlt by by eapply lookup_lt_Some.
  split; rewrite ?(ids_insert i p p') by done; [| done | |].
  - apply Forall_lookup_2. intros j q Hq. destruct (decide (i = j)) as [<-|Hne].
    { rewrite list_lookup_insert_eq in Hq by done. by simplify_eq. }
    rewrite list_lookup_insert_ne in Hq by done. pose proof (Forall_lookup_1 _ _ _ _ He Hq) as [Ha Hr]. split; [|done].
    apply (among_elsewhere t); [done|]. intros k E. apply Hf; [done|]. intros Eq.
    apply Hne, (NoDup_lookup (id_of <$> l) i j (id_of p) Hn); rewrite list_lookup_fmap; [by rewrite Hi|].
    rewrite Hq. simpl. f_equal. exact Eq.
  - apply Forall_insert; [done|]. rewrite Ei. by pose proof (Forall_lookup_1 _ _ _ _ Hb Hi).
  - intros k id E. destruct (decide (id = id_of p)) as [->|Hne]; [|by eapply Ho, Hf].
    left. apply list_elem_of_lookup. exists i. by rewrite list_lookup_fmap, Hi.
Qed.

Lemma holds_insert ids s i p p' t' ev : holds_for ids s → connections s !! i = Some p → id_of p' = id_of p →
  peer_addr p' = peer_addr p → peer_ok t' p' →
  (∀ k id, t' !! k = Some id → id ≠ id_of p → active_publish_routes s !! k = Some id) →
  holds_for ids (s <| connections := <[i := p']> (connections s) |> <| active_publish_routes := t' |> <| server_events := ev |>).
Proof.
  intros [[] Hids] Hi Ei Ea Hp Hf.
  assert (id_of <$> <[i := p']> (connections s) = id_of <$> connections s) as Eids by by apply (ids_insert i p).
  split; [|cbn; by rewrite Eids]. split; cbn; rewrite ?Eids; try done.
  - by apply (peers_insert (active_publish_routes s) _ _ _ _ p).
  - intros Hm. unfold zlen. rewrite length_insert. by apply v_count0.
  - intros ip. unfold active_connections_for_ip. cbn. rewrite (per_ip_insert ip i p) by done. apply v_per_addr0.
Qed.

(** A call on a connection. *)
Lemma on_peer_cases {B} ids i (m : Peer → ST World B) s : (i < length ids)%nat → holds_for ids s →
  (∀ p id R0 w, Forall received_ok (peer_incoming p) → session_of id R0 w → session_of id R0 (snd (m p w))) →
  ∃ p, connections s !! i = Some p ∧ Forall received_ok (peer_incoming p)
    ∧ session_of (id_of p) (active_publish_routes s) (world_of p s)
    ∧ fst (on_peer i m s) = fst (m p (world_of p s)) ∧ holds_for ids (snd (on_peer i m s)).
Proof.
  intros Hi Hs Hm. pose proof Hs as [Hok Hids]. unfold on_peer.
  destruct (lookup_lt_is_Some_2 (connections s) i) as [p Hp]; [by rewrite <- (length_fmap id_of), Hids|]. rewrite Hp.
  pose proof (Forall_lookup_1 _ _ _ _ (p_each _ _ _ (v_peers _ Hok)) Hp) as [Ha Hr]. exists p.
  pose proof (session_among _ _ (world_of p s) Ha eq_refl eq_refl) as Hw.
  pose proof (Hm p _ _ _ Hr Hw) as Hw'. destruct (m p (world_of p s)) as [r w'] eqn:E. cbn [fst snd] in *.
  do 4 (split; [done|]). destruct (among_session _ _ _ Hw') as [Ha' Hid]. destruct Hw' as [A [_ Hro]].
  eapply holds_insert; try done. intros k id Ek Hne. exact (r_foreign _ _ _ _ _ _ _ _ _ _ Hro k id Ek Hne).
Qed.

Lemma keeps_on_peer {B} ids i (Q : B → Prop) (m : Peer → ST World B) : (i < length ids)%nat →
  (∀ p id R0, Forall received_ok (peer_incoming p) → keeps (session_of id R0) Q (m p)) →
  keeps (holds_for ids) Q (on_peer i m).
Proof.
  intros Hi Hm s Hs. destruct (on_peer_cases ids i m s Hi Hs) as (p&_&Hr&Hw&E&H); [intros; by apply Hm|].
  split; [done|]. rewrite E. by apply (Hm p _ _ Hr _ Hw).
Qed.

Lemma settles_on_peer {B} ids i (Q : B → Prop) (m : Peer → ST World B) : (i < length ids)%nat →
  (∀ p id R0, Forall received_ok (peer_incoming p) → settles (session_of id R0) Q (m p)) →
  settles (holds_for ids) Q (on_peer i m).
Proof.
  intros Hi Hm s Hs. destruct (on_peer_cases ids i m s Hi Hs) as (p&_&Hr&Hw&E&H); [intros; by apply Hm|].
  split; [done|]. rewrite E. by apply (Hm p _ _ Hr _ Hw).
Qed.
End ServerInv.
