(* ===== verification/ServerStep.v ===== *)
(** The phases of a tick before the fan-out keep the invariant: timeouts,
    evictions, receiving, displaced publishers, and the replay of init frames. *)
From S2P Require Import Prelude Bytes Types Buffer Source ChunkState MediaOut Modex Multitrack Handshake Delivery Session ConnRelay ConnSend ConnMedia ConnAuth ConnCommand ConnRecv SessionTotal SessionInv SessionStep SessionRecv SessionCalls SessionSend RelayQueue StreamCache CacheInv Staging Server ServerRelay ServerInv.
#[local] Set Warnings "-clear-no-such-hyp".

Module ServerStep.
Import Conn RelayQueue Cache Server Total Invariant Step Recv Calls Sending ServerInv.

#[local] Abbreviation any := (λ _, True).

(** * Calls on one connection *)

Section session.
Context {order : Iteration} {laws : IterationLaws}.
Context (id : Z) (R0 : Routes).
#[local] Abbreviation runs m := (keeps (session_of id R0) any m).
#[local] Abbreviation goes Q m := (settles (session_of id R0) Q m).

Lemma runs_fine {B} (m : ST World B) : (∀ A, keeps (at_app id R0 (λ _ _, True) (λ _ _, True) (λ _ _ _, True) (λ _ _ _, True) any A) any m) →
  runs m.
Proof. apply session_fine. Qed.

Lemma runs_recv e data : bytes_ok data → runs (Receiver.recv e data).
Proof. intros Hd. by apply (session_recv id R0 _ _ _ _ e (λ _ _ _, I) (λ _ _ _, I) (λ _ _ _ _, I) (λ _ _ _ _, I)). Qed.

Lemma goes_bind {B C} (Q : C → Prop) (m : ST World B) k : goes any m → (∀ b, goes Q (k b)) → goes Q (m ≫= k).
Proof. intros Hm Hk. by apply (settles_bind _ any). Qed.

Lemma goes_is_err {B} (m : ST World B) : runs m → goes any (is_err m).
Proof.
  intros Hm w Hw. destruct (Hm w Hw) as [H1 H2]. unfold is_err. destruct (m w) as [[b|e|] w']; [..|done]; split; eauto.
Qed.

Lemma goes_upd f : (∀ c, resources (f c) = resources c) → (∀ c, roles (f c) = roles c) → goes any (upd f).
Proof.
  intros H1 H2 w Hw. destruct (runs_fine (upd f)) with w as [H _]; [intros A; by apply fine_note|done|].
  split; [exact H|by exists tt].
Qed.

Lemma goes_self {B} (Q : B → Prop) k : (∀ c, conn_ok c → goes Q (k c)) → goes Q (c ← self; k c).
Proof. intros Hk. apply (settles_bind _ conn_ok); [|done]. intros w Hw. split; [done|]. destruct Hw as [A [? _]]. by eexists. Qed.

Lemma goes_ret {B} (Q : B → Prop) b : Q b → goes Q (mret b).
Proof. apply settles_ret. Qed.

Lemma goes_lift {B} (Q : B → Prop) r : (∃ b, r = Ok b ∧ Q b) → goes Q (lift r).
Proof. intros (b & -> & Hb). by apply goes_ret. Qed.

Lemma goes_when b m : goes any m → goes any (when b m).
Proof. destruct b; [done|by intros _; apply goes_ret]. Qed.

Lemma goes_or_else a b : goes any a → goes any b → goes any (or_else a b).
Proof. intros Ha Hb. apply goes_bind; [done|]. intros []; [by apply goes_ret|done]. Qed.

Lemma goes_drain e incoming : Forall received_ok incoming → ∀ n,
  goes (λ x, Forall received_ok x.2) (recv_drain_one_connection e incoming n).
Proof.
  assert (∀ (b : bool) l w, session_of id R0 w → Forall received_ok l → session_of id R0 (snd (Ok (b, l), w))
    ∧ ∃ x, fst (Ok (b, l), w) = Ok x ∧ Forall received_ok x.2) as Hret by eauto.
  induction 1 as [|x incoming Hx Hin IH]; intros n w Hw; cbn [recv_drain_one_connection].
  - repeat case_match; apply Hret; done.
  - destruct (_ <=? n); [apply Hret; [done|]; by constructor|]. destruct (negb _); [apply Hret; [done|]; by constructor|].
    destruct x as [d| |]; [|by apply Hret..]. destruct d as [|b d]; [by apply Hret|].
    destruct (runs_recv e (b :: d) Hx w Hw) as [H1 H2].
    destruct (Receiver.recv e (b :: d) w) as [[[]|err|] w']; [by apply IH|by apply Hret|done].
Qed.

Lemma goes_buffered e n : goes any (drain_buffered_messages n e).
Proof.
  induction n as [|n IH]; cbn [drain_buffered_messages]; [by apply goes_ret|].
  apply goes_self. intros c _. case_match; [by apply goes_ret|].
  apply goes_bind; [apply goes_is_err, runs_recv; constructor|]. intros []; [by apply goes_ret|done].
Qed.

Lemma goes_reap now timeout : goes any (Auth.reap_timed_out_pending_auth now timeout).
Proof.
  intros w Hw. destruct (runs_fine (Auth.reap_timed_out_pending_auth now timeout)) with w as [H Hr];
    [intros A; apply fine_reap_pending|done|]. split; [done|].
  assert (∀ B (m : ST World B) w, (∃ u w', ignore m w = (Ok u, w')) ∨ ∃ w', ignore m w = (Panic, w')) as Hi.
  { intros B m v. unfold ignore. destruct (m v) as [[]]; eauto. }
  revert Hr. unfold Auth.reap_timed_out_pending_auth, self, upd, modify, mbind, ST_bind, mret, ST_ret. cbv beta iota.
  repeat match goal with
  | |- context [match Auth.overdue ?n ?t ?p with _ => _ end] => destruct (Auth.overdue n t p)
  | |- context [ignore ?m ?w] => destruct (Hi _ m w) as [(? & ? & ->)|(? & ->)]
  end; cbn; eauto; done.
Qed.

(** ** Init frames *)

Lemma multitrack_total ft payload : bytes_ok payload → ∃ b, cached_payload_is_multitrack ft payload = Ok b ∧ True.
Proof.
  intros Ho. unfold cached_payload_is_multitrack.
  destruct (normalize_total payload CAPS_EX_MASK_MODEX ft Ho) as (c&->&_). by eexists.
Qed.

Lemma small_carriable cap ts p : cap ≤ MAX_CACHED_KEYFRAME_BYTES → is_u32 ts → CacheInv.small cap p → carriable ts p.
Proof.
  intros Hc Hts [Hl Ho]. split_and!; [done| |done]. pose proof (zlen_nonneg p). unfold MAX_CACHED_KEYFRAME_BYTES in *.
  unfold is_u24. lia.
Qed.

Lemma goes_send ft ts p : carriable ts p → goes any (is_err (Sender.send_frame ft ts p)).
Proof. intros Hc. apply goes_is_err, runs_fine. intros A. by apply fine_send_frame. Qed.

Lemma goes_replay_payload ft ts p : carriable ts p → goes any (replay_payload ft ts p).
Proof.
  intros Hc. apply goes_bind; [apply goes_lift, multitrack_total, Hc|intros mt].
  apply goes_self. intros c _. case_match; [by apply goes_send|by apply goes_ret].
Qed.

Lemma zero_u32 : is_u32 0.
Proof. by vm_compute. Qed.

Lemma goes_replay_tracks ft (tracks : gmap Z bytes) : map_Forall (λ _, CacheInv.small MAX_CACHED_INIT_FRAME_BYTES) tracks →
  goes any (replay_tracks ft tracks).
Proof.
  intros Ht. unfold replay_tracks.
  assert (Forall (λ kv : Z * bytes, carriable 0 kv.2) (iterate tracks)) as Hall.
  { rewrite (iterate_perm _ _ tracks). apply map_Forall_to_list in Ht. eapply Forall_impl; [exact Ht|].
    intros [k v] Hv. eapply small_carriable; [|apply zero_u32|exact Hv]. done. }
  induction Hall as [|kv l Hkv Hall IH]; cbn [foldr]; [by apply goes_ret|].
  apply goes_self. intros c _. apply goes_bind; [case_match; [by apply goes_send|by apply goes_ret]|intros failed].
  apply goes_bind; [done|intros rest]. by apply goes_ret.
Qed.

Lemma goes_replay_headers ft header tracks :
  (∀ p, header = Some p → CacheInv.small MAX_CACHED_INIT_FRAME_BYTES p) →
  map_Forall (λ _, CacheInv.small MAX_CACHED_INIT_FRAME_BYTES) tracks → goes any (replay_headers ft header tracks).
Proof.
  intros Hh Ht. apply goes_bind.
  - destruct header as [p|]; [|by apply goes_ret]. apply goes_replay_payload.
    by eapply small_carriable; [|apply zero_u32|apply Hh].
  - intros failed. apply goes_bind; [by apply goes_replay_tracks|intros]. by apply goes_ret.
Qed.

Lemma goes_replay_cached cache audio video : CacheInv.entry_wf cache → goes any (replay_cached_headers_to_conn cache audio video).
Proof.
  intros []. unfold replay_cached_headers_to_conn. apply goes_bind.
  { destruct (metadata cache) as [md|] eqn:E; [|by apply goes_ret]. case_match; [|by apply goes_ret].
    apply goes_send. by eapply small_carriable; [|apply zero_u32|apply e_metadata]. }
  intros f1. apply goes_bind; [case_match; [by apply goes_replay_headers|by apply goes_ret]|intros f2]. cbv zeta.
  apply goes_bind; [case_match; [by apply goes_replay_headers|by apply goes_ret]|intros f3].
  case_match; [|by apply goes_ret]. unfold replay_cached_keyframe.
  destruct (last_keyframe cache) as [[ts kf]|] eqn:E; [|by apply goes_ret]. destruct (e_keyframe ts kf eq_refl).
  by apply goes_replay_payload; eapply small_carriable.
Qed.

Lemma goes_replay (cache : gmap Route StreamCache) : map_Forall (λ _, CacheInv.entry_ok) cache →
  goes any (replay_init_frames_for_conn cache).
Proof.
  intros Hc. apply goes_self. intros c _. case_match; [by apply goes_ret|].
  destruct (current_stream c) as [stream|]; [|by apply goes_ret]. case_match; [by apply goes_ret|].
  apply goes_bind; [by apply goes_upd|intros _]. destruct (cache !! _) as [entry|] eqn:E; [|by apply goes_ret].
  apply goes_bind; [apply goes_replay_cached, (Hc _ _ E)|intros failed].
  apply goes_bind; [apply goes_when; by apply goes_upd|intros _]. by apply goes_ret.
Qed.

(** ** One connection of the receive phase *)

Lemma goes_release_all i : i = id → goes any (with_routes (λ t, (tt, filter (λ kv : Route * Z, kv.2 ≠ i) t))).
Proof.
  intros -> w [A [Ho []]]. split; [|by exists tt]. exists A. split; [exact Ho|]. split; try done; cbn.
  - intros a r [E _]%map_lookup_filter_Some. by apply r_backed0.
  - intros k j [E _]%map_lookup_filter_Some. by apply r_foreign0.
Qed.

Lemma goes_rearm now : goes any (upd (Relay.rearm_deferred_init_replay now)).
Proof. apply goes_upd; intros c; unfold Relay.rearm_deferred_init_replay; by repeat case_match. Qed.

Lemma goes_with_id {B} (Q : B → Prop) k : (∀ c, conn_id c = id → goes Q (k c)) → goes Q (c ← self; k c).
Proof. intros Hk. apply (settles_bind _ (λ c, conn_id c = id)); [|done]. intros w Hw. split; [done|]. destruct (among_session _ _ _ Hw). by eexists. Qed.

Lemma goes_serve e readable cache queued incoming : map_Forall (λ _, CacheInv.entry_ok) cache → Forall received_ok incoming →
  goes (λ x, Forall received_ok x.2) (serve e readable cache queued incoming).
Proof.
  intros Hc Hin. unfold serve. apply goes_self. intros c _. cbv zeta.
  apply goes_bind; [apply goes_when; by apply goes_upd|intros _].
  apply (settles_bind _ (λ x, Forall received_ok x.2)); [case_match; [by apply goes_ret|by apply goes_drain]|].
  intros [recv_closed incoming'] Hin'. cbn in Hin'.
  apply goes_bind; [apply goes_or_else; [by apply goes_ret|apply goes_buffered]|intros closed].
  apply goes_self. intros c1 _. apply goes_bind; [apply goes_rearm|intros _].
  apply goes_with_id. intros c2 Hid. apply goes_bind.
  - case_match; [|by apply goes_ret]. apply goes_or_else; [by apply goes_replay|]. apply goes_self. intros c3 _.
    case_match; [by apply goes_ret|]. apply goes_is_err, runs_fine. intros A. apply fine_flush.
  - intros closed'. apply goes_bind; [by apply goes_when, goes_release_all|intros _]. by apply goes_ret.
Qed.
End session.

(** * Phases *)

Lemma settles_each (I : Server → Prop) n f ixs : Forall (λ i, (i < n)%nat) ixs → (∀ i, (i < n)%nat → settles I any (f i)) →
  settles I (Forall (λ i, (i < n)%nat)) (each ixs f).
Proof.
  intros Hi Hf. induction Hi as [|i ixs Hi Hin IH]; cbn [each]; [apply settles_ret; constructor|].
  apply (settles_bind _ any); [by apply Hf|intros b _]. eapply settles_bind; [done|intros closed Hc].
  apply settles_ret. destruct b; [by constructor|done].
Qed.

Lemma settles_each_connection (I : Server → Prop) n f : (∀ s, I s → Forall (λ i, (i < n)%nat) (indices s)) →
  (∀ i, (i < n)%nat → settles I any (f i)) → settles I (Forall (λ i, (i < n)%nat)) (each_connection f).
Proof. intros Hi Hf s Hs. apply settles_each; [by apply Hi|done|done]. Qed.

Section phases.
Context {order : Iteration} {laws : IterationLaws}.
Context (ids : list Z).
#[local] Abbreviation good m := (settles (holds_for ids) any m).
(** Indices of connections. *)
#[local] Abbreviation inside := (Forall (λ i, (i < length ids)%nat)).
#[local] Abbreviation closes m := (settles (holds_for ids) inside m).

Lemma good_bind {B C} (Q : C → Prop) (m : ST Server B) k : good m → (∀ b, settles (holds_for ids) Q (k b)) →
  settles (holds_for ids) Q (m ≫= k).
Proof. intros Hm Hk. by apply (settles_bind _ any). Qed.

Lemma good_state {B} (Q : B → Prop) k : (∀ s, holds_for ids s → settles (holds_for ids) Q (k s)) →
  settles (holds_for ids) Q (s ← get_st; k s).
Proof. intros Hk. apply (settles_bind _ (holds_for ids)); [apply settles_get|done]. Qed.

Lemma good_ret {B} (Q : B → Prop) b : Q b → settles (holds_for ids) Q (mret b).
Proof. apply settles_ret. Qed.

Lemma good_modify f : (∀ s, holds_for ids s → holds_for ids (f s)) → good (modify f).
Proof. intros Hf. by apply (settles_modify _ any). Qed.

Lemma holds_indices s : holds_for ids s → inside (indices s).
Proof.
  intros [_ Hids]. unfold indices. rewrite <- (length_fmap id_of), Hids. apply Forall_forall. intros i Hi%elem_of_seq. lia.
Qed.

Lemma closes_each_connection f : (∀ i, (i < length ids)%nat → good (f i)) → closes (each_connection f).
Proof. intros Hf. apply settles_each_connection; [apply holds_indices|done]. Qed.

Lemma good_on_peer {B} i (m : Peer → ST World B) : (i < length ids)%nat →
  (∀ p id R0, Forall received_ok (peer_incoming p) → settles (session_of id R0) any (m p)) → good (on_peer i m).
Proof. apply settles_on_peer. Qed.

Lemma good_ignore_peer {B} i (m : ST World B) : (i < length ids)%nat → (∀ id R0, keeps (session_of id R0) any m) →
  good (ignore (on_peer i (λ _, m))).
Proof. intros Hi Hm. apply (settles_ignore _ any); [|done]. apply keeps_on_peer; [done|]. intros. apply Hm. Qed.

Lemma good_upd_conn i f : (i < length ids)%nat → (∀ c, resources (f c) = resources c) → (∀ c, roles (f c) = roles c) →
  good (upd_conn i f).
Proof. intros Hi H1 H2. apply good_on_peer; [done|]. intros. by apply goes_upd. Qed.

Lemma closes_reap_auth now : closes (reap_timed_out_pending_auth now).
Proof.
  apply closes_each_connection. intros i Hi. apply good_state. intros s _.
  apply good_bind; [apply good_on_peer; [done|]; intros; apply goes_reap|intros reaped].
  apply good_bind; [apply good_ignore_peer; [done|]; intros; apply runs_fine; intros A; apply fine_flush|intros _].
  destruct reaped; [|by apply good_ret]. apply good_bind; [by apply good_upd_conn|intros _]. by apply good_ret.
Qed.

Lemma closes_replay : closes replay_init_frames_for_new_players.
Proof.
  apply closes_each_connection. intros i Hi. apply good_state. intros s [Hs _]. apply good_on_peer; [done|].
  intros. apply goes_replay, (v_cache _ Hs).
Qed.

Lemma closes_flush t : closes (flush_connections t).
Proof.
  apply closes_each_connection. intros i Hi. apply good_on_peer; [done|]. intros p id R0 _. apply goes_self. intros c _.
  case_match; [by apply goes_ret|].
  apply goes_or_else; apply goes_is_err, runs_fine; intros A; [apply fine_maybe_send_ping|apply fine_flush].
Qed.

(** Changes to the socket of a connection. *)
Lemma holds_alter i (f : Peer → Peer) s : holds_for ids s →
  (∀ p, peer_conn (f p) = peer_conn p ∧ peer_addr (f p) = peer_addr p) →
  (∀ p, Forall received_ok (peer_incoming p) → Forall received_ok (peer_incoming (f p))) →
  holds_for ids (s <| connections := alter f i (connections s) |>).
Proof.
  intros Hs Hf Hin. destruct (connections s !! i) as [p|] eqn:Hp.
  - pose proof (Forall_lookup_1 _ _ _ _ (p_each _ _ _ (v_peers _ (proj1 Hs))) Hp) as [Ha Hr]. destruct (Hf p) as [Ec Ea].
    assert (alter f i (connections s) = <[i := f p]> (connections s)) as ->.
    { apply list_eq. intros j. destruct (decide (i = j)) as [<-|Hne].
      - rewrite list_lookup_alter_eq, list_lookup_insert_eq, Hp by (by eapply lookup_lt_Some). done.
      - by rewrite list_lookup_alter_ne, list_lookup_insert_ne. }
    eapply (holds_insert ids s i p _ (active_publish_routes s) (server_events s)); [done..|unfold id_of; by rewrite Ec|done| |done].
    split; [by rewrite Ec|by apply Hin].
  - assert (alter f i (connections s) = connections s) as ->; [|by destruct s].
    apply list_eq. intros j. rewrite list_lookup_alter. case_decide as E; [by rewrite <- E, Hp|done].
Qed.

Lemma closes_serve_all t readable ixs : inside ixs → ∀ queued, closes (serve_all t readable queued ixs).
Proof.
  induction 1 as [|i ixs Hi Hin IH]; intros queued; cbn [serve_all]; [apply good_ret; constructor|].
  apply good_state. intros s [Hs _].
  apply (settles_bind _ (λ x, Forall received_ok x.2)).
  { apply settles_on_peer; [done|]. intros p id R0 Hp. apply goes_serve; [apply (v_cache _ Hs)|done]. }
  intros [[closed queued'] incoming] Hr. cbn in Hr.
  apply good_bind; [apply good_modify; intros s' Hs'; by apply holds_alter|intros _].
  apply (settles_bind _ inside); [apply IH|intros rest Hrest]. apply good_ret. destruct closed; [by constructor|done].
Qed.

Lemma closes_recv t readable : closes (recv_and_reap_connections t readable).
Proof. intros s Hs. by apply closes_serve_all; [apply holds_indices|]. Qed.
(** ** Phases that only keep books *)

Lemma holds_cache s f : holds_for ids s → (CacheInv.cache_ok (caches s) → CacheInv.cache_ok (f (caches s))) →
  max_cache_bytes (f (caches s)) = max_cache_bytes (caches s) → holds_for ids (s <| caches := f (caches s) |>).
Proof. intros [[] Hids] Hf Hm. split; [|done]. split; try done; cbn; [by apply Hf|by rewrite Hm]. Qed.

Lemma holds_abandon p key s : holds_for ids s → holds_for ids (s <| caches := abandon p key (caches s) |>).
Proof. intros Hs. apply (holds_cache s (abandon p key)); [done|apply CacheInv.abandon_ok|]. unfold abandon. by repeat case_match. Qed.

Lemma forget_max p c : max_cache_bytes (forget_publisher p c) = max_cache_bytes c.
Proof.
  unfold forget_publisher. case_match; [|done].
  by destruct (CacheInv.drop_unowned_spec l (c <| publisher_cache_keys := delete p (publisher_cache_keys c) |>)) as (_ & -> & _).
Qed.

Lemma holds_forget p s : holds_for ids s → holds_for ids (s <| caches := forget_publisher p (caches s) |>).
Proof. intros Hs. apply (holds_cache s (forget_publisher p)); [done|apply CacheInv.forget_ok|apply forget_max]. Qed.

(** Changes to one connection that keep its roles. *)
Lemma holds_same i p c s : holds_for ids s → connections s !! i = Some p → (conn_ok (peer_conn p) → conn_ok c) →
  roles c = roles (peer_conn p) → holds_for ids (s <| connections := <[i := p <| peer_conn := c |>]> (connections s) |>).
Proof.
  intros Hs Hp Hc Er. pose proof (Forall_lookup_1 _ _ _ _ (p_each _ _ _ (v_peers _ (proj1 Hs))) Hp) as [Ha Hr].
  apply (holds_insert ids s i p _ (active_publish_routes s) (server_events s)); try done.
  - unfold id_of. cbn. unfold roles in Er. congruence.
  - split; [|done]. cbn. eapply among_same; [done| |done]. by eapply Hc, among_ok.
Qed.

Lemma holds_abandon_key i key s : holds_for ids s → holds_for ids (abandon_key i key s).
Proof.
  intros Hs. unfold abandon_key. destruct (connections s !! i) as [p|] eqn:Hp; [|done].
  assert (holds_for ids (s <| connections := <[i := p <| peer_conn := Relay.note_abandoned_relay_route key.1 key.2 (peer_conn p) |>]> (connections s) |>)) as H1.
  { apply holds_same; [done..|apply note_abandoned_ok|apply note_abandoned_roles]. }
  exact (holds_abandon (conn_id (peer_conn p)) key _ H1).
Qed.

Lemma holds_foldl {B} (f : Server → B → Server) l s : (∀ s x, holds_for ids s → holds_for ids (f s x)) →
  holds_for ids s → holds_for ids (foldl f s l).
Proof. intros Hf. revert s. induction l as [|x l IH]; intros s Hs; [done|]. cbn. apply IH, Hf, Hs. Qed.

Lemma holds_drain_one i s : holds_for ids s → holds_for ids (snd (drain_connection_evictions i s)).
Proof.
  intros Hs. unfold drain_connection_evictions. destruct (connections s !! i) as [p|] eqn:Hp; [|done]. cbn [snd].
  apply holds_foldl; [intros; by apply holds_abandon_key|].
  apply holds_same; [done..| |done]. intros. by apply conn_ok_evictions.
Qed.

Lemma holds_drain s : holds_for ids s → holds_for ids (snd (drain_pending_cache_evictions s)).
Proof.
  intros Hs. unfold drain_pending_cache_evictions. generalize (∅ : gset (Route * Z)) as a. revert s Hs.
  assert (∀ ixs s a, holds_for ids s → holds_for ids (snd (foldl (λ '(abandoned, s) i,
    let '(keys, s) := drain_connection_evictions i s in (abandoned ∪ keys, s)) (a, s) ixs))) as H.
  { induction ixs as [|i ixs IH]; intros s a Hs; [done|]. cbn [foldl].
    pose proof (holds_drain_one i s Hs) as H1. destruct (drain_connection_evictions i s). by apply IH. }
  intros s Hs a. by apply H.
Qed.

(** Entries of the registry may go. *)
Lemma holds_fewer_routes t s : holds_for ids s → t ⊆ active_publish_routes s → holds_for ids (s <| active_publish_routes := t |>).
Proof.
  intros [[] Hids] Ht. split; [|done]. split; try done. destruct v_peers0 as [He Hn Hb Ho]. split; try done; cbn.
  - eapply Forall_impl; [exact He|]. intros p [Ha Hr]. split; [|done]. eapply among_elsewhere; [exact Ha|].
    intros k E. by eapply lookup_weaken.
  - intros k id E. by eapply Ho, lookup_weaken.
Qed.

Lemma frames_bytes_sum l : frames_bytes l = sumZ retained_bytes l.
Proof. induction l as [|f l IH]; [done|]. cbn. unfold frames_bytes in IH. by rewrite IH. Qed.

Lemma queue_filter P m p l : queue_ok P m l → queue_ok P m (List.filter p l).
Proof.
  intros []. split; [by apply Forall_list_filter|pose proof (zlen_filter p l); lia|].
  rewrite <- !frames_bytes_sum in *. etrans; [apply frames_bytes_filter|done].
Qed.

Lemma holds_injected_filter p s : holds_for ids s →
  holds_for ids (s <| pending_injected_relay := List.filter p (pending_injected_relay s) |>).
Proof. intros [[] Hids]. split; [|done]. split; try done. by apply queue_filter. Qed.

Lemma holds_release key s : holds_for ids s → holds_for ids (release_injected_route key s).
Proof.
  intros Hs. unfold release_injected_route. cbv zeta. cbn [external_route_ids].
  set (s1 := s <| inject_route_last_seen := _ |> <| external_route_ids := _ |> <| pending_injected_relay := _ |>).
  assert (holds_for ids s1) as H1.
  { pose proof (holds_injected_filter (λ f, negb (bool_decide (route_of f = key))) s Hs) as [[] Hids]. split; [|done]. split; try done. by apply map_Forall_delete. }
  case_match; [|done]. pose proof (holds_forget z s1 H1) as H2. case_decide; [|done].
  apply (holds_fewer_routes (delete key (active_publish_routes s)) _ H2), delete_subseteq.
Qed.

Lemma holds_reap_inject now s : holds_for ids s → holds_for ids (reap_stale_inject_routes now s).
Proof. apply holds_foldl. intros. by apply holds_release. Qed.

(** A change of every connection on its own. *)
Lemma holds_fmap g s : holds_for ids s →
  (∀ p, among (active_publish_routes s) (peer_conn p) → among (active_publish_routes s) (g p) ∧ conn_id (g p) = conn_id (peer_conn p)) →
  holds_for ids (s <| connections := (λ p, p <| peer_conn := g p |>) <$> connections s |>).
Proof.
  intros [[] Hids] Hg. destruct v_peers0 as [He Hn Hb Ho].
  assert (id_of <$> ((λ p, p <| peer_conn := g p |>) <$> connections s) = id_of <$> connections s) as Eids.
  { rewrite <- list_fmap_compose. apply list_fmap_ext. intros i p Hp. unfold compose, id_of. cbn.
    apply Hg, (Forall_lookup_1 _ _ _ _ He Hp). }
  split; [|cbn; by rewrite Eids]. split; cbn; rewrite ?Eids; try done.
  - split; rewrite ?Eids; try done.
    + apply Forall_fmap. eapply Forall_impl; [exact He|]. intros p [Ha Hr]. split; [by apply Hg|done].
    + apply (Forall_fmap id_of (λ i, 0 < i < next_conn_id s)). rewrite Eids. by apply Forall_fmap.
  - intros Hm. unfold zlen. rewrite length_fmap. by apply v_count0.
  - intros ip. etrans; [|apply (v_per_addr0 ip)]. unfold active_connections_for_ip. cbn. clear.
    induction (connections s) as [|p l IH]; [done|]. rewrite fmap_cons. simpl. case_match; rewrite ?zlen_cons; lia.
Qed.

Lemma among_detach t c : among t c → Calls.displaced (mkWorld c t [] [] []) = true →
  among t (Relay.detach_lost_publish_route c) ∧ conn_id (Relay.detach_lost_publish_route c) = conn_id c.
Proof.
  intros [A Hw] Hd. pose proof (fine_detach _ _ _ _ _ _ _ _ Hw Hd) as Hw'.
  assert (conn_id (Relay.detach_lost_publish_route c) = conn_id c) as E by apply Hw'.
  split; [|done]. exists A. by rewrite E.
Qed.

(** The ones that changed are changed in place. *)
Lemma holds_fmap_if (d : Peer → bool) (g : Peer → Conn) s : holds_for ids s →
  (∀ p, among (active_publish_routes s) (peer_conn p) → d p = true →
    among (active_publish_routes s) (g p) ∧ conn_id (g p) = conn_id (peer_conn p)) →
  holds_for ids (s <| connections := (λ p, if d p then p <| peer_conn := g p |> else p) <$> connections s |>).
Proof.
  intros Hs Hg.
  assert ((λ p, if d p then p <| peer_conn := g p |> else p) <$> connections s
    = (λ p, p <| peer_conn := if d p then g p else peer_conn p |>) <$> connections s) as ->.
  { apply list_fmap_ext. intros i p _. destruct (d p); [done|]. by destruct p. }
  apply (holds_fmap (λ p, if d p then g p else peer_conn p)); [done|]. intros p Hp.
  destruct (d p) eqn:E; [by apply Hg|done].
Qed.

Lemma holds_detach closed s : holds_for ids s → holds_for ids (detach_displaced_route_owners closed s).
Proof.
  intros Hs. apply (holds_fmap_if _ (λ p, Relay.detach_lost_publish_route (peer_conn p))); [done|]. cbn. intros p Hp Hd.
  apply among_detach; [done|]. rewrite <- andb_assoc in Hd. apply andb_true_iff in Hd as [_ Hd]. exact Hd.
Qed.

Lemma holds_drop_stale abandoned s : holds_for ids s → holds_for ids (drop_stale_pending_relay_for_abandoned_routes abandoned s).
Proof.
  intros Hs. unfold drop_stale_pending_relay_for_abandoned_routes. cbv zeta.
  refine (holds_fmap_if (λ p, _ && _ && _) (λ p, _ <| pending_relay := List.filter _ _ |>) s Hs _).
  cbn. intros p Hp _. split; [|done]. eapply among_same; [done| |done]. by eapply conn_ok_relay_filter, among_ok.
Qed.
End phases.
End ServerStep.
