(* ===== verification/ServerFan.v ===== *)
(** The fan-out of a tick: frames are cached, staged for their players or sent,
    and what is left over goes back to where it came from. Nothing panics, the
    invariant is kept, and no queue, role or route changes on the way. *)
From S2P Require Import Prelude Bytes Types Buffer Source ChunkState MediaOut Modex Multitrack Handshake Delivery Session ConnRelay ConnSend ConnMedia ConnAuth ConnCommand ConnRecv SessionTotal SessionInv SessionStep SessionRecv SessionCalls SessionSend RelayQueue StreamCache CacheInv Staging Server ServerRelay ServerInv ServerStep.
#[local] Set Warnings "-clear-no-such-hyp".

Module ServerFan.
Import Conn RelayQueue Cache Server Total Invariant Step Recv Calls Sending ServerInv ServerStep.

#[local] Abbreviation any := (λ _, True).

(** * Sending on one connection *)

Lemma steady_is_err {B} (m : ST World B) : steady m → steady (is_err m).
Proof. intros Hm w. specialize (Hm w). unfold is_err. by destruct (m w) as [[b|e|] w']. Qed.

Lemma steady_or_else a b : steady a → steady b → steady (or_else a b).
Proof. intros Ha Hb. apply steady_bind; [done|]. by intros []. Qed.

Section steady.
Context {order : Iteration}.

Lemma steady_replay_payload ft ts p : steady (replay_payload ft ts p).
Proof.
  apply steady_bind; [apply steady_lift|intros mt]. apply steady_bind; [done|intros c].
  case_match; [apply steady_is_err, steady_send_frame|done].
Qed.

Lemma steady_replay_headers ft header tracks : steady (replay_headers ft header tracks).
Proof.
  apply steady_bind; [destruct header; [apply steady_replay_payload|done]|intros failed].
  apply steady_bind; [|done]. unfold replay_tracks. induction (iterate tracks) as [|kv l IH]; cbn [foldr]; [done|].
  apply steady_bind; [done|intros c]. apply steady_bind; [case_match; [apply steady_is_err, steady_send_frame|done]|intros f].
  by apply steady_bind.
Qed.

Lemma steady_replay_cached cache audio video : steady (replay_cached_headers_to_conn cache audio video).
Proof.
  apply steady_bind; [repeat case_match; [apply steady_is_err, steady_send_frame|done..]|intros f1].
  apply steady_bind; [case_match; [apply steady_replay_headers|done]|intros f2].
  apply steady_bind; [case_match; [apply steady_replay_headers|done]|intros f3].
  case_match; [|done]. unfold replay_cached_keyframe. destruct (last_keyframe cache) as [[ts kf]|]; [apply steady_replay_payload|done].
Qed.

Lemma steady_replay cache : steady (replay_init_frames_for_conn cache).
Proof.
  apply steady_bind; [done|intros c]. case_match; [done|]. destruct (current_stream c); [|done]. case_match; [done|].
  apply steady_bind; [by apply steady_upd|intros _]. destruct (cache !! _); [|done].
  apply steady_bind; [apply steady_replay_cached|intros failed]. apply steady_bind; [|done].
  apply steady_when. by apply steady_upd.
Qed.
End steady.

Lemma steady_deliver tls i n frame staged : steady (deliver tls i n frame staged).
Proof.
  intros w. unfold deliver. cbv zeta. destruct (Staging.body_for _ _ _ _) as [[[body|]|e|] st]; try done.
  destruct (sg_bodies st !! body) as [[[k b] f]|]; [|done]. destruct (Sender.can_stage_media _ _).
  - pose proof (steady_stage_body (rf_frame_type frame) (rf_timestamp frame) (zlen (rf_payload frame)) (Buffer.available b)
      (sg_headers st) w) as H. destruct (Sender.stage_encoded_media_body _ _ _ _ _ w) as [[[n' h]|e|] w']; [|done..].
    by destruct (Staging.stage_message _ _ _ _) as [[]].
  - revert w. change (steady (payload ← lift (Buffer.peek b);
      failed ← is_err (Sender.send_encoded_media_body (rf_frame_type frame) (rf_timestamp frame) (zlen (rf_payload frame)) payload);
      mret (failed, st))).
    apply steady_bind; [apply steady_lift|intros payload]. by apply steady_bind; [apply steady_is_err, steady_send_body|].
Qed.

Lemma flow_resources limits hint backlog now c :
  (λ c, (resources c, roles c)) (snd (player_flow_decision limits hint backlog now c)) = (resources c, roles c).
Proof. unfold player_flow_decision. cbv zeta. by repeat case_match. Qed.

Lemma flow_carried limits hint backlog now c : carried (snd (player_flow_decision limits hint backlog now c)) = carried c.
Proof. unfold player_flow_decision. cbv zeta. by repeat case_match. Qed.

Lemma steady_to_player t limits tls i n frame delivery staged :
  steady (relay_frame_to_player t limits tls i n frame delivery staged).
Proof.
  apply steady_bind; [done|intros c]. cbv zeta. apply steady_bind.
  - intros w. unfold state_conn. pose proof (flow_carried limits (for_player delivery c)
      (Buffer.available (send_buffer c) + staged_media_bytes c) (tick_now t) (conn w)) as H.
    destruct (player_flow_decision _ _ _ _ (conn w)) as [flow c']. unfold view. cbn in *. by rewrite H.
  - intros []; (apply steady_bind; [|intros]); try done; try by apply steady_upd.
    + apply steady_deliver.
    + destruct b as [failed st]. apply steady_bind; [apply steady_when; by apply steady_upd|done].
Qed.

(** ** What is staged *)

Section staged.
(** The frames of the batch, and the number of connections. *)
Context (frames : nat → RelayFrame) (n : nat).

(** Bodies are the frames', and messages are for connections. *)
Definition staged_for (st : StagedRelayMedia) : Prop :=
  ∃ log, Staging.staged_ok frames log st ∧ Forall (λ e : nat * bytes * bytes, (e.1.1 < n)%nat) log.

Lemma staged_default : staged_for Staging.default.
Proof. exists []. split; [apply Staging.default_staged|constructor]. Qed.

Lemma staged_release st : staged_for st → staged_for (Staging.release_unstaged_bodies st).
Proof. intros (log & H & Hl). exists log. split; [by apply Staging.release_spec|done]. Qed.

Lemma staged_parts st : staged_for st → Forall (λ i, (i < n)%nat) (sg_conns st) ∧ ∀ i, ∃ parts, Staging.parts_of st i = Ok parts.
Proof.
  intros (log & H & Hl). split; [|intros i; eexists; by apply (Staging.parts_spec frames log)].
  destruct (Staging.s_linked _ _ _ H) as (l & [_ _ Hc] & Hb). rewrite Hc. apply Forall_forall. intros i Hi%Staging.conns_of_in.
  destruct (Staging.first_of i l) as [j|] eqn:E; [|done]. apply Staging.first_of_some in E as (p & Hp & <- & _).
  destruct (Forall2_lookup_l _ _ _ _ _ Hb Hp) as (e & He & (Ec & _)). rewrite Ec. by apply (Forall_lookup_1 _ _ _ _ Hl He).
Qed.

Lemma relayable_carriable f : relayable f → carriable (rf_timestamp f) (rf_payload f).
Proof.
  intros [[] Hl _]. split_and!; [done| |done]. pose proof (zlen_nonneg (rf_payload f)). unfold RTMP_WIRE_MAX_MSG_LENGTH in *.
  unfold is_u24. lia.
Qed.

Lemma goes_deliver id R0 tls i k frame st : (i < n)%nat → frame = frames k → relayable frame → staged_for st →
  settles (session_of id R0) (λ x, staged_for x.2) (deliver tls i k frame st).
Proof.
  intros Hi Ef Hf (log & Hst & Hl) w [A Hw]. pose proof (relayable_carriable _ Hf) as Hc. unfold deliver. cbv zeta.
  assert (0 ≤ Sender.media_chunk_size (conn w)) as Hcs.
  { unfold Sender.media_chunk_size. destruct (_ =? 0); [done|]. apply (ok_sizes _ (proj1 Hw)). }
  rewrite Ef in *. destruct (Staging.body_for_spec frames log st k _ Hst Hcs) as (o & st' & -> & Hst' & Eh & Ho).
  destruct o as [body|]; [|split; [by exists A|eexists; split; [done|by exists log]]]. destruct (Ho body eq_refl) as (b & f & Eb & Hb & Ec). rewrite Eb.
  destruct (Sender.can_stage_media tls (conn w)).
  - pose proof (stage_body id R0 _ _ _ _ A (rf_frame_type (frames k)) _ _ (Buffer.available b) (sg_headers st') w Hc
      (Staging.s_headers _ _ _ Hst') Hw) as Hs. unfold lands in Hs.
    destruct (Sender.stage_encoded_media_body _ _ _ _ _ w) as [[[hl hs]|e|] w'];
      [|split; [by exists A|eexists; split; [done|by exists log]]|done].
    destruct Hs as (Hw' & Hwf & header & Ehl & Hcont). cbn [fst snd] in *. subst hl.
    destruct (Staging.stage_spec frames log st' i k body _ b f header hs Hst' Eb Hwf Hcont) as (s' & -> & Hs' & _).
    split; [by exists A|]. eexists. split; [done|]. eexists. split; [exact Hs'|]. apply Forall_app. split; [done|]. by apply Forall_singleton.
  - rewrite Buffer.peek_contents by done.
    enough (settles (session_of id R0) (λ x, staged_for x.2) (payload ← lift (Ok (Buffer.contents b));
      failed ← is_err (Sender.send_encoded_media_body (rf_frame_type (frames k)) (rf_timestamp (frames k)) (zlen (rf_payload (frames k))) payload);
      mret (failed, st'))) as H by (apply H; by exists A).
    apply goes_bind; [by apply goes_lift; eexists|intros payload]. apply goes_bind.
    + apply goes_is_err, runs_fine. intros A'. by apply fine_send_body.
    + intros failed. apply goes_ret. by exists log.
Qed.

Lemma goes_to_player id R0 t limits tls i k frame delivery st : (i < n)%nat → frame = frames k → relayable frame → staged_for st →
  settles (session_of id R0) (λ x, staged_for x.2) (relay_frame_to_player t limits tls i k frame delivery st).
Proof.
  intros Hi Ef Hf Hst. apply goes_self. intros c _. cbv zeta. apply goes_bind.
  - intros w [A [Ho Hr]]. unfold state_conn.
    pose proof (flow_resources limits (for_player delivery c) (Buffer.available (send_buffer c) + staged_media_bytes c)
      (tick_now t) (conn w)) as Hd.
    destruct (player_flow_decision _ _ _ _ (conn w)) as [flow c']. split; [|by eexists]. exists A.
    split; [by apply (conn_ok_resources (conn w) c' (f_equal fst Hd))|].
    by apply (roles_ok_roles _ _ _ _ _ _ _ _ (conn w) c' _ (f_equal snd Hd)).
  - intros [].
    + eapply (settles_bind _ (λ x, staged_for x.2)); [by apply goes_deliver|]. intros [failed st'] Hst'. cbn in Hst'.
      apply goes_bind; [apply goes_when; by apply goes_upd|intros _]. by apply goes_ret.
    + apply goes_bind; [by apply goes_upd|intros _]. by apply goes_ret.
    + apply goes_bind; [by apply goes_upd|intros _]. by apply goes_ret.
Qed.
End staged.

(** * What a tick carries along *)

(** The roles and queues of the connections, the registry and the other queues. *)
Definition frozen (s : Server) :=
  ((λ p, carried (peer_conn p)) <$> connections s, active_publish_routes s, orphaned_relay s, pending_injected_relay s,
   (max_relay_sends_per_poll s, settings s, next_conn_id s)).

(** ** Hints *)

Lemma route_video_total frame s : CacheInv.cache_ok (caches s) → ∃ o, route_video frame s = Ok o.
Proof.
  intros Hs. unfold route_video. destruct (stream_cache (caches s) !! route_of frame) as [c|] eqn:E; [|by eexists].
  destruct (CacheInv.c_entry _ Hs _ _ E) as [[] _]. cbv zeta. case_match; [|by eexists]. case_match; [by eexists|].
  assert (∃ b, match avc_header c with Some header => cached_payload_is_multitrack Video header | None => Ok false end = Ok b) as (b & ->).
  { destruct (avc_header c) as [p|]; [|by eexists]. destruct (multitrack_total Video p) as (b & -> & _); [by apply e_avc|by eexists]. }
  rewrite Ok_bind. destruct b; [by eexists|].
  destruct (last_keyframe c) as [[ts p]|] eqn:Ek; [|by eexists].
  destruct (multitrack_total Video p) as (b & -> & _); [by eapply e_keyframe|by eexists].
Qed.

Lemma classify_hint ft payload has_video : bytes_ok payload → ∃ h, Delivery.classify ft payload has_video = Ok h.
Proof.
  intros Ho. unfold Delivery.classify. destruct (Delivery.is_critical_iff ft payload Ho) as (b & -> & _). rewrite Ok_bind.
  destruct b; [by eexists|]. destruct (CacheInv.classify_ok ft payload Ho) as (k & ->). rewrite Ok_bind. by eexists.
Qed.

Lemma hint_total frame s : CacheInv.cache_ok (caches s) → frame_ok frame → ∃ h, export_hint frame s = Ok h.
Proof.
  intros Hs Hf. unfold export_hint, delivery_hint. destruct (route_video_total frame s Hs) as (o & ->). rewrite Ok_bind.
  destruct (classify_hint (rf_frame_type frame) (cache_payload frame) (bool_decide (is_Some o)) (f_cache _ Hf)) as (h & ->). by eexists.
Qed.

Lemma delivery_total frame s : CacheInv.cache_ok (caches s) → frame_ok frame → ∃ d, frame_delivery frame s = Ok d.
Proof.
  intros Hs Hf. unfold frame_delivery, delivery_hint. destruct (route_video_total frame s Hs) as (o & ->). rewrite Ok_bind.
  destruct (classify_hint (rf_frame_type frame) (cache_payload frame) (bool_decide (is_Some o)) (f_cache _ Hf)) as (h & ->). by eexists.
Qed.

Section still.
Context {order : Iteration} {laws : IterationLaws}.
Context (ids : list Z) (s0 : Server).
#[local] Abbreviation inside := (Forall (λ i, (i < length ids)%nat)).

Definition still (s : Server) : Prop := holds_for ids s ∧ frozen s = frozen s0.
#[local] Abbreviation good m := (settles still any m).

Lemma still_state {B} (Q : B → Prop) k : (∀ s, still s → settles still Q (k s)) → settles still Q (s ← get_st; k s).
Proof. intros Hk. apply (settles_bind _ still); [apply settles_get|done]. Qed.

Lemma still_bind {B C} (Q : C → Prop) (m : ST Server B) k : good m → (∀ b, settles still Q (k b)) → settles still Q (m ≫= k).
Proof. intros Hm Hk. by apply (settles_bind _ any). Qed.

Lemma still_indices s : still s → inside (indices s).
Proof. intros [H _]. by apply holds_indices. Qed.

Lemma still_on_peer {B} i (Q : B → Prop) (m : Peer → ST World B) : (i < length ids)%nat →
  (∀ p id R0, Forall received_ok (peer_incoming p) → settles (session_of id R0) Q (m p)) → (∀ p, steady (m p)) →
  settles still Q (on_peer i m).
Proof.
  intros Hi Hm Hst s [Hs Hf]. destruct (on_peer_cases ids i m s Hi Hs) as (p&Hp&Hr&Hw&E&H); [intros; by apply Hm|].
  split; [|rewrite E; by apply (Hm p _ _ Hr _ Hw)]. split; [done|]. rewrite <- Hf. unfold on_peer. rewrite Hp.
  specialize (Hst p (world_of p s)). destruct (m p (world_of p s)) as [r w']. pose proof (f_equal fst Hst) as Hc. pose proof (f_equal snd Hst) as Hrt.
  unfold frozen. cbn -[carried] in *. rewrite Hrt. do 4 f_equal. rewrite list_fmap_insert. apply list_insert_id.
  rewrite list_lookup_fmap, Hp. cbn -[carried]. f_equal. by rewrite <- Hc.
Qed.

Lemma still_replay : settles still inside replay_init_frames_for_new_players.
Proof.
  apply settles_each_connection; [apply still_indices|]. intros i Hi. apply still_state. intros s [[Hs _] _].
  apply still_on_peer; [done| |intros; apply steady_replay]. intros. apply goes_replay, (v_cache _ Hs).
Qed.

Lemma still_flush t : settles still inside (flush_connections t).
Proof.
  apply settles_each_connection; [apply still_indices|]. intros i Hi. apply still_on_peer; [done|..].
  - intros p id R0 _. apply goes_self. intros c _. case_match; [by apply goes_ret|].
    apply goes_or_else; apply goes_is_err, runs_fine; intros A; [apply fine_maybe_send_ping|apply fine_flush].
  - intros p. apply steady_bind; [done|intros c]. case_match; [done|].
    apply steady_or_else; apply steady_is_err; [apply steady_ping|apply steady_flush].
Qed.

(** ** The init cache *)

Lemma relayable_addressable s f : server_ok s → relayable f → CacheInv.addressable (caches s) f.
Proof.
  intros Hs Hf. pose proof (v_cache_limit _ Hs). pose proof (l_bytes _ Hf) as Hb. unfold retained_bytes in Hb.
  pose proof (zlen_nonneg (rf_app f)). pose proof (zlen_nonneg (rf_stream_name f)). pose proof (zlen_nonneg (rf_payload f)).
  assert (0 ≤ from_option zlen 0 (rf_cache_payload f)) by (destruct (rf_cache_payload f); [apply zlen_nonneg|done]).
  unfold CacheInv.addressable, CacheInv.key_sum, route_of, saturating_add, ISIZE_MAX, USIZE_MAX in *. cbn [fst snd]. lia.
Qed.

Lemma still_cache frame abandoned : relayable frame → good (cache_relay_frame_unless_orphaned frame abandoned).
Proof.
  intros Hf s [Hs Hz]. unfold cache_relay_frame_unless_orphaned. cbv zeta. destruct (bool_decide _); [split; [done|by exists tt]|].
  destruct (_ && _); [|split; [done|by exists tt]]. unfold on_caches. pose proof (proj1 Hs) as Hok.
  destruct (CacheInv.cache_frame_spec iterate (iterate_perm _ _) frame (caches s) (v_cache _ Hok)
    (relayable_addressable _ _ Hok Hf) (l_frame _ Hf)) as (c & -> & Hc & Hm & _).
  split; [|by exists tt]. split; [|done]. by apply (holds_cache ids s (λ _, c)).
Qed.

(** ** One frame *)

Lemma players_inside frame s : still s → inside (players frame s) ∧ zlen (players frame s) ≤ zlen ids.
Proof.
  intros Hs. pose proof (still_indices s Hs) as Hi. assert (zlen (indices s) = zlen ids) as <-.
  { destruct Hs as [[_ <-] _]. unfold indices, zlen. by rewrite length_seq, length_fmap. }
  unfold players. revert Hi. generalize (indices s) as ixs. generalize (connections s) as l.
  induction l as [|p l IH]; intros [|i ixs] Hi; [done..|split; [constructor|apply zlen_nonneg]|].
  apply Forall_cons in Hi as [Hi Hix]. destruct (IH ixs Hix) as [H1 H2]. rewrite (zlen_cons i). cbn [zip zip_with omap list_omap].
  destruct (conn_will_receive_relay_frame _ _); [rewrite zlen_cons; split; [by constructor|lia]|split; [done|lia]].
Qed.

Context (frames : nat → RelayFrame).
#[local] Abbreviation staged_now := (staged_for frames (length ids)).

Lemma still_to_players t limits k frame delivery ixs : inside ixs → frame = frames k → relayable frame →
  ∀ st, staged_now st → settles still (λ x, 0 ≤ x.1.1 ≤ zlen ixs ∧ inside x.1.2 ∧ staged_now x.2)
    (relay_frame_to_players t limits k frame delivery st ixs).
Proof.
  intros Hix Ef Hf. induction Hix as [|i ixs Hi Hix IH]; intros st Hst; cbn [relay_frame_to_players].
  { apply settles_ret. split_and!; [done..|constructor|done]. }
  apply (settles_bind _ (λ x, staged_now x.2)).
  { apply still_on_peer; [done| |intros; apply steady_to_player]. intros. by apply goes_to_player. }
  intros [outcome st1] Hst1. cbn in Hst1. eapply settles_bind; [by apply IH|].
  intros [[delivered closed] st2] (Hd & Hc & Hst2). cbn in *. apply settles_ret. rewrite zlen_cons.
  destruct outcome; cbn; (split; [lia|]); (split; [|done]); [done..|by constructor|by constructor].
Qed.

(** ** All frames *)

(** The outcome of a fan-out of [l] after [sends] deliveries. *)
Record fanned (l : list RelayFrame) (sends : Z) (o : FanOut) : Prop := {
  fan_staged : staged_now (fo_staged o);
  fan_closed : inside (fo_closed o);
  fan_rest : fo_rest o `suffix_of` l;
  fan_sends : sends ≤ fo_sends o;
  fan_budget : max_relay_sends_per_poll s0 < USIZE_MAX →
    fo_sends o ≤ Z.max sends (Z.max (max_relay_sends_per_poll s0) (zlen ids));
  fan_progress : fo_rest o ≠ [] → 0 < fo_sends o;
}.

Lemma still_budget s : still s → max_relay_sends_per_poll s = max_relay_sends_per_poll s0.
Proof. intros [_ E]. apply (f_equal snd) in E. by injection E. Qed.

Lemma still_hints frame (export : option RelayExportBuffer) s : still s → frame_ok frame →
  good (match export with Some _ => hint ← lift (export_hint frame s); mret [hint] | None => mret [] end).
Proof.
  intros [[Hs _] _] Hf. destruct export; [|by apply settles_ret]. destruct (hint_total frame s (v_cache _ Hs) Hf) as (h & ->).
  by apply (settles_ret still any [h]).
Qed.

Lemma still_delivery frame (b : bool) s : still s → frame_ok frame →
  good (if b then mret always else lift (frame_delivery frame s)).
Proof.
  intros [[Hs _] _] Hf. destruct b; [by apply settles_ret|]. destruct (delivery_total frame s (v_cache _ Hs) Hf) as (d & ->).
  by apply (settles_ret still any d).
Qed.

Lemma still_fan_out t limits abandoned l : Forall relayable l → ∀ k st sends, (∀ j f, l !! j = Some f → f = frames (k + j)%nat) →
  staged_now st → 0 ≤ sends → settles still (fanned l sends) (fan_out t limits abandoned k st sends l).
Proof.
  induction 1 as [|frame l Hf Hl IH]; intros k st sends Hfr Hst Hs; cbn [fan_out].
  { apply settles_ret. split; cbn; try done; lia. }
  apply still_state. intros s1 H1. cbv zeta. destruct (players_inside frame s1 H1) as [Hix Hn].
  rewrite (still_budget s1 H1). pose proof (zlen_nonneg (players frame s1)).
  set (stop := _ && _ && _). destruct stop eqn:Estop.
  { apply settles_ret. split; cbn; try done; [lia|]. intros _. subst stop. lia. }
  assert (max_relay_sends_per_poll s0 < USIZE_MAX →
    zlen (players frame s1) = 0 ∨ sends = 0 ∨ sends + zlen (players frame s1) ≤ max_relay_sends_per_poll s0) as Hroom.
  { subst stop. unfold saturating_add in Estop. lia. }
  apply still_bind; [by apply still_cache|intros _]. apply still_state. intros s2 H2.
  apply still_bind; [apply still_hints; [done|apply Hf]|intros hints].
  apply still_bind; [apply still_delivery; [done|apply Hf]|intros delivery].
  eapply settles_bind; [apply still_to_players; [done|by rewrite <- (Nat.add_0_r k); apply Hfr|done..]|].
  intros [[delivered closed] st1] (Hd & Hc & Hst1). cbn in Hd, Hc, Hst1.
  eapply settles_bind; [apply (IH (S k)); [|by apply staged_release|lia]|].
  { intros j f Hj. rewrite Nat.add_succ_comm. by apply Hfr. }
  intros o []. apply settles_ret. split; cbn; try done; [by apply Forall_app|by apply suffix_cons_r|lia|lia].
Qed.

Lemma still_stop (b : bool) : steady (when b (upd stop_relay_player)).
Proof. apply steady_when. by apply steady_upd. Qed.

Lemma still_send_staged t st conns : staged_now st → inside conns → settles still inside (send_staged t st conns).
Proof.
  intros Hst. induction 1 as [|i conns Hi Hc IH]; cbn [send_staged]; [apply settles_ret; constructor|].
  destruct (staged_parts _ _ _ Hst) as [_ Hp]. destruct (Hp i) as (parts & ->).
  apply (still_bind _ (lift (Ok parts))); [by apply settles_ret|intros ps]. apply still_bind.
  - apply still_on_peer; [done|..].
    + intros p id R0 _. apply goes_self. intros c _. case_match; [by apply goes_ret|].
      apply goes_bind; [apply goes_is_err, runs_fine; intros A; apply fine_send_staged|intros failed].
      apply goes_bind; [apply goes_when; by apply goes_upd|intros _]. by apply goes_ret.
    + intros p. apply steady_bind; [done|intros c]. case_match; [done|].
      apply steady_bind; [apply steady_is_err, steady_send_staged|intros failed]. by apply steady_bind; [apply still_stop|].
  - intros failed. eapply settles_bind; [exact IH|]. intros rest Hr. apply settles_ret. destruct failed; [by constructor|done].
Qed.
End still.
End ServerFan.
