(* ===== verification/ServerTick.v ===== *)
(** A tick: the phases in their order, the frames that go back to the queues,
    and the removal of closed connections. *)
From stdpp Require Import sorting.
From S2P Require Import Prelude Bytes Types Buffer Source ChunkState MediaOut Modex Multitrack Handshake Delivery Session ConnRelay ConnSend ConnMedia ConnAuth ConnCommand ConnRecv SessionTotal SessionInv SessionStep SessionRecv SessionCalls SessionSend RelayQueue StreamCache CacheInv Staging Server ServerRelay ServerInv ServerStep ServerFan.
#[local] Set Warnings "-clear-no-such-hyp".

Module ServerTick.
Import Conn RelayQueue Cache Server Total Invariant Step Recv Calls Sending ServerInv ServerStep ServerFan.

#[local] Abbreviation any := (λ _, True).

(** * Orphans *)

Section orphans.
Context {order : Iteration} {laws : IterationLaws}.

Lemma export_orphan_spec f s : CacheInv.cache_ok (caches s) → frame_ok f →
  ∃ e, export_orphaned_relay_frame f s = (Ok tt, s <| relay_export := e |>).
Proof.
  intros Hs Hf. unfold export_orphaned_relay_frame. destruct (is_external_publisher_id _).
  - exists (relay_export s). by destruct s.
  - unfold mbind, ST_bind, get_st. destruct (hint_total f s Hs Hf) as (h & ->). unfold lift, modify, export_frame.
    destruct (relay_export s) eqn:E; [by eexists|]. exists None. rewrite <- E. by destruct s.
Qed.

Lemma sum_retained_nonneg l : 0 ≤ sumZ retained_bytes l.
Proof. apply sumZ_nonneg, Forall_forall. intros. apply retained_nonneg. Qed.

(** The orphans that are dropped are the oldest. *)
Lemma drop_orphans_spec fb mb orphans : Forall frame_ok orphans → ∀ s, CacheInv.cache_ok (caches s) → ∃ l e,
  drop_orphans fb mb orphans (sumZ retained_bytes orphans) s = (Ok (l, sumZ retained_bytes l), s <| relay_export := e |>)
  ∧ l `suffix_of` orphans.
Proof.
  induction 1 as [|f orphans Hf Ho IH]; intros s Hs; cbn [drop_orphans].
  { exists [], (relay_export s). split; [by destruct s|done]. }
  destruct (_ || _).
  - destruct (export_orphan_spec f s Hs Hf) as (e & E). rewrite (bind_ok _ _ _ _ _ E). cbv beta.
    assert (saturating_sub (sumZ retained_bytes (f :: orphans)) (retained_bytes f) = sumZ retained_bytes orphans) as ->.
    { pose proof (sum_retained_nonneg orphans). unfold saturating_sub. cbn. lia. }
    destruct (IH (s <| relay_export := e |>)) as (l & e' & -> & Hl); [exact Hs|]. exists l, e'. split; [done|by apply suffix_cons_r].
  - exists (f :: orphans), (relay_export s). split; [by destruct s|done].
Qed.

Lemma sum_suffix l l' : l' `suffix_of` l → sumZ retained_bytes l' ≤ sumZ retained_bytes l ∧ zlen l' ≤ zlen l.
Proof.
  intros [k ->]. rewrite sumZ_app, zlen_app. pose proof (sum_retained_nonneg k). pose proof (zlen_nonneg k). lia.
Qed.

Lemma push_orphan_spec P f s : CacheInv.cache_ok (caches s) → relay_limit s ≤ ISIZE_MAX →
  queue_ok P (relay_limit s) (orphaned_relay s) → relayable f → P (rf_publisher_conn_id f) → ∃ l e,
  push_orphaned_relay f s = (Ok tt, s <| orphaned_relay := l |> <| relay_export := e |>) ∧ queue_ok P (relay_limit s) l.
Proof.
  intros Hs Hm Hq Hf HP. unfold push_orphaned_relay, mbind at 1, ST_bind at 1, get_st. cbv zeta. cbv beta iota.
  fold (relay_limit s). destruct (_ || _).
  { destruct (export_orphan_spec f s Hs (l_frame _ Hf)) as (e & ->). exists (orphaned_relay s), e. split; [by destruct s|done]. }
  destruct (drop_orphans_spec (retained_bytes f) (relay_limit s) (orphaned_relay s)) with s as (l & e & E & Hl); [|done|].
  { eapply Forall_impl; [apply Hq|]. intros g [Hg _]. apply Hg. }
  rewrite (bind_ok _ _ _ _ _ E). cbv beta iota. destruct Hq as [Hfr Hc Hb]. destruct (sum_suffix _ _ Hl) as [Hb' Hc'].
  assert (Forall (λ g, relayable g ∧ P (rf_publisher_conn_id g)) l) as Hl'.
  { destruct Hl as [k Ek]. rewrite Ek in Hfr. by apply Forall_app in Hfr as []. }
  erewrite bind_ok by reflexivity. destruct (_ || _) eqn:Ec.
  - match goal with |- context [export_orphaned_relay_frame f ?s1] => destruct (export_orphan_spec f s1 Hs (l_frame _ Hf)) as (e' & ->) end.
    exists l, e'. split; [done|]. split; [done|lia..].
  - exists (l ++ [f]), e. split; [done|]. pose proof (retained_nonneg f). pose proof (sum_retained_nonneg l).
    unfold saturating_add, ISIZE_MAX, USIZE_MAX in *.
    split; [apply Forall_app; split; [done|by apply Forall_singleton]| |rewrite sumZ_app; cbn; lia].
    rewrite zlen_app. change (zlen [f]) with 1. lia.
Qed.
End orphans.

(** * Frames that go back *)

(** Who is there, the registry, and the budget of sends. *)
Definition roster (s : Server) := ((λ p, roles (peer_conn p)) <$> connections s, active_publish_routes s, max_relay_sends_per_poll s).

Lemma sum_perm l l' : l ≡ₚ l' → sumZ retained_bytes l = sumZ retained_bytes l'.
Proof. induction 1; cbn; lia. Qed.

Lemma zlen_perm {A} (l l' : list A) : l ≡ₚ l' → zlen l = zlen l'.
Proof. intros H. unfold zlen. by rewrite H. Qed.

Lemma find_index_some {A} (p : A → bool) l i : find_index p l = Some i → ∃ x, l !! i = Some x ∧ p x = true.
Proof.
  revert i. induction l as [|x l IH]; intros i E; [done|]. cbn in E. destruct (p x) eqn:Ep; simplify_eq; [by exists x|].
  apply fmap_Some in E as (j & Ej & ->). by apply IH.
Qed.

Lemma find_index_none {A} (p : A → bool) l : find_index p l = None → Forall (λ x, p x = false) l.
Proof.
  induction l as [|x l IH]; intros E; [constructor|]. cbn in E. destruct (p x) eqn:Ep; [done|]. constructor; [done|].
  apply IH. by destruct (find_index p l).
Qed.

Definition of_id (id : Z) (l : list RelayFrame) : list RelayFrame := filter (λ f, rf_publisher_conn_id f = id) l.
Definition injected_of (l : list RelayFrame) : list RelayFrame := filter (λ f, external (rf_publisher_conn_id f)) l.

Lemma of_id_app id l k : of_id id (l ++ k) = of_id id l ++ of_id id k.
Proof. apply filter_app. Qed.

Lemma of_id_perm id l k : l ≡ₚ k → of_id id l ≡ₚ of_id id k.
Proof. intros H. unfold of_id. by rewrite H. Qed.

Lemma of_id_one id f : rf_publisher_conn_id f = id → of_id id [f] = [f].
Proof. intros E. unfold of_id. by rewrite filter_cons_True. Qed.

Lemma of_id_none id l : Forall (λ f, rf_publisher_conn_id f ≠ id) l → of_id id l = [].
Proof. induction 1 as [|f l Hf Hl IH]; [done|]. unfold of_id in *. by rewrite filter_cons_False. Qed.

Lemma of_id_all id l : Forall (queued id) l → of_id id l = l.
Proof. induction 1 as [|f l [] Hl IH]; [done|]. unfold of_id in *. rewrite filter_cons_True by done. by rewrite IH. Qed.

Lemma injected_app l k : injected_of (l ++ k) = injected_of l ++ injected_of k.
Proof. apply filter_app. Qed.

Lemma injected_perm l k : l ≡ₚ k → injected_of l ≡ₚ injected_of k.
Proof. intros H. unfold injected_of. by rewrite H. Qed.

Lemma injected_none l : Forall (λ f, ¬ external (rf_publisher_conn_id f)) l → injected_of l = [].
Proof. induction 1 as [|f l Hf Hl IH]; [done|]. unfold injected_of in *. by rewrite filter_cons_False. Qed.

Lemma injected_all l : Forall (λ f, external (rf_publisher_conn_id f)) l → injected_of l = l.
Proof. induction 1 as [|f l Hf Hl IH]; [done|]. unfold injected_of in *. rewrite filter_cons_True by done. by rewrite IH. Qed.

Section requeue.
Context {order : Iteration} {laws : IterationLaws}.
Context (ids : list Z).

(** Queues with the frames that are on their way back. *)
Definition fits (c : Conn) (l : list RelayFrame) : Prop :=
  zlen (pending_relay c ++ l) ≤ MAX_PENDING_RELAY_FRAMES
  ∧ frames_bytes (pending_relay c ++ l) ≤ max_pending_relay_bytes c.

Record room (l : list RelayFrame) (s : Server) : Prop := {
  m_frames : Forall relayable l;
  m_ids : Forall (λ f, let id := rf_publisher_conn_id f in external id ∨ id ∈ ids ∨ gone ids (next_conn_id s) id) l;
  m_conns : Forall (λ p, fits (peer_conn p) (of_id (id_of p) l)) (connections s);
  m_injected : zlen (pending_injected_relay s ++ injected_of l) ≤ MAX_PENDING_RELAY_FRAMES
    ∧ sumZ retained_bytes (pending_injected_relay s ++ injected_of l) ≤ relay_limit s;
}.

Lemma local_id s p : server_ok s → p ∈ connections s → ¬ external (id_of p).
Proof.
  intros [] Hp He. pose proof (p_below _ _ _ v_peers0) as Hb. rewrite Forall_forall in Hb. specialize (Hb p Hp).
  unfold external, is_external_publisher_id in He. rewrite Z.bits_above_log2 in He; [done|lia|].
  apply Z.log2_lt_pow2; [lia|]. change (2 ^ 63) with EXTERNAL_PUBLISHER_ID_BIT. lia.
Qed.

Lemma upd_conn_spec i f s p : connections s !! i = Some p →
  upd_conn i f s = (Ok tt, s <| connections := <[i := p <| peer_conn := f (peer_conn p) |>]> (connections s) |>).
Proof. intros E. unfold upd_conn, on_peer. rewrite E. done. Qed.

(** Frames of other connections leave the room of a connection as it is. *)
Lemma fits_skip f l (ps : list Peer) : Forall (λ p, fits (peer_conn p) (of_id (id_of p) (f :: l))) ps →
  Forall (λ p, id_of p ≠ rf_publisher_conn_id f) ps → Forall (λ p, fits (peer_conn p) (of_id (id_of p) l)) ps.
Proof.
  intros H1 H2. induction H1 as [|p ps Hp H1 IH]; [constructor|]. apply Forall_cons in H2 as [Hne H2].
  constructor; [|by apply IH]. unfold of_id in *. by rewrite filter_cons_False in Hp by congruence.
Qed.

(** The frames are back, in their order. *)
Definition returned (l : list RelayFrame) (s s' : Server) : Prop :=
  (∀ i p', connections s' !! i = Some p' → ∃ p, connections s !! i = Some p
     ∧ pending_relay (peer_conn p') = pending_relay (peer_conn p) ++ of_id (id_of p) l ∧ id_of p' = id_of p)
  ∧ pending_injected_relay s' = pending_injected_relay s ++ injected_of l.

Lemma returned_nil s : returned [] s s.
Proof. split; [|cbn; by rewrite app_nil_r]. intros i p Hp. exists p. cbn. by rewrite app_nil_r. Qed.

Lemma returned_cons f l s s1 s2 : returned [f] s s1 → returned l s1 s2 → returned (f :: l) s s2.
Proof.
  intros [H1 E1] [H2 E2]. split.
  - intros i p2 Hp2. destruct (H2 i p2 Hp2) as (p1 & Hp1 & Eq1 & Ei1). destruct (H1 i p1 Hp1) as (p & Hp & Eq & Ei).
    exists p. split; [done|]. split; [|congruence]. rewrite Eq1, Eq, Ei, <- app_assoc. f_equal. by rewrite <- of_id_app.
  - rewrite E2, E1, <- app_assoc. f_equal. by rewrite <- injected_app.
Qed.

(** A frame of no connection. *)
Lemma returned_none f s s' : connections s' = connections s → Forall (λ p, id_of p ≠ rf_publisher_conn_id f) (connections s) →
  pending_injected_relay s' = pending_injected_relay s ++ injected_of [f] → returned [f] s s'.
Proof.
  intros Ec Hn Ei. split; [|done]. intros i p Hp. rewrite Ec in Hp. exists p. split; [done|]. split; [|done].
  rewrite of_id_none, app_nil_r; [done|]. apply Forall_singleton. pose proof (Forall_lookup_1 _ _ _ _ Hn Hp). cbn in *. congruence.
Qed.

Definition requeued (f : RelayFrame) (l : list RelayFrame) (s : Server) : Prop :=
  ∃ s', requeue_relay_frame f s = (Ok tt, s') ∧ holds_for ids s' ∧ room l s' ∧ roster s' = roster s ∧ returned [f] s s'.

Lemma requeue_injected f l s : holds_for ids s → room (f :: l) s → external (rf_publisher_conn_id f) → requeued f l s.
Proof.
  intros Hs [Hf Hi Hc Hj] He. unfold requeued, requeue_relay_frame. unfold external in He. rewrite He. eexists. split; [done|].
  apply Forall_cons in Hf as [Hf Hfs]. apply Forall_cons in Hi as [_ Hi].
  unfold injected_of in Hj. rewrite filter_cons_True, cons_middle, app_assoc in Hj by done. destruct Hj as [Hj1 Hj2].
  assert (Forall (λ p, id_of p ≠ rf_publisher_conn_id f) (connections s)) as Hne.
  { apply Forall_forall. intros p Hp E. apply (local_id s p (proj1 Hs) Hp). by rewrite E. }
  split; [|split; [|split; [done|apply returned_none; [done..|]; by rewrite injected_all by by apply Forall_singleton]]].
  - pose proof Hs as [[] Hids]. split; [|done]. split; try done. destruct v_injected0. cbn.
    rewrite zlen_app in Hj1. rewrite sumZ_app in Hj2.
    pose proof (zlen_nonneg (filter (λ f, external (rf_publisher_conn_id f)) l)).
    pose proof (sum_retained_nonneg (filter (λ f, external (rf_publisher_conn_id f)) l)). unfold relay_limit in *. cbn in *.
    split; [apply Forall_app; split; [done|by apply Forall_singleton]|lia|lia].
  - split; try done. cbn. by eapply fits_skip.
Qed.

Lemma requeue_local f l s i : holds_for ids s → room (f :: l) s → ¬ external (rf_publisher_conn_id f) →
  find_conn (rf_publisher_conn_id f) s = Some i → requeued f l s.
Proof.
  intros Hs [Hf Hi Hc Hj] He Ei. unfold requeued, requeue_relay_frame. unfold external in He. apply not_true_is_false in He.
  rewrite He, Ei. apply find_index_some in Ei as (p & Hp & Eid%Z.eqb_eq). rewrite (upd_conn_spec _ _ _ _ Hp).
  eexists. split; [done|]. apply Forall_cons in Hf as [Hf Hfs]. apply Forall_cons in Hi as [_ Hi].
  pose proof (Forall_lookup_1 _ _ _ _ Hc Hp) as Hfit. unfold fits, of_id in Hfit.
  rewrite filter_cons_True, cons_middle, app_assoc in Hfit by done. destruct Hfit as [H1 H2].
  pose proof (zlen_nonneg (filter (λ f, rf_publisher_conn_id f = id_of p) l)).
  pose proof (sum_retained_nonneg (filter (λ f, rf_publisher_conn_id f = id_of p) l)).
  rewrite frames_bytes_sum, sumZ_app in H2. rewrite zlen_app in H1.
  assert (∀ j q, connections s !! j = Some q → i ≠ j → id_of q ≠ rf_publisher_conn_id f) as Hother.
  { intros j q Hq Hne Eq. apply Hne. apply (NoDup_lookup (id_of <$> connections s) i j (id_of p)); [apply (v_peers _ (proj1 Hs))|..];
      rewrite list_lookup_fmap; [by rewrite Hp|rewrite Hq; cbn; f_equal; unfold id_of in *; congruence]. }
  split; [|split; [|split]].
  - apply holds_same; [done..| |done]. intros Hok. apply conn_ok_relay; [lia|rewrite frames_bytes_sum; lia| |done].
    apply Forall_app. split; [apply Hok|]. apply Forall_singleton. destruct Hf. by split.
  - split; try done; cbn.
    + apply Forall_lookup_2. intros j q Hq. destruct (decide (i = j)) as [<-|Hne].
      { rewrite list_lookup_insert_eq in Hq by (by eapply lookup_lt_Some). simplify_eq. unfold fits. cbn.
        rewrite frames_bytes_sum, zlen_app, sumZ_app. unfold id_of in *. cbn in *. unfold of_id. lia. }
      rewrite list_lookup_insert_ne in Hq by done. pose proof (Forall_lookup_1 _ _ _ _ Hc Hq) as Hfit. cbv beta in Hfit.
      unfold of_id in *. rewrite filter_cons_False in Hfit; [done|]. intros Eq. by apply (Hother j q Hq Hne).
    + unfold injected_of in *. rewrite filter_cons_False in Hj; [done|]. unfold external. congruence.
  - unfold roster. cbn. do 2 f_equal. rewrite list_fmap_insert. apply list_insert_id. by rewrite list_lookup_fmap, Hp.
  - split; [|rewrite injected_none, app_nil_r; [done|]; apply Forall_singleton; unfold external; by rewrite He].
    intros j q Hq. cbn in Hq. destruct (decide (i = j)) as [<-|Hne].
    { rewrite list_lookup_insert_eq in Hq by (by eapply lookup_lt_Some). simplify_eq. exists p. split; [done|]. split; [|done].
      by rewrite (of_id_one (id_of p) f) by done. }
    rewrite list_lookup_insert_ne in Hq by done. exists q. split; [done|]. split; [|done].
    rewrite of_id_none, app_nil_r; [done|]. apply Forall_singleton. intros E. by apply (Hother j q Hq Hne).
Qed.

Lemma requeue_orphan f l s : holds_for ids s → room (f :: l) s → ¬ external (rf_publisher_conn_id f) →
  find_conn (rf_publisher_conn_id f) s = None → requeued f l s.
Proof.
  intros Hs [Hf Hi Hc Hj] He Ei. unfold requeued, requeue_relay_frame. pose proof He as He'. unfold external in He.
  apply not_true_is_false in He. rewrite He, Ei. apply find_index_none in Ei.
  apply Forall_cons in Hf as [Hf Hfs]. apply Forall_cons in Hi as [Hi His]. cbn in Hi.
  assert (Forall (λ p, id_of p ≠ rf_publisher_conn_id f) (connections s)) as Hne.
  { eapply Forall_impl; [exact Ei|]. intros p E%Z.eqb_neq. done. }
  pose proof Hs as [Hok Hids].
  assert (gone ids (next_conn_id s) (rf_publisher_conn_id f)) as Hg.
  { destruct Hi as [?|[Hin|?]]; [done| |done]. exfalso. rewrite <- Hids in Hin. apply list_elem_of_fmap in Hin as (p & E & Hp).
    rewrite Forall_forall in Hne. by apply (Hne p Hp). }
  destruct (push_orphan_spec (gone ids (next_conn_id s)) f s (v_cache _ Hok)) as (q & e & -> & Hq); [apply (v_settings _ Hok)|
    rewrite <- Hids; apply (v_orphaned _ Hok)|done..|].
  eexists. split; [done|].
  split; [|split; [|split; [done|apply returned_none; [done..|]; rewrite injected_none, app_nil_r; [done|by apply Forall_singleton]]]].
  - split; [|done]. destruct Hok. split; try done. cbn. by rewrite Hids.
  - split; try done; cbn; [by eapply fits_skip|]. unfold injected_of in *. by rewrite filter_cons_False in Hj.
Qed.

Lemma requeue_all l : ∀ s, holds_for ids s → room l s →
  ∃ s', for_each requeue_relay_frame l s = (Ok tt, s') ∧ holds_for ids s' ∧ roster s' = roster s
    ∧ returned l s s'.
Proof.
  induction l as [|f l IH]; intros s Hs Hr; [exists s; split_and!; [done..|apply returned_nil]|].
  assert (requeued f l s) as (s1 & E1 & H1 & Hr1 & Er1 & Hq1).
  { destruct (is_external_publisher_id (rf_publisher_conn_id f)) eqn:Ex; [by apply requeue_injected|].
    destruct (find_conn (rf_publisher_conn_id f) s) as [i|] eqn:Ei; [eapply requeue_local|eapply requeue_orphan]; try done;
      unfold external; by rewrite Ex. }
  destruct (IH s1 H1 Hr1) as (s2 & E2 & H2 & Er2 & Hq2). exists s2.
  split; [|split; [done|split; [congruence|by eapply returned_cons]]].
  cbn. by rewrite (bind_ok _ _ _ _ _ E1).
Qed.

(** ** The frames of a batch *)

#[local] Abbreviation queues l := (concat ((λ p, pending_relay (peer_conn p)) <$> l)).

Lemma queues_elem f (l : list Peer) : f ∈ queues l → ∃ p, p ∈ l ∧ f ∈ pending_relay (peer_conn p).
Proof.
  intros Hf%list_elem_of_In. apply in_concat in Hf as (q & Hq%list_elem_of_In & Hf%list_elem_of_In).
  apply list_elem_of_fmap in Hq as (p & -> & Hp). eauto.
Qed.

Lemma of_id_queues (l : list Peer) p : NoDup (id_of <$> l) →
  Forall (λ p, Forall (queued (id_of p)) (pending_relay (peer_conn p))) l → p ∈ l →
  of_id (id_of p) (queues l) = pending_relay (peer_conn p).
Proof.
  intros Hn Hq Hp. induction l as [|q l IH]; [by apply not_elem_of_nil in Hp|].
  rewrite fmap_cons in Hn. apply NoDup_cons in Hn as [Hne Hn]. apply Forall_cons in Hq as [Hq Hl].
  rewrite fmap_cons. cbn [concat]. rewrite of_id_app. apply elem_of_cons in Hp as [->|Hp].
  - rewrite (of_id_all _ _ Hq), of_id_none, app_nil_r; [done|]. apply Forall_forall. intros f (r & Hr & Hf)%queues_elem E.
    rewrite Forall_forall in Hl. specialize (Hl r Hr). rewrite Forall_forall in Hl. specialize (Hl f Hf).
    apply Hne, list_elem_of_fmap. exists r. split; [|done]. rewrite <- E. apply Hl.
  - rewrite IH by done. rewrite of_id_none; [done|]. eapply Forall_impl; [exact Hq|]. intros f [_ _ Ef] E.
    apply Hne, list_elem_of_fmap. exists p. split; [congruence|done].
Qed.

Lemma batch_perm s : ServerRelay.batch s ≡ₚ orphaned_relay s ++ ServerRelay.backlog s ++ pending_injected_relay s.
Proof. unfold ServerRelay.batch. rewrite merged_perm. unfold ServerRelay.batch_frames. by rewrite merged_perm, app_assoc. Qed.

Lemma retained_le f l : f ∈ l → retained_bytes f ≤ sumZ retained_bytes l.
Proof.
  intros (i & Hi)%list_elem_of_lookup. eapply sumZ_lookup_le; [|done]. apply Forall_forall. intros. apply retained_nonneg.
Qed.

Lemma backlog_relayable s f : server_ok s → f ∈ ServerRelay.backlog s → relayable f ∧ rf_publisher_conn_id f ∈ id_of <$> connections s.
Proof.
  intros Hs (p & Hp & Hf)%queues_elem. pose proof (p_each _ _ _ (v_peers _ Hs)) as He. rewrite Forall_forall in He.
  destruct (He p Hp) as [Ha%among_ok _]. pose proof (ok_queue _ Ha) as Hq. rewrite Forall_forall in Hq. destruct (Hq f Hf).
  split; [|rewrite q_id0; by apply (list_elem_of_fmap_2 id_of)]. split; [done..|].
  pose proof (ok_relay _ Ha) as Hr. change (Relay.pending_relay_bytes (peer_conn p)) with (frames_bytes (pending_relay (peer_conn p))) in Hr.
  rewrite frames_bytes_sum in Hr. pose proof (retained_le f _ Hf). lia.
Qed.

Lemma batch_frames_ok s f : server_ok s → f ∈ ServerRelay.batch s → relayable f
  ∧ (external (rf_publisher_conn_id f) ∨ rf_publisher_conn_id f ∈ id_of <$> connections s
     ∨ gone (id_of <$> connections s) (next_conn_id s) (rf_publisher_conn_id f)).
Proof.
  intros Hs Hf. rewrite batch_perm, !elem_of_app in Hf. destruct Hf as [Hf|[Hf|Hf]].
  - pose proof (u_frames _ _ _ (v_orphaned _ Hs)) as H. rewrite Forall_forall in H. destruct (H f Hf). auto.
  - destruct (backlog_relayable s f Hs Hf). auto.
  - pose proof (u_frames _ _ _ (v_injected _ Hs)) as H. rewrite Forall_forall in H. destruct (H f Hf). auto.
Qed.

Lemma batch_of_id s p : server_ok s → p ∈ connections s → of_id (id_of p) (ServerRelay.batch s) ≡ₚ pending_relay (peer_conn p).
Proof.
  intros Hs Hp. rewrite (of_id_perm _ _ _ (batch_perm s)), !of_id_app.
  rewrite (of_id_none _ (orphaned_relay s)), (of_id_none _ (pending_injected_relay s)), app_nil_r; cbn [app].
  - unfold ServerRelay.backlog. rewrite of_id_queues; [done|apply (v_peers _ Hs)| |done].
    eapply Forall_impl; [apply (v_peers _ Hs)|]. intros q [Hq%among_ok _]. apply Hq.
  - eapply Forall_impl; [apply (v_injected _ Hs)|]. intros f [_ He] E. apply (local_id s p Hs Hp). by rewrite <- E.
  - eapply Forall_impl; [apply (v_orphaned _ Hs)|]. intros f [_ [_ Hg]] E. apply Hg. rewrite E. by apply list_elem_of_fmap_2.
Qed.

Lemma gone_local s f : server_ok s → gone (id_of <$> connections s) (next_conn_id s) (rf_publisher_conn_id f) →
  ¬ external (rf_publisher_conn_id f).
Proof.
  intros Hs [Hg _] He. pose proof (v_next _ Hs). unfold external, is_external_publisher_id in He.
  rewrite Z.bits_above_log2 in He; [done|lia|]. apply Z.log2_lt_pow2; [lia|]. change (2 ^ 63) with EXTERNAL_PUBLISHER_ID_BIT. lia.
Qed.

Lemma batch_injected s : server_ok s → injected_of (ServerRelay.batch s) ≡ₚ pending_injected_relay s.
Proof.
  intros Hs. rewrite (injected_perm _ _ (batch_perm s)), !injected_app.
  rewrite (injected_none (orphaned_relay s)), (injected_none (ServerRelay.backlog s)), (injected_all (pending_injected_relay s)); [done|..].
  - eapply Forall_impl; [apply (v_injected _ Hs)|]. by intros f [].
  - apply Forall_forall. intros f Hf. destruct (backlog_relayable s f Hs Hf) as [_ (p & -> & Hp)%list_elem_of_fmap].
    by apply (local_id s).
  - eapply Forall_impl; [apply (v_orphaned _ Hs)|]. intros f [_ Hg]. by apply (gone_local s).
Qed.

(** What goes back is a part of what was taken. *)
Lemma filter_weight (P : RelayFrame → Prop) `{∀ f, Decision (P f)} l l' : l' `suffix_of` l →
  zlen (filter P l') ≤ zlen (filter P l) ∧ sumZ retained_bytes (filter P l') ≤ sumZ retained_bytes (filter P l).
Proof. intros [k ->]. rewrite filter_app. pose proof (sum_suffix (filter P k ++ filter P l') (filter P l')) as Hs. destruct Hs; [by exists (filter P k)|done]. Qed.

Lemma batch_room sb s rest : holds_for ids sb → frozen s = frozen (ServerRelay.after_batch sb) →
  rest `suffix_of` ServerRelay.batch sb → room rest s.
Proof.
  intros [Hb Hids] Hz Hr. injection Hz as Ec _ Eo Ei _ Es En.
  assert (Forall (λ f, f ∈ ServerRelay.batch sb) rest) as Hin.
  { apply Forall_forall. intros f Hf. destruct Hr as [k ->]. apply elem_of_app. by right. }
  split.
  - eapply Forall_impl; [exact Hin|]. intros f Hf. by apply (batch_frames_ok sb).
  - eapply Forall_impl; [exact Hin|]. intros f Hf. cbn. rewrite <- Hids, En. by apply (batch_frames_ok sb).
  - apply Forall_lookup_2. intros i p Hp. 
    assert (∃ pb, connections sb !! i = Some pb ∧ carried (peer_conn p) = carried (peer_conn (ServerRelay.emptied pb))) as (pb & Hpb & Epb).
    { pose proof (f_equal (λ l, l !! i) Ec) as E. cbn in E. rewrite !list_lookup_fmap, Hp in E. cbn in E.
      destruct (connections sb !! i) as [pb|]; [|done]. exists pb. split; [done|]. exact (inj Some _ _ E). }
    unfold carried in Epb. injection Epb as _ Ecid _ _ _ _ _ _ _ Epr Emax. cbn in Ecid, Epr, Emax.
    assert (pb ∈ connections sb) as Hin' by by eapply list_elem_of_lookup_2.
    assert (id_of p = id_of pb) as Eid by done. unfold fits. rewrite Epr, Emax, Eid.
    destruct (filter_weight (λ f, rf_publisher_conn_id f = id_of pb) _ _ Hr) as [H1 H2].
    change (filter _ ?l) with (of_id (id_of pb) l) in H1, H2.
    rewrite (zlen_perm _ _ (batch_of_id sb pb Hb Hin')) in H1. rewrite (sum_perm _ _ (batch_of_id sb pb Hb Hin')) in H2.
    pose proof (p_each _ _ _ (v_peers _ Hb)) as He. rewrite Forall_forall in He. destruct (He pb Hin') as [Ha%among_ok _].
    pose proof (ok_relay _ Ha) as Hrl. change (Relay.pending_relay_bytes (peer_conn pb)) with (frames_bytes (pending_relay (peer_conn pb))) in Hrl.
    pose proof (ok_frames _ Ha). rewrite frames_bytes_sum in *. rewrite !app_nil_l. lia.
  - rewrite Ei, !app_nil_l. unfold relay_limit. rewrite Es.
    destruct (filter_weight (λ f, external (rf_publisher_conn_id f)) _ _ Hr) as [H1 H2].
    change (filter _ ?l) with (injected_of l) in H1, H2. rewrite (zlen_perm _ _ (batch_injected sb Hb)) in H1.
    rewrite (sum_perm _ _ (batch_injected sb Hb)) in H2. destruct (v_injected _ Hb). unfold relay_limit in *. cbn. lia.
Qed.
End requeue.

(** * The relay *)

(** [m] returns a value, and [Q] holds of it and the state after. *)
Definition yields {S A} (Q : A → S → Prop) (m : ST S A) (s : S) : Prop := ∃ a s', m s = (Ok a, s') ∧ Q a s'.

Lemma yields_bind {S A B} (Q : A → S → Prop) (R : B → S → Prop) m k s : yields Q m s →
  (∀ a s', Q a s' → yields R (k a) s') → yields R (m ≫= k) s.
Proof. intros (a & s' & E & Ha) Hk. unfold yields. rewrite (bind_ok _ _ _ _ _ E). by apply Hk. Qed.

Lemma yields_ret {S A} (Q : A → S → Prop) a s : Q a s → yields Q (mret a) s.
Proof. intros H. by exists a, s. Qed.

Lemma yields_settles {S A} (I : S → Prop) (Q : A → Prop) m s : settles I Q m → I s → yields (λ a s', I s' ∧ Q a) m s.
Proof. intros Hm Hs. destruct (Hm s Hs) as [Hi (a & E & Ha)]. exists a, (snd (m s)). by rewrite <- E; destruct (m s). Qed.

Section relay.
Context {order : Iteration} {laws : IterationLaws}.
Context (ids : list Z).
#[local] Abbreviation inside := (Forall (λ i, (i < length ids)%nat)).

Lemma holds_after_batch s : holds_for ids s → holds_for ids (ServerRelay.after_batch s).
Proof.
  intros Hs. assert (holds_for ids (s <| connections := ServerRelay.emptied <$> connections s |>)) as [[] Hids].
  { apply (holds_fmap ids (λ p, (peer_conn p) <| pending_relay := [] |>)); [done|]. intros p Hp. split; [|done].
    eapply among_same; [done| |done]. apply among_ok in Hp. apply conn_ok_relay; [done| |constructor|done].
    pose proof (ok_relay _ Hp). pose proof (frames_bytes_nonneg (pending_relay (peer_conn p))).
    unfold Relay.pending_relay_bytes in *. unfold frames_bytes in *. cbn. lia. }
  split; [|done]. split; try done; cbn.
  - destruct v_injected0. split; [constructor|done|]. pose proof (sum_retained_nonneg (pending_injected_relay s)).
    unfold relay_limit in *. cbn in *. lia.
  - destruct v_orphaned0. split; [constructor|done|]. pose proof (sum_retained_nonneg (orphaned_relay s)).
    unfold relay_limit in *. cbn in *. lia.
  - case_bool_decide; [done|]. unfold as_u64. pose proof (Z.mod_pos_bound (relay_local_rr_offset s + 1) 18446744073709551616). lia.
Qed.

Lemma export_still s0 s l : still ids s0 s → still ids s0 (foldl (λ s '(frame, hint),
  if is_external_publisher_id (rf_publisher_conn_id frame) then s else export_frame frame hint s) s l).
Proof.
  revert s. induction l as [|[f h] l IH]; intros s Hs; [done|]. cbn [foldl]. apply IH. destruct (is_external_publisher_id _); [done|].
  unfold export_frame. destruct (relay_export s); [|done]. destruct Hs as [[[] Hids] Hz]. split; [|done]. split; [|done]. by split.
Qed.

Definition no_frame : RelayFrame := mkRelayFrame Video 0 [] None [] [] 0.

(** After the fan-out of a batch the queues hold what was left. *)
Definition held_back (rest : list RelayFrame) (s : Server) : Prop :=
  (∀ p, p ∈ connections s → pending_relay (peer_conn p) = of_id (id_of p) rest)
  ∧ pending_injected_relay s = injected_of rest.

Record relayed (sb : Server) (n : Z) (x : list nat * Z) (s : Server) : Prop := {
  y_holds : holds_for ids s;
  y_roster : roster s = roster sb;
  y_closed : inside x.1;
  y_sends : n ≤ x.2;
  y_budget : max_relay_sends_per_poll sb < USIZE_MAX → x.2 ≤ Z.max n (Z.max (max_relay_sends_per_poll sb) (zlen ids));
  y_rest : ∃ sent rest, ServerRelay.batch sb = sent ++ rest ∧ held_back rest s ∧ (rest ≠ [] → 0 < x.2);
}.

Lemma frozen_queues sb s : frozen s = frozen (ServerRelay.after_batch sb) →
  roster s = roster sb ∧ Forall (λ p, pending_relay (peer_conn p) = []) (connections s) ∧ pending_injected_relay s = [].
Proof.
  intros Hz. injection Hz as Ec Er _ Ei Eb _ _.
  assert (∀ {B} (g : _ → B) (l l' : list Peer), (λ p, carried (peer_conn p)) <$> l = (λ p, carried (peer_conn p)) <$> l' →
    (λ p, g (carried (peer_conn p))) <$> l = (λ p, g (carried (peer_conn p))) <$> l') as Hg.
  { intros B g l l' E. apply (f_equal (fmap g)) in E. by rewrite <- !list_fmap_compose in E. }
  split; [|split; [|done]].
  - unfold roster. rewrite Er, Eb. do 2 f_equal. etrans; [apply (Hg _ (λ x, x.1.1) _ _ Ec)|]. by rewrite <- list_fmap_compose.
  - apply (Hg _ (λ x, x.1.2)) in Ec. cbn in Ec. rewrite <- list_fmap_compose in Ec. apply Forall_lookup_2. intros i p Hp.
    apply (f_equal (.!! i)) in Ec. rewrite !list_lookup_fmap, Hp in Ec. by destruct (connections sb !! i); [injection Ec|].
Qed.

Lemma send_spec t abandoned n sb s : holds_for ids sb → still ids (ServerRelay.after_batch sb) s → 0 ≤ n →
  yields (relayed sb n) (send_and_export_relay_frames t (ServerRelay.batch sb) abandoned n) s.
Proof.
  intros Hb Hs Hn. pose (frames := λ i, default no_frame (ServerRelay.batch sb !! i)).
  assert (Forall relayable (ServerRelay.batch sb)) as Hrel.
  { apply Forall_forall. intros f Hf. by apply (batch_frames_ok sb); [apply Hb|]. }
  eapply yields_bind; [by apply yields_settles; [apply settles_get|exact Hs]|]. intros sx s1 [H1 _].
  eapply yields_bind.
  { apply yields_settles; [|exact H1]. apply (still_fan_out ids _ frames t (flow_limits sx) abandoned _ Hrel 0 Staging.default n).
    - intros j f Hj. change (f = default no_frame (ServerRelay.batch sb !! j)). by rewrite Hj.
    - apply staged_default.
    - done. }
  intros o s2 [H2 []]. destruct (staged_parts _ _ _ fan_staged0) as [Hconns _].
  eapply yields_bind; [apply yields_settles; [by apply (still_send_staged ids (ServerRelay.after_batch sb) frames)|exact H2]|]. intros closed s3 [H3 Hc].
  eapply yields_bind; [apply yields_settles; [apply (settles_modify _ any); [intros s' Hs'; apply (export_still (ServerRelay.after_batch sb)); exact Hs'|done]|exact H3]|].
  intros _ s4 [[H4 Hz] _]. destruct (requeue_all ids (fo_rest o) s4 H4) as (s5 & E5 & H5 & Er & Hq & Ei).
  { by apply (batch_room ids sb). }
  apply (yields_bind (λ _ s', s' = s5)); [by exists tt, s5|]. intros _ ? ->.
  destruct (frozen_queues sb s4 Hz) as (Er4 & Hempty & Ein). apply yields_ret.
  split; [done|congruence|by apply Forall_app|done|done|]. destruct fan_rest0 as [sent Esent]. exists sent, (fo_rest o).
  split; [done|]. split; [|done]. split; [|by rewrite Ei, Ein].
  intros p (k & Hk)%list_elem_of_lookup. destruct (Hq k p Hk) as (p4 & Hp4 & Ep & Eid). rewrite Ep, Eid.
  by rewrite (Forall_lookup_1 _ _ _ _ Hempty Hp4).
Qed.
End relay.
End ServerTick.
