(* ===== verification/ServerClose.v ===== *)
(** The removal of closed connections: the highest index first, their queued
    frames kept, their routes given up, and nothing else touched. *)
From stdpp Require Import sorting.
From S2P Require Import Prelude Bytes Types Session ConnRelay SessionTotal SessionInv SessionStep RelayQueue StreamCache CacheInv Staging Server ServerRelay ServerInv ServerStep ServerFan ServerTick.
#[local] Set Warnings "-clear-no-such-hyp".

Module ServerClose.
Import Conn RelayQueue Cache Server Total Invariant Step ServerInv ServerStep ServerFan ServerTick.

Section close.
Context {order : Iteration} {laws : IterationLaws}.

(** * One connection *)

Lemma push_all P l : Forall (λ f, relayable f ∧ P (rf_publisher_conn_id f)) l → ∀ s, CacheInv.cache_ok (caches s) →
  relay_limit s ≤ ISIZE_MAX → queue_ok P (relay_limit s) (orphaned_relay s) → ∃ q e,
  for_each (λ frame, if is_external_publisher_id (rf_publisher_conn_id frame) then mret tt else push_orphaned_relay frame) l s
    = (Ok tt, s <| orphaned_relay := q |> <| relay_export := e |>) ∧ queue_ok P (relay_limit s) q.
Proof.
  induction 1 as [|f l [Hf HP] Hl IH]; intros s Hs Hm Hq; cbn [for_each foldr].
  { exists (orphaned_relay s), (relay_export s). split; [by destruct s|done]. }
  destruct (is_external_publisher_id _).
  - erewrite bind_ok by reflexivity. by apply IH.
  - destruct (push_orphan_spec P f s Hs Hm Hq Hf HP) as (q & e & E & Hq'). rewrite (bind_ok _ _ _ _ _ E). cbv beta.
    destruct (IH (s <| orphaned_relay := q |> <| relay_export := e |>)) as (q' & e' & E' & Hq''); [exact Hs|exact Hm|exact Hq'|].
    exists q', e'. split; [exact E'|done].
Qed.

Lemma queue_weaken (P Q : Z → Prop) m l : (∀ id, P id → Q id) → queue_ok P m l → queue_ok Q m l.
Proof. intros HPQ []. split; [|done..]. eapply Forall_impl; [done|]. intros f []. auto. Qed.

Lemma conn_frames c : conn_ok c → Forall (λ f, relayable f ∧ rf_publisher_conn_id f = conn_id c) (pending_relay c).
Proof.
  intros Hc. apply Forall_forall. intros f Hf. pose proof (ok_queue _ Hc) as Hq. rewrite Forall_forall in Hq. destruct (Hq f Hf).
  split; [|done]. split; [done..|]. pose proof (ok_relay _ Hc) as Hr.
  change (Relay.pending_relay_bytes c) with (frames_bytes (pending_relay c)) in Hr. rewrite frames_bytes_sum in Hr.
  pose proof (retained_le f _ Hf). lia.
Qed.

(** The connections and the registry after a removal. *)
Definition without_peer (l1 : list Peer) (p : Peer) (l2 : list Peer) (s s' : Server) : Prop :=
  connections s' = l1 ++ l2
  ∧ active_publish_routes s' = filter (λ kv : Route * Z, kv.2 ≠ id_of p) (active_publish_routes s)
  ∧ max_relay_sends_per_poll s' = max_relay_sends_per_poll s.

Lemma peers_without t l1 p l2 next : peers_ok t (l1 ++ p :: l2) next →
  peers_ok (filter (λ kv : Route * Z, kv.2 ≠ id_of p) t) (l1 ++ l2) next ∧ id_of p ∉ id_of <$> (l1 ++ l2).
Proof.
  intros [He Hn Hb Ho]. rewrite fmap_app, fmap_cons in Hn. rewrite <- Permutation_middle in Hn. apply NoDup_cons in Hn as [Hp Hn].
  rewrite <- fmap_app in Hp, Hn. split; [|done]. rewrite <- Permutation_middle in He, Hb.
  apply Forall_cons in He as [_ He]. apply Forall_cons in Hb as [_ Hb]. split; [|done..|].
  - eapply Forall_impl; [exact He|]. intros q [Ha Hr]. split; [|done]. eapply among_elsewhere; [exact Ha|].
    intros k [E _]%map_lookup_filter_Some. exact E.
  - intros k id [E Hne]%map_lookup_filter_Some. cbn in Hne. destruct (Ho k id E) as [Hin|]; [|by right].
    rewrite fmap_app, fmap_cons, <- Permutation_middle, <- fmap_app in Hin. apply elem_of_cons in Hin as [->|]; [done|by left].
Qed.

Lemma count_without ip l1 (p : Peer) l2 :
  zlen (List.filter (λ p, bool_decide (peer_ip (peer_addr p) = ip)) (l1 ++ l2))
  ≤ zlen (List.filter (λ p, bool_decide (peer_ip (peer_addr p) = ip)) (l1 ++ p :: l2)).
Proof. rewrite !List.filter_app, !zlen_app. cbn. case_match; rewrite ?zlen_cons; lia. Qed.

Lemma remove_spec l1 p l2 s : server_ok s → connections s = l1 ++ p :: l2 →
  ∃ s', remove_connection (length l1) s = (Ok tt, s') ∧ server_ok s' ∧ without_peer l1 p l2 s s'.
Proof.
  intros Hs El. assert (connections s !! length l1 = Some p) as Hp.
  { rewrite El, lookup_app_r, Nat.sub_diag by lia. done. }
  pose proof Hs as []. rewrite El in v_peers0, v_orphaned0, v_count0. destruct (peers_without _ _ _ _ _ v_peers0) as [Hpeers Hnot].
  unfold remove_connection. rewrite Hp. cbv zeta. rewrite (bind_ok _ _ _ _ _ (upd_conn_spec _ _ _ _ Hp)). cbv beta.
  set (s1 := s <| connections := _ |>).
  assert (conn_ok (peer_conn p)) as Hc.
  { eapply among_ok, (proj1 (Forall_lookup_1 _ _ _ _ (p_each _ _ _ v_peers0) (_ : (l1 ++ p :: l2) !! length l1 = Some p))).
    Unshelve. by rewrite <- El. }
  assert (0 < id_of p < next_conn_id s) as Hid.
  { pose proof (p_below _ _ _ v_peers0) as Hb. rewrite Forall_forall in Hb. apply Hb. rewrite <- Permutation_middle. by left. }
  destruct (push_all (gone (id_of <$> (l1 ++ l2)) (next_conn_id s)) (pending_relay (peer_conn p))) with s1 as (q & e & E & Hq).
  { eapply Forall_impl; [by apply conn_frames|]. intros f [Hf Ef]. split; [done|]. rewrite Ef. by split. }
  { done. } { apply v_settings0. }
  { eapply queue_weaken; [|exact v_orphaned0]. intros id [Hr Hni]. split; [done|]. intros Hin. apply Hni.
    rewrite fmap_app, fmap_cons. rewrite fmap_app in Hin. set_solver. }
  rewrite (bind_ok _ _ _ _ _ E). eexists. split; [reflexivity|]. cbn.
  rewrite El, insert_app_r_alt, Nat.sub_diag by lia. cbn. rewrite delete_middle.
  split; [|done]. split; try done; cbn; [by apply CacheInv.forget_ok|by rewrite forget_max|..].
  - intros Hm. specialize (v_count0 Hm). rewrite zlen_app in *. rewrite zlen_cons in v_count0. lia.
  - intros ip. etrans; [|apply (v_per_addr0 ip)]. unfold active_connections_for_ip. cbn. rewrite El. apply count_without.
Qed.

(** * All of them *)

(** Who is left: those at other indices, with the routes they had. *)
Definition left_over (closed : list nat) (s s' : Server) : Prop := ∀ p, p ∈ connections s' →
  ∃ j, connections s !! j = Some p ∧ ¬ (j ∈ closed)
    ∧ ∀ k, active_publish_routes s !! k = Some (id_of p) → active_publish_routes s' !! k = Some (id_of p).

Lemma left_over_one l1 p l2 s s' : server_ok s → connections s = l1 ++ p :: l2 → without_peer l1 p l2 s s' →
  left_over [length l1] s s'.
Proof.
  intros Hs El (Ec & Er & _) q Hq. rewrite Ec in Hq. pose proof (v_peers _ Hs) as Hp. rewrite El in Hp.
  destruct (peers_without _ _ _ _ _ Hp) as [_ Hnot].
  assert (id_of q ≠ id_of p) as Hne by (intros E; apply Hnot; rewrite <- E; by apply list_elem_of_fmap_2).
  assert (∃ j, connections s !! j = Some q ∧ j ≠ length l1) as (j & Hj & Hjn).
  { rewrite El. apply elem_of_app in Hq as [(j & Hj)%list_elem_of_lookup|(j & Hj)%list_elem_of_lookup].
    - exists j. pose proof (lookup_lt_Some _ _ _ Hj). rewrite lookup_app_l by done. split; [done|lia].
    - exists (length l1 + S j)%nat. rewrite lookup_app_r by lia. replace (length l1 + S j - length l1)%nat with (S j) by lia.
      split; [done|lia]. }
  exists j. split; [done|]. split; [set_solver|]. intros k E. rewrite Er. by apply map_lookup_filter_Some.
Qed.

Lemma remove_all l : StronglySorted lt l → ∀ s, server_ok s → Forall (λ i, (i < length (connections s))%nat) l →
  ∃ s', for_each remove_connection (rev l) s = (Ok tt, s') ∧ server_ok s' ∧ left_over l s s'
    ∧ max_relay_sends_per_poll s' = max_relay_sends_per_poll s.
Proof.
  induction l as [|i l IH] using rev_ind; intros Hl s Hs Hb.
  { exists s. split; [done|]. split; [done|]. split; [|done]. intros p (j & Hj)%list_elem_of_lookup. exists j.
    split; [done|]. split; [set_solver|done]. }
  apply StronglySorted_app in Hl as (Hlt & Hl & _). apply Forall_app in Hb as [Hb [Hi _]%Forall_cons].
  destruct (lookup_lt_is_Some_2 (connections s) i Hi) as [p Hp].
  apply list_elem_of_split_length in Hp as (l1 & l2 & El & ->).
  destruct (remove_spec l1 p l2 s Hs El) as (s1 & E1 & H1 & Hw). pose proof (left_over_one l1 p l2 s s1 Hs El Hw) as Ho.
  assert (Forall (λ i, (i < length l1)%nat) l) as Hbelow.
  { apply Forall_forall. intros j Hj. apply Hlt; [done|by left]. }
  destruct (IH Hl s1 H1) as (s2 & E2 & H2 & Ho2 & Eb).
  { eapply Forall_impl; [exact Hbelow|]. intros j Hj. destruct Hw as [-> _]. rewrite length_app. cbn in Hj. lia. }
  exists s2. split; [|split; [done|split; [|rewrite Eb; apply Hw]]].
  - rewrite rev_app_distr. cbn. by rewrite (bind_ok _ _ _ _ _ E1).
  - intros q Hq. destruct (Ho2 q Hq) as (j & Hj & Hjl & Hr). destruct Hw as [Ec _].
    destruct (Ho q) as (_ & _ & _ & Hr1); [by eapply list_elem_of_lookup_2|]. rewrite Ec in Hj.
    destruct (decide (j < length l1)%nat) as [Hlt'|Hge].
    + exists j. rewrite El. rewrite lookup_app_l in Hj |- * by done. split; [done|]. split; [|auto].
      rewrite not_elem_of_app. split; [done|]. rewrite list_elem_of_singleton. lia.
    + exists (S j). rewrite El. rewrite lookup_app_r in Hj |- * by lia. split; [|split; [|auto]].
      * replace (S j - length l1)%nat with (S (j - length l1)) by lia. done.
      * rewrite not_elem_of_app. split; [|rewrite list_elem_of_singleton; lia]. intros Hin. rewrite Forall_forall in Hbelow.
        specialize (Hbelow (S j) Hin). lia.
Qed.

(** ** The indices *)

Lemma dedup_spec l : StronglySorted le l → StronglySorted lt (dedup l) ∧ ∀ x, x ∈ dedup l ↔ x ∈ l.
Proof.
  induction l as [|i l IH]; intros Hl; [split; [constructor|done]|]. apply StronglySorted_inv in Hl as [Hl Hi].
  destruct (IH Hl) as [Hs Hin]. destruct l as [|j l]; [split; [repeat constructor|done]|].
  change (dedup (i :: j :: l)) with (if decide (i = j) then dedup (j :: l) else i :: dedup (j :: l)). case_decide as E.
  - subst j. split; [done|]. intros x. rewrite Hin. set_solver.
  - split; [|intros x; rewrite !elem_of_cons, Hin, elem_of_cons; done]. constructor; [done|].
    apply Forall_forall. intros x Hx%Hin. apply Forall_cons in Hi as [Hij Hi]. apply StronglySorted_inv in Hl as [_ Hj].
    apply elem_of_cons in Hx as [->|Hx]; [lia|]. rewrite Forall_forall in Hj. specialize (Hj x Hx). lia.
Qed.

Lemma remove_closed_spec closed s : server_ok s → Forall (λ i, (i < length (connections s))%nat) closed →
  ∃ s', remove_closed_connections closed s = (Ok tt, s') ∧ server_ok s' ∧ left_over closed s s'
    ∧ max_relay_sends_per_poll s' = max_relay_sends_per_poll s.
Proof.
  intros Hs Hc. unfold remove_closed_connections. destruct (dedup_spec (merge_sort (≤)%nat closed)) as [Hsort Hin].
  { apply StronglySorted_merge_sort; [apply _|]. intros x y. lia. }
  assert (∀ x, x ∈ dedup (merge_sort (≤)%nat closed) ↔ x ∈ closed) as Hin'.
  { intros x. by rewrite Hin, merge_sort_Permutation. }
  destruct (remove_all _ Hsort s Hs) as (s' & E & H & Ho & Eb).
  { apply Forall_forall. intros x Hx%Hin'. rewrite Forall_forall in Hc. by apply Hc. }
  exists s'. split; [exact E|]. split; [done|]. split; [|done]. intros p Hp. destruct (Ho p Hp) as (j & Hj & Hn & Hr). exists j.
  split; [done|]. split; [by rewrite <- Hin'|done].
Qed.
End close.
End ServerClose.
