(* ===== verification/ServerPoll.v ===== *)
(** A tick keeps the invariant, and after it every claimed route is held in the
    registry by the connection that claims it. *)
From stdpp Require Import sorting.
From S2P Require Import Prelude Bytes Types Session ConnRelay ConnSend ConnAuth ConnCommand ConnRecv SessionTotal SessionInv SessionStep SessionRecv SessionCalls SessionSend RelayQueue StreamCache CacheInv Staging Server ServerRelay ServerInv ServerStep ServerFan ServerTick ServerClose.
#[local] Set Warnings "-clear-no-such-hyp".

Module ServerPoll.
Import Conn RelayQueue Cache Server Total Invariant Step Recv Calls Sending ServerInv ServerStep ServerFan ServerTick ServerClose.

#[local] Abbreviation any := (λ _, True).

(** * The budget *)

Abbreviation budget := max_relay_sends_per_poll.
(** No phase before the fan-out changes it. *)
Definition plain {A} (m : ST Server A) : Prop := ∀ s, budget (snd (m s)) = budget s.

Lemma plain_bind {A B} (m : ST Server A) (k : A → ST Server B) : plain m → (∀ a, plain (k a)) → plain (m ≫= k).
Proof.
  intros Hm Hk s. specialize (Hm s). unfold mbind, ST_bind. destruct (m s) as [[a|e|] s']; [|done..]. by rewrite (Hk a s').
Qed.
Lemma plain_ret {A} (a : A) : plain (mret a).
Proof. done. Qed.
Lemma plain_get : plain get_st.
Proof. done. Qed.
Lemma plain_modify f : (∀ s, budget (f s) = budget s) → plain (modify f).
Proof. done. Qed.
Lemma plain_on_peer {A} i (m : Peer → ST World A) : plain (on_peer i m).
Proof. intros s. unfold on_peer. destruct (connections s !! i); [|done]. by destruct (m _ _). Qed.
Lemma plain_ignore {A} (m : ST Server A) : plain m → plain (ignore m).
Proof. intros Hm s. specialize (Hm s). unfold ignore. by destruct (m s) as [[]]. Qed.
Lemma plain_each f ixs : (∀ i, plain (f i)) → plain (each ixs f).
Proof.
  intros Hf. induction ixs as [|i ixs IH]; cbn [each]; [done|]. apply plain_bind; [done|intros b]. by apply plain_bind.
Qed.
Lemma plain_each_connection f : (∀ i, plain (f i)) → plain (each_connection f).
Proof. intros Hf s. by apply plain_each. Qed.
Lemma plain_foldl {A} (f : Server → A → Server) l s : (∀ s a, budget (f s a) = budget s) → budget (foldl f s l) = budget s.
Proof. intros Hf. revert s. induction l as [|a l IH]; intros s; [done|]. cbn. by rewrite IH. Qed.

Section phases.
Context {order : Iteration}.

Lemma plain_reap now : plain (reap_timed_out_pending_auth now).
Proof.
  apply plain_each_connection. intros i. apply plain_bind; [done|intros s]. apply plain_bind; [apply plain_on_peer|intros reaped].
  apply plain_bind; [apply plain_ignore, plain_on_peer|intros _]. destruct reaped; [|done]. by apply plain_bind; [apply plain_on_peer|].
Qed.

Lemma abandon_key_budget i key s : budget (abandon_key i key s) = budget s.
Proof. unfold abandon_key. by case_match. Qed.

Lemma drain_budget s : budget (snd (drain_pending_cache_evictions s)) = budget s.
Proof.
  unfold drain_pending_cache_evictions. generalize (∅ : gset (Route * Z)) as a. generalize (indices s) as ixs. intros ixs.
  revert s. induction ixs as [|i ixs IH]; intros s a; [done|]. cbn [foldl].
  assert (budget (snd (drain_connection_evictions i s)) = budget s) as H.
  { unfold drain_connection_evictions. case_match; [|done]. cbn [snd]. rewrite plain_foldl; [done|]. intros. apply abandon_key_budget. }
  destruct (drain_connection_evictions i s) as [keys s1]. by rewrite IH.
Qed.

Lemma release_budget key s : budget (release_injected_route key s) = budget s.
Proof. unfold release_injected_route. cbv zeta. by repeat case_match. Qed.

Lemma reap_inject_budget now s : budget (reap_stale_inject_routes now s) = budget s.
Proof. apply plain_foldl. intros. apply release_budget. Qed.

Lemma plain_recv t readable : plain (recv_and_reap_connections t readable).
Proof.
  intros s. unfold recv_and_reap_connections. generalize (indices s) as ixs. intros ixs. generalize false as q. revert s.
  induction ixs as [|i ixs IH]; intros s q; cbn [serve_all]; [done|].
  apply plain_bind; [done|intros s']. apply plain_bind; [apply plain_on_peer|intros [[closed q'] incoming]].
  apply plain_bind; [done|intros _]. apply plain_bind; [|done]. intros s1. apply IH.
Qed.
End phases.

(** * The roster *)

Lemma roster_insert i p c s : connections s !! i = Some p → roles c = roles (peer_conn p) →
  roster (s <| connections := <[i := p <| peer_conn := c |>]> (connections s) |>) = roster s.
Proof.
  intros Hp Er. unfold roster. cbn. do 2 f_equal. rewrite list_fmap_insert. apply list_insert_id. rewrite list_lookup_fmap, Hp.
  cbn -[roles]. by rewrite Er.
Qed.

Lemma roster_fmap_if (d : Peer → bool) g s : (∀ p, roles (g p) = roles (peer_conn p)) →
  roster (s <| connections := (λ p, if d p then p <| peer_conn := g p |> else p) <$> connections s |>) = roster s.
Proof.
  intros Hg. unfold roster. cbn. do 2 f_equal. rewrite <- list_fmap_compose. apply list_fmap_ext. intros i p _. unfold compose.
  destruct (d p); [apply Hg|done].
Qed.

Lemma roster_abandon_key i key s : roster (abandon_key i key s) = roster s.
Proof.
  unfold abandon_key. destruct (connections s !! i) as [p|] eqn:Hp; [|done].
  rewrite <- (roster_insert i p (Relay.note_abandoned_relay_route key.1 key.2 (peer_conn p)) s Hp); [done|apply note_abandoned_roles].
Qed.

Lemma roster_foldl {A} (f : Server → A → Server) l s : (∀ s a, roster (f s a) = roster s) → roster (foldl f s l) = roster s.
Proof. intros Hf. revert s. induction l as [|a l IH]; intros s; [done|]. cbn [foldl]. by rewrite IH. Qed.

Lemma roster_drain s : roster (snd (drain_pending_cache_evictions s)) = roster s.
Proof.
  unfold drain_pending_cache_evictions. generalize (∅ : gset (Route * Z)) as a. generalize (indices s) as ixs. intros ixs.
  revert s. induction ixs as [|i ixs IH]; intros s a; [done|]. cbn [foldl].
  assert (roster (snd (drain_connection_evictions i s)) = roster s) as H.
  { unfold drain_connection_evictions. destruct (connections s !! i) as [p|] eqn:Hp; [|done]. cbn [snd].
    rewrite roster_foldl by (intros; apply roster_abandon_key). by apply roster_insert. }
  destruct (drain_connection_evictions i s) as [keys s1]. by rewrite IH.
Qed.

Lemma roster_drop_stale abandoned s : roster (drop_stale_pending_relay_for_abandoned_routes abandoned s) = roster s.
Proof.
  refine (roster_fmap_if (λ p, _ && _ && _) (λ p, _ <| pending_relay := List.filter _ _ |>) s _). done.
Qed.

Lemma roster_frozen s s' : frozen s' = frozen s → roster s' = roster s.
Proof.
  intros E. injection E as Ec Er _ _ Eb _ _. unfold roster. rewrite Er, Eb. do 2 f_equal.
  apply (f_equal (fmap (λ x, x.1.1))) in Ec. by rewrite <- !list_fmap_compose in Ec.
Qed.

(** ** Claims *)

Definition holds_claim (t : Routes) (c : Conn) : Prop := ∀ r,
  publish_routes c = true → claimed_publish_route c = Some r → t !! (app c, r) = Some (conn_id c).

(** All but the connections at some indices hold what they claim. *)
Definition claims_held (closed : list nat) (s : Server) : Prop := ∀ j p, connections s !! j = Some p → ¬ (j ∈ closed) →
  holds_claim (active_publish_routes s) (peer_conn p).

Lemma claims_roster closed s s' : roster s' = roster s → claims_held closed s → claims_held closed s'.
Proof.
  intros E H j p Hp Hj. unfold roster in E. injection E as Ec Er _. rewrite Er.
  apply (f_equal (.!! j)) in Ec. rewrite !list_lookup_fmap, Hp in Ec. destruct (connections s !! j) as [q|] eqn:Hq; [|done].
  specialize (H j q Hq Hj). apply (inj Some) in Ec. unfold roles in Ec. injection Ec as _ E2 E3 _ E5 E6 _ _ _.
  unfold holds_claim. by rewrite E2, E3, E5, E6.
Qed.

Lemma detach_unclaims c r : conn_ok c → claimed_publish_route (Relay.detach_lost_publish_route c) = Some r →
  claimed_publish_route c = None.
Proof.
  intros Hc. unfold Relay.detach_lost_publish_route. destruct (claimed_publish_route c) as [cl|] eqn:E; [|congruence]. cbv zeta.
  match goal with |- context [Relay.evict_keys ?a ?b ?l ?c1] => destruct (evict_keys_ok a b l c1) as [_ H];
    [|revert H; generalize (Relay.evict_keys a b l c1)] end.
  { apply conn_ok_relay_filter. by apply (conn_ok_resources c). }
  intros c1 H. unfold roles in H. injection H as _ _ _ _ _ H _ _ _. by rewrite H.
Qed.

Lemma closed_id (s : Server) (closed : list nat) j p : server_ok s → connections s !! j = Some p → ¬ (j ∈ closed) →
  ¬ (conn_id (peer_conn p) ∈ omap (λ i, (λ p, conn_id (peer_conn p)) <$> connections s !! i) closed).
Proof.
  intros Hs Hp Hj (i & Hi & E)%list_elem_of_omap. apply Hj. apply fmap_Some in E as (q & Hq & Eq).
  assert (i = j) as <-; [|done]. apply (NoDup_lookup (id_of <$> connections s) i j (id_of p)); [apply (v_peers _ Hs)|..];
    rewrite list_lookup_fmap; [rewrite Hq|by rewrite Hp]. cbn. f_equal. unfold id_of. congruence.
Qed.

Lemma detach_claims closed s : server_ok s → claims_held closed (detach_displaced_route_owners closed s).
Proof.
  intros Hs j p' Hp' Hj. unfold detach_displaced_route_owners in *. cbn in *. rewrite list_lookup_fmap in Hp'.
  destruct (connections s !! j) as [p|] eqn:Hp; [|done]. injection Hp' as <-.
  rewrite (bool_decide_eq_false_2 (conn_id (peer_conn p) ∈ _)) by by apply (closed_id s closed j p). cbn [negb andb].
  pose proof (Forall_lookup_1 _ _ _ _ (p_each _ _ _ (v_peers _ Hs)) Hp) as [Ha%among_ok _].
  intros r Hr Ec. destruct (publish_routes (peer_conn p)) eqn:Epr; cbn [andb] in *; [|congruence].
  destruct (claimed_publish_route (peer_conn p)) as [cl|] eqn:Ecl; [|congruence].
  case_bool_decide as Eo; cbn [negb] in *; [congruence|]. apply detach_unclaims in Ec; [congruence|done].
Qed.

(** * A tick *)

Section tick.
Context {order : Iteration} {laws : IterationLaws}.

Definition tick_ok (ids : list Z) (B : Z) (s : Server) : Prop := holds_for ids s ∧ budget s = B.

Lemma tick_settles {A} ids B (Q : A → Prop) m : settles (holds_for ids) Q m → plain m → settles (tick_ok ids B) Q m.
Proof. intros Hm Hp s [Hs Hb]. destruct (Hm s Hs) as [H Hr]. split; [|done]. split; [done|]. by rewrite Hp. Qed.

Lemma tick_modify {A} ids B (Q : A → Server → Prop) f k s : tick_ok ids B s → (holds_for ids s → holds_for ids (f s)) →
  budget (f s) = budget s → (tick_ok ids B (f s) → yields Q (k tt) (f s)) → yields Q (modify f ≫= k) s.
Proof. intros [Hs Hb] Hf Eb Hk. unfold yields. rewrite (bind_ok (modify f) k s tt (f s) eq_refl). apply Hk. split; [auto|congruence]. Qed.

(** The phases from the batch on, after those that closed some connections. *)
Lemma relay_ok ids B t abandoned n closed1 closed2 s : tick_ok ids B s → 0 ≤ n → claims_held (closed1 ++ closed2) s →
  Forall (λ i, (i < length ids)%nat) closed1 → Forall (λ i, (i < length ids)%nat) closed2 →
  yields (λ sends s', server_ok s' ∧ claims_held [] s' ∧ budget s' = B
      ∧ n ≤ sends ∧ (B < USIZE_MAX → sends ≤ Z.max n (Z.max B (zlen ids))))
    (frames ← build_relay_frame_batch;
     closed3 ← replay_init_frames_for_new_players;
     '(closed4, relay_sends) ← send_and_export_relay_frames t frames abandoned n;
     closed5 ← flush_connections t;
     remove_closed_connections (closed1 ++ closed2 ++ closed3 ++ closed4 ++ closed5);;
     mret relay_sends) s.
Proof.
  intros [Hs HB] Hn Hcl Hc1 Hc2.
  apply (yields_bind (λ frames s', frames = ServerRelay.batch s ∧ still ids (ServerRelay.after_batch s) s')).
  { exists (ServerRelay.batch s), (ServerRelay.after_batch s). split; [apply ServerRelay.batch_spec, Hs|].
    split; [done|]. split; [by apply holds_after_batch|done]. }
  intros ? s1 [-> H1]. eapply yields_bind; [apply yields_settles; [apply still_replay|exact H1]|]. intros closed3 s2 [H2 Hc3].
  eapply yields_bind; [by apply (send_spec ids t abandoned n s)|]. intros [closed4 sends] s3 [H3 Er3 Hc4 Hsends Hbudget _]. cbn in Hc4, Hsends, Hbudget.
  eapply yields_bind; [apply yields_settles; [apply (still_flush ids s3)|by split]|]. intros closed5 s4 [[H4 Hz] Hc5].
  assert (roster s4 = roster s) as Er by (rewrite (roster_frozen _ _ Hz); exact Er3).
  destruct (remove_closed_spec (closed1 ++ closed2 ++ closed3 ++ closed4 ++ closed5) s4 (proj1 H4)) as (s5 & E5 & H5 & Ho & Eb5).
  { assert (length (connections s4) = length ids) as -> by (destruct H4 as [_ <-]; by rewrite length_fmap).
    rewrite !Forall_app. done. }
  apply (yields_bind (λ _ s', s' = s5)); [by exists tt, s5|]. intros _ ? ->. apply yields_ret.
  pose proof (claims_roster _ s s4 Er Hcl) as Hcl4. split; [done|]. split; [|split].
  - intros j p Hp _. destruct (Ho p) as (i & Hi & Hni & Hr); [by eapply list_elem_of_lookup_2|]. intros r Hpr Hr'.
    apply Hr. apply (Hcl4 i p Hi); [|done..]. intros Hin. apply Hni. rewrite app_assoc. apply elem_of_app. by left.
  - rewrite Eb5. unfold roster in Er. injection Er as _ _ Er. congruence.
  - by rewrite <- HB.
Qed.

Lemma process_ok t readable n s : server_ok s → 0 ≤ n →
  yields (λ sends s', server_ok s' ∧ claims_held [] s' ∧ budget s' = budget s
      ∧ n ≤ sends ∧ (budget s < USIZE_MAX → sends ≤ Z.max n (Z.max (budget s) (zlen (connections s)))))
    (process_connections_impl t readable n) s.
Proof.
  intros Hs Hn. set (ids := id_of <$> connections s). assert (tick_ok ids (budget s) s) as H0 by done.
  assert (zlen (connections s) = zlen ids) as -> by (unfold zlen, ids; by rewrite length_fmap).
  revert H0. generalize (budget s) as B. intros B H0. clearbody ids. clear Hs. unfold process_connections_impl.
  eapply yields_bind; [apply yields_settles; [apply tick_settles; [apply closes_reap_auth|apply plain_reap]|exact H0]|].
  intros closed1 s1 [H1 Hc1]. eapply tick_modify; [exact H1|apply holds_drain|apply drain_budget|]. clear H1. intros H1.
  eapply tick_modify; [exact H1|apply holds_reap_inject|apply reap_inject_budget|]. clear H1. intros H1.
  eapply yields_bind; [apply yields_settles; [apply tick_settles; [apply closes_recv|apply plain_recv]|exact H1]|].
  intros closed2 s2 [H2 Hc2].
  apply (yields_bind (λ _ s', tick_ok ids B s')).
  { destruct (drain_pending_cache_evictions s2) as [a s2'] eqn:E. exists a, s2'. split; [by rewrite E|].
    replace s2' with (snd (drain_pending_cache_evictions s2)) by by rewrite E.
    destruct H2. split; [by apply holds_drain|by rewrite drain_budget]. }
  intros abandoned1 s3 H3. eapply tick_modify; [exact H3|apply holds_detach|done|]. intros H4.
  pose proof (detach_claims (closed1 ++ closed2) s3 (proj1 (proj1 H3))) as Hcl4.
  apply (yields_bind (λ _ s', tick_ok ids B s' ∧ claims_held (closed1 ++ closed2) s')).
  { set (s4 := detach_displaced_route_owners _ s3) in *.
    destruct (drain_pending_cache_evictions s4) as [a s4'] eqn:E. exists a, s4'. split; [by rewrite E|].
    replace s4' with (snd (drain_pending_cache_evictions s4)) by by rewrite E.
    split; [|eapply claims_roster; [apply roster_drain|done]]. destruct H4. split; [by apply holds_drain|by rewrite drain_budget]. }
  intros abandoned2 s5 [H5 Hcl5]. cbv zeta. eapply tick_modify; [exact H5|apply holds_drop_stale|done|]. intros H6.
  apply relay_ok; [done..| |done|done]. eapply claims_roster; [apply roster_drop_stale|done].
Qed.
End tick.
End ServerPoll.
