(* ===== verification/ServerRun.v ===== *)
(** A server over its life: whatever clients, sockets and the application do,
    no operation panics and the invariant holds. *)
From stdpp Require Import sorting.
From S2P Require Import Prelude Bytes Types Buffer F64 Source ChunkState MediaOut Command Modex Handshake Delivery Session ConnRelay ConnSend ConnAuth ConnCommand ConnRecv SessionTotal SessionInv SessionStep SessionRecv SessionCalls SessionSend RelayQueue StreamCache CacheInv Staging Server ServerRelay ServerInv ServerStep ServerFan ServerTick ServerClose ServerPoll.
#[local] Set Warnings "-clear-no-such-hyp".

Module ServerRun.
Import Conn RelayQueue Cache Server Total Invariant Step Recv Calls Sending ServerInv ServerStep ServerFan ServerTick ServerClose ServerPoll.

#[local] Abbreviation any := (λ _, True).

(** * Admission *)

Lemma accepted_among st now fd id t : settings_ok st → (∀ k, t !! k ≠ Some id) → among t (accepted st now fd id).
Proof.
  intros Hs Ht. destruct (start_sound st now fd id t Hs Ht) as (R & A & Ho & []). exists A. split; [exact Ho|].
  split; try done. by intros k i E _.
Qed.

Lemma fresh_id s k : server_ok s → active_publish_routes s !! k ≠ Some (next_conn_id s) ∨ next_conn_id s = EXTERNAL_PUBLISHER_ID_BIT.
Proof.
  intros [] . destruct (decide (next_conn_id s = EXTERNAL_PUBLISHER_ID_BIT)) as [|Hne]; [by right|]. left. intros E.
  destruct (p_owned _ _ _ v_peers0 k _ E) as [(p & Ep & Hp)%list_elem_of_fmap|He].
  - pose proof (p_below _ _ _ v_peers0) as Hb. rewrite Forall_forall in Hb. specialize (Hb p Hp). lia.
  - unfold is_external_publisher_id in He. rewrite Z.bits_above_log2 in He; [done|lia|].
    apply Z.log2_lt_pow2; [lia|]. change (2 ^ 63) with EXTERNAL_PUBLISHER_ID_BIT. lia.
Qed.

(** A server with one more connection. *)
Lemma server_ok_snoc now fd tls addr s : server_ok s → max_connections_reached s = false →
  active_connections_for_ip (peer_ip addr) s < max_per_addr s → next_conn_id s < EXTERNAL_PUBLISHER_ID_BIT →
  server_ok (s <| next_conn_id := next_conn_id s + 1 |> <| conn_ids_issued := true |>
    <| connections := connections s ++ [mkPeer (accepted (settings s) now fd (next_conn_id s)) (server_hooks s) addr tls [] [] []] |>).
Proof.
  intros Hs Hmax Hper Hnext. pose proof (λ k, fresh_id s k Hs) as Hfresh. destruct Hs. set (p := mkPeer _ _ _ _ _ _ _).
  assert (id_of p = next_conn_id s) as Eid by done. split; try done; cbn.
  - lia.
  - destruct v_peers0 as [He Hn Hb Ho]. split; rewrite ?fmap_app, ?Forall_app, ?Forall_singleton.
    + split; [done|]. split; [|constructor]. apply accepted_among; [done|]. intros k. destruct (Hfresh k); [done|lia].
    + cbn. apply NoDup_app. split; [done|]. split; [|apply NoDup_singleton]. intros x (q & -> & Hq)%list_elem_of_fmap Hx.
      apply list_elem_of_singleton in Hx. rewrite Forall_forall in Hb. specialize (Hb q Hq). unfold id_of in *. cbn in Hx. lia.
    + split; [|rewrite Eid; lia]. eapply Forall_impl; [exact Hb|]. intros q Hq. cbn in *. lia.
    + intros k id E. destruct (Ho k id E); [left|by right]. apply elem_of_app. by left.
  - eapply queue_weaken; [|exact v_orphaned0]. intros id [Hid Hni]. split; [lia|]. rewrite fmap_app, elem_of_app. cbn.
    intros [?|Hx%list_elem_of_singleton]; [done|]. unfold id_of in Hx. cbn in Hx. lia.
  - intros Hm. unfold max_connections_reached in Hmax. rewrite zlen_app. change (zlen [p]) with 1. lia.
  - intros ip. specialize (v_per_addr0 ip). unfold active_connections_for_ip, max_per_addr in *. cbn in *.
    rewrite List.filter_app, zlen_app. cbn. case_bool_decide as E; cbn; [subst ip; unfold zlen at 2; cbn; lia|].
    change (zlen []) with 0. lia.
Qed.

Lemma add_connection_ok now fd tls addr s : server_ok s → server_ok (snd (add_connection now fd tls addr s)).
Proof.
  intros Hs. unfold add_connection. destruct (max_connections_reached s) eqn:Em; [done|].
  destruct (Z.leb_spec (max_per_addr s) (active_connections_for_ip (peer_ip addr) s)); [done|]. unfold allocate_conn_id.
  destruct ((next_conn_id s =? 0) || (EXTERNAL_PUBLISHER_ID_BIT <=? next_conn_id s)) eqn:Ea; [done|]. cbn.
  apply server_ok_snoc; [done..|]. lia.
Qed.

Lemma accept_ok now backlog : ∀ serviced s, server_ok s → server_ok (accept_new_connections now backlog serviced s).
Proof.
  induction backlog as [|[[fd tls] addr] backlog IH]; intros serviced s Hs; cbn [accept_new_connections]; [done|].
  repeat case_match; [done..|]. by apply IH, add_connection_ok.
Qed.

(** A new connection claims nothing. *)
Lemma add_claims now fd tls addr s : claims_held [] s → claims_held [] (snd (add_connection now fd tls addr s)).
Proof.
  intros Hs. unfold add_connection. repeat case_match; try done.
  - unfold allocate_conn_id in *. repeat case_match; simplify_eq. intros j p Hp Hj. cbn in *.
    apply lookup_app_Some in Hp as [Hp|[_ Hp]]; [by apply (Hs j)|]. apply list_lookup_singleton_Some in Hp as [_ <-]. by intros r _.
  - unfold allocate_conn_id in *. by repeat case_match; simplify_eq.
Qed.

Lemma accept_claims now backlog : ∀ serviced s, claims_held [] s → claims_held [] (accept_new_connections now backlog serviced s).
Proof.
  induction backlog as [|[[fd tls] addr] backlog IH]; intros serviced s Hs; cbn [accept_new_connections]; [done|].
  repeat case_match; [done..|]. by apply IH, add_claims.
Qed.

(** * Polls *)

Section poll.
Context {order : Iteration} {laws : IterationLaws}.

Lemma server_poll_ok t readable backlog s : server_ok s → running s = true →
  yields (λ _ s', server_ok s' ∧ claims_held [] s') (poll_impl t readable backlog) s.
Proof.
  intros Hs Hr. unfold poll_impl. apply (yields_bind (λ x s', x = s ∧ s' = s)); [by exists s, s|]. intros ? ? [-> ->].
  rewrite Hr. cbn [negb]. apply (yields_bind (λ _ s', s' = s)); [by exists tt, s|]. intros _ ? ->.
  eapply yields_bind; [by apply process_ok|]. intros sends s1 (H1 & Hc1 & _ & Hsends & _). cbv zeta.
  apply (yields_bind (λ _ s', s' = s1)); [by exists s1, s1|]. intros s1' ? ->.
  set (s2 := accept_new_connections (tick_now t) backlog 0 s1). apply (yields_bind (λ _ s', s' = s2)); [by exists tt, s2|]. intros _ ? ->.
  assert (server_ok s2) as H2 by by apply accept_ok. assert (claims_held [] s2) as Hc2 by by apply accept_claims.
  apply (yields_bind (λ _ s', s' = s2)); [by exists s2, s2|]. intros s2' ? ->. case_bool_decide.
  { by exists tt, s2. }
  set (s3 := s2 <| relay_interleave_inject_first := relay_interleave_inject_first s |>).
  apply (yields_bind (λ _ s', s' = s3)); [by exists tt, s3|]. intros _ ? ->.
  assert (server_ok s3) as H3 by (destruct H2; by split).
  match goal with |- yields _ (ignore (process_connections_impl _ ?r _)) _ =>
    destruct (process_ok t r sends s3 H3) as (x & s4 & E & H4 & Hc4 & _); [lia|] end.
  exists tt, s4. unfold ignore. by rewrite E.
Qed.
End poll.

(** * Socket-less publishers *)

Lemma external_lor n : external (Z.lor EXTERNAL_PUBLISHER_ID_BIT n).
Proof. unfold external, is_external_publisher_id. rewrite Z.lor_spec. by change (Z.testbit EXTERNAL_PUBLISHER_ID_BIT 63) with true. Qed.

(** Another route for the ids that are not of connections. *)
Lemma peers_external t l next k id : peers_ok t l next → next ≤ EXTERNAL_PUBLISHER_ID_BIT → external id →
  peers_ok (<[k := id]> t) l next.
Proof.
  intros [He Hn Hb Ho] Hnext Hx. split; try done.
  - apply Forall_lookup_2. intros j p Hp. pose proof (Forall_lookup_1 _ _ _ _ He Hp) as [Ha Hr]. split; [|done].
    eapply among_elsewhere; [exact Ha|]. intros k' E. apply lookup_insert_Some in E as [[_ E]|[_ E]]; [|done]. exfalso.
    pose proof (Forall_lookup_1 _ _ _ _ Hb Hp) as Hid. cbn in Hid. unfold id_of in *.
    unfold external, is_external_publisher_id in Hx. rewrite E, Z.bits_above_log2 in Hx; [done|lia|].
    apply Z.log2_lt_pow2; [lia|]. change (2 ^ 63) with EXTERNAL_PUBLISHER_ID_BIT. lia.
  - intros k' i [[_ <-]|[_ E]]%lookup_insert_Some; [by right|by eapply Ho].
Qed.

Lemma claim_ok key s : server_ok s → keeps server_ok external (claim_external key) ∧ relay_limit (snd (claim_external key s)) = relay_limit s
  ∧ pending_injected_relay (snd (claim_external key s)) = pending_injected_relay s.
Proof.
  intros _. split; [|unfold claim_external; repeat case_match; done]. clear s. intros s Hs. unfold claim_external.
  destruct (active_publish_routes s !! key) as [owner|].
  { case_decide as E; [|done]. split; [done|]. by apply (v_external _ Hs key). }
  destruct (_ <=? _); [done|]. unfold allocate_external_publisher_id. destruct (external_route_ids s !! key) as [id|] eqn:E.
  - assert (external id) as Hx by by apply (v_external _ Hs key). split; [|done]. destruct Hs. split; try done. apply peers_external; [done|apply v_next0|done].
  - cbv zeta. set (id := Z.lor _ _). assert (external id) as Hx by apply external_lor. split; [|done]. destruct Hs.
    split; try done; cbn; [apply peers_external; [done|apply v_next0|done]|by apply map_Forall_insert_2].
Qed.

Lemma normalized_frame ft ts payload c app name id : is_u32 ts → bytes_ok payload → bytes_ok (Modex.view c) →
  frame_ok (mkRelayFrame ft ts payload (Relay.owned_payload c) app name id).
Proof. intros Hts Hp Hc. split; [done..|]. unfold cache_payload. cbn. by destruct c. Qed.

(** Room for one more injected frame. *)
Lemma injected_snoc f s : server_ok s → relayable f → external (rf_publisher_conn_id f) →
  zlen (pending_injected_relay s) < MAX_PENDING_RELAY_FRAMES →
  sumZ retained_bytes (pending_injected_relay s) + retained_bytes f ≤ relay_limit s →
  server_ok (s <| pending_injected_relay := pending_injected_relay s ++ [f] |>).
Proof.
  intros [] Hf Hx Hc Hb. split; try done. destruct v_injected0. cbn. unfold relay_limit in *. cbn in *.
  split; [apply Forall_app; split; [done|by apply Forall_singleton]|rewrite zlen_app; change (zlen [f]) with 1; lia|].
  rewrite sumZ_app. cbn. lia.
Qed.

Lemma inject_ok now a name ft ts payload : is_u32 ts → bytes_ok payload →
  keeps server_ok any (inject_relay_frame now a name ft ts payload).
Proof.
  intros Hts Hp. unfold inject_relay_frame.
  apply (keeps_bind _ (λ _, zlen payload ≤ RTMP_WIRE_MAX_MSG_LENGTH)); [apply keeps_guard; lia|intros _ Hlen].
  apply (keeps_bind _ any); [by apply keeps_guard|intros _ _]. apply (keeps_bind _ any); [by apply keeps_guard|intros _ _].
  destruct (normalize_total payload CAPS_EX_MASK_MODEX ft Hp) as (c & -> & Hc).
  apply (keeps_bind _ (λ x, x = c)); [by apply keeps_lift|intros ? ->]. cbv zeta. intros s Hs.
  rewrite (bind_ok get_st _ s s s eq_refl). set (refuse := _ || _). destruct refuse eqn:Er; [done|]. rewrite guard_pass by done.
  destruct (claim_ok (a, name) s Hs) as (Hk & El & Eq). destruct (Hk s Hs) as [H1 Hid]. unfold mbind, ST_bind.
  destruct (claim_external (a, name) s) as [[id|e|] s1]; [|done..]. cbn [fst snd] in *. split; [|done].
  set (f := mkRelayFrame ft ts payload (Relay.owned_payload c) a name id).
  assert (retained_bytes f = retained_bytes (mkRelayFrame ft ts payload (Relay.owned_payload c) a name 0)) as Ef by done.
  subst refuse. rewrite <- Ef in Er. fold (relay_limit s) in Er. pose proof (retained_nonneg f).
  pose proof (sum_retained_nonneg (pending_injected_relay s)).
  assert (relay_limit s ≤ ISIZE_MAX) as Hl by apply (v_settings _ Hs). unfold saturating_add in Er.
  assert (sumZ retained_bytes (pending_injected_relay s) + retained_bytes f ≤ relay_limit s) as Hsum.
  { unfold ISIZE_MAX, USIZE_MAX in *. lia. }
  assert (server_ok (s1 <| pending_injected_relay := pending_injected_relay s1 ++ [f] |>)) as [].
  { apply injected_snoc; [done| |done|rewrite Eq; lia|rewrite Eq, El; lia]. split; [by apply normalized_frame|done|lia]. }
  by split.
Qed.

(** * Calls of the application *)

Lemma keeps_server {B} (Q : B → Prop) m : (∀ ids, keeps (holds_for ids) Q m) → keeps server_ok Q m.
Proof. intros Hm s Hs. by destruct (Hm (id_of <$> connections s) s) as [[H _] Hr]. Qed.

Lemma good_server f s : (∀ ids s, holds_for ids s → holds_for ids (f s)) → server_ok s → server_ok (f s).
Proof. intros Hf Hs. by destruct (Hf (id_of <$> connections s) s). Qed.

Lemma find_conn_inside ids id i s : holds_for ids s → find_conn id s = Some i → (i < length ids)%nat.
Proof.
  intros [_ <-] (p & Hp & _)%find_index_some. rewrite length_fmap. by eapply lookup_lt_Some.
Qed.

Section calls.
Context {order : Iteration} {laws : IterationLaws}.

Lemma runs_peer {B} ids i (m : ST World B) : (i < length ids)%nat → (∀ id R0, keeps (session_of id R0) any m) →
  keeps (holds_for ids) any (on_peer i (λ _, m)).
Proof. intros Hi Hm. apply keeps_on_peer; [done|]. intros. apply Hm. Qed.

Lemma flush_peer ids i now : (i < length ids)%nat → keeps (holds_for ids) any (on_peer i (λ _, Sender.flush now)).
Proof. intros Hi. apply runs_peer; [done|]. intros. apply runs_fine. intros A. apply fine_flush. Qed.

Lemma complete_publish_ok now id rid allow : keeps server_ok any (complete_publish_authorization now id rid allow).
Proof.
  apply keeps_server. intros ids s Hs. unfold complete_publish_authorization.
  destruct (find_conn id s) as [i|] eqn:Ei; [|done]. pose proof (find_conn_inside _ _ _ _ Hs Ei) as Hi. revert s Hs Ei.
  enough (keeps (holds_for ids) any (on_peer i (λ _, Auth.complete_publish_authorization now rid allow);; ignore (on_peer i (λ _, Sender.flush now))))
    as H by (intros; by apply H).
  apply (keeps_bind _ any); [|intros _ _; by eapply keeps_ignore; [apply flush_peer|]].
  apply runs_peer; [done|]. intros. apply runs_fine. intros A. by apply fine_publish_completed.
Qed.

Lemma complete_play_ok now id rid allow : keeps server_ok any (complete_play_authorization now id rid allow).
Proof.
  apply keeps_server. intros ids s Hs. unfold complete_play_authorization.
  destruct (find_conn id s) as [i|] eqn:Ei; [|done]. pose proof (find_conn_inside _ _ _ _ Hs Ei) as Hi. revert s Hs Ei.
  enough (keeps (holds_for ids) any (on_peer i (λ _, Auth.complete_play_authorization now rid allow);;
    s ← get_st; failed ← on_peer i (λ _, replay_init_frames_for_conn (stream_cache (caches s)));
    if failed : bool then mret tt else ignore (on_peer i (λ _, Sender.flush now)))) as H by (intros; by apply H).
  apply (keeps_bind _ any).
  { apply runs_peer; [done|]. intros. apply runs_fine. intros A. by apply fine_play_completed. }
  intros _ _. apply (keeps_bind _ (holds_for ids)); [apply keeps_get|]. intros s [Hs _]. apply (keeps_bind _ any).
  { apply runs_peer; [done|]. intros. apply settles_keeps, goes_replay, (v_cache _ Hs). }
  intros [] _; [by apply keeps_ret|]. by eapply keeps_ignore; [apply flush_peer|].
Qed.

Lemma reconnect_ok now id tc_url description : keeps server_ok any (request_reconnect now id tc_url description).
Proof.
  apply keeps_server. intros ids s Hs. unfold request_reconnect.
  destruct (find_conn id s) as [i|] eqn:Ei; [|done]. pose proof (find_conn_inside _ _ _ _ Hs Ei) as Hi. revert s Hs Ei.
  enough (keeps (holds_for ids) any (on_peer i (λ _, Sender.send_reconnect_request tc_url description);; on_peer i (λ _, Sender.flush now)))
    as H by (intros; by apply H).
  apply (keeps_bind _ any); [|intros _ _; by apply flush_peer].
  apply runs_peer; [done|]. intros. apply runs_fine. intros A. apply fine_encoded; [done|apply writes_reconnect|]. intros. apply fine_command.
Qed.

Lemma release_ok key s : server_ok s → server_ok (release_injected_route key s).
Proof. apply good_server. intros. by apply holds_release. Qed.

Lemma release_all_ok s : server_ok s → server_ok (release_all_injected_routes s).
Proof.
  intros Hs. unfold release_all_injected_routes. set (s1 := foldl _ _ _). assert (server_ok s1) as [].
  { apply (good_server (λ s1, foldl _ s1 _)); [|done]. intros. apply holds_foldl; [|done]. intros. by apply holds_release. }
  by split.
Qed.

(** ** Stopping *)

Lemma release_each ids s : ∃ t, foldl (λ s id, release_all_publish_routes id s) s ids = s <| active_publish_routes := t |>
  ∧ ∀ k id, t !! k = Some id → active_publish_routes s !! k = Some id ∧ id ∉ ids.
Proof.
  revert s. induction ids as [|i ids IH]; intros s.
  { exists (active_publish_routes s). split; [by destruct s|]. intros k id E. split; [done|]. by apply not_elem_of_nil. }
  cbn [foldl]. destruct (IH (release_all_publish_routes i s)) as (t & -> & Ht). exists t. split; [done|].
  intros k id E. destruct (Ht k id E) as [Ek Hn]. cbn in Ek. apply map_lookup_filter_Some in Ek as [Ek Hne]. cbn in Hne.
  split; [done|]. rewrite not_elem_of_cons. done.
Qed.

Lemma stop_ok s : server_ok s → server_ok (stop s).
Proof.
  intros Hs. unfold stop. cbv zeta. change ((λ p, conn_id (peer_conn p)) <$> connections s) with (id_of <$> connections s).
  destruct (release_each (id_of <$> connections s) (s <| running := false |>)) as (t & -> & Ht).
  set (s1 := s <| running := false |> <| active_publish_routes := t |> <| connections := [] |>).
  assert (server_ok s1) as H1.
  { destruct Hs. split; try done; cbn.
    - split; [constructor|constructor|constructor|]. cbn. intros k id E. destruct (Ht k id E) as [Ek Hn]. cbn in Ek.
      destruct (p_owned _ _ _ v_peers0 k id Ek); [done|by right].
    - eapply queue_weaken; [|exact v_orphaned0]. intros id [Hg _]. split; [done|]. apply not_elem_of_nil.
    - intros Hm. etrans; [|by apply v_count0]. apply zlen_nonneg.
    - intros ip. etrans; [|apply (v_per_addr0 ip)]. unfold active_connections_for_ip. cbn. apply zlen_nonneg. }
  destruct (release_all_ok s1 H1). split; try done; cbn.
  - assert (0 ≤ max_cache_bytes (caches (release_all_injected_routes s1))) as Hm.
    { etrans; [|apply (CacheInv.c_bytes _ v_cache0)]. apply msum_nonneg. apply CacheInv.entry_bytes_nonneg. }
    destruct (CacheInv.cache_start_ok _ Hm). by split.
  - destruct v_injected0. split; [constructor|done|]. etrans; [|exact u_bytes0]. apply sum_retained_nonneg.
  - destruct v_orphaned0. split; [constructor|done|]. etrans; [|exact u_bytes0]. apply sum_retained_nonneg.
Qed.
End calls.

(** * Operations *)

(** What happens to a server: calls of the application, what it sets, and what
    the sockets of a connection will return to reads and writes. *)
Inductive Op : Type :=
  | Listen
  | Arrive (i : nat) (incoming : list Received) (answers : list (nat + ErrorCode))
  | Poll (t : Tick) (readable : option (gset Z)) (backlog : list (Z * bool * IpAddr))
  | Process (t : Tick) (readable : option (gset Z))
  | Inject (now : Z) (app stream_name : bytes) (frame_type : FrameType) (timestamp : Z) (payload : bytes)
  | ReleaseInjected (key : Route)
  | ReleaseAllInjected
  | PublishDecided (now id request_id : Z) (allow : bool)
  | PlayDecided (now id request_id : Z) (allow : bool)
  | Reconnect (now id : Z) (tc_url description : option bytes)
  | EnableExport (max_frames max_bytes : Z)
  | DisableExport
  | DrainExport
  | SetSendBudget (n : Z)
  | SetFlowLimits (limits : PlayerFlowLimits)
  | SetAuthTimeout (timeout : Z)
  | Stop.

Section ops.
Context {order : Iteration} {laws : IterationLaws}.

Definition arrive (incoming : list Received) (answers : list (nat + ErrorCode)) (p : Peer) : Peer :=
  p <| peer_incoming := peer_incoming p ++ incoming |> <| peer_net := peer_net p ++ answers |>.

Definition op (o : Op) : ST Server unit :=
  match o with
  | Listen => modify bind_listener
  | Arrive i incoming answers => upd_peer i (arrive incoming answers)
  | Poll t readable backlog => poll_impl t readable backlog
  | Process t readable => ignore (process_connections_impl t readable 0)
  | Inject now app stream_name frame_type timestamp payload => inject_relay_frame now app stream_name frame_type timestamp payload
  | ReleaseInjected key => modify (release_injected_route key)
  | ReleaseAllInjected => modify release_all_injected_routes
  | PublishDecided now id request_id allow => complete_publish_authorization now id request_id allow
  | PlayDecided now id request_id allow => complete_play_authorization now id request_id allow
  | Reconnect now id tc_url description => request_reconnect now id tc_url description
  | EnableExport max_frames max_bytes => modify (enable_relay_export max_frames max_bytes)
  | DisableExport => modify disable_relay_export
  | DrainExport => modify (λ s, snd (drain_exported_relay_frames s))
  | SetSendBudget n => modify (λ s, s <| max_relay_sends_per_poll := n |>)
  | SetFlowLimits limits => modify (λ s, s <| flow_limits := limits |>)
  | SetAuthTimeout timeout => modify (λ s, s <| pending_auth_timeout := timeout |>)
  | Stop => modify stop
  end.

(** Inputs that are octets, and timestamps that fit their field. *)
Definition op_ok (o : Op) : Prop :=
  match o with
  | Arrive _ incoming _ => Forall received_ok incoming
  | Inject _ _ _ _ timestamp payload => is_u32 timestamp ∧ bytes_ok payload
  | _ => True
  end.

Definition run (ops : list Op) (s : Server) : Server := foldl (λ s o, snd (op o s)) s ops.

(** A server, and the base its connection ids start from. *)
Definition start (st : Settings) (max_conns max_per_addr : Z) (h : Hooks) (base : Z) : Server :=
  snd (set_conn_id_base base (with_tls_ctx st max_conns max_per_addr h)).

Definition limits_ok (st : Settings) (base : Z) : Prop :=
  settings_ok st ∧ 0 ≤ rl_max_stream_cache_bytes (st_limits st) ≤ ISIZE_MAX ∧ 0 < base < EXTERNAL_PUBLISHER_ID_BIT.

Lemma queue_nil P m : 0 ≤ m → queue_ok P m [].
Proof. intros Hm. split; [constructor|done|done]. Qed.

Lemma server_start_ok st max_conns per_addr h base : limits_ok st base → server_ok (start st max_conns per_addr h base).
Proof.
  intros (Hs & Hc & Hb). unfold start, set_conn_id_base.
  assert ((base =? 0) || (EXTERNAL_PUBLISHER_ID_BIT <=? base) = false) as -> by lia. cbn -[EXTERNAL_PUBLISHER_ID_BIT].
  split; try done; cbn.
  - apply CacheInv.cache_start_ok, Hc.
  - apply Hc.
  - lia.
  - split; [constructor|constructor|constructor|]. intros k id E. by rewrite lookup_empty in E.
  - apply queue_nil, Hs.
  - apply queue_nil, Hs.
  - intros Hm. change (0 ≤ max_conns). lia.
  - intros ip. change (0 ≤ if 0 <? per_addr then per_addr else DEFAULT_MAX_CONNECTIONS_PER_ADDR). unfold DEFAULT_MAX_CONNECTIONS_PER_ADDR.
    case_match; lia.
Qed.

(** A change of what the invariant does not read. *)
Lemma server_note (f : Server → Server) : (∀ s, server_ok s → server_ok (f s)) → keeps server_ok any (modify f).
Proof. intros Hf. by apply keeps_modify. Qed.

Lemma server_op_keeps o : op_ok o → keeps server_ok any (op o).
Proof.
  intros Ho. destruct o; cbn [op]; try (apply server_note; intros s []; by split).
  - apply server_note. intros s. apply (good_server (λ s, s <| connections := alter (arrive incoming answers) i (connections s) |>)).
    intros ids s' Hs'. apply holds_alter; [done..|]. intros p Hp. by apply Forall_app.
  - intros s Hs. destruct (running s) eqn:Er.
    + destruct (server_poll_ok t readable backlog s Hs Er) as ([] & s' & -> & H & _). done.
    + unfold poll_impl. rewrite (bind_ok get_st _ s s s eq_refl), Er. done.
  - intros s Hs. destruct (process_ok t readable 0 s Hs) as (n & s' & E & H & _); [done|]. unfold ignore. by rewrite E.
  - destruct Ho. by apply inject_ok.
  - apply server_note, release_ok.
  - apply server_note, release_all_ok.
  - apply complete_publish_ok.
  - apply complete_play_ok.
  - apply reconnect_ok.
  - apply server_note. intros s Hs. unfold drain_exported_relay_frames, drain_exported_relay_frames_with_hints.
    destruct (relay_export s); [|done]. destruct (RelayExportBuffer.drain r). destruct Hs. by split.
  - apply server_note, stop_ok.
Qed.

Lemma server_run_snoc ops o s : run (ops ++ [o]) s = snd (op o (run ops s)).
Proof. unfold run. by rewrite foldl_app. Qed.

Lemma server_run_ok ops s : server_ok s → Forall op_ok ops → server_ok (run ops s).
Proof.
  intros Hs. induction ops as [|o ops IH] using rev_ind; intros H; [done|]. apply Forall_app in H as [Hops [Ho _]%Forall_cons].
  rewrite server_run_snoc. by apply (server_op_keeps o Ho), IH.
Qed.

(** * Properties of a server *)

(** C6. No panic over the life of a server. Whatever clients send, whatever
    sockets and callbacks return and the clock says, in whichever order the
    application makes the calls of [Op] and maps are iterated: every connection
    keeps the invariant of its session; connections stay within the configured
    number, in total and per address, and have distinct ids below the next one
    to be given; the registry of routes names only live connections and injected
    publishers; the queues of injected and orphaned frames and the init cache
    stay within their limits. The next operation does not panic, and a poll of a
    running server succeeds. *)
Theorem server_never_panics st max_conns per_addr h base ops o : limits_ok st base → Forall op_ok (ops ++ [o]) →
  let s := run ops (start st max_conns per_addr h base) in
  server_ok s ∧ fst (op o s) ≠ Panic
  ∧ ∀ t readable backlog, o = Poll t readable backlog → running s = true → fst (op o s) = Ok tt.
Proof.
  intros Hl [Hops [Ho _]%Forall_cons]%Forall_app s. assert (server_ok s) as Hs by by apply server_run_ok, Hops; apply server_start_ok.
  split; [done|]. split.
  - destruct (server_op_keeps o Ho s Hs) as [_ Hr]. intros E. by rewrite E in Hr.
  - intros t readable backlog -> Er. destruct (server_poll_ok t readable backlog s Hs Er) as ([] & s' & E & _). cbn [op]. by rewrite E.
Qed.

(** The route a connection claims. *)
Definition claim (p : Peer) : option Route :=
  if publish_routes (peer_conn p) then (λ r, (app (peer_conn p), r)) <$> claimed_publish_route (peer_conn p) else None.

Lemma claim_held s j p k : claims_held [] s → connections s !! j = Some p → claim p = Some k →
  active_publish_routes s !! k = Some (conn_id (peer_conn p)).
Proof.
  intros Hs Hp Hc. unfold claim in Hc. destruct (publish_routes (peer_conn p)) eqn:Epr; [|done].
  apply fmap_Some in Hc as (r & Er & ->). apply (Hs j p Hp); [apply not_elem_of_nil|done..].
Qed.

(** C7. One publisher per route. After a poll of a running server, the route a
    connection claims is registered for that connection: it lost no claim
    without having been detached. So no two connections claim the same route,
    and no route is claimed by a connection and injected at once. *)
Theorem routes_exclusive st max_conns per_addr h base ops t readable backlog : limits_ok st base → Forall op_ok ops →
  let s := run ops (start st max_conns per_addr h base) in
  running s = true →
  let s' := snd (op (Poll t readable backlog) s) in
  (∀ i p k, connections s' !! i = Some p → claim p = Some k →
     active_publish_routes s' !! k = Some (conn_id (peer_conn p)) ∧ is_external_publisher_id (conn_id (peer_conn p)) = false)
  ∧ ∀ i j p q k, connections s' !! i = Some p → connections s' !! j = Some q → claim p = Some k → claim q = Some k → i = j.
Proof.
  intros Hl Hops s Hr s'. assert (server_ok s) as Hs by by apply server_run_ok, Hops; apply server_start_ok.
  destruct (server_poll_ok t readable backlog s Hs Hr) as ([] & s1 & E & H1 & Hc).
  assert (s' = s1) as -> by (unfold s'; cbn [op]; by rewrite E). clear E. split.
  - intros i p k Hp Hk. split; [by eapply claim_held|]. apply not_true_is_false. apply (local_id s1 p H1). by eapply list_elem_of_lookup_2.
  - intros i j p q k Hp Hq Hkp Hkq. pose proof (claim_held s1 i p k Hc Hp Hkp) as Ep. pose proof (claim_held s1 j q k Hc Hq Hkq) as Eq.
    apply (NoDup_lookup (id_of <$> connections s1) i j (id_of p)); [apply (v_peers _ H1)|..];
      rewrite list_lookup_fmap; [by rewrite Hp|rewrite Hq; cbn; f_equal; unfold id_of; congruence].
Qed.

End ops.

(** ** A sample: a publisher, a player of an injected route *)

#[local] Instance sample_order : Iteration := λ K _ _ V m, map_to_list m.
#[local] Instance sample_laws : IterationLaws.
Proof. by intros K ?? V m. Qed.

Definition sample_tick (now : Z) : Tick := mkTick now now (λ _, (Handshake.mkSeed 1 2 3, Handshake.mkSeed 4 5 6)).
Definition sample_client (m : ST Buffer unit) : list Received :=
  Data <$> [3 :: zrepeat 0 1536 ++ zrepeat 0 1536;
    command_of 0 (Command.build_connect (text "live") (text "rtmp://x/live") [] [] [] (F64.of_int 0) (F64.of_int 0) None);
    command_of 0 (Command.build_create_stream (F64.of_int 2));
    command_of 1 m].
Definition sample_ops : list Op :=
  [Listen; Poll (sample_tick 0) None [(3, false, V4 1); (4, false, V4 2)];
   Arrive 0 (sample_client (Command.build_publish (text "cam") (text "live"))) [];
   Arrive 1 (sample_client (Command.build_play (text "ext"))) []].
Definition sample_inject (ts : Z) : Op := Inject 20 (text "live") (text "ext") Audio ts [175; 1; 33].
Definition sample_start : Server := start sample_settings 10 4 no_hooks 1.

Lemma sample_limits_ok : limits_ok sample_settings 1.
Proof. split; [apply sample_settings_ok|]. by vm_compute. Qed.

Lemma sample_client_ok m : forallb (λ r, match r with Data d => bytes_okb d | _ => true end) (sample_client m) = true →
  Forall received_ok (sample_client m).
Proof.
  intros H. apply Forall_forall. intros r Hr%list_elem_of_In. rewrite forallb_forall in H. specialize (H r Hr).
  destruct r; [by apply bytes_okb_ok|done..].
Qed.

Lemma sample_ops_fine : Forall op_ok sample_ops.
Proof.
  assert (op_ok (Arrive 0 (sample_client (Command.build_publish (text "cam") (text "live"))) [])) as H1
    by (apply sample_client_ok; vm_compute; reflexivity).
  assert (op_ok (Arrive 1 (sample_client (Command.build_play (text "ext"))) [])) as H2
    by (apply sample_client_ok; vm_compute; reflexivity).
  unfold sample_ops. do 2 (apply Forall_cons_2; [exact I|]). apply Forall_cons_2; [exact H1|]. by apply Forall_singleton.
Qed.

Lemma server_never_panics_witness :
  let s := run sample_ops sample_start in
  server_ok s ∧ zlen (connections s) = 2 ∧ fst (op (Poll (sample_tick 10) None []) s) = Ok tt.
Proof.
  destruct (server_never_panics sample_settings 10 4 no_hooks 1 sample_ops (Poll (sample_tick 10) None []) sample_limits_ok)
    as (Hs & _ & Hp).
  - apply Forall_app. split; [exact sample_ops_fine|by apply Forall_singleton].
  - split; [exact Hs|]. split; [vm_compute; reflexivity|]. apply (Hp (sample_tick 10) None [] eq_refl). vm_compute. reflexivity.
Defined.

Lemma routes_exclusive_witness :
  let s' := snd (op (Poll (sample_tick 10) None []) (run sample_ops sample_start)) in
  ∃ p, connections s' !! 0%nat = Some p ∧ claim p = Some (text "live", text "cam")
    ∧ active_publish_routes s' !! (text "live", text "cam") = Some 1.
Proof.
  destruct (routes_exclusive sample_settings 10 4 no_hooks 1 sample_ops (sample_tick 10) None [] sample_limits_ok) as [H _].
  - exact sample_ops_fine.
  - vm_compute. reflexivity.
  - set (s' := snd _) in *.
    assert ((λ p, (claim p, conn_id (peer_conn p))) <$> connections s' !! 0%nat = Some (Some (text "live", text "cam"), 1)) as E
      by (vm_compute; reflexivity).
    apply fmap_Some in E as (p & Ep & Eq). injection Eq as Ec Ei. symmetry in Ec, Ei.
    exists p. split; [done|]. split; [exact Ec|]. destruct (H 0%nat p _ Ep Ec) as [Hr _]. rewrite Ei in Hr. exact Hr.
Defined.

(** Two frames for one player, and a budget of one send. *)
Definition sample_queued : list Op := sample_ops ++ [Poll (sample_tick 10) None []; SetSendBudget 1; sample_inject 0; sample_inject 23].

Lemma sample_queued_fine : Forall op_ok sample_queued.
Proof.
  apply Forall_app. split; [exact sample_ops_fine|]. do 2 (apply Forall_cons_2; [exact I|]).
  assert (∀ ts, is_u32 ts → op_ok (sample_inject ts)) as H by (intros ts Hts; split; [done|apply bytes_okb_ok; by vm_compute]).
  apply Forall_cons_2; [apply H; by vm_compute|]. apply Forall_singleton, H. by vm_compute.
Qed.

Definition sample_left (s : Server) : list Z :=
  match build_relay_frame_batch s with
  | (Ok frames, s1) => rf_timestamp <$> pending_injected_relay (snd (send_and_export_relay_frames (sample_tick 20) frames ∅ 0 s1))
  | _ => []
  end.

Lemma sample_left_eq s frames s1 out s2 : build_relay_frame_batch s = (Ok frames, s1) →
  send_and_export_relay_frames (sample_tick 20) frames ∅ 0 s1 = (out, s2) →
  rf_timestamp <$> pending_injected_relay s2 = sample_left s.
Proof. intros E1 E2. unfold sample_left. by rewrite E1, E2. Qed.

Lemma sample_left_some s rest : rf_timestamp <$> pending_injected_relay s = [23] →
  pending_injected_relay s = injected_of rest → rest ≠ [].
Proof. intros E Hi ->. by rewrite Hi in E. Qed.

End ServerRun.
